(* ===== verification/_CoqProject ===== *)
-Q . S2P
Prelude.v
JsNum.v
RegExp.v
JsVal.v
Scanner.v
Mustache.v
MustacheFacts.v
MustachePrint.v
MustacheRender.v
RenderFacts.v
Columns.v
ColumnsEngine.v
ColumnsFacts.v
ColumnsEvents.v
ColumnsTable.v
Callbacks.v
Text.v
CallbacksFacts.v
CallbacksProps.v
Deferred.v
DeferredFacts.v
DeferredProps.v
Core.v
ExtendFacts.v
ExtendProps.v
ElemData.v
ElemDataFacts.v
Queue.v
QueueFacts.v
QueueSteps.v
QueueOps.v
QueueSim.v
QueueProps.v
Param.v
ParamProps.v
AjaxConvert.v
AjaxConvertProps.v
Ajax.v
AjaxFacts.v
AjaxProps.v
AjaxOrder.v
Events.v
EventsNs.v
EventsFacts.v
EventsBubble.v
EventsOff.v
JsDate.v
DateFormat.v
DateFacts.v
DateTokens.v
DateFields.v
DateProps.v
DateTotal.v
Datepicker.v
DatepickerHtml.v
DatepickerUi.v
DatepickerApi.v
DatepickerFacts.v
DatepickerCalendar.v
DatepickerMoves.v
DatepickerProps.v
DatepickerEvents.v
DatepickerOffsets.v
DatepickerClicks.v
Position.v
PositionProps.v
Classes.v
ClassesProps.v
Widget.v
WidgetMethods.v
Regex.v
Sizzle.v
SizzleFacts.v
SizzleEscape.v
SizzleMatch.v
SizzleMatchFacts.v
SizzleMatchProps.v
EventsSizzle.v
Traversal.v
TraversalProps.v
