(* ===== verification/Prelude.v ===== *)
(** * The browser code of org.little: a verification library

    org.little serves web pages from small Java servers; the pages are programs in
    JavaScript, built on the libraries that the repository carries under
    [src/main/config/var/html].  This library models the parts of these programs
    that carry logic of their own, function by function, and proves what makes them
    correct.  Sources are named below by their file in that directory; the copies in
    [htmlfile], [htmlcmd] and in the web applications are the same files.

    ** Parts

    - Templates ([mustache.js]): [Scanner] is the scanner, [Mustache] the parser
      ([parseTemplate], [squashTokens], [nestTokens], [escapeHtml]),
      [MustacheRender] the renderer ([Context] with its lookup cache, [Writer] with
      its template cache).  [RegExp] is the language's backtracking matcher.
    - Tables ([jquery.columns.js]): [Columns] is the state of a table object and
      every method of it, its listeners and the plug-in [$.fn.columns].  It uses a
      template engine through the class [TemplateEngine], which [ColumnsEngine]
      discharges with the model of mustache.js.
    - Core utilities ([jQuery.extend], [each], [map], [merge] and the methods of jQuery
      objects, in [jquery-3.5.1.js]): [Core], on a heap of objects with prototypes.
    - Callback lists ([jQuery.Callbacks]): [Callbacks].
      Callbacks may use any list while one fires, so lists are in a heap and the
      section is open in the function [call] that runs a callback.
    - Deferreds ([jQuery.Deferred], [jQuery.when]): [Deferred].  The closures of
      the code are an inductive type with the captured variables as arguments; the
      state has three callback lists and three locked ones per deferred, built with
      [Callbacks], and the queue of [window.setTimeout].
    - Dates ([ui1121/jquery-ui.js], the date picker): [JsDate] is the language's
      calendar and local time, [DateFormat] has [formatDate], [parseDate],
      [_possibleChars] and the calendar functions.
    - Date picker ([ui1121/jquery-ui.js]): [Datepicker] has the settings, the
      instances, which are objects in a heap, and the methods that compute dates;
      [DatepickerHtml] draws the calendar, [DatepickerUi] shows, hides and answers
      keys and clicks, [DatepickerApi] attaches pickers and is the plugin.
    - Data of elements ([jQuery.Data], [jQuery.data]): [ElemData] has the stores of
      values under camel-cased keys, with caches that callers share, and [$.fn.data].
    - Queues of functions ([jQuery.queue], [$.fn.delay], [$.fn.promise]): [Queue], on
      top of [ElemData] and [Callbacks]; the closures of the code are values.
    - Events ([jQuery.event], [$.fn.on], [one], [off], [trigger]): [Events] has the
      handler lists of elements, their types, namespaces and selectors, event objects,
      dispatch to delegated and direct handlers, and triggering along the elements
      above the target.  [EventsPage] is a page for the examples; [EventsSizzle] puts the
      model of the selector engine in the place that [Events] leaves open.
    - Parameters of requests ([jQuery.param], [serializeArray], [serialize]): [Param].
    - Requests ([jQuery.ajax]): [AjaxConvert] reads responses (headers, the choice of
      a response, the chain of converters), [Ajax] is the life of a request: prefilters
      and transports, the methods of the request, its completion by [done] with
      callbacks, on top of [Callbacks], and global events, abortion and timeouts.
    - Classes of elements ([addClass] and the like): [Classes], on top of [ElemData];
      [Text] has words of strings and the search in strings.
    - Positions ([$.fn.position] of [ui1121/jquery-ui.js]): [Position] has the texts of
      the options, the arithmetic of places and the collision functions.
    - The widget factory ([$.widget] of [ui1121/jquery-ui.js]): [Widget], on the heap of
      [Core] with a table of the closures that function objects are; instances are data
      of their elements ([ElemData]).  A page for the examples is at its end.
    - Selectors (Sizzle, in [jquery-3.5.1.js]): [Sizzle] has the expressions, the filters
      that check what they match, [tokenize] with its cache and the escapes of names, on
      [Regex], the language's matcher for expressions with groups.  [SizzleMatch] matches
      given elements of a document: filters, combinators with what they remember on
      elements, the matchers made of tokens, their cache and their runs.
    - Traversal ([filter], [closest], [parents], [next] and the like, [uniqueSort]):
      [Traversal], on the documents of [SizzleMatch].

    Strings are lists of UTF-16 code units ([Prelude]), numbers are integers with
    the infinities and NaN ([JsNum]), other values are in [JsVal].  An operation
    that may throw answers [res]; one that changes state is in the monad [SM], in
    which an exception keeps the state it was thrown in.  [NoFuel] is the answer of
    a loop or recursion whose bound is used up.

    ** What is shown

    - Templates: parsing inverts printing on every printable template
      ([MustachePrint]); parsing ends, and its result is well nested, with ordered
      spans ([MustacheFacts]); the renderer with its caches refines one without,
      rendering ends, writes what the view has and never lets markup of the view
      through ([RenderFacts]).
    - Tables: pages partition the data, the sort is stable and in order, the filter
      keeps the matching rows ([ColumnsFacts]); the invariant of every sequence of
      events and what [create] shows ([ColumnsEvents]); the markup is a pure
      function of the rows, whatever the engine's cache ([ColumnsTable]).
    - Core: [extend( true, {}, ... )] makes a tree of new objects that is the merging of
      the trees of its sources, and changes nothing else ([ExtendFacts],
      [ExtendProps]).
    - Callback lists: every program moves each list along the steps of a transition
      system ([CallbacksFacts]); a firing whose callbacks fire, change and lock their
      own list against a specification with a list of calls to be made; order of
      calls, replay, removal while firing, uniqueness, lists frozen by an exception
      ([CallbacksProps]).
    - Deferreds: the invariant of all deferreds under arbitrary code of the page
      ([DeferredFacts]); settled once, handlers run from the event loop in order,
      derived promises, [when] ([DeferredProps]).
    - Dates: the days of a month, ISO weeks, and [parseDate] after [formatDate], in
      time zones with the laws below ([DateFacts] to [DateProps]); termination
      and the characters of an input ([DateTotal]).
    - Date picker: dates of settings are starts of days ([DatepickerFacts]), the
      calendar shows whole weeks of consecutive days and drawing ends
      ([DatepickerCalendar], [DatepickerProps]); set and get, moves by keys, clicks,
      typed text, disabled elements, relative dates ([DatepickerMoves] to
      [DatepickerClicks]).
    - Data and queues: values are read under every form of their key and removed
      again, attributes are data ([ElemDataFacts]); the queues of effects refine a
      specification with a list of waiting functions per element and the elements
      that each promise waits for ([QueueFacts] states it, [QueueSteps] to [QueueSim]
      are the simulation, [QueueProps] the theorems); a function that throws stalls
      its queue.
    - Events: the expression for namespaces without syntax characters accepts the
      handlers that have them all ([EventsNs]); the lists of handlers and the listeners of the browser under
      arbitrary programs ([EventsFacts]); the order of calls of a triggered event
      against a reference definition ([EventsBubble]); [off] undoes [on]
      ([EventsOff]); which delegated handlers an event finds, by the meaning of their
      selectors ([EventsSizzle]).
    - Parameters: a query string reads back to the leaves of what it was built from
      under their bracketed names, whatever the names are, and
      [serialize] writes the successful controls ([ParamProps]).
    - Requests: response headers and the chain of conversions against definitions of
      what they mean ([AjaxConvertProps]); under arbitrary programs a request
      completes at most once and the counter of active requests is never too small
      ([AjaxFacts], [AjaxProps], with the names of headers); the order of callbacks and
      events of a completion ([AjaxOrder]).
    - Classes of elements: programs of class methods refine lists of names
      ([ClassesProps]).
    - Positions: elements stay in their container, or are turned to the other side of
      their target ([PositionProps]).
    - Widgets: overriding and [_super] for programs on instances ([WidgetMethods]), where
      the factory goes wrong.
    - Selectors: [tokenize] ends, skips nothing, and its cache does not show
      ([SizzleFacts]); escapes can be undone, and a
      selector that is written with escapes is read as what it says ([SizzleEscape]).
      Matching elements answers what the selector means on the document, whatever
      earlier calls left in the caches and on the elements ([SizzleMatchFacts] has the
      runs, [SizzleMatchProps] the meaning and the theorem).
    - Traversal: the comparison of nodes is the order of the document, and the methods
      answer the elements that they are named after, once and in order
      ([TraversalProps]).

    Behaviour that differs from what the code or its comments mean has a theorem of
    its own: [render_object_member], [no_search_no_rows], [columns_after_destroy],
    [parseDate_endless], [timestamp_not_read], [short_year_not_read],
    [possibleChars_day_of_year], [convert_endless], [constructor_header],
    [extend_cyclic_endless], [empty_name_ends], [fit_pushes_out], [flip_further_out],
    [super_after_throw], [redefined_twice], [extend_changes_prototype],
    [nth_child_upper_case], [open_parenthesis_read], [nth_last_child_order],
    [constructor_matches], [next_twice], [name_not_escaped], [child_prefix_read] and
    [leading_offset_throws].

    ** Bounds

    Loops over a text have its length as their bound, which [parseTemplate_terminates]
    and [parseDate_terminates] show to be enough; the loop for the day of the year
    has 40 turns, enough for a number of three digits.  [NaN] in that loop exceeds
    every bound, as in the code.  The depth of calls of renderers, callbacks and
    deferreds is a parameter; [render_terminates], [fire_in_order], [then_schedules],
    [when_aggregates], [fx_queues_refine], [settle_order], [conversions_chain] and
    [trigger_bubbles] (for the height of the document) give depths that are enough.  The loops of the picker's
    drawing and [offsetString] are bounded by what they count.

    ** What is assumed

    Code of the page, such as callbacks, is arbitrary: the class [Page] and the
    parameters [call] and [user].  Functions in a view ([JsEnv]) answer any value or
    throw, and a section may render any texts, but they do not change the view.
    [FirstOrder] says of functions in a view that they answer no functions.  [ColsEnv] stands for
    the conversions of strings to numbers and dates, regular expressions typed by the
    user and synchronous requests.  [TimeZone] is the host's conversion between local
    time and UTC.  The theorems on dates are for some time zones only: [TimeZoneLaws]
    says that clocks change by at most an hour at a time and offsets differ by at most
    two hours, [HourZone] that clocks change by exactly an hour and skipped times are
    moved forward.  The language does not promise this, and zones such as that of Apia,
    where a day was skipped, are not among them; [spring_zone], [utc] and others show
    that the laws can hold.  [DomLaws] says that a node is
    among the children of its parent, once, and below it; [demo_laws] is a document
    for which it holds.  [Selectors] is the selector engine where elements are
    traversed, what [jQuery( selector )] finds, and the documents of frames.  [NodeOrder] is what a browser says of the order of
    nodes, [tells_order] that it says so truly for the nodes of the document.
    [EventHost] is the selector engine, the document, the table of special events and
    the regular expressions that names of namespaces with syntax characters make, [AjaxHost] the location of the page and the parsing of
    addresses.  [unicode_lower] is the lower case of a code unit beyond ASCII.

    ** Not modelled

    Fractional numbers, except in what only compares them and in positions, which are
    exact rational numbers without rounding; the limit [2^53] (the
    values here stay below it).  Of tables, the timers for measurements.  Of
    deferreds, [promise( obj )] with an object to extend and the hooks that write to
    the console.  Of events, special events with set-up hooks (clicks on check boxes,
    focus and blur), [beforeunload], handler objects in lieu of functions, and the
    properties that are copied from native events.  Of requests, the merging of options, the
    transports and prefilters that jQuery registers itself, and of the deferred all but
    its done and fail lists and its state.  Of widgets, what the methods do to the
    document, which are recorded, functions in the place of [hasOwnProperty], and calls of
    methods on no object.  Of positions, the last call, [elem.offset].  Of templates,
    functions that change the view they are in.  Of selectors, finding elements in a document, pseudo
    classes that work on sets of elements, have selectors of their own or ask for the
    state of the browser, and elements of another document.  Of objects, accessors, frozen objects and
    the length of an array given as a text.  Of the picker, the position on the screen, hover classes, the
    progress of animations and [_dialogDatepicker]; a date that is handed to
    [beforeShowDay] cannot be changed by it.  The other parts of jQuery and jQuery UI
    work on the document and the screen of the browser; the manifest lists them.  The
    Java servers are in another language.

    ** Reading order

    [Prelude], [JsNum], [JsVal], then any part: the file of the part's name, its
    [Facts] files and the files of its properties. *)

From stdpp Require Export base list numbers gmap strings.
From Stdlib Require Export Lia ZArith.
From Stdlib Require Ascii String.
Export Stdlib.Strings.Ascii(ascii(..)).
Export (notations) Stdlib.Strings.Ascii.
#[global] Delimit Scope char_scope with char.


#[global] Set Default Goal Selector "!".
#[global] Open Scope Z_scope.

(** ** JavaScript strings

    A JavaScript string is a sequence of UTF-16 code units; here it is the list
    of the units' numbers.  [str] turns a Rocq literal into such a list and
    [chr] a character literal into its code unit. *)

Abbreviation jstr := (list N).

Definition chr (a : Ascii.ascii) : N := Ascii.N_of_ascii a.
Arguments chr a%_char.
Definition str (s : string) : jstr := List.map chr (String.list_ascii_of_string s).

Arguments chr : simpl never.
Arguments str : simpl never.

(** The code units the sources quote: the double quote, the newline. *)
Definition ch_dquote : N := 34.
Definition ch_nl : N := 10.

(** [String.prototype.charAt], which answers the empty string out of range. *)
Definition charAt (s : jstr) (i : nat) : jstr :=
  match s !! i with Some c => [c] | None => [] end.

(** The code units that the regular expression class [\s] matches (WhiteSpace
    and LineTerminator of the language). *)
Definition is_space (c : N) : bool :=
  ((9 <=? c) && (c <=? 13) || (c =? 32) || (c =? 160) || (c =? 5760)
   || ((8192 <=? c) && (c <=? 8202)) || (c =? 8232) || (c =? 8233)
   || (c =? 8239) || (c =? 8287) || (c =? 12288) || (c =? 65279))%N.

(** The class [\d]. *)
Definition is_digit (c : N) : bool := ((48 <=? c) && (c <=? 57))%N.

Lemma is_digit_iff c : is_digit c = true <-> (48 <= c <= 57)%N.
Proof. unfold is_digit. rewrite andb_true_iff, !N.leb_le. done. Qed.

Lemma not_space_digit c : (48 <= c <= 57)%N -> is_space c = false.
Proof.
  intros Hc. unfold is_space. repeat match goal with
  | |- (_ || _)%bool = false => apply orb_false_iff; split
  | |- (_ && _)%bool = false => apply andb_false_iff; rewrite ?N.leb_gt; lia
  | |- (_ =? _)%N = false => apply N.eqb_neq; lia
  end.
Qed.

(** [String.prototype.toLowerCase]: the letters of ASCII here, the other
    characters as the Unicode data of the host says, one at a time. *)
Definition lower_char (unicode_lower : N -> jstr) (c : N) : jstr :=
  if (c <? 128)%N then [if ((65 <=? c) && (c <=? 90))%N then (c + 32)%N else c] else unicode_lower c.

Definition toLowerCase (unicode_lower : N -> jstr) (s : jstr) : jstr := flat_map (lower_char unicode_lower) s.

(** ** Results of code that may throw

    [Throw e] is an exception that carries the string [e]; [NoFuel] is not a
    behaviour of the code: it says that the model's recursion bound was too
    small, and the theorems show bounds that exclude it. *)

Inductive res (A : Type) : Type :=
  | Ok (a : A)
  | Throw (e : jstr)
  | NoFuel.
Arguments Ok {A} _.
Arguments Throw {A} _.
Arguments NoFuel {A}.

#[export] Instance res_ret : MRet res := fun A a => Ok a.
#[export] Instance res_bind : MBind res := fun A B f m =>
  match m with Ok a => f a | Throw e => Throw e | NoFuel => NoFuel end.
#[export] Instance res_fmap : FMap res := fun A B f m =>
  match m with Ok a => Ok (f a) | Throw e => Throw e | NoFuel => NoFuel end.

Definition is_ok {A} (r : res A) : bool := match r with Ok _ => true | _ => false end.

Lemma bind_Ok_inv {A B} (m : res A) (f : A -> res B) b :
  m ≫= f = Ok b -> exists a, m = Ok a /\ f a = Ok b.
Proof. destruct m as [a|e|]; [by exists a|done..]. Qed.

(** ** Stateful code that may throw

    The state survives an exception, as the mutations of the code do. *)

Definition SM (S A : Type) : Type := S -> res A * S.

#[export] Instance sm_ret {S} : MRet (SM S) := fun A a s => (Ok a, s).
#[export] Instance sm_bind {S} : MBind (SM S) := fun A B f m s =>
  match m s with
  | (Ok a, s') => f a s'
  | (Throw e, s') => (Throw e, s')
  | (NoFuel, s') => (NoFuel, s')
  end.

Definition sm_lift {S A} (r : res A) : SM S A := fun s => (r, s).
Definition sm_get {S A} (f : S -> A) : SM S A := fun s => (Ok (f s), s).
Definition sm_mod {S} (f : S -> S) : SM S unit := fun s => (Ok tt, f s).
Definition sm_throw {S A} (e : jstr) : SM S A := fun s => (Throw e, s).

(** [if (b) { m }]. *)
Definition sm_when {S} (b : bool) (m : SM S unit) : SM S unit := if b then m else mret tt.

(** A loop that runs [f] on the elements in order. *)
Fixpoint sm_each {S A} (f : A -> SM S unit) (l : list A) : SM S unit :=
  match l with [] => mret tt | x :: l' => f x ;; sm_each f l' end.

Lemma sm_run_eq {S A} (m : SM S A) s r : (m s).1 = r -> m s = (r, (m s).2).
Proof. intros <-. by destruct (m s). Qed.

Lemma sm_bind_eq {S A B} (m : SM S A) (f : A -> SM S B) s r t :
  m s = (r, t) -> (m ≫= f) s = match r with
                               | Ok a => f a t
                               | Throw e => (Throw e, t)
                               | NoFuel => (NoFuel, t)
                               end.
Proof. intros E. unfold mbind, sm_bind. rewrite E. by destruct r. Qed.

Lemma sm_get_bind {S A B} (f : S -> A) (k : A -> SM S B) s : (sm_get f ≫= k) s = k (f s) s.
Proof. done. Qed.

Lemma sm_ret_bind {S A B} (a : A) (k : A -> SM S B) s : (mret a ≫= k) s = k a s.
Proof. done. Qed.

Lemma sm_lift_bind {S A B} (a : A) (k : A -> SM S B) s : (sm_lift (Ok a) ≫= k) s = k a s.
Proof. done. Qed.

Lemma sm_mod_bind {S B} (f : S -> S) (k : unit -> SM S B) s : (sm_mod f ≫= k) s = k tt (f s).
Proof. done. Qed.

Lemma sm_bind_inv {S A B} (m : SM S A) (f : A -> SM S B) s b t :
  (m ≫= f) s = (Ok b, t) -> exists a u, m s = (Ok a, u) /\ f a u = (Ok b, t).
Proof.
  unfold mbind, sm_bind. destruct (m s) as [[a|e|] u]; [|done..]. intros H. by exists a, u.
Qed.

(** [m] keeps [P], whether it completes or throws. *)
Definition sm_keeps {S A} (P : S -> Prop) (m : SM S A) : Prop := forall s, P s -> P (m s).2.

Section keeps.
Context {S : Type} (P : S -> Prop).

Lemma keeps_ret {A} (a : A) : sm_keeps P (mret a : SM S A).
Proof. by intros s Hs. Qed.

Lemma keeps_lift {A} (r : res A) : sm_keeps P (sm_lift r : SM S A).
Proof. by intros s Hs. Qed.

Lemma keeps_get {A} (f : S -> A) : sm_keeps P (sm_get f).
Proof. by intros s Hs. Qed.

Lemma keeps_throw {A} e : sm_keeps P (sm_throw e : SM S A).
Proof. by intros s Hs. Qed.

Lemma keeps_mod f : (forall s, P s -> P (f s)) -> sm_keeps P (sm_mod f).
Proof. intros Hf s Hs. by apply Hf. Qed.

Lemma keeps_bind {A B} (m : SM S A) (f : A -> SM S B) :
  sm_keeps P m -> (forall a, sm_keeps P (f a)) -> sm_keeps P (m ≫= f).
Proof.
  intros Hm Hf s Hs. unfold mbind, sm_bind. specialize (Hm s Hs).
  destruct (m s) as [[a|e|] t]; [by apply Hf|done..].
Qed.

Lemma keeps_when b m : sm_keeps P m -> sm_keeps P (sm_when b m).
Proof. intros Hm. destruct b; [done|apply keeps_ret]. Qed.

Lemma keeps_each {A} (f : A -> SM S unit) l : (forall x, sm_keeps P (f x)) -> sm_keeps P (sm_each f l).
Proof.
  intros Hf. induction l as [|x l IH]; [apply keeps_ret|]. apply keeps_bind; [apply Hf|done].
Qed.

End keeps.

(** [m] always ends: from a state of [P] it answers a value of [Q] or throws, and
    the state is in [P] again. *)
Definition sm_total {S A} (P : S -> Prop) (m : SM S A) (Q : A -> Prop) : Prop := forall s, P s ->
  match m s with
  | (Ok a, s') => Q a /\ P s'
  | (Throw _, s') => P s'
  | (NoFuel, _) => False
  end.

Section total.
Context {S : Type} (P : S -> Prop).

Lemma total_ret {A} (a : A) (Q : A -> Prop) : Q a -> sm_total P (mret a) Q.
Proof. by intros Ha s Hs. Qed.

Lemma total_get {A} (f : S -> A) (Q : A -> Prop) : (forall s, P s -> Q (f s)) -> sm_total P (sm_get f) Q.
Proof. intros Hf s Hs. split; [by apply Hf|done]. Qed.

Lemma total_mod f : (forall s, P s -> P (f s)) -> sm_total P (sm_mod f) (fun _ => True).
Proof. intros Hf s Hs. split; [done|by apply Hf]. Qed.

Lemma total_bind {A B} (m : SM S A) (f : A -> SM S B) Q R :
  sm_total P m Q -> (forall a, Q a -> sm_total P (f a) R) -> sm_total P (m ≫= f) R.
Proof.
  intros Hm Hf s Hs. specialize (Hm s Hs). unfold mbind, sm_bind.
  destruct (m s) as [[a|e|] t]; [|done..]. destruct Hm as [Ha Ht]. by apply (Hf a Ha t Ht).
Qed.

Lemma total_mono {A} (m : SM S A) (Q R : A -> Prop) : sm_total P m Q -> (forall a, Q a -> R a) -> sm_total P m R.
Proof.
  intros Hm HQ s Hs. specialize (Hm s Hs). destruct (m s) as [[a|e|] t]; [|done..].
  destruct Hm. auto.
Qed.
End total.

(** [m] completes: from a state of [P] it answers a value of [Q], in a state of [P]
    again. *)
Definition sm_runs {S A} (P : S -> Prop) (m : SM S A) (Q : A -> Prop) : Prop := forall s, P s ->
  exists a s', m s = (Ok a, s') /\ Q a /\ P s'.

Section runs.
Context {S : Type} (P : S -> Prop).

Lemma runs_ret {A} (a : A) (Q : A -> Prop) : Q a -> sm_runs P (mret a : SM S A) Q.
Proof. intros Ha s Hs. by exists a, s. Qed.

Lemma runs_get {A} (f : S -> A) (Q : A -> Prop) : (forall s, P s -> Q (f s)) -> sm_runs P (sm_get f) Q.
Proof. intros Hf s Hs. exists (f s), s. split_and!; [done|by apply Hf|done]. Qed.

Lemma runs_read {A} (f : S -> A) : sm_runs P (sm_get f) (fun _ => True).
Proof. by apply runs_get. Qed.

Lemma runs_mod f : (forall s, P s -> P (f s)) -> sm_runs P (sm_mod f) (fun _ => True).
Proof. intros Hf s Hs. exists tt, (f s). split_and!; [done|done|by apply Hf]. Qed.

Lemma runs_bind {A B} (m : SM S A) (f : A -> SM S B) Q R :
  sm_runs P m Q -> (forall a, Q a -> sm_runs P (f a) R) -> sm_runs P (m ≫= f) R.
Proof.
  intros Hm Hf s Hs. destruct (Hm s Hs) as (a & t & E & Ha & Ht). destruct (Hf a Ha t Ht) as (b & u & E' & Hb & Hu).
  exists b, u. split_and!; [|done..]. unfold mbind, sm_bind. by rewrite E.
Qed.

Lemma runs_when b m : sm_runs P m (fun _ => True) -> sm_runs P (sm_when b m) (fun _ => True).
Proof. intros Hm. destruct b; [done|by apply runs_ret]. Qed.

Lemma runs_mono {A} (m : SM S A) (Q R : A -> Prop) : sm_runs P m Q -> (forall a, Q a -> R a) -> sm_runs P m R.
Proof. intros Hm HQ s Hs. destruct (Hm s Hs) as (a & t & E & Ha & Ht). exists a, t. auto. Qed.
End runs.

(** [m] completes from [s], with an answer and a state of [Q]. *)
Definition comes {S A} (m : SM S A) (s : S) (Q : A -> S -> Prop) : Prop := exists a s', m s = (Ok a, s') /\ Q a s'.

Lemma comes_bind {S A B} (m : SM S A) (k : A -> SM S B) s R Q :
  comes m s R -> (forall a s', R a s' -> comes (k a) s' Q) -> comes (m ≫= k) s Q.
Proof.
  intros (a & s1 & E & Ha) Hk. destruct (Hk a s1 Ha) as (b & s2 & E2 & Hb). exists b, s2. split; [|done].
  by rewrite (sm_bind_eq _ _ _ _ _ E).
Qed.

Lemma comes_ret {S A} (a : A) (s : S) (Q : A -> S -> Prop) : Q a s -> comes (mret a) s Q.
Proof. intros HQ. by exists a, s. Qed.

Lemma comes_mod {S} (f : S -> S) (s : S) (Q : unit -> S -> Prop) : Q tt (f s) -> comes (sm_mod f) s Q.
Proof. intros HQ. by exists tt, (f s). Qed.

Lemma comes_get {S A} (f : S -> A) (s : S) (Q : A -> S -> Prop) : Q (f s) s -> comes (sm_get f) s Q.
Proof. intros HQ. by exists (f s), s. Qed.

Lemma comes_get_bind {S A B} (f : S -> A) (k : A -> SM S B) s Q : comes (k (f s)) s Q -> comes (sm_get f ≫= k) s Q.
Proof. done. Qed.

Lemma comes_ret_bind {S A B} (a : A) (k : A -> SM S B) s Q : comes (k a) s Q -> comes (mret a ≫= k) s Q.
Proof. done. Qed.

Lemma comes_mod_bind {S B} (f : S -> S) (k : unit -> SM S B) s Q : comes (k tt) (f s) Q -> comes (sm_mod f ≫= k) s Q.
Proof. done. Qed.

Lemma comes_mono {S A} (m : SM S A) s (R Q : A -> S -> Prop) : comes m s R -> (forall a s', R a s' -> Q a s') -> comes m s Q.
Proof. intros (a & s1 & E & Ha) Hm. exists a, s1. auto. Qed.

Lemma answers {S A} (m : SM S unit) (v : A) s (R : unit -> S -> Prop) :
  comes m s R -> comes (m ;; mret v) s (fun w s' => w = v /\ R tt s').
Proof. intros Hm. eapply comes_bind; [exact Hm|]. intros [] s' Hs'. by apply comes_ret. Qed.

(** What completes with a known answer. *)
Lemma comes_of {S A} (m : SM S A) a s (Q : S -> Prop) : comes m s (fun b s' => b = a /\ Q s') -> exists s', m s = (Ok a, s') /\ Q s'.
Proof. intros (b & s' & E & -> & HQ). by exists s'. Qed.

(** ** Tactics *)

(** Open existentials, conjunctions and successful binds of the context. *)
Ltac deex :=
  repeat match goal with
  | H : exists _, _ |- _ => destruct H
  | H : _ /\ _ |- _ => destruct H
  | H : _ ≫= _ = Ok _ |- _ => apply bind_Ok_inv in H
  | H : (_ ≫= _) _ = (Ok _, _) |- _ => apply sm_bind_inv in H
  end.

(** From [P (m s).2] to [sm_keeps P m], for a method that looked at [s] first. *)
Ltac keeps_at s :=
  match goal with |- ?P (?m s).2 => assert (sm_keeps P m) as Hkeeps; [|by apply Hkeeps] end.

(** The same for [sm_runs], from a goal on the state that [Hs] is about. *)
Ltac runs_here Hs :=
  match goal with |- exists a s', ?m ?s = _ /\ _ =>
    match type of Hs with ?P s =>
      let R := fresh "R" in
      assert (sm_runs P m (fun _ => True)) as R; [|exact (R s Hs)]
    end
  end.

(** Case analysis on the scrutinee of a [match] or [if] of the goal. *)
Ltac case_head :=
  match goal with
  | |- context [match ?x with _ => _ end] => destruct x eqn:?
  end.

Ltac case_hyp H :=
  match type of H with
  | context [match ?x with _ => _ end] => destruct x eqn:?
  end.

(** [lia] with the equations of the divisions and remainders of the goal. *)
Ltac dlia := zify; Z.to_euclidean_division_equations; lia.

(** Turn boolean comparisons of the context into propositions. *)
Ltac bool_hyps :=
  repeat match goal with
  | H : (_ && _)%bool = true |- _ => apply andb_true_iff in H; destruct H
  | H : (_ || _)%bool = false |- _ => apply orb_false_iff in H; destruct H
  | H : negb _ = true |- _ => apply negb_true_iff in H
  | H : negb _ = false |- _ => apply negb_false_iff in H
  | H : (_ =? _)%N = true |- _ => apply N.eqb_eq in H
  | H : (_ =? _)%N = false |- _ => apply N.eqb_neq in H
  | H : (_ <=? _)%N = true |- _ => apply N.leb_le in H
  | H : (_ <=? _)%N = false |- _ => apply N.leb_gt in H
  | H : (_ <? _)%N = true |- _ => apply N.ltb_lt in H
  | H : (_ <? _)%N = false |- _ => apply N.ltb_ge in H
  | H : (_ =? _)%Z = true |- _ => apply Z.eqb_eq in H
  | H : (_ =? _)%Z = false |- _ => apply Z.eqb_neq in H
  | H : (_ <=? _)%Z = true |- _ => apply Z.leb_le in H
  | H : (_ <=? _)%Z = false |- _ => apply Z.leb_gt in H
  | H : (_ <? _)%Z = true |- _ => apply Z.ltb_lt in H
  | H : (_ <? _)%Z = false |- _ => apply Z.ltb_ge in H
  | H : (_ =? _)%nat = true |- _ => apply Nat.eqb_eq in H
  | H : (_ =? _)%nat = false |- _ => apply Nat.eqb_neq in H
  | H : (_ <? _)%nat = true |- _ => apply Nat.ltb_lt in H
  | H : (_ <? _)%nat = false |- _ => apply Nat.ltb_ge in H
  | H : (_ <=? _)%nat = true |- _ => apply Nat.leb_le in H
  | H : (_ <=? _)%nat = false |- _ => apply Nat.leb_gt in H
  end.

(** ** The hint database of the development *)

Create HintDb jslib discriminated.
Create Rewrite HintDb jslib.
#[export] Hint Rewrite @length_app @length_map @length_cons @length_nil : jslib.

#[export] Hint Resolve keeps_ret keeps_lift keeps_get keeps_throw keeps_when keeps_each : jslib.
#[export] Hint Resolve keeps_bind | 5 : jslib.

(** ** Lists *)

Lemma app_nonempty_r {A} (l : list A) x : l ++ [x] <> [].
Proof. by destruct l. Qed.

#[export] Hint Resolve app_nonempty_r : jslib.

Lemma Forall_submseteq {A} (P : A -> Prop) l k : l ⊆+ k -> Forall P k -> Forall P l.
Proof. rewrite !Forall_forall. intros Hl HP x Hx. apply HP. by eapply elem_of_submseteq. Qed.

Lemma filter_sublist {A} (f : A -> bool) l : List.filter f l `sublist_of` l.
Proof.
  induction l as [|x l IH]; cbn; [done|]. destruct (f x); [by apply sublist_skip|by apply sublist_cons].
Qed.
