(* ===== verification/JsNum.v ===== *)
(** * Numbers of the language

    [num] is the part of the language's numbers the sources compute with:
    integers (every integer the sources produce here is far below [2^53], where
    doubles are exact) and the three values arithmetic escapes to.  The second
    part is the decimal notation: [Number::toString] on integers and [parseInt]
    on a run of digits, with their round trip. *)

From S2P Require Import Prelude.

Inductive num : Type :=
  | Fin (z : Z)
  | PInf
  | NInf
  | NaN.

#[export] Instance num_eq_dec : EqDecision num.
Proof. solve_decision. Defined.

(** ** Arithmetic and comparisons, [NaN] and the infinities included *)
Module Num.

Definition opp (a : num) : num :=
  match a with Fin x => Fin (- x) | PInf => NInf | NInf => PInf | NaN => NaN end.

Definition add (a b : num) : num :=
  match a, b with
  | Fin x, Fin y => Fin (x + y)
  | NaN, _ | _, NaN => NaN
  | PInf, NInf | NInf, PInf => NaN
  | PInf, _ | _, PInf => PInf
  | NInf, _ | _, NInf => NInf
  end.

Definition sub (a b : num) : num := add a (opp b).

(** The sign of a number that is not [NaN]. *)
Definition sgn (a : num) : Z :=
  match a with Fin x => Z.sgn x | PInf => 1 | NInf => -1 | NaN => 0 end.

Definition inf_of_sign (s : Z) : num :=
  if s =? 0 then NaN else if 0 <? s then PInf else NInf.

Definition mul (a b : num) : num :=
  match a, b with
  | Fin x, Fin y => Fin (x * y)
  | NaN, _ | _, NaN => NaN
  | _, _ => inf_of_sign (sgn a * sgn b)
  end.

(** [Math.ceil(a / b)].  A finite number over an infinity is a zero. *)
Definition ceil_div (a b : num) : num :=
  match a, b with
  | Fin x, Fin y =>
      if y =? 0 then inf_of_sign (Z.sgn x) else Fin (- ((- x) / y))
  | NaN, _ | _, NaN => NaN
  | Fin _, _ => Fin 0
  | _, Fin y => inf_of_sign (sgn a * (if y <? 0 then -1 else 1))
  | _, _ => NaN
  end.

Definition lt (a b : num) : bool :=
  match a, b with
  | Fin x, Fin y => x <? y
  | NaN, _ | _, NaN => false
  | NInf, NInf => false
  | NInf, _ => true
  | _, PInf => match a with PInf => false | _ => true end
  | _, _ => false
  end.

(** [===] on numbers: [NaN] is not equal to itself. *)
Definition eqb (a b : num) : bool :=
  match a, b with
  | Fin x, Fin y => x =? y
  | PInf, PInf | NInf, NInf => true
  | _, _ => false
  end.

(** [Math.min(a, b)]. *)
Definition min (a b : num) : num :=
  match a, b with
  | NaN, _ | _, NaN => NaN
  | _, _ => if lt b a then b else a
  end.

(** [Math.max(a, b)]. *)
Definition max (a b : num) : num :=
  match a, b with
  | NaN, _ | _, NaN => NaN
  | _, _ => if lt a b then b else a
  end.

(** [a % b]: the sign is that of [a]. *)
Definition rem (a b : num) : num :=
  match a, b with
  | Fin x, Fin y => if y =? 0 then NaN else Fin (Z.rem x y)
  | Fin x, (PInf | NInf) => Fin x
  | _, _ => NaN
  end.

(** [Math.round(a / b)] for a positive divisor: halves go up. *)
Definition round_div (a : num) (b : Z) : num :=
  match a with Fin x => Fin ((2 * x + b) / (2 * b)) | _ => a end.

Definition le (a b : num) : bool := lt a b || eqb a b.
Definition gt (a b : num) : bool := lt b a.

(** [ToBoolean]. *)
Definition truthy (a : num) : bool :=
  match a with Fin x => negb (x =? 0) | NaN => false | _ => true end.

(** [ToIntegerOrInfinity], used by [Array.prototype.slice]: the index an
    argument stands for in an array of length [len] ([undefined] is [d]). *)
Definition slice_index (len : nat) (a : num) : nat :=
  match a with
  | Fin x => if x <? 0 then Z.to_nat (Z.max (Z.of_nat len + x) 0)
             else Z.to_nat (Z.min x (Z.of_nat len))
  | PInf => len
  | NInf | NaN => 0
  end.

End Num.

(** [Array.prototype.slice(start, end)]; [None] is a missing or undefined
    [end]. *)
Definition slice {A} (l : list A) (start : num) (end_ : option num) : list A :=
  let len := length l in
  let k := Num.slice_index len start in
  let f := match end_ with Some e => Num.slice_index len e | None => len end in
  take (f - k) (drop k l).

(** ** Decimal notation *)

(** The digits of [n], most significant first, in front of [acc]; each step
    divides by ten, so the number of bits of [n] bounds the steps. *)
Fixpoint dec_digits (fuel : nat) (n : N) (acc : jstr) : jstr :=
  match fuel with
  | O => acc
  | S fuel' =>
      let acc' := (48 + n mod 10)%N :: acc in
      if (n <? 10)%N then acc' else dec_digits fuel' (n / 10)%N acc'
  end.

Definition N_to_str (n : N) : jstr := dec_digits (S (N.to_nat (N.size n))) n [].

Definition Z_to_str (z : Z) : jstr :=
  if z <? 0 then chr "-" :: N_to_str (Z.to_N (- z)) else N_to_str (Z.to_N z).

Definition num_to_str (a : num) : jstr :=
  match a with
  | Fin z => Z_to_str z
  | PInf => str "Infinity"
  | NInf => str "-Infinity"
  | NaN => str "NaN"
  end.

(** [parseInt(s, 10)] on a string of digits. *)
Definition parse_digits (s : jstr) : N :=
  fold_left (fun a c => (a * 10 + (c - 48))%N) s 0%N.

(** *** Reading integers *)

Fixpoint digits_prefix (p : N -> bool) (s : jstr) : jstr :=
  match s with c :: s' => if p c then c :: digits_prefix p s' else [] | [] => [] end.

Fixpoint drop_space (s : jstr) : jstr :=
  match s with c :: s' => if is_space c then drop_space s' else s | [] => [] end.

(** The sign and what follows it. *)
Definition sign (s : jstr) : bool * jstr :=
  match s with
  | c :: s' => if (c =? chr "-")%N then (true, s') else if (c =? chr "+")%N then (false, s') else (false, s)
  | [] => (false, s)
  end.

(** [parseInt(s, 10)]. *)
Definition parseInt10 (s : jstr) : num :=
  let '(neg, s) := sign (drop_space s) in
  match digits_prefix is_digit s with
  | [] => NaN
  | ds => let n := Z.of_N (parse_digits ds) in Fin (if neg then - n else n)
  end.

(** *** Lemmas on the decimal notation *)

Lemma dec_digits_S f n acc :
  dec_digits (S f) n acc =
  let acc' := (48 + n mod 10)%N :: acc in
  if (n <? 10)%N then acc' else dec_digits f (n / 10)%N acc'.
Proof. done. Qed.

Lemma dec_digits_app fuel n acc :
  dec_digits fuel n acc = dec_digits fuel n [] ++ acc.
Proof.
  revert n acc; induction fuel as [|fuel IH]; intros n acc; [done|].
  cbn [dec_digits]. destruct (n <? 10)%N; [done|].
  rewrite IH, (IH _ [_]), <-app_assoc. done.
Qed.

Lemma dec_digits_fuel f g n :
  (n < 10 ^ N.of_nat f)%N -> (n < 10 ^ N.of_nat g)%N ->
  dec_digits (S f) n [] = dec_digits (S g) n [].
Proof.
  revert g n; induction f as [|f IH]; intros g n Hf Hg.
  - assert (n = 0)%N as -> by (cbn in Hf; lia). done.
  - destruct g as [|g].
    + assert (n = 0)%N as -> by (cbn in Hg; lia). done.
    + rewrite Nat2N.inj_succ, N.pow_succ_r' in Hf, Hg.
      rewrite 2(dec_digits_S (S _)); cbv zeta. destruct (n <? 10)%N eqn:E; [done|].
      rewrite dec_digits_app, (dec_digits_app (S g)). f_equal.
      apply IH; apply N.Div0.div_lt_upper_bound; lia.
Qed.

Lemma size_pow10 n : (n < 10 ^ N.of_nat (N.to_nat (N.size n)))%N.
Proof.
  rewrite N2Nat.id. apply N.lt_le_trans with (2 ^ N.size n)%N; [apply N.size_gt|].
  apply N.pow_le_mono_l. lia.
Qed.

(** The recursion the digits satisfy, whatever the fuel. *)
Lemma N_to_str_step n :
  N_to_str n = if (n <? 10)%N then [(48 + n)%N]
               else N_to_str (n / 10) ++ [(48 + n mod 10)%N].
Proof.
  unfold N_to_str at 1. rewrite dec_digits_S; cbv zeta. destruct (n <? 10)%N eqn:E; bool_hyps.
  - by rewrite N.mod_small.
  - pose proof (size_pow10 n) as Hn.
    destruct (N.to_nat (N.size n)) as [|f] eqn:Hf; [cbn in Hn; lia|].
    rewrite dec_digits_app. f_equal. apply dec_digits_fuel; [|apply size_pow10].
    rewrite Nat2N.inj_succ, N.pow_succ_r' in Hn. apply N.Div0.div_lt_upper_bound. lia.
Qed.

(** Strong induction along the digits. *)
Lemma dec_ind (P : N -> Prop) :
  (forall n, (n < 10)%N -> P n) ->
  (forall n, (10 <= n)%N -> P (n / 10)%N -> P n) -> forall n, P n.
Proof.
  intros H0 H1 n. induction n as [n IH] using (well_founded_induction N.lt_wf_0).
  destruct (N.lt_ge_cases n 10) as [Hn|Hn]; [by apply H0|].
  apply H1, IH; [done|]. apply N.div_lt; lia.
Qed.

Lemma N_to_str_digits n : Forall (fun c => is_digit c = true) (N_to_str n).
Proof.
  induction n as [n Hn|n Hn IH] using dec_ind; rewrite N_to_str_step.
  - rewrite (proj2 (N.ltb_lt _ _) Hn). constructor; [|done]. apply is_digit_iff. lia.
  - rewrite (proj2 (N.ltb_ge _ _) Hn). apply Forall_app; split; [done|].
    constructor; [|done]. apply is_digit_iff.
    dlia.
Qed.

Lemma parse_digits_snoc s c : parse_digits (s ++ [c]) = (parse_digits s * 10 + (c - 48))%N.
Proof. unfold parse_digits. by rewrite fold_left_app. Qed.

(** [parseInt(String(n), 10)] is [n]. *)
Lemma parse_N_to_str n : parse_digits (N_to_str n) = n.
Proof.
  induction n as [n Hn|n Hn IH] using dec_ind; rewrite N_to_str_step.
  - rewrite (proj2 (N.ltb_lt _ _) Hn). unfold parse_digits; cbn [fold_left]. lia.
  - rewrite (proj2 (N.ltb_ge _ _) Hn), parse_digits_snoc, IH.
    dlia.
Qed.

(** Leading zeros do not change the value. *)
Lemma parse_digits_zero s : parse_digits (48%N :: s) = parse_digits s.
Proof. done. Qed.

Lemma N_to_str_length n k :
  (0 < k)%nat -> (n < 10 ^ N.of_nat k)%N -> (length (N_to_str n) <= k)%nat.
Proof.
  revert n; induction k as [|k IH]; intros n Hk Hn; [lia|].
  rewrite N_to_str_step. destruct (n <? 10)%N eqn:E; bool_hyps; [cbn; lia|].
  rewrite length_app. cbn [length]. rewrite Nat2N.inj_succ, N.pow_succ_r' in Hn.
  destruct k as [|k]; [cbn in Hn; lia|].
  assert (length (N_to_str (n / 10)) <= S k)%nat; [|lia].
  apply IH; [lia|]. apply N.Div0.div_lt_upper_bound. lia.
Qed.

Lemma N_to_str_length_ge n k :
  (10 ^ N.of_nat k <= n)%N -> (S k <= length (N_to_str n))%nat.
Proof.
  revert n; induction k as [|k IH]; intros n Hn; rewrite N_to_str_step.
  - destruct (n <? 10)%N; rewrite ?length_app; cbn; lia.
  - rewrite Nat2N.inj_succ, N.pow_succ_r' in Hn.
    assert (1 <= 10 ^ N.of_nat k)%N by (pose proof (N.pow_nonzero 10 (N.of_nat k)); lia).
    rewrite (proj2 (N.ltb_ge _ _)) by lia. rewrite length_app. cbn [length].
    assert (S k <= length (N_to_str (n / 10)))%nat; [|lia].
    apply IH. apply N.div_le_lower_bound; lia.
Qed.

Lemma N_to_str_nonempty n : N_to_str n <> [].
Proof. rewrite N_to_str_step. by destruct (n <? 10)%N; auto with jslib. Qed.

#[export] Hint Resolve N_to_str_digits N_to_str_nonempty : jslib.
#[export] Hint Rewrite parse_N_to_str parse_digits_zero : jslib.

(** ** Doubles above [2^53]

    Integers of that size are rounded to 53 significant bits, ties to even, and
    printed with the fewest digits that denote them. *)

(** [a / b] rounded, for positive [b]. *)
Definition round_half_even (a b : Z) : Z :=
  let q := a / b in
  let r := a mod b in
  if 2 * r <? b then q else if b <? 2 * r then q + 1 else if Z.even q then q else q + 1.

Definition round53 (z : Z) : Z :=
  let e := Z.log2 (Z.abs z) - 52 in
  if e <=? 0 then z else Z.sgn z * (round_half_even (Z.abs z) (2 ^ e) * 2 ^ e).

(** The integer part of the double [a / b], for positive [b]. *)
Definition trunc_div (a b : Z) : Z :=
  let e := Z.log2 (Z.abs a / b) in
  Z.sgn a *
  (if Z.abs a <? b then 0
   else if e <=? 52 then round_half_even (Z.abs a * 2 ^ (52 - e)) b / 2 ^ (52 - e)
   else round_half_even (Z.abs a) (b * 2 ^ (e - 52)) * 2 ^ (e - 52)).

(** The decimal with the fewest digits among those that round to [z], which is
    itself rounded. *)
Fixpoint shortest (p : nat) (z : Z) : Z :=
  match p with
  | O => z
  | S p' =>
      let u := 10 ^ Z.of_nat p in
      let lo := z / u * u in
      let hi := lo + u in
      let near := if z - lo =? hi - z then Z.even (z / u) else z - lo <? hi - z in
      if (round53 lo =? z) && (negb (round53 hi =? z) || near) then lo
      else if round53 hi =? z then hi
      else shortest p' z
  end.

(** [String(z)] for an integer double below [10^21]. *)
Definition double_to_str (z : Z) : jstr := Z_to_str (Z.sgn z * shortest 20 (Z.abs z)).

Lemma round53_small z : Z.abs z < 2 ^ 53 -> round53 z = z.
Proof.
  intros Hz. unfold round53. destruct (decide (Z.abs z = 0)) as [H0|H0].
  - rewrite H0. done.
  - assert (Z.log2 (Z.abs z) < 53) by (apply Z.log2_lt_pow2; lia). by rewrite (proj2 (Z.leb_le _ _)) by lia.
Qed.

(** The rounding is to within one part in [2^53]. *)
Lemma round_half_even_bounds a b : 0 < b -> - b <= 2 * (round_half_even a b * b - a) <= b.
Proof.
  intros Hb. pose proof (Z.div_mod a b ltac:(lia)). pose proof (Z.mod_pos_bound a b Hb).
  unfold round_half_even. repeat case_match; bool_hyps; nia.
Qed.

(** ** Comparisons of finite numbers *)

Lemma le_fin x y : Num.le (Fin x) (Fin y) = (x <=? y).
Proof. unfold Num.le; cbn. destruct (x <=? y) eqn:E; bool_hyps; lia. Qed.

#[export] Hint Rewrite le_fin : jslib.

(** ** Lemmas on [slice] *)

(** On in-range finite bounds [slice] is [take] after [drop]. *)
Lemma slice_fin {A} (l : list A) s e :
  0 <= s <= Z.of_nat (length l) -> s <= e <= Z.of_nat (length l) ->
  slice l (Fin s) (Some (Fin e)) = take (Z.to_nat (e - s)) (drop (Z.to_nat s) l).
Proof.
  intros Hs He. unfold slice, Num.slice_index.
  rewrite (proj2 (Z.ltb_ge s 0)), (proj2 (Z.ltb_ge e 0)) by lia.
  rewrite !Z.min_l by lia. f_equal. lia.
Qed.
