(* ===== verification/RegExp.v ===== *)
(** * Regular expressions of the language

    The expressions the sources write, with the language's backtracking
    semantics (greedy, leftmost): classes, sequences, ordered choice, the star
    of a class and the end anchor.  [RegExp] is the constructor applied to a
    pattern string, for the patterns that escaping a literal text produces. *)

From S2P Require Import Prelude.

Inductive re : Type :=
  | REps
  | RCls (p : N -> bool)
  | RSeq (a b : re)
  | RAlt (a b : re)
  | RStar (p : N -> bool)
  | REol.

(** ** Matching

    A matcher takes the continuation that matches what follows and the rest of
    the input; it answers the input left after a complete match. *)

Fixpoint star_match (p : N -> bool) (k : jstr -> option jstr) (s : jstr) : option jstr :=
  match s with
  | [] => k []
  | c :: s' =>
      if p c then
        match star_match p k s' with Some r => Some r | None => k s end
      else k s
  end.

Fixpoint rmatch (r : re) (k : jstr -> option jstr) (s : jstr) : option jstr :=
  match r with
  | REps => k s
  | RCls p => match s with c :: s' => if p c then k s' else None | [] => None end
  | RSeq a b => rmatch a (rmatch b k) s
  | RAlt a b => match rmatch a k s with Some t => Some t | None => rmatch b k s end
  | RStar p => star_match p k s
  | REol => match s with [] => k [] | _ => None end
  end.

(** The input left after a match at the start of [s]. *)
Definition match_here (r : re) (s : jstr) : option jstr := rmatch r Some s.

(** [RegExp.prototype.exec] without flags, from position [i] on: the index of
    the leftmost match and the text it matches. *)
Fixpoint exec_from (r : re) (s : jstr) (i : nat) : option (nat * jstr) :=
  match match_here r s with
  | Some rest => Some (i, take (length s - length rest) s)
  | None => match s with [] => None | _ :: s' => exec_from r s' (S i) end
  end.

Definition re_exec (r : re) (s : jstr) : option (nat * jstr) := exec_from r s 0.
(** [String.prototype.match] and [search] with an expression without flags. *)
Definition str_match (s : jstr) (r : re) : option (nat * jstr) := re_exec r s.
Definition str_search (s : jstr) (r : re) : option nat := fst <$> re_exec r s.
Definition re_test (r : re) (s : jstr) : bool := bool_decide (is_Some (re_exec r s)).

(** ** Building expressions *)

Definition RChr (c : N) : re := RCls (N.eqb c).
Fixpoint RLit (s : jstr) : re :=
  match s with [] => REps | c :: s' => RSeq (RChr c) (RLit s') end.
Definition ROneOf (cs : jstr) : re := RCls (fun c => bool_decide (c ∈ cs)).
Definition ROpt (r : re) : re := RAlt r REps.
Definition RPlus (p : N -> bool) : re := RSeq (RCls p) (RStar p).
Fixpoint RAlts (rs : list re) : re :=
  match rs with [] => RCls (fun _ => false) | [r] => r | r :: rs' => RAlt r (RAlts rs') end.

(** ** The constructor [new RegExp(pattern)]

    Handled: literal characters, the escapes of characters that are not letters
    or digits, the class [\s], and [*] after a character.  Any other pattern is
    answered [None]. *)

Definition is_alnum (c : N) : bool :=
  (is_digit c || ((65 <=? c) && (c <=? 90)) || ((97 <=? c) && (c <=? 122)) || (c =? 95))%N.

Definition syntax_chars : jstr := str "^$\.*+?()[]{}|".

Definition quantified (p : N -> bool) (t : jstr) (rec : jstr -> option re) : option re :=
  match t with
  | 42%N :: t' => RSeq (RStar p) <$> rec t'
  | _ => RSeq (RCls p) <$> rec t
  end.

Fixpoint re_parse (fuel : nat) (src : jstr) : option re :=
  match fuel with
  | O => None
  | S f =>
      match src with
      | [] => Some REps
      | c :: t =>
          if (c =? chr "\")%N then
            match t with
            | [] => None
            | d :: t' =>
                if (d =? chr "s")%N then quantified is_space t' (re_parse f)
                else if is_alnum d then None
                else quantified (N.eqb d) t' (re_parse f)
            end
          else if bool_decide (c ∈ syntax_chars) then None
          else quantified (N.eqb c) t (re_parse f)
      end
  end.

Definition RegExp (src : jstr) : option re := re_parse (S (length src)) src.

(** ** Lemmas: what a match consumes *)

Lemma star_match_suffix p k s r :
  (forall t u, k t = Some u -> u `suffix_of` t) ->
  star_match p k s = Some r -> r `suffix_of` s.
Proof.
  intros Hk; induction s as [|c s IH]; cbn [star_match]; intros H; [by apply Hk|].
  destruct (p c); [|by apply Hk].
  destruct (star_match p k s) as [t|] eqn:E; simplify_eq; [|by apply Hk].
  apply suffix_cons_r. by apply IH.
Qed.

Lemma rmatch_suffix r k s t :
  (forall u v, k u = Some v -> v `suffix_of` u) ->
  rmatch r k s = Some t -> t `suffix_of` s.
Proof.
  revert k s t; induction r; intros k s t Hk H; cbn [rmatch] in H.
  - by apply Hk.
  - destruct s as [|c s]; [done|]. destruct (p c); [|done].
    apply suffix_cons_r. by apply Hk.
  - eapply IHr1; [|exact H]. intros u v Hu. by eapply IHr2.
  - destruct (rmatch r1 k s) eqn:E; simplify_eq; [by eapply IHr1|by eapply IHr2].
  - by eapply star_match_suffix.
  - destruct s; [by apply Hk|done].
Qed.

(** What matches after [r] does so on a suffix of the input. *)
Lemma star_match_cont p k s x :
  star_match p k s = Some x -> exists t, t `suffix_of` s /\ k t = Some x.
Proof.
  induction s as [|c s IH]; cbn [star_match]; intros H; [by exists []|].
  destruct (p c); [|by exists (c :: s)].
  destruct (star_match p k s) as [y|] eqn:E; [|by exists (c :: s)].
  destruct (IH H) as (t & Ht & Hk). exists t. split; [by apply suffix_cons_r|done].
Qed.

Lemma rmatch_cont r k s x :
  rmatch r k s = Some x -> exists t, t `suffix_of` s /\ k t = Some x.
Proof.
  revert k s; induction r; intros k s H; cbn [rmatch] in H.
  - by exists s.
  - destruct s as [|c s]; [done|]. destruct (p c); [|done].
    exists s. split; [by apply suffix_cons_r|done].
  - apply IHr1 in H as (t & Ht & H). apply IHr2 in H as (u & Hu & H).
    exists u. split; [by etrans|done].
  - destruct (rmatch r1 k s) eqn:E; simplify_eq; eauto.
  - by eapply star_match_cont.
  - destruct s; [by exists []|done].
Qed.

Lemma match_here_split r s rest :
  match_here r s = Some rest ->
  s = take (length s - length rest) s ++ rest.
Proof.
  intros H. assert (rest `suffix_of` s) as [m ->].
  { eapply rmatch_suffix; [|exact H]. intros u v [= ->]. done. }
  rewrite length_app, Nat.add_sub, take_app_length. done.
Qed.

(** The match found by [exec_from] splits the input: the text skipped, the text
    matched, the rest; and nothing matches earlier. *)
Lemma exec_from_spec r s i j m :
  exec_from r s i = Some (j, m) ->
  (i <= j)%nat /\ exists rest, s = take (j - i) s ++ m ++ rest /\
  match_here r (m ++ rest) = Some rest /\
  forall k, (k < j - i)%nat -> match_here r (drop k s) = None.
Proof.
  revert i; induction s as [|c s IH]; intros i H; cbn [exec_from] in H.
  - destruct (match_here r []) as [rest|] eqn:E; [|done].
    apply match_here_split in E as E'. rewrite take_nil in *. simplify_eq. cbn in *; subst.
    split; [lia|]. exists []. rewrite Nat.sub_diag.
    split_and!; [done|done|intros; lia].
  - destruct (match_here r (c :: s)) as [rest|] eqn:E.
    + apply match_here_split in E as E'. simplify_eq. split; [lia|].
      exists rest. rewrite Nat.sub_diag, <-E'. split_and!; [done|done|intros; lia].
    + apply IH in H as (Hj & rest & Hs & Hm & Hl). split; [lia|].
      exists rest. replace (j - i)%nat with (S (j - S i)) by lia.
      split_and!; [by rewrite firstn_cons, <-app_comm_cons, <-Hs|done|].
      intros [|k] Hk; [done|]. cbn. apply Hl. lia.
Qed.

Lemma exec_from_bound r s i j m :
  exec_from r s i = Some (j, m) -> (j + length m <= i + length s)%nat.
Proof.
  revert i; induction s as [|c s IH]; intros i H; cbn [exec_from] in H; case_hyp H; simplify_eq.
  - rewrite take_nil. cbn; lia.
  - rewrite length_take. lia.
  - apply IH in H. cbn; lia.
Qed.

(** The match as a factor of the input. *)
Lemma re_exec_split r s i m :
  re_exec r s = Some (i, m) ->
  (i + length m <= length s)%nat /\ drop i s = m ++ drop (i + length m) s.
Proof.
  intros H. apply exec_from_bound in H as Hb. cbn in Hb. split; [done|].
  apply exec_from_spec in H as (_ & rest & Hs & _ & _). rewrite Nat.sub_0_r in Hs.
  assert (length (take i s) = i) as Hi by (rewrite length_take; lia).
  rewrite Hs at 1. rewrite drop_app_length' by done. f_equal.
  rewrite Hs, app_assoc, drop_app_length'; [done|]. rewrite length_app. lia.
Qed.

(** The converse: the first position where the expression matches. *)
Lemma exec_from_None r s i :
  exec_from r s i = None <-> forall k, (k <= length s)%nat -> match_here r (drop k s) = None.
Proof.
  revert i; induction s as [|c s IH]; intros i; cbn [exec_from].
  - split.
    + intros H k _. rewrite drop_nil. by destruct (match_here r []).
    + intros H. specialize (H 0%nat ltac:(cbn; lia)). cbn in H. by rewrite H.
  - split.
    + intros H [|k] Hk; cbn.
      * by destruct (match_here r (c :: s)).
      * destruct (match_here r (c :: s)); [done|]. eapply IH; [done|]. cbn in Hk; lia.
    + intros H. pose proof (H 0%nat ltac:(lia)) as H0. cbn in H0. rewrite H0.
      apply IH. intros k Hk. apply (H (S k)). cbn; lia.
Qed.

Lemma exec_from_here r s i rest :
  match_here r s = Some rest -> exec_from r s i = Some (i, take (length s - length rest) s).
Proof. intros H. destruct s; cbn [exec_from]; by rewrite H. Qed.

Lemma exec_from_skip r pre s i rest :
  (forall k, (k < length pre)%nat -> match_here r (drop k (pre ++ s)) = None) ->
  match_here r s = Some rest ->
  exec_from r (pre ++ s) i = Some ((i + length pre)%nat, take (length s - length rest) s).
Proof.
  revert i; induction pre as [|c pre IH]; intros i Hl Hm; cbn [length app].
  - rewrite Nat.add_0_r. by apply exec_from_here.
  - cbn [exec_from]. pose proof (Hl 0%nat ltac:(cbn; lia)) as H0. cbn in H0. rewrite H0.
    rewrite IH; [do 2 f_equal; cbn; lia| |done].
    intros k Hk. apply (Hl (S k)). cbn; lia.
Qed.

(** ** Lemmas: literals and spaces *)

Lemma rmatch_RLit t k s :
  rmatch (RLit t) k s = if decide (t `prefix_of` s) then k (drop (length t) s) else None.
Proof.
  revert s; induction t as [|c t IH]; intros s; cbn [RLit rmatch RChr].
  - rewrite decide_True by apply prefix_nil. done.
  - destruct s as [|d s].
    { rewrite decide_False; [done|]. intros [? ?]; done. }
    destruct (N.eqb_spec c d) as [->|Hne].
    + rewrite IH. destruct (decide (t `prefix_of` s)) as [Hp|Hp].
      * rewrite decide_True by by apply prefix_cons. done.
      * rewrite decide_False; [done|]. intros H. by apply prefix_cons_inv_2 in H.
    + rewrite decide_False; [done|]. intros H. by apply prefix_cons_inv_1 in H.
Qed.

(** The star of a class before a continuation that always succeeds takes the
    longest run of the class. *)
Lemma star_match_run p s :
  exists run rest, s = run ++ rest /\ Forall (fun c => p c = true) run /\
    (forall c t, rest = c :: t -> p c = false) /\ star_match p Some s = Some rest.
Proof.
  induction s as [|c s (run & rest & -> & Hr & Hm & E)]; cbn [star_match].
  - exists [], []. split_and!; [done..|constructor|done|done].
  - destruct (p c) eqn:Hp.
    + exists (c :: run), rest. rewrite E. split_and!; [done| |done|done]. by constructor.
    + exists [], (c :: run ++ rest). split_and!; [done|constructor| |done].
      intros d t [= -> ?]. done.
Qed.

Lemma quantified_plain p t rec :
  head t <> Some 42%N -> quantified p t rec = RSeq (RCls p) <$> rec t.
Proof.
  intros H. unfold quantified. destruct t as [|[|q] t]; [done..|].
  do 6 (destruct q as [q|q|]; try done).
Qed.

(** ** Lemmas: the constructor *)

Lemma quantified_ext p t r1 r2 :
  r1 t = r2 t -> (forall t', t = 42%N :: t' -> r1 t' = r2 t') ->
  quantified p t r1 = quantified p t r2.
Proof.
  intros H H'. unfold quantified. destruct t as [|n t']; [by rewrite H|].
  destruct (decide (n = 42%N)) as [->|Hn]; [by rewrite (H' _ eq_refl)|].
  assert (forall (A : Type) (x y : A), match n with 42%N => x | _ => y end = y) as Hm.
  { intros A x y. destruct n as [|q]; [done|]. do 6 (destruct q as [q|q|]; try done). }
  by rewrite !Hm, H.
Qed.

Lemma re_parse_fuel f g src :
  (length src < f)%nat -> (length src < g)%nat -> re_parse f src = re_parse g src.
Proof.
  revert g src; induction f as [|f IH]; intros [|g] src Hf Hg; [lia..|].
  destruct src as [|c t]; [done|]. cbn [re_parse]. cbn [length] in *.
  assert (forall p u, (length u < length (c :: t))%nat ->
            quantified p u (re_parse f) = quantified p u (re_parse g)) as Hq.
  { cbn [length]. intros p u Hu. apply quantified_ext; [apply IH; lia|].
    intros u' ->. cbn [length] in Hu. apply IH; lia. }
  destruct (c =? chr "\")%N.
  - destruct t as [|d t]; [done|]. by rewrite !Hq by (cbn; lia).
  - by rewrite Hq by (cbn; lia).
Qed.

Lemma re_parse_cons f c t :
  re_parse (S f) (c :: t) =
  if (c =? chr "\")%N then
    match t with
    | [] => None
    | d :: t' =>
        if (d =? chr "s")%N then quantified is_space t' (re_parse f)
        else if is_alnum d then None else quantified (N.eqb d) t' (re_parse f)
    end
  else if bool_decide (c ∈ syntax_chars) then None
  else quantified (N.eqb c) t (re_parse f).
Proof. done. Qed.

(** The expression of a literal followed by another one. *)
Fixpoint RLitThen (s : jstr) (r : re) : re :=
  match s with [] => r | c :: s' => RSeq (RChr c) (RLitThen s' r) end.

Lemma RLit_Then s : RLit s = RLitThen s REps.
Proof. induction s as [|c s IH]; [done|]. cbn. by rewrite IH. Qed.

Lemma rmatch_RLitThen t r k s :
  rmatch (RLitThen t r) k s =
  if decide (t `prefix_of` s) then rmatch r k (drop (length t) s) else None.
Proof.
  transitivity (rmatch (RLit t) (rmatch r k) s); [|apply rmatch_RLit].
  revert s; induction t as [|c t IH]; intros [|d s]; cbn; [done..|].
  destruct (c =? d)%N; [apply IH|done].
Qed.

(** One literal character of a pattern, escaped or not. *)
Lemma RegExp_char c t :
  (c =? chr "\")%N = false -> c ∉ syntax_chars -> head t <> Some 42%N ->
  RegExp (c :: t) = RSeq (RChr c) <$> RegExp t.
Proof.
  intros Hc Hs Ht. unfold RegExp. rewrite re_parse_cons, Hc, bool_decide_false by done.
  rewrite quantified_plain by done.
  by rewrite (re_parse_fuel _ (S (length t))) by (cbn; lia).
Qed.

Lemma RegExp_escaped c t :
  is_alnum c = false -> head t <> Some 42%N ->
  RegExp (chr "\" :: c :: t) = RSeq (RChr c) <$> RegExp t.
Proof.
  intros Hc Ht. unfold RegExp. rewrite re_parse_cons.
  change (chr "\" =? chr "\")%N with true. cbn match. rewrite Hc.
  destruct (N.eqb_spec c (chr "s")) as [->|_]; [done|].
  rewrite quantified_plain by done.
  by rewrite (re_parse_fuel _ (S (length t))) by (cbn; lia).
Qed.

Lemma RegExp_space_star t :
  RegExp (str "\s*" ++ t) = RSeq (RStar is_space) <$> RegExp t.
Proof.
  change (str "\s*" ++ t) with (chr "\" :: chr "s" :: 42%N :: t).
  unfold RegExp. rewrite re_parse_cons.
  change (chr "\" =? chr "\")%N with true. change (chr "s" =? chr "s")%N with true.
  cbn match. unfold quantified.
  by rewrite (re_parse_fuel _ (S (length t))) by (cbn; lia).
Qed.
