(* ===== verification/JsVal.v ===== *)
(** * Values of the language

    The values that a view of a template or a row of a table may hold, with the
    conversions and the property access the sources apply to them.  Functions
    are opaque identifiers; what calling one does is the interface [JsEnv]. *)

From S2P Require Import Prelude JsNum.

(** A built-in function of a prototype, or a function of the page. *)
Inductive fid := Host (name : jstr) | User (n : N).

#[export] Instance fid_eq_dec : EqDecision fid.
Proof. solve_decision. Defined.

(** [VObj] lists the own properties in enumeration order. *)
Inductive jsval :=
  | VUndef
  | VNull
  | VBool (b : bool)
  | VNum (n : num)
  | VStr (s : jstr)
  | VArr (l : list jsval)
  | VObj (props : list (jstr * jsval))
  | VFun (f : fid).

(** ** Built-in prototypes *)

(** The members of [Object.prototype] with the [length] of the functions.
    [__proto__] is an object, without [length]. *)
Definition object_members : list (jstr * nat) :=
  [(str "constructor", 1); (str "__defineGetter__", 2); (str "__defineSetter__", 2);
   (str "hasOwnProperty", 1); (str "__lookupGetter__", 1); (str "__lookupSetter__", 1);
   (str "isPrototypeOf", 1); (str "propertyIsEnumerable", 1); (str "toString", 0);
   (str "valueOf", 0); (str "__proto__", 0); (str "toLocaleString", 0)]%nat.

Definition object_member (name : jstr) : option nat :=
  snd <$> list_find (fun p => p.1 = name) object_members ≫= fun '(_, p) => Some p.

Arguments object_member : simpl never.

Definition array_members : list jstr :=
  List.map str ["at"; "concat"; "copyWithin"; "fill"; "find"; "findIndex"; "lastIndexOf";
    "pop"; "push"; "reverse"; "shift"; "unshift"; "slice"; "sort"; "splice"; "includes";
    "indexOf"; "join"; "keys"; "entries"; "values"; "forEach"; "filter"; "flat";
    "flatMap"; "map"; "every"; "some"; "reduce"; "reduceRight"].

Definition string_members : list jstr :=
  List.map str ["anchor"; "at"; "big"; "blink"; "bold"; "charAt"; "charCodeAt";
    "codePointAt"; "concat"; "endsWith"; "fontcolor"; "fontsize"; "fixed"; "includes";
    "indexOf"; "italics"; "lastIndexOf"; "link"; "localeCompare"; "match"; "matchAll";
    "normalize"; "padEnd"; "padStart"; "repeat"; "replace"; "replaceAll"; "search";
    "slice"; "small"; "split"; "strike"; "sub"; "substr"; "substring"; "sup";
    "startsWith"; "trim"; "trimStart"; "trimLeft"; "trimEnd"; "trimRight";
    "toLocaleLowerCase"; "toLocaleUpperCase"; "toLowerCase"; "toUpperCase"].

Definition number_members : list jstr :=
  List.map str ["toExponential"; "toFixed"; "toPrecision"].

Definition function_members : list jstr :=
  List.map str ["apply"; "bind"; "call"].

(** The value of an inherited member: [own] are the members of the nearer
    prototype, behind which stands [Object.prototype]. *)
Definition inherited (own : list jstr) (name : jstr) : jsval :=
  if bool_decide (name ∈ own) then VFun (Host name)
  else match object_member name with
       | Some _ => if bool_decide (name = str "__proto__") then VObj [] else VFun (Host name)
       | None => VUndef
       end.

Arguments inherited : simpl never.

(** ** The functions of the page *)

(** What a function called by a higher-order section does: it may render
    templates through the [subRender] it is given, and returns or throws; [k]
    and [h] say how it goes on when [subRender] returns or throws. *)
Inductive lam :=
  | LRet (v : jsval)
  | LThrow (e : jstr)
  | LSub (template : jstr) (k h : jstr -> lam).

(** The functions of the page and of the host, as the sources use them. *)
Class JsEnv := {
  (** a call without arguments, on the given [this] *)
  call_fn : fid -> jsval -> res jsval;
  (** a call by a section: [this], the text of the section *)
  section_fn : fid -> jsval -> jstr -> lam;
  (** an own property of a function *)
  fun_prop : fid -> jstr -> option jsval;
  (** [Function.prototype.toString] *)
  fun_source : fid -> jstr
}.

Section values.
Context `{JsEnv}.

(** [ToBoolean]. *)
Definition truthy (v : jsval) : bool :=
  match v with
  | VUndef | VNull => false
  | VBool b => b
  | VNum n => Num.truthy n
  | VStr s => bool_decide (s <> [])
  | VArr _ | VObj _ | VFun _ => true
  end.

(** [v == null]. *)
Definition nullish (v : jsval) : bool :=
  match v with VUndef | VNull => true | _ => false end.

Definition isArray (v : jsval) : bool := match v with VArr _ => true | _ => false end.
Definition isFunction (v : jsval) : bool := match v with VFun _ => true | _ => false end.

(** [ToString]; an array is joined with commas, its nullish elements empty. *)
Fixpoint to_string (v : jsval) : jstr :=
  match v with
  | VUndef => str "undefined"
  | VNull => str "null"
  | VBool b => if b then str "true" else str "false"
  | VNum n => num_to_str n
  | VStr s => s
  | VArr l =>
      (fix join (l : list jsval) : jstr :=
         match l with
         | [] => []
         | x :: l' =>
             (if nullish x then [] else to_string x) ++
             match l' with [] => [] | _ => chr "," :: join l' end
         end) l
  | VObj _ => str "[object Object]"
  | VFun f => fun_source f
  end.

(** The own property of an association list; the first entry counts. *)
Fixpoint own_prop (props : list (jstr * jsval)) (name : jstr) : option jsval :=
  match props with
  | [] => None
  | (k, v) :: props' => if decide (k = name) then Some v else own_prop props' name
  end.

(** The array index that a property name denotes. *)
Definition index_of_name (name : jstr) : option nat :=
  let n := parse_digits name in
  if bool_decide (N_to_str n = name) then Some (N.to_nat n) else None.

(** [v[name]]. *)
Definition get_prop (v : jsval) (name : jstr) : res jsval :=
  match v with
  | VUndef | VNull => Throw (str "TypeError")
  | VObj props => Ok (default (inherited [] name) (own_prop props name))
  | VArr l =>
      if bool_decide (name = str "length") then Ok (VNum (Fin (Z.of_nat (length l))))
      else match index_of_name name with
           | Some i => Ok (default VUndef (l !! i))
           | None => Ok (inherited array_members name)
           end
  | VStr s =>
      if bool_decide (name = str "length") then Ok (VNum (Fin (Z.of_nat (length s))))
      else match index_of_name name with
           | Some i => Ok (match s !! i with Some c => VStr [c] | None => VUndef end)
           | None => Ok (inherited string_members name)
           end
  | VNum _ => Ok (inherited number_members name)
  | VBool _ => Ok (inherited [] name)
  | VFun f => Ok (default (inherited function_members name) (fun_prop f name))
  end.

Lemma get_prop_ok v name : nullish v = false -> exists w, get_prop v name = Ok w.
Proof. destruct v; cbn; try done; repeat case_head; by eexists. Qed.
End values.
