(* ===== verification/Scanner.v ===== *)
(** * The template scanner of mustache.js

    [Scanner] and its three methods, with the invariant that ties the position
    to the unread text. *)

From S2P Require Import Prelude RegExp.

(** The object [new Scanner(string)]. *)
Record scanner := MkScanner {
  sc_string : jstr;
  sc_tail : jstr;
  sc_pos : nat
}.

Definition Scanner (string : jstr) : scanner := MkScanner string string 0.

Definition eos (sc : scanner) : bool := bool_decide (sc_tail sc = []).

(** Drop the first [n] units of the tail and move the position. *)
Definition advance (sc : scanner) (n : nat) : scanner :=
  MkScanner (sc_string sc) (drop n (sc_tail sc)) (sc_pos sc + n).

Definition scan (sc : scanner) (r : re) : jstr * scanner :=
  match str_match (sc_tail sc) r with
  | None => ([], sc)
  | Some (index, string) =>
      if negb (index =? 0)%nat then ([], sc)
      else (string, advance sc (length string))
  end.

Definition scanUntil (sc : scanner) (r : re) : jstr * scanner :=
  match str_search (sc_tail sc) r with
  | None => (sc_tail sc, MkScanner (sc_string sc) [] (sc_pos sc + length (sc_tail sc)))
  | Some O => ([], MkScanner (sc_string sc) (sc_tail sc) (sc_pos sc + 0))
  | Some index => (take index (sc_tail sc), advance sc index)
  end.

(** ** The invariant: the tail is what the position says *)

Definition sc_ok (sc : scanner) : Prop :=
  (sc_pos sc <= length (sc_string sc))%nat /\ sc_tail sc = drop (sc_pos sc) (sc_string sc).

(** [moved sc v sc']: the method consumed [v]. *)
Definition moved (sc : scanner) (v : jstr) (sc' : scanner) : Prop :=
  sc_tail sc = v ++ sc_tail sc' /\ sc_pos sc' = (sc_pos sc + length v)%nat /\
  sc_string sc' = sc_string sc.

Lemma Scanner_ok s : sc_ok (Scanner s).
Proof. split; cbn; [lia|done]. Qed.

Lemma moved_ok sc v sc' : sc_ok sc -> moved sc v sc' -> sc_ok sc'.
Proof.
  intros [Hp Ht] (Hv & Hpos & Hs). rewrite Ht in Hv.
  assert (length (drop (sc_pos sc) (sc_string sc)) = length (v ++ sc_tail sc'))
    as Hl by by rewrite Hv.
  rewrite length_drop, length_app in Hl. split; rewrite Hpos, Hs; [lia|].
  rewrite <-drop_drop, Hv, drop_app_length. done.
Qed.

Lemma moved_trans sc v sc' w sc'' :
  moved sc v sc' -> moved sc' w sc'' -> moved sc (v ++ w) sc''.
Proof.
  intros (Ht & Hp & Hs) (Ht' & Hp' & Hs'). unfold moved.
  rewrite Ht, Ht', Hp', Hp, Hs', Hs, <-app_assoc, length_app. split_and!; [done|lia|done].
Qed.

(** What [scan] does: nothing when there is no match at the position, and
    otherwise it consumes the match. *)
Lemma scan_spec sc r v sc' :
  scan sc r = (v, sc') ->
  moved sc v sc' /\
  match match_here r (sc_tail sc) with
  | Some rest => sc_tail sc' = rest
  | None => v = [] /\ sc' = sc
  end.
Proof.
  unfold scan, str_match, re_exec. destruct (match_here r (sc_tail sc)) as [rest|] eqn:E.
  - rewrite (exec_from_here _ _ _ _ E). cbn. intros [= <- <-].
    apply match_here_split in E. set (n := (length (sc_tail sc) - length rest)%nat) in *.
    assert (n <= length (sc_tail sc))%nat by lia.
    unfold moved, advance; cbn. rewrite length_take, Nat.min_l by done.
    assert (drop n (sc_tail sc) = rest) as ->; [|done].
    rewrite E. apply drop_app_length'. rewrite length_take. lia.
  - destruct (exec_from r (sc_tail sc) 0) as [[i m]|] eqn:H.
    + destruct i as [|i]; cbn.
      * exfalso. apply exec_from_spec in H as (_ & rest & Hs & Hm & _). cbn in Hs. rewrite take_0, app_nil_l in Hs.
        rewrite <-Hs in Hm. congruence.
      * intros [= <- <-]. unfold moved. cbn. split_and!; [done|lia|done..].
    + intros [= <- <-]. unfold moved. cbn. split_and!; [done|lia|done..].
Qed.

(** What [scanUntil] does: it consumes the text before the leftmost match, or
    everything. *)
Lemma scanUntil_spec sc r v sc' :
  scanUntil sc r = (v, sc') ->
  moved sc v sc' /\
  match str_search (sc_tail sc) r with
  | Some i => length v = i /\ is_Some (match_here r (sc_tail sc'))
  | None => sc_tail sc' = []
  end.
Proof.
  unfold scanUntil, str_search. destruct (re_exec r (sc_tail sc)) as [[i m]|] eqn:H; cbn.
  - apply re_exec_split in H as Hs. destruct Hs as [Hb Hs].
    apply exec_from_spec in H as (_ & rest & Hs' & Hm & _). rewrite Nat.sub_0_r in Hs'.
    assert (drop i (sc_tail sc) = m ++ rest) as Hd.
    { rewrite Hs', drop_app_length'; [done|]. rewrite length_take. lia. }
    destruct i as [|i]; intros [= <- <-]; unfold moved; cbn.
    + rewrite drop_0 in Hd. rewrite Hd. split_and!; [done..|by eexists].
    + rewrite length_take, Nat.min_l by lia. cbn in Hd.
      change (match sc_tail sc with [] => [] | _ :: l' => drop i l' end) with (drop (S i) (sc_tail sc)).
      rewrite take_drop, Hd. split_and!; [done..|by eexists].
  - intros [= <- <-]. unfold moved; cbn. by rewrite app_nil_r.
Qed.

Lemma scan_moved sc r v sc' : scan sc r = (v, sc') -> moved sc v sc'.
Proof. intros H. by apply scan_spec in H as [? _]. Qed.
Lemma scanUntil_moved sc r v sc' : scanUntil sc r = (v, sc') -> moved sc v sc'.
Proof. intros H. by apply scanUntil_spec in H as [? _]. Qed.

#[export] Hint Resolve Scanner_ok moved_ok scan_moved scanUntil_moved : jslib.
