(* ===== verification/Mustache.v ===== *)
(** * The template parser of mustache.js

    [parseTemplate] with its helpers: the escaping functions, the tag
    expressions, the loop that cuts a template into tokens, [squashTokens] and
    [nestTokens]. *)

From S2P Require Import Prelude JsNum RegExp Scanner.

(** ** Escaping *)

(** [/[\-\[\]{}()*+?.,\\\^$|#\s]/] *)
Definition re_special (c : N) : bool :=
  bool_decide (c ∈ str "-[]{}()*+?.,\^$|#") || is_space c.

Definition escapeRegExp (s : jstr) : jstr :=
  flat_map (fun c => if re_special c then [chr "\"; c] else [c]) s.

(** [entityMap], and [None] for a character the expression of
    [escapeHtml] does not match. *)
Definition entityMap (c : N) : option jstr :=
  if (c =? chr "&")%N then Some (str "&amp;")
  else if (c =? chr "<")%N then Some (str "&lt;")
  else if (c =? chr ">")%N then Some (str "&gt;")
  else if (c =? ch_dquote)%N then Some (str "&quot;")
  else if (c =? chr "'")%N then Some (str "&#39;")
  else if (c =? chr "/")%N then Some (str "&#x2F;")
  else None.

Definition escapeHtml (s : jstr) : jstr :=
  flat_map (fun c => default [c] (entityMap c)) s.

(** [isWhitespace]: no match of [/\S/]. *)
Definition isWhitespace (s : jstr) : bool :=
  negb (re_test (RCls (fun c => negb (is_space c))) s).

(** ** The fixed expressions *)

Definition whiteRe : re := RStar is_space.
Definition equalsRe : re := RSeq (RStar is_space) (RChr (chr "=")).
Definition curlyRe : re := RSeq (RStar is_space) (RChr (chr "}")).
Definition tagRe : re := ROneOf (str "#^/>{&=!").

(** ** Tokens *)

(** The first element of a token. *)
Inductive tag :=
  | TText | TName | THash | TCaret | TSlash | TPartial | TBrace | TAmp | TEq | TBang.

#[export] Instance tag_eq_dec : EqDecision tag.
Proof. solve_decision. Defined.

(** The answer of [scanner.scan(tagRe) || 'name']. *)
Definition tag_of (s : jstr) : tag :=
  match s with
  | [c] =>
      if (c =? chr "#")%N then THash else if (c =? chr "^")%N then TCaret
      else if (c =? chr "/")%N then TSlash else if (c =? chr ">")%N then TPartial
      else if (c =? chr "{")%N then TBrace else if (c =? chr "&")%N then TAmp
      else if (c =? chr "=")%N then TEq else if (c =? chr "!")%N then TBang
      else TName
  | _ => TName
  end.

Record token := Token {
  tk_type : tag;
  tk_value : jstr;
  tk_start : nat;
  tk_end : nat
}.

#[export] Instance token_eq_dec : EqDecision token.
Proof. solve_decision. Defined.

(** The trees of [nestTokens]: a section token has its subtree and the index at
    which its closing tag begins ([None] while it has none). *)
Inductive node :=
  | Leaf (t : token)
  | Sec (t : token) (children : list node) (close : option nat).

(** ** The tags *)

(** The [tags] argument: a string or an array of strings. *)
Inductive tags_arg :=
  | TagsString (s : jstr)
  | TagsArray (l : list jstr).

Definition mustache_tags : tags_arg := TagsArray [str "{{"; str "}}"].

(** [s.split(/\s+/)]: the pieces between the runs of white space. *)
Fixpoint split_go (cur : jstr) (in_run : bool) (s : jstr) : list jstr :=
  match s with
  | [] => [rev cur]
  | c :: s' =>
      if is_space c then
        if in_run then split_go cur true s' else rev cur :: split_go [] true s'
      else split_go (c :: cur) false s'
  end.
Definition split_spaces (s : jstr) : list jstr := split_go [] false s.

(** [Array.prototype.join]. *)
Fixpoint join (sep : jstr) (l : list jstr) : jstr :=
  match l with [] => [] | [x] => x | x :: l' => x ++ sep ++ join sep l' end.

Record tags_re := TagsRe { openingTagRe : re; closingTagRe : re; closingCurlyRe : re }.

Definition compileTags (tags : tags_arg) : res tags_re :=
  let arr := match tags with
             | TagsString s => take 2 (split_spaces s)
             | TagsArray l => l
             end in
  match arr with
  | [t0; t1] =>
      match RegExp (escapeRegExp t0 ++ str "\s*"),
            RegExp (str "\s*" ++ escapeRegExp t1),
            RegExp (str "\s*" ++ escapeRegExp (str "}" ++ t1)) with
      | Some o, Some c, Some cc => Ok (TagsRe o c cc)
      | _, _, _ => Throw (str "SyntaxError")
      end
  | _ => Throw (str "Invalid tags: " ++ join (str ",") arr)
  end.

(** ** The loop of [parseTemplate] *)

(** Its local variables; [sections] has the top of the stack first and
    [tokens] has [None] where an element was deleted. *)
Record pstate := PState {
  ps_scanner : scanner;
  ps_sections : list token;
  ps_tokens : list (option token);
  ps_spaces : list nat;
  ps_hasTag : bool;
  ps_nonSpace : bool;
  ps_re : tags_re
}.

Definition set_scanner (sc : scanner) (st : pstate) : pstate :=
  PState sc (ps_sections st) (ps_tokens st) (ps_spaces st) (ps_hasTag st)
         (ps_nonSpace st) (ps_re st).

Definition stripSpace (st : pstate) : pstate :=
  let '(toks, spaces) :=
    if ps_hasTag st && negb (ps_nonSpace st)
    then (foldr (fun i ts => <[i := None]> ts) (ps_tokens st) (ps_spaces st), [])
    else (ps_tokens st, []) in
  PState (ps_scanner st) (ps_sections st) toks spaces false false (ps_re st).

(** One turn of the [for] loop over the text between tags. *)
Definition text_char (chr_ : N) (start : nat) (st : pstate) : pstate :=
  let '(spaces, nonSpace) :=
    if isWhitespace [chr_] then (length (ps_tokens st) :: ps_spaces st, ps_nonSpace st)
    else (ps_spaces st, true) in
  let st' := PState (ps_scanner st) (ps_sections st)
               (ps_tokens st ++ [Some (Token TText [chr_] start (start + 1))])
               spaces (ps_hasTag st) nonSpace (ps_re st) in
  if (chr_ =? ch_nl)%N then stripSpace st' else st'.

Fixpoint text_loop (value : jstr) (start : nat) (st : pstate) : nat * pstate :=
  match value with
  | [] => (start, st)
  | c :: value' => text_loop value' (start + 1) (text_char c start st)
  end.

(** The tag's type and value, from behind the opening tag on. *)
Definition read_tag (rs : tags_re) (sc : scanner) : tag * jstr * scanner :=
  let '(tystr, sc) := scan sc tagRe in
  let type := tag_of tystr in
  let '(_, sc) := scan sc whiteRe in
  match type with
  | TEq =>
      let '(value, sc) := scanUntil sc equalsRe in
      let '(_, sc) := scan sc equalsRe in
      let '(_, sc) := scanUntil sc (closingTagRe rs) in
      (TEq, value, sc)
  | TBrace =>
      let '(value, sc) := scanUntil sc (closingCurlyRe rs) in
      let '(_, sc) := scan sc curlyRe in
      let '(_, sc) := scanUntil sc (closingTagRe rs) in
      (TAmp, value, sc)
  | _ =>
      let '(value, sc) := scanUntil sc (closingTagRe rs) in (type, value, sc)
  end.

Definition quoted (s : jstr) : jstr := [ch_dquote] ++ s ++ [ch_dquote].
Definition nat_to_str (n : nat) : jstr := N_to_str (N.of_nat n).

(** The effect of a complete tag on the stack, the flags and the expressions. *)
Definition handle_tag (token : token) (st : pstate) : res pstate :=
  let st := PState (ps_scanner st) (ps_sections st) (ps_tokens st ++ [Some token])
              (ps_spaces st) (ps_hasTag st) (ps_nonSpace st) (ps_re st) in
  match tk_type token with
  | THash | TCaret =>
      Ok (PState (ps_scanner st) (token :: ps_sections st) (ps_tokens st)
            (ps_spaces st) (ps_hasTag st) (ps_nonSpace st) (ps_re st))
  | TSlash =>
      match ps_sections st with
      | [] => Throw (str "Unopened section " ++ quoted (tk_value token)
                       ++ str " at " ++ nat_to_str (tk_start token))
      | openSection :: rest =>
          if bool_decide (tk_value openSection = tk_value token) then
            Ok (PState (ps_scanner st) rest (ps_tokens st)
                  (ps_spaces st) (ps_hasTag st) (ps_nonSpace st) (ps_re st))
          else Throw (str "Unclosed section " ++ quoted (tk_value openSection)
                        ++ str " at " ++ nat_to_str (tk_start token))
      end
  | TName | TBrace | TAmp =>
      Ok (PState (ps_scanner st) (ps_sections st) (ps_tokens st)
            (ps_spaces st) (ps_hasTag st) true (ps_re st))
  | TEq =>
      rs ← compileTags (TagsString (tk_value token));
      Ok (PState (ps_scanner st) (ps_sections st) (ps_tokens st)
            (ps_spaces st) (ps_hasTag st) (ps_nonSpace st) rs)
  | TText | TPartial | TBang => Ok st
  end.

(** One turn of the [while] loop; [true] when the loop goes on, [false] at its
    [break]. *)
Definition parse_iter (st : pstate) : res (bool * pstate) :=
  let start := sc_pos (ps_scanner st) in
  let '(value, sc) := scanUntil (ps_scanner st) (openingTagRe (ps_re st)) in
  let '(start, st) := text_loop value start (set_scanner sc st) in
  let '(opening, sc) := scan (ps_scanner st) (openingTagRe (ps_re st)) in
  if bool_decide (opening = []) then Ok (false, set_scanner sc st)
  else
    let '(type, value, sc) := read_tag (ps_re st) sc in
    let '(closing, sc) := scan sc (closingTagRe (ps_re st)) in
    if bool_decide (closing = []) then
      Throw (str "Unclosed tag at " ++ nat_to_str (sc_pos sc))
    else
      let st := PState sc (ps_sections st) (ps_tokens st) (ps_spaces st) true
                  (ps_nonSpace st) (ps_re st) in
      st ← handle_tag (Token type value start (sc_pos sc)) st;
      Ok (true, st).

Fixpoint parse_loop (fuel : nat) (st : pstate) : res pstate :=
  if eos (ps_scanner st) then Ok st
  else
    match fuel with
    | O => NoFuel
    | S fuel' =>
        '(continue, st') ← parse_iter st;
        if (continue : bool) then parse_loop fuel' st' else Ok st'
    end.

(** ** [squashTokens] *)

(** [acc] is [squashedTokens], last element first, so its head is
    [lastToken]. *)
Fixpoint squash_go (acc : list token) (tokens : list (option token)) : list token :=
  match tokens with
  | [] => rev acc
  | None :: tokens' => squash_go acc tokens'
  | Some t :: tokens' =>
      match acc with
      | lastToken :: acc' =>
          if bool_decide (tk_type t = TText) && bool_decide (tk_type lastToken = TText)
          then squash_go (Token TText (tk_value lastToken ++ tk_value t)
                            (tk_start lastToken) (tk_end t) :: acc') tokens'
          else squash_go (t :: acc) tokens'
      | [] => squash_go [t] tokens'
      end
  end.

Definition squashTokens (tokens : list (option token)) : list token := squash_go [] tokens.

(** ** [nestTokens] *)

(** The stack holds the open sections, innermost first, each with what was
    collected in front of it by its parent; [cur] is the current collector. *)
Fixpoint nest_go (stack : list (token * list node)) (cur : list node)
    (tokens : list token) : res (list node) :=
  match tokens with
  | [] =>
      Ok (foldl (fun inner '(t, before) => before ++ [Sec t inner None]) cur stack)
  | t :: tokens' =>
      match tk_type t with
      | THash | TCaret => nest_go ((t, cur) :: stack) [] tokens'
      | TSlash =>
          match stack with
          | [] => Throw (str "TypeError")
          | (section, before) :: stack' =>
              nest_go stack' (before ++ [Sec section cur (Some (tk_start t))]) tokens'
          end
      | _ => nest_go stack (cur ++ [Leaf t]) tokens'
      end
  end.

Definition nestTokens (tokens : list token) : res (list node) := nest_go [] [] tokens.

(** ** [parseTemplate] *)

Definition init_pstate (template : jstr) (rs : tags_re) : pstate :=
  PState (Scanner template) [] [] [] false false rs.

(** A missing or empty [tags] stands for [mustache.tags]. *)
Definition tags_or_default (tags : option tags_arg) : tags_arg :=
  match tags with
  | None | Some (TagsString []) => mustache_tags
  | Some t => t
  end.

Definition parseTemplate (template : jstr) (tags : option tags_arg) : res (list node) :=
  if bool_decide (template = []) then Ok []
  else
    rs ← compileTags (tags_or_default tags);
    st ← parse_loop (S (length template)) (init_pstate template rs);
    match ps_sections st with
    | openSection :: _ =>
        Throw (str "Unclosed section " ++ quoted (tk_value openSection)
                 ++ str " at " ++ nat_to_str (sc_pos (ps_scanner st)))
    | [] => nestTokens (squashTokens (ps_tokens st))
    end.
