(* ===== verification/MustachePrint.v ===== *)
(** * Parsing inverts printing

    A syntax of templates and its printer, as the documentation of the template
    language gives it, and the theorem that [parseTemplate] recovers the syntax
    from the printed text. *)

From S2P Require Import Prelude JsNum RegExp Scanner Mustache MustacheFacts.

(** ** Template syntax *)

Inductive tmpl :=
  | AText (s : jstr)
  | ATag (ty : tag) (name : jstr)
  | ASec (ty : tag) (name : jstr) (body : list tmpl).

Section tmpl_ind.
Variable P : tmpl -> Prop.
Hypothesis HT : forall s, P (AText s).
Hypothesis HG : forall ty name, P (ATag ty name).
Hypothesis HS : forall ty name body, Forall P body -> P (ASec ty name body).

Fixpoint tmpl_ind' (a : tmpl) : P a :=
  match a with
  | AText s => HT s
  | ATag ty name => HG ty name
  | ASec ty name body =>
      HS ty name body ((fix go (l : list tmpl) : Forall P l :=
        match l with [] => Forall_nil_2 _ | a :: l' => Forall_cons_2 _ _ _ (tmpl_ind' a) (go l') end) body)
  end.
End tmpl_ind.

(** Flat pieces of text. *)
Inductive item := IText (s : jstr) | ITag (ty : tag) (name : jstr).

Fixpoint flat (a : tmpl) : list item :=
  match a with
  | AText s => [IText s]
  | ATag ty name => [ITag ty name]
  | ASec ty name body => ITag ty name :: flat_map flat body ++ [ITag TSlash name]
  end.

Definition sym (ty : tag) : jstr :=
  match ty with
  | THash => str "#" | TCaret => str "^" | TSlash => str "/" | TPartial => str ">"
  | TAmp => str "&" | TBang => str "!" | _ => []
  end.

Definition print_item (i : item) : jstr :=
  match i with
  | IText s => s
  | ITag ty name => str "{{" ++ sym ty ++ name ++ str "}}"
  end.

Definition print (l : list tmpl) : jstr := flat_map print_item (flat_map flat l).

(** ** The printable templates

    Texts are on one line and do not contain an opening brace; names have no
    white space and no character of a tag. *)

Definition text_char_ok (c : N) : Prop := c <> chr "{" /\ c <> ch_nl.
Definition text_ok (s : jstr) : Prop := s <> [] /\ Forall text_char_ok s.
Definition name_char_ok (c : N) : Prop :=
  is_space c = false /\ c ∉ str "#^/>{&=!" /\ c <> chr "}".
Definition name_ok (s : jstr) : Prop := s <> [] /\ Forall name_char_ok s.
Definition leaf_tag (ty : tag) : bool :=
  match ty with TName | TPartial | TAmp | TBang => true | _ => false end.

Fixpoint tmpl_ok (a : tmpl) : Prop :=
  match a with
  | AText s => text_ok s
  | ATag ty name => leaf_tag ty = true /\ name_ok name
  | ASec ty name body => section_tag ty = true /\ name_ok name /\ foldr (fun a P => tmpl_ok a /\ P) True body
  end.

(** No two texts in a row, at any depth. *)
Definition is_atext (a : tmpl) : bool := match a with AText _ => true | _ => false end.
Fixpoint separated (l : list tmpl) : bool :=
  match l with
  | a :: ((b :: _) as l') => negb (is_atext a && is_atext b) && separated l'
  | _ => true
  end.
Fixpoint separated_deep (a : tmpl) : bool :=
  match a with
  | ASec _ _ body => separated body && forallb separated_deep body
  | _ => true
  end.

Definition printable (l : list tmpl) : Prop :=
  Forall tmpl_ok l /\ separated l = true /\ forallb separated_deep l = true.

(** ** Erasing positions *)

Fixpoint erase (n : node) : tmpl :=
  match n with
  | Leaf t => match tk_type t with TText => AText (tk_value t) | ty => ATag ty (tk_value t) end
  | Sec t ch _ => ASec (tk_type t) (tk_value t) (map erase ch)
  end.

Definition etok (t : token) : tag * jstr := (tk_type t, tk_value t).
Definition expand (i : item) : list (tag * jstr) :=
  match i with
  | IText s => map (fun c => (TText, [c])) s
  | ITag ty name => [(ty, name)]
  end.
Definition item_e (i : item) : tag * jstr :=
  match i with IText s => (TText, s) | ITag ty name => (ty, name) end.

(** ** Scanning a printed tag *)

Lemma match_closing t s :
  (forall c s', s = c :: s' -> is_space c = false) ->
  match_here (closing_re t) s = if decide (t `prefix_of` s) then Some (drop (length t) s) else None.
Proof.
  intros Hs. unfold match_here, closing_re. cbn [rmatch].
  assert (star_match is_space (rmatch (RLitThen t REps) Some) s
          = rmatch (RLitThen t REps) Some s) as ->.
  { destruct s as [|c s]; [done|]. cbn [star_match]. by rewrite (Hs c s eq_refl). }
  apply rmatch_RLitThen.
Qed.

Lemma match_opening t s :
  match_here (opening_re t) s =
  if decide (t `prefix_of` s) then star_match is_space Some (drop (length t) s) else None.
Proof. unfold match_here, opening_re. rewrite rmatch_RLitThen. done. Qed.

Lemma not_prefix_head (c d : N) t s : c <> d -> ~ ((c :: t) `prefix_of` (d :: s)).
Proof. intros H Hp. by apply prefix_cons_inv_1 in Hp. Qed.

Lemma drop_Forall_cons {A} (P : A -> Prop) (l r : list A) k :
  Forall P l -> (k < length l)%nat -> exists c r', drop k (l ++ r) = c :: r' /\ P c.
Proof.
  intros H Hk. rewrite drop_app_le by lia.
  destruct (drop k l) as [|c l'] eqn:E.
  - apply (f_equal length) in E. rewrite length_drop in E. cbn in E. lia.
  - exists c, (l' ++ r). split; [done|].
    assert (Forall P (drop k l)) as H' by by apply Forall_drop. rewrite E in H'. by inversion H'.
Qed.

Lemma scanUntil_skip sc r pre s rest :
  sc_tail sc = pre ++ s ->
  (forall k, (k < length pre)%nat -> match_here r (drop k (pre ++ s)) = None) ->
  match_here r s = Some rest ->
  exists sc', scanUntil sc r = (pre, sc') /\ sc_tail sc' = s.
Proof.
  intros Ht Hl Hm. destruct (scanUntil sc r) as [v sc'] eqn:E. exists sc'.
  apply scanUntil_spec in E as [(Hv & _) H]. unfold str_search, re_exec in H.
  rewrite Ht, (exec_from_skip _ _ _ _ _ Hl Hm) in H. cbn in H. destruct H as [Hlen _].
  rewrite Ht in Hv. apply app_inj_1 in Hv as [<- ->]; [done|by symmetry].
Qed.

Lemma scanUntil_end sc r :
  (forall k, (k <= length (sc_tail sc))%nat -> match_here r (drop k (sc_tail sc)) = None) ->
  exists sc', scanUntil sc r = (sc_tail sc, sc') /\ sc_tail sc' = [].
Proof.
  intros H. unfold scanUntil, str_search, re_exec.
  rewrite (proj2 (exec_from_None r (sc_tail sc) 0) H). cbn. by eexists.
Qed.

Lemma scan_here sc r v rest :
  sc_tail sc = v ++ rest -> match_here r (v ++ rest) = Some rest ->
  exists sc', scan sc r = (v, sc') /\ sc_tail sc' = rest.
Proof.
  intros Ht Hm. destruct (scan sc r) as [w sc'] eqn:E. exists sc'.
  apply scan_spec in E as [(Hv & _) H]. rewrite Ht, Hm in H. rewrite Ht, H in Hv.
  by apply app_inv_tail in Hv as ->.
Qed.

Lemma scan_none sc r : match_here r (sc_tail sc) = None -> scan sc r = ([], sc).
Proof.
  intros Hm. destruct (scan sc r) as [w sc'] eqn:E.
  apply scan_spec in E as [_ H]. rewrite Hm in H. by destruct H as [-> ->].
Qed.

Lemma text_no_opening s r k :
  Forall text_char_ok s -> (k < length s)%nat ->
  match_here (opening_re (str "{{")) (drop k (s ++ r)) = None.
Proof.
  intros H Hk. destruct (drop_Forall_cons _ _ r _ H Hk) as (c & r' & -> & [Hc _]).
  rewrite match_opening, decide_False; [done|]. by apply not_prefix_head.
Qed.

Lemma name_no_closing s r k :
  Forall name_char_ok s -> (k < length s)%nat ->
  match_here (closing_re (str "}}")) (drop k (s ++ r)) = None.
Proof.
  intros H Hk. destruct (drop_Forall_cons _ _ r _ H Hk) as (c & r' & -> & (Hc1 & _ & Hc2)).
  rewrite match_closing by (intros d s' [= <- <-]; done).
  rewrite decide_False; [done|]. by apply not_prefix_head.
Qed.

Definition item_tag (ty : tag) : bool := leaf_tag ty || section_tag ty || bool_decide (ty = TSlash).
Definition dflt_re : tags_re :=
  TagsRe (opening_re (str "{{")) (closing_re (str "}}")) (closing_re (str "}}}")).

Lemma name_head name r : name_ok name -> exists c s, name ++ r = c :: s /\ name_char_ok c.
Proof.
  intros [Hn H]. destruct name as [|c name]; [done|]. inversion H; subst. by exists c, (name ++ r).
Qed.

Lemma scan_white_none sc c s :
  sc_tail sc = c :: s -> is_space c = false ->
  exists sc', scan sc whiteRe = ([], sc') /\ sc_tail sc' = c :: s.
Proof.
  intros Ht Hc. apply (scan_here sc whiteRe [] (c :: s)); [done|].
  unfold match_here, whiteRe. cbn. by rewrite Hc.
Qed.

Lemma read_tag_print sc ty name rest :
  item_tag ty = true -> name_ok name ->
  sc_tail sc = sym ty ++ name ++ str "}}" ++ rest ->
  exists sc', read_tag dflt_re sc = (ty, name, sc') /\ sc_tail sc' = str "}}" ++ rest.
Proof.
  intros Hty Hname Ht.
  destruct (name_head name (str "}}" ++ rest) Hname) as (c & s & Hc & Hc1 & Hc2 & Hc3).
  assert (exists sc1, scan sc tagRe = (sym ty, sc1) /\ sc_tail sc1 = c :: s) as (sc1 & E1 & Ht1).
  { destruct (decide (sym ty = [])) as [Hs|Hs].
    - rewrite Hs in *. exists sc. rewrite Hc in Ht. split; [|done]. apply scan_none.
      unfold match_here, tagRe, ROneOf. rewrite Ht. cbn [app rmatch].
      by rewrite bool_decide_false.
    - rewrite <-Hc. apply scan_here; [done|]. by destruct ty. }
  destruct (scan_white_none _ _ _ Ht1 Hc1) as (sc2 & E2 & Ht2). rewrite <-Hc in Ht2.
  destruct (scanUntil_skip sc2 (closing_re (str "}}")) name (str "}}" ++ rest) rest Ht2)
    as (sc3 & E3 & Ht3).
  { intros k Hk. apply name_no_closing; [apply Hname|done]. }
  { rewrite match_closing; [done|]. by intros ? ? [= <- _]. }
  exists sc3. split; [|done]. unfold read_tag. rewrite E1, E2.
  assert (tag_of (sym ty) = ty) as -> by by destruct ty.
  destruct ty; try done; cbn [closingTagRe dflt_re]; by rewrite E3.
Qed.

Lemma text_loop_print value start st n st' :
  Forall text_char_ok value -> text_loop value start st = (n, st') ->
  exists toks, ps_tokens st' = ps_tokens st ++ map Some toks /\
    map etok toks = map (fun c => (TText, [c])) value.
Proof.
  intros H. revert start st. induction H as [|c value [_ Hc] _ IH]; intros start st; cbn [text_loop].
  - intros [= _ <-]. exists []. by rewrite app_nil_r.
  - intros Hl. apply IH in Hl as (toks & Ht & He).
    assert (ps_tokens (text_char c start st)
            = ps_tokens st ++ [Some (Token TText [c] start (start + 1))]) as E.
    { unfold text_char. rewrite (proj2 (N.eqb_neq c ch_nl) Hc). by case_head. }
    rewrite E, <-app_assoc in Ht. eexists (_ :: toks). split; [exact Ht|]. cbn. by f_equal.
Qed.

(** The names of the open sections decide whether a closing tag is accepted. *)
Fixpoint iopens (stack : list jstr) (items : list item) : option (list jstr) :=
  match items with
  | [] => Some stack
  | IText _ :: items' => iopens stack items'
  | ITag ty name :: items' =>
      match ty with
      | THash | TCaret => iopens (name :: stack) items'
      | TSlash => match stack with
                  | n :: stack' => if decide (n = name) then iopens stack' items' else None
                  | [] => None
                  end
      | _ => iopens stack items'
      end
  end.

Definition state_is (st : pstate) (tail : jstr) (secs : list jstr) (toks : list token) : Prop :=
  sc_tail (ps_scanner st) = tail /\ ps_re st = dflt_re /\
  map tk_value (ps_sections st) = secs /\ ps_tokens st = map Some toks.

(** One turn of the loop on a text and a printed tag. *)
Lemma parse_iter_print st text ty name rest secs toks secs' :
  state_is st (text ++ print_item (ITag ty name) ++ rest) secs toks ->
  Forall text_char_ok text -> item_tag ty = true -> name_ok name ->
  iopens secs [ITag ty name] = Some secs' ->
  exists st' toks', parse_iter st = Ok (true, st') /\ state_is st' rest secs' (toks ++ toks') /\
    map etok toks' = map (fun c => (TText, [c])) text ++ [(ty, name)].
Proof.
  intros (Ht & Hre & Hsec & Htok) Htext Hty Hname Hopen.
  cbn [print_item] in Ht. rewrite <-!app_assoc in Ht.
  set (after := sym ty ++ name ++ str "}}" ++ rest) in *.
  assert (exists c s, after = c :: s /\ is_space c = false) as (c & s & Hafter & Hc).
  { destruct (name_head name (str "}}" ++ rest) Hname) as (c & s & E & H & _).
    unfold after. rewrite E. destruct ty; cbn; eauto. }
  assert (match_here (opening_re (str "{{")) (str "{{" ++ after) = Some after) as Hm.
  { rewrite match_opening, decide_True by by eexists. rewrite drop_app_length, Hafter.
    cbn [star_match]. by rewrite Hc. }
  unfold parse_iter. rewrite Hre. cbn [openingTagRe dflt_re].
  destruct (scanUntil_skip _ _ text _ _ Ht ltac:(by intros; apply text_no_opening) Hm)
    as (sc1 & -> & Ht1).
  destruct (text_loop _ _ _) as [n st1] eqn:Htl.
  apply text_loop_print in Htl as Hp; [|done]. destruct Hp as (ttoks & Htt & Hte).
  apply text_loop_frame in Htl as (_ & Hsc & Hss & Hrr). cbn in Hsc, Hss, Hrr, Htt.
  rewrite Hsc, Hrr, Hre. cbn [openingTagRe dflt_re].
  destruct (scan_here _ _ _ _ Ht1 Hm) as (sc2 & -> & Ht2). rewrite bool_decide_false by done.
  destruct (read_tag_print _ _ _ _ Hty Hname Ht2) as (sc3 & -> & Ht3).
  destruct (scan_here sc3 (closing_re (str "}}")) (str "}}") rest Ht3) as (sc4 & E4 & Ht4).
  { rewrite match_closing; [done|]. by intros ? ? [= <- _]. }
  cbn [closingTagRe dflt_re]. rewrite E4, bool_decide_false by done.
  set (t := Token ty name n (sc_pos sc4)).
  assert (forall f1 f2 secs2, map tk_value secs2 = secs' ->
    state_is (PState sc4 secs2 (ps_tokens st1 ++ [Some t]) (ps_spaces st1) f1 f2 dflt_re)
             rest secs' (toks ++ ttoks ++ [t])) as Hfin.
  { intros f1 f2 secs2 Hs2. split_and!; [done..|]. cbn.
    by rewrite Htt, Htok, !map_app, app_assoc. }
  assert (map etok (ttoks ++ [t]) = map (fun c => (TText, [c])) text ++ [(ty, name)]) as He
    by by rewrite map_app, Hte.
  exists (match handle_tag t (PState sc4 (ps_sections st1) (ps_tokens st1) (ps_spaces st1) true
                    (ps_nonSpace st1) (ps_re st1)) with Ok st' => st' | _ => st end),
         (ttoks ++ [t]).
  unfold handle_tag; cbn [tk_type t]. rewrite Hrr, Hre, Hss. subst secs.
  destruct ty; try done; cbn in Hopen; simplify_eq; cbn [mbind res_bind];
    try (split_and!; [done|by apply Hfin|done]).
  cbn [ps_sections]. destruct (ps_sections st) as [|o secs]; cbn in *; [done|].
  case_decide; [|done]. simplify_eq. rewrite bool_decide_true by done. cbn.
  split_and!; [done|by apply Hfin|done].
Qed.

(** The last text of the template. *)
Lemma parse_iter_end st text secs toks :
  state_is st text secs toks -> Forall text_char_ok text ->
  exists st' toks', parse_iter st = Ok (false, st') /\ state_is st' [] secs (toks ++ toks') /\
    map etok toks' = map (fun c => (TText, [c])) text.
Proof.
  intros (Ht & Hre & Hsec & Htok) Htext. unfold parse_iter. rewrite Hre. cbn [openingTagRe dflt_re].
  destruct (scanUntil_end (ps_scanner st) (opening_re (str "{{"))) as (sc1 & -> & Ht1).
  { intros k Hk. rewrite Ht in *. destruct (decide (k < length text)%nat).
    - rewrite <-(app_nil_r text). by apply text_no_opening.
    - by rewrite drop_ge by lia. }
  rewrite Ht. destruct (text_loop _ _ _) as [n st1] eqn:Htl.
  apply text_loop_print in Htl as Hp; [|done]. destruct Hp as (ttoks & Htt & Hte).
  apply text_loop_frame in Htl as (_ & Hsc & Hss & Hrr). cbn in Hsc, Hss, Hrr, Htt.
  rewrite Hsc, Hrr, Hre, scan_none by by rewrite Ht1. rewrite bool_decide_true by done.
  eexists _, ttoks. split_and!; [done| |done]. unfold state_is; cbn.
  rewrite Htt, Htok, map_app, Hss, Hrr. done.
Qed.

Definition item_ok (i : item) : Prop :=
  match i with
  | IText s => Forall text_char_ok s
  | ITag ty name => item_tag ty = true /\ name_ok name
  end.

Lemma parse_loop_items items : forall st text secs toks secs' fuel,
  state_is st (text ++ flat_map print_item items) secs toks ->
  Forall text_char_ok text -> Forall item_ok items -> iopens secs items = Some secs' ->
  (tail_len st < fuel)%nat ->
  exists st' toks', parse_loop fuel st = Ok st' /\ map tk_value (ps_sections st') = secs' /\
    ps_tokens st' = map Some (toks ++ toks') /\
    map etok toks' = map (fun c => (TText, [c])) text ++ flat_map expand items.
Proof.
  induction items as [|[s|ty name] items IH]; intros st text secs toks secs' fuel Hst Htext Hok Ho Hf.
  - cbn [flat_map] in *. rewrite app_nil_r in *. cbn in Ho. simplify_eq.
    destruct fuel as [|fuel]; [lia|]. cbn [parse_loop]. unfold eos.
    case_bool_decide as Hnil.
    + destruct Hst as (Ht & _ & Hs & Htk). rewrite Hnil in Ht. subst text.
      exists st, []. rewrite app_nil_r. done.
    + destruct (parse_iter_end _ _ _ _ Hst Htext) as (st' & toks' & -> & (_ & _ & Hs & Htk) & He).
      cbn. by exists st', toks'.
  - apply Forall_cons in Hok as [Hs Hok]. cbn [flat_map print_item expand] in *.
    rewrite app_assoc in Hst. rewrite app_assoc, <-map_app.
    by eapply IH; [| | | |exact Hf]; [exact Hst|apply Forall_app|..].
  - apply Forall_cons in Hok as [[Hty Hname] Hok]. cbn [flat_map] in *.
    change (iopens secs ([ITag ty name] ++ items) = Some secs') in Ho.
    assert (exists secs1, iopens secs [ITag ty name] = Some secs1 /\ iopens secs1 items = Some secs')
      as (secs1 & Ho1 & Ho2).
    { destruct ty; cbn in *; eauto. destruct secs as [|n0 secs]; [done|].
      case_decide; [|done]. eauto. }
    destruct (parse_iter_print _ _ _ _ _ _ _ _ Hst Htext Hty Hname Ho1)
      as (st1 & toks1 & E1 & Hst1 & He1).
    destruct fuel as [|fuel]; [lia|]. cbn [parse_loop]. unfold eos.
    rewrite bool_decide_false.
    2: { destruct Hst as (-> & _). cbn. by destruct text. }
    rewrite E1. cbn [mbind res_bind].
    destruct (IH st1 [] secs1 (toks ++ toks1) secs' fuel) as (st' & toks' & El & Hs & Htk & He);
      [done..|apply parse_iter_progress in E1; lia|].
    exists st', (toks1 ++ toks'). rewrite app_assoc. split_and!; [done..|].
    by rewrite map_app, He1, He, <-app_assoc.
Qed.

(** ** Squashing the printed characters back *)

Fixpoint esq (acc : list (tag * jstr)) (l : list (tag * jstr)) : list (tag * jstr) :=
  match l with
  | [] => rev acc
  | t :: l' =>
      match acc with
      | lt :: acc' =>
          if bool_decide (t.1 = TText) && bool_decide (lt.1 = TText)
          then esq ((TText, lt.2 ++ t.2) :: acc') l' else esq (t :: acc) l'
      | [] => esq [t] l'
      end
  end.

Lemma esq_squash acc toks :
  map etok (squash_go acc (map Some toks)) = esq (map etok acc) (map etok toks).
Proof.
  revert acc; induction toks as [|t toks IH]; intros acc; cbn [map squash_go esq].
  - apply map_rev.
  - destruct acc as [|l acc]; cbn [map]; [apply IH|]. cbn [etok fst].
    destruct (_ && _); rewrite IH; done.
Qed.

(** Texts are not empty and never follow a text. *)
Fixpoint isep (after_text : bool) (items : list item) : Prop :=
  match items with
  | [] => True
  | IText s :: items' => after_text = false /\ s <> [] /\ isep true items'
  | ITag ty _ :: items' => ty <> TText /\ isep false items'
  end.

Lemma esq_run acc u s l :
  esq ((TText, u) :: acc) (map (fun c => (TText, [c])) s ++ l) = esq ((TText, u ++ s) :: acc) l.
Proof.
  revert u; induction s as [|c s IH]; intros u; cbn [map app]; [by rewrite app_nil_r|].
  cbn [esq fst snd]. rewrite !bool_decide_true by done. cbn [andb]. rewrite IH, <-app_assoc. done.
Qed.

Definition acc_text (acc : list (tag * jstr)) : bool :=
  match acc with t :: _ => bool_decide (t.1 = TText) | [] => false end.

Lemma esq_push acc t l :
  bool_decide (t.1 = TText) && acc_text acc = false -> esq acc (t :: l) = esq (t :: acc) l.
Proof. destruct acc as [|lt acc]; [done|]. cbn [acc_text esq]. by intros ->. Qed.

Lemma esq_items acc items :
  isep (acc_text acc) items -> esq acc (flat_map expand items) = rev acc ++ map item_e items.
Proof.
  revert acc; induction items as [|[s|ty name] items IH]; intros acc H; cbn [flat_map map].
  - by rewrite app_nil_r.
  - destruct H as (Ha & Hs & H). destruct s as [|c s]; [done|].
    cbn [expand map app]. rewrite esq_push by (cbn; by rewrite Ha). rewrite esq_run, IH by done.
    cbn [rev]. by rewrite <-app_assoc.
  - destruct H as [Hty H]. cbn [expand app].
    rewrite esq_push by (cbn; by rewrite bool_decide_false).
    rewrite IH by by (cbn; rewrite bool_decide_false). cbn [rev]. by rewrite <-app_assoc.
Qed.

(** ** The flat form of printable templates *)

Lemma foldr_Forall {A} (P : A -> Prop) l : foldr (fun a Q => P a /\ Q) True l <-> Forall P l.
Proof. induction l as [|a l IH]; cbn; [done|]. by rewrite Forall_cons, IH. Qed.

Lemma leaf_item ty : leaf_tag ty = true -> item_tag ty = true.
Proof. by destruct ty. Qed.
Lemma section_item ty : section_tag ty = true -> item_tag ty = true.
Proof. by destruct ty. Qed.
Lemma item_tag_text ty : item_tag ty = true -> ty <> TText.
Proof. by destruct ty. Qed.

Lemma flat_item_ok a : tmpl_ok a -> Forall item_ok (flat a).
Proof.
  induction a as [s|ty name|ty name body IH] using tmpl_ind'; cbn [tmpl_ok flat].
  - intros [_ H]. constructor; [done|constructor].
  - intros [? ?]. constructor; [split; [by apply leaf_item|done]|constructor].
  - rewrite foldr_Forall. intros (Hty & Hn & Hb). constructor; [split; [by apply section_item|done]|].
    apply Forall_app; split; [|constructor; [by split|constructor]].
    apply Forall_flat_map, Forall_forall. intros a Ha.
    rewrite Forall_forall in IH, Hb. eauto.
Qed.

Lemma flat_iopens a secs r : tmpl_ok a -> iopens secs (flat a ++ r) = iopens secs r.
Proof.
  revert secs r; induction a as [s|ty name|ty name body IH] using tmpl_ind'; intros secs r H;
    cbn [tmpl_ok flat] in *.
  - done.
  - destruct H as [H _]. by destruct ty.
  - rewrite foldr_Forall in H. destruct H as (Hty & _ & Hb).
    assert (forall secs r, iopens secs (flat_map flat body ++ r) = iopens secs r) as Hbody.
    { clear Hty. induction body as [|a body IHb]; [done|]. intros secs' r'.
      apply Forall_cons in IH as [Ha IH]. apply Forall_cons in Hb as [Hoka Hb].
      cbn [flat_map]. rewrite <-app_assoc, Ha by done. by apply IHb. }
    cbn [app]. destruct ty; try done; cbn [iopens]; rewrite <-app_assoc, Hbody; cbn;
      by rewrite decide_True.
Qed.

Lemma isep_weaken b items : isep b items -> isep false items.
Proof. destruct items as [|[s|ty name] items]; cbn; [done| |done]. by intros (_ & ? & ?). Qed.

(** The text flag that a template leaves for what follows it. *)
Definition last_text (b : bool) (l : list tmpl) : bool :=
  match last l with Some a => is_atext a | None => b end.

Lemma last_text_cons b a l : last_text b (a :: l) = last_text (is_atext a) l.
Proof. unfold last_text. rewrite last_cons. by destruct (last l). Qed.

Lemma flat_isep_list l b r :
  Forall (fun a => forall b r, (b && is_atext a = false) -> isep (is_atext a) r -> isep b (flat a ++ r)) l ->
  match l with a :: _ => b && is_atext a = false | [] => True end ->
  separated l = true -> isep (last_text b l) r -> isep b (flat_map flat l ++ r).
Proof.
  revert b; induction l as [|a l IH]; intros b Hall Hhd Hsep Hr; [done|].
  rewrite last_text_cons in Hr.
  apply Forall_cons in Hall as [Ha Hall]. cbn [flat_map]. rewrite <-app_assoc.
  apply Ha; [done|]. destruct l as [|a' l]; [done|].
  cbn [separated] in Hsep. apply andb_true_iff in Hsep as [H1 H2]. apply negb_true_iff in H1.
  apply IH; done.
Qed.

Lemma flat_isep a b r :
  tmpl_ok a -> separated_deep a = true ->
  b && is_atext a = false -> isep (is_atext a) r -> isep b (flat a ++ r).
Proof.
  revert b r; induction a as [s|ty name|ty name body IH] using tmpl_ind'; intros b r Hok Hs Hb Hr;
    cbn [tmpl_ok flat is_atext separated_deep] in *.
  - cbn. rewrite andb_true_r in Hb. by destruct Hok.
  - cbn. destruct Hok as [H _]. split; [by apply item_tag_text, leaf_item|done].
  - rewrite foldr_Forall in Hok. destruct Hok as (Hty & _ & Hok).
    apply andb_true_iff in Hs as [Hs Hd].
    cbn [app isep]. split; [by apply item_tag_text, section_item|]. rewrite <-app_assoc.
    apply flat_isep_list; [| |done|cbn; split; [done|by apply isep_weaken in Hr]].
    + apply Forall_forall. intros a Ha. rewrite Forall_forall in IH, Hok.
      rewrite forallb_forall in Hd. intros b' r'. apply IH; [done|by apply Hok|].
      by apply Hd, list_elem_of_In.
    + by destruct body.
Qed.

(** ** Nesting the flat form back *)

Lemma map_cons_inv {A B} (f : A -> B) l y k :
  map f l = y :: k -> exists x l', l = x :: l' /\ f x = y /\ map f l' = k.
Proof. destruct l as [|x l]; [done|]. intros [= <- <-]. by exists x, l. Qed.

Lemma map_app_inv {A B} (f : A -> B) l k1 k2 :
  map f l = k1 ++ k2 -> exists l1 l2, l = l1 ++ l2 /\ map f l1 = k1 /\ map f l2 = k2.
Proof.
  revert l; induction k1 as [|y k1 IH]; intros l H; [by exists [], l|].
  apply map_cons_inv in H as (x & l' & -> & <- & H).
  apply IH in H as (l1 & l2 & -> & <- & <-). by exists (x :: l1), l2.
Qed.

Definition nests_to (l : list tmpl) (toks : list token) : Prop :=
  exists nodes, map erase nodes = l /\ forall stack cur rest,
    nest_go stack cur (toks ++ rest) = nest_go stack (cur ++ nodes) rest.

Lemma nests_to_list l toks :
  Forall (fun a => forall toks, map etok toks = map item_e (flat a) -> nests_to [a] toks) l ->
  map etok toks = map item_e (flat_map flat l) -> nests_to l toks.
Proof.
  intros H; revert toks; induction H as [|a l Ha _ IH]; intros toks Ht; cbn [flat_map] in Ht.
  - destruct toks; [|done]. exists []. split; [done|]. intros. by rewrite app_nil_r.
  - rewrite map_app in Ht. apply map_app_inv in Ht as (t1 & t2 & -> & H1 & H2).
    destruct (Ha _ H1) as (n1 & E1 & G1), (IH _ H2) as (n2 & E2 & G2).
    exists (n1 ++ n2). rewrite map_app, E1, E2. split; [done|]. intros stack cur rest.
    by rewrite <-app_assoc, G1, G2, app_assoc.
Qed.

Lemma nests_to_flat a toks :
  tmpl_ok a -> map etok toks = map item_e (flat a) -> nests_to [a] toks.
Proof.
  revert toks; induction a as [s|ty name|ty name body IH] using tmpl_ind'; intros toks Hok Ht;
    cbn [tmpl_ok flat] in *.
  - apply map_cons_inv in Ht as ([ty v a b] & l & -> & [= -> ->] & Hl). destruct l; [|done].
    exists [Leaf (Token TText s a b)]. done.
  - apply map_cons_inv in Ht as ([ty' v a b] & l & -> & [= -> ->] & Hl). destruct l; [|done].
    destruct Hok as [Hty _]. exists [Leaf (Token ty name a b)]. by destruct ty.
  - rewrite foldr_Forall in Hok. destruct Hok as (Hty & _ & Hok).
    cbn [map item_e] in Ht. rewrite map_app in Ht.
    apply map_cons_inv in Ht as (t & l & -> & [= Ht1 Ht2] & Hl).
    apply map_app_inv in Hl as (lb & le & -> & Hb & He).
    apply map_cons_inv in He as (te & l & -> & [= He1 He2] & Hl). destruct l; [|done].
    destruct (nests_to_list body lb) as (nodes & En & Gn).
    { apply Forall_forall. intros a Ha toks. rewrite Forall_forall in IH, Hok. auto. }
    { done. }
    exists [Sec t nodes (Some (tk_start te))]. split; [cbn; by rewrite Ht1, Ht2, En|].
    intros stack cur rest. rewrite <-app_comm_cons, <-app_assoc. cbn [nest_go app].
    assert (forall A (x y : A), match tk_type t with THash | TCaret => x | _ => y end = x) as Hm.
    { intros. rewrite Ht1. by destruct ty. }
    destruct (tk_type t) eqn:Ety; try (by rewrite <-Ht1 in Hty); rewrite Gn; cbn [nest_go];
      by rewrite He1.
Qed.

Lemma parse_print_ok l :
  printable l ->
  exists nodes, parseTemplate (print l) None = Ok nodes /\ map erase nodes = l.
Proof.
  intros (Hok & Hsep & Hdeep). unfold parseTemplate.
  destruct (decide (l = [])) as [->|Hl].
  { exists []. done. }
  assert (Forall item_ok (flat_map flat l)) as Hitems.
  { apply Forall_flat_map, Forall_forall. intros a Ha. rewrite Forall_forall in Hok.
    by apply flat_item_ok, Hok. }
  assert (iopens [] (flat_map flat l ++ []) = Some []) as Hopen.
  { clear -Hok. induction Hok as [|a l Ha _ IH]; [done|]. cbn [flat_map].
    rewrite <-app_assoc, flat_iopens by done. done. }
  assert (isep false (flat_map flat l ++ [])) as Hisep.
  { apply flat_isep_list; [|by destruct l|done|done].
    apply Forall_forall. intros a Ha b r. rewrite Forall_forall in Hok.
    rewrite forallb_forall in Hdeep. apply flat_isep; [by apply Hok|].
    by apply Hdeep, list_elem_of_In. }
  rewrite app_nil_r in *.
  case_bool_decide as Hnil.
  { exfalso. apply Hl. destruct l as [|a l]; [done|]. exfalso. unfold print in Hnil.
    apply Forall_cons in Hok as [Ha _]. cbn in Hnil. rewrite flat_map_app in Hnil.
    apply app_eq_nil in Hnil as [Hnil _]. destruct a; cbn in *; [|done..].
    rewrite app_nil_r in Hnil. by destruct Ha. }
  unfold tags_or_default, mustache_tags. rewrite compileTags_pair. cbn [mbind res_bind].
  destruct (parse_loop_items (flat_map flat l)
              (init_pstate (print l) dflt_re) [] [] [] [] (S (length (print l))))
    as (st & toks & El & Hs & Htk & He); [by split_and!|done..|unfold tail_len; cbn; lia|].
  change (TagsRe _ _ _) with dflt_re. rewrite El. cbn [mbind res_bind].
  destruct (ps_sections st); [|done]. cbn [app map] in Htk. rewrite Htk. cbn [app] in He.
  unfold squashTokens. pose proof (esq_squash [] toks) as Hq. cbn [map] in Hq.
  rewrite He in Hq. change (map (fun c => (TText, [c])) []) with (@nil (tag * jstr)) in Hq.
  cbn [app] in Hq. rewrite esq_items in Hq by done. cbn [rev app] in Hq.
  destruct (nests_to_list l _ ltac:(
    apply Forall_forall; intros a Ha toks'; rewrite Forall_forall in Hok;
    by apply nests_to_flat, Hok) Hq) as (nodes & En & Gn).
  exists nodes. split; [|done]. unfold nestTokens.
  specialize (Gn [] [] []). rewrite app_nil_r in Gn. by rewrite Gn.
Qed.

(** C1: [parseTemplate] inverts printing: on the text of every printable
    template (texts on one line, tags with plain names, sections nested to any
    depth) it answers exactly that template, whatever the positions. *)
Theorem parseTemplate_print l :
  printable l ->
  exists nodes, parseTemplate (print l) None = Ok nodes /\ map erase nodes = l.
Proof. apply parse_print_ok. Qed.

(** ** A printable template *)

#[export] Instance text_char_ok_dec c : Decision (text_char_ok c).
Proof. unfold text_char_ok. apply _. Defined.
#[export] Instance text_ok_dec s : Decision (text_ok s).
Proof. unfold text_ok. apply _. Defined.
#[export] Instance name_char_ok_dec c : Decision (name_char_ok c).
Proof. unfold name_char_ok. apply _. Defined.
#[export] Instance name_ok_dec s : Decision (name_ok s).
Proof. unfold name_ok. apply _. Defined.

Fixpoint tmpl_okb (a : tmpl) : bool :=
  match a with
  | AText s => bool_decide (text_ok s)
  | ATag ty name => leaf_tag ty && bool_decide (name_ok name)
  | ASec ty name body => section_tag ty && bool_decide (name_ok name) && forallb tmpl_okb body
  end.

Lemma tmpl_okb_ok a : tmpl_okb a = true -> tmpl_ok a.
Proof.
  induction a as [s|ty name|ty name body IH] using tmpl_ind'; cbn [tmpl_okb tmpl_ok].
  - apply bool_decide_eq_true.
  - intros H. bool_hyps. by rewrite bool_decide_eq_true in *.
  - intros H. bool_hyps. rewrite bool_decide_eq_true in *. rewrite foldr_Forall.
    split_and!; [done..|]. rewrite forallb_forall in *. rewrite Forall_forall in *.
    intros a Ha. apply IH; [done|]. by apply H0, list_elem_of_In.
Qed.

Definition printableb (l : list tmpl) : bool :=
  forallb tmpl_okb l && separated l && forallb separated_deep l.

Lemma printableb_ok l : printableb l = true -> printable l.
Proof.
  unfold printableb, printable. intros H. bool_hyps. split_and!; [|done..].
  apply Forall_forall. intros a Ha. rewrite forallb_forall in H.
  by apply tmpl_okb_ok, H, list_elem_of_In.
Qed.

Definition sample_tmpl : list tmpl :=
  [AText (str "Hi "); ASec THash (str "who") [ATag TName (str "name"); AText (str ", ");
     ASec TCaret (str "x") [ATag TAmp (str "y")]]; AText (str "!")].

Example parseTemplate_print_witness :
  printable sample_tmpl /\
  exists nodes, parseTemplate (print sample_tmpl) None = Ok nodes /\ map erase nodes = sample_tmpl.
Proof.
  assert (printable sample_tmpl) as Hp by (apply printableb_ok; vm_compute; reflexivity).
  split; [exact Hp|]. apply (parseTemplate_print sample_tmpl Hp).
Defined.
