(* ===== verification/MustacheRender.v ===== *)
(** * Rendering of mustache.js

    [Context] with its lookup cache, [Writer] with its template cache, and the
    renderer.  The caches are mutable objects of the code: here they are state,
    which survives an exception.  Views are values, and the functions in them are
    functions of their arguments ([JsEnv]): a function that changes the view, or the
    writer, while it is rendered is not modelled. *)

From S2P Require Import Prelude JsNum RegExp JsVal Scanner Mustache.

(** ** Contexts *)

(** The [cache] holds what was assigned to it; as every object it also has the
    members of [Object.prototype]. *)
Inductive context := Ctx (view : jsval) (cache : gmap jstr jsval) (parent : option context).

Definition cx_view (c : context) : jsval := let 'Ctx v _ _ := c in v.
Definition cx_cache (c : context) : gmap jstr jsval := let 'Ctx _ m _ := c in m.
Definition cx_parent (c : context) : option context := let 'Ctx _ _ p := c in p.

Definition Context_new (view : jsval) (parent : option context) : context :=
  let view' := if nullish view then VObj [] else view in
  Ctx view' {[ str "." := view' ]} parent.

(** [Context.prototype.push]. *)
Definition context_push (c : context) (view : jsval) : context := Context_new view (Some c).

(** [name.split('.')]. *)
Fixpoint split_dot_go (cur : jstr) (s : jstr) : list jstr :=
  match s with
  | [] => [rev cur]
  | c :: s' => if (c =? chr ".")%N then rev cur :: split_dot_go [] s' else split_dot_go (c :: cur) s'
  end.
Definition split_dot (s : jstr) : list jstr := split_dot_go [] s.

(** [name.indexOf('.') > 0]. *)
Definition dotted (name : jstr) : bool :=
  match name with
  | c :: s => negb (c =? chr ".")%N && bool_decide (chr "." ∈ s)
  | [] => false
  end.

Section render.
Context `{JsEnv}.

(** [while (value != null && index < names.length) value = value[names[index++]]] *)
Fixpoint walk (value : jsval) (names : list jstr) : res jsval :=
  match names with
  | [] => Ok value
  | n :: names' =>
      if nullish value then Ok value
      else v ← get_prop value n; walk v names'
  end.

Definition view_value (view : jsval) (name : jstr) : res jsval :=
  if dotted name then walk view (split_dot name) else get_prop view name.

(** The [while (context)] loop of [lookup]. *)
Fixpoint lookup_chain (name : jstr) (c : context) : res jsval :=
  let 'Ctx view _ parent := c in
  value ← view_value view name;
  if negb (nullish value) then Ok value
  else match parent with Some p => lookup_chain name p | None => Ok value end.

(** The state of a rendering: the template cache of the writer and the
    context at hand. *)
Record rstate := RState { r_cache : gmap jstr (list node); r_ctx : context }.

Definition M (A : Type) : Type := rstate -> res A * rstate.

Definition m_ret {A} (a : A) : M A := fun st => (Ok a, st).
Definition m_res {A} (r : res A) : M A := fun st => (r, st).
Definition m_bind {A B} (m : M A) (f : A -> M B) : M B := fun st =>
  let '(r, st') := m st in
  match r with Ok a => f a st' | Throw e => (Throw e, st') | NoFuel => (NoFuel, st') end.
Notation "x <<- m ; k" := (m_bind m (fun x => k)) (at level 100, m at next level, right associativity).

(** [Context.prototype.lookup] on the current context. *)
Definition ctx_lookup (name : jstr) : M jsval := fun st =>
  let 'Ctx view cache parent := r_ctx st in
  let '(value, st') :=
    match cache !! name with
    | Some v => (Ok v, st)
    | None =>
        match object_member name with
        | Some _ => (Ok (inherited [] name), st)
        | None =>
            match lookup_chain name (r_ctx st) with
            | Ok v => (Ok v, RState (r_cache st) (Ctx view (<[name := v]> cache) parent))
            | e => (e, st)
            end
        end
    end in
  match value with
  | Ok (VFun f) => (call_fn f view, st')
  | _ => (value, st')
  end.

(** Run [m] in a child context, [context.push(view)]; the child is dropped. *)
Definition with_view {A} (view : jsval) (m : M A) : M A := fun st =>
  let '(r, st') := m (RState (r_cache st) (context_push (r_ctx st) view)) in
  (r, RState (r_cache st') (r_ctx st)).

Definition m_view : M jsval := fun st => (Ok (cx_view (r_ctx st)), st).

(** ** The writer *)

(** What [Writer.prototype.parse] answers: tokens, or a member of
    [Object.prototype] with its [length] when the template is the name of one
    and is not in the cache. *)
Inductive parsed := PTokens (tokens : list node) | PHost (len : nat).

Definition writer_parse (template : jstr) (tags : option tags_arg) : M parsed := fun st =>
  match r_cache st !! template with
  | Some tokens => (Ok (PTokens tokens), st)
  | None =>
      match object_member template with
      | Some len => (Ok (PHost len), st)
      | None =>
          match parseTemplate template tags with
          | Ok tokens =>
              (Ok (PTokens tokens), RState (<[template := tokens]> (r_cache st)) (r_ctx st))
          | Throw e => (Throw e, st)
          | NoFuel => (NoFuel, st)
          end
      end
  end.

(** [Writer.prototype.clearCache]. *)
Definition clearCache : M unit := fun st => (Ok tt, RState ∅ (r_ctx st)).

(** The [partials] argument: missing, an object of templates, a loader. *)
Inductive partials :=
  | PartNone
  | PartObj (l : list (jstr * jstr))
  | PartFun (load : jstr -> option jstr).

Definition partial_lookup (ps : partials) (name : jstr) : res (option jstr) :=
  match ps with
  | PartNone => Ok None
  | PartObj l =>
      match list_find (fun p => p.1 = name) l with
      | Some (_, (_, t)) => Ok (Some t)
      | None => match object_member name with
                | Some _ => Throw (str "TypeError")
                | None => Ok None
                end
      end
  | PartFun load => Ok (load name)
  end.

Variable ps : partials.

(** The recursive calls of the renderer: the tokens and [originalTemplate]. *)
Definition renderer : Type := list node -> option jstr -> M jstr.

(** [renderTokens] applied to an answer of [parse]. *)
Definition render_parsed (rec : renderer) (p : parsed) (original : option jstr) : M jstr :=
  match p with
  | PTokens tokens => rec tokens original
  | PHost len => m_res (if decide (len = 0%nat) then Ok [] else Throw (str "TypeError"))
  end.

(** [subRender]: render a template in the current context. *)
Definition subRender (rec : renderer) (template : jstr) : M jstr :=
  p <<- writer_parse template None; render_parsed rec p (Some template).

Fixpoint run_lam (rec : renderer) (l : lam) : M jsval :=
  match l with
  | LRet v => m_ret v
  | LThrow e => m_res (Throw e)
  | LSub template k h => fun st =>
      let '(r, st') := subRender rec template st in
      match r with
      | Ok s => run_lam rec (k s) st'
      | Throw e => run_lam rec (h e) st'
      | NoFuel => (NoFuel, st')
      end
  end.

(** [originalTemplate.slice(token[3], token[5])]. *)
Definition section_text (original : jstr) (t : token) (close : option nat) : jstr :=
  slice original (Fin (Z.of_nat (tk_end t)))
    ((fun c => Fin (Z.of_nat c)) <$> close).

Fixpoint render_each (rec : M jstr) (values : list jsval) : M jstr :=
  match values with
  | [] => m_ret []
  | v :: values' => s <<- with_view v rec; r <<- render_each rec values'; m_ret (s ++ r)
  end.

(** The [case '#'] of [renderTokens]. *)
Definition render_section (rec : renderer) (t : token) (ch : list node) (close : option nat)
    (original : option jstr) : M jstr :=
  value <<- ctx_lookup (tk_value t);
  if negb (truthy value) then m_ret []
  else match value with
       | VArr l => render_each (rec ch original) l
       | VObj _ | VStr _ => with_view value (rec ch original)
       | VFun f =>
           match original with
           | None => m_res (Throw (str "Cannot use higher-order sections without the original template"))
           | Some o =>
               view <<- m_view;
               v <<- run_lam rec (section_fn f view (section_text o t close));
               m_ret (if nullish v then [] else to_string v)
           end
       | _ => rec ch original
       end.

(** The [case '^']. *)
Definition render_inverted (rec : renderer) (t : token) (ch : list node)
    (original : option jstr) : M jstr :=
  value <<- ctx_lookup (tk_value t);
  if negb (truthy value) || match value with VArr [] => true | _ => false end
  then rec ch original else m_ret [].

(** The [case '>']. *)
Definition render_partial (rec : renderer) (name : jstr) : M jstr :=
  match ps with
  | PartNone => m_ret []
  | _ =>
      value <<- m_res (partial_lookup ps name);
      match value with
      | None => m_ret []
      | Some template => p <<- writer_parse template None; render_parsed rec p (Some template)
      end
  end.

(** One turn of the loop of [renderTokens]. *)
Definition render_node (rec : renderer) (original : option jstr) (n : node) : M jstr :=
  match n with
  | Sec t ch close =>
      match tk_type t with
      | THash => render_section rec t ch close original
      | TCaret => render_inverted rec t ch original
      | _ => m_ret []
      end
  | Leaf t =>
      match tk_type t with
      | TPartial => render_partial rec (tk_value t)
      | TAmp =>
          value <<- ctx_lookup (tk_value t);
          m_ret (if nullish value then [] else to_string value)
      | TName =>
          value <<- ctx_lookup (tk_value t);
          m_ret (if nullish value then [] else escapeHtml (to_string value))
      | TText => m_ret (tk_value t)
      | _ => m_ret []
      end
  end.

Fixpoint render_list (rec : renderer) (original : option jstr) (tokens : list node) : M jstr :=
  match tokens with
  | [] => m_ret []
  | n :: tokens' =>
      s <<- render_node rec original n; r <<- render_list rec original tokens'; m_ret (s ++ r)
  end.

(** [Writer.prototype.renderTokens]; [fuel] bounds the depth of the calls. *)
Fixpoint renderTokens (fuel : nat) : renderer := fun tokens original =>
  match fuel with
  | O => m_res NoFuel
  | S f => render_list (renderTokens f) original tokens
  end.

(** [Writer.prototype.render] on a view: the answer and the writer's cache. *)
Definition writer_render (fuel : nat) (cache : gmap jstr (list node)) (template : jstr)
    (view : jsval) : res jstr * gmap jstr (list node) :=
  let '(r, st) := (p <<- writer_parse template None;
                   render_parsed (renderTokens fuel) p (Some template))
                  (RState cache (Context_new view None)) in
  (r, r_cache st).
End render.

(** ** The functions of [mustache] itself, on the cache of [defaultWriter] *)

Definition mustache_parse (template : jstr) (tags : option tags_arg)
    (cache : gmap jstr (list node)) : res parsed * gmap jstr (list node) :=
  let '(r, st) := writer_parse template tags (RState cache (Context_new VUndef None)) in
  (r, r_cache st).

Definition mustache_clearCache (cache : gmap jstr (list node)) : gmap jstr (list node) :=
  r_cache (clearCache (RState cache (Context_new VUndef None))).2.

Definition mustache_render `{JsEnv} (ps : partials) (fuel : nat) := writer_render ps fuel.

(** [mustache.to_html]: with a function [send] the result goes to it and nothing
    is returned.  The answers: what is returned and what [send] received. *)
Definition mustache_to_html `{JsEnv} (ps : partials) (fuel : nat) (template : jstr)
    (view : jsval) (send : bool) (cache : gmap jstr (list node)) :
    res (jsval * option jstr) * gmap jstr (list node) :=
  let '(r, cache') := mustache_render ps fuel cache template view in
  (result ← r; Ok (if send then (VUndef, Some result) else (VStr result, None)), cache').
