(* ===== verification/RenderFacts.v ===== *)
(** * Properties of the renderer

    The abstract renderer reads views and parses templates directly; the code's
    renderer, with its two mutable caches, refines it.  On top of the abstract
    renderer: escaping keeps the values of a view out of the markup, the fuel is
    enough, and the text of a template is rendered as it is. *)

From S2P Require Import Prelude JsNum RegExp JsVal Scanner Mustache MustacheFacts MustachePrint MustacheRender.

Section facts.
Context `{JsEnv}.
Variable ps : partials.

(** ** The abstract renderer

    A context is the list of its views, innermost first. *)

Fixpoint ctx_views (c : context) : list jsval :=
  let 'Ctx v _ p := c in v :: match p with Some p => ctx_views p | None => [] end.

Definition top_view (views : list jsval) : jsval :=
  match views with v :: _ => v | [] => VObj [] end.

Definition push_view (view : jsval) (views : list jsval) : list jsval :=
  (if nullish view then VObj [] else view) :: views.

Fixpoint spec_chain (name : jstr) (views : list jsval) : res jsval :=
  match views with
  | [] => Ok VUndef
  | v :: views' =>
      value ← view_value v name;
      if negb (nullish value) then Ok value
      else match views' with [] => Ok value | _ => spec_chain name views' end
  end.

Definition spec_lookup (name : jstr) (views : list jsval) : res jsval :=
  value ← if decide (name = str ".") then Ok (top_view views)
          else match object_member name with
               | Some _ => Ok (inherited [] name)
               | None => spec_chain name views
               end;
  match value with VFun f => call_fn f (top_view views) | v => Ok v end.

Definition spec_parse (template : jstr) : res parsed :=
  match object_member template with
  | Some len => Ok (PHost len)
  | None => PTokens <$> parseTemplate template None
  end.

Definition spec_renderer : Type := list jsval -> list node -> option jstr -> res jstr.

Definition spec_parsed (rec : spec_renderer) views (p : parsed) (original : option jstr) : res jstr :=
  match p with
  | PTokens tokens => rec views tokens original
  | PHost len => if decide (len = 0%nat) then Ok [] else Throw (str "TypeError")
  end.

Definition spec_template (rec : spec_renderer) views (template : jstr) : res jstr :=
  p ← spec_parse template; spec_parsed rec views p (Some template).

Fixpoint spec_lam (rec : spec_renderer) views (l : lam) : res jsval :=
  match l with
  | LRet v => Ok v
  | LThrow e => Throw e
  | LSub template k h =>
      match spec_template rec views template with
      | Ok s => spec_lam rec views (k s)
      | Throw e => spec_lam rec views (h e)
      | NoFuel => NoFuel
      end
  end.

Definition spec_section (rec : spec_renderer) views (t : token) ch close original : res jstr :=
  value ← spec_lookup (tk_value t) views;
  if negb (truthy value) then Ok []
  else match value with
       | VArr l =>
           foldr (fun v acc => s ← rec (push_view v views) ch original; r ← acc; Ok (s ++ r)) (Ok []) l
       | VObj _ | VStr _ => rec (push_view value views) ch original
       | VFun f =>
           match original with
           | None => Throw (str "Cannot use higher-order sections without the original template")
           | Some o =>
               v ← spec_lam rec views (section_fn f (top_view views) (section_text o t close));
               Ok (if nullish v then [] else to_string v)
           end
       | _ => rec views ch original
       end.

Definition spec_node (rec : spec_renderer) views original (n : node) : res jstr :=
  match n with
  | Sec t ch close =>
      match tk_type t with
      | THash => spec_section rec views t ch close original
      | TCaret =>
          value ← spec_lookup (tk_value t) views;
          if negb (truthy value) || match value with VArr [] => true | _ => false end
          then rec views ch original else Ok []
      | _ => Ok []
      end
  | Leaf t =>
      match tk_type t with
      | TPartial =>
          match ps with
          | PartNone => Ok []
          | _ =>
              value ← partial_lookup ps (tk_value t);
              match value with None => Ok [] | Some tpl => spec_template rec views tpl end
          end
      | TAmp =>
          value ← spec_lookup (tk_value t) views;
          Ok (if nullish value then [] else to_string value)
      | TName =>
          value ← spec_lookup (tk_value t) views;
          Ok (if nullish value then [] else escapeHtml (to_string value))
      | TText => Ok (tk_value t)
      | _ => Ok []
      end
  end.

Definition spec_list (rec : spec_renderer) views original (tokens : list node) : res jstr :=
  foldr (fun n acc => s ← spec_node rec views original n; r ← acc; Ok (s ++ r)) (Ok []) tokens.

Fixpoint spec_render (fuel : nat) : spec_renderer := fun views tokens original =>
  match fuel with
  | O => NoFuel
  | S f => spec_list (spec_render f) views original tokens
  end.

(** ** The caches agree with what they stand for *)

Definition ctx_ok (c : context) : Prop :=
  cx_cache c !! str "." = Some (cx_view c) /\
  forall name v, cx_cache c !! name = Some v -> name <> str "." ->
    object_member name = None /\ lookup_chain name c = Ok v.

Definition cache_ok (cache : gmap jstr (list node)) : Prop :=
  forall t tokens, cache !! t = Some tokens ->
    object_member t = None /\ parseTemplate t None = Ok tokens.

Definition state_ok (st : rstate) : Prop := cache_ok (r_cache st) /\ ctx_ok (r_ctx st).

(** [m] answers [r] in every state whose context has the given views, and
    keeps the caches right and the views. *)
Definition refines {A} (views : list jsval) (m : M A) (r : res A) : Prop :=
  forall st, state_ok st -> ctx_views (r_ctx st) = views ->
    (m st).1 = r /\ state_ok (m st).2 /\ ctx_views (r_ctx (m st).2) = views.

Lemma refines_ret {A} views (a : A) : refines views (m_ret a) (Ok a).
Proof. done. Qed.

Lemma refines_res {A} views (r : res A) : refines views (m_res r) r.
Proof. done. Qed.

Lemma refines_bind {A B} views (m : M A) r (f : A -> M B) g :
  refines views m r -> (forall a, refines views (f a) (g a)) ->
  refines views (m_bind m f) (r ≫= g).
Proof.
  intros Hm Hf st Hok Hv. unfold m_bind. destruct (Hm st Hok Hv) as (H1 & H2 & H3).
  destruct (m st) as [r' st']; cbn in *. subst r'. destruct r as [a|e|]; [|done..].
  by apply Hf.
Qed.

Lemma lookup_chain_views name c : lookup_chain name c = spec_chain name (ctx_views c).
Proof.
  revert c. fix IH 1. intros [view cache parent]. cbn.
  destruct (view_value view name) as [value|e|]; cbn; [|done..].
  destruct (nullish value); cbn; [|done]. destruct parent as [p|]; [|done].
  rewrite (IH p). by destruct p.
Qed.

Lemma top_view_ctx c : top_view (ctx_views c) = cx_view c.
Proof. by destruct c. Qed.

Lemma Context_new_ok view parent : ctx_ok (Context_new view parent).
Proof.
  split; cbn; [apply lookup_singleton_eq|]. intros name v H1 H2.
  apply lookup_singleton_Some in H1 as [<- _]. done.
Qed.

Lemma refines_lookup views name : refines views (ctx_lookup name) (spec_lookup name views).
Proof.
  intros [cache [view m parent]] [Hc Hx] Hv. unfold ctx_lookup, spec_lookup. cbn [r_ctx r_cache] in *.
  assert (top_view views = view) as Htop by by rewrite <-Hv, top_view_ctx.
  rewrite Htop. destruct Hx as [Hdot Hent]. cbn [cx_cache cx_view] in Hdot, Hent.
  assert (forall (r : res jsval) st', state_ok st' -> ctx_views (r_ctx st') = views ->
    ((let '(value, st') := (r, st') in
      match value with Ok (VFun f) => (call_fn f view, st') | _ => (value, st') end).1
     = (r ≫= fun v => match v with VFun f => call_fn f view | v => Ok v end)) /\
    state_ok (let '(value, st') := (r, st') in
      match value with Ok (VFun f) => (call_fn f view, st') | _ => (value, st') end).2 /\
    ctx_views (r_ctx (let '(value, st') := (r, st') in
      match value with Ok (VFun f) => (call_fn f view, st') | _ => (value, st') end).2) = views)
    as Hcall.
  { intros r st' ? ?. destruct r as [v|e|]; [|done..]. by destruct v. }
  assert (state_ok (RState cache (Ctx view m parent))) as Hst by (split; [done|split; done]).
  destruct (m !! name) as [v|] eqn:Em.
  - destruct (decide (name = str ".")) as [->|Hn].
    + rewrite Hdot in Em. simplify_eq. by apply (Hcall (Ok _)).
    + destruct (Hent _ _ Em Hn) as [-> Hch]. rewrite lookup_chain_views, Hv in Hch.
      rewrite Hch. by apply (Hcall (Ok v)).
  - rewrite decide_False by congruence.
    destruct (object_member name) as [len|] eqn:Eo; [by apply (Hcall (Ok _))|].
    rewrite lookup_chain_views, Hv.
    destruct (spec_chain name views) as [v|e|] eqn:Ech; [|by apply (Hcall (Throw e))|by apply (Hcall NoFuel)].
    apply (Hcall (Ok v)); [|done]. split; [done|]. split; cbn.
    + rewrite lookup_insert_ne; [done|]. intros ->. by rewrite Hdot in Em.
    + intros name' v' Hl Hn. destruct (decide (name = name')) as [<-|Hne].
      * rewrite lookup_insert_eq in Hl. injection Hl as <-. split; [done|].
        transitivity (lookup_chain name (Ctx view m parent)); [done|].
        by rewrite lookup_chain_views, Hv.
      * rewrite lookup_insert_ne in Hl by done. by apply Hent.
Qed.

Lemma refines_parse views template :
  refines views (writer_parse template None) (spec_parse template).
Proof.
  intros [cache c] [Hc Hx] Hv. unfold writer_parse, spec_parse. cbn [r_cache r_ctx] in *.
  destruct (cache !! template) as [toks|] eqn:Et.
  { apply Hc in Et as [-> ->]. done. }
  destruct (object_member template) as [len|] eqn:Eo; [done|].
  destruct (parseTemplate template None) as [toks|e|] eqn:Ep; cbn; [|done..].
  split_and!; [done| |done]. split; [|done]. intros t toks' Ht. cbn in Ht.
  apply lookup_insert_Some in Ht as [[<- <-]|[_ Ht]]; [done|by apply Hc].
Qed.

Lemma refines_with_view {A} views view (m : M A) r :
  refines (push_view view views) m r -> refines views (with_view view m) r.
Proof.
  intros Hm [cache c] [Hc Hx] Hv. unfold with_view, push_view in *. cbn [r_cache r_ctx] in *.
  destruct (Hm (RState cache (context_push c view))) as (H1 & [H2 _] & _).
  - split; [done|apply Context_new_ok].
  - cbn. by rewrite Hv.
  - destruct (m _) as [r' st']. cbn in *. by split_and!.
Qed.

Lemma refines_view {A} views (f : jsval -> M A) r :
  refines views (f (top_view views)) r -> refines views (m_bind m_view f) r.
Proof.
  intros Hf st Hok Hv. unfold m_bind, m_view.
  rewrite <-top_view_ctx, Hv. by apply Hf.
Qed.

(** The recursive call of the code refines the one of the specification. *)
Definition rec_refines (rec : renderer) (srec : spec_renderer) : Prop :=
  forall views tokens original, views <> [] ->
    refines views (rec tokens original) (srec views tokens original).

Section step.
Context (rec : renderer) (srec : spec_renderer) (Hrec : rec_refines rec srec).

Lemma refines_parsed views p original : views <> [] ->
  refines views (render_parsed rec p original) (spec_parsed srec views p original).
Proof. intros Hn. destruct p; [by apply Hrec|apply refines_res]. Qed.

Lemma refines_template views template : views <> [] ->
  refines views (subRender rec template) (spec_template srec views template).
Proof.
  intros Hn. apply refines_bind; [apply refines_parse|]. intros p. by apply refines_parsed.
Qed.

Lemma refines_lam views l : views <> [] ->
  refines views (run_lam rec l) (spec_lam srec views l).
Proof.
  intros Hn. induction l as [v|e|template k IHk h IHh]; [done..|].
  intros st Hok Hv. cbn [run_lam spec_lam].
  destruct (refines_template views template Hn st Hok Hv) as (H1 & H2 & H3).
  destruct (subRender rec template st) as [r st']. cbn in *. subst r.
  destruct (spec_template srec views template); [by apply IHk|by apply IHh|done].
Qed.

Lemma refines_each views ch original l : views <> [] ->
  refines views (render_each (rec ch original) l)
    (foldr (fun v acc => s ← srec (push_view v views) ch original; r ← acc; Ok (s ++ r)) (Ok []) l).
Proof.
  intros Hn. induction l as [|v l IH]; [done|]. cbn [render_each foldr].
  apply refines_bind; [apply refines_with_view; by apply Hrec|]. intros s.
  apply refines_bind; [done|]. intros r. apply refines_ret.
Qed.

Lemma refines_section views t ch close original : views <> [] ->
  refines views (render_section rec t ch close original)
    (spec_section srec views t ch close original).
Proof.
  intros Hn. apply refines_bind; [apply refines_lookup|]. intros value.
  destruct (truthy value); cbn; [|apply refines_ret].
  destruct value; try (by apply Hrec); try (apply refines_with_view; by apply Hrec).
  - by apply refines_each.
  - destruct original as [o|]; [|apply refines_res].
    apply refines_view, refines_bind; [by apply refines_lam|].
    intros v. apply refines_ret.
Qed.

Lemma refines_node views original n : views <> [] ->
  refines views (render_node ps rec original n) (spec_node srec views original n).
Proof.
  intros Hn. destruct n as [t|t ch close]; cbn [render_node spec_node].
  - destruct (tk_type t); try apply refines_ret;
      try (apply refines_bind; [apply refines_lookup|]; intros value; apply refines_ret).
    unfold render_partial. destruct ps; [apply refines_ret|..];
      (apply refines_bind; [apply refines_res|]; intros [tpl|]; [|apply refines_ret];
       by apply refines_template).
  - destruct (tk_type t); try apply refines_ret; [by apply refines_section|].
    apply refines_bind; [apply refines_lookup|]. intros value.
    case_head; [by apply Hrec|apply refines_ret].
Qed.

Lemma refines_list views original tokens : views <> [] ->
  refines views (render_list ps rec original tokens) (spec_list srec views original tokens).
Proof.
  intros Hn. induction tokens as [|n tokens IH]; [apply refines_ret|]. cbn [render_list].
  unfold spec_list. cbn [foldr]. apply refines_bind; [by apply refines_node|]. intros s.
  apply refines_bind; [done|]. intros r. apply refines_ret.
Qed.
End step.

Lemma renderTokens_refines fuel : rec_refines (renderTokens ps fuel) (spec_render fuel).
Proof.
  induction fuel as [|fuel IH]; intros views tokens original Hn; [apply refines_res|].
  by apply refines_list.
Qed.

Lemma writer_render_spec fuel cache template view :
  cache_ok cache ->
  (writer_render ps fuel cache template view).1
    = spec_template (spec_render fuel) (push_view view []) template
  /\ cache_ok (writer_render ps fuel cache template view).2.
Proof.
  intros Hc. unfold writer_render, push_view.
  destruct (refines_template _ _ (renderTokens_refines fuel)
              [if nullish view then VObj [] else view] template ltac:(done)
              (RState cache (Context_new view None))) as (H1 & [H2 _] & _).
  { split; [done|apply Context_new_ok]. }
  { done. }
  unfold subRender in *. destruct (m_bind _ _ _) as [r st]. by cbn in *.
Qed.

(** C2: when the functions of the view do not change the view (they answer a
    value or throw, from their [this] and arguments alone), the renderer with its
    two mutable caches (parsed templates of the writer, looked up names of a
    context) answers what the renderer without caches answers, exceptions
    included, whatever correct templates the writer's cache already holds; and
    the cache stays correct. *)
Theorem writer_render_refines fuel cache template view :
  cache_ok cache ->
  (writer_render ps fuel cache template view).1
    = spec_template (spec_render fuel) (push_view view []) template
  /\ cache_ok (writer_render ps fuel cache template view).2.
Proof. apply writer_render_spec. Qed.
End facts.

(** ** First-order pages

    No function of the page or of the host answers a function, so a section is
    never higher-order, and calls return or throw. *)

Class FirstOrder `(JsEnv) : Prop := {
  fo_call : forall f this, call_fn f this <> NoFuel;
  fo_value : forall f this v, call_fn f this = Ok v -> isFunction v = false
}.

Section first_order.
Context `{FO : FirstOrder}.

Lemma bind_fuel {A B} (r : res A) (f : A -> res B) :
  r <> NoFuel -> (forall a, r = Ok a -> f a <> NoFuel) -> (r ≫= f) <> NoFuel.
Proof. intros Hr Hf. destruct r as [a|e|]; [by apply Hf|done..]. Qed.

Lemma walk_fuel v names : walk v names <> NoFuel.
Proof.
  revert v; induction names as [|n names IH]; intros v; cbn; [done|].
  destruct (nullish v) eqn:Hv; [done|]. destruct (get_prop_ok v n Hv) as [w ->]. apply IH.
Qed.

Lemma get_prop_fuel v name : get_prop v name <> NoFuel.
Proof. destruct v; cbn; repeat case_head; done. Qed.

Lemma spec_chain_fuel name views : spec_chain name views <> NoFuel.
Proof.
  induction views as [|v views IH]; [done|]. cbn. apply bind_fuel.
  - unfold view_value. case_head; [apply walk_fuel|apply get_prop_fuel].
  - intros w _. destruct (negb _); [done|]. destruct views; [done|apply IH].
Qed.

Lemma spec_lookup_fuel name views : spec_lookup name views <> NoFuel.
Proof.
  apply bind_fuel; [case_decide; [done|]; case_head; [done|apply spec_chain_fuel]|].
  intros [] _; try done. apply fo_call.
Qed.

(** A looked up value is never a function. *)
Lemma spec_lookup_not_fun name views v : spec_lookup name views = Ok v -> isFunction v = false.
Proof.
  unfold spec_lookup. intros Hl. apply bind_Ok_inv in Hl as (w & _ & Hw).
  destruct w; simplify_eq; try done. by eapply fo_value.
Qed.

Fixpoint depth (n : node) : nat :=
  match n with Leaf _ => 0%nat | Sec _ ch _ => S (foldr (fun n d => Nat.max (depth n) d) 0%nat ch) end.
Definition depth_list (l : list node) : nat := foldr (fun n d => Nat.max (depth n) d) 0%nat l.

Lemma spec_render_fuel fuel views nodes original :
  (depth_list nodes < fuel)%nat -> spec_render PartNone fuel views nodes original <> NoFuel.
Proof.
  revert views nodes original; induction fuel as [|fuel IH]; intros views nodes original Hd; [lia|].
  cbn [spec_render]. revert Hd. induction nodes as [|n nodes IHn]; intros Hd; [done|].
  unfold depth_list in Hd; cbn [foldr] in Hd.
  cbn [spec_list foldr]. apply bind_fuel; [clear IHn|].
  2: { intros s _. apply bind_fuel; [apply IHn; unfold depth_list; lia|done]. }
  destruct n as [t|t ch close]; cbn [spec_node].
  - destruct (tk_type t); try done; apply bind_fuel; try done; apply spec_lookup_fuel.
  - assert (forall vs, spec_render PartNone fuel vs ch original <> NoFuel) as Hch.
    { intros vs. apply IH. unfold depth_list. cbn in Hd. lia. }
    destruct (tk_type t); try done; apply bind_fuel; try apply spec_lookup_fuel; intros v Hv.
    + apply spec_lookup_not_fun in Hv. case_head; [done|].
      destruct v as [| | | | |l| |]; try done; [|apply Hch..].
      clear Heqb. induction l as [|v l IHl]; [done|]. cbn [foldr].
      apply bind_fuel; [apply Hch|]. intros s _. apply bind_fuel; [by apply IHl|done].
    + case_head; [apply Hch|done].
Qed.

(** Rendering terminates: for every template there is a depth of calls
    that every rendering of it stays under, whatever the view, when no partial
    is given and no function answers a function. *)
Theorem render_terminates template :
  exists bound, forall fuel cache view, (bound <= fuel)%nat -> cache_ok cache ->
    (writer_render PartNone fuel cache template view).1 <> NoFuel.
Proof.
  exists (match parseTemplate template None with Ok nodes => S (depth_list nodes) | _ => 0%nat end).
  intros fuel cache view Hf Hc.
  rewrite (proj1 (writer_render_spec PartNone fuel cache template view Hc)).
  unfold spec_template, spec_parse.
  destruct (object_member template) as [[|len]|]; [done..|].
  pose proof (parseTemplate_fuel_ok template None) as Hp.
  destruct (parseTemplate template None) as [nodes|e|]; cbn; [|done..].
  apply spec_render_fuel. lia.
Qed.

(** ** Escaping *)

(** No unescaped variable and no partial, at any depth. *)
Fixpoint escaped_only (n : node) : bool :=
  match n with
  | Leaf t => negb (bool_decide (tk_type t = TAmp)) && negb (bool_decide (tk_type t = TPartial))
  | Sec _ ch _ => forallb escaped_only ch
  end.

(** The literal texts of the template. *)
Fixpoint node_texts (n : node) : list jstr :=
  match n with
  | Leaf t => match tk_type t with TText => [tk_value t] | _ => [] end
  | Sec _ ch _ => flat_map node_texts ch
  end.

Lemma spec_list_Ok rec ps views original nodes out (P : jstr -> Prop) :
  P [] -> (forall a b, P a -> P b -> P (a ++ b)) ->
  (forall n s, n ∈ nodes -> spec_node ps rec views original n = Ok s -> P s) ->
  spec_list ps rec views original nodes = Ok out -> P out.
Proof.
  intros H0 Happ. revert out; induction nodes as [|n nodes IH]; intros out Hn Ho.
  - by injection Ho as <-.
  - cbn [spec_list foldr] in Ho. apply bind_Ok_inv in Ho as (s & Hs & Ho).
    apply bind_Ok_inv in Ho as (r & Hr & [= <-]). apply Happ.
    + eapply Hn; [|done]. left.
    + apply IH; [|done]. intros n' s' Hin. apply Hn. by right.
Qed.

Lemma foldr_views_Ok (f : jsval -> res jstr) l out (P : jstr -> Prop) :
  P [] -> (forall a b, P a -> P b -> P (a ++ b)) -> (forall v s, f v = Ok s -> P s) ->
  foldr (fun v acc => s ← f v; r ← acc; Ok (s ++ r)) (Ok []) l = Ok out -> P out.
Proof.
  intros H0 Happ Hf. revert out; induction l as [|v l IH]; intros out Ho; [by injection Ho as <-|].
  cbn [foldr] in Ho. apply bind_Ok_inv in Ho as (s & Hs & Ho).
  apply bind_Ok_inv in Ho as (r & Hr & [= <-]). eauto.
Qed.

Lemma escape_no c s : is_markup c = true -> c ∉ escapeHtml s.
Proof.
  intros Hc Hin. pose proof (escape_markup_free s) as He. rewrite Forall_forall in He.
  apply He in Hin. congruence.
Qed.

Lemma spec_no_injection fuel views nodes original out c :
  forallb escaped_only nodes = true -> is_markup c = true ->
  (forall s, s ∈ flat_map node_texts nodes -> c ∉ s) ->
  spec_render PartNone fuel views nodes original = Ok out -> c ∉ out.
Proof.
  revert views nodes original out; induction fuel as [|fuel IH];
    intros views nodes original out He Hc Ht Ho; [done|].
  cbn [spec_render] in Ho.
  assert (forall a b : jstr, c ∉ a -> c ∉ b -> c ∉ a ++ b) as Happ
    by (intros; rewrite elem_of_app; tauto).
  assert (c ∉ ([] : jstr)) as H0 by apply not_elem_of_nil.
  eapply (spec_list_Ok _ _ _ _ _ _ (fun s => c ∉ s)); [done..| |exact Ho].
  intros n s Hn Hs. rewrite forallb_forall in He. specialize (He n ltac:(by apply list_elem_of_In)).
  assert (forall s, s ∈ node_texts n -> c ∉ s) as Htn.
  { intros s' Hs'. apply Ht. apply list_elem_of_In, in_flat_map. exists n.
    by split; apply list_elem_of_In. }
  destruct n as [t|t ch close]; cbn [spec_node escaped_only node_texts] in *.
  - destruct (tk_type t) eqn:Ety; try done; simplify_eq; try done.
    + apply Htn. left.
    + apply bind_Ok_inv in Hs as (v & _ & [= <-]). case_head; [done|by apply escape_no].
  - assert (forall vs s', spec_render PartNone fuel vs ch original = Ok s' -> c ∉ s') as Hch.
    { intros vs s' Hs'. eapply IH; [exact He|done|done|exact Hs']. }
    destruct (tk_type t) eqn:Ety; simplify_eq; try done;
      apply bind_Ok_inv in Hs as (v & Hv & Hs).
    + apply spec_lookup_not_fun in Hv. destruct (truthy v); cbn in Hs; simplify_eq; [|done].
      destruct v; try done; eauto.
      eapply (foldr_views_Ok _ _ _ (fun s => c ∉ s)); [done..| |exact Hs].
      intros v s' Hv'. cbv beta in *. by eapply Hch.
    + case_hyp Hs; simplify_eq; eauto.
Qed.

(** C3: no markup can come from a view: when the writer, whose cache holds correct templates (as
    it does from the start), renders, without partials, a template whose variables are all
    escaped (no [&] and no triple mustache, at any depth), a markup character of the output
    occurs in a literal text of the template. The functions of the view answer no functions,
    so sections are not higher-order (the text a higher-order section answers is not
    escaped), and they do not change the view. *)
Theorem render_no_injection fuel cache template view nodes out c :
  cache_ok cache -> parseTemplate template None = Ok nodes ->
  forallb escaped_only nodes = true -> is_markup c = true ->
  (forall s, s ∈ flat_map node_texts nodes -> c ∉ s) ->
  (writer_render PartNone fuel cache template view).1 = Ok out -> c ∉ out.
Proof.
  intros Hc Hp He Hm Ht. rewrite (proj1 (writer_render_spec PartNone fuel cache template view Hc)).
  unfold spec_template, spec_parse. destruct (object_member template) as [len|]; cbn.
  - case_decide; [|done]. intros [= <-]. apply not_elem_of_nil.
  - rewrite Hp. cbn. by eapply spec_no_injection.
Qed.
End first_order.

(** ** Substitution *)

Section substitution.
Context `{JsEnv}.

(** A name that is looked up in the view alone. *)
Definition plain_name (name : jstr) : Prop :=
  name <> str "." /\ dotted name = false /\ object_member name = None.

Lemma inherited_plain own name :
  object_member name = None -> name ∉ own -> inherited own name = VUndef.
Proof. intros Ho Hn. unfold inherited. by rewrite bool_decide_false, Ho. Qed.

Lemma spec_lookup_plain name props :
  plain_name name ->
  Forall (fun p => isFunction p.2 = false) props ->
  spec_lookup name [VObj props] = Ok (default VUndef (own_prop props name)).
Proof.
  intros (Hd & Hdot & Ho) Hf. unfold spec_lookup. rewrite decide_False, Ho by done.
  cbn [spec_chain]. unfold view_value. rewrite Hdot. cbn [get_prop].
  rewrite inherited_plain by (done || apply not_elem_of_nil).
  assert (isFunction (default VUndef (own_prop props name)) = false) as Hv.
  { induction Hf as [|[k v] props Hv Hf IH]; [done|]. cbn. by case_decide. }
  destruct (own_prop props name) as [v|]; cbn [mbind res_bind default option_fmap] in *; [|done].
  destruct v; done.
Qed.

(** What a text or a variable of a flat template stands for. *)
Definition subst (props : list (jstr * jsval)) (a : tmpl) : jstr :=
  match a with
  | AText s => s
  | ATag TName name =>
      match own_prop props name with
      | Some v => if nullish v then [] else escapeHtml (to_string v)
      | None => []
      end
  | _ => []
  end.

Definition flat_tmpl (a : tmpl) : Prop :=
  match a with AText _ => True | ATag TName name => plain_name name | _ => False end.

Lemma spec_list_subst ps rec props original nodes l :
  map erase nodes = l -> Forall flat_tmpl l ->
  Forall (fun p => isFunction p.2 = false) props ->
  spec_list ps rec [VObj props] original nodes = Ok (flat_map (subst props) l).
Proof.
  intros <- Hl Hf. induction nodes as [|n nodes IH]; [done|].
  cbn [map] in Hl. apply Forall_cons in Hl as [Hn Hl].
  cbn [spec_list foldr map flat_map]. fold (spec_list ps rec [VObj props] original nodes).
  rewrite (IH Hl). clear IH Hl.
  assert (spec_node ps rec [VObj props] original n = Ok (subst props (erase n))) as ->; [|done].
  destruct n as [t|t ch close]; [|done]. cbn [spec_node erase] in *.
  destruct (tk_type t) eqn:Ety; try done. rewrite spec_lookup_plain by done. cbn.
  by destruct (own_prop props (tk_value t)).
Qed.

Lemma render_substitutes_aux ps fuel cache l props :
  cache_ok cache -> printable l -> Forall flat_tmpl l -> object_member (print l) = None ->
  Forall (fun p => isFunction p.2 = false) props ->
  (writer_render ps (S fuel) cache (print l) (VObj props)).1 = Ok (flat_map (subst props) l).
Proof.
  intros Hc Hp Hl Ho Hf. rewrite (proj1 (writer_render_spec ps (S fuel) _ _ _ Hc)).
  unfold spec_template, spec_parse. rewrite Ho.
  destruct (parse_print_ok l Hp) as (nodes & -> & Hn). cbn [fmap res_fmap mbind res_bind].
  cbn [spec_parsed spec_render push_view nullish]. by apply spec_list_subst.
Qed.

(** Rendering a template of texts and escaped variables writes each text
    as it is and each variable as the escaped string of the view's property,
    nothing when the view has none. *)
Theorem render_substitutes ps fuel cache l props :
  cache_ok cache -> printable l -> Forall flat_tmpl l -> object_member (print l) = None ->
  Forall (fun p => isFunction p.2 = false) props ->
  (writer_render ps (S fuel) cache (print l) (VObj props)).1 = Ok (flat_map (subst props) l).
Proof. apply render_substitutes_aux. Qed.

(** The cache of the writer is an object with the members of
    [Object.prototype]: a template whose text is the name of one is never
    parsed, and renders to nothing or fails, whatever the view. *)
Theorem render_object_member ps fuel cache name len view :
  cache_ok cache -> object_member name = Some len ->
  (writer_render ps fuel cache name view).1
  = if decide (len = 0%nat) then Ok [] else Throw (str "TypeError").
Proof.
  intros Hc Hm. rewrite (proj1 (writer_render_spec ps fuel _ _ _ Hc)).
  unfold spec_template, spec_parse. by rewrite Hm.
Qed.
End substitution.

(** ** Concrete instances *)

(** A page whose functions answer nothing. *)
Definition page_env : JsEnv := {|
  call_fn := fun _ _ => Ok VUndef;
  section_fn := fun _ _ _ => LRet VUndef;
  fun_prop := fun _ _ => None;
  fun_source := fun _ => str "function () {}"
|}.

Lemma page_env_first_order : @FirstOrder page_env.
Proof. split; [done|]. intros f this v [= <-]. done. Qed.

Lemma cache_ok_empty : cache_ok ∅.
Proof. intros t tokens H. by rewrite lookup_empty in H. Qed.

Definition sample_view : jsval :=
  VObj [(str "who", VArr [VObj [(str "name", VStr (str "<b>"))]; VObj [(str "name", VNum (Fin 7))]]);
        (str "x", VBool true)].

Example writer_render_refines_witness :
  (@writer_render page_env PartNone 9 ∅ sample_template sample_view).1
  = Ok (str "Hi &lt;b&gt;, 7, !") /\
  (@writer_render page_env PartNone 9 ∅ sample_template sample_view).1
  = spec_template (@spec_render page_env PartNone 9) (push_view sample_view []) sample_template.
Proof.
  split; [vm_compute; reflexivity|].
  apply (@writer_render_refines page_env PartNone 9 ∅ sample_template sample_view cache_ok_empty).
Defined.

Example render_terminates_witness :
  exists bound, forall fuel cache view, (bound <= fuel)%nat -> cache_ok cache ->
    (@writer_render page_env PartNone fuel cache sample_template view).1 <> NoFuel.
Proof. apply (@render_terminates page_env page_env_first_order sample_template). Defined.

Definition safe_template : jstr := str "Hi {{name}}{{#tags}}, {{.}}{{/tags}}".

Definition safe_view : jsval :=
  VObj [(str "name", VStr (str "<script>")); (str "tags", VArr [VStr (str "<b>")])].

Example render_no_injection_witness :
  (@writer_render page_env PartNone 2 ∅ safe_template safe_view).1
  = Ok (str "Hi &lt;script&gt;, &lt;b&gt;") /\ chr "<" ∉ str "Hi &lt;script&gt;, &lt;b&gt;".
Proof.
  split; [vm_compute; reflexivity|].
  eapply (@render_no_injection page_env page_env_first_order 2 ∅ safe_template safe_view).
  - apply cache_ok_empty.
  - vm_compute; reflexivity.
  - vm_compute; reflexivity.
  - vm_compute; reflexivity.
  - apply Forall_forall. cbv [flat_map node_texts tk_type tk_value app].
    repeat constructor; apply (bool_decide_unpack _); vm_compute; exact I.
  - vm_compute; reflexivity.
Defined.

Definition flat_sample : list tmpl := [AText (str "Hi "); ATag TName (str "name"); AText (str "!")].

Example render_substitutes_witness :
  (@writer_render page_env PartNone 1 ∅ (print flat_sample) (VObj [(str "name", VStr (str "<b>"))])).1
  = Ok (str "Hi &lt;b&gt;!").
Proof.
  apply (@render_substitutes page_env PartNone 0 ∅ flat_sample [(str "name", VStr (str "<b>"))]).
  - apply cache_ok_empty.
  - apply printableb_ok; vm_compute; reflexivity.
  - repeat constructor; by vm_compute.
  - vm_compute; reflexivity.
  - repeat constructor.
Defined.

Example render_object_member_witness :
  (@writer_render page_env PartNone 1 ∅ (str "toString") VUndef).1 = Ok [].
Proof.
  apply (@render_object_member page_env PartNone 1 ∅ (str "toString") 0 VUndef);
    [apply cache_ok_empty|vm_compute; reflexivity].
Defined.
