(* ===== verification/Columns.v ===== *)
(** * The table plug-in: jquery.columns.js

    The state of a [Columns] object and its methods: condition, filter, sort,
    paginate, the construction of the rows, headers and menu, the listeners and
    the API.  What the plug-in takes from elsewhere is an interface: the
    template engine ([TemplateEngine]), and the parts of the host it relies on
    ([ColsEnv]). *)

From S2P Require Import Prelude JsNum RegExp JsVal.

(** ** Interfaces *)

(** A template engine with internal state.  The law says what a client relies
    on: the answer does not depend on what was rendered before. *)
Class TemplateEngine := {
  te_state : Type;
  te_render : te_state -> jstr -> jsval -> res jstr * te_state;
  te_ok : te_state -> Prop;
  te_spec : jstr -> jsval -> res jstr;
  te_render_spec st template view : te_ok st ->
    (te_render st template view).1 = te_spec template view
    /\ te_ok (te_render st template view).2
}.

(** The host: [Number(s)] of a string; [Date.parse(new Date(v))]; what
    [new RegExp(query, "gi")] throws or which strings it matches; a synchronous
    request for a template file. *)
Class ColsEnv := {
  string_to_number : jstr -> num;
  date_value : jsval -> num;
  regexp_gi : jstr -> res (jstr -> bool);
  ajax : jstr -> option jstr
}.

(** ** Objects *)

(** [o[name] = v] on the own properties of a plain object. *)
Fixpoint set_prop (props : list (jstr * jsval)) (name : jstr) (v : jsval) : list (jstr * jsval) :=
  match props with
  | [] => [(name, v)]
  | (k, w) :: props' =>
      if decide (k = name) then (k, v) :: props' else (k, w) :: set_prop props' name v
  end.

(** [$.extend(target, source)], which skips the undefined values. *)
Definition extend_props (target source : list (jstr * jsval)) : list (jstr * jsval) :=
  fold_left (fun t p => match p.2 with VUndef => t | v => set_prop t p.1 v end) source target.

(** [$.extend([], l)]: the undefined elements are skipped, so the copy ends with
    the last defined one; the holes before it read as undefined. *)
Fixpoint extend_array (l : list jsval) : list jsval :=
  match l with
  | [] => []
  | x :: l' =>
      match x, extend_array l' with
      | VUndef, [] => []
      | _, r => x :: r
      end
  end.

(** [a === b] on primitive values; two objects are never the same one here,
    since the keys the plug-in compares are primitive. *)
Definition strict_eq (a b : jsval) : bool :=
  match a, b with
  | VUndef, VUndef | VNull, VNull => true
  | VBool x, VBool y => Bool.eqb x y
  | VNum x, VNum y => Num.eqb x y
  | VStr s, VStr t => bool_decide (s = t)
  | _, _ => false
  end.

(** [$.grep] with a callback that may throw. *)
Fixpoint grep {A} (p : A -> res bool) (l : list A) : res (list A) :=
  match l with
  | [] => Ok []
  | x :: l' => b ← p x; r ← grep p l'; Ok (if b : bool then x :: r else r)
  end.

(** ** Sorting *)

Module Sorting.

(** [Array.prototype.sort]: a stable sort by the comparator, the undefined
    elements last without a call.  On an inconsistent comparator the language
    leaves the order open. *)
Fixpoint insert {A} (cmp : A -> A -> res num) (x : A) (l : list A) : res (list A) :=
  match l with
  | [] => Ok [x]
  | y :: l' =>
      c ← cmp x y;
      if Num.gt c (Fin 0) then r ← insert cmp x l'; Ok (y :: r) else Ok (x :: y :: l')
  end.

Fixpoint isort {A} (cmp : A -> A -> res num) (l : list A) : res (list A) :=
  match l with
  | [] => Ok []
  | x :: l' => r ← isort cmp l'; insert cmp x r
  end.

Definition is_undef (v : jsval) : bool := match v with VUndef => true | _ => false end.

Definition array_sort (cmp : jsval -> jsval -> res num) (l : list jsval) : res (list jsval) :=
  s ← isort cmp (List.filter (fun v => negb (is_undef v)) l);
  Ok (s ++ List.filter is_undef l).

(** The order of strings, by code units. *)
Fixpoint str_lt (s t : jstr) : bool :=
  match s, t with
  | _, [] => false
  | [], _ :: _ => true
  | c :: s', d :: t' => (c <? d)%N || ((c =? d)%N && str_lt s' t')
  end.

(** *** The date pattern *)

(** A letter of the pattern under the flag [i]. *)
Definition lower (c : N) : N := if ((65 <=? c) && (c <=? 90))%N then (c + 32)%N else c.
Fixpoint RLit_i (s : jstr) : re :=
  match s with
  | [] => REps
  | c :: s' => RSeq (RCls (fun d => (lower c =? lower d)%N)) (RLit_i s')
  end.

Definition RRange (a b : N) : re := RCls (fun c => ((a <=? c) && (c <=? b))%N).
Definition RDigit : re := RCls is_digit.

Definition month_names : list jstr :=
  List.map str ["Jan"; "January"; "Feb"; "February"; "Mar"; "March"; "Apr"; "April"; "May";
    "Jun"; "June"; "Jul"; "July"; "Aug"; "August"; "Sep"; "September"; "Oct"; "October";
    "Nov"; "November"; "Dec"; "December"].

Definition date : re :=
  RSeq (RAlts (List.map RLit_i month_names ++
         [RSeq (ROpt (RChr (chr "0"))) RDigit; RAlts (List.map RLit [str "10"; str "11"; str "12"])]))
  (RSeq (RAlts [RChr (chr "-"); RCls is_space; RChr (chr "/"); RChr (chr ".")])
  (RSeq (RAlts [RSeq (ROpt (RChr (chr "0"))) (RRange 49 57);
                RSeq (RAlt (RChr (chr "1")) (RChr (chr "2"))) (RRange 48 57);
                RSeq (RChr (chr "3")) (RAlt (RChr (chr "0")) (RChr (chr "1")))])
  (RSeq (RAlts [RChr (chr "-"); RCls is_space; RChr (chr "/"); RChr (chr ".");
                RSeq (RChr (chr ",")) (RCls is_space)])
  (RSeq (ROpt (RAlt (RLit (str "19")) (RLit (str "20"))))
  (RSeq RDigit (RSeq RDigit REol)))))).

(** The pattern is anchored at both ends. *)
Definition date_test (s : jstr) : bool := bool_decide (is_Some (match_here date s)).

Section compare.
Context `{JsEnv} `{ColsEnv}.

(** [ToPrimitive] of a plain object, an array or a function. *)
Definition to_primitive (v : jsval) : jsval :=
  match v with
  | VArr _ | VObj _ | VFun _ => VStr (to_string v)
  | _ => v
  end.

(** [ToNumber] of a primitive value. *)
Definition to_number (v : jsval) : num :=
  match v with
  | VNull => Fin 0
  | VBool b => Fin (if b then 1 else 0)
  | VNum n => n
  | VStr s => string_to_number s
  | _ => NaN
  end.

(** [a < b]. *)
Definition js_lt (a b : jsval) : bool :=
  match to_primitive a, to_primitive b with
  | VStr s, VStr t => str_lt s t
  | x, y => Num.lt (to_number x) (to_number y)
  end.

(** [objectSort(field, reverse, primer)]. *)
Definition objectSort (field : jsval) (reverse : bool) (primer : option (jsval -> jsval))
    (a b : jsval) : res num :=
  let reverse := if reverse then Fin (-1) else Fin 1 in
  a ← get_prop a (to_string field);
  b ← get_prop b (to_string field);
  let '(a, b) :=
    if date_test (to_string a) && date_test (to_string b)
    then (VNum (date_value a), VNum (date_value b))
    else match primer with Some f => (f a, f b) | None => (a, b) end in
  if js_lt a b then Ok (Num.mul reverse (Fin (-1)))
  else if js_lt b a then Ok (Num.mul reverse (Fin 1))
  else Ok (Fin 0).

End compare.
End Sorting.

(** ** The state of a [Columns] object *)

(** An entry of the schema. *)
Record column := Column {
  c_key : jsval;
  c_header : jsval;
  c_hide : bool;
  c_template : option jstr;
  c_condition : option (jsval -> res jsval)
}.

(** What the options fix; [schema], [searchableFields], [sortableFields] and
    [template] may be completed by [init]. *)
Record config := Config {
  evenRowClass : jstr;
  oddRowClass : jstr;
  liveSearch : bool;
  plugins : option (list jstr);
  schema : option (list column);
  searchableFields : option (list jsval);
  sortableFields : option (list jsval);
  showRows : list num;
  table : bool;
  templateFile : option jstr;
  template : jstr;
  conditioning : bool;
  paginating : bool;
  searching : bool;
  sorting : bool
}.

Record range_t := Range { r_start : num; r_end : option num }.

(** What the plug-in does to its element. *)
Inductive effect :=
  | AddClass (c : jstr)
  | Listen (event selector : jstr)
  | Html (content : jstr)
  | RemoveTable
  | Append (content : jstr)
  | Empty.

Definition set_schema (x : list column) (g : config) : config :=
  Config (evenRowClass g) (oddRowClass g) (liveSearch g) (plugins g) (Some x)
    (searchableFields g) (sortableFields g) (showRows g) (table g) (templateFile g)
    (template g) (conditioning g) (paginating g) (searching g) (sorting g).
Definition set_searchable (x : list jsval) (g : config) : config :=
  Config (evenRowClass g) (oddRowClass g) (liveSearch g) (plugins g) (schema g)
    (Some x) (sortableFields g) (showRows g) (table g) (templateFile g)
    (template g) (conditioning g) (paginating g) (searching g) (sorting g).
Definition set_sortable (x : list jsval) (g : config) : config :=
  Config (evenRowClass g) (oddRowClass g) (liveSearch g) (plugins g) (schema g)
    (searchableFields g) (Some x) (showRows g) (table g) (templateFile g)
    (template g) (conditioning g) (paginating g) (searching g) (sorting g).
Definition set_template (x : jstr) (g : config) : config :=
  Config (evenRowClass g) (oddRowClass g) (liveSearch g) (plugins g) (schema g)
    (searchableFields g) (sortableFields g) (showRows g) (table g) (templateFile g)
    x (conditioning g) (paginating g) (searching g) (sorting g).

Section columns.
Context `{JsEnv} `{ColsEnv} `{TemplateEngine}.

Record cols := Cols {
  cfg : config;
  data : list jsval;
  master : list jsval;
  query : option jstr;  (** null or the text of the search box *)
  sortBy : jsval;
  reverse : bool;
  search : bool;
  page : num;
  pages : num;
  size : num;
  total : option num;  (** None: undefined *)
  range : option range_t;  (** None: undefined *)
  rows : list jstr;
  thead : option (list jsval);  (** None: undefined *)
  showRowsMenu : option jstr;  (** None: undefined *)
  view : list (jstr * jsval);
  engine : te_state;  (** state of the template engine *)
  dom : list effect;  (** calls on the element, last first *)
  destroyed : bool  (** the element's data entry is null *)
}.

Definition set_cfg (x : config) (c : cols) : cols :=
  Cols x (data c) (master c) (query c) (sortBy c) (reverse c) (search c) (page c) (pages c) (size c) (total c) (range c) (rows c) (thead c) (showRowsMenu c) (view c) (engine c) (dom c) (destroyed c).
Definition set_data (x : list jsval) (c : cols) : cols :=
  Cols (cfg c) x (master c) (query c) (sortBy c) (reverse c) (search c) (page c) (pages c) (size c) (total c) (range c) (rows c) (thead c) (showRowsMenu c) (view c) (engine c) (dom c) (destroyed c).
Definition set_master (x : list jsval) (c : cols) : cols :=
  Cols (cfg c) (data c) x (query c) (sortBy c) (reverse c) (search c) (page c) (pages c) (size c) (total c) (range c) (rows c) (thead c) (showRowsMenu c) (view c) (engine c) (dom c) (destroyed c).
Definition set_query (x : option jstr) (c : cols) : cols :=
  Cols (cfg c) (data c) (master c) x (sortBy c) (reverse c) (search c) (page c) (pages c) (size c) (total c) (range c) (rows c) (thead c) (showRowsMenu c) (view c) (engine c) (dom c) (destroyed c).
Definition set_sortBy (x : jsval) (c : cols) : cols :=
  Cols (cfg c) (data c) (master c) (query c) x (reverse c) (search c) (page c) (pages c) (size c) (total c) (range c) (rows c) (thead c) (showRowsMenu c) (view c) (engine c) (dom c) (destroyed c).
Definition set_reverse (x : bool) (c : cols) : cols :=
  Cols (cfg c) (data c) (master c) (query c) (sortBy c) x (search c) (page c) (pages c) (size c) (total c) (range c) (rows c) (thead c) (showRowsMenu c) (view c) (engine c) (dom c) (destroyed c).
Definition set_search (x : bool) (c : cols) : cols :=
  Cols (cfg c) (data c) (master c) (query c) (sortBy c) (reverse c) x (page c) (pages c) (size c) (total c) (range c) (rows c) (thead c) (showRowsMenu c) (view c) (engine c) (dom c) (destroyed c).
Definition set_page (x : num) (c : cols) : cols :=
  Cols (cfg c) (data c) (master c) (query c) (sortBy c) (reverse c) (search c) x (pages c) (size c) (total c) (range c) (rows c) (thead c) (showRowsMenu c) (view c) (engine c) (dom c) (destroyed c).
Definition set_pages (x : num) (c : cols) : cols :=
  Cols (cfg c) (data c) (master c) (query c) (sortBy c) (reverse c) (search c) (page c) x (size c) (total c) (range c) (rows c) (thead c) (showRowsMenu c) (view c) (engine c) (dom c) (destroyed c).
Definition set_size (x : num) (c : cols) : cols :=
  Cols (cfg c) (data c) (master c) (query c) (sortBy c) (reverse c) (search c) (page c) (pages c) x (total c) (range c) (rows c) (thead c) (showRowsMenu c) (view c) (engine c) (dom c) (destroyed c).
Definition set_total (x : option num) (c : cols) : cols :=
  Cols (cfg c) (data c) (master c) (query c) (sortBy c) (reverse c) (search c) (page c) (pages c) (size c) x (range c) (rows c) (thead c) (showRowsMenu c) (view c) (engine c) (dom c) (destroyed c).
Definition set_range (x : option range_t) (c : cols) : cols :=
  Cols (cfg c) (data c) (master c) (query c) (sortBy c) (reverse c) (search c) (page c) (pages c) (size c) (total c) x (rows c) (thead c) (showRowsMenu c) (view c) (engine c) (dom c) (destroyed c).
Definition set_rows (x : list jstr) (c : cols) : cols :=
  Cols (cfg c) (data c) (master c) (query c) (sortBy c) (reverse c) (search c) (page c) (pages c) (size c) (total c) (range c) x (thead c) (showRowsMenu c) (view c) (engine c) (dom c) (destroyed c).
Definition set_thead (x : option (list jsval)) (c : cols) : cols :=
  Cols (cfg c) (data c) (master c) (query c) (sortBy c) (reverse c) (search c) (page c) (pages c) (size c) (total c) (range c) (rows c) x (showRowsMenu c) (view c) (engine c) (dom c) (destroyed c).
Definition set_showRowsMenu (x : option jstr) (c : cols) : cols :=
  Cols (cfg c) (data c) (master c) (query c) (sortBy c) (reverse c) (search c) (page c) (pages c) (size c) (total c) (range c) (rows c) (thead c) x (view c) (engine c) (dom c) (destroyed c).
Definition set_view (x : list (jstr * jsval)) (c : cols) : cols :=
  Cols (cfg c) (data c) (master c) (query c) (sortBy c) (reverse c) (search c) (page c) (pages c) (size c) (total c) (range c) (rows c) (thead c) (showRowsMenu c) x (engine c) (dom c) (destroyed c).
Definition set_engine (x : te_state) (c : cols) : cols :=
  Cols (cfg c) (data c) (master c) (query c) (sortBy c) (reverse c) (search c) (page c) (pages c) (size c) (total c) (range c) (rows c) (thead c) (showRowsMenu c) (view c) x (dom c) (destroyed c).
Definition set_dom (x : list effect) (c : cols) : cols :=
  Cols (cfg c) (data c) (master c) (query c) (sortBy c) (reverse c) (search c) (page c) (pages c) (size c) (total c) (range c) (rows c) (thead c) (showRowsMenu c) (view c) (engine c) x (destroyed c).
Definition set_destroyed (x : bool) (c : cols) : cols :=
  Cols (cfg c) (data c) (master c) (query c) (sortBy c) (reverse c) (search c) (page c) (pages c) (size c) (total c) (range c) (rows c) (thead c) (showRowsMenu c) (view c) (engine c) (dom c) x.


(** The methods of plug-ins registered in [ColumnsPlugins], by name. *)
Context (plugin_init plugin_create : jstr -> option (SM cols unit)).

Definition type_error : jstr := str "TypeError".

(** The value of a field that must not be null. *)
Definition non_null {A} (o : option A) : res A :=
  match o with Some x => Ok x | None => Throw type_error end.

(** [v[key]] with any key. *)
Definition prop (v key : jsval) : res jsval := get_prop v (to_string key).

Definition undef_num (o : option num) : jsval :=
  match o with Some n => VNum n | None => VUndef end.

(** The number that [undefined] or a number is in arithmetic. *)
Definition as_num (o : option num) : num := default NaN o.

(** ** The API that the methods use *)

Definition pageExists (p : num) (c : cols) : bool := Num.gt p (Fin 0) && Num.le p (pages c).

Definition resetData : SM cols (list jsval) :=
  sm_mod (fun c => set_data (slice (master c) (Fin 0) None) c) ;; sm_get data.

Definition setRange : SM cols unit := sm_mod (fun c =>
  let start := Num.mul (Num.sub (page c) (Fin 1)) (size c) in
  let end_ := if Num.lt (Num.add start (size c)) (as_num (total c))
              then Some (Num.add start (size c)) else total c in
  set_range (Some (Range (Num.add start (Fin 1)) end_)) c).

(** ** SORT *)

Definition sort : SM cols unit := fun c =>
  if Num.truthy (as_num (total c)) && truthy (sortBy c) then
    (v ← sm_lift (prop (default VUndef (data c !! 0%nat)) (sortBy c));
     match v with
     | VUndef => mret tt
     | _ =>
         d ← sm_lift (Sorting.array_sort (Sorting.objectSort (sortBy c) (reverse c) None) (data c));
         sm_mod (set_data d)
     end) c
  else (Ok tt, c).

(** ** FILTER *)

Fixpoint row_matches (re : jstr -> bool) (query : jstr) (obj : jsval) (fields : list jsval) : res bool :=
  match fields with
  | [] => Ok false
  | f :: fields' =>
      v ← prop obj f;
      match v with
      | VStr s => if re s then Ok true else row_matches re query obj fields'
      | VNum n => if Num.eqb n (string_to_number query) then Ok true
                  else row_matches re query obj fields'
      | _ => row_matches re query obj fields'
      end
  end.

(** [$this.query] as a condition. *)
Definition active_query (c : cols) : option jstr :=
  match query c with Some ((_ :: _) as q) => Some q | _ => None end.

Definition filter : SM cols unit := fun c =>
  (fields ← sm_lift (non_null (searchableFields (cfg c)));
   match active_query c with
   | Some q =>
       re ← sm_lift (regexp_gi q);
       d ← sm_lift (grep (fun obj => row_matches re q obj fields) (data c));
       sm_mod (set_data d)
   | None => mret tt
   end ;;
   sm_mod (fun c => set_total (Some (Fin (Z.of_nat (length (data c))))) c)) c.

(** ** PAGINATE *)

Definition paginate : SM cols unit :=
  sm_mod (fun c => set_pages (Num.ceil_div (Fin (Z.of_nat (length (data c)))) (size c)) c) ;;
  sm_mod (fun c => set_page (if Num.le (page c) (pages c) then page c else Fin 1) c) ;;
  setRange ;;
  sm_mod (fun c =>
    match range c with
    | Some r => set_data (slice (data c) (Num.sub (r_start r) (Fin 1)) (r_end r)) c
    | None => c
    end).

(** ** CONDITION *)

(** The row restricted to the schema; [None] when a condition rejects it. *)
Fixpoint project (row : jsval) (schema : list column) (temp : list (jstr * jsval)) :
    res (option (list (jstr * jsval))) :=
  match schema with
  | [] => Ok (Some temp)
  | col :: schema' =>
      ok ← match c_condition col with
           | Some f => v ← prop row (c_key col); b ← f v; Ok (truthy b)
           | None => Ok true
           end;
      if ok : bool then
        v ← prop row (c_key col);
        project row schema' (set_prop temp (to_string (c_key col)) v)
      else Ok None
  end.

Fixpoint condition_rows (rows : list jsval) (schema : list column) : res (list jsval) :=
  match rows with
  | [] => Ok []
  | row :: rows' =>
      t ← project row schema [];
      r ← condition_rows rows' schema;
      Ok (match t with Some temp => VObj temp :: r | None => r end)
  end.

Definition condition : SM cols unit := fun c =>
  match schema (cfg c) with
  | Some sch => (d ← sm_lift (condition_rows (data c) sch); sm_mod (set_data d)) c
  | None => (Ok tt, c)
  end.

(** ** CHEVRON *)

Definition chevron (template : jstr) (data : jsval) : SM cols jstr := fun c =>
  let '(r, e) := te_render (engine c) template data in (r, set_engine e c).

(** ** CREATE *)

Definition sch (c : cols) : list column := default [] (schema (cfg c)).

(** One header of [buildThead]. *)
Definition header (c : cols) (col : column) : jsval :=
  let state :=
    if negb (existsb (strict_eq (c_key col)) (default [] (sortableFields (cfg c))))
    then str "notSortable"
    else if strict_eq (sortBy c) (c_key col)
    then if reverse c then str "sortedDown" else str "sortedUp"
    else str "sortable" in
  VObj [(state, VBool true); (str "key", c_key col); (str "header", c_header col)].

Definition buildThead : SM cols unit := sm_mod (fun c =>
  set_thead (Some (List.map (header c) (List.filter (fun col => negb (c_hide col)) (sch c)))) c).

(** The text of an attribute in double quotes. *)
Definition attr (name value : jstr) : jstr := name ++ str "=" ++ [ch_dquote] ++ value ++ [ch_dquote].

(** The cells of a row, in the order of the schema. *)
Fixpoint build_cells (row : jsval) (cols' : list column) : SM cols jstr :=
  match cols' with
  | [] => mret []
  | col :: rest =>
      cell ← (if c_hide col then mret [] else
              text ← match c_template col with
                     | Some ((_ :: _) as t) => chevron t row
                     | _ => v ← sm_lift (prop row (c_key col)); mret (to_string v)
                     end;
              mret (str "<td>" ++ text ++ str "</td>"));
      r ← build_cells row rest;
      mret (cell ++ r)
  end.

(** [buildRows(key, row).join('')]. *)
Definition buildRows (key : nat) (row : jsval) : SM cols jstr :=
  cl ← sm_get (fun c => if Nat.even key then evenRowClass (cfg c) else oddRowClass (cfg c));
  cols' ← sm_get sch;
  cells ← build_cells row cols';
  mret (str "<tr " ++ attr (str "data-columns-row-id") (N_to_str (N.of_nat key)) ++ str " "
        ++ attr (str "class") cl ++ str ">" ++ cells ++ str "</tr>").

Definition show_rows_option (size val : num) : jstr :=
  str "<option " ++ attr (str "value") (num_to_str val)
  ++ (if Num.eqb val size then attr (str "selected") (str "selected") else [])
  ++ str ">" ++ num_to_str val ++ str "</option>".

Definition buildShowRowsMenu : SM cols unit := sm_mod (fun c =>
  set_showRowsMenu (Some (str "<select>" ++
    List.concat (List.map (show_rows_option (size c)) (showRows (cfg c))) ++ str "</select>")) c).

(** The loop of [buildTable] over the data, from the row number [key]. *)
Fixpoint table_rows (key : nat) (data : list jsval) : SM cols unit :=
  match data with
  | [] => mret tt
  | row :: data' =>
      sm_when (key =? 0)%nat buildThead ;;
      tr ← buildRows key row;
      sm_mod (fun c => set_rows (rows c ++ [tr]) c) ;;
      table_rows (S key) data'
  end.

Definition no_results (c : cols) (columns : nat) : jstr :=
  str "<tr " ++ attr (str "class") (evenRowClass (cfg c)) ++ str "><td "
  ++ attr (str "colspan") (N_to_str (N.of_nat columns)) ++ str "><em>No Results</em></td>".

Definition buildTable : SM cols unit := fun c =>
  (sm_mod (set_rows []) ;;
   if Num.truthy (as_num (total c)) then table_rows 0 (data c)
   else
     s ← sm_lift (non_null (schema (cfg c)));
     sm_mod (fun c => set_rows (rows c ++ [no_results c (length s)]) c)) c.

(** The object [view]. *)
Definition range_val (r : option range_t) : jsval :=
  match r with
  | Some r => VObj [(str "start", VNum (r_start r)); (str "end", undef_num (r_end r))]
  | None => VUndef
  end.

Definition view_of (c : cols) : list (jstr * jsval) :=
  let prev := Num.sub (page c) (Fin 1) in
  let next := Num.add (page c) (Fin 1) in
  [(str "prevPage", VNum prev); (str "nextPage", VNum next);
   (str "prevPageExists", VBool (pageExists prev c));
   (str "nextPageExists", VBool (pageExists next c));
   (str "resultRange", range_val (range c));
   (str "tableTotal", undef_num (total c));
   (str "showRowsMenu", match showRowsMenu c with Some s => VStr s | None => VUndef end);
   (str "rows", VArr (List.map VStr (rows c)));
   (str "headers", match thead c with Some l => VArr l | None => VUndef end);
   (str "query", match query c with Some s => VStr s | None => VNull end);
   (str "search", VBool (search c));
   (str "table", VBool (table (cfg c)))].

(** The loops over [$this.plugins]. *)
Definition call_plugins (method : jstr -> option (SM cols unit)) : SM cols unit := fun c =>
  match plugins (cfg c) with
  | Some ps => sm_each (fun name => default (mret tt) (method name)) ps c
  | None => (Ok tt, c)
  end.

Definition on_dom (e : effect) : SM cols unit := sm_mod (fun c => set_dom (e :: dom c) c).

(** [$this.chevron($this.template, $this.view)]. *)
Definition render_view : SM cols jstr := fun c => chevron (template (cfg c)) (VObj (view c)) c.

(** The data of the page: the steps of [create] that its options select. *)
Definition build_data : SM cols unit :=
  resetData ;;
  (b ← sm_get (fun c => searching (cfg c)); sm_when b filter) ;;
  (b ← sm_get (fun c => sorting (cfg c)); sm_when b sort) ;;
  (b ← sm_get (fun c => paginating (cfg c)); sm_when b paginate).

(** The view, the plug-ins, and the rendered template put in the element. *)
Definition publish : SM cols unit :=
  sm_mod (fun c => set_view (extend_props (view c) (view_of c)) c) ;;
  call_plugins plugin_create ;;
  b ← sm_get search;
  if b : bool then
    html ← render_view; on_dom (Html html) ;; sm_mod (set_search false)
  else
    on_dom RemoveTable ;; html ← render_view; on_dom (Append html).

Definition display : SM cols unit := buildTable ;; buildShowRowsMenu ;; publish.

Definition create : SM cols unit := build_data ;; display.

(** ** INIT *)

(** The keys that [$.each(row, ...)] visits: the indices of an array or of an
    object with a suitable [length], the own names of any other object.  The
    operator [in] of [isArrayLike] throws on a primitive. *)
Definition index_keys (n : nat) : list jsval :=
  List.map (fun i => VNum (Fin (Z.of_nat i))) (List.seq 0 n).

Definition each_keys (row : jsval) : res (list jsval) :=
  match row with
  | VArr l => Ok (index_keys (length l))
  | VObj props =>
      let names := List.map (fun p => VStr p.1) props in
      match own_prop props (str "length") with
      | Some (VNum (Fin n)) =>
          if n =? 0 then Ok []
          else if (0 <? n) && bool_decide (is_Some (own_prop props (Z_to_str (n - 1))))
          then Ok (index_keys (Z.to_nat n))
          else Ok names
      | Some (VNum PInf) =>
          if bool_decide (is_Some (own_prop props (str "Infinity"))) then NoFuel else Ok names
      | _ => Ok names
      end
  | VBool _ | VNum _ | VStr _ => if truthy row then Throw type_error else Ok []
  | VUndef | VNull | VFun _ => Ok []
  end.

(** [$this.data[0]]. *)
Definition first_row (c : cols) : jsval := default VUndef (data c !! 0%nat).

Definition set_cfg' (f : config -> config) : SM cols unit := sm_mod (fun c => set_cfg (f (cfg c)) c).

Definition buildSchema : SM cols unit :=
  row ← sm_get first_row; keys ← sm_lift (each_keys row);
  set_cfg' (set_schema (List.map (fun k => Column k k false None None) keys)).

Definition buildSearchableFields : SM cols unit :=
  row ← sm_get first_row; keys ← sm_lift (each_keys row); set_cfg' (set_searchable keys).

Definition buildSortableFields : SM cols unit :=
  row ← sm_get first_row; keys ← sm_lift (each_keys row); set_cfg' (set_sortable keys).

Definition getTemplateFile (url : jstr) : SM cols unit :=
  match ajax url with
  | Some t => set_cfg' (set_template t)
  | None => sm_throw (str "Template could not be found.")
  end.

Definition listeners : list effect :=
  [Listen (str "click") (str ".ui-table-sortable");
   Listen (str "click") (str ".ui-table-control-next, .ui-table-control-prev");
   Listen (str "keyup") (str ".ui-table-search");
   Listen (str "change") (str ".ui-table-size select")].

Definition unless_set {A} (field : config -> option A) (build : SM cols unit) : SM cols unit :=
  fun c => match field (cfg c) with Some _ => (Ok tt, c) | None => build c end.

Definition init (data0 : jsval) : SM cols unit :=
  match data0 with
  | VArr l =>
      sm_mod (set_data l) ;;
      sm_mod (set_master []) ;;
      sm_mod (set_view []) ;;
      on_dom (AddClass (str "columns")) ;;
      sm_each on_dom listeners ;;
      call_plugins plugin_init ;;
      (b ← sm_get (fun c => conditioning (cfg c)); sm_when b condition) ;;
      unless_set schema buildSchema ;;
      unless_set searchableFields buildSearchableFields ;;
      unless_set sortableFields buildSortableFields ;;
      (u ← sm_get (fun c => templateFile (cfg c));
       match u with Some ((_ :: _) as url) => getTemplateFile url | _ => mret tt end) ;;
      sm_mod (fun c => set_master (extend_array (data c)) c) ;;
      create
  | _ => sm_throw (str "The " ++ [ch_dquote] ++ str "data" ++ [ch_dquote] ++ str " parameter must be an array.")
  end.

(** ** Handlers and listeners *)

Definition pageHandler : SM cols unit := create.
Definition sizeHandler : SM cols unit := create.
Definition sortHandler : SM cols unit := sm_mod (set_page (Fin 1)) ;; create.
Definition searchHandler (keyCode : Z) : SM cols unit :=
  live ← sm_get (fun c => liveSearch (cfg c));
  if live : bool then create else sm_when (keyCode =? 13) create.

(** The listeners, on what they read of the event's element. *)
Definition on_sort (by' : jsval) : SM cols unit :=
  sm_mod (fun c => if strict_eq (sortBy c) by' then set_reverse (negb (reverse c)) c else c) ;;
  sm_mod (set_sortBy by') ;;
  sortHandler.

Definition on_page (p : num) : SM cols unit := sm_mod (set_page p) ;; pageHandler.

Definition on_search (q : jstr) (keyCode : Z) : SM cols unit :=
  sm_mod (set_query (Some q)) ;; searchHandler keyCode.

Definition hex_value (c : N) : N := let d := Sorting.lower c in if is_digit d then (d - 48)%N else (d - 87)%N.
Definition is_hex (c : N) : bool :=
  is_digit c || ((97 <=? Sorting.lower c) && (Sorting.lower c <=? 102))%N.

(** What follows the prefix [0x]. *)
Definition hex_part (s : jstr) : option jstr :=
  match s with
  | c :: d :: h => if ((c =? chr "0") && ((d =? chr "x") || (d =? chr "X")))%N then Some h else None
  | _ => None
  end.

(** [parseInt(s)]. *)
Definition parseInt (s : jstr) : num :=
  let '(neg, s) := sign (drop_space s) in
  let ds := match hex_part s with Some h => digits_prefix is_hex h | None => digits_prefix is_digit s end in
  let n := match hex_part s with
           | Some _ => fold_left (fun a c => (a * 16 + hex_value c)%N) ds 0%N
           | None => parse_digits ds
           end in
  match ds with
  | [] => NaN
  | _ => Fin (if neg : bool then - Z.of_N n else Z.of_N n)
  end.

Definition on_size (val : jstr) : SM cols unit := sm_mod (set_size (parseInt val)) ;; sizeHandler.

(** ** API *)

Definition gotoPage (p : num) : SM cols bool := fun c =>
  if pageExists p c then (sm_mod (set_page p) ;; create ;; mret true) c else (Ok false, c).

Definition setPage (p : num) : SM cols num :=
  sm_mod (fun c => set_page (if pageExists p c then p else page c) c) ;; sm_get page.

Definition setMaster (d : jsval) : SM cols bool :=
  match d with VArr l => sm_mod (set_master l) ;; mret true | _ => mret false end.

Definition setTotal (t : num) : SM cols bool := sm_mod (set_total (Some t)) ;; mret true.

Definition destroy : SM cols bool :=
  sm_mod (set_destroyed true) ;; on_dom Empty ;; mret true.

Definition getRange : SM cols (option range_t) := sm_get range.
Definition getRows : SM cols (list jstr) := sm_get rows.
Definition getTotal : SM cols (option num) := sm_get total.
Definition getPage : SM cols num := sm_get page.
Definition getQuery : SM cols (option jstr) := sm_get query.
Definition getThead : SM cols (option (list jsval)) := sm_get thead.
Definition getShowRowsMenu : SM cols (option jstr) := sm_get showRowsMenu.
Definition getTemplate : SM cols jstr := sm_get (fun c => template (cfg c)).
Definition getView : SM cols (list (jstr * jsval)) := sm_get view.
Definition getVersion : SM cols jstr := mret (str "2.2.2").

(** ** The constructor *)

(** A literal in which the backquote stands for the double quote. *)
Definition str_q (s : string) : jstr := List.map (fun c => if (c =? 96)%N then ch_dquote else c) (str s).

Definition default_template : jstr := str_q "<!-- Search Box: Only rendered while search is true --> {{#search}} <div class=`ui-columns-search`> <input class=`ui-table-search` placeholder=`Search` type=`text` name=`query` data-columns-search=`true` value=`{{query}}` /> </div> {{/search}} <!-- Search Box: Only rendered while search is true --> <!-- Columns Table: Only rendered while table is true --> {{#table}} <div class=`ui-columns-table` data-columns-table=`true`> <table class=`ui-table`> <!-- Columns Table Head: Headers have 4 possible states (sortable, notSortable, sortedUp, sortedDown) --> <thead> {{#headers}} {{#sortable}} <th class=`ui-table-sortable` data-columns-sortby=`{{key}}`>{{header}}</th> {{/sortable}} {{#notSortable}} <th class=``>{{header}}</th> {{/notSortable}} {{#sortedUp}} <th class=`ui-table-sort-up ui-table-sortable` data-columns-sortby=`{{key}}`>{{header}} <span class=`ui-arrow`>&#x25B2;</span></th> {{/sortedUp}} {{#sortedDown}} <th class=`ui-table-sort-down ui-table-sortable` data-columns-sortby=`{{key}}`>{{header}} <span class=`ui-arrow`>&#x25BC;</span></th> {{/sortedDown}} {{/headers}} </thead> <!-- Columns Table Head: Headers have 4 possible states (sortable, notSortable, sortedUp, sortedDown) --> <!-- Columns Table Body: Table columns are rendered outside of this template  --> <tbody> {{#rows}} {{{.}}} {{/rows}} </tbody> <!-- Columns Table Body: Table columns are rendered outside of this template  --> </table> <!-- Columns Controls  --> <div class=`ui-table-footer`> <span class=`ui-table-size`>Show rows: {{{showRowsMenu}}}</span> <span class=`ui-table-results`>Results: <strong>{{resultRange.start}} &ndash; {{resultRange.end}}</strong> of <strong>{{tableTotal}}</strong> </span> <span class=`ui-table-controls`> {{#prevPageExists}} <span class=`ui-table-control-prev` data-columns-page=`{{prevPage}}`> <img src=`images/arrow-left.png`> </span> {{/prevPageExists}} {{^prevPageExists}} <span class=`ui-table-control-disabled`> <img src=`images/arrow-left.png`> </span> {{/prevPageExists}} {{#nextPageExists}} <span class=`ui-table-control-next` data-columns-page=`{{nextPage}}`> <img src=`images/arrow-right.png`> </span> {{/nextPageExists}} {{^nextPageExists}} <span class=`ui-table-control-disabled`> <img src=`images/arrow-right.png`> </span> {{/nextPageExists}} </span> </div> <!-- Columns Controls  --> </div> {{/table}} <!-- Columns Table: Only rendered while table is true -->".

(** [Columns.prototype]. *)
Definition defaults_config : config :=
  Config (str "ui-table-rows-even") (str "ui-table-rows-odd") true None None None None
    [Fin 5; Fin 10; Fin 25; Fin 50] true None default_template true true true true.

Definition defaults (e : te_state) : cols :=
  Cols defaults_config [] [] None VNull false true (Fin 1) (Fin 1) (Fin 5) None None [] None None
    [] e [] false.

(** [new Columns(element, options)]: [options] is what [$.extend(this, options)]
    does to the fields, [data] the option of that name. *)
Definition Columns_new (options : cols -> cols) (data : jsval) (e : te_state) : res unit * cols :=
  init data (options (defaults e)).

(** ** The jQuery plug-in *)

(** What a method answers to the dispatcher. *)
Inductive mval := MUndef | MSelf | MVal (v : jsval).

Inductive method :=
  | MCreate | MSort | MFilter | MPaginate | MCondition
  | MGotoPage (p : num) | MSetPage (p : num) | MPageExists (p : num) | MSetMaster (d : jsval)
  | MSetTotal (t : num) | MSetRange | MResetData | MDestroy | MGetObject | MGetPage | MGetQuery
  | MGetTotal | MGetVersion | MGetTemplate.

Definition run_method (m : method) : SM cols mval :=
  match m with
  | MCreate => create ;; mret (MVal (VBool true))
  | MSort => sort ;; mret MUndef
  | MFilter => filter ;; mret MUndef
  | MPaginate => paginate ;; mret MUndef
  | MCondition => condition ;; mret MUndef
  | MGotoPage p => b ← gotoPage p; mret (MVal (VBool b))
  | MSetPage p => q ← setPage p; mret (MVal (VNum q))
  | MPageExists p => b ← sm_get (pageExists p); mret (MVal (VBool b))
  | MSetMaster d => b ← setMaster d; mret (MVal (VBool b))
  | MSetTotal t => b ← setTotal t; mret (MVal (VBool b))
  | MSetRange => setRange ;; mret MUndef
  | MResetData => d ← resetData; mret (MVal (VArr d))
  | MDestroy => b ← destroy; mret (MVal (VBool b))
  | MGetObject => mret MSelf
  | MGetPage => p ← getPage; mret (MVal (VNum p))
  | MGetQuery => q ← getQuery; mret (MVal (match q with Some s => VStr s | None => VNull end))
  | MGetTotal => t ← getTotal; mret (match t with Some n => MVal (VNum n) | None => MUndef end)
  | MGetVersion => v ← getVersion; mret (MVal (VStr v))
  | MGetTemplate => t ← getTemplate; mret (MVal (VStr t))
  end.

(** The data entries [columns] of the elements of the page and the state of the
    template engine, which all tables share. *)
Record page_state := Page { entries : gmap nat cols; shared : te_state }.

(** Run a method of the table of element [e]. *)
Definition on_instance {A} (e : nat) (c : cols) (m : SM cols A) : SM page_state A := fun p =>
  let '(r, c') := m (set_engine (shared p) c) in
  (r, Page (<[e := c']> (entries p)) (engine c')).

(** The loop of a method call over the elements: the values collected. *)
Fixpoint call_each (els : list nat) (name : jstr) (m : option method) (val : list jsval) :
    SM page_state (list jsval) :=
  match els with
  | [] => mret val
  | e :: els' => fun p =>
      let no_method := str "No such method " ++ [ch_dquote] ++ name ++ [ch_dquote] ++ str " for Columns" in
      match entries p !! e, m with
      | None, _ => (Throw no_method, p)
      | Some c, _ =>
          if destroyed c then (Throw type_error, p)
          else match m with
               | None => (Throw no_method, p)
               | Some m' =>
                   (v ← on_instance e c (run_method m');
                    call_each els' name m (match v with MVal w => val ++ [w] | _ => val end)) p
               end
      end
  end.

(** [$.data(this, 'columns', new Columns(this, options))]. *)
Definition construct (e : nat) (options : cols -> cols) (data : jsval) : SM page_state unit := fun p =>
  match Columns_new options data (shared p) with
  | (Ok u, c) => (Ok u, Page (<[e := c]> (entries p)) (engine c))
  | (r, c) => (r, Page (entries p) (engine c))
  end.

(** [$.data(this, 'columns')] as a condition. *)
Definition has_instance (p : page_state) (e : nat) : bool :=
  match entries p !! e with Some c => negb (destroyed c) | None => false end.

Fixpoint new_each (els : list nat) (options : cols -> cols) (data : jsval) : SM page_state unit :=
  match els with
  | [] => mret tt
  | e :: els' =>
      b ← sm_get (fun p => has_instance p e);
      sm_when (negb b) (construct e options data) ;;
      new_each els' options data
  end.

(** What [$.fn.columns] answers: the data entry of the first element, one value
    or the list of values. *)
Inductive answer := AEntry (e : option nat) | AOne (v : jsval) | AMany (l : list jsval).

Definition answer_of (els : list nat) (val : list jsval) : answer :=
  match val with [] => AEntry (head els) | [v] => AOne v | _ => AMany val end.

(** [$(els).columns(name, ...)] and [$(els).columns(options)]. *)
Definition fn_columns_call (els : list nat) (name : jstr) (m : option method) : SM page_state answer :=
  val ← call_each els name m []; mret (answer_of els val).

Definition fn_columns_new (els : list nat) (options : cols -> cols) (data : jsval) : SM page_state answer :=
  new_each els options data ;; mret (answer_of els []).

End columns.
