(* ===== verification/ColumnsEngine.v ===== *)
(** * The template engine of the tables

    mustache.js discharges the interface [TemplateEngine]: its template cache is
    the state of the engine, and its answers do not depend on it.  Also a small
    host, on which the theorems on tables are tried. *)

From S2P Require Import Prelude JsNum RegExp JsVal Scanner Mustache MustacheRender RenderFacts Columns.

(** [Mustache.render] with the cache of [defaultWriter]; [fuel] bounds the depth
    of sections and partials. *)
Definition mustache_engine `{JsEnv} (fuel : nat) : TemplateEngine := {|
  te_state := gmap jstr (list node);
  te_render cache template view := mustache_render PartNone fuel cache template view;
  te_ok := cache_ok;
  te_spec template view := spec_template (spec_render PartNone fuel) (push_view view []) template;
  te_render_spec cache template view := writer_render_spec PartNone fuel cache template view
|}.

(** ** A small host *)

Fixpoint contains (q s : jstr) : bool :=
  bool_decide (q `prefix_of` s) || match s with [] => false | _ :: s' => contains q s' end.

(** Queries without special characters, which match anywhere regardless of case;
    other queries are refused. *)
Definition literal_gi (q : jstr) : res (jstr -> bool) :=
  if existsb (fun c => bool_decide (c ∈ syntax_chars)) q then Throw (str "SyntaxError")
  else Ok (fun s => contains (List.map Sorting.lower q) (List.map Sorting.lower s)).

Definition demo_host : ColsEnv := {|
  string_to_number s := if forallb is_digit s then Fin (Z.of_N (parse_digits s)) else NaN;
  date_value _ := NaN;
  regexp_gi := literal_gi;
  ajax _ := None
|}.

#[local] Existing Instance page_env.
#[local] Existing Instance demo_host.

Definition demo_engine : TemplateEngine := mustache_engine 9.
#[local] Existing Instance demo_engine.

Definition demo_row (n : Z) (name : jstr) : jsval :=
  VObj [(str "num", VNum (Fin n)); (str "name", VStr name)].

Definition demo_rows : list jsval :=
  [demo_row 3 (str "Ann"); demo_row 1 (str "Bob"); demo_row 2 (str "Joanna");
   demo_row 7 (str "Dan"); demo_row 5 (str "Eve"); demo_row 4 (str "Fay")].

(** No plug-in is registered. *)
Definition no_plugin (name : jstr) : option (SM cols unit) := None.

(** The table of these rows, as the constructor makes it. *)
Definition demo_new (options : cols -> cols) : res unit * cols :=
  Columns_new no_plugin no_plugin options (VArr demo_rows) ∅.

(** A table of these rows with conditions, ready to be displayed: four rows per
    page, sorted by number, with a query. *)
Definition demo_schema : list column :=
  [Column (VStr (str "num")) (VStr (str "Number")) false None
     (Some (fun v => Ok (VBool (match v with VNum n => Num.gt n (Fin 1) | _ => false end))));
   Column (VStr (str "name")) (VStr (str "Name")) false (Some (str "<b>{{name}}</b>")) None].

Definition demo_cfg : config :=
  Config (str "even") (str "odd") true None (Some demo_schema)
    (Some [VStr (str "num"); VStr (str "name")]) (Some [VStr (str "num")])
    [Fin 4; Fin 8] true None (str "<table></table>") true true true true.

Definition demo_state : cols :=
  Cols demo_cfg demo_rows demo_rows (Some (str "an")) (VStr (str "num")) true true
    (Fin 1) (Fin 1) (Fin 4) (Some (Fin 6)) None [] None None [] ∅ [] false.
