(* ===== verification/ColumnsEvents.v ===== *)
(** * The table of jquery.columns.js under events

    What [create] shows, and what every sequence of clicks, key strokes and calls
    keeps: the master data, the page and the size. *)

From S2P Require Import Prelude JsNum RegExp JsVal Columns RenderFacts ColumnsEngine ColumnsFacts.

(** ** Numbers in the menu of sizes *)

Lemma digits_prefix_all p s : Forall (fun c => p c = true) s -> digits_prefix p s = s.
Proof. induction 1 as [|c s Hc _ IH]; cbn; [done|]. by rewrite Hc, IH. Qed.

Lemma hex_part_digits s : Forall (fun c => is_digit c = true) s -> hex_part s = None.
Proof.
  destruct s as [|c [|d s]]; [done..|]. rewrite !Forall_cons. intros (_ & Hd%is_digit_iff & _).
  cbn. rewrite !(proj2 (N.eqb_neq d _)) by (unfold chr; cbn; lia). by rewrite andb_false_r.
Qed.

Lemma parseInt_digits s : s <> [] -> Forall (fun c => is_digit c = true) s ->
  parseInt s = Fin (Z.of_N (parse_digits s))
  /\ parseInt (chr "-" :: s) = Fin (- Z.of_N (parse_digits s)).
Proof.
  intros Hn Hs. pose proof (digits_prefix_all is_digit _ Hs) as Hp.
  pose proof (hex_part_digits s Hs) as Hh. unfold parseInt.
  assert (sign (drop_space s) = (false, s)) as ->.
  { destruct s as [|c s]; [done|]. apply Forall_cons in Hs as [Hc%is_digit_iff _]. cbn.
    rewrite (not_space_digit c) by done. cbn.
    by rewrite !(proj2 (N.eqb_neq c _)) by (unfold chr; cbn; lia). }
  change (sign (drop_space (chr "-" :: s))) with (true, s). cbv iota beta.
  rewrite Hh, Hp. by destruct s.
Qed.

(** [parseInt] reads back an integer that was printed. *)
Lemma parseInt_num n : parseInt (num_to_str (Fin n)) = Fin n.
Proof.
  cbn [num_to_str]. unfold Z_to_str. destruct (n <? 0) eqn:E; bool_hyps.
  - destruct (parseInt_digits (N_to_str (Z.to_N (- n)))) as [_ ->]; [auto with jslib..|].
    rewrite parse_N_to_str. f_equal. lia.
  - destruct (parseInt_digits (N_to_str (Z.to_N n))) as [-> _]; [auto with jslib..|].
    rewrite parse_N_to_str. f_equal. lia.
Qed.

Section events.
Context `{JsEnv} `{ColsEnv} `{TemplateEngine}.
Context (plugin_init plugin_create : jstr -> option (SM cols unit)).

(** ** What an operation leaves alone *)

(** The fields that the display of a table does not touch. *)
Definition shown (c : cols) :=
  (cfg c, (data c, master c), (query c, sortBy c, reverse c), (page c, pages c, size c), (total c, range c)).

Definition frame (P : cols -> Prop) : Prop :=
  forall c c', shown c = shown c' -> view c = view c' -> P c -> P c'.

Lemma frame_mod P f : frame P -> (forall c, shown (f c) = shown c) -> (forall c, view (f c) = view c) ->
  sm_keeps P (sm_mod f).
Proof. intros HP Hf Hv. apply keeps_mod. intros c Hc. by apply (HP c). Qed.

Lemma frame_chevron P t d : frame P -> sm_keeps P (chevron t d).
Proof.
  intros HP c Hc. unfold chevron. destruct (te_render (engine c) t d) as [r e]. by apply (HP c).
Qed.

Lemma frame_cells P row s : frame P -> sm_keeps P (build_cells row s).
Proof.
  intros HP. induction s as [|col s IH]; cbn [build_cells]; [auto with jslib|].
  apply keeps_bind; [|intros ?; apply keeps_bind; auto with jslib].
  destruct (c_hide col); [auto with jslib|]. apply keeps_bind; [|auto with jslib].
  destruct (c_template col) as [[|]|]; [|by apply frame_chevron|];
    (apply keeps_bind; auto with jslib).
Qed.

Lemma frame_rows P key d : frame P -> sm_keeps P (table_rows key d).
Proof.
  intros HP. revert key. induction d as [|row d IH]; intros key; cbn [table_rows]; [auto with jslib|].
  apply keeps_bind; [apply keeps_when; by apply frame_mod|intros _].
  apply keeps_bind; [|intros tr; apply keeps_bind; [by apply frame_mod|intros _; apply IH]].
  unfold buildRows. repeat (apply keeps_bind; [|intros ?]); auto with jslib. by apply frame_cells.
Qed.

Lemma frame_table P : frame P -> sm_keeps P buildTable.
Proof.
  intros HP c Hc. unfold buildTable. keeps_at c.
  apply keeps_bind; [by apply frame_mod|intros _].
  case_head; [by apply frame_rows|]. apply keeps_bind; [auto with jslib|intros s].
  by apply frame_mod.
Qed.

(** [publish] makes the view and touches the element and the engine only. *)
Definition publish_frame (P : cols -> Prop) : Prop :=
  (forall c, P c -> P (set_view (extend_props (view c) (view_of c)) c)) /\
  (forall c e d b, P c -> P (set_search b (set_dom d (set_engine e c)))).

Lemma keeps_publish P : publish_frame P ->
  (forall name m, plugin_create name = Some m -> sm_keeps P m) ->
  sm_keeps P (publish plugin_create).
Proof.
  intros [HV HP] Hpl.
  assert (forall c e d b, P c -> P (Cols (cfg c) (data c) (master c) (query c) (sortBy c)
    (reverse c) b (page c) (pages c) (size c) (total c) (range c) (rows c) (thead c)
    (showRowsMenu c) (view c) e d (destroyed c))) as HC by (intros c e d b; exact (HP c e d b)).
  assert (forall e, sm_keeps P (on_dom e)) as Hdom.
  { intros e. apply keeps_mod. intros c Hc. exact (HC c (engine c) _ (search c) Hc). }
  assert (sm_keeps P render_view) as Hrv.
  { intros c Hc. unfold render_view, chevron. destruct (te_render _ _ _) as [r e].
    exact (HC c e (dom c) (search c) Hc). }
  apply keeps_bind; [by apply keeps_mod|intros _].
  apply keeps_bind; [|intros _].
  { intros c Hc. unfold call_plugins. destruct (plugins (cfg c)); [|done].
    apply keeps_each; [|done]. intros name. destruct (plugin_create name) eqn:E; cbn; eauto with jslib. }
  apply keeps_bind; [auto with jslib|intros [|]].
  - repeat (apply keeps_bind; [auto|intros ?]).
    apply keeps_mod. intros c Hc. exact (HC c (engine c) (dom c) false Hc).
  - repeat (apply keeps_bind; [auto|intros ?]). auto.
Qed.

(** The display: [create] after its data are computed. *)
Lemma frame_display P : frame P -> publish_frame P ->
  (forall name m, plugin_create name = Some m -> sm_keeps P m) ->
  sm_keeps P (display plugin_create).
Proof.
  intros HP HV Hpl. apply keeps_bind; [by apply frame_table|intros _].
  apply keeps_bind; [by apply frame_mod|intros _]. by apply keeps_publish.
Qed.

(** ** Events *)

(** What the page and its scripts can do to a table: clicks on a header and on a
    page control, key strokes in the search box, a choice in the menu of sizes,
    and every method that [$(el).columns(name, ...)] can call. *)
Inductive event :=
  | EvSort (by' : jsval)
  | EvPage (p : num)
  | EvSearch (q : jstr) (keyCode : Z)
  | EvSize (n : num)
  | EvCall (m : method).

Definition run_event (ev : event) : SM cols unit :=
  match ev with
  | EvSort k => on_sort plugin_create k
  | EvPage p => on_page plugin_create p
  | EvSearch q key => on_search plugin_create q key
  | EvSize n => on_size plugin_create (num_to_str n)
  | EvCall m => run_method plugin_create m ;; mret tt
  end.

(** The view of a state has a control for page [p]; the template shows it. *)
Definition offers (c : cols) (p : num) : Prop :=
  exists side, side ∈ [str "prev"; str "next"] /\
    own_prop (view c) (side ++ str "PageExists") = Some (VBool true) /\
    own_prop (view c) (side ++ str "Page") = Some (VNum p).

(** What can happen after the states [hist]: a click on a page control that one
    of their views has (a control of an earlier view stays in the document when
    an exception kept the next one from being shown), the choice of an entry of
    the menu, a call with a page number that is an integer. *)
Definition enabled (hist : list cols) (ev : event) : Prop :=
  match ev with
  | EvPage p => exists c, c ∈ hist /\ offers c p
  | EvSize n => exists c, c ∈ hist /\ n ∈ showRows (cfg c)
  | EvCall (MGotoPage p) | EvCall (MSetPage p) => exists z, p = Fin z
  | _ => True
  end.

(** The events that happened from [c0] on, and the states, last first; an event
    may end with an exception. *)
Inductive runs (c0 : cols) : list event -> list cols -> Prop :=
  | runs_start : runs c0 [] [c0]
  | runs_event evs c hist ev :
      runs c0 evs (c :: hist) -> enabled (c :: hist) ev ->
      runs c0 (evs ++ [ev]) ((run_event ev c).2 :: c :: hist).

(** The master data: what the last [setMaster] with an array has put. *)
Definition master_after (m : list jsval) (ev : event) : list jsval :=
  match ev with EvCall (MSetMaster (VArr l)) => l | _ => m end.

Definition from_one (p : num) : Prop := exists z, p = Fin z /\ 1 <= z.

(** The master data, a page from 1 on, a positive size. *)
Definition table_inv (m : list jsval) (c : cols) : Prop :=
  master c = m /\ (exists p, page c = Fin p /\ 1 <= p) /\ (exists k, size c = Fin k /\ 0 < k).

(** And only such pages and sizes to choose. *)
Record live_inv (m : list jsval) (c : cols) : Prop := {
  li_table : table_inv m c;
  li_offers : forall p, offers c p -> from_one p;
  li_sizes : Forall from_one (showRows (cfg c))
}.

(** What the invariant reads of a table. *)
Lemma live_inv_eq m c c' :
  master c' = master c -> page c' = page c -> size c' = size c -> view c' = view c ->
  cfg c' = cfg c -> live_inv m c -> live_inv m c'.
Proof.
  intros E1 E2 E3 E4 E5 [Hi Ho Hs]. unfold table_inv, offers in *. split; [| |congruence].
  - unfold table_inv. by rewrite E1, E2, E3.
  - unfold offers. by rewrite E4.
Qed.

Lemma live_inv_frame m : frame (live_inv m).
Proof.
  unfold shown. intros c c' E Ev Hc. injection E as E1 _ E2 _ _ _ E3 _ E4 _ _.
  by apply (live_inv_eq m c).
Qed.

Lemma own_prop_extend target source name v :
  own_prop (rev source) name = Some v -> v <> VUndef ->
  own_prop (extend_props target source) name = Some v.
Proof.
  unfold extend_props. induction source as [|[k w] l IH] using rev_ind; [done|].
  rewrite rev_app_distr, fold_left_app. cbn. intros Hl Hv. case_decide as Hk.
  - subst. injection Hl as ->. destruct v; try done; rewrite own_prop_set; by rewrite decide_True.
  - destruct w; try (by apply IH); rewrite own_prop_set, decide_False by done; by apply IH.
Qed.

(** What the view that [publish] makes says of the pages next to this one. *)
Lemma view_pages c :
  let v := extend_props (view c) (view_of c) in
  own_prop v (str "prev" ++ str "PageExists") = Some (VBool (pageExists (Num.sub (page c) (Fin 1)) c))
  /\ own_prop v (str "prev" ++ str "Page") = Some (VNum (Num.sub (page c) (Fin 1)))
  /\ own_prop v (str "next" ++ str "Page") = Some (VNum (Num.add (page c) (Fin 1))).
Proof.
  unfold view_of. generalize (pageExists (Num.sub (page c) (Fin 1)) c), (Num.sub (page c) (Fin 1)),
    (Num.add (page c) (Fin 1)) as next. intros b prev next. generalize (pageExists next c) as b'. intros b'.
  cbv zeta. split_and!; (apply own_prop_extend; [vm_compute; reflexivity|done]).
Qed.

Lemma view_set_view v c : view (set_view v c) = v.
Proof. done. Qed.

(** The view that [publish] makes offers pages from 1 on. *)
Lemma view_offers c p : from_one (page c) ->
  offers (set_view (extend_props (view c) (view_of c)) c) p -> from_one p.
Proof.
  intros (z & Hz & Hz1) (side & Hside & Ho). rewrite view_set_view in Ho.
  destruct (view_pages c) as (E1 & E2 & E3). revert E1 E2 E3 Ho.
  generalize (extend_props (view c) (view_of c)) as v. intros v E1 E2 E3 [He Hp].
  rewrite !elem_of_cons in Hside. destruct Hside as [->|[->|[]%not_elem_of_nil]].
  - rewrite E1 in He. rewrite E2 in Hp. injection He as He. injection Hp as <-.
    apply andb_true_iff in He as [He _]. rewrite Hz in *. cbn in He. bool_hyps.
    exists (z - 1). split; [done|lia].
  - rewrite E3 in Hp. injection Hp as <-. rewrite Hz. exists (z + 1). split; [done|lia].
Qed.

Lemma live_inv_publish m : publish_frame (live_inv m).
Proof.
  split.
  - intros c [Ht Ho Hs]. split; [done| |done]. intros p. apply view_offers. by destruct Ht as (_ & ? & _).
  - intros c e d b. by apply live_inv_eq.
Qed.

(** Changing a field that the invariant does not read. *)
Lemma keeps_field m f :
  (forall c, master (f c) = master c /\ page (f c) = page c /\ size (f c) = size c
     /\ view (f c) = view c /\ cfg (f c) = cfg c) -> sm_keeps (live_inv m) (sm_mod f).
Proof. intros Hf. apply keeps_mod. intros c. destruct (Hf c) as (?&?&?&?&?). by apply live_inv_eq. Qed.

Lemma filter_inv m : sm_keeps (live_inv m) filter.
Proof.
  intros c Hc. unfold filter. keeps_at c. apply keeps_bind; [auto with jslib|intros fields].
  apply keeps_bind; [|intros _; by apply keeps_field].
  destruct (active_query c); [|auto with jslib].
  repeat (apply keeps_bind; [auto with jslib|intros ?]). by apply keeps_field.
Qed.

Lemma sort_inv m : sm_keeps (live_inv m) sort.
Proof.
  intros c Hc. unfold sort. case_head; [|done]. keeps_at c.
  apply keeps_bind; [auto with jslib|intros v].
  destruct v; try (apply keeps_bind; [auto with jslib|intros ?; by apply keeps_field]).
  auto with jslib.
Qed.

Lemma set_page_inv m p : from_one p -> sm_keeps (live_inv m) (sm_mod (set_page p)).
Proof. intros Hp. apply keeps_mod. intros c [(? & _ & ?) ??]. by split. Qed.

Lemma setRange_inv m : sm_keeps (live_inv m) setRange.
Proof. by apply keeps_field. Qed.

Lemma paginate_inv m : sm_keeps (live_inv m) paginate.
Proof.
  repeat (apply keeps_bind; [|intros ?]); [by apply keeps_field| |apply setRange_inv|].
  - apply keeps_mod. intros c Hc. apply (set_page_inv m); [|done]. cbn.
    case_head; [by destruct Hc as [(_ & ? & _) _ _]|by exists 1].
  - apply keeps_field. intros c. by destruct (range c).
Qed.

Lemma resetData_inv m : sm_keeps (live_inv m) resetData.
Proof. apply keeps_bind; [by apply keeps_field|auto with jslib]. Qed.

Lemma build_data_inv m : sm_keeps (live_inv m) build_data.
Proof.
  pose proof (filter_inv m). pose proof (sort_inv m). pose proof (paginate_inv m).
  apply keeps_bind; [apply resetData_inv|intros _].
  repeat (apply keeps_bind; [|intros _]); (apply keeps_bind; auto with jslib).
Qed.

Lemma condition_inv m : sm_keeps (live_inv m) condition.
Proof.
  intros c Hc. unfold condition. destruct (schema (cfg c)); [|done]. keeps_at c.
  apply keeps_bind; [auto with jslib|intros d]. by apply keeps_field.
Qed.

Hypothesis plugin_ok : forall m name pl, plugin_create name = Some pl -> sm_keeps (live_inv m) pl.

Lemma create_inv m : sm_keeps (live_inv m) (create plugin_create).
Proof.
  apply keeps_bind; [apply build_data_inv|intros _].
  apply frame_display; [apply live_inv_frame|apply live_inv_publish|apply plugin_ok].
Qed.

(** A page that exists comes from 1 on. *)
Lemma pageExists_from_one z c : pageExists (Fin z) c = true -> from_one (Fin z).
Proof. unfold pageExists. cbn. intros E. bool_hyps. exists z. split; [done|lia]. Qed.

Lemma gotoPage_inv m z : sm_keeps (live_inv m) (gotoPage plugin_create (Fin z)).
Proof.
  intros c Hc. unfold gotoPage. destruct (pageExists (Fin z) c) eqn:E; [|done].
  apply pageExists_from_one in E. keeps_at c. apply keeps_bind; [by apply set_page_inv|intros _].
  apply keeps_bind; [apply create_inv|auto with jslib].
Qed.

Lemma setPage_inv m z : sm_keeps (live_inv m) (setPage (Fin z)).
Proof.
  apply keeps_bind; [|auto with jslib]. apply keeps_mod. intros c Hc.
  apply (set_page_inv m); [|done]. destruct (pageExists (Fin z) c) eqn:E; [|by destruct Hc as [(_ & ? & _) _ _]].
  by eapply pageExists_from_one.
Qed.

(** Every method but [setMaster] keeps the invariant. *)
Lemma method_inv m me :
  match me with MSetMaster _ => False | MGotoPage p | MSetPage p => exists z, p = Fin z | _ => True end ->
  sm_keeps (live_inv m) (run_method plugin_create me).
Proof.
  destruct me; cbn [run_method]; intros He; try done; try (destruct He as [z ->]);
    first [by auto with jslib | (apply keeps_bind; [|auto with jslib])];
    eauto using create_inv, sort_inv, filter_inv, paginate_inv, condition_inv, setRange_inv,
      resetData_inv, gotoPage_inv, setPage_inv with jslib.
  - apply keeps_bind; [by apply keeps_field|auto with jslib].
  - apply keeps_bind; [by apply keeps_field|intros _].
    apply keeps_bind; [by apply keeps_field|auto with jslib].
Qed.

Lemma event_inv hist m ev c :
  (forall c0, c0 ∈ hist -> (forall p, offers c0 p -> from_one p) /\ Forall from_one (showRows (cfg c0))) ->
  enabled hist ev -> live_inv m c -> live_inv (master_after m ev) (run_event ev c).2.
Proof.
  intros Hh He Hc. pose proof (create_inv m) as Hcr. destruct ev as [k|p|q key|n|me]; cbn [enabled] in He.
  - revert c Hc. change (sm_keeps (live_inv m) (run_event (EvSort k))). cbn [run_event].
    apply keeps_bind; [|intros _; apply keeps_bind; [by apply keeps_field|intros _]].
    + apply keeps_field. intros c. by destruct (strict_eq (sortBy c) k).
    + apply keeps_bind; [by apply set_page_inv; exists 1|intros _; apply Hcr].
  - destruct He as (c0 & Hin & Ho). apply Hh in Hin as [Hp _]. apply Hp in Ho.
    revert c Hc. apply keeps_bind; [by apply set_page_inv|intros _; apply Hcr].
  - revert c Hc. apply keeps_bind; [by apply keeps_field|intros _]. unfold searchHandler.
    apply keeps_bind; [auto with jslib|intros [|]; auto with jslib].
  - destruct He as (c0 & Hin & Hn). apply Hh in Hin as [_ Hs]. rewrite Forall_forall in Hs.
    apply Hs in Hn as (k & -> & Hk). revert c Hc. cbn [run_event]. unfold on_size.
    rewrite parseInt_num. apply keeps_bind; [|intros _; apply Hcr].
    apply keeps_mod. intros c [(? & ? & _) ??]. split; [|done..]. split_and!; [done..|]. exists k.
    split; [done|lia].
  - assert ((exists d, me = MSetMaster d) \/ match me with MSetMaster _ => False
      | MGotoPage p | MSetPage p => exists z, p = Fin z | _ => True end) as [[d ->]|Hm].
    { destruct me; eauto. }
    + destruct d; try done. destruct Hc as [(_ & ? & ?) ??]. by split.
    + pose proof (method_inv m me Hm c Hc) as Hi. replace (master_after m (EvCall me)) with m by by destruct me.
      cbn [run_event]. unfold mbind, sm_bind. destruct (run_method plugin_create me c) as [[]?]; done.
Qed.

End events.

(** ** What [create] shows *)

Lemma slice_all {A} (l : list A) : slice l (Fin 0) None = l.
Proof.
  unfold slice, Num.slice_index. cbn [Z.ltb Z.compare]. rewrite Z.min_l by lia.
  rewrite drop_0, Nat.sub_0_r. by apply take_ge.
Qed.

Lemma grep_sublist {A} (p : A -> res bool) l r : grep p l = Ok r -> r `sublist_of` l.
Proof.
  revert r; induction l as [|x l IH]; intros r Hr; cbn [grep] in Hr; [by simplify_eq|].
  deex. simplify_eq. case_head; [by apply sublist_skip, IH|by apply sublist_cons, IH].
Qed.

Lemma insert_perm {A} cmp (x : A) l r : Sorting.insert cmp x l = Ok r -> r ≡ₚ x :: l.
Proof.
  revert r; induction l as [|y l IH]; intros r Hr; cbn [Sorting.insert] in Hr; [by simplify_eq|].
  deex. case_hyp H0; [|by simplify_eq]. deex. simplify_eq. rewrite (IH _ H0). constructor.
Qed.

Lemma isort_perm {A} cmp (l : list A) r : Sorting.isort cmp l = Ok r -> r ≡ₚ l.
Proof.
  revert r; induction l as [|x l IH]; intros r Hr; cbn [Sorting.isort] in Hr; [by simplify_eq|].
  deex. apply insert_perm in H0. by rewrite H0, (IH _ H).
Qed.

Lemma filter_split_perm {A} (f : A -> bool) l :
  List.filter (fun v => negb (f v)) l ++ List.filter f l ≡ₚ l.
Proof.
  induction l as [|x l IH]; cbn; [done|]. destruct (f x); cbn; [|by rewrite IH].
  by rewrite <-Permutation_middle, IH.
Qed.

(** Whatever the comparator answers, the array holds the same elements. *)
Lemma array_sort_perm cmp l r : Sorting.array_sort cmp l = Ok r -> r ≡ₚ l.
Proof.
  unfold Sorting.array_sort. intros Hr. deex. simplify_eq. apply isort_perm in H.
  rewrite H. apply filter_split_perm.
Qed.

Section shows.
Context `{JsEnv} `{ColsEnv} `{TemplateEngine}.

(** The fields that [filter] and [sort] leave alone. *)
Definition settings (c : cols) := (cfg c, master c, query c, sortBy c, reverse c, page c, pages c, size c).

Lemma filter_Ok c c' : filter c = (Ok tt, c') ->
  settings c' = settings c /\ data c' `sublist_of` data c
  /\ total c' = Some (Fin (Z.of_nat (length (data c')))).
Proof.
  unfold filter. intros Hf. deex. unfold sm_lift in *. simplify_eq.
  destruct (active_query x0) as [q|]; deex; unfold sm_mod, mret, sm_ret in *; simplify_eq; cbn;
    split_and!; try done.
  by eapply grep_sublist.
Qed.

Lemma sort_Ok c c' : sort c = (Ok tt, c') ->
  settings c' = settings c /\ data c' ≡ₚ data c /\ total c' = total c.
Proof.
  unfold sort. case_head; intros Hs; [|by simplify_eq]. deex. unfold sm_lift in *. simplify_eq.
  destruct x; deex; unfold sm_mod, mret, sm_ret, sm_lift in *; simplify_eq; cbn; try done;
    (split_and!; [done| |done]); by eapply array_sort_perm.
Qed.

(** The state before [paginate]: the rows of all pages. *)
Lemma build_data_Ok c c' : searching (cfg c) = true -> paginating (cfg c) = true ->
  build_data c = (Ok tt, c') ->
  exists c1, paginate c1 = (Ok tt, c') /\ settings c1 = settings c /\ data c1 ⊆+ master c
    /\ total c1 = Some (Fin (Z.of_nat (length (data c1)))).
Proof.
  intros Hs Hp Hb. apply sm_bind_inv in Hb as (d0 & c0 & Hreset & Hb).
  unfold resetData in Hreset. apply sm_bind_inv in Hreset as (? & ? & [= _ <-] & [= _ <-]).
  rewrite slice_all in Hb.
  apply sm_bind_inv in Hb as ([] & c1 & Hf & Hb). apply sm_bind_inv in Hf as (b1 & ? & [= <- <-] & Hf).
  cbn [cfg set_data] in Hf. rewrite Hs in Hf. apply filter_Ok in Hf as (E1 & Sub & Tot).
  apply sm_bind_inv in Hb as ([] & c2 & Hsort & Hb).
  apply sm_bind_inv in Hsort as (b2 & ? & [= <- <-] & Hsort).
  assert (settings c2 = settings c1 /\ data c2 ≡ₚ data c1 /\ total c2 = total c1) as (E2 & Perm & Tot').
  { destruct (sorting (cfg c1)); [by apply sort_Ok|]. by injection Hsort as <-. }
  apply sm_bind_inv in Hb as (b3 & ? & [= <- <-] & Hb). exists c2.
  rewrite E2, E1, Tot', Tot. split_and!; [|done| |].
  - unfold settings in E1, E2. cbn in E1, E2.
    assert (cfg c2 = cfg c) as E3 by congruence. by rewrite E3, Hp in Hb.
  - rewrite Perm. by apply sublist_submseteq.
  - by rewrite Perm.
Qed.

(** C8: when [create] completes on a table with search and pagination, the rows
    it shows are one page of a rearrangement [all] of master rows: their number
    is the total, the number of pages is the total divided by the size rounded
    up, the page is within it, and the range is exactly the position of the rows
    shown. *)
Theorem create_shows_page m c c' :
  table_inv m c -> searching (cfg c) = true -> paginating (cfg c) = true ->
  create (fun _ => None) c = (Ok tt, c') ->
  exists all k q r, let n := Z.of_nat (length all) in
    all ⊆+ m /\ size c' = Fin k /\ 0 < k /\ total c' = Some (Fin n)
    /\ pages c' = Fin q /\ (q - 1) * k < n <= q * k
    /\ page c' = Fin r /\ 1 <= r <= Z.max 1 q
    /\ range c' = Some (Range (Fin ((r - 1) * k + 1)) (Some (Fin (Z.min (r * k) n))))
    /\ data c' = chunk (Z.to_nat k) all (Z.to_nat (r - 1)).
Proof.
  intros (Hm & (p & Hp & Hp1) & (k & Hk & Hk0)) Hsearch Hpag Hc.
  apply sm_bind_inv in Hc as ([] & c2 & Hb & Hd).
  apply build_data_Ok in Hb as (c1 & Hpg & Hset & Sub & Tot); [|done..].
  assert (shown c' = shown c2) as Hshown.
  { pose proof (frame_display (fun _ => None) (fun x => shown x = shown c2)) as Hf.
    specialize (Hf ltac:(intros ? ? E _ ?; congruence) ltac:(done) ltac:(done) c2 eq_refl).
    by rewrite Hd in Hf. }
  unfold settings in Hset. simplify_eq.
  destruct (paginate_eq c1 k p) as (q & Hq & Hqk & E); try congruence.
  cbv zeta in E. rewrite Hpg in E. injection E as ->. unfold shown in Hshown. cbn in Hshown. simplify_eq.
  exists (data c1), k, q, (settled p q).
  assert (1 <= settled p q <= Z.max 1 q) as Hr
    by (unfold settled; destruct (p <=? q) eqn:Epq; bool_hyps; lia).
  replace (settled p q * k) with ((settled p q - 1) * k + k) by lia.
  cbn in *. split_and!; congruence || lia.
Qed.
End shows.

(** ** Concrete instances *)

#[local] Existing Instance page_env.
#[local] Existing Instance demo_host.
#[local] Existing Instance demo_engine.

Lemma demo_inv : table_inv demo_rows demo_state.
Proof. split_and!; [done|exists 1|exists 4]; done. Qed.

Lemma demo_live : live_inv demo_rows demo_state.
Proof.
  split; [apply demo_inv| |].
  - intros p (side & Hs & He & _). rewrite !elem_of_cons in Hs.
    by destruct Hs as [->|[->|[]%not_elem_of_nil]].
  - apply Forall_forall. intros n Hn. apply list_elem_of_In in Hn.
    repeat (destruct Hn as [<-|Hn]; [eexists; by split|]). done.
Qed.

(** A search text that is no regular expression throws, other master data are
    put, and the data are shown again; the invariant holds of the new data. *)
Definition demo_events : list event :=
  [EvSearch (str "(") 40; EvCall (MSetMaster (VArr [])); EvCall MCreate].


Definition demo_created : cols := (create (fun _ => None) demo_state).2.

Lemma demo_create_ok : (create (fun _ => None) demo_state).1 = Ok tt.
Proof. vm_compute. reflexivity. Qed.

Lemma demo_create : create (fun _ => None) demo_state = (Ok tt, demo_created).
Proof. unfold demo_created. apply sm_run_eq, demo_create_ok. Qed.

Example create_shows_page_witness :
  exists all, all ⊆+ demo_rows
    /\ total demo_created = Some (Fin (Z.of_nat (length all))) /\ total demo_created = Some (Fin 3).
Proof.
  destruct (create_shows_page demo_rows demo_state demo_created demo_inv eq_refl eq_refl demo_create)
    as (all & k & q & r & Hsub & _ & _ & Ht & _).
  exists all. split; [exact Hsub|]. split; [exact Ht|]. vm_compute. reflexivity.
Defined.
