(* ===== verification/ColumnsTable.v ===== *)
(** * The rows of the table

    The rows that [buildTable] computes through the stateful template engine are
    those of a pure specification, [create] completes on the data the plug-in is
    meant for, and the answers of the jQuery plug-in. *)

From S2P Require Import Prelude JsNum RegExp JsVal Columns RenderFacts ColumnsEngine ColumnsFacts ColumnsEvents.

Section table.
Context `{JsEnv} `{ColsEnv} `{TemplateEngine}.

(** ** Specification of the rows *)

Definition cell_html (row : jsval) (col : column) : res jstr :=
  if c_hide col then Ok [] else
  text ← match c_template col with
         | Some ((_ :: _) as t) => te_spec t row
         | _ => v ← prop row (c_key col); Ok (to_string v)
         end;
  Ok (str "<td>" ++ text ++ str "</td>").

Fixpoint cells_html (row : jsval) (s : list column) : res jstr :=
  match s with
  | [] => Ok []
  | col :: s' => h ← cell_html row col; r ← cells_html row s'; Ok (h ++ r)
  end.

Definition row_html (g : config) (key : nat) (row : jsval) : res jstr :=
  cells ← cells_html row (default [] (schema g));
  Ok (str "<tr " ++ attr (str "data-columns-row-id") (N_to_str (N.of_nat key)) ++ str " "
      ++ attr (str "class") (if Nat.even key then evenRowClass g else oddRowClass g)
      ++ str ">" ++ cells ++ str "</tr>").

Fixpoint rows_html (g : config) (key : nat) (data : list jsval) : res (list jstr) :=
  match data with
  | [] => Ok []
  | row :: data' => r ← row_html g key row; rs ← rows_html g (S key) data'; Ok (r :: rs)
  end.

Lemma rows_html_length g key d rs : rows_html g key d = Ok rs -> length rs = length d.
Proof.
  revert key rs; induction d as [|row d IH]; intros key rs Hr; cbn [rows_html] in Hr; [by simplify_eq|].
  deex. simplify_eq. cbn. f_equal. by eapply IH.
Qed.

(** [m] answers [r] and changes the engine only, which stays right. *)
Definition pure_as {A} (m : SM cols A) (r : cols -> res A) : Prop :=
  forall c, te_ok (engine c) -> exists e, te_ok e /\ m c = (r c, set_engine e c).

Lemma set_engine_same c : set_engine (engine c) c = c.
Proof. by destruct c. Qed.

Lemma pure_lift {A} (r : res A) : pure_as (sm_lift r) (fun _ => r).
Proof. intros c Hc. exists (engine c). by rewrite set_engine_same. Qed.

Lemma pure_ret {A} (a : A) : pure_as (mret a) (fun _ => Ok a).
Proof. apply (pure_lift (Ok a)). Qed.

Lemma pure_chevron t d : pure_as (chevron t d) (fun _ => te_spec t d).
Proof.
  intros c Hc. unfold chevron. destruct (te_render_spec (engine c) t d Hc) as [Hr He].
  destruct (te_render (engine c) t d) as [r e]. cbn in *. exists e. by rewrite Hr.
Qed.

Lemma pure_bind {A B} (m : SM cols A) (f : A -> SM cols B) r s :
  pure_as m r -> (forall a, pure_as (f a) (s a)) ->
  (forall a e c, s a (set_engine e c) = s a c) ->
  pure_as (m ≫= f) (fun c => a ← r c; s a c).
Proof.
  intros Hm Hf Hs c Hc. destruct (Hm c Hc) as (e & He & Em).
  unfold mbind at 2, res_bind, mbind at 1, sm_bind. rewrite Em.
  destruct (r c) as [a|x|]; [|by exists e..].
  destruct (Hf a (set_engine e c) He) as (e' & He' & Ef). exists e'. split; [done|].
  by rewrite Ef, Hs.
Qed.

Lemma pure_cells row s : pure_as (build_cells row s) (fun _ => cells_html row s).
Proof.
  induction s as [|col s IH]; cbn [build_cells cells_html]; [apply pure_ret|].
  apply (pure_bind _ _ (fun _ => cell_html row col) (fun h _ => r ← cells_html row s; Ok (h ++ r))); [| |done].
  - unfold cell_html. destruct (c_hide col); [apply pure_ret|].
    assert (forall (m : SM cols jstr) r, pure_as m (fun _ => r) ->
      pure_as (text ← m; mret (str "<td>" ++ text ++ str "</td>"))
              (fun _ => text ← r; Ok (str "<td>" ++ text ++ str "</td>"))) as Htd.
    { intros m r Hm. apply (pure_bind _ _ (fun _ => r) (fun text _ => Ok (str "<td>" ++ text ++ str "</td>")));
        [done|intros; apply pure_ret|done]. }
    apply Htd. destruct (c_template col) as [[|]|]; [|apply pure_chevron|];
      (apply (pure_bind _ _ (fun _ => prop row (c_key col)) (fun v _ => Ok (to_string v)));
        [apply pure_lift|intros; apply pure_ret|done]).
  - intros h. apply (pure_bind _ _ (fun _ => cells_html row s) (fun r _ => Ok (h ++ r)));
      [done|intros; apply pure_ret|done].
Qed.

Lemma pure_row key row : pure_as (buildRows key row) (fun c => row_html (cfg c) key row).
Proof.
  intros c Hc. destruct (pure_cells row (sch c) c Hc) as (e & He & E). exists e. split; [done|].
  unfold buildRows, row_html. unfold mbind, sm_bind, sm_get. rewrite E. cbn [res_bind].
  unfold sch. by destruct (cells_html row (default [] (schema (cfg c)))).
Qed.

(** The rows pushed by the loop, and the fate of the loop. *)
Lemma table_rows_spec key d c : te_ok (engine c) ->
  (table_rows key d c).1 = (_ ← rows_html (cfg c) key d; Ok tt)
  /\ te_ok (engine (table_rows key d c).2)
  /\ forall rs, rows_html (cfg c) key d = Ok rs -> rows (table_rows key d c).2 = rows c ++ rs.
Proof.
  revert key c; induction d as [|row d IH]; intros key c Hc; cbn [table_rows rows_html].
  - split_and!; [done|done|]. intros rs [= <-]. by rewrite app_nil_r.
  - set (c0 := (sm_when (key =? 0)%nat buildThead c).2).
    assert (sm_when (key =? 0)%nat buildThead c = (Ok tt, c0) /\ engine c0 = engine c
            /\ cfg c0 = cfg c /\ rows c0 = rows c) as (E0 & Ee & Eg & Er)
      by (unfold c0; by destruct (key =? 0)%nat).
    rewrite <-Ee in Hc. destruct (pure_row key row c0 Hc) as (e & He & E).
    rewrite (sm_bind_eq _ _ _ _ _ E0), (sm_bind_eq _ _ _ _ _ E), Eg.
    destruct (row_html (cfg c) key row) as [tr|x|]; [|by split_and!..].
    set (c1 := set_rows (rows (set_engine e c0) ++ [tr]) (set_engine e c0)).
    change (te_ok (engine c1)) in He. destruct (IH (S key) c1 He) as (H1' & H2' & H3').
    change (cfg c1) with (cfg c0) in *. rewrite Eg in *.
    change ((sm_mod (fun c => set_rows (rows c ++ [tr]) c) ;; table_rows (S key) d) (set_engine e c0))
      with (table_rows (S key) d c1).
    cbn [mbind res_bind]. split_and!; [|done|].
    + rewrite H1'. by destruct (rows_html (cfg c) (S key) d).
    + intros rs Hrs. deex. simplify_eq. rewrite (H3' x) by done.
      unfold c1. cbn. by rewrite Er, <-app_assoc.
Qed.

(** C10: [buildTable] on a table with a total: the rows are, in the order of the
    data, the specified markup of each row, cells rendered by the template engine
    as on a fresh engine, whatever was rendered before; an exception of a
    template is the exception of the table.  With a total of zero the only row is
    the notice. *)
Theorem buildTable_rows c s :
  te_ok (engine c) -> schema (cfg c) = Some s ->
  if Num.truthy (as_num (total c)) then
    (buildTable c).1 = (_ ← rows_html (cfg c) 0 (data c); Ok tt)
    /\ forall rs, rows_html (cfg c) 0 (data c) = Ok rs ->
         rows (buildTable c).2 = rs /\ length rs = length (data c)
  else (buildTable c).1 = Ok tt /\ rows (buildTable c).2 = [no_results c (length s)].
Proof.
  intros Hc Hs. unfold buildTable.
  rewrite (sm_bind_eq _ _ c (Ok tt) (set_rows [] c)) by done.
  destruct (Num.truthy (as_num (total c))).
  - destruct (table_rows_spec 0 (data c) (set_rows [] c) Hc) as (H1' & _ & H3').
    split; [done|]. intros rs Hrs. split; [by apply (H3' rs)|by eapply rows_html_length].
  - by rewrite Hs.
Qed.

(** A table created with [searching: false] never has a total, so it shows
    the notice "No Results" and none of its rows, whatever the master data. *)
Theorem no_search_no_rows c c' s :
  searching (cfg c) = false -> total c = None -> schema (cfg c) = Some s ->
  create (fun _ => None) c = (Ok tt, c') -> rows c' = [no_results c (length s)].
Proof.
  intros Hse Ht Hs Hc. apply sm_bind_inv in Hc as ([] & c1 & Hb & Hd).
  assert (total c1 = None /\ cfg c1 = cfg c) as [Ht1 Hg].
  { assert (sm_keeps (fun x => total x = None /\ cfg x = cfg c) build_data) as Hk.
    - apply keeps_bind; [apply keeps_bind; [by apply keeps_mod|auto with jslib]|intros _].
      apply keeps_bind; [|intros _; apply keeps_bind; [|intros _]].
      + intros x [Hx Hgx]. unfold mbind, sm_bind, sm_get. by rewrite Hgx, Hse.
      + intros x [Hx Hgx]. unfold mbind, sm_bind, sm_get, sm_when, sort.
        destruct (sorting (cfg x)); [|done]. cbn beta. by rewrite Hx.
      + apply keeps_bind; [auto with jslib|intros b]. apply keeps_when.
        repeat (apply keeps_bind; [|intros _]); apply keeps_mod; try done.
        intros x Hx. by destruct (range x).
    - specialize (Hk c (conj Ht eq_refl)). by rewrite Hb in Hk. }
  apply sm_bind_inv in Hd as ([] & c2 & Htab & Hd).
  assert (rows c2 = [no_results c (length s)]) as Hr.
  { unfold buildTable in Htab. rewrite (sm_bind_eq _ _ c1 (Ok tt) (set_rows [] c1)) in Htab by done.
    rewrite Ht1, Hg, Hs in Htab. injection Htab as <-. cbn. unfold no_results. cbn. by rewrite Hg. }
  apply sm_bind_inv in Hd as ([] & c3 & Hmenu & Hd).
  assert (rows c3 = rows c2) as Hr3 by (by injection Hmenu as <-). rewrite <-Hr3 in Hr.
  pose proof (keeps_publish (fun _ => None) (fun x => rows x = [no_results c (length s)])) as Hp.
  specialize (Hp ltac:(by split) ltac:(done) _ Hr). by rewrite Hd in Hp.
Qed.

(** ** The size menu *)

(** Choosing an entry of the menu "Show rows" sets the size to the number
    of that entry: [parseInt] reads back what [buildShowRowsMenu] printed. *)
Theorem size_menu_roundtrip n c :
  on_size (fun _ => None) (num_to_str (Fin n)) c = create (fun _ => None) (set_size (Fin n) c).
Proof.
  unfold on_size, sizeHandler. rewrite (sm_bind_eq _ _ c (Ok tt) (set_size (parseInt (num_to_str (Fin n))) c)) by done.
  by rewrite parseInt_num.
Qed.
(** ** [create] completes *)

Lemma paginate_Ok c : exists c', paginate c = (Ok tt, c').
Proof. by eexists. Qed.

Lemma rows_html_ok g key d :
  Forall (fun row => is_ok (cells_html row (default [] (schema g))) = true) d ->
  exists rs, rows_html g key d = Ok rs.
Proof.
  intros Hd. revert key. induction Hd as [|row d Hr _ IH]; intros key; cbn [rows_html]; [by eexists|].
  destruct (IH (S key)) as [rs ->]. unfold row_html.
  destruct (cells_html row (default [] (schema g))); [|done..]. by eexists.
Qed.

(** What a table needs to be shown: searchable fields, rows that are objects and
    whose cells render, a query that is a regular expression, a column of one
    kind when sorted, and a template that renders. *)
Record showable (c : cols) (fields : list jsval) (s : list column) (k : kind) : Prop := {
  sh_searching : searching (cfg c) = true;
  sh_fields : searchableFields (cfg c) = Some fields;
  sh_schema : schema (cfg c) = Some s;
  sh_query : forall q, active_query c = Some q -> is_ok (regexp_gi q) = true;
  sh_rows : Forall (fun row => nullish row = false /\ is_ok (cells_html row s) = true) (master c);
  sh_sort : truthy (sortBy c) = true -> Forall (has_cell (sortBy c) k) (master c);
  sh_template : forall view, is_ok (te_spec (template (cfg c)) (VObj view)) = true;
  sh_engine : te_ok (engine c)
}.

Lemma filter_completes c fields :
  searchableFields (cfg c) = Some fields -> Forall (fun row => nullish row = false) (data c) ->
  (forall q, active_query c = Some q -> is_ok (regexp_gi q) = true) ->
  exists d, d `sublist_of` data c
    /\ filter c = (Ok tt, set_total (Some (Fin (Z.of_nat (length d)))) (set_data d c)).
Proof.
  intros Hf Hd Hq. pose proof (filter_correct_aux c fields Hf Hd) as Hc. cbv zeta in Hc.
  destruct (active_query c) as [q|]; [|by exists (data c)].
  specialize (Hq q eq_refl). destruct (regexp_gi q); [|done..].
  eexists; split; [apply filter_sublist|done].
Qed.

Lemma sort_completes c k :
  total c = Some (Fin (Z.of_nat (length (data c)))) ->
  (truthy (sortBy c) = true -> Forall (has_cell (sortBy c) k) (data c)) ->
  exists d, d ≡ₚ data c /\ sort c = (Ok tt, set_data d c).
Proof.
  intros Ht Hk. destruct (Num.truthy (as_num (total c))) eqn:E1;
    [destruct (truthy (sortBy c)) eqn:E2|].
  - destruct (sort_correct_aux c k E1 E2) as (d & Hd & Hp & _); [|by apply Hk|by exists d].
    intros Hn. by rewrite Ht, Hn in E1.
  - exists (data c). split; [done|]. unfold sort. rewrite E1, E2. by destruct c.
  - exists (data c). split; [done|]. unfold sort. rewrite E1. by destruct c.
Qed.

Lemma data_completes c fields s k : showable c fields s k ->
  exists c', build_data c = (Ok tt, c') /\ data c' ⊆+ master c /\ cfg c' = cfg c /\ engine c' = engine c.
Proof.
  intros [Hse Hf Hs Hq Hr Hk _ _].
  set (c0 := set_data (master c) c).
  destruct (filter_completes c0 fields) as (d1 & Sub & Ef); [done| |done|].
  { apply (Forall_impl _ _ _ Hr). by intros row [? _]. }
  set (c1 := set_total _ _) in Ef.
  destruct (sort_completes c1 k) as (d2 & Perm & Es); [done| |].
  { intros Hb. eapply Forall_submseteq; [by apply sublist_submseteq|by apply Hk]. }
  assert (exists d, d ⊆+ master c /\ sm_when (sorting (cfg c)) sort c1 = (Ok tt, set_data d c1)) as (d & Hd & Eso).
  { destruct (sorting (cfg c)).
    - exists d2. split; [|done]. rewrite Perm. by apply sublist_submseteq.
    - exists d1. split; [by apply sublist_submseteq|done]. }
  assert (exists c', sm_when (paginating (cfg c)) paginate (set_data d c1) = (Ok tt, c') /\
    data c' ⊆+ d /\ cfg c' = cfg c /\ engine c' = engine c) as (c' & Ep & Hd' & Hg & He).
  { destruct (paginating (cfg c)); [|by eexists]. eexists. split; [reflexivity|]. cbn. split; [|done].
    unfold slice. etrans; [apply sublist_submseteq, sublist_take|apply sublist_submseteq, sublist_drop]. }
  exists c'. split_and!; [|by etrans|done|done]. unfold build_data.
  assert (resetData c = (Ok (master c), c0)) as Er.
  { unfold resetData, c0. rewrite (sm_bind_eq _ _ c (Ok tt) (set_data (slice (master c) (Fin 0) None) c)) by done.
    by rewrite slice_all. }
  rewrite (sm_bind_eq _ _ _ _ _ Er).
  rewrite (sm_bind_eq _ _ c0 (Ok tt) c1) by (unfold mbind, sm_bind, sm_get; cbn [cfg c0 set_data]; by rewrite Hse).
  rewrite (sm_bind_eq _ _ c1 (Ok tt) (set_data d c1)) by exact Eso. exact Ep.
Qed.

Lemma publish_completes c : te_ok (engine c) ->
  (forall view, is_ok (te_spec (template (cfg c)) (VObj view)) = true) ->
  exists c', publish (fun _ => None) c = (Ok tt, c').
Proof.
  intros Hen Ht. unfold publish. set (c1 := set_view (extend_props (view c) (view_of c)) c).
  rewrite (sm_bind_eq _ _ c (Ok tt) c1) by done.
  assert (call_plugins (fun _ => None) c1 = (Ok tt, c1)) as Ep.
  { unfold call_plugins. destruct (plugins (cfg c1)) as [l|]; [|done].
    induction l as [|n l IH]; [done|]. cbn [sm_each default]. exact IH. }
  rewrite (sm_bind_eq _ _ _ _ _ Ep).
  assert (forall c2, cfg c2 = cfg c -> view c2 = view c1 -> te_ok (engine c2) ->
    exists html e, render_view c2 = (Ok html, set_engine e c2)) as Hrv.
  { intros c2 Hg Hv He2. unfold render_view. rewrite Hg, Hv. specialize (Ht (view c1)).
    destruct (pure_chevron (template (cfg c)) (VObj (view c1)) c2 He2) as (e & _ & ->).
    destruct (te_spec _ _) as [html|?|]; [|done..]. by exists html, e. }
  rewrite (sm_bind_eq _ _ c1 (Ok (search c1)) c1) by done. destruct (search c1).
  - destruct (Hrv c1 eq_refl eq_refl Hen) as (html & e & E).
    rewrite (sm_bind_eq _ _ _ _ _ E). by eexists.
  - set (c2 := set_dom (RemoveTable :: dom c1) c1).
    rewrite (sm_bind_eq _ _ c1 (Ok tt) c2) by done.
    destruct (Hrv c2) as (html & e & E); [by unfold c2; cbn [view cfg engine set_dom]..|].
    rewrite (sm_bind_eq _ _ _ _ _ E). by eexists.
Qed.

(** [create] completes on a showable table: it answers without an
    exception, whatever the template engine rendered before. *)
Theorem create_completes c fields s k :
  showable c fields s k -> exists c', create (fun _ => None) c = (Ok tt, c').
Proof.
  intros Hsh. destruct (data_completes c fields s k Hsh) as (c1 & Eb & Hd & Hg & He).
  destruct Hsh as [_ _ Hs _ Hr _ Ht Hen]. unfold create. rewrite (sm_bind_eq _ _ _ _ _ Eb).
  assert (Forall (fun row => is_ok (cells_html row s) = true) (data c1)) as Hrows.
  { eapply Forall_submseteq; [exact Hd|]. apply (Forall_impl _ _ _ Hr). by intros row [_ ?]. }
  assert (te_ok (engine c1)) as Hen1 by (by rewrite He).
  assert ((buildTable c1).1 = Ok tt /\ te_ok (engine (buildTable c1).2)) as [Et Hen2].
  { unfold buildTable. rewrite (sm_bind_eq _ _ c1 (Ok tt) (set_rows [] c1)) by done.
    rewrite Hg, Hs. destruct (Num.truthy (as_num (total c1))); [|done].
    destruct (table_rows_spec 0 (data c1) (set_rows [] c1) Hen1) as (H1' & H2' & _).
    destruct (rows_html_ok (cfg c1) 0 (data c1)) as [rs Hrs]; [by rewrite Hg, Hs|].
    split; [|done]. rewrite H1'. cbn [cfg set_rows]. by rewrite Hrs. }
  assert (cfg (buildTable c1).2 = cfg c) as Hg2.
  { apply (frame_table (fun x => cfg x = cfg c)); [|done]. intros x y E. injection E. congruence. }
  destruct (buildTable c1) as [r c2] eqn:E2. cbn in *. subst r.
  unfold display. rewrite (sm_bind_eq _ _ _ _ _ E2).
  set (c3 := set_showRowsMenu (Some (str "<select>" ++
    List.concat (List.map (show_rows_option (size c2)) (showRows (cfg c2))) ++ str "</select>")) c2).
  rewrite (sm_bind_eq _ _ c2 (Ok tt) c3) by done.
  apply publish_completes; [done|]. intros view. change (cfg c3) with (cfg c2). by rewrite Hg2.
Qed.

(** ** The jQuery plug-in *)

(** An element whose table was destroyed.  [destroy] answers [true]; after
    it, since the data entry is null and not undefined, every method call on the
    element ends with the exception of a property of null, and not with the
    error "No such method" of an element without a table; and calling the
    plug-in with options makes a new table as on a fresh element. *)
Theorem columns_after_destroy p e c :
  entries p !! e = Some c -> destroyed c = false ->
  let p' := (fn_columns_call (fun _ => None) [e] (str "destroy") (Some MDestroy) p).2 in
  (fn_columns_call (fun _ => None) [e] (str "destroy") (Some MDestroy) p).1 = Ok (AOne (VBool true))
  /\ (forall name m, (fn_columns_call (fun _ => None) [e] name m p').1 = Throw type_error)
  /\ (forall options data, fn_columns_new (fun _ => None) (fun _ => None) [e] options data p'
        = (construct (fun _ => None) (fun _ => None) e options data ;; mret (AEntry (Some e))) p').
Proof.
  intros He Hd p'.
  set (c2 := set_dom (Empty :: dom c) (set_destroyed true (set_engine (shared p) c))).
  assert (fn_columns_call (fun _ => None) [e] (str "destroy") (Some MDestroy) p
          = (Ok (AOne (VBool true)), Page (<[e := c2]> (entries p)) (shared p))) as E.
  { unfold fn_columns_call. cbn [call_each]. unfold mbind, sm_bind. by rewrite He, Hd. }
  assert (p' = Page (<[e := c2]> (entries p)) (shared p)) as -> by (unfold p'; by rewrite E).
  split_and!; [by rewrite E| |].
  - intros name m. unfold fn_columns_call. cbn [call_each]. unfold mbind, sm_bind.
    cbn [entries]. by rewrite lookup_insert_eq.
  - intros options data. unfold fn_columns_new. cbn [new_each].
    assert (has_instance (Page (<[e:=c2]> (entries p)) (shared p)) e = false) as Hi
      by (unfold has_instance; cbn [entries]; by rewrite lookup_insert_eq).
    unfold mbind, sm_bind, sm_get. rewrite Hi. cbn [negb sm_when].
    by destruct (construct _ _ e options data _) as [[]].
Qed.
End table.

(** ** Concrete instances *)

#[local] Existing Instance page_env.
#[local] Existing Instance demo_host.
#[local] Existing Instance demo_engine.

Example buildTable_rows_witness :
  rows (buildTable (set_data [demo_row 2 (str "Bob")] demo_state)).2
  = [str_q "<tr data-columns-row-id=`0` class=`even`><td>2</td><td><b>Bob</b></td></tr>"].
Proof.
  pose proof (buildTable_rows (set_data [demo_row 2 (str "Bob")] demo_state) demo_schema
    cache_ok_empty eq_refl) as [_ Hr].
  apply Hr. vm_compute. reflexivity.
Defined.

Definition demo_unsearched : cols := set_total None (set_cfg
  (Config (str "even") (str "odd") true None (Some demo_schema) None None [] true None
     (str "<table></table>") true true false true) demo_state).

Lemma demo_unsearched_ok : (create (fun _ => None) demo_unsearched).1 = Ok tt.
Proof. vm_compute. reflexivity. Qed.

Example no_search_no_rows_witness :
  rows (create (fun _ => None) demo_unsearched).2
  = [str_q "<tr class=`even`><td colspan=`2`><em>No Results</em></td>"].
Proof.
  exact (no_search_no_rows demo_unsearched _ demo_schema eq_refl eq_refl eq_refl
    (sm_run_eq _ _ _ demo_unsearched_ok)).
Defined.

Lemma demo_showable :
  showable demo_state [VStr (str "num"); VStr (str "name")] demo_schema KNumber.
Proof.
  constructor; try done.
  - intros q [= <-]. vm_compute. reflexivity.
  - repeat constructor; vm_compute; reflexivity.
  - intros _. apply demo_rows_num.
Qed.

Example create_completes_witness : exists c', create (fun _ => None) demo_state = (Ok tt, c').
Proof. apply (create_completes demo_state _ _ _ demo_showable). Defined.

Example columns_after_destroy_witness :
  let p := Page {[ 7%nat := demo_state ]} ∅ in
  (fn_columns_call (fun _ => None) [7%nat] (str "getPage") (Some MGetPage)
    (fn_columns_call (fun _ => None) [7%nat] (str "destroy") (Some MDestroy) p).2).1 = Throw type_error.
Proof.
  intros p. apply (columns_after_destroy p 7%nat demo_state); [|done]. apply lookup_singleton_eq.
Defined.
