(* ===== verification/Callbacks.v ===== *)
(** * Callback lists: jQuery.Callbacks

    The state of one list is a record with the variables of the closure; the
    lists of a program live in a heap, since callbacks may use any list while one
    fires.  The section is open in the functions of the program: [call] runs a
    callback, on the whole heap. *)

From S2P Require Import Prelude JsNum JsVal.

(** ** Options *)

Record options := Options { o_once : bool; o_memory : bool; o_unique : bool; o_stopOnFalse : bool }.

(** The class [\x20\t\r\n\f] that separates the flags. *)
Definition is_html_white (c : N) : bool :=
  ((c =? 32) || (c =? 9) || (c =? 13) || (c =? 10) || (c =? 12))%N.

(** [options.match(rnothtmlwhite) || []]. *)
Fixpoint words_go (cur : jstr) (s : jstr) : list jstr :=
  let flush := match cur with [] => [] | _ => [rev cur] end in
  match s with
  | [] => flush
  | c :: s' => if is_html_white c then flush ++ words_go [] s' else words_go (c :: cur) s'
  end.

Definition words (s : jstr) : list jstr := words_go [] s.

Definition createOptions (s : jstr) : options :=
  let has name := bool_decide (str name ∈ words s) in
  Options (has "once"%string) (has "memory"%string) (has "unique"%string) (has "stopOnFalse"%string).

(** ** One list *)

(** [memory] and [list] hold [None] for their falsy values; [locked] is a truth
    value of the code. *)
Record cbs (F V : Type) := Cbs {
  opts : options;
  firing : bool;
  memory : option (V * list V);
  fired : bool;
  locked : bool;
  lst : option (list F);
  queue : list (V * list V);
  firingIndex : Z
}.
Arguments Cbs {F V}. Arguments opts {F V}. Arguments firing {F V}. Arguments memory {F V}.
Arguments fired {F V}. Arguments locked {F V}. Arguments lst {F V}. Arguments queue {F V}.
Arguments firingIndex {F V}.

(** The arguments of [add]: functions, arrays of arguments, other values. *)
Inductive arg (F : Type) := AFn (f : F) | AArr (l : list (arg F)) | AOther.
Arguments AFn {F}. Arguments AArr {F}. Arguments AOther {F}.

Section list_ops.
Context {F V : Type} `{EqDecision F}.
Abbreviation cbs := (cbs F V).

Definition new_cbs (o : options) : cbs := Cbs o false None false false (Some []) [] (-1).

Definition set_firing (x : bool) (c : cbs) : cbs :=
  Cbs (opts c) x (memory c) (fired c) (locked c) (lst c) (queue c) (firingIndex c).
Definition set_memory (x : option (V * list V)) (c : cbs) : cbs :=
  Cbs (opts c) (firing c) x (fired c) (locked c) (lst c) (queue c) (firingIndex c).
Definition set_lst (x : option (list F)) (c : cbs) : cbs :=
  Cbs (opts c) (firing c) (memory c) (fired c) (locked c) x (queue c) (firingIndex c).
Definition set_queue (x : list (V * list V)) (c : cbs) : cbs :=
  Cbs (opts c) (firing c) (memory c) (fired c) (locked c) (lst c) x (firingIndex c).
Definition set_index (x : Z) (c : cbs) : cbs :=
  Cbs (opts c) (firing c) (memory c) (fired c) (locked c) (lst c) (queue c) x.

(** The length of [list], an array or the empty string. *)
Definition list_length (c : cbs) : Z := Z.of_nat (length (default [] (lst c))).

Definition has_fn (f : F) (c : cbs) : bool := bool_decide (f ∈ default [] (lst c)).
Definition has_any (c : cbs) : bool := bool_decide (default [] (lst c) <> []).

(** The function [add(args)] inside [add]. *)
Definition add_one (f : F) (c : cbs) : cbs :=
  if negb (o_unique (opts c)) || negb (has_fn f c)
  then set_lst ((fun l => l ++ [f]) <$> lst c) c else c.

Fixpoint add_arg (a : arg F) (c : cbs) : cbs :=
  match a with
  | AFn f => add_one f c
  | AArr l => (fix go (l : list (arg F)) (c : cbs) : cbs :=
                 match l with [] => c | a :: l' => go l' (add_arg a c) end) l c
  | AOther => c
  end.

Definition add_args (l : list (arg F)) (c : cbs) : cbs := fold_left (fun c a => add_arg a c) l c.

(** Whether [add] fires: a value is remembered and no firing is going on. *)
Definition replays (c : cbs) : bool :=
  match memory c with Some _ => negb (firing c) | None => false end.

(** [add] up to its call of [fire]. *)
Definition add_pre (args : list (arg F)) (c : cbs) : cbs :=
  match memory c with
  | Some m =>
      let c' := if firing c then c else set_queue (queue c ++ [m]) (set_index (list_length c - 1) c) in
      add_args args c'
  | None => add_args args c
  end.

(** The [while] loop of [remove]: [i] is the index from which [inArray] goes on
    searching, [fi] the firing index. *)
Fixpoint remove_go (f : F) (l : list F) (i : nat) (fi : Z) : list F * Z :=
  match l with
  | [] => ([], fi)
  | x :: l' =>
      if decide (x = f)
      then remove_go f l' i (if Z.of_nat i <=? fi then fi - 1 else fi)
      else let '(r, fi') := remove_go f l' (S i) fi in (x :: r, fi')
  end.

Definition remove_one (c : cbs) (f : F) : cbs :=
  match lst c with
  | Some l => let '(r, fi) := remove_go f l 0 (firingIndex c) in set_index fi (set_lst (Some r) c)
  | None => c
  end.

Definition remove (fs : list F) (c : cbs) : cbs := fold_left remove_one fs c.

Definition empty (c : cbs) : cbs :=
  match lst c with Some _ => set_lst (Some []) c | None => c end.

Definition disable (c : cbs) : cbs :=
  Cbs (opts c) (firing c) None (fired c) true None [] (firingIndex c).

Definition disabled (c : cbs) : bool := match lst c with Some _ => false | None => true end.

Definition lock (c : cbs) : cbs :=
  let c' := Cbs (opts c) (firing c) (memory c) (fired c) true (lst c) [] (firingIndex c) in
  match memory c with
  | None => if firing c then c' else set_memory None (set_lst None c')
  | Some _ => c'
  end.

(** [fire] before its loops and after them. *)
Definition fire_start (c : cbs) : cbs :=
  Cbs (opts c) true (memory c) true (locked c || o_once (opts c)) (lst c) (queue c) (firingIndex c).

Definition fire_end (c : cbs) : cbs :=
  let c := if o_memory (opts c) then c else set_memory None c in
  let c := set_firing false c in
  if locked c then
    set_lst (match memory c with Some _ => Some [] | None => None end) c
  else c.

(** [queue.shift()] into [memory]; the head of the outer loop. *)
Definition next_run (c : cbs) : option cbs :=
  match queue c with
  | m :: q => Some (set_memory (Some m) (set_queue q c))
  | [] => None
  end.

(** After a callback answered [false] on a list with [stopOnFalse]. *)
Definition stop_run (c : cbs) : cbs := set_memory None (set_index (list_length c) c).

End list_ops.

(** ** Lists in a heap *)

Section heap.
Context {L F V H : Type} `{EqDecision F}.
Context (get : L -> H -> cbs F V) (put : L -> cbs F V -> H -> H).
(** Running a callback, on a context and arguments; [undefined]; [v === false]. *)
Context (call : F -> V -> list V -> SM H V) (undef : V) (is_false : V -> bool).

Definition upd (l : L) (f : cbs F V -> cbs F V) : SM H unit := sm_mod (fun h => put l (f (get l h)) h).

(** The [while] loop: the callbacks for one value.  [fuel] bounds the number of
    calls. *)
Fixpoint fire_calls (fuel : nat) (l : L) : SM H unit :=
  match fuel with
  | O => sm_lift NoFuel
  | S fuel' =>
      upd l (fun c => set_index (firingIndex c + 1) c) ;;
      c ← sm_get (get l);
      match (if firingIndex c <? 0 then None else default [] (lst c) !! Z.to_nat (firingIndex c)) with
      | Some f =>
          let '(this, args) := default (undef, []) (memory c) in
          r ← call f this args;
          sm_when (is_false r && o_stopOnFalse (opts c)) (upd l stop_run) ;;
          fire_calls fuel' l
      | None => mret tt
      end
  end.

(** The [for] loop: the pending values. *)
Fixpoint fire_loop (fuel : nat) (l : L) : SM H unit :=
  match fuel with
  | O => sm_lift NoFuel
  | S fuel' =>
      c ← sm_get (get l);
      match next_run c with
      | Some c' =>
          upd l (fun _ => c') ;;
          fire_calls fuel' l ;;
          upd l (set_index (-1)) ;;
          fire_loop fuel' l
      | None => mret tt
      end
  end.

(** The inner function [fire]. *)
Definition fire_list (fuel : nat) (l : L) : SM H unit :=
  upd l fire_start ;; fire_loop fuel l ;; upd l fire_end.

Definition add (fuel : nat) (l : L) (args : list (arg F)) : SM H unit :=
  c ← sm_get (get l);
  match lst c with
  | Some _ => upd l (add_pre args) ;; sm_when (replays c) (fire_list fuel l)
  | None => mret tt
  end.

Definition fireWith (fuel : nat) (l : L) (context : V) (args : list V) : SM H unit :=
  c ← sm_get (get l);
  if locked c then mret tt
  else
    upd l (fun c => set_queue (queue c ++ [(context, args)]) c) ;;
    sm_when (negb (firing c)) (fire_list fuel l).

End heap.

(** ** Programs

    A page that works with callback lists: its functions are numbered, and a
    function is a script that calls methods of lists, looks at the answers, may
    catch what they throw, and returns or throws. *)

Inductive op :=
  | OAdd (l : nat) (args : list (arg N))
  | ORemove (l : nat) (fs : list N)
  | OHas (l : nat) (f : option N)
  | OEmpty (l : nat)
  | ODisable (l : nat)
  | ODisabled (l : nat)
  | OLock (l : nat)
  | OLocked (l : nat)
  | OFireWith (l : nat) (context : jsval) (args : list jsval)
  | OFired (l : nat).

Inductive prog :=
  | PRet (v : jsval)
  | PThrow (e : jstr)
  | POp (o : op) (k : jsval -> prog) (h : jstr -> prog).

Abbreviation heap := (gmap nat (cbs N jsval)).

Definition is_false (v : jsval) : bool := match v with VBool false => true | _ => false end.

Section program.
(** The options each list was created with, and the functions of the page. *)
Context (list_opts : nat -> options) (user : N -> jsval -> list jsval -> prog).

Definition get_list (l : nat) (h : heap) : cbs N jsval := default (new_cbs (list_opts l)) (h !! l).
Definition put_list (l : nat) (c : cbs N jsval) (h : heap) : heap := <[l := c]> h.

Definition upd_list (l : nat) (f : cbs N jsval -> cbs N jsval) : SM heap jsval :=
  upd get_list put_list l f ;; mret VUndef.

(** A method call; the answer of a method that returns the list is not used. *)
Definition do_op (call : N -> jsval -> list jsval -> SM heap jsval) (fuel : nat) (o : op) : SM heap jsval :=
  match o with
  | OAdd l args => add get_list put_list call VUndef is_false fuel l args ;; mret VUndef
  | ORemove l fs => upd_list l (remove fs)
  | OHas l (Some f) => sm_get (fun h => VBool (has_fn f (get_list l h)))
  | OHas l None => sm_get (fun h => VBool (has_any (get_list l h)))
  | OEmpty l => upd_list l empty
  | ODisable l => upd_list l disable
  | ODisabled l => sm_get (fun h => VBool (disabled (get_list l h)))
  | OLock l => upd_list l lock
  | OLocked l => sm_get (fun h => VBool (locked (get_list l h)))
  | OFireWith l context args =>
      fireWith get_list put_list call VUndef is_false fuel l context args ;; mret VUndef
  | OFired l => sm_get (fun h => VBool (fired (get_list l h)))
  end.

Fixpoint run_prog (exec : op -> SM heap jsval) (p : prog) : SM heap jsval :=
  match p with
  | PRet v => mret v
  | PThrow e => sm_throw e
  | POp o k hd => fun h =>
      match exec o h with
      | (Ok v, h') => run_prog exec (k v) h'
      | (Throw e, h') => run_prog exec (hd e) h'
      | (NoFuel, h') => (NoFuel, h')
      end
  end.

(** [fuel] bounds the depth of calls and the length of each loop. *)
Fixpoint call (fuel : nat) (f : N) (this : jsval) (args : list jsval) : SM heap jsval :=
  match fuel with
  | O => sm_lift NoFuel
  | S n => run_prog (do_op (call n) n) (user f this args)
  end.

Definition exec (fuel : nat) : op -> SM heap jsval := do_op (call fuel) fuel.

Definition run_main (fuel : nat) (p : prog) : SM heap jsval := run_prog (exec fuel) p.

End program.
