(* ===== verification/Text.v ===== *)
(** * Searching in strings, and words

    [indexOf], [replace] and [split] with a string, and the words of a string as classes of
    elements and flags are separated. *)

From S2P Require Import Prelude JsNum JsVal Callbacks.

(** ** Searching *)

Fixpoint is_prefix (p s : jstr) : bool :=
  match p, s with
  | [], _ => true
  | a :: p', b :: s' => (a =? b)%N && is_prefix p' s'
  | _, [] => false
  end.

(** The text before and after the first occurrence of [p]. *)
Fixpoint find_sub (p s : jstr) : option (jstr * jstr) :=
  if is_prefix p s then Some ([], drop (length p) s)
  else match s with
       | [] => None
       | c :: s' => (fun r => (c :: r.1, r.2)) <$> find_sub p s'
       end.

(** [s.indexOf( p ) > -1]. *)
Definition contains (p s : jstr) : bool := bool_decide (is_Some (find_sub p s)).

(** [s.replace( p, r )] for a replacement without [$]. *)
Definition replace_first (p r s : jstr) : jstr :=
  match find_sub p s with Some (a, b) => a ++ r ++ b | None => s end.

Lemma is_prefix_spec p s : is_prefix p s = true <-> exists b, s = p ++ b.
Proof.
  revert s. induction p as [|a p IH]; intros [|c s]; cbn.
  - split; [by exists []|done].
  - split; [by exists (c :: s)|done].
  - split; [done|]. by intros [b [=]].
  - rewrite andb_true_iff, N.eqb_eq, IH. split; [by intros [-> [b ->]]; exists b|]. intros [b [= -> ->]]. split; [done|by exists b].
Qed.

Lemma find_sub_some p s a b : find_sub p s = Some (a, b) -> s = a ++ p ++ b.
Proof.
  revert a. induction s as [|c s IH]; intros a; cbn [find_sub]; destruct (is_prefix p _) eqn:E.
  - apply is_prefix_spec in E as [b' E]. intros [= <- <-]. rewrite E at 1. cbn. f_equal. by rewrite E, drop_app_length.
  - done.
  - apply is_prefix_spec in E as [b' E]. intros [= <- <-]. rewrite E. cbn. by rewrite drop_app_length.
  - destruct (find_sub p s) as [[a' b']|] eqn:Es; [|done]. intros [= <- <-]. cbn. f_equal. by apply IH.
Qed.

Lemma find_sub_none p s : find_sub p s = None -> forall a b, s <> a ++ p ++ b.
Proof.
  induction s as [|c s IH]; cbn [find_sub]; destruct (is_prefix p _) eqn:E; try done.
  - intros _ a b H. symmetry in H. apply app_nil in H as [-> H]. enough (is_prefix p [] = true) by congruence.
    apply is_prefix_spec. by exists b.
  - destruct (find_sub p s) as [[a' b']|] eqn:Es; [done|]. intros _ a b H. destruct a as [|c' a].
    + enough (is_prefix p (c :: s) = true) by congruence. apply is_prefix_spec. by exists b.
    + injection H as _ H. by apply (IH eq_refl a b).
Qed.

Lemma contains_spec p s : contains p s = true <-> exists a b, s = a ++ p ++ b.
Proof.
  unfold contains. rewrite bool_decide_eq_true. split.
  - intros [[a b] E]. exists a, b. by apply find_sub_some.
  - intros (a & b & E). destruct (find_sub p s) eqn:Es; [done|]. by apply (find_sub_none p s Es) in E.
Qed.

(** ** Splitting *)

(** [s.split( c )] for one character; [cur] is the part that is read, reversed. *)
Fixpoint split_on (c : N) (cur s : jstr) : list jstr :=
  match s with
  | [] => [rev cur]
  | x :: s' => if (x =? c)%N then rev cur :: split_on c [] s' else split_on c (x :: cur) s'
  end.
Definition split_dots (s : jstr) : list jstr := split_on (chr ".") [] s.

(** ** Words *)

Fixpoint join_spaces (l : list jstr) : jstr :=
  match l with [] => [] | [t] => t | t :: l' => t ++ chr " " :: join_spaces l' end.

(** A class name: something without the characters that separate them. *)
Definition token (t : jstr) : Prop := t <> [] /\ Forall (fun c => is_html_white c = false) t.

#[export] Instance token_dec t : Decision (token t).
Proof. unfold token. apply _. Defined.

Lemma words_go_white cur a w b : is_html_white w = true -> words_go cur (a ++ w :: b) = words_go cur a ++ words b.
Proof.
  intros Hw. revert cur. induction a as [|c a IH]; intros cur; cbn [words_go app].
  - by rewrite Hw.
  - destruct (is_html_white c); rewrite IH; by rewrite ?app_assoc.
Qed.

Lemma words_white a w b : is_html_white w = true -> words (a ++ w :: b) = words a ++ words b.
Proof. apply words_go_white. Qed.

Lemma words_space a b : words (a ++ chr " " :: b) = words a ++ words b.
Proof. by apply words_white. Qed.

Lemma words_go_plain cur t : Forall (fun c => is_html_white c = false) t ->
  words_go cur t = match rev cur ++ t with [] => [] | w => [w] end.
Proof.
  intros Ht. revert cur. induction Ht as [|c t Hc _ IH]; intros cur; cbn [words_go].
  - rewrite app_nil_r. destruct cur as [|x cur]; [done|]. destruct (rev (x :: cur)) eqn:E; [|done].
    apply (f_equal length) in E. rewrite length_rev in E. done.
  - rewrite Hc, IH. cbn. by rewrite <- app_assoc.
Qed.

Lemma words_token t : token t -> words t = [t].
Proof. intros [Hn Ht]. unfold words. rewrite words_go_plain by done. by destruct t. Qed.

Lemma words_go_tokens cur s : Forall (fun c => is_html_white c = false) cur -> Forall token (words_go cur s).
Proof.
  revert cur. induction s as [|c s IH]; intros cur Hc; cbn [words_go].
  - destruct cur as [|x cur]; [constructor|]. constructor; [|constructor]. split; [|by apply Forall_rev].
    intros E. apply (f_equal length) in E. by rewrite length_rev in E.
  - destruct (is_html_white c) eqn:E; [|apply IH; by constructor]. apply Forall_app. split; [|by apply IH].
    destruct cur as [|x cur]; [constructor|]. constructor; [|constructor]. split; [|by apply Forall_rev].
    intros E'. apply (f_equal length) in E'. by rewrite length_rev in E'.
Qed.

Lemma words_tokens s : Forall token (words s).
Proof. by apply words_go_tokens. Qed.

Lemma words_join l : Forall token l -> words (join_spaces l) = l.
Proof.
  induction 1 as [|t l Ht Hl IH]; [done|]. destruct l as [|u l]; [by apply words_token|].
  change (join_spaces (t :: u :: l)) with (t ++ chr " " :: join_spaces (u :: l)). by rewrite words_space, words_token, IH.
Qed.

(** A word of a string stands in it between separators, or at its ends. *)
Lemma words_in t s : t ∈ words s -> exists a b, s = a ++ t ++ b
  /\ (a = [] \/ exists a' w, a = a' ++ [w] /\ is_html_white w = true) /\ (b = [] \/ exists w b', b = w :: b' /\ is_html_white w = true).
Proof.
  assert (forall cur, t ∈ words_go cur s -> (exists b, rev cur ++ s = t ++ b /\ (b = [] \/ exists w b', b = w :: b' /\ is_html_white w = true))
    \/ exists a w b, s = a ++ w :: t ++ b /\ is_html_white w = true /\ (b = [] \/ exists w b', b = w :: b' /\ is_html_white w = true)) as H.
  { induction s as [|c s IH]; intros cur; cbn [words_go].
    - destruct cur as [|x cur]; [by intros Hn%elem_of_nil|]. intros ->%list_elem_of_singleton. left. exists []. auto.
    - destruct (is_html_white c) eqn:E.
      + rewrite elem_of_app. intros [Hin|Hin].
        * destruct cur as [|x cur]; [by apply elem_of_nil in Hin|]. apply list_elem_of_singleton in Hin as ->.
          left. exists (c :: s). split; [done|]. right. by exists c, s.
        * right. destruct (IH [] Hin) as [(b & Eb & Hb)|(a & w & b & -> & Hw & Hb)].
          -- exists [], c, b. cbn in Eb. by rewrite Eb.
          -- by exists (c :: a), w, b.
      + intros Hin. destruct (IH (c :: cur) Hin) as [(b & Eb & Hb)|(a & w & b & -> & Hw & Hb)].
        * left. exists b. cbn in Eb. by rewrite <- app_assoc in Eb.
        * right. by exists (c :: a), w, b. }
  intros Hin. destruct (H [] Hin) as [(b & Eb & Hb)|(a & w & b & -> & Hw & Hb)].
  - exists [], b. auto.
  - exists (a ++ [w]), b. rewrite <- app_assoc. split; [done|]. split; [|done]. right. by exists a, w.
Qed.
