(* ===== verification/CallbacksFacts.v ===== *)
(** * What callback lists promise

    Every execution, however the callbacks use the lists they run from, moves each
    list along the steps of a transition system; invariants of lists are proved by
    induction on these steps.  Then the functional behaviour of a firing. *)

From S2P Require Import Prelude JsNum JsVal Callbacks.

(** ** The transition system of one list *)

Section steps.
Context {F V : Type} `{EqDecision F}.
Abbreviation cbs := (cbs F V).

(** One step of a list; the guards are those of the code. *)
Inductive cstep (c : cbs) : cbs -> Prop :=
  | st_fire m c' : locked c = false -> firing c = false ->
      next_run (fire_start (set_queue (queue c ++ [m]) c)) = Some c' -> cstep c c'
  | st_push m : locked c = false -> firing c = true -> cstep c (set_queue (queue c ++ [m]) c)
  | st_add args l : lst c = Some l -> replays c = false -> cstep c (add_pre args c)
  | st_replay args l c' : lst c = Some l -> replays c = true ->
      next_run (fire_start (add_pre args c)) = Some c' -> cstep c c'
  | st_index : firing c = true -> cstep c (set_index (firingIndex c + 1) c)
  | st_rewind : firing c = true -> cstep c (set_index (-1) c)
  | st_next c' : firing c = true -> next_run c = Some c' -> cstep c c'
  | st_stop : firing c = true -> o_stopOnFalse (opts c) = true -> cstep c (stop_run c)
  | st_end : firing c = true -> queue c = [] -> cstep c (fire_end c)
  | st_remove fs : cstep c (remove fs c)
  | st_empty : cstep c (empty c)
  | st_disable : cstep c (disable c)
  | st_lock : cstep c (lock c).

(** *** [add] adds the functions among its arguments, arrays opened, in order *)

Fixpoint fns (a : arg F) : list F :=
  match a with
  | AFn f => [f]
  | AArr l => (fix go (l : list (arg F)) : list F :=
                 match l with [] => [] | a :: l' => fns a ++ go l' end) l
  | AOther => []
  end.

Definition fns_list (l : list (arg F)) : list F := flat_map fns l.

Definition add_fns (fs : list F) (c : cbs) : cbs := fold_left (fun c f => add_one f c) fs c.

Lemma add_fns_app fs gs c : add_fns (fs ++ gs) c = add_fns gs (add_fns fs c).
Proof. apply fold_left_app. Qed.

Lemma add_arg_fns (a : arg F) (c : cbs) : add_arg a c = add_fns (fns a) c.
Proof.
  revert a c. fix IH 1. intros [f|args|] c; [done| |done]. cbn.
  revert c. induction args as [|a args IHl]; intros c; [done|].
  by rewrite IH, IHl, add_fns_app.
Qed.

Lemma add_args_fns l (c : cbs) : add_args l c = add_fns (fns_list l) c.
Proof.
  unfold add_args. revert c. induction l as [|a l IH]; intros c; [done|]. cbn.
  by rewrite add_arg_fns, IH, add_fns_app.
Qed.

Lemma add_fns_frame fs (c : cbs) : exists l, add_fns fs c = set_lst l c.
Proof.
  revert c; induction fs as [|f fs IH]; intros c; [exists (lst c); by destruct c|]. cbn.
  unfold add_one at 2. case_head; [|apply IH].
  destruct (IH (set_lst ((fun l => l ++ [f]) <$> lst c) c)) as [l Hl]. by exists l.
Qed.

(** The functions that a list with [unique] takes in. *)
Fixpoint fresh (fs l : list F) : list F :=
  match fs with
  | [] => []
  | f :: fs' => if decide (f ∈ l) then fresh fs' l else f :: fresh fs' (l ++ [f])
  end.

Lemma add_fns_lst fs (c : cbs) :
  lst (add_fns fs c)
  = (fun l => l ++ (if o_unique (opts c) then fresh fs l else fs)) <$> lst c.
Proof.
  revert c; induction fs as [|f fs IH]; intros c; cbn.
  - destruct (lst c); cbn; [|done]. by destruct (o_unique _); rewrite app_nil_r.
  - rewrite IH. unfold add_one, has_fn. destruct (o_unique (opts c)) eqn:Eu; cbn [negb orb].
    + destruct (lst c) as [l|] eqn:El; cbn; [|by case_match; cbn; rewrite ?El].
      case_bool_decide as Hin; cbn; rewrite ?El, Eu; cbn; [by rewrite decide_True|].
      rewrite decide_False by done. by rewrite <-app_assoc.
    + cbn. rewrite Eu. destruct (lst c); cbn; [|done]. by rewrite <-app_assoc.
Qed.

Lemma fns_list_fns (fs : list F) : fns_list (List.map AFn fs) = fs.
Proof. induction fs as [|f fs IH]; cbn; [done|]. by f_equal. Qed.

Lemma add_fns_plain fs (c : cbs) : o_unique (opts c) = false ->
  add_fns fs c = set_lst ((fun l => l ++ fs) <$> lst c) c.
Proof.
  intros Hu. destruct (add_fns_frame fs c) as [l E]. pose proof (add_fns_lst fs c) as Hl.
  rewrite E in *. cbn in Hl. by rewrite Hl, Hu.
Qed.

Lemma fresh_NoDup fs l : NoDup l -> NoDup (l ++ fresh fs l).
Proof.
  revert l; induction fs as [|f fs IH]; intros l Hl; cbn; [by rewrite app_nil_r|].
  destruct (decide (f ∈ l)) as [|Hf]; [by apply IH|].
  assert (NoDup (l ++ [f])) as Hlf.
  { apply NoDup_app. split_and!; [done| |apply NoDup_singleton].
    intros x Hx ->%list_elem_of_singleton. done. }
  specialize (IH _ Hlf). by rewrite <-app_assoc in IH.
Qed.

Lemma add_pre_frame args (c : cbs) : exists l q i, add_pre args c = set_lst l (set_queue q (set_index i c))
  /\ (replays c = false -> q = queue c /\ i = firingIndex c)
  /\ (forall m, memory c = Some m -> replays c = true -> q = queue c ++ [m]).
Proof.
  unfold add_pre, replays. destruct (memory c) as [m|] eqn:Em; rewrite add_args_fns.
  - destruct (firing c).
    + destruct (add_fns_frame (fns_list args) c) as [l ->]. exists l, (queue c), (firingIndex c).
      split_and!; [by destruct c|done|done].
    + destruct (add_fns_frame (fns_list args) (set_queue (queue c ++ [m]) (set_index (list_length c - 1) c)))
        as [l ->]. do 3 eexists. split_and!; [reflexivity|done|]. by intros m' [= ->].
  - destruct (add_fns_frame (fns_list args) c) as [l ->]. exists l, (queue c), (firingIndex c).
    split_and!; [by destruct c|done|done].
Qed.

Lemma remove_go_filter (f : F) (l : list F) i fi : fst (remove_go f l i fi) = List.filter (fun x => negb (bool_decide (x = f))) l.
Proof.
  revert i fi; induction l as [|x l IH]; intros i fi; cbn; [done|].
  destruct (decide (x = f)) as [->|Hx]; cbn.
  - by rewrite bool_decide_true, IH.
  - rewrite bool_decide_false by done. cbn.
    specialize (IH (S i) fi). destruct (remove_go f l (S i) fi). cbn in *. by rewrite IH.
Qed.
End steps.

(** ** Invariants of the steps *)

Section invariants.
Context {F V : Type} `{EqDecision F}.
Abbreviation cbs := (cbs F V).
Implicit Types c : cbs.

Lemma steps_inv (P : cbs -> Prop) : (forall c c', cstep c c' -> P c -> P c') ->
  forall c c', rtc cstep c c' -> P c -> P c'.
Proof. intros HP c c' Hc. induction Hc; eauto. Qed.

(** What [next_run] after [fire_start] amounts to. *)
Lemma start_inv c c' : next_run (fire_start c) = Some c' ->
  exists m q, queue c = m :: q /\
    c' = Cbs (opts c) true (Some m) true (locked c || o_once (opts c)) (lst c) q (firingIndex c).
Proof.
  unfold next_run. cbn. destruct (queue c) as [|m q]; [done|]. intros [= <-]. by exists m, q.
Qed.

Lemma next_inv c c' : next_run c = Some c' ->
  exists m q, queue c = m :: q /\ c' = set_memory (Some m) (set_queue q c).
Proof. unfold next_run. destruct (queue c) as [|m q]; [done|]. intros [= <-]. by exists m, q. Qed.

Lemma filter_true {A} (l : list A) : List.filter (fun _ => true) l = l.
Proof. induction l as [|x l IH]; cbn; [done|]. by rewrite IH. Qed.

Lemma filter_filter {A} (f g : A -> bool) l :
  List.filter f (List.filter g l) = List.filter (fun x => g x && f x) l.
Proof.
  induction l as [|x l IH]; cbn; [done|]. destruct (g x); cbn; [|done].
  destruct (f x); by rewrite IH.
Qed.

Lemma remove_frame fs c :
  exists g i, remove fs c = set_lst (List.filter g <$> lst c) (set_index i c).
Proof.
  unfold remove. revert c; induction fs as [|f fs IH]; intros c; cbn.
  - exists (fun _ => true), (firingIndex c). destruct c as [? ? ? ? ? [l|] ? ?]; cbn; [|done].
    unfold set_lst, set_index; cbn. by rewrite filter_true.
  - destruct (IH (remove_one c f)) as (g & i & ->). unfold remove_one.
    destruct (lst c) as [l|] eqn:El; [|by exists g, i; cbn; rewrite El].
    pose proof (remove_go_filter f l 0 (firingIndex c)) as Hr.
    destruct (remove_go f l 0 (firingIndex c)) as [r fi]. cbn in *. subst r.
    eexists _, i. cbn. by rewrite filter_filter.
Qed.

(** The last operations as one record each. *)
Definition kept c : option (V * list V) := if o_memory (opts c) then memory c else None.

Lemma fire_end_eq c : fire_end c =
  Cbs (opts c) false (kept c) (fired c) (locked c)
    (if locked c then match kept c with Some _ => Some [] | None => None end else lst c)
    (queue c) (firingIndex c).
Proof. unfold fire_end, kept. destruct (o_memory (opts c)), c as [? ? ? ? [|] ? ? ?]; done. Qed.

Lemma empty_eq c : empty c = set_lst ((fun _ => []) <$> lst c) c.
Proof. unfold empty. by destruct c as [? ? ? ? ? [|] ? ?]. Qed.

Lemma lock_eq c : lock c =
  Cbs (opts c) (firing c) (memory c) (fired c) true
    (match memory c with None => if firing c then lst c else None | _ => lst c end) [] (firingIndex c).
Proof. unfold lock. by destruct c as [? [|] [|] ? ? ? ? ?]. Qed.

(** Case analysis on a step: the state after it as a record. *)
Ltac step_cases Hc :=
  destruct Hc;
  lazymatch goal with
  | H : next_run (fire_start _) = Some _ |- _ => apply start_inv in H as (? & ? & ? & ->)
  | H : next_run _ = Some _ |- _ => apply next_inv in H as (? & ? & ? & ->)
  | _ => idtac
  end;
  try match goal with
  | H : context [add_pre ?args ?c] |- _ => destruct (add_pre_frame args c) as (? & ? & ? & ? & ? & ?)
  | |- context [add_pre ?args ?c] => destruct (add_pre_frame args c) as (? & ? & ? & ? & ? & ?)
  | |- context [remove ?fs ?c] => destruct (remove_frame fs c) as (? & ? & ->)
  end; rewrite ?fire_end_eq, ?empty_eq, ?lock_eq.

(** A disabled list: it forgot its value, and stays disabled. *)
Definition dead c : Prop := lst c = None /\ memory c = None /\ locked c = true /\ queue c = [].

Lemma dead_step c c' : cstep c c' -> dead c -> dead c'.
Proof.
  intros Hc (Hl & Hm & Hk & Hq). step_cases Hc; try congruence; unfold dead, kept; cbn;
    rewrite ?Hl, ?Hm, ?Hk, ?Hq; cbn; try done; split_and!; try done; by repeat case_match.
Qed.

Lemma dead_steps c c' : rtc cstep c c' -> dead c -> dead c'.
Proof. apply steps_inv, dead_step. Qed.

(** The flags [fired] and [locked] never go back. *)
Lemma flags_step c c' : cstep c c' ->
  opts c' = opts c /\ (fired c = true -> fired c' = true) /\ (locked c = true -> locked c' = true).
Proof.
  intros Hc. step_cases Hc; simplify_eq; cbn; split_and!; try done; try congruence;
    repeat match goal with H : add_pre _ _ = _ |- _ => rewrite H; cbn end; try done.
  intros ->. done.
Qed.

Lemma opts_steps c c' : rtc cstep c c' -> opts c' = opts c.
Proof. intros Hc. induction Hc as [|c1 c2 c3 H12 _ IH]; [done|]. rewrite IH. by apply flags_step. Qed.

(** A list with [unique] never holds a function twice. *)
Definition unique_inv c : Prop := o_unique (opts c) = true -> NoDup (default [] (lst c)).

Lemma add_pre_lst args c :
  lst (add_pre args c)
  = (fun l => l ++ (if o_unique (opts c) then fresh (fns_list args) l else fns_list args)) <$> lst c.
Proof. unfold add_pre. destruct (memory c), (firing c); by rewrite add_args_fns, add_fns_lst. Qed.

Lemma add_pre_unique args c : unique_inv c -> unique_inv (add_pre args c).
Proof.
  intros Hc. unfold unique_inv. rewrite add_pre_lst.
  destruct (add_pre_frame args c) as (l & q & i & -> & _). cbn. intros Hu.
  specialize (Hc Hu). rewrite Hu. destruct (lst c); cbn in *; [by apply fresh_NoDup|constructor].
Qed.

Lemma unique_step c c' : cstep c c' -> unique_inv c -> unique_inv c'.
Proof.
  intros Hc Hu. pose proof (fun args => add_pre_unique args c Hu) as Ha.
  destruct Hc; try done;
    try match goal with
    | H : next_run (fire_start _) = Some _ |- _ => apply start_inv in H as (? & ? & ? & ->)
    | H : next_run _ = Some _ |- _ => apply next_inv in H as (? & ? & ? & ->)
    end; rewrite ?fire_end_eq, ?empty_eq, ?lock_eq; unfold unique_inv in *; cbn; try done.
  - apply Ha.
  - intros Hx. repeat case_match; cbn; auto using NoDup_nil_2.
  - destruct (remove_frame fs c) as (g & i & ->). cbn. intros Hx. specialize (Hu Hx).
    destruct (lst c); [|done]. eapply sublist_NoDup; [exact Hu|apply filter_sublist].
  - intros _. destruct (lst c); apply NoDup_nil_2.
  - intros _. apply NoDup_nil_2.
  - intros Hx. repeat case_match; cbn; auto using NoDup_nil_2.
Qed.

(** A list with [once] and [memory] and without [stopOnFalse], as those of a
    Deferred, once it has fired with [m]: it remembers [m], and replays nothing
    else, or it was disabled. *)
Definition settled_on (m : V * list V) c : Prop :=
  o_memory (opts c) = true /\ o_stopOnFalse (opts c) = false /\ locked c = true /\
  (memory c = Some m /\ Forall (fun m' => m' = m) (queue c) \/ dead c).

Lemma settled_step m c c' : cstep c c' -> settled_on m c -> settled_on m c'.
Proof.
  intros Hc (Ho & Hs & Hk & Hm).
  destruct (flags_step c c' Hc) as (Eo & _ & Hk'). unfold settled_on. rewrite Eo.
  split_and!; [done..|by apply Hk'|]. destruct Hm as [[Hm Hq]|Hd]; [|right; by eapply dead_step].
  assert (forall m' q, queue c = m' :: q -> m' = m /\ Forall (fun m' => m' = m) q) as Hhead.
  { intros m' q E. rewrite E in Hq. by apply Forall_cons in Hq. }
  destruct Hc; try congruence;
    try match goal with
    | H : next_run (fire_start _) = Some _ |- _ => apply start_inv in H as (x & q' & Hx & ->)
    | H : next_run _ = Some _ |- _ => apply next_inv in H as (x & q' & Hx & ->)
    end; rewrite ?fire_end_eq, ?empty_eq, ?lock_eq; cbn; unfold kept; rewrite ?Ho; try (by left).
  - left. destruct (add_pre_frame args c) as (? & q & ? & -> & Hno & _). cbn.
    by destruct (Hno H0) as [-> _].
  - left. destruct (add_pre_frame args c) as (? & q & ? & Ea & _ & Hyes). rewrite Ea in Hx. cbn in Hx.
    rewrite (Hyes m Hm H0) in Hx. destruct (queue c) as [|m0 q0] eqn:Eq; cbn in Hx; simplify_eq.
    + by split.
    + destruct (Hhead x q0 eq_refl) as [-> Hq0]. split; [done|]. apply Forall_app. by split; [|constructor].
  - left. destruct (Hhead x q' Hx) as [-> Hq']. by split.
  - left. destruct (remove_frame fs c) as (? & ? & ->). by split.
  - right. done.
Qed.
End invariants.

(** ** Every execution is a sequence of steps *)

Section execution.
Context {L F V H : Type} `{EqDecision L} `{EqDecision F}.
Context (get : L -> H -> cbs F V) (put : L -> cbs F V -> H -> H).
Hypothesis get_put : forall l c h, get l (put l c h) = c.
Hypothesis get_put_ne : forall l l' c h, l <> l' -> get l' (put l c h) = get l' h.
Context (call : F -> V -> list V -> SM H V) (undef : V) (is_false : V -> bool).

(** Every list evolves by steps, and a firing in progress is still in progress. *)
Definition evolves (h h' : H) : Prop :=
  forall l, rtc cstep (get l h) (get l h') /\
    (firing (get l h) = true -> firing (get l h') = true).

#[export] Instance evolves_refl : Reflexive evolves.
Proof. intros h l. by split. Qed.

#[export] Instance evolves_trans : Transitive evolves.
Proof. intros h1 h2 h3 H12 H23 l. destruct (H12 l), (H23 l). split; [by etrans|auto]. Qed.

(** [m] evolves the lists, unless its bound was too small. *)
Definition evolving {A} (m : SM H A) (h : H) : Prop := (m h).1 <> NoFuel -> evolves h (m h).2.

Lemma evolves_put l c h : cstep (get l h) c -> (firing (get l h) = true -> firing c = true) ->
  evolves h (put l c h).
Proof.
  intros Hc Hf l'. destruct (decide (l = l')) as [<-|Hl].
  - rewrite get_put. split; [by apply rtc_once|done].
  - by rewrite get_put_ne.
Qed.

Lemma evolving_bind {A B} (m : SM H A) (f : A -> SM H B) h :
  evolving m h -> (forall a h', m h = (Ok a, h') -> evolving (f a) h') -> evolving (m ≫= f) h.
Proof.
  unfold evolving, mbind, sm_bind. intros Hm Hf. destruct (m h) as [[a|e|] h'] eqn:E; cbn in *; try done.
  - intros Hn. etrans; [by apply Hm|by apply Hf].
  - intros _. by apply Hm.
Qed.

Lemma evolving_ret {A} (a : A) h : evolving (mret a : SM H A) h.
Proof. intros _. reflexivity. Qed.

Lemma evolving_upd l f h : cstep (get l h) (f (get l h)) ->
  (firing (get l h) = true -> firing (f (get l h)) = true) -> evolving (upd get put l f) h.
Proof. intros Hc Hf _. by apply evolves_put. Qed.

Hypothesis call_evolving : forall f this args h, evolving (call f this args) h.

Lemma fire_calls_evolving fuel l h : firing (get l h) = true ->
  evolving (fire_calls get put call undef is_false fuel l) h.
Proof.
  revert h. induction fuel as [|fuel IH]; intros h Hf; [by intros []|]. cbn [fire_calls].
  apply evolving_bind; [apply evolving_upd; [by apply st_index|done]|].
  intros [] h1 [= <-]. set (h1 := put _ _ _).
  assert (firing (get l h1) = true) as Hf1 by (unfold h1; by rewrite get_put).
  apply evolving_bind; [apply evolving_ret|]. intros c h2 [= <- <-].
  match goal with |- context [match ?x with Some _ => _ | None => _ end] =>
    destruct x as [f|]; [|apply evolving_ret] end.
  destruct (default (undef, []) (memory (get l h1))) as [this args].
  apply evolving_bind; [apply call_evolving|]. intros r h3 Hr.
  assert (firing (get l h3) = true) as Hf3.
  { pose proof (call_evolving f this args h1) as Hc. unfold evolving in Hc. rewrite Hr in Hc.
    by apply Hc. }
  apply evolving_bind.
  - destruct (is_false r); [|apply evolving_ret]. cbn [andb sm_when].
    destruct (o_stopOnFalse (opts (get l h1))) eqn:Es; [|apply evolving_ret].
    apply evolving_upd; [|done]. apply st_stop; [done|].
    pose proof (call_evolving f this args h1) as Hc. unfold evolving in Hc. rewrite Hr in Hc.
    destruct (Hc ltac:(done) l) as [Hst _]. cbn in Hst. by rewrite (opts_steps _ _ Hst).
  - intros [] h4 Hw. apply IH.
    destruct (is_false r && _); [|by injection Hw as <-].
    injection Hw as <-. by rewrite get_put.
Qed.

(** The body of the outer loop after [queue.shift()], and the rest of the loop. *)
Definition run_rest (fuel : nat) (l : L) : SM H unit :=
  fire_calls get put call undef is_false fuel l ;;
  upd get put l (set_index (-1)) ;;
  fire_loop get put call undef is_false fuel l.

Lemma fire_loop_S fuel l h :
  fire_loop get put call undef is_false (S fuel) l h =
  match next_run (get l h) with
  | Some c' => run_rest fuel l (put l c' h)
  | None => (Ok tt, h)
  end.
Proof.
  cbn [fire_loop]. rewrite (sm_bind_eq _ _ h (Ok (get l h)) h) by done.
  by destruct (next_run (get l h)).
Qed.

(** The loop keeps the firing flag, and ends with an empty queue. *)
Definition loop_good (l : L) (m : SM H unit) (h : H) : Prop :=
  evolving m h /\ forall h', m h = (Ok tt, h') -> firing (get l h') = true /\ queue (get l h') = [].

Lemma run_rest_good fuel l h : firing (get l h) = true ->
  (forall h, firing (get l h) = true -> loop_good l (fire_loop get put call undef is_false fuel l) h) ->
  loop_good l (run_rest fuel l) h.
Proof.
  intros Hf Hloop. pose proof (fire_calls_evolving fuel l h Hf) as E1. split.
  - apply evolving_bind; [done|]. intros [] h1 Hr. unfold evolving in E1. rewrite Hr in E1.
    assert (firing (get l h1) = true) as Hf1 by (by apply (E1 ltac:(done) l)).
    apply evolving_bind; [apply evolving_upd; [by apply st_rewind|done]|].
    intros [] h2 [= <-]. apply Hloop. by rewrite get_put.
  - intros h' Hr. apply sm_bind_inv in Hr as ([] & h1 & Hr & Hr').
    unfold evolving in E1. rewrite Hr in E1.
    assert (firing (get l h1) = true) as Hf1 by (by apply (E1 ltac:(done) l)).
    apply sm_bind_inv in Hr' as ([] & h2 & [= <-] & Hr'). eapply Hloop; [|exact Hr']. by rewrite get_put.
Qed.

Lemma fire_loop_good fuel l h : firing (get l h) = true ->
  loop_good l (fire_loop get put call undef is_false fuel l) h.
Proof.
  revert h. induction fuel as [|fuel IH]; intros h Hf; [split; [by intros []|done]|].
  destruct (next_run (get l h)) as [c'|] eqn:En.
  - assert (firing c' = true) as Hf' by (by apply next_inv in En as (m & q & _ & ->)).
    destruct (run_rest_good fuel l (put l c' h)) as [E1 E2]; [by rewrite get_put|done|].
    unfold loop_good, evolving. rewrite fire_loop_S, En. split; [|done]. intros Hn.
    etrans; [apply evolves_put; [by eapply st_next|done]|by apply E1].
  - unfold loop_good, evolving. rewrite fire_loop_S, En. split; [done|]. intros h' [= <-].
    split; [done|]. unfold next_run in En. by destruct (queue (get l h)).
Qed.

(** A whole firing: [h] is the state after [h0] in which the list [l] was
    prepared, and the preparation and the start are one step. *)
Lemma fire_list_evolves fuel l h0 h c' :
  (forall l', l <> l' -> get l' h = get l' h0) -> firing (get l h0) = false ->
  next_run (fire_start (get l h)) = Some c' -> cstep (get l h0) c' ->
  (fire_list get put call undef is_false fuel l h).1 <> NoFuel ->
  evolves h0 (fire_list get put call undef is_false fuel l h).2
  /\ rtc cstep c' (get l (fire_list get put call undef is_false fuel l h).2)
  /\ forall e, (fire_list get put call undef is_false fuel l h).1 = Throw e ->
       firing (get l (fire_list get put call undef is_false fuel l h).2) = true.
Proof.
  intros Hne Hf0 Hc' Hst. unfold fire_list.
  rewrite (sm_bind_eq _ _ h (Ok tt) (put l (fire_start (get l h)) h)) by done.
  destruct fuel as [|fuel]; [done|].
  assert (firing c' = true) as Hf' by (by apply start_inv in Hc' as (m & q & _ & ->)).
  set (h1 := put l c' (put l (fire_start (get l h)) h)).
  assert (firing (get l h1) = true) as Hf1 by (unfold h1; by rewrite get_put).
  destruct (run_rest_good fuel l h1 Hf1) as [E1 E2]; [intros; by apply fire_loop_good|].
  assert (evolves h0 h1) as E0.
  { intros l'. destruct (decide (l = l')) as [<-|Hl].
    - unfold h1. rewrite get_put. split; [by apply rtc_once|congruence].
    - unfold h1. by rewrite !get_put_ne, Hne. }
  destruct (fire_loop get put call undef is_false (S fuel) l (put l (fire_start (get l h)) h)) as [r h2] eqn:Er.
  rewrite (sm_bind_eq _ _ _ _ _ Er). rewrite fire_loop_S, get_put, Hc' in Er. fold h1 in Er.
  assert (get l h1 = c') as Eh1 by (unfold h1; by rewrite get_put).
  unfold evolving in E1. rewrite Er in E1. destruct r as [[]|e|]; cbn in *; intros Hn; [| |done].
  - destruct (E2 h2 Er) as [Hf2 Hq2]. specialize (E1 ltac:(done)).
    assert (rtc cstep c' (fire_end (get l h2))) as Hsteps.
    { rewrite <-Eh1. etrans; [apply E1|]. by apply rtc_once, st_end. }
    split; [|by split; [rewrite get_put|]]. intros l'. destruct (decide (l = l')) as [<-|Hl].
    + rewrite get_put. split; [|congruence]. etrans; [by apply rtc_once|done].
    + rewrite get_put_ne by done. apply (transitivity E0 E1).
  - specialize (E1 ltac:(done)). split; [by etrans|]. rewrite <-Eh1. split; [apply E1|].
    intros _ _. by apply E1.
Qed.

Lemma fireWith_throw fuel l context args h e :
  (fireWith get put call undef is_false fuel l context args h).1 = Throw e ->
  firing (get l (fireWith get put call undef is_false fuel l context args h).2) = true.
Proof.
  unfold fireWith. rewrite (sm_bind_eq _ _ h (Ok (get l h)) h) by done.
  destruct (locked (get l h)) eqn:Hk; [done|].
  set (c1 := set_queue (queue (get l h) ++ [(context, args)]) (get l h)).
  rewrite (sm_bind_eq _ _ h (Ok tt) (put l c1 h)) by done.
  destruct (firing (get l h)) eqn:Hf; cbn [negb sm_when]; [done|]. intros Ht.
  destruct (next_run (fire_start c1)) as [c'|] eqn:En.
  - apply (fire_list_evolves fuel l h (put l c1 h) c') with e;
      [|done|by rewrite get_put|by eapply st_fire|by rewrite Ht|done].
    intros l' Hl. by rewrite get_put_ne.
  - unfold next_run, c1 in En. cbn in En. by destruct (queue (get l h)).
Qed.

Lemma fireWith_evolving fuel l context args h :
  evolving (fireWith get put call undef is_false fuel l context args) h.
Proof.
  unfold fireWith, evolving. rewrite (sm_bind_eq _ _ h (Ok (get l h)) h) by done.
  destruct (locked (get l h)) eqn:Hk; [done|].
  set (c1 := set_queue (queue (get l h) ++ [(context, args)]) (get l h)).
  rewrite (sm_bind_eq _ _ h (Ok tt) (put l c1 h)) by done.
  destruct (firing (get l h)) eqn:Hf; cbn [negb sm_when].
  - intros _. apply evolves_put; [by apply st_push|done].
  - destruct (next_run (fire_start c1)) as [c'|] eqn:En.
    + intros Hn. apply (fire_list_evolves fuel l h (put l c1 h) c');
        [|done|by rewrite get_put|by eapply st_fire|done].
      intros l' Hl. by rewrite get_put_ne.
    + unfold next_run, c1 in En. cbn in En. by destruct (queue (get l h)).
Qed.

Lemma add_evolving fuel l args h : evolving (add get put call undef is_false fuel l args) h.
Proof.
  unfold add, evolving. rewrite (sm_bind_eq _ _ h (Ok (get l h)) h) by done.
  destruct (lst (get l h)) as [fs|] eqn:Hl; [|done].
  set (c1 := add_pre args (get l h)). rewrite (sm_bind_eq _ _ h (Ok tt) (put l c1 h)) by done.
  destruct (replays (get l h)) eqn:Hr; cbn [sm_when].
  - assert (exists c', next_run (fire_start c1) = Some c') as [c' En].
    { destruct (memory (get l h)) as [m|] eqn:Em; [|by unfold replays in Hr; rewrite Em in Hr].
      destruct (add_pre_frame args (get l h)) as (? & q & ? & E & _ & Hq).
      unfold c1. rewrite E, (Hq m) by done. unfold next_run; cbn.
      destruct (queue (get l h)); by eexists. }
    intros Hn. apply (fire_list_evolves fuel l h (put l c1 h) c');
      [|by unfold replays in Hr; destruct (memory _), (firing _)|by rewrite get_put|by eapply st_replay|done].
    intros l' Hl'. by rewrite get_put_ne.
  - intros _. apply evolves_put; [by eapply st_add|]. unfold c1.
    by destruct (add_pre_frame args (get l h)) as (? & ? & ? & -> & _).
Qed.

(** The first value of a list is the one it settles on. *)
Lemma fireWith_settles fuel l context args h :
  let c := get l h in
  o_once (opts c) = true -> o_memory (opts c) = true -> o_stopOnFalse (opts c) = false ->
  locked c = false -> firing c = false -> queue c = [] ->
  (fireWith get put call undef is_false fuel l context args h).1 <> NoFuel ->
  settled_on (context, args) (get l (fireWith get put call undef is_false fuel l context args h).2).
Proof.
  intros c Ho Hm Hs Hk Hf Hq. unfold fireWith.
  rewrite (sm_bind_eq _ _ h (Ok c) h) by done. rewrite Hk, Hf.
  set (c1 := set_queue (queue c ++ [(context, args)]) c).
  rewrite (sm_bind_eq _ _ h (Ok tt) (put l c1 h)) by done. cbn [negb sm_when].
  assert (exists c', next_run (fire_start c1) = Some c') as [c' En]
    by (unfold c1, next_run; cbn; rewrite Hq; by eexists).
  intros Hn. eapply steps_inv; [intros; by eapply settled_step| |].
  - apply (fire_list_evolves fuel l h (put l c1 h) c'); [|done|by rewrite get_put|by eapply st_fire|done].
    intros l' Hl. by rewrite get_put_ne.
  - apply start_inv in En as (m & q & Eq & ->). unfold c1 in *. cbn in *. rewrite Hq in Eq. injection Eq as <- <-.
    unfold settled_on; cbn. rewrite Ho, orb_true_r. split_and!; try done. left. split; [done|constructor].
Qed.
End execution.

(** ** Programs *)

Section programs.
Context (list_opts : nat -> options) (user : N -> jsval -> list jsval -> prog).

Abbreviation getl := (get_list list_opts).
Abbreviation ev := (evolves (get_list list_opts)).

Lemma get_put_list l c h : getl l (put_list l c h) = c.
Proof. unfold get_list, put_list. by rewrite lookup_insert_eq. Qed.

Lemma get_put_list_ne l l' c h : l <> l' -> getl l' (put_list l c h) = getl l' h.
Proof. intros Hl. unfold get_list, put_list. by rewrite lookup_insert_ne. Qed.

Definition evolving' {A} : SM heap A -> heap -> Prop := evolving (get_list list_opts).

Lemma do_op_evolving call fuel o h :
  (forall f this args h, evolving' (call f this args) h) -> evolving' (do_op list_opts call fuel o) h.
Proof.
  intros Hc. pose proof get_put_list as G1. pose proof get_put_list_ne as G2.
  assert (forall l f, cstep (getl l h) (f (getl l h)) ->
    (firing (getl l h) = true -> firing (f (getl l h)) = true) ->
    evolving' (upd_list list_opts l f) h) as Hupd.
  { intros l f Hs Hf. apply evolving_bind; [|intros; apply evolving_ret].
    by apply evolving_upd. }
  destruct o as [l args|l fs|l [f|]|l|l|l|l|l|l context args|l]; cbn [do_op]; try apply evolving_ret.
  - apply evolving_bind; [by apply add_evolving|intros; apply evolving_ret].
  - apply Hupd; [apply st_remove|]. by destruct (remove_frame fs (getl l h)) as (? & ? & ->).
  - apply Hupd; [apply st_empty|by rewrite empty_eq].
  - apply Hupd; [apply st_disable|done].
  - apply Hupd; [apply st_lock|by rewrite lock_eq].
  - apply evolving_bind; [by apply fireWith_evolving|intros; apply evolving_ret].
Qed.

Lemma run_prog_evolving exec p h :
  (forall o h, evolving' (exec o) h) -> evolving' (run_prog exec p) h.
Proof.
  intros He. revert h. induction p as [v|e|o k IHk hd IHh]; intros h; [apply evolving_ret|intros _; reflexivity|].
  specialize (He o h). unfold evolving', evolving in *. cbn [run_prog].
  destruct (exec o h) as [[v|e|] h']; cbn in *; [| |done]; intros Hn; (etrans; [by apply He|]).
  - by apply IHk.
  - by apply IHh.
Qed.

Lemma call_evolving fuel f this args h : evolving' (call list_opts user fuel f this args) h.
Proof.
  revert f this args h. induction fuel as [|fuel IH]; intros f this args h; [by intros []|].
  apply run_prog_evolving. intros o h'. by apply do_op_evolving.
Qed.

Lemma run_main_evolving fuel p h : evolving' (run_main list_opts user fuel p) h.
Proof. apply run_prog_evolving. intros o h'. apply do_op_evolving. intros. apply call_evolving. Qed.
End programs.
