(* ===== verification/CallbacksProps.v ===== *)
(** * The properties of callback lists

    Invariants of every program that uses callback lists, the order of calls, and
    removal while a list fires. *)

From S2P Require Import Prelude JsNum JsVal Callbacks CallbacksFacts.

(** ** The order of calls *)

Section order.
Context {L F V H : Type} `{EqDecision F}.
Context (get : L -> H -> cbs F V) (put : L -> cbs F V -> H -> H).
Hypothesis get_put : forall l c h, get l (put l c h) = c.
Hypothesis put_put : forall l c c' h, put l c (put l c' h) = put l c h.
Context (call : F -> V -> list V -> SM H V) (undef : V) (is_false : V -> bool).

(** A callback that leaves the list [l] alone and does not stop it. *)
Definition inert (l : L) (f : F) : Prop := forall this args h,
  exists v h', call f this args h = (Ok v, h') /\ get l h' = get l h
    /\ is_false v && o_stopOnFalse (opts (get l h)) = false.

(** The calls of [fs] on one context and arguments, in order, each while the
    list has its index; at the end the index is past the last. *)
Fixpoint call_all (l : L) (c : cbs F V) (i : Z) (fs : list F) (this : V) (args : list V) (h : H) : H :=
  match fs with
  | [] => put l (set_index i c) h
  | f :: fs' => call_all l c (i + 1) fs' this args (call f this args (put l (set_index i c) h)).2
  end.

Lemma fire_calls_inert fuel l fs pre this args c h :
  lst c = Some (pre ++ fs) -> memory c = Some (this, args) -> Forall (inert l) fs ->
  get l h = set_index (Z.of_nat (length pre) - 1) c -> (length fs < fuel)%nat ->
  fire_calls get put call undef is_false fuel l h
  = (Ok tt, call_all l c (Z.of_nat (length pre)) fs this args h).
Proof.
  intros Hl Hm Hin. revert fuel pre h Hl. induction fs as [|f fs IH]; intros fuel pre h Hl Hg Hfuel;
    (destruct fuel as [|fuel]; [cbn in Hfuel; lia|]); cbn [fire_calls call_all].
  all: set (h1 := put l (set_index (Z.of_nat (length pre)) c) h).
  all: assert (upd get put l (fun c => set_index (firingIndex c + 1) c) h = (Ok tt, h1)) as E1
    by (unfold upd, sm_mod, h1; rewrite Hg; cbn; by replace (Z.of_nat (length pre) - 1 + 1) with (Z.of_nat (length pre)) by lia).
  all: assert (get l h1 = set_index (Z.of_nat (length pre)) c) as Eg1 by (unfold h1; by rewrite get_put).
  all: rewrite (sm_bind_eq _ _ _ _ _ E1), (sm_bind_eq _ _ h1 (Ok (set_index (Z.of_nat (length pre)) c)) h1)
    by (unfold sm_get; by rewrite Eg1).
  all: cbn [firingIndex set_index lst memory opts]; rewrite (proj2 (Z.ltb_ge _ 0)) by lia.
  all: rewrite Hl, Nat2Z.id; cbn [default id].
  - rewrite app_nil_r, lookup_ge_None_2 by lia. done.
  - rewrite list_lookup_middle by done. rewrite Hm. cbn [default id].
    apply Forall_cons in Hin as [Hf Hin].
    destruct (Hf this args h1) as (v & h2 & Ec & Eg & Es). rewrite (sm_bind_eq _ _ _ _ _ Ec).
    rewrite Eg1 in Eg, Es. cbn [opts set_index] in Es. rewrite Es. cbn [sm_when].
    rewrite (sm_bind_eq _ _ h2 (Ok tt) h2) by done.
    rewrite (IH Hin fuel (pre ++ [f]) h2).
    + rewrite length_app. cbn [length]. rewrite Nat2Z.inj_add, Ec. done.
    + by rewrite Hl, <-app_assoc.
    + rewrite Eg, length_app. cbn [length]. f_equal. lia.
    + cbn in Hfuel. lia.
Qed.

(** The record of the list while [fire] runs it on [this] and [args], and after. *)
Definition running (c : cbs F V) (this : V) (args : list V) : cbs F V :=
  Cbs (opts c) true (Some (this, args)) true (locked c || o_once (opts c)) (lst c) [] (firingIndex c).

Definition after_run (c : cbs F V) (this : V) (args : list V) : cbs F V :=
  fire_end (set_index (-1) (running c this args)).

Lemma call_all_get l c i fs this args h :
  get l (call_all l c i fs this args h) = set_index (i + Z.of_nat (length fs)) c.
Proof.
  revert i h. induction fs as [|f fs IH]; intros i h; cbn [call_all length].
  - rewrite get_put. f_equal. lia.
  - rewrite IH. f_equal. lia.
Qed.

(** A firing of the functions from index [length pre] on: all of them are called. *)
Lemma fire_list_inert fuel l pre fs this args h :
  let c := get l h in
  lst c = Some (pre ++ fs) -> queue c = [(this, args)] -> Forall (inert l) fs ->
  firingIndex c = Z.of_nat (length pre) - 1 -> (S (length fs) < fuel)%nat ->
  fire_list get put call undef is_false fuel l h
  = (Ok tt, put l (after_run c this args)
              (call_all l (running c this args) (Z.of_nat (length pre)) fs this args
                (put l (running c this args) h))).
Proof.
  intros c Hl Hq Hin Hi Hfuel. unfold fire_list.
  rewrite (sm_bind_eq _ _ h (Ok tt) (put l (fire_start c) h)) by done.
  destruct fuel as [|fuel]; [lia|]. set (h1 := put l (running c this args) h).
  assert (fire_loop get put call undef is_false (S fuel) l (put l (fire_start c) h)
    = run_rest get put call undef is_false fuel l h1) as E1.
  { rewrite fire_loop_S, get_put. unfold next_run. cbn. rewrite Hq. by rewrite put_put. }
  assert (get l h1 = running c this args) as Eg by (unfold h1; by rewrite get_put).
  set (h2 := call_all l (running c this args) (Z.of_nat (length pre)) fs this args h1).
  assert (fire_calls get put call undef is_false fuel l h1 = (Ok tt, h2)) as E2.
  { apply fire_calls_inert; [done|done|done| |lia]. rewrite Eg. unfold running, set_index; cbn. by rewrite Hi. }
  assert (get l h2 = set_index (Z.of_nat (length pre) + Z.of_nat (length fs)) (running c this args)) as Eg2
    by apply call_all_get.
  rewrite (sm_bind_eq _ _ _ (Ok tt) (put l (set_index (-1) (running c this args)) h2)).
  - unfold upd, sm_mod. rewrite get_put, put_put. done.
  - rewrite E1. unfold run_rest. rewrite (sm_bind_eq _ _ _ _ _ E2).
    rewrite (sm_bind_eq _ _ h2 (Ok tt) (put l (set_index (-1) (running c this args)) h2))
      by (unfold upd, sm_mod; by rewrite Eg2).
    destruct fuel as [|fuel]; [lia|]. rewrite fire_loop_S, get_put. done.
Qed.

Lemma fire_in_order_aux fuel l fs this args h :
  let c := get l h in
  lst c = Some fs -> locked c = false -> firing c = false -> queue c = [] -> firingIndex c = -1 ->
  Forall (inert l) fs -> (S (length fs) < fuel)%nat ->
  fireWith get put call undef is_false fuel l this args h
  = (Ok tt, put l (after_run c this args)
              (call_all l (running c this args) 0 fs this args (put l (running c this args) h))).
Proof.
  intros c Hl Hk Hf Hq Hi Hin Hfuel. unfold fireWith.
  rewrite (sm_bind_eq _ _ h (Ok c) h) by done. rewrite Hk, Hf.
  set (c1 := set_queue (queue c ++ [(this, args)]) c).
  rewrite (sm_bind_eq _ _ h (Ok tt) (put l c1 h)) by done. cbn [negb sm_when].
  pose proof (fire_list_inert fuel l [] fs this args (put l c1 h)) as Hfire. cbv zeta in Hfire.
  rewrite !get_put, !put_put in Hfire. rewrite Hfire; try done. unfold c1; cbn. by rewrite Hq.
Qed.

(** Firing an idle list calls every callback once, in the order in which
    they were added, on the context and the arguments of the call, and then
    settles the state of the list; the bound that suffices is two more than the
    callbacks. *)
Theorem fire_in_order fuel l fs this args h :
  let c := get l h in
  lst c = Some fs -> locked c = false -> firing c = false -> queue c = [] -> firingIndex c = -1 ->
  Forall (inert l) fs -> (S (length fs) < fuel)%nat ->
  fireWith get put call undef is_false fuel l this args h
  = (Ok tt, put l (after_run c this args)
              (call_all l (running c this args) 0 fs this args (put l (running c this args) h))).
Proof. apply fire_in_order_aux. Qed.

(** Adding to a list that remembers a value and is not firing calls the
    functions added, and only these, once and in order, on the remembered context
    and arguments. *)
Theorem add_replays fuel l fs gs this args h :
  let c := get l h in
  lst c = Some fs -> memory c = Some (this, args) -> firing c = false -> queue c = [] ->
  o_unique (opts c) = false -> Forall (inert l) gs -> (S (length gs) < fuel)%nat ->
  let c1 := Cbs (opts c) false (memory c) (fired c) (locked c) (Some (fs ++ gs)) (queue c)
              (Z.of_nat (length fs) - 1) in
  add get put call undef is_false fuel l (List.map AFn gs) h
  = (Ok tt, put l (after_run c1 this args)
              (call_all l (running c1 this args) (Z.of_nat (length fs)) gs this args
                (put l (running c1 this args) h))).
Proof.
  intros c Hl Hm Hf Hq Hu Hin Hfuel c1. unfold add.
  rewrite (sm_bind_eq _ _ h (Ok c) h) by done. rewrite Hl.
  assert (add_pre (List.map AFn gs) c = set_queue [(this, args)] c1) as E1.
  { unfold add_pre. rewrite Hm, Hf, Hq, add_args_fns.
    rewrite fns_list_fns. unfold list_length. rewrite Hl. cbn [default id].
    rewrite add_fns_plain by done. unfold c1, set_queue, set_index, set_lst; cbn.
    by rewrite Hl, Hf.
  }
  rewrite (sm_bind_eq _ _ h (Ok tt) (put l (set_queue [(this, args)] c1) h)).
  - unfold replays. rewrite Hm, Hf. cbn [negb sm_when].
    pose proof (fire_list_inert fuel l fs gs this args (put l (set_queue [(this, args)] c1) h)) as Hfire.
    cbv zeta in Hfire. rewrite !get_put, !put_put in Hfire. by rewrite Hfire.
  - unfold upd, sm_mod. fold c. by rewrite E1.
Qed.
(** The same for callbacks that are inert only as long as an invariant holds,
    which may depend on the callbacks that are still to be called. *)
Section passes.
Context (l : L) (I : list F -> H -> Prop).
Hypothesis I_put : forall fs c h, I fs h -> I fs (put l c h).
Hypothesis I_call : forall f fs this args h, I (f :: fs) h ->
  exists v h', call f this args h = (Ok v, h') /\ get l h' = get l h /\ I fs h'
    /\ is_false v && o_stopOnFalse (opts (get l h)) = false.

Lemma fire_calls_pass fuel fs pre this args c h :
  lst c = Some (pre ++ fs) -> memory c = Some (this, args) ->
  get l h = set_index (Z.of_nat (length pre) - 1) c -> I fs h -> (length fs < fuel)%nat ->
  exists h', fire_calls get put call undef is_false fuel l h = (Ok tt, h')
    /\ get l h' = set_index (Z.of_nat (length (pre ++ fs))) c /\ I [] h'.
Proof.
  intros Hl Hm. revert fuel pre h Hl. induction fs as [|f fs IH]; intros fuel pre h Hl Hg HI Hfuel;
    (destruct fuel as [|fuel]; [cbn in Hfuel; lia|]); cbn [fire_calls].
  all: set (h1 := put l (set_index (Z.of_nat (length pre)) c) h).
  all: assert (upd get put l (fun c => set_index (firingIndex c + 1) c) h = (Ok tt, h1)) as E1
    by (unfold upd, sm_mod, h1; rewrite Hg; cbn; by replace (Z.of_nat (length pre) - 1 + 1) with (Z.of_nat (length pre)) by lia).
  all: assert (get l h1 = set_index (Z.of_nat (length pre)) c) as Eg1 by (unfold h1; by rewrite get_put).
  all: rewrite (sm_bind_eq _ _ _ _ _ E1), sm_get_bind, Eg1.
  all: cbn [firingIndex set_index lst memory opts]; rewrite (proj2 (Z.ltb_ge _ 0)) by lia.
  all: rewrite Hl, Nat2Z.id; cbn [default id].
  - rewrite app_nil_r, lookup_ge_None_2 by lia. exists h1. split_and!; [done|done|]. by apply I_put.
  - rewrite list_lookup_middle by done. rewrite Hm. cbn [default id].
    destruct (I_call f fs this args h1) as (v & h2 & Ec & Eg & HI2 & Es); [by apply I_put|].
    rewrite (sm_bind_eq _ _ _ _ _ Ec). rewrite Eg1 in Eg, Es. cbn [opts set_index] in Es. rewrite Es. cbn [sm_when].
    rewrite sm_ret_bind. destruct (IH fuel (pre ++ [f]) h2) as (h' & E' & Eg' & HI').
    + by rewrite Hl, <-app_assoc.
    + rewrite Eg, length_app. cbn [length]. f_equal. lia.
    + done.
    + cbn in Hfuel. lia.
    + exists h'. split_and!; [done| |done]. rewrite Eg'. by rewrite <-app_assoc.
Qed.

(** The firing itself, from index [length pre] on. *)
Lemma fire_list_pass fuel pre fs this args h :
  let c := get l h in
  lst c = Some (pre ++ fs) -> queue c = [(this, args)] -> firingIndex c = Z.of_nat (length pre) - 1 ->
  I fs h -> (S (length fs) < fuel)%nat ->
  exists h', fire_list get put call undef is_false fuel l h = (Ok tt, h')
    /\ get l h' = after_run c this args /\ I [] h'.
Proof.
  intros c Hl Hq Hi HI Hfuel. unfold fire_list.
  rewrite (sm_bind_eq _ _ _ (Ok tt) (put l (fire_start c) h)) by done.
  destruct fuel as [|fuel]; [lia|]. set (h1 := put l (running c this args) h).
  assert (fire_loop get put call undef is_false (S fuel) l (put l (fire_start c) h)
    = run_rest get put call undef is_false fuel l h1) as E1.
  { rewrite fire_loop_S, get_put. unfold next_run. cbn. rewrite Hq. cbn. by rewrite put_put. }
  destruct (fire_calls_pass fuel fs pre this args (running c this args) h1) as (h2 & E2 & Eg2 & HI2).
  { done. } { done. } { unfold h1. rewrite get_put. unfold running, set_index. cbn. by rewrite Hi. }
  { by apply I_put. } { lia. }
  set (h3 := put l (set_index (-1) (running c this args)) h2).
  assert (fire_loop get put call undef is_false (S fuel) l (put l (fire_start c) h) = (Ok tt, h3)) as E3.
  { rewrite E1. unfold run_rest. rewrite (sm_bind_eq _ _ _ _ _ E2).
    rewrite (sm_bind_eq _ _ h2 (Ok tt) h3) by (unfold upd, sm_mod, h3; by rewrite Eg2).
    destruct fuel as [|fuel]; [lia|]. unfold h3. by rewrite fire_loop_S, get_put. }
  rewrite (sm_bind_eq _ _ _ _ _ E3). eexists. split; [reflexivity|]. unfold h3. rewrite !get_put.
  split; [done|]. by apply I_put, I_put.
Qed.

Lemma fire_pass fuel fs this args h :
  let c := get l h in
  lst c = Some fs -> locked c = false -> firing c = false -> queue c = [] -> firingIndex c = -1 ->
  I fs h -> (S (length fs) < fuel)%nat ->
  exists h', fireWith get put call undef is_false fuel l this args h = (Ok tt, h')
    /\ get l h' = after_run c this args /\ I [] h'.
Proof.
  intros c Hl Hk Hf Hq Hi HI Hfuel. unfold fireWith. rewrite sm_get_bind. fold c. rewrite Hk, Hf.
  set (c1 := set_queue (queue c ++ [(this, args)]) c).
  rewrite (sm_bind_eq _ _ h (Ok tt) (put l c1 h)) by done. cbn [negb sm_when].
  destruct (fire_list_pass fuel [] fs this args (put l c1 h)) as (h' & E & Eg & HI');
    rewrite ?get_put in *; [done|unfold c1; cbn; by rewrite Hq|done|by apply I_put|done|]. by exists h'.
Qed.

(** Adding to a list that remembers a value and is not firing. *)
Lemma add_pass fuel fs gs this args h :
  let c := get l h in
  lst c = Some fs -> memory c = Some (this, args) -> firing c = false -> queue c = [] -> o_unique (opts c) = false ->
  I (fns_list gs) h -> (S (length (fns_list gs)) < fuel)%nat ->
  exists h', add get put call undef is_false fuel l gs h = (Ok tt, h') /\ I [] h'.
Proof.
  intros c Hl Hm Hf Hq Hu HI Hfuel. unfold add. rewrite sm_get_bind. fold c. rewrite Hl.
  assert (add_pre gs c = Cbs (opts c) false (memory c) (fired c) (locked c) (Some (fs ++ fns_list gs)) [(this, args)] (Z.of_nat (length fs) - 1)) as E1.
  { unfold add_pre. rewrite Hm, Hf, Hq, add_args_fns. unfold list_length. rewrite Hl. cbn [default id].
    rewrite add_fns_plain by done. unfold set_queue, set_index, set_lst; cbn. by rewrite Hl, Hf, Hm. }
  set (c1 := Cbs _ _ _ _ _ _ _ _) in E1. rewrite (sm_bind_eq _ _ h (Ok tt) (put l c1 h)) by (unfold upd, sm_mod; fold c; by rewrite E1).
  unfold replays. rewrite Hm, Hf. cbn [negb sm_when].
  destruct (fire_list_pass fuel fs (fns_list gs) this args (put l c1 h)) as (h' & E & Eg & HI');
    rewrite ?get_put in *; [done|done|done|by apply I_put|done|]. by exists h'.
Qed.
End passes.
End order.

(** ** Removal while the list fires *)

Section removal.
Context {F V : Type} `{EqDecision F}.

Abbreviation others f := (List.filter (fun x => negb (bool_decide (x = f)))).

Lemma remove_go_before (f : F) l i fi : fi < Z.of_nat i -> snd (remove_go f l i fi) = fi.
Proof.
  revert i; induction l as [|x l IH]; intros i Hi; cbn [remove_go]; [done|].
  destruct (decide (x = f)).
  - rewrite (proj2 (Z.leb_gt _ _)) by lia. by apply IH.
  - specialize (IH (S i) ltac:(lia)). by destruct (remove_go f l (S i) fi).
Qed.

Lemma remove_go_index (f : F) l i n : (n <= length l)%nat ->
  snd (remove_go f l i (Z.of_nat i + Z.of_nat n - 1))
  = Z.of_nat i + Z.of_nat (length (others f (take n l))) - 1.
Proof.
  revert i n. induction l as [|x l IH]; intros i n Hn; [destruct n; [done|cbn in Hn; lia]|].
  destruct n as [|n]; [by rewrite remove_go_before by lia|].
  cbn [take List.filter length remove_go] in *. destruct (decide (x = f)) as [->|Hx].
  - rewrite bool_decide_true by done. cbn [negb]. rewrite (proj2 (Z.leb_le _ _)) by lia.
    rewrite <-IH by lia. do 2 f_equal. lia.
  - rewrite bool_decide_false by done. cbn [negb length]. specialize (IH (S i) n ltac:(lia)).
    replace (Z.of_nat i + Z.of_nat (S n) - 1) with (Z.of_nat (S i) + Z.of_nat n - 1) by lia.
    destruct (remove_go f l (S i) _) as [r fi']. cbn [snd] in *. lia.
Qed.

(** [remove] while the list fires, after the callbacks up to the firing
    index were called: of those called and of those still to be called exactly
    the functions removed disappear, and the index moves so that the next call
    is the first of the remaining ones: nobody is skipped or called again. *)
Theorem remove_while_firing (c : cbs F V) l fs n :
  lst c = Some l -> (n <= length l)%nat -> firingIndex c = Z.of_nat n - 1 ->
  exists l' n', lst (remove fs c) = Some l' /\ firingIndex (remove fs c) = Z.of_nat n' - 1
    /\ take n' l' = List.filter (fun x => negb (bool_decide (x ∈ fs))) (take n l)
    /\ drop n' l' = List.filter (fun x => negb (bool_decide (x ∈ fs))) (drop n l).
Proof.
  unfold remove. revert c l n. induction fs as [|f fs IH]; intros c l n Hl Hn Hi; cbn [fold_left].
  - exists l, n. split_and!; [done|done|symmetry; apply filter_true|symmetry; apply filter_true].
  - pose proof (remove_go_index f l 0 n Hn) as H1. cbn [Z.of_nat] in H1. rewrite Z.add_0_l in H1.
    pose proof (remove_go_filter f l 0 (firingIndex c)) as H2.
    destruct (remove_go f l 0 (firingIndex c)) as [r fi] eqn:Er. cbn [fst] in H2.
    rewrite <-Hi, Er in H1. cbn [snd] in H1.
    set (n1 := length (others f (take n l))) in *.
    assert (r = others f (take n l) ++ others f (drop n l)) as Hr
      by (rewrite H2, <-List.filter_app, take_drop; done).
    destruct (IH (remove_one c f) r n1) as (l' & n' & E1 & E2 & E3 & E4).
    + unfold remove_one. rewrite Hl, Er. done.
    + rewrite Hr, length_app. unfold n1. lia.
    + unfold remove_one. rewrite Hl, Er. cbn. lia.
    + exists l', n'. split_and!; [done|done|..].
      * rewrite E3, Hr, take_app_length', filter_filter by done. apply List.filter_ext. intros x.
        rewrite <-negb_orb, <-bool_decide_or. f_equal. apply bool_decide_ext. by rewrite elem_of_cons.
      * rewrite E4, Hr, drop_app_length', filter_filter by done. apply List.filter_ext. intros x.
        rewrite <-negb_orb, <-bool_decide_or. f_equal. apply bool_decide_ext. by rewrite elem_of_cons.
Qed.
End removal.

(** ** Every program *)

Section programs.
Context (list_opts : nat -> options) (user : N -> jsval -> list jsval -> prog).

Abbreviation getl := (get_list list_opts).
Abbreviation main := (run_main list_opts user).
Abbreviation exec_op := (exec list_opts user).

Lemma main_steps fuel p h l : (main fuel p h).1 <> NoFuel -> rtc cstep (getl l h) (getl l (main fuel p h).2).
Proof. intros Hn. by apply run_main_evolving. Qed.

(** A list created with [unique] never holds a function twice, whatever a
    program does. *)
Theorem unique_no_duplicates fuel p h l :
  (main fuel p h).1 <> NoFuel -> unique_inv (getl l h) -> unique_inv (getl l (main fuel p h).2).
Proof. intros Hn. apply steps_inv; [apply unique_step|by apply main_steps]. Qed.

(** A list with [once] and [memory], as those of a Deferred, that has not
    fired: after it is fired with a context and arguments, and whatever callbacks
    and the rest of the program do then, the list is locked and remembers exactly
    these, or was disabled; another firing does nothing. *)
Theorem once_memory_settles fuel l context args p h :
  let c := getl l h in let h1 := (exec_op fuel (OFireWith l context args) h).2 in
  o_once (opts c) = true -> o_memory (opts c) = true -> o_stopOnFalse (opts c) = false ->
  locked c = false -> firing c = false -> queue c = [] ->
  (exec_op fuel (OFireWith l context args) h).1 <> NoFuel -> (main fuel p h1).1 <> NoFuel ->
  settled_on (context, args) (getl l (main fuel p h1).2)
  /\ forall context' args', exec_op fuel (OFireWith l context' args') (main fuel p h1).2
                           = (Ok VUndef, (main fuel p h1).2).
Proof.
  intros c h1 Ho Hm Hs Hk Hf Hq Hn1 Hn2.
  assert (settled_on (context, args) (getl l h1)) as Hs1.
  { pose proof (fireWith_settles getl put_list (get_put_list _) (get_put_list_ne _)
      (call list_opts user fuel) VUndef is_false (call_evolving list_opts user fuel) fuel l context args h
      Ho Hm Hs Hk Hf Hq) as Hset.
    unfold h1, exec, do_op in *. unfold mbind, sm_bind in *.
    destruct (fireWith _ _ _ _ _ _ _ _ _ h) as [[[]|e|] h']; by apply Hset. }
  assert (settled_on (context, args) (getl l (main fuel p h1).2)) as Hs2
    by (eapply steps_inv; [intros; by eapply settled_step|by apply main_steps|done]).
  split; [done|]. intros context' args'. destruct Hs2 as (_ & _ & Hk2 & _).
  unfold exec, do_op, fireWith. set (h2 := (main fuel p h1).2) in *.
  unfold mbind, sm_bind, sm_get. by rewrite Hk2.
Qed.

(** A disabled list stays empty, forgetful and locked whatever the program
    does, and neither [add] nor [fireWith] has any effect on the lists. *)
Theorem disabled_forever fuel l p h :
  let h1 := (exec_op fuel (ODisable l) h).2 in let h2 := (main fuel p h1).2 in
  (main fuel p h1).1 <> NoFuel ->
  dead (getl l h2)
  /\ (forall args, exec_op fuel (OAdd l args) h2 = (Ok VUndef, h2))
  /\ (forall context args, exec_op fuel (OFireWith l context args) h2 = (Ok VUndef, h2)).
Proof.
  intros h1 h2 Hn.
  assert (dead (getl l h1)) as Hd1.
  { unfold h1, exec, do_op, upd_list, mbind, sm_bind, upd, sm_mod. cbn. by rewrite get_put_list. }
  assert (dead (getl l h2)) as Hd2 by (eapply dead_steps; [by apply main_steps|done]).
  split; [done|]. destruct Hd2 as (Hl & _ & Hk & _). split; intros.
  - unfold exec, do_op, add, mbind, sm_bind, sm_get. by rewrite Hl.
  - unfold exec, do_op, fireWith, mbind, sm_bind, sm_get. by rewrite Hk.
Qed.

(** C14: a callback that throws freezes its list.  When [fireWith] throws, the
    list is marked as firing, and stays so whatever the program does later; from
    then on [fireWith] calls nobody: it only queues its value or, on a locked
    list, does nothing. *)
Theorem exception_freezes fuel l context args p h e :
  let h1 := (exec_op fuel (OFireWith l context args) h).2 in let h2 := (main fuel p h1).2 in
  (exec_op fuel (OFireWith l context args) h).1 = Throw e -> (main fuel p h1).1 <> NoFuel ->
  firing (getl l h2) = true
  /\ forall context' args', exec_op fuel (OFireWith l context' args') h2
       = (Ok VUndef, if locked (getl l h2) then h2
                     else put_list l (set_queue (queue (getl l h2) ++ [(context', args')]) (getl l h2)) h2).
Proof.
  intros h1 h2 Ht Hn.
  assert (firing (getl l h1) = true) as Hf1.
  { pose proof (fireWith_throw getl put_list (get_put_list _) (get_put_list_ne _)
      (call list_opts user fuel) VUndef is_false (call_evolving list_opts user fuel)
      fuel l context args h) as Hf.
    unfold h1, exec, do_op in *. unfold mbind, sm_bind in *.
    destruct (fireWith _ _ _ _ _ _ _ _ _ h) as [[[]|e'|] h']; try done. by apply (Hf e'). }
  assert (firing (getl l h2) = true) as Hf2 by (by apply run_main_evolving).
  split; [done|]. intros context' args'. unfold exec, do_op, fireWith, mbind, sm_bind, sm_get.
  destruct (locked (getl l h2)); [done|]. by rewrite Hf2.
Qed.
End programs.

(** ** Callbacks that use the list that calls them *)

(** One list and a log of the calls. *)
Definition logged : Type := cbs N jsval * list (N * list jsval).
Definition log_get (l : unit) (h : logged) : cbs N jsval := h.1.
Definition log_put (l : unit) (c : cbs N jsval) (h : logged) : logged := (c, h.2).

(** What a callback does with the list that fires it. *)
Inductive action :=
  | DoFire (args : list jsval)
  | DoAdd (f : N)
  | DoRemove (f : N)
  | DoLock.

(** The specification keeps lists of work and no index: the functions of the
    list, those that are still to be called on the value at hand, and the values
    that are still to be fired. *)
Record work := Work {
  w_all : list N;
  w_todo : list N;
  w_pending : list (list jsval);
  w_memory : option (list jsval);
  w_locked : bool
}.

Definition without (f : N) : list N -> list N := List.filter (fun g => negb (bool_decide (g = f))).

Definition spec_action (o : options) (w : work) (a : action) : work :=
  let 'Work all todo pending memory locked := w in
  match a with
  | DoFire v => if locked then w else Work all todo (pending ++ [v]) memory locked
  | DoAdd f =>
      if o_unique o && bool_decide (f ∈ all) then w
      else Work (all ++ [f]) (todo ++ [f]) pending memory locked
  | DoRemove f => Work (without f all) (without f todo) pending memory locked
  | DoLock => Work all todo [] memory true
  end.

Section reactions.
(** What each callback does, in order, when it is called on arguments, and
    whether it answers [false]. *)
Context (o : options) (react : N -> list jsval -> list action) (refuses : N -> list jsval -> bool).

(** One value: call the functions to do, until there are none; [m] bounds the
    calls.  The calls are logged. *)
Fixpoint spec_pass (m : nat) (v : list jsval) (w : work) (log : list (N * list jsval)) :
    option (work * list (N * list jsval)) :=
  match m with
  | O => None
  | S m' =>
      match w_todo w with
      | [] => Some (w, log)
      | f :: todo =>
          let w1 := fold_left (spec_action o) (react f v)
                      (Work (w_all w) todo (w_pending w) (w_memory w) (w_locked w)) in
          let w2 := if refuses f v && o_stopOnFalse o
                    then Work (w_all w1) [] (w_pending w1) None (w_locked w1) else w1 in
          spec_pass m' v w2 (log ++ [(f, v)])
      end
  end.

(** The values, first come first served. *)
Fixpoint spec_fire (m : nat) (w : work) (log : list (N * list jsval)) :
    option (work * list (N * list jsval)) :=
  match m with
  | O => None
  | S m' =>
      match w_pending w with
      | [] => Some (w, log)
      | v :: pending =>
          r ← spec_pass m' v (Work (w_all w) (w_all w) pending (Some v) (w_locked w)) log;
          spec_fire m' r.1 r.2
      end
  end.

(** The list after a firing. *)
Definition spec_end (w : work) : cbs N jsval :=
  let memory := if o_memory o then w_memory w else None in
  Cbs o false ((fun v => (VUndef, v)) <$> memory) true (w_locked w)
    (if w_locked w then match memory with Some _ => Some [] | None => None end else Some (w_all w))
    [] (-1).

(** The code: callbacks that log their call and act on the list. *)
Definition perform (self : N -> jsval -> list jsval -> SM logged jsval) (n : nat) (a : action) : SM logged unit :=
  match a with
  | DoFire v => fireWith log_get log_put self VUndef is_false n tt VUndef v
  | DoAdd f => add log_get log_put self VUndef is_false n tt [AFn f]
  | DoRemove f => upd log_get log_put tt (remove [f])
  | DoLock => upd log_get log_put tt lock
  end.

Fixpoint script (n : nat) (f : N) (this : jsval) (args : list jsval) : SM logged jsval :=
  match n with
  | O => sm_lift NoFuel
  | S n' =>
      sm_mod (fun h => (h.1, h.2 ++ [(f, args)])) ;;
      sm_each (perform (script n') n') (react f args) ;;
      mret (VBool (negb (refuses f args)))
  end.

(** A list that fires, [n] of whose functions have been called, against the work. *)
Record working (n : nat) (c : cbs N jsval) (w : work) : Prop := {
  wk_opts : opts c = o;
  wk_firing : firing c = true;
  wk_fired : fired c = true;
  wk_memory : memory c = (fun v => (VUndef, v)) <$> w_memory w;
  wk_locked : locked c = w_locked w;
  wk_lst : lst c = Some (w_all w);
  wk_queue : queue c = List.map (fun v => (VUndef, v)) (w_pending w);
  wk_index : firingIndex c = Z.of_nat n - 1;
  wk_bound : (n <= length (w_all w))%nat;
  wk_todo : w_todo w = drop n (w_all w)
}.

Lemma remove_working n f c w : working n c w ->
  exists n', working n' (remove [f] c) (spec_action o w (DoRemove f)).
Proof.
  intros [Ho Hf Hd Hm Hk Hl Hq Hi Hb Ht]. destruct w as [all todo pending memory locked]. cbn in *.
  exists (length (without f (take n all))).
  pose proof (remove_go_index f all 0 n Hb) as H1. cbn [Z.of_nat] in H1. rewrite Z.add_0_l in H1.
  pose proof (remove_go_filter f all 0 (firingIndex c)) as H2. unfold remove_one. rewrite Hl.
  rewrite Hi in *. destruct (remove_go f all 0 _) as [r fi]. cbn [fst snd] in *. subst r fi todo.
  assert (without f all = without f (take n all) ++ without f (drop n all)) as E
    by (unfold without; by rewrite <-List.filter_app, take_drop).
  split; cbn; try done.
  - rewrite E, length_app. lia.
  - by rewrite E, drop_app_length.
Qed.

Lemma action_working self d n c w a log : working n c w ->
  exists n' c', perform self d a (c, log) = (Ok tt, (c', log)) /\ working n' c' (spec_action o w a)
    /\ w_memory (spec_action o w a) = w_memory w.
Proof.
  intros Hw. destruct a as [v|f|f|]; cbn [perform].
  - destruct Hw as [Ho Hf Hd Hm Hk Hl Hq Hi Hb Ht]. destruct w as [all todo pending memory locked]. cbn in *.
    unfold fireWith. rewrite sm_get_bind. cbn [log_get fst]. rewrite Hk.
    destruct locked; [by exists n, c|]. eexists n, _. split; [unfold mbind, sm_bind, upd, sm_mod; cbn; by rewrite Hf|].
    split; [|done]. split; cbn; try done. by rewrite Hq, List.map_app.
  - destruct Hw as [Ho Hf Hd Hm Hk Hl Hq Hi Hb Ht]. destruct w as [all todo pending memory locked]. cbn in *.
    unfold add. rewrite sm_get_bind. cbn [log_get fst]. rewrite Hl.
    assert (add_pre [AFn f] c = add_one f c) as Ep by (unfold add_pre; rewrite Hf; by destruct (Callbacks.memory c)).
    eexists n, _. split.
    { unfold mbind, sm_bind, upd, sm_mod. cbn [log_get log_put fst snd]. rewrite Ep. unfold replays. rewrite Hf.
      by destruct (Callbacks.memory c). }
    unfold add_one, has_fn. rewrite Ho, Hl. cbn [default id].
    destruct (o_unique o && bool_decide (f ∈ all)) eqn:Eu.
    + rewrite <-negb_andb, Eu. cbn. split; [|done]. by split.
    + rewrite <-negb_andb, Eu. cbn. split; [|done]. split; cbn; try done.
      * rewrite length_app. lia.
      * by rewrite Ht, drop_app_le.
  - destruct (remove_working n f c w Hw) as (n' & Hw'). exists n', (remove [f] c).
    split_and!; [done|done|by destruct w].
  - destruct Hw as [Ho Hf Hd Hm Hk Hl Hq Hi Hb Ht]. destruct w as [all todo pending memory locked]. cbn in *.
    exists n, (lock c). split_and!; [done| |done]. unfold lock. destruct c; cbn in *. subst.
    by destruct memory.
Qed.

Lemma actions_working self d n c w l log : working n c w ->
  exists n' c', sm_each (perform self d) l (c, log) = (Ok tt, (c', log))
    /\ working n' c' (fold_left (spec_action o) l w)
    /\ w_memory (fold_left (spec_action o) l w) = w_memory w.
Proof.
  revert n c w. induction l as [|a l IH]; intros n c w Hw; [by exists n, c|]. cbn [sm_each fold_left].
  destruct (action_working self d n c w a log Hw) as (n1 & c1 & E1 & Hw1 & M1).
  rewrite (sm_bind_eq _ _ _ _ _ E1). destruct (IH n1 c1 _ Hw1) as (n2 & c2 & E2 & Hw2 & M2).
  exists n2, c2. split_and!; [done..|]. by rewrite M2.
Qed.

(** Back at the head of the outer loop. *)
Definition restart (w : work) : work :=
  Work (w_all w) (w_all w) (w_pending w) (w_memory w) (w_locked w).

Lemma restart_working n c w i : working n c w -> working 0 (set_index (-1) (set_index i c)) (restart w).
Proof. intros []. split; cbn; try done. lia. Qed.

Lemma index_back (i : Z) (c : cbs N jsval) : set_index (firingIndex c) (set_index i c) = c.
Proof. by destruct c. Qed.

(** A stopped list: the next turn of the loop is the last. *)
Lemma stop_working self n m c w log : working n c w ->
  exists c', fire_calls log_get log_put self VUndef is_false (S m) tt (stop_run c, log) = (Ok tt, (c', log))
    /\ working 0 (set_index (-1) c') (restart (Work (w_all w) [] (w_pending w) None (w_locked w))).
Proof.
  intros Hw. pose proof Hw as [_ _ _ _ _ Hl _ _ _ _]. cbn [fire_calls].
  eexists. split.
  - unfold mbind, sm_bind, upd, sm_mod, sm_get. cbn. unfold list_length. rewrite Hl. cbn.
    rewrite (proj2 (Z.ltb_ge _ 0)) by lia. rewrite lookup_ge_None_2 by lia. done.
  - destruct Hw. split; cbn; try done. lia.
Qed.

Lemma pass_working m d n c w v log w' out :
  working n c w -> w_memory w = Some v ->
  spec_pass m v w log = Some (w', out) ->
  exists c', fire_calls log_get log_put (script (S d)) VUndef is_false m tt (c, log) = (Ok tt, (c', out))
    /\ working 0 (set_index (-1) c') (restart w').
Proof.
  revert n c w log. induction m as [|m IH]; intros n c w log Hw Hm Hs; [done|].
  pose proof Hw as [Ho Hf Hd Hmem Hk Hl Hq Hi Hb Ht]. cbn [spec_pass] in Hs. cbn [fire_calls].
  set (c1 := set_index (Z.of_nat n) c).
  assert (upd log_get log_put tt (fun c => set_index (firingIndex c + 1) c) (c, log) = (Ok tt, (c1, log))) as E1.
  { unfold upd, sm_mod, c1. cbn. rewrite Hi. by replace (Z.of_nat n - 1 + 1) with (Z.of_nat n) by lia. }
  rewrite (sm_bind_eq _ _ _ _ _ E1), sm_get_bind. cbn [log_get fst firingIndex set_index c1 lst memory opts].
  rewrite (proj2 (Z.ltb_ge _ 0)), Hl, Nat2Z.id by lia. cbn [default id].
  destruct (w_todo w) as [|f todo] eqn:Et.
  - injection Hs as <- <-. rewrite lookup_ge_None_2 by (apply (f_equal length) in Ht; rewrite length_drop in Ht; cbn in Ht; lia).
    exists c1. split; [done|]. by eapply restart_working.
  - assert (w_all w !! n = Some f) as ->.
    { rewrite <-(Nat.add_0_r n), <-lookup_drop, <-Ht. done. }
    rewrite Hmem, Hm. cbn [fmap option_fmap option_map default id].
    set (w0 := Work (w_all w) todo (w_pending w) (w_memory w) (w_locked w)) in *.
    assert (working (S n) c1 w0) as Hw1.
    { split; cbn; try done; [lia| |].
      - apply (f_equal length) in Ht. rewrite length_drop in Ht. cbn in Ht. lia.
      - by rewrite <-Nat.add_1_r, <-drop_drop, <-Ht. }
    destruct (actions_working (script d) d (S n) c1 w0 (react f v) (log ++ [(f, v)]) Hw1)
      as (n2 & c2 & E2 & Hw2 & M2).
    set (w1 := fold_left (spec_action o) (react f v) w0) in *.
    assert (script (S d) f VUndef v (c1, log) = (Ok (VBool (negb (refuses f v))), (c2, log ++ [(f, v)]))) as E3.
    { cbn [script]. rewrite (sm_bind_eq _ _ _ (Ok tt) (c1, log ++ [(f, v)])) by done.
      by rewrite (sm_bind_eq _ _ _ _ _ E2). }
    rewrite (sm_bind_eq _ _ _ _ _ E3). cbn [is_false]. rewrite Ho.
    replace (if negb (refuses f v) then false else true) with (refuses f v) by (by destruct (refuses f v)).
    destruct (refuses f v && o_stopOnFalse o) eqn:Er; cbn [sm_when].
    + rewrite (sm_bind_eq _ _ _ (Ok tt) (stop_run c2, log ++ [(f, v)])) by done.
      destruct m as [|m]; [done|]. cbn in Hs. injection Hs as <- <-. by apply (stop_working _ n2).
    + rewrite sm_ret_bind. apply (IH n2 c2 w1 (log ++ [(f, v)]) Hw2); [by rewrite M2|done].
Qed.

Lemma loop_working m d c w log w' out :
  working 0 c (restart w) -> spec_fire m w log = Some (w', out) ->
  exists c', fire_loop log_get log_put (script (S d)) VUndef is_false m tt (c, log) = (Ok tt, (c', out))
    /\ working 0 c' (restart w') /\ w_pending w' = [].
Proof.
  revert c w log. induction m as [|m IH]; intros c w log Hw Hs; [done|].
  pose proof Hw as [Ho Hf Hd Hmem Hk Hl Hq Hi Hb Ht]. cbn [spec_fire] in Hs. cbn [fire_loop].
  rewrite sm_get_bind. cbn [log_get fst]. unfold next_run. rewrite Hq.
  destruct w as [all todo [|v pending] memory locked]; cbn in *.
  - injection Hs as <- <-. by exists c.
  - destruct (spec_pass m v _ log) as [[w1 log1]|] eqn:Ep; [|done]. cbn in Hs.
    set (c1 := set_memory (Some (VUndef, v)) (set_queue (List.map (fun v => (VUndef, v)) pending) c)).
    rewrite (sm_bind_eq _ _ _ (Ok tt) (c1, log)) by done.
    destruct (pass_working m d 0 c1 (Work all all pending (Some v) locked) v log w1 log1) as (c2 & E2 & Hw2);
      [by split|done|done|].
    rewrite (sm_bind_eq _ _ _ _ _ E2).
    rewrite (sm_bind_eq _ _ _ (Ok tt) (set_index (-1) c2, log1)) by done.
    by eapply IH.
Qed.

Lemma refire_working fuel d (fs : list N) v last c log w out :
  opts c = o -> firing c = false -> locked c = false -> lst c = Some fs -> queue c = [] -> firingIndex c = -1 ->
  memory c = (fun v => (VUndef, v)) <$> last ->
  spec_fire fuel (Work fs fs [v] last (o_once o)) log = Some (w, out) ->
  fireWith log_get log_put (script (S d)) VUndef is_false fuel tt VUndef v (c, log)
  = (Ok tt, (spec_end w, out)).
Proof.
  intros Ho Hf Hk Hl Hq Hi Hm Hs. unfold fireWith. rewrite sm_get_bind. cbn [log_get fst]. rewrite Hk.
  set (c1 := set_queue (queue c ++ [(VUndef, v)]) c).
  rewrite (sm_bind_eq _ _ _ (Ok tt) (c1, log)) by done. rewrite Hf. cbn [negb sm_when]. unfold fire_list.
  rewrite (sm_bind_eq _ _ _ (Ok tt) (fire_start c1, log)) by done.
  assert (working 0 (fire_start c1) (restart (Work fs fs [v] last (o_once o)))) as Hw.
  { unfold c1. split; cbn; try done; [by rewrite Hk, Ho|by rewrite Hq|lia]. }
  destruct (loop_working fuel d _ _ log w out Hw Hs) as (c2 & E2 & Hw2 & Hp).
  rewrite (sm_bind_eq _ _ _ _ _ E2). unfold upd, sm_mod. cbn [log_get log_put fst snd].
  do 2 f_equal. rewrite fire_end_eq. unfold kept, spec_end.
  destruct Hw2 as [Ho2 _ Hd2 Hm2 Hk2 Hl2 Hq2 Hi2 _ _]. cbn in *. rewrite Hp in Hq2. cbn in Hq2.
  rewrite Ho2, Hd2, Hm2, Hk2, Hl2, Hq2, Hi2.
  destruct (o_memory o), (w_memory w), (w_locked w); done.
Qed.

(** C13: a callback may use the list that is calling it. Whatever the callbacks of a list do
    when they are called (fire it again, add to it, remove from it, lock it, answer
    [false]), in whatever order, if they do not throw, use no other list, and the
    specification comes to an end, firing an idle list calls exactly the functions of the
    specification, in its order, and leaves the list as it says: the values are fired first
    come first served, never one inside another, each through all functions that are in the
    list when their turn comes; a function added while a value is fired is called on it, at
    the end; a function that is removed is called no more and no other is skipped or called
    twice; after [lock], or a firing with [once], no further value is taken; and an answer
    [false] ends the value under [stopOnFalse]. The bound on the turns of the
    specification's loops is enough for the code. *)
Theorem refire_in_order fuel d (fs : list N) v last c w out :
  opts c = o -> firing c = false -> locked c = false -> lst c = Some fs -> queue c = [] -> firingIndex c = -1 ->
  memory c = (fun v => (VUndef, v)) <$> last ->
  spec_fire fuel (Work fs fs [v] last (o_once o)) [] = Some (w, out) ->
  fireWith log_get log_put (script (S d)) VUndef is_false fuel tt VUndef v (c, [])
  = (Ok tt, (spec_end w, out)).
Proof. apply refire_working. Qed.

End reactions.

(** ** Concrete instances *)

Definition log_call (f : N) (this : jsval) (args : list jsval) : SM logged jsval :=
  fun h => (Ok VUndef, (h.1, h.2 ++ [(f, args)])).

Definition seven : list jsval := [VNum (Fin 7)].

Lemma log_inert l fs : Forall (inert log_get log_call is_false l) fs.
Proof.
  apply Forall_forall. intros f _ this args h. by exists VUndef, (h.1, h.2 ++ [(f, args)]).
Qed.

Definition idle_list : cbs N jsval := set_lst (Some [1; 2]%N) (new_cbs (createOptions (str "memory"))).

Example fire_in_order_witness :
  snd (fireWith log_get log_put log_call VUndef is_false 4 tt VUndef seven (idle_list, [])).2
  = [(1%N, seven); (2%N, seven)].
Proof.
  rewrite (fire_in_order log_get log_put (fun _ _ _ => eq_refl) (fun _ _ _ _ => eq_refl) log_call VUndef
    is_false 4 tt [1; 2]%N VUndef seven (idle_list, []) eq_refl eq_refl eq_refl eq_refl eq_refl
    (log_inert _ _) ltac:(cbn; lia)).
  reflexivity.
Defined.

Example add_replays_witness :
  snd (add log_get log_put log_call VUndef is_false 4 tt (List.map AFn [3%N])
    (set_memory (Some (VUndef, seven)) idle_list, [])).2 = [(3%N, seven)].
Proof.
  rewrite (add_replays log_get log_put (fun _ _ _ => eq_refl) (fun _ _ _ _ => eq_refl) log_call VUndef
    is_false 4 tt [1; 2]%N [3]%N VUndef seven (set_memory (Some (VUndef, seven)) idle_list, [])
    eq_refl eq_refl eq_refl eq_refl eq_refl (log_inert _ _) ltac:(cbn; lia)).
  reflexivity.
Defined.

Example remove_while_firing_witness :
  exists n', lst (remove [1; 3]%N (set_index 1 (set_lst (Some [1; 2; 3; 4]%N) idle_list))) = Some [2; 4]%N
    /\ firingIndex (remove [1; 3]%N (set_index 1 (set_lst (Some [1; 2; 3; 4]%N) idle_list))) = Z.of_nat n' - 1
    /\ drop n' [2; 4]%N = [4]%N.
Proof.
  destruct (remove_while_firing (set_index 1 (set_lst (Some [1; 2; 3; 4]%N) idle_list)) [1; 2; 3; 4]%N
    [1; 3]%N 2 eq_refl ltac:(cbn; lia) eq_refl) as (l' & n' & Hl & Hi & _ & Hd).
  exists n'. split; [reflexivity|]. split; [exact Hi|]. by injection Hl as <-.
Defined.

(** Function 1, called with arguments, fires its list again without and adds function 2; 2 asks whether it is in
    the list; 3 throws. *)
Definition demo_user (f : N) (this : jsval) (args : list jsval) : prog :=
  match f with
  | 1%N =>
      match args with
      | [] => PRet VUndef
      | _ => POp (OFireWith 0 VUndef []) (fun _ => POp (OAdd 0 [AFn 2%N; AFn 2%N]) PRet PThrow) PThrow
      end
  | 2%N => POp (OHas 0 (Some 2%N)) PRet PThrow
  | _ => PThrow (str "boom")
  end.

Definition demo_opts (flags : jstr) (l : nat) : options := createOptions flags.
Definition demo_prog (f : N) : prog :=
  POp (OAdd 0 [AFn f]) (fun _ => POp (OFireWith 0 VUndef seven) PRet (fun e => PRet (VStr e))) PThrow.

Abbreviation flags_unique := (demo_opts (str "unique")).
Abbreviation flags_deferred := (demo_opts (str "once memory")).

(** Function 1, called on 7, fires 8, adds 3 and removes 2; on 8 it locks the list;
    3 fires again, which the locked list ignores. *)
Definition demo_react (f : N) (args : list jsval) : list action :=
  match f, args with
  | 1%N, [VNum (Fin 7)] => [DoFire [VNum (Fin 8)]; DoAdd 3; DoRemove 2]
  | 1%N, _ => [DoLock]
  | _, [VNum (Fin 8)] => [DoFire seven]
  | _, _ => []
  end.

Definition eight : list jsval := [VNum (Fin 8)].

Example refire_in_order_witness :
  fireWith log_get log_put (script demo_react (fun _ _ => false) 1) VUndef is_false 9 tt VUndef seven (idle_list, [])
  = (Ok tt, (Cbs (createOptions (str "memory")) false (Some (VUndef, eight)) true true (Some []) [] (-1),
       [(1%N, seven); (3%N, seven); (1%N, eight); (3%N, eight)])).
Proof.
  apply (refire_in_order (createOptions (str "memory")) demo_react (fun _ _ => false) 9 0 [1; 2]%N seven None idle_list
    (Work [1; 3]%N [] [] (Some eight) true)); vm_compute; reflexivity.
Defined.

Example unique_no_duplicates_witness :
  unique_inv (get_list flags_unique 0 (run_main flags_unique demo_user 9 (demo_prog 1) ∅).2)
  /\ lst (get_list flags_unique 0 (run_main flags_unique demo_user 9 (demo_prog 1) ∅).2) = Some [1; 2]%N.
Proof.
  split; [|vm_compute; reflexivity].
  apply unique_no_duplicates; [vm_compute; discriminate|]. intros _. apply NoDup_nil_2.
Defined.

Definition settled_heap : heap := (exec flags_deferred demo_user 9 (OFireWith 0 VUndef seven) ∅).2.

Example once_memory_settles_witness :
  settled_on (VUndef, seven)
    (get_list flags_deferred 0 (run_main flags_deferred demo_user 9 (demo_prog 2) settled_heap).2).
Proof.
  apply (once_memory_settles flags_deferred demo_user 9 0 VUndef seven (demo_prog 2) ∅); try reflexivity;
    vm_compute; discriminate.
Defined.

Example disabled_forever_witness :
  let h1 := (exec flags_deferred demo_user 9 (ODisable 0) ∅).2 in
  dead (get_list flags_deferred 0 (run_main flags_deferred demo_user 9 (demo_prog 1) h1).2).
Proof.
  intros h1. apply (disabled_forever flags_deferred demo_user 9 0 (demo_prog 1) ∅).
  vm_compute. discriminate.
Defined.

Definition throwing_heap : heap := put_list 0 (set_lst (Some [3%N]) (new_cbs (createOptions []))) ∅.

Example exception_freezes_witness :
  let opts := demo_opts [] in
  let h1 := (exec opts demo_user 9 (OFireWith 0 VUndef seven) throwing_heap).2 in
  firing (get_list opts 0 (run_main opts demo_user 9 (demo_prog 2) h1).2) = true.
Proof.
  intros opts h1.
  apply (exception_freezes opts demo_user 9 0 VUndef seven (demo_prog 2) throwing_heap (str "boom"));
    [vm_compute; reflexivity|vm_compute; discriminate].
Defined.
