(* ===== verification/Deferred.v ===== *)
(** * Deferreds: jQuery.Deferred and jQuery.when

    The closures of the code are values of an inductive type, with the variables
    they close over as arguments; an interpreter runs them on a heap that holds
    the callback lists of every deferred, the states, the [maxDepth] variables of
    [then], the variables of [when], and the functions that wait for
    [window.setTimeout]. *)

From S2P Require Import Prelude JsNum Callbacks.

(** The rows of [tuples]. *)
Inductive action := Notify | Resolve | Reject.

#[export] Instance action_eq_dec : EqDecision action.
Proof. solve_decision. Defined.

#[export] Instance action_countable : Countable action.
Proof.
  apply (inj_countable' (fun a => match a with Notify => 0 | Resolve => 1 | Reject => 2 end)%nat
    (fun n => match n with 0 => Notify | 1 => Resolve | _ => Reject end)%nat).
  by intros [].
Defined.

Inductive pstate := Pending | Resolved | Rejected.

#[export] Instance pstate_eq_dec : EqDecision pstate.
Proof. solve_decision. Defined.

(** A list of a deferred: [tuple[2]], or [tuple[3]] when the flag is set. *)
Abbreviation lid := (nat * action * bool)%type.

(** Values and functions.  [DThenable f] is an object of the page with the method
    [then]; the methods of a promise and of a deferred carry its number. *)
Inductive val :=
  | DUndef
  | DNull
  | DBool (b : bool)
  | DNum (z : Z)
  | DStr (s : jstr)
  | DTypeError (message : jstr)
  | DArr (l : list val)
  | DDeferred (d : nat)
  | DPromise (d : nat)
  | DThenable (f : fn)
  | DFn (f : fn)
with fn :=
  | FUser (n : N)
  | FAct (d : nat) (a : action)
  | FActWith (d : nat) (a : action)
  | FAdd (d : nat) (a : action)
  | FState (d : nat)
  | FAlways (d : nat)
  | FCatch (d : nat)
  | FPipe (d : nat)
  | FThen (d : nat)
  | FPromise (d : nat)
  | FIdentity
  | FThrower
  (** the function that [resolve(depth, deferred, handler, special)] returns;
      [r] is the variable [maxDepth] *)
  | FProcess (r : nat) (depth : nat) (d : nat) (handler : fn) (special : bool)
  (** the callback of [pipe] *)
  | FPiped (nd : nat) (a : action) (f : option fn)
  (** [updateFunc(i)] of a call of [when] *)
  | FUpdate (w : nat) (i : nat)
  | FDeferred
  | FWhen.

(** What a callback list of a deferred holds: functions, and the closures that
    the constructor adds. *)
Inductive cb :=
  | CFn (f : fn)
  | CSetState (d : nat) (s : pstate)
  | CDisable (l : lid)
  | CLock (l : lid)
  | CFire (l : lid).

Fixpoint val_eq_dec (v w : val) : Decision (v = w)
with fn_eq_dec (f g : fn) : Decision (f = g).
Proof.
  - assert (EqDecision val) by exact val_eq_dec. unfold Decision in *. decide equality; solve_decision.
  - unfold Decision in *. decide equality; solve_decision.
Defined.

#[export] Instance val_eq_decision : EqDecision val := val_eq_dec.
#[export] Instance fn_eq_decision : EqDecision fn := fn_eq_dec.
#[export] Instance cb_eq_dec : EqDecision cb.
Proof. solve_decision. Defined.

(** ** The heap *)

Abbreviation dlist := (cbs cb val).

(** The variables of a call of [when]. *)
Record when_vars := WhenVars {
  w_remaining : Z;
  w_contexts : list val;
  w_values : list val;
  w_master : nat
}.

(** A function passed to [window.setTimeout]: the [process] of a [resolve]. *)
Record task := Task { t_fn : fn; t_this : val; t_args : list val }.

Record dheap := DHeap {
  lists : gmap lid dlist;
  states : gmap nat pstate;
  next_deferred : nat;
  depths : gmap nat nat;
  next_depth : nat;
  whens : gmap nat when_vars;
  next_when : nat;
  tasks : list task;
  thrown : val
}.

Definition empty_heap : dheap := DHeap ∅ ∅ 0 ∅ 0 ∅ 0 [] DUndef.

(** The options of the lists of a row. *)
Definition row_options (a : action) : options :=
  match a with
  | Notify => createOptions (str "memory")
  | Resolve | Reject => createOptions (str "once memory")
  end.

Definition get_dlist (l : lid) (h : dheap) : dlist := default (new_cbs (row_options l.1.2)) (lists h !! l).

Definition put_dlist (l : lid) (c : dlist) (h : dheap) : dheap :=
  DHeap (<[l := c]> (lists h)) (states h) (next_deferred h) (depths h) (next_depth h)
    (whens h) (next_when h) (tasks h) (thrown h).

Definition state_of (d : nat) (h : dheap) : pstate := default Pending (states h !! d).

Definition set_state (d : nat) (s : pstate) (h : dheap) : dheap :=
  DHeap (lists h) (<[d := s]> (states h)) (next_deferred h) (depths h) (next_depth h)
    (whens h) (next_when h) (tasks h) (thrown h).

Definition set_next_deferred (n : nat) (h : dheap) : dheap :=
  DHeap (lists h) (states h) n (depths h) (next_depth h) (whens h) (next_when h) (tasks h) (thrown h).

Definition set_depth (r n : nat) (h : dheap) : dheap :=
  DHeap (lists h) (states h) (next_deferred h) (<[r := n]> (depths h)) (next_depth h)
    (whens h) (next_when h) (tasks h) (thrown h).

Definition set_next_depth (n : nat) (h : dheap) : dheap :=
  DHeap (lists h) (states h) (next_deferred h) (depths h) n (whens h) (next_when h) (tasks h) (thrown h).

Definition set_when (w : nat) (v : when_vars) (h : dheap) : dheap :=
  DHeap (lists h) (states h) (next_deferred h) (depths h) (next_depth h)
    (<[w := v]> (whens h)) (next_when h) (tasks h) (thrown h).

Definition set_next_when (n : nat) (h : dheap) : dheap :=
  DHeap (lists h) (states h) (next_deferred h) (depths h) (next_depth h) (whens h) n (tasks h) (thrown h).

Definition set_tasks (ts : list task) (h : dheap) : dheap :=
  DHeap (lists h) (states h) (next_deferred h) (depths h) (next_depth h) (whens h) (next_when h) ts (thrown h).

Definition set_thrown (v : val) (h : dheap) : dheap :=
  DHeap (lists h) (states h) (next_deferred h) (depths h) (next_depth h) (whens h) (next_when h) (tasks h) v.

Definition max_depth (r : nat) (h : dheap) : nat := default 0%nat (depths h !! r).

Definition when_of (w : nat) (h : dheap) : when_vars :=
  default (WhenVars 0 [] [] 0) (whens h !! w).

(** [throw v] and [try { m } catch (v) { k(v) }]: the value thrown is kept in the
    heap. *)
Definition dthrow {A} (v : val) : SM dheap A := fun h => (Throw [], set_thrown v h).

Definition dcatch {A} (m : SM dheap A) (k : val -> SM dheap A) : SM dheap A := fun h =>
  match m h with
  | (Throw _, h') => k (thrown h') h'
  | r => r
  end.

(** ** Values *)

Definition dtruthy (v : val) : bool :=
  match v with
  | DUndef | DNull => false
  | DBool b => b
  | DNum z => negb (z =? 0)
  | DStr s => bool_decide (s <> [])
  | _ => true
  end.

Definition dfalse (v : val) : bool := match v with DBool false => true | _ => false end.

Definition as_fn (v : val) : option fn := match v with DFn f => Some f | _ => None end.

(** [isFunction(value.promise)] and [isFunction(value.then)]: the methods. *)
Definition promise_method (v : val) : option fn :=
  match v with DDeferred d | DPromise d => Some (FPromise d) | _ => None end.

Definition then_method (v : val) : option fn :=
  match v with
  | DDeferred d | DPromise d => Some (FThen d)
  | DThenable f => Some f
  | _ => None
  end.

(** An argument of [add]: arrays are opened. *)
Fixpoint to_arg (v : val) : arg cb :=
  match v with
  | DFn f => AFn (CFn f)
  | DArr l => AArr (List.map to_arg l)
  | _ => AOther
  end.

(** The arguments that [fireWith(context, args)] keeps; [args] is an array or is
    missing. *)
Definition args_of (v : val) : list val := match v with DArr l => l | _ => [] end.

Definition nth_arg (args : list val) (i : nat) : val := default DUndef (args !! i).

(** [l[i] = v] on an array, which grows when needed. *)
Definition array_set (l : list val) (i : nat) (v : val) : list val :=
  <[i := v]> (l ++ repeat DUndef (S i - length l)).

(** ** Programs of the page *)

Inductive dprog :=
  | DRet (v : val)
  | DThrow (v : val)
  | DCall (f : fn) (this : val) (args : list val) (k h : val -> dprog).

Section deferred.
Context (user : N -> val -> list val -> dprog).

Definition upd_dlist (l : lid) (f : dlist -> dlist) : SM dheap unit := upd get_dlist put_dlist l f.

(** The index of the other final row: [3 - i]. *)
Definition opposite (a : action) : action := match a with Resolve => Reject | _ => Resolve end.

Definition final_state (a : action) : pstate :=
  match a with Resolve => Resolved | Reject => Rejected | Notify => Pending end.

(** The closures that the constructor adds to the list of a final row. *)
Definition final_closures (d : nat) (a : action) : list cb :=
  [CSetState d (final_state a);
   CDisable (d, opposite a, false); CDisable (d, opposite a, true);
   CLock (d, Notify, false); CLock (d, Notify, true)].

Section calls.
(** Calls of the methods of lists and of functions, one level below. *)
Context (call : cb -> val -> list val -> SM dheap val) (fuel : nat).

Definition call_fn (f : fn) (this : val) (args : list val) : SM dheap val := call (CFn f) this args.

(** A method of a list; no program holds the list of a deferred that was not
    created, and the model does nothing on one. *)
Definition on_list (l : lid) (m : SM dheap unit) : SM dheap unit :=
  n ← sm_get next_deferred; if (l.1.1 <? n)%nat then m else mret tt.

Definition list_add (l : lid) (args : list (arg cb)) : SM dheap unit :=
  on_list l (add get_dlist put_dlist call DUndef dfalse fuel l args).

Definition list_fireWith (l : lid) (context : val) (args : list val) : SM dheap unit :=
  on_list l (fireWith get_dlist put_dlist call DUndef dfalse fuel l context args).

(** The body of [jQuery.each(tuples, ...)] of the constructor. *)
Definition init_row (d : nat) (a : action) : SM dheap unit :=
  (match a with
   | Notify => mret tt
   | _ => list_add (d, a, false) (List.map AFn (final_closures d a))
   end) ;;
  list_add (d, a, false) [AFn (CFire (d, a, true))].

(** [jQuery.Deferred()], without a function. *)
Definition new_deferred : SM dheap nat :=
  d ← sm_get next_deferred;
  sm_mod (set_next_deferred (S d)) ;;
  sm_mod (set_state d Pending) ;;
  init_row d Notify ;; init_row d Resolve ;; init_row d Reject ;;
  mret d.

(** [promise.then(onFulfilled, onRejected, onProgress)]. *)
Definition then_ (d : nat) (onFulfilled onRejected onProgress : val) : SM dheap val :=
  r ← sm_get next_depth;
  sm_mod (set_next_depth (S r)) ;; sm_mod (set_depth r 0) ;;
  nd ← new_deferred;
  let handlers a f special := list_add (d, a, true) [AFn (CFn (FProcess r 0 nd f special))] in
  handlers Notify (default FIdentity (as_fn onProgress)) true ;;
  handlers Resolve (default FIdentity (as_fn onFulfilled)) false ;;
  handlers Reject (default FThrower (as_fn onRejected)) false ;;
  mret (DPromise nd).

(** [mightThrow] of [resolve(depth, deferred, handler, special)]. *)
Definition mightThrow (r depth d : nat) (handler : fn) (special : bool) (this : val) (args : list val) :
    SM dheap unit :=
  m ← sm_get (max_depth r);
  if (depth <? m)%nat then mret tt else
  returned ← call_fn handler this args;
  if decide (returned = DPromise d) then dthrow (DTypeError (str "Thenable self-resolution")) else
  match then_method returned with
  | Some thn =>
      if special then
        m ← sm_get (max_depth r);
        call_fn thn returned [DFn (FProcess r m d FIdentity true); DFn (FProcess r m d FThrower true)] ;;
        mret tt
      else
        sm_mod (fun h => set_depth r (S (max_depth r h)) h) ;;
        m ← sm_get (max_depth r);
        call_fn thn returned [DFn (FProcess r m d FIdentity false); DFn (FProcess r m d FThrower false);
                              DFn (FProcess r m d FIdentity true)] ;;
        mret tt
  | None =>
      let '(this, args) := if decide (handler = FIdentity) then (this, args) else (DUndef, [returned]) in
      list_fireWith (d, if special then Notify else Resolve, false) this args
  end.

(** [process]. *)
Definition process (r depth d : nat) (handler : fn) (special : bool) (this : val) (args : list val) :
    SM dheap unit :=
  if special then mightThrow r depth d handler special this args
  else dcatch (mightThrow r depth d handler special this args) (fun e =>
    m ← sm_get (max_depth r);
    if (m <=? depth + 1)%nat then
      let '(this, args) := if decide (handler = FThrower) then (this, args) else (DUndef, [e]) in
      list_fireWith (d, Reject, false) this args
    else mret tt).

(** [adoptValue(value, resolve, reject, noValue)]. *)
Definition adoptValue (value : val) (resolve reject : fn) (noValue : bool) : SM dheap unit :=
  dcatch
    (match promise_method value with
     | Some method =>
         p ← call_fn method value [];
         match p with
         | DPromise d =>
             call_fn (FAdd d Resolve) p [DFn resolve] ;; call_fn (FAdd d Reject) p [DFn reject] ;; mret tt
         | _ => mret tt
         end
     | None =>
         match then_method value with
         | Some method => call_fn method value [DFn resolve; DFn reject] ;; mret tt
         | None => call_fn resolve DUndef (if noValue then [] else [value]) ;; mret tt
         end
     end)
    (fun e => call_fn reject DUndef [e] ;; mret tt).

(** The loop [while (i--) adoptValue(resolveValues[i], updateFunc(i), master.reject)]. *)
Fixpoint when_loop (i : nat) (w master : nat) : SM dheap unit :=
  match i with
  | O => mret tt
  | S i' =>
      v ← sm_get (fun h => nth_arg (w_values (when_of w h)) i');
      adoptValue v (FUpdate w i') (FAct master Reject) false ;;
      when_loop i' w master
  end.

(** [jQuery.when(...)]. *)
Definition when (args : list val) : SM dheap val :=
  let n := length args in
  master ← new_deferred;
  w ← sm_get next_when;
  sm_mod (set_next_when (S w)) ;;
  sm_mod (set_when w (WhenVars (Z.of_nat n) (repeat DUndef n) args master)) ;;
  let aggregate := when_loop n w master ;; mret (DPromise master) in
  if (n <=? 1)%nat then
    call_fn (FAdd master Resolve) (DDeferred master) [DFn (FUpdate w n)] ;;
    adoptValue (nth_arg args 0) (FAct master Resolve) (FAct master Reject) (n =? 0)%nat ;;
    s ← sm_get (state_of master);
    v ← sm_get (fun h => nth_arg (w_values (when_of w h)) n);
    if bool_decide (s = Pending) || (match then_method v with Some _ => true | None => false end)
    then then_ master DUndef DUndef DUndef
    else aggregate
  else aggregate.

(** The function that [updateFunc(i)] returns. *)
Definition update (w i : nat) (this : val) (args : list val) : SM dheap val :=
  let value := match args with [] => DUndef | [v] => v | _ => DArr args end in
  sm_mod (fun h => let v := when_of w h in
    set_when w (WhenVars (w_remaining v - 1) (array_set (w_contexts v) i this)
                  (array_set (w_values v) i value) (w_master v)) h) ;;
  v ← sm_get (when_of w);
  sm_when (w_remaining v =? 0)
    (list_fireWith (w_master v, Resolve, false) (DArr (w_contexts v)) (w_values v)) ;;
  mret DUndef.

(** The callback that [pipe] adds to a list of its deferred. *)
Definition piped (nd : nat) (a : action) (f : option fn) (this : val) (args : list val) : SM dheap val :=
  returned ← match f with Some g => call_fn g this args | None => mret DUndef end;
  match promise_method returned with
  | Some method =>
      p ← call_fn method returned [];
      match p with
      | DPromise d =>
          call_fn (FAdd d Notify) p [DFn (FAct nd Notify)] ;;
          call_fn (FAdd d Resolve) p [DFn (FAct nd Resolve)] ;;
          call_fn (FAdd d Reject) p [DFn (FAct nd Reject)] ;;
          mret DUndef
      | _ => mret DUndef
      end
  | None =>
      list_fireWith (nd, a, false) this (match f with Some _ => [returned] | None => args end) ;;
      mret DUndef
  end.

(** [promise.pipe(fnDone, fnFail, fnProgress)]. *)
Definition pipe (d : nat) (args : list val) : SM dheap val :=
  nd ← new_deferred;
  let row a i := call_fn (FAdd d a) (DDeferred d) [DFn (FPiped nd a (as_fn (nth_arg args i)))] in
  row Notify 2%nat ;; row Resolve 0%nat ;; row Reject 1%nat ;;
  mret (DPromise nd).

Definition state_string (s : pstate) : val :=
  DStr (match s with
        | Pending => str "pending"
        | Resolved => str "resolved"
        | Rejected => str "rejected"
        end).

(** One call of a function. *)
Fixpoint run_dprog (p : dprog) : SM dheap val :=
  match p with
  | DRet v => mret v
  | DThrow v => dthrow v
  | DCall f this args k hd => fun h =>
      match call_fn f this args h with
      | (Ok v, h') => run_dprog (k v) h'
      | (Throw _, h') => run_dprog (hd (thrown h')) h'
      | (NoFuel, h') => (NoFuel, h')
      end
  end.

(** [deferred.resolve(...)] and the like. *)
Definition act (d : nat) (a : action) (this : val) (args : list val) : SM dheap val :=
  list_fireWith (d, a, false) (if decide (this = DDeferred d) then DUndef else this) args ;; mret this.

Definition always (d : nat) (this : val) (args : list val) : SM dheap val :=
  call_fn (FAdd d Resolve) (DDeferred d) [DArr args] ;;
  call_fn (FAdd d Reject) (DDeferred d) [DArr args] ;; mret this.

Definition catch (d : nat) (args : list val) : SM dheap val := then_ d DNull (nth_arg args 0) DUndef.

Definition identity (args : list val) : SM dheap val := mret (nth_arg args 0).
Definition thrower (args : list val) : SM dheap val := dthrow (nth_arg args 0).

(** The function that [resolve] of [then] returns: [f] is this function. *)
Definition resolver (f : fn) (r depth d : nat) (handler : fn) (special : bool) (this : val) (args : list val) :
    SM dheap val :=
  match depth with
  | O => sm_mod (fun h => set_tasks (tasks h ++ [Task f this args]) h)
  | S _ => process r depth d handler special this args
  end ;; mret DUndef.

(** [jQuery.Deferred(func)]. *)
Definition deferred (args : list val) : SM dheap val :=
  d ← new_deferred;
  match as_fn (nth_arg args 0) with
  | Some g => call_fn g (DDeferred d) [DDeferred d] ;; mret (DDeferred d)
  | None => mret (DDeferred d)
  end.

Definition apply_fn (f : fn) (this : val) (args : list val) : SM dheap val :=
  match f with
  | FUser n => run_dprog (user n this args)
  | FAct d a => act d a this args
  | FActWith d a => list_fireWith (d, a, false) (nth_arg args 0) (args_of (nth_arg args 1)) ;; mret this
  | FAdd d a => list_add (d, a, false) (List.map to_arg args) ;; mret this
  | FState d => sm_get (fun h => state_string (state_of d h))
  | FAlways d => always d this args
  | FCatch d => catch d args
  | FPipe d => pipe d args
  | FThen d => then_ d (nth_arg args 0) (nth_arg args 1) (nth_arg args 2)
  | FPromise d => mret (DPromise d)
  | FIdentity => identity args
  | FThrower => thrower args
  | FProcess r depth d handler special => resolver f r depth d handler special this args
  | FPiped nd a g => piped nd a g this args
  | FUpdate w i => update w i this args
  | FDeferred => deferred args
  | FWhen => when args
  end.

(** One call of a callback of a list; what the methods of lists answer is not
    [false], and nothing else of it is used. *)
Definition apply_cb (c : cb) (this : val) (args : list val) : SM dheap val :=
  match c with
  | CFn f => apply_fn f this args
  | CSetState d s => sm_mod (set_state d s) ;; mret DUndef
  | CDisable l => upd_dlist l disable ;; mret DUndef
  | CLock l => upd_dlist l lock ;; mret DUndef
  | CFire l => list_fireWith l this args ;; mret DUndef
  end.
End calls.

(** [fuel] bounds the depth of calls and the length of each loop. *)
Fixpoint dcall (fuel : nat) (c : cb) (this : val) (args : list val) : SM dheap val :=
  match fuel with
  | O => sm_lift NoFuel
  | S n => apply_cb (dcall n) n c this args
  end.

Definition drun (fuel : nat) (p : dprog) : SM dheap val := run_dprog (dcall fuel) p.

(** One turn of the event loop: the first waiting [process] runs. *)
Definition run_task (fuel : nat) : SM dheap unit := fun h =>
  match tasks h with
  | [] => (Ok tt, h)
  | Task (FProcess r depth d handler special) this args :: ts =>
      process (dcall fuel) fuel r depth d handler special this args (set_tasks ts h)
  | _ :: ts => (Ok tt, set_tasks ts h)
  end.

End deferred.
