(* ===== verification/DeferredFacts.v ===== *)
(** * What a deferred promises

    The invariant of the callback lists of deferreds under arbitrary code of the
    page, and what follows: a deferred settles at most once, keeps its value, and
    calls either its done or its fail callbacks. *)

From S2P Require Import Prelude JsNum Callbacks CallbacksFacts Deferred.

(** ** The invariant *)

Definition final (l : lid) : Prop := l.1.2 <> Notify /\ l.2 = false.

Definition is_fn (c : cb) : Prop := exists f, c = CFn f.

(** Outside the lists that hold the state closures there are only functions and
    the firing of handlers. *)
Definition good_cb (c : cb) : Prop := is_fn c \/ exists d a, c = CFire (d, a, true).

(** The closures at the head of the list of a final row. *)
Definition closures (d : nat) (a : action) : list cb := final_closures d a ++ [CFire (d, a, true)].

(** A final list before the deferred settles. *)
Definition fresh_list (d : nat) (a : action) (c : dlist) : Prop :=
  locked c = false /\ firing c = false /\ queue c = [] /\ memory c = None /\ fired c = false
  /\ firingIndex c = -1 /\ exists us, Forall is_fn us /\ lst c = Some (closures d a ++ us).

(** The list that fired: it is past its closures, or they are gone. *)
Definition settled_list (d : nat) (a : action) (c : dlist) : Prop :=
  locked c = true /\ queue c = [] /\ (exists m, memory c = Some m)
  /\ exists us, Forall is_fn us /\
       (lst c = Some (closures d a ++ us) /\ firing c = true /\ 4 <= firingIndex c \/ lst c = Some us).

(** The other list. *)
Definition disabled_list (c : dlist) : Prop := dead c /\ fired c = false /\ firing c = false.

Definition final_ok (d : nat) (h : dheap) : Prop :=
  let done := get_dlist (d, Resolve, false) h in
  let fail := get_dlist (d, Reject, false) h in
  match state_of d h with
  | Pending => fresh_list d Resolve done /\ fresh_list d Reject fail
  | Resolved => settled_list d Resolve done /\ disabled_list fail
  | Rejected => disabled_list done /\ settled_list d Reject fail
  end.

Record Inv (h : dheap) : Prop := {
  inv_opts : forall l, opts (get_dlist l h) = row_options l.1.2;
  inv_new : forall l, (next_deferred h <= l.1.1)%nat -> get_dlist l h = new_cbs (row_options l.1.2);
  inv_state : forall d, (next_deferred h <= d)%nat -> state_of d h = Pending;
  inv_final : forall d, (d < next_deferred h)%nat -> final_ok d h;
  inv_good : forall l, ~ final l -> Forall good_cb (default [] (lst (get_dlist l h)))
}.

(** What never goes back: the deferreds, a firing in progress, a settled state
    and the value it was settled on. *)
Definition value_of (d : nat) (h : dheap) : option (val * list val) :=
  match state_of d h with
  | Pending => None
  | Resolved => memory (get_dlist (d, Resolve, false) h)
  | Rejected => memory (get_dlist (d, Reject, false) h)
  end.

Record grows (h h' : dheap) : Prop := {
  grow_next : (next_deferred h <= next_deferred h')%nat;
  grow_firing : forall l, firing (get_dlist l h) = true -> firing (get_dlist l h') = true;
  grow_state : forall d, state_of d h <> Pending ->
    state_of d h' = state_of d h /\ value_of d h' = value_of d h
}.

#[export] Instance grows_refl : Reflexive grows.
Proof. by constructor. Qed.

#[export] Instance grows_trans : Transitive grows.
Proof.
  intros h1 h2 h3 [N1 F1 S1] [N2 F2 S2]. constructor; [lia|auto|].
  intros d Hd. destruct (S1 d Hd) as [E1 V1]. destruct (S2 d) as [E2 V2]; [by rewrite E1|].
  by rewrite E2, E1, V2, V1.
Qed.

Lemma get_put_dlist l c h : get_dlist l (put_dlist l c h) = c.
Proof. unfold get_dlist, put_dlist; cbn. by rewrite lookup_insert_eq. Qed.

Lemma get_put_dlist_ne l l' c h : l <> l' -> get_dlist l' (put_dlist l c h) = get_dlist l' h.
Proof. intros Hl. unfold get_dlist, put_dlist; cbn. by rewrite lookup_insert_ne. Qed.

(** [h'] differs from [h] in what the invariant does not look at. *)
Definition same_lists (h h' : dheap) : Prop :=
  lists h' = lists h /\ states h' = states h /\ next_deferred h' = next_deferred h.

Lemma same_Inv h h' : same_lists h h' -> Inv h -> Inv h' /\ grows h h'.
Proof.
  intros (El & Es & En) [I1 I2 I3 I4 I5].
  assert (forall l, get_dlist l h' = get_dlist l h) as Eg by (intros l; unfold get_dlist; by rewrite El).
  assert (forall d, state_of d h' = state_of d h) as Est by (intros d; unfold state_of; by rewrite Es).
  split; constructor; intros; rewrite ?Eg, ?En, ?Est in *; auto.
  - unfold final_ok. rewrite Est, !Eg. by apply I4.
  - split; [done|]. unfold value_of. by rewrite Est, !Eg.
Qed.

Lemma state_put d l c h : state_of d (put_dlist l c h) = state_of d h.
Proof. done. Qed.

Lemma value_put d l c h : (final l -> l.1.1 <> d) -> value_of d (put_dlist l c h) = value_of d h.
Proof.
  intros Hl. unfold value_of. rewrite state_put.
  destruct (state_of d h); [done|..]; (rewrite get_put_dlist_ne; [done|]); intros ->; by apply Hl.
Qed.

Lemma final_put d l c h : (final l -> l.1.1 <> d) -> final_ok d h -> final_ok d (put_dlist l c h).
Proof.
  intros Hl. unfold final_ok. rewrite state_put, !get_put_dlist_ne; [done|..]; intros ->; by apply Hl.
Qed.

(** Writing one list, in a step that the invariant allows. *)
Lemma put_Inv l c h0 h : Inv h -> grows h0 h -> (l.1.1 < next_deferred h)%nat ->
  opts c = row_options l.1.2 -> (firing (get_dlist l h0) = true -> firing c = true) ->
  (final l -> final_ok l.1.1 (put_dlist l c h) /\ value_of l.1.1 (put_dlist l c h) = value_of l.1.1 h) ->
  (~ final l -> Forall good_cb (default [] (lst c))) ->
  Inv (put_dlist l c h) /\ grows h0 (put_dlist l c h).
Proof.
  intros [I1 I2 I3 I4 I5] [G1 G2 G3] Hl Ho Hf Hfin Hgood.
  split; constructor; try done.
  - intros l'. destruct (decide (l = l')) as [<-|Hne]; [by rewrite get_put_dlist|].
    by rewrite get_put_dlist_ne.
  - intros l' Hn. cbn in Hn. rewrite get_put_dlist_ne; [by apply I2|]. intros <-. lia.
  - intros d Hd. destruct (decide (l.1.1 = d)) as [<-|Hne]; [|by apply final_put, I4].
    destruct l as [[d a] [|]]; [by apply final_put, I4; [intros []|]|].
    destruct (decide (a = Notify)) as [->|Ha]; [by apply final_put, I4; [intros []|]|].
    by apply Hfin.
  - intros l' Hn. destruct (decide (l = l')) as [<-|Hne]; [rewrite get_put_dlist; auto|].
    rewrite get_put_dlist_ne by done. auto.
  - intros l' Hf'. destruct (decide (l = l')) as [<-|Hne]; [rewrite get_put_dlist; auto|].
    rewrite get_put_dlist_ne by done. auto.
  - intros d Hd. destruct (G3 d Hd) as [Es Ev]. split; [done|]. rewrite <-Ev.
    destruct (decide (l.1.1 = d)) as [<-|Hne]; [|by apply value_put].
    destruct l as [[d a] [|]]; [by apply value_put; intros []|].
    destruct (decide (a = Notify)) as [->|Ha]; [by apply value_put; intros []|].
    by apply Hfin.
Qed.

(** A final list as the invariant sees it. *)
Lemma final_cases d a h : Inv h -> (d < next_deferred h)%nat -> a <> Notify ->
  let c := get_dlist (d, a, false) h in
  state_of d h = Pending /\ fresh_list d a c
  \/ state_of d h = final_state a /\ settled_list d a c
  \/ state_of d h = final_state (opposite a) /\ disabled_list c.
Proof.
  intros HI Hd Ha c. pose proof (inv_final h HI d Hd) as Hf. unfold final_ok in Hf.
  destruct a; [done|..]; destruct (state_of d h); cbn; tauto.
Qed.

Lemma final_firing d a h : Inv h -> (d < next_deferred h)%nat -> a <> Notify ->
  firing (get_dlist (d, a, false) h) = true ->
  state_of d h = final_state a /\ settled_list d a (get_dlist (d, a, false) h).
Proof.
  intros HI Hd Ha Hf. destruct (final_cases d a h HI Hd Ha) as [[_ (_ & ? & _)]|[?|[_ (_ & _ & ?)]]];
    [congruence|done|congruence].
Qed.

Lemma put_settled d a c h0 h : Inv h -> grows h0 h -> (d < next_deferred h)%nat -> a <> Notify ->
  state_of d h = final_state a -> settled_list d a c -> opts c = row_options a ->
  (firing (get_dlist (d, a, false) h0) = true -> firing c = true) ->
  memory c = memory (get_dlist (d, a, false) h) ->
  Inv (put_dlist (d, a, false) c h) /\ grows h0 (put_dlist (d, a, false) c h).
Proof.
  intros HI Hg Hd Ha Hs Hc Ho Hf Hm. apply put_Inv; try done.
  - intros _. cbn [fst snd]. pose proof (inv_final h HI d Hd) as Hfin.
    unfold final_ok, value_of in *. rewrite state_put, Hs in *.
    destruct a; [done|..]; cbn in *; rewrite get_put_dlist; rewrite ?get_put_dlist_ne by done; tauto.
  - intros []. by split.
Qed.

Lemma put_fresh d a c h0 h : Inv h -> grows h0 h -> (d < next_deferred h)%nat -> a <> Notify ->
  state_of d h = Pending -> fresh_list d a c -> opts c = row_options a ->
  (firing (get_dlist (d, a, false) h0) = true -> firing c = true) ->
  Inv (put_dlist (d, a, false) c h) /\ grows h0 (put_dlist (d, a, false) c h).
Proof.
  intros HI Hg Hd Ha Hs Hc Ho Hf. apply put_Inv; try done.
  - intros _. cbn [fst snd]. pose proof (inv_final h HI d Hd) as Hfin.
    unfold final_ok, value_of in *. rewrite state_put, Hs in *.
    destruct a; [done|..]; rewrite get_put_dlist; rewrite ?get_put_dlist_ne by done; tauto.
  - intros []. by split.
Qed.

Lemma put_good l c h0 h : Inv h -> grows h0 h -> (l.1.1 < next_deferred h)%nat -> ~ final l ->
  opts c = row_options l.1.2 -> (firing (get_dlist l h0) = true -> firing c = true) ->
  Forall good_cb (default [] (lst c)) -> Inv (put_dlist l c h) /\ grows h0 (put_dlist l c h).
Proof. intros. by apply put_Inv. Qed.

Lemma final_dec (l : lid) : final l \/ ~ final l.
Proof.
  destruct l as [[d a] b]. unfold final; cbn. destruct b; [right; by intros []|].
  destruct (decide (a = Notify)) as [->|]; [right; by intros []|by left].
Qed.

(** ** Soundness *)

Definition sound_at {A} (m : SM dheap A) (h : dheap) : Prop :=
  (m h).1 <> NoFuel -> Inv (m h).2 /\ grows h (m h).2.

Definition sound {A} (m : SM dheap A) : Prop := forall h, Inv h -> sound_at m h.

Lemma sound_at_bind {A B} (m : SM dheap A) (f : A -> SM dheap B) h :
  sound_at m h ->
  (forall a h', m h = (Ok a, h') -> Inv h' -> grows h h' -> sound_at (f a) h') ->
  sound_at (m ≫= f) h.
Proof.
  unfold sound_at, mbind, sm_bind. intros Hm Hf.
  destruct (m h) as [[a|e|] h'] eqn:E; cbn in *; [|by intros _; apply Hm|done].
  intros Hn. destruct (Hm ltac:(done)) as [HI Hg]. destruct (Hf a h' eq_refl HI Hg Hn) as [HI' Hg'].
  split; [done|by etrans].
Qed.

Lemma sound_bind {A B} (m : SM dheap A) (f : A -> SM dheap B) :
  sound m -> (forall a, sound (f a)) -> sound (m ≫= f).
Proof. intros Hm Hf h HI. apply sound_at_bind; [by apply Hm|]. intros a h' _ HI' _. by apply Hf. Qed.

Lemma sound_ret {A} (a : A) : sound (mret a).
Proof. intros h HI _. by split. Qed.

Lemma sound_get {A} (f : dheap -> A) : sound (sm_get f).
Proof. intros h HI _. by split. Qed.

Lemma sound_same f : (forall h, same_lists h (f h)) -> sound (sm_mod f).
Proof. intros Hf h HI _. by apply same_Inv. Qed.

Lemma sound_throw {A} v : sound (dthrow v : SM dheap A).
Proof. intros h HI _. by apply same_Inv. Qed.

Lemma sound_catch {A} (m : SM dheap A) k : sound m -> (forall v, sound (k v)) -> sound (dcatch m k).
Proof.
  intros Hm Hk h HI. specialize (Hm h HI). unfold sound_at, dcatch in *.
  destruct (m h) as [[a|e|] h'] eqn:E; cbn in *; [done| |done].
  destruct (Hm ltac:(done)) as [HI' Hg]. intros Hn. destruct (Hk (thrown h') h' HI' Hn) as [HI2 Hg2].
  split; [done|by etrans].
Qed.

Lemma sound_when b m : sound m -> sound (sm_when b m).
Proof. intros Hm. destruct b; [done|apply sound_ret]. Qed.

#[export] Hint Resolve sound_ret sound_get sound_throw sound_when : jslib.
#[export] Hint Resolve sound_bind | 5 : jslib.

Lemma row_stop a : o_stopOnFalse (row_options a) = false.
Proof. destruct a; vm_compute; reflexivity. Qed.

Lemma row_memory a : o_memory (row_options a) = true.
Proof. destruct a; vm_compute; reflexivity. Qed.

Lemma row_unique a : o_unique (row_options a) = false.
Proof. destruct a; vm_compute; reflexivity. Qed.

Lemma row_once a : o_once (row_options a) = bool_decide (a <> Notify).
Proof. destruct a; vm_compute; reflexivity. Qed.

(** Where a firing goes on: the index moves, and the next callback is no closure
    that sets a state. *)
Lemma index_step l h : Inv h -> (l.1.1 < next_deferred h)%nat -> firing (get_dlist l h) = true ->
  let c := get_dlist l h in
  let c1 := set_index (firingIndex c + 1) c in
  Inv (put_dlist l c1 h) /\ grows h (put_dlist l c1 h) /\
  forall f, (if firingIndex c1 <? 0 then None else default [] (lst c1) !! Z.to_nat (firingIndex c1)) = Some f ->
    good_cb f.
Proof.
  intros HI Hl Hf c c1. pose proof (inv_opts h HI l) as Ho.
  assert (forall (f : cb) (fs : list cb) i, (if i <? 0 then None else fs !! Z.to_nat i) = Some f -> f ∈ fs) as Hin.
  { intros f fs i. destruct (i <? 0); [done|]. apply list_elem_of_lookup_2. }
  destruct (final_dec l) as [Hfin|Hfin].
  - destruct l as [[d a] b], Hfin as [Ha Hb]. cbn in Ha, Hb, Hl. subst b.
    destruct (final_firing d a h HI Hl Ha Hf) as [Hs (Hk & Hq & Hm & us & Hus & Hlst)].
    destruct (put_settled d a c1 h h HI (reflexivity h) Hl Ha Hs) as [HI1 Hg1]; [|done..|].
    + split_and!; try done. exists us. split; [done|].
      destruct Hlst as [(E & _ & Hi)|E]; [left|by right]. split_and!; [done|done|]. cbn. fold c in Hi. lia.
    + split_and!; [done|done|]. intros f Hlook. cbn [firingIndex set_index c1 lst] in Hlook.
      rewrite Forall_forall in Hus.
      destruct Hlst as [(E & _ & Hi)|E]; fold c in E; rewrite E in Hlook.
      * cbn [default id] in Hlook. fold c in Hi.
        rewrite (proj2 (Z.ltb_ge _ 0)) in Hlook by lia. unfold closures in Hlook.
        rewrite <-app_assoc, lookup_app_r in Hlook by (cbn; lia). apply list_elem_of_lookup_2 in Hlook.
        apply elem_of_cons in Hlook as [->|Hf']; [right; by exists d, a|left; by apply Hus].
      * left. apply Hus. by apply Hin in Hlook.
  - pose proof (inv_good h HI l Hfin) as Hgood.
    destruct (put_good l c1 h h HI (reflexivity h) Hl Hfin Ho) as [HI1 Hg1]; [done|done|]. split_and!; [done|done|].
    intros f Hlook. apply Hin in Hlook. rewrite Forall_forall in Hgood. by apply Hgood.
Qed.

Section sound_calls.
Context (call : cb -> val -> list val -> SM dheap val).
Hypothesis call_sound : forall c this args, good_cb c -> sound (call c this args).

Lemma fire_calls_sound fuel l h : Inv h -> (l.1.1 < next_deferred h)%nat ->
  firing (get_dlist l h) = true ->
  sound_at (fire_calls get_dlist put_dlist call DUndef dfalse fuel l) h.
Proof.
  revert h. induction fuel as [|fuel IH]; intros h HI Hl Hf; [by intros []|]. cbn [fire_calls].
  destruct (index_step l h HI Hl Hf) as (HI1 & Hg1 & Hgood). cbv zeta in *.
  set (c1 := set_index (firingIndex (get_dlist l h) + 1) (get_dlist l h)) in *.
  apply sound_at_bind; [by split|]. intros [] h1 [= <-] _ _.
  apply sound_at_bind; [by split|]. intros c h1 [= <- <-] _ _. rewrite get_put_dlist. fold c1.
  destruct (if firingIndex c1 <? 0 then None else _) as [f|]; [|by split].
  destruct (default (DUndef, []) (memory c1)) as [this args].
  apply sound_at_bind; [by apply call_sound; [apply Hgood|]|]. intros r h3 _ HI3 Hg3.
  apply sound_at_bind.
  - replace (o_stopOnFalse (opts c1)) with false; [by rewrite andb_false_r; split|].
    cbn. by rewrite (inv_opts h HI), row_stop.
  - intros [] h4 Hw HI4 Hg4. apply IH; [done|..].
    + pose proof (grow_next _ _ Hg1). pose proof (grow_next _ _ Hg3). pose proof (grow_next _ _ Hg4). lia.
    + apply (grow_firing _ _ Hg4), (grow_firing _ _ Hg3), (grow_firing _ _ Hg1). done.
Qed.

Lemma put_put_dlist l c c' h : put_dlist l c (put_dlist l c' h) = put_dlist l c h.
Proof. unfold put_dlist; cbn. by rewrite insert_insert_eq. Qed.

(** The firing of a list that no deferred settles by. *)
Definition going (l : lid) (h : dheap) : Prop :=
  Inv h /\ (l.1.1 < next_deferred h)%nat /\ firing (get_dlist l h) = true.

Lemma going_grows l h h' : going l h -> Inv h' -> grows h h' -> going l h'.
Proof. intros (_ & Hl & Hf) HI [G1 G2 _]. split_and!; [done|lia|auto]. Qed.

Lemma run_rest_sound fuel l h : ~ final l ->
  (forall h, going l h -> sound_at (fire_loop get_dlist put_dlist call DUndef dfalse fuel l) h) ->
  going l h -> sound_at (run_rest get_dlist put_dlist call DUndef dfalse fuel l) h.
Proof.
  intros Hfin Hloop Hgo. apply sound_at_bind; [by apply fire_calls_sound; apply Hgo|].
  intros [] h2 _ HI2 Hg2. destruct (going_grows l h h2 Hgo HI2 Hg2) as (_ & Hl2 & Hf2).
  destruct (put_good l (set_index (-1) (get_dlist l h2)) h2 h2 HI2 (reflexivity h2)) as [HI3 Hg3];
    [done|done|apply (inv_opts h2 HI2)|done|by apply (inv_good h2 HI2)|].
  apply sound_at_bind; [by split|]. intros [] h3 [= <-] _ _.
  apply Hloop. split_and!; [done|done|by rewrite get_put_dlist].
Qed.

Lemma fire_loop_sound fuel l h : ~ final l -> going l h ->
  sound_at (fire_loop get_dlist put_dlist call DUndef dfalse fuel l) h.
Proof.
  intros Hfin. revert h. induction fuel as [|fuel IH]; intros h Hgo; [by intros []|].
  unfold sound_at. rewrite fire_loop_S. pose proof Hgo as (HI & Hl & Hf).
  destruct (next_run (get_dlist l h)) as [c'|] eqn:En; [|by split].
  apply next_inv in En as (m & q & Eq & ->).
  set (c' := set_memory (Some m) (set_queue q (get_dlist l h))).
  destruct (put_good l c' h h HI (reflexivity h) Hl Hfin) as [HI1 Hg1];
    [apply (inv_opts h HI)|done|by apply (inv_good h HI)|].
  intros Hn. destruct (run_rest_sound fuel l (put_dlist l c' h) Hfin IH) as [HI' Hg'];
    [by eapply going_grows|done|]. split; [done|by etrans].
Qed.

(** The rest of a firing of a list that was idle in [h0], from the state [h]
    where the first value is being processed. *)
Definition finish (f1 f2 : nat) (l : lid) : SM dheap unit :=
  (fire_calls get_dlist put_dlist call DUndef dfalse f1 l ;;
   upd get_dlist put_dlist l (set_index (-1)) ;;
   fire_loop get_dlist put_dlist call DUndef dfalse f2 l) ;;
  upd get_dlist put_dlist l fire_end.

Definition sound_from (h0 : dheap) (m : SM dheap unit) (h : dheap) : Prop :=
  (m h).1 <> NoFuel -> Inv (m h).2 /\ grows h0 (m h).2.

Lemma finish_other fuel l h0 h : ~ final l -> grows h0 h ->
  firing (get_dlist l h0) = false -> going l h -> sound_from h0 (finish fuel fuel l) h.
Proof.
  intros Hfin Hg Hf0 Hgo. unfold sound_from, finish.
  change (fire_calls _ _ _ _ _ fuel l ;; _) with (run_rest get_dlist put_dlist call DUndef dfalse fuel l).
  unfold mbind, sm_bind.
  pose proof (run_rest_sound fuel l h Hfin ltac:(intros; by apply fire_loop_sound) Hgo) as Hs.
  unfold sound_at in Hs. destruct (run_rest _ _ _ _ _ _ _ h) as [[[]|e|] h2]; cbn in *; [| |done].
  - destruct (Hs ltac:(done)) as [HI2 Hg2]. destruct (going_grows l h h2 Hgo HI2 Hg2) as (_ & Hl2 & Hf2).
    intros _. apply put_good; [done|by etrans|done|done| |congruence|].
    + rewrite fire_end_eq. apply (inv_opts h2 HI2).
    + rewrite fire_end_eq. cbn. pose proof (inv_good h2 HI2 l Hfin).
      repeat case_match; try done; constructor.
  - intros _. destruct (Hs ltac:(done)) as [HI2 Hg2]. split; [done|by etrans].
Qed.

(** The same for the list that a deferred settled by: how it ends. *)
Lemma finish_cases fuel fuel2 d a h : a <> Notify -> let l := (d, a, false) in going l h ->
  (finish fuel fuel2 l h).1 <> NoFuel ->
  exists h2, going l h2 /\ grows h h2 /\ settled_list d a (get_dlist l h2) /\
    ((exists e, finish fuel fuel2 l h = (Throw e, h2)) \/
     finish fuel fuel2 l h = (Ok tt, put_dlist l (fire_end (set_index (-1) (get_dlist l h2))) h2)).
Proof.
  intros Ha l Hgo.
  pose proof (fire_calls_sound fuel l h (proj1 Hgo) (proj1 (proj2 Hgo)) (proj2 (proj2 Hgo))) as Hs.
  unfold sound_at in Hs. destruct (fire_calls get_dlist put_dlist call DUndef dfalse fuel l h) as [r h2] eqn:Ec.
  assert (r <> NoFuel -> going l h2 /\ grows h h2 /\ settled_list d a (get_dlist l h2)) as Hend.
  { intros Hr. destruct (Hs Hr) as [HI2 Hg2]. pose proof (going_grows l h h2 Hgo HI2 Hg2) as Hgo2.
    pose proof Hgo2 as (_ & Hl2 & Hf2). split_and!; [done..|].
    by destruct (final_firing d a h2 HI2 Hl2 Ha Hf2). }
  destruct r as [[]|e|].
  - destruct (Hend ltac:(done)) as (Hgo2 & Hg2 & Hset). pose proof Hset as (_ & Hq & _).
    assert (finish fuel fuel2 l h = match fuel2 with
      | O => (NoFuel, put_dlist l (set_index (-1) (get_dlist l h2)) h2)
      | S _ => (Ok tt, put_dlist l (fire_end (set_index (-1) (get_dlist l h2))) h2) end) as ->.
    { unfold finish, upd, sm_mod, mbind, sm_bind. rewrite Ec.
      destruct fuel2 as [|fuel2]; [done|]. rewrite fire_loop_S, get_put_dlist. unfold next_run. cbn [queue set_index].
      by rewrite Hq, get_put_dlist, put_put_dlist. }
    destruct fuel2; [done|]. intros _. exists h2. split_and!; [done..|by right].
  - intros _. exists h2. destruct (Hend ltac:(done)) as (? & ? & ?). split_and!; try done. left. exists e.
    unfold finish, mbind, sm_bind. by rewrite Ec.
  - unfold finish, mbind, sm_bind. by rewrite Ec.
Qed.

(** The list when it is done: it keeps its value, and is empty. *)
Lemma fire_end_settled d a h l : a <> Notify -> l = (d, a, false) -> Inv h ->
  settled_list d a (get_dlist l h) ->
  let c := fire_end (set_index (-1) (get_dlist l h)) in
  settled_list d a c /\ opts c = row_options a /\ memory c = memory (get_dlist l h) /\ firing c = false.
Proof.
  intros Ha -> HI (Hk & Hq & (m & Hm) & _) c. pose proof (inv_opts h HI (d, a, false)) as Ho. cbn in Ho.
  assert (kept (set_index (-1) (get_dlist (d, a, false) h)) = Some m) as Hkept
    by (unfold kept; cbn; by rewrite Ho, row_memory).
  unfold c. rewrite fire_end_eq, Hkept. cbn [opts fired locked lst queue firingIndex set_index memory firing].
  split_and!; try done. split_and!; try done; [by exists m|].
  exists []. split; [constructor|]. right. cbn. by rewrite Hk.
Qed.

Lemma finish_final fuel fuel2 d a h0 h : a <> Notify -> grows h0 h ->
  firing (get_dlist (d, a, false) h0) = false -> going (d, a, false) h ->
  sound_from h0 (finish fuel fuel2 (d, a, false)) h.
Proof.
  intros Ha Hg Hf0 Hgo. unfold sound_from. intros Hn.
  destruct (finish_cases fuel fuel2 d a h Ha Hgo Hn) as (h2 & (HI2 & Hl2 & Hf2) & Hg2 & Hset & [(e & ->)| ->]).
  - split; [done|by etrans].
  - destruct (fire_end_settled d a h2 _ Ha eq_refl HI2 Hset) as (? & ? & ? & ?).
    destruct (final_firing d a h2 HI2 Hl2 Ha Hf2) as [Hst _].
    apply put_settled; try done; [by etrans|]. intros Hx. congruence.
Qed.

(** It keeps the state and the value. *)
Lemma finish_keeps fuel fuel2 d a h : a <> Notify -> going (d, a, false) h ->
  let r := finish fuel fuel2 (d, a, false) h in
  r.1 <> NoFuel -> state_of d r.2 = state_of d h /\ value_of d r.2 = value_of d h.
Proof.
  intros Ha Hgo r Hn. unfold r in *. pose proof Hgo as (HI & Hl & Hf).
  destruct (final_firing d a h HI Hl Ha Hf) as [Hst _].
  destruct (finish_cases fuel fuel2 d a h Ha Hgo Hn) as (h2 & (HI2 & Hl2 & Hf2) & Hg2 & Hset & Hr).
  destruct (grow_state _ _ Hg2 d) as [Es Ev]; [rewrite Hst; by destruct a|].
  destruct Hr as [(e & ->)| ->]; [done|]. rewrite <-Es, <-Ev. cbn [snd]. split; [done|].
  destruct (fire_end_settled d a h2 _ Ha eq_refl HI2 Hset) as (_ & _ & Hm & _).
  unfold value_of. rewrite state_put, Es, Hst. destruct a; [done|..]; cbn; by rewrite get_put_dlist.
Qed.

(** *** The first firing of a final list *)

(** The closures of the constructor, as functions on the heap. *)
Definition closure_effect (c : cb) (h : dheap) : dheap :=
  match c with
  | CSetState d s => set_state d s h
  | CDisable l => put_dlist l (disable (get_dlist l h)) h
  | CLock l => put_dlist l (lock (get_dlist l h)) h
  | _ => h
  end.

Definition is_closure (c : cb) : Prop :=
  match c with CSetState _ _ | CDisable _ | CLock _ => True | _ => False end.

Hypothesis call_closure : forall c this args h, is_closure c ->
  (call c this args h).1 = NoFuel \/ call c this args h = (Ok DUndef, closure_effect c h).

(** The closures [cs] run from index [i], each with the list at its index. *)
Fixpoint run_closures (l : lid) (c : dlist) (i : Z) (cs : list cb) (h : dheap) : dheap :=
  match cs with
  | [] => h
  | x :: cs' => run_closures l c (i + 1) cs' (closure_effect x (put_dlist l (set_index i c) h))
  end.

Lemma fire_closures fuel l c pre cs rest m h :
  lst c = Some (pre ++ cs ++ rest) -> memory c = Some m -> opts c = row_options l.1.2 ->
  Forall is_closure cs ->
  (forall x h, x ∈ cs -> get_dlist l (closure_effect x h) = get_dlist l h) ->
  get_dlist l h = set_index (Z.of_nat (length pre) - 1) c ->
  (fire_calls get_dlist put_dlist call DUndef dfalse fuel l h).1 = NoFuel /\
    ((fuel < length cs)%nat \/ exists x this args h, is_closure x /\ (call x this args h).1 = NoFuel) \/
  exists fuel', fuel = (length cs + fuel')%nat /\
    fire_calls get_dlist put_dlist call DUndef dfalse fuel l h
    = fire_calls get_dlist put_dlist call DUndef dfalse fuel' l (run_closures l c (Z.of_nat (length pre)) cs h)
    /\ get_dlist l (run_closures l c (Z.of_nat (length pre)) cs h)
       = set_index (Z.of_nat (length pre) + Z.of_nat (length cs) - 1) c.
Proof.
  intros Hl Hm Ho Hcs. revert fuel pre h Hl. induction cs as [|x cs IH]; intros fuel pre h Hl Hkeep Hg.
  { right. exists fuel. split_and!; [done|done|]. cbn. rewrite Hg. f_equal. lia. }
  destruct fuel as [|fuel]; [left; split; [done|left; cbn; lia]|]. cbn [fire_calls run_closures].
  set (i := Z.of_nat (length pre)) in *. set (h1 := put_dlist l (set_index i c) h).
  assert (upd get_dlist put_dlist l (fun c => set_index (firingIndex c + 1) c) h = (Ok tt, h1)) as E1.
  { unfold upd, sm_mod, h1. rewrite Hg. cbn. by replace (i - 1 + 1) with i by lia. }
  assert (get_dlist l h1 = set_index i c) as Eg1 by apply get_put_dlist.
  rewrite (sm_bind_eq _ _ _ _ _ E1), (sm_bind_eq _ _ h1 (Ok (set_index i c)) h1)
    by (unfold sm_get; by rewrite Eg1).
  cbn [firingIndex set_index lst memory opts]. rewrite (proj2 (Z.ltb_ge _ 0)) by lia.
  unfold i. rewrite Hl, Nat2Z.id. cbn [default id]. rewrite <-app_comm_cons, list_lookup_middle by done.
  rewrite Hm. cbn [default id]. destruct m as [this args].
  apply Forall_cons in Hcs as [Hx Hcs].
  destruct (call_closure x this args h1 Hx) as [Hn|Ec].
  { left. split; [|right; by exists x, this, args, h1].
    destruct (call x this args h1) as [r h2] eqn:Er. cbn in Hn. subst r.
    by rewrite (sm_bind_eq _ _ _ _ _ Er). }
  rewrite (sm_bind_eq _ _ _ _ _ Ec). cbn [dfalse andb sm_when].
  set (h2 := closure_effect x h1) in *. rewrite (sm_bind_eq _ _ h2 (Ok tt) h2) by done.
  assert (get_dlist l h2 = set_index i c) as Eg2 by (unfold h2; rewrite Hkeep; [done|by left]).
  destruct (IH Hcs fuel (pre ++ [x]) h2) as [[Hn Hwhy]|(fuel' & -> & E & Eg)].
  - by rewrite Hl, <-app_assoc.
  - intros y h' Hy. apply Hkeep. by right.
  - rewrite Eg2, length_app. cbn [length]. f_equal. lia.
  - left. split; [done|]. destruct Hwhy as [?|?]; [left; cbn; lia|by right].
  - rewrite length_app in E, Eg. cbn [length] in E, Eg.
    replace (Z.of_nat (length pre + 1)) with (i + 1) in E, Eg by lia.
    right. exists fuel'. split_and!; [done|done|]. fold i. rewrite Eg. f_equal. cbn [length]. lia.
Qed.

(** What a closure does to one list. *)
Definition list_effect (l : lid) (c : dlist) (x : cb) : dlist :=
  match x with
  | CDisable l0 => if decide (l0 = l) then disable c else c
  | CLock l0 => if decide (l0 = l) then lock c else c
  | _ => c
  end.

Lemma get_effect l x h : get_dlist l (closure_effect x h) = list_effect l (get_dlist l h) x.
Proof.
  destruct x as [f|d s|l0|l0|l0]; cbn; try done;
    (destruct (decide (l0 = l)) as [->|Hne]; [by rewrite get_put_dlist|by rewrite get_put_dlist_ne]).
Qed.

Lemma get_closures l l' c i cs h : l <> l' ->
  get_dlist l' (run_closures l c i cs h) = fold_left (list_effect l') cs (get_dlist l' h).
Proof.
  intros Hl. revert i h. induction cs as [|x cs IH]; intros i h; [done|]. cbn.
  by rewrite IH, get_effect, get_put_dlist_ne.
Qed.

Lemma effect_spec l cs c :
  let c' := fold_left (list_effect l) cs c in
  opts c' = opts c /\ firing c' = firing c /\ (lst c' = lst c \/ lst c' = None).
Proof.
  revert c. induction cs as [|x cs IH]; intros c; cbn; [auto|].
  destruct (IH (list_effect l c x)) as (-> & -> & Hlst).
  assert (opts (list_effect l c x) = opts c /\ firing (list_effect l c x) = firing c
    /\ (lst (list_effect l c x) = lst c \/ lst (list_effect l c x) = None)) as (-> & -> & Hx).
  { unfold list_effect. destruct x; rewrite ?lock_eq; try (by auto); repeat case_match; cbn; auto. }
  split_and!; [done|done|]. destruct Hlst as [->|]; auto.
Qed.

(** The heap after the closures: the deferred is settled by [a]. *)
Lemma closures_Inv d a h0 m h5 : Inv h0 -> (d < next_deferred h0)%nat -> a <> Notify ->
  state_of d h0 = Pending -> fresh_list d a (get_dlist (d, a, false) h0) ->
  let l := (d, a, false) in
  let c := Cbs (row_options a) true (Some m) true true (lst (get_dlist l h0)) [] (-1) in
  h5 = run_closures l c 0 (final_closures d a) (put_dlist l c h0) ->
  get_dlist l h5 = set_index 4 c ->
  Inv h5 /\ grows h0 h5 /\ firing (get_dlist l h5) = true.
Proof.
  intros HI Hd Ha Hst (_ & Hf & _ & _ & _ & _ & us & Hus & Hlst) l c E5 Hgl.
  assert (state_of d h5 = final_state a) as Hst5
    by (rewrite E5; unfold state_of; cbn; by rewrite lookup_insert_eq).
  assert (forall d', d' <> d -> state_of d' h5 = state_of d' h0) as Hst'
    by (intros d' Hne; rewrite E5; unfold state_of; cbn; by rewrite lookup_insert_ne).
  assert (next_deferred h5 = next_deferred h0) as Hn by (by rewrite E5).
  assert (forall l', l <> l' -> get_dlist l' h5 = fold_left (list_effect l') (final_closures d a) (get_dlist l' h0)) as Hget.
  { intros l' Hne. by rewrite E5, get_closures, get_put_dlist_ne. }
  assert (forall l', l'.1.1 <> d -> get_dlist l' h5 = get_dlist l' h0) as Hother.
  { intros l' Hne. rewrite Hget by (intros <-; done). unfold final_closures. cbn.
    rewrite !decide_False by (intros <-; done). done. }
  assert (disabled_list (get_dlist (d, opposite a, false) h5)) as Hopp.
  { rewrite Hget by (unfold l; destruct a; cbn; congruence).
    assert (disabled_list (disable (get_dlist (d, opposite a, false) h0))) as Hdis.
    { destruct (final_cases d (opposite a) h0 HI Hd) as [[_ Hfr]|[[Hx _]|[Hx _]]];
        [by destruct a| |destruct a; cbn in *; congruence..].
      destruct Hfr as (? & ? & ? & ? & ? & _). by split_and!. }
    destruct a; [done|..]; cbn in *; repeat (case_decide; [|try congruence]); done. }
  assert (settled_list d a (get_dlist l h5)) as Hset.
  { rewrite Hgl. split_and!; try done; [by exists m|]. exists us. split; [done|]. left. by rewrite <-Hlst. }
  split_and!; [constructor|constructor|by rewrite Hgl].
  - intros l'. destruct (decide (l = l')) as [<-|Hne]; [by rewrite Hgl|].
    rewrite Hget by done. rewrite (proj1 (effect_spec l' _ _)). apply (inv_opts h0 HI).
  - intros l' Hl'. rewrite Hn in Hl'. rewrite Hother by lia. by apply (inv_new h0 HI).
  - intros d' Hd'. rewrite Hn in Hd'. rewrite Hst' by lia. by apply (inv_state h0 HI).
  - intros d' Hd'. rewrite Hn in Hd'. destruct (decide (d' = d)) as [->|Hne].
    + unfold final_ok. rewrite Hst5. by destruct a.
    + unfold final_ok. rewrite Hst', !Hother by done. by apply (inv_final h0 HI).
  - intros l' Hl'. assert (l <> l') as Hne by (intros <-; by apply Hl').
    rewrite Hget by done. destruct (effect_spec l' (final_closures d a) (get_dlist l' h0)) as (_ & _ & [->| ->]);
      [by apply (inv_good h0 HI)|constructor].
  - by rewrite Hn.
  - intros l' Hf'. destruct (decide (l = l')) as [<-|Hne]; [by rewrite Hgl|].
    rewrite Hget by done. by rewrite (proj1 (proj2 (effect_spec l' _ _))).
  - intros d' Hd'. destruct (decide (d' = d)) as [->|Hne]; [done|].
    unfold value_of. by rewrite Hst', !Hother.
Qed.

(** A first firing is the closures and the rest. *)
Lemma fresh_run fuel fuel2 d a h0 m : Inv h0 -> (d < next_deferred h0)%nat -> a <> Notify ->
  state_of d h0 = Pending -> fresh_list d a (get_dlist (d, a, false) h0) ->
  let l := (d, a, false) in
  let c := Cbs (row_options a) true (Some m) true true (lst (get_dlist l h0)) [] (-1) in
  let h5 := run_closures l c 0 (final_closures d a) (put_dlist l c h0) in
  (finish fuel fuel2 l (put_dlist l c h0)).1 = NoFuel \/
  exists fuel', finish fuel fuel2 l (put_dlist l c h0) = finish fuel' fuel2 l h5
    /\ going l h5 /\ grows h0 h5 /\ get_dlist l h5 = set_index 4 c.
Proof.
  intros HI Hd Ha Hst Hfr l c h5. pose proof Hfr as (_ & Hf & _ & _ & _ & _ & us & Hus & Hlst).
  destruct (fire_closures fuel l c [] (final_closures d a) (CFire (d, a, true) :: us) m (put_dlist l c h0))
    as [[Hn _]|(fuel' & _ & E & Hg)]; try done.
  - by repeat constructor.
  - intros x h Hx. destruct a; [done|..]; unfold final_closures in Hx; cbn in Hx;
      repeat (apply elem_of_cons in Hx as [->|Hx]; [cbn; rewrite ?get_put_dlist_ne by (unfold l; congruence); done|]);
      by apply elem_of_nil in Hx.
  - rewrite get_put_dlist. done.
  - left. destruct (fire_calls _ _ _ _ _ fuel l _) as [r h'] eqn:Ec. cbn in Hn. subst r.
    unfold finish, mbind, sm_bind. by rewrite Ec.
  - right. exists fuel'. fold h5 in E, Hg.
    destruct (closures_Inv d a h0 m h5 HI Hd Ha Hst Hfr eq_refl) as (HI5 & Hg5 & Hf5); [exact Hg|].
    split_and!; [|split_and!; [done| |done]|done|exact Hg].
    + unfold finish, mbind, sm_bind. by rewrite E.
    + pose proof (grow_next _ _ Hg5). cbn. lia.
Qed.

Lemma finish_fresh fuel d a h0 m : Inv h0 -> (d < next_deferred h0)%nat -> a <> Notify ->
  state_of d h0 = Pending -> fresh_list d a (get_dlist (d, a, false) h0) ->
  let l := (d, a, false) in
  let c := Cbs (row_options a) true (Some m) true true (lst (get_dlist l h0)) [] (-1) in
  let r := finish fuel fuel l (put_dlist l c h0) in
  r.1 <> NoFuel -> Inv r.2 /\ grows h0 r.2 /\ state_of d r.2 = final_state a /\ value_of d r.2 = Some m.
Proof.
  intros HI Hd Ha Hst Hfr l c r Hn. unfold r in *.
  destruct (fresh_run fuel fuel d a h0 m HI Hd Ha Hst Hfr) as [Hn'|(fuel' & E & Hgo & Hg & Hl)]; [done|].
  fold l c in E, Hgo, Hg, Hl. rewrite E in *.
  destruct (finish_keeps fuel' fuel d a _ Ha Hgo Hn) as [Es Ev]. fold l c in Es, Ev. rewrite Es, Ev.
  destruct (finish_final fuel' fuel d a h0 _ Ha Hg (proj1 (proj2 Hfr)) Hgo Hn) as [HI' Hg'].
  pose proof Hgo as (HI5 & Hl5 & Hf5). destruct (final_firing d a _ HI5 Hl5 Ha Hf5) as [Hs5 _].
  fold l c. split_and!; [done|done|done|]. unfold value_of. rewrite Hs5. destruct a; [done|..]; cbn [final_state]; fold l; by rewrite Hl.
Qed.

(** *** The methods of lists *)

Lemma fire_list_finish fuel l c h c' : next_run (fire_start c) = Some c' ->
  fire_list get_dlist put_dlist call DUndef dfalse (S fuel) l (put_dlist l c h)
  = finish fuel fuel l (put_dlist l c' h).
Proof.
  intros Hc. unfold fire_list.
  rewrite (sm_bind_eq _ _ _ (Ok tt) (put_dlist l (fire_start c) h))
    by (unfold upd, sm_mod; by rewrite get_put_dlist, put_put_dlist).
  unfold finish. unfold mbind at 1 2, sm_bind at 1 2. rewrite fire_loop_S, get_put_dlist, Hc, put_put_dlist. done.
Qed.

(** The call that settles a deferred. *)
Lemma fireWith_fresh fuel d a this args h : Inv h -> (d < next_deferred h)%nat -> a <> Notify ->
  state_of d h = Pending -> fresh_list d a (get_dlist (d, a, false) h) ->
  let l := (d, a, false) in
  fireWith get_dlist put_dlist call DUndef dfalse (S fuel) l this args h
  = finish fuel fuel l
      (put_dlist l (Cbs (row_options a) true (Some (this, args)) true true (lst (get_dlist l h)) [] (-1)) h).
Proof.
  intros HI Hl Ha Hst (Hk & Hf & Hq & Hm & Hfd & Hi & _) l. unfold fireWith. fold l in Hk, Hf, Hq, Hm, Hfd, Hi.
  rewrite (sm_bind_eq _ _ h (Ok (get_dlist l h)) h) by done. rewrite Hk.
  set (c1 := set_queue (queue (get_dlist l h) ++ [(this, args)]) (get_dlist l h)).
  rewrite (sm_bind_eq _ _ h (Ok tt) (put_dlist l c1 h)) by done.
  rewrite Hf. cbn [negb sm_when]. apply fire_list_finish.
  unfold next_run, c1. cbn. rewrite Hq. cbn. unfold set_memory, set_queue; cbn.
  rewrite Hk, Hi, (inv_opts h HI). cbn. rewrite row_once, bool_decide_true by done. done.
Qed.

Lemma fireWith_settled fuel d a this args h : Inv h -> (d < next_deferred h)%nat -> a <> Notify ->
  state_of d h = Pending -> let r := fireWith get_dlist put_dlist call DUndef dfalse fuel (d, a, false) this args h in
  r.1 <> NoFuel ->
  Inv r.2 /\ grows h r.2 /\ state_of d r.2 = final_state a /\ value_of d r.2 = Some (this, args).
Proof.
  intros HI Hd Ha Hst r Hn. unfold r in *.
  destruct (final_cases d a h HI Hd Ha) as [[_ Hfr]|[[Hx _]|[Hx _]]]; [|rewrite Hx in Hst; by destruct a..].
  destruct fuel as [|fuel].
  - exfalso. apply Hn. unfold fireWith. destruct Hfr as (Hk & Hf & _).
    rewrite (sm_bind_eq _ _ h (Ok (get_dlist (d, a, false) h)) h) by done. rewrite Hk, Hf. done.
  - rewrite (fireWith_fresh fuel d a this args h HI Hd Ha Hst Hfr) in *. by apply finish_fresh.
Qed.

Lemma fireWith_sound fuel l this args h : Inv h -> (l.1.1 < next_deferred h)%nat ->
  sound_at (fireWith get_dlist put_dlist call DUndef dfalse fuel l this args) h.
Proof.
  intros HI Hl. destruct (final_dec l) as [Hfin|Hfin].
  - destruct l as [[d a] b], Hfin as [Ha Hb]. cbn in Ha, Hb, Hl. subst b.
    destruct (final_cases d a h HI Hl Ha) as [[Hst _]|Hlocked].
    + intros Hn. by destruct (fireWith_settled fuel d a this args h HI Hl Ha Hst Hn) as (? & ? & _).
    + assert (locked (get_dlist (d, a, false) h) = true) as Hk
        by (destruct Hlocked as [[_ (Hk' & _)]|[_ ((_ & _ & Hk' & _) & _)]]; done).
      unfold fireWith, sound_at. rewrite (sm_bind_eq _ _ h (Ok (get_dlist (d, a, false) h)) h) by done.
      rewrite Hk. by split.
  - unfold fireWith, sound_at. rewrite (sm_bind_eq _ _ h (Ok (get_dlist l h)) h) by done.
    destruct (locked (get_dlist l h)) eqn:Hk; [by split|].
    set (c1 := set_queue (queue (get_dlist l h) ++ [(this, args)]) (get_dlist l h)).
    rewrite (sm_bind_eq _ _ h (Ok tt) (put_dlist l c1 h)) by done.
    pose proof (inv_good h HI l Hfin) as Hgood. pose proof (inv_opts h HI l) as Ho.
    destruct (firing (get_dlist l h)) eqn:Hf; cbn [negb sm_when].
    + intros _. by apply put_good.
    + destruct fuel as [|fuel]; [done|].
      destruct (next_run (fire_start c1)) as [c'|] eqn:En;
        [|unfold next_run, c1 in En; cbn in En; by destruct (queue (get_dlist l h))].
      rewrite (fire_list_finish fuel l c1 h _ En).
      apply start_inv in En as (m & q & _ & ->).
      match goal with |- context [put_dlist l ?c h] =>
        destruct (put_good l c h h HI (reflexivity h) Hl Hfin) as [HI1 Hg1]; [done|done|done|] end.
      apply finish_other; try done. split_and!; [done|done|by rewrite get_put_dlist].
Qed.

Lemma add_sound fuel l args h : Inv h -> (l.1.1 < next_deferred h)%nat ->
  Forall is_fn (fns_list args) -> sound_at (add get_dlist put_dlist call DUndef dfalse fuel l args) h.
Proof.
  intros HI Hl Hargs. unfold add, sound_at. set (c := get_dlist l h).
  rewrite (sm_bind_eq _ _ h (Ok c) h) by done.
  destruct (lst c) as [fs|] eqn:Hlst; [|by split].
  set (c1 := add_pre args c). rewrite (sm_bind_eq _ _ h (Ok tt) (put_dlist l c1 h)) by done.
  pose proof (inv_opts h HI l) as Ho. fold c in Ho.
  assert (lst c1 = Some (fs ++ fns_list args)) as Hlst1
    by (unfold c1; by rewrite add_pre_lst, Hlst, Ho, row_unique).
  destruct (add_pre_frame args c) as (x & q & i & E1 & Hno & Hyes). fold c1 in E1.
  assert (forall us, Forall is_fn us -> Forall is_fn (us ++ fns_list args)) as Happ
    by (intros us Hus; by apply Forall_app).
  assert (x = Some (fs ++ fns_list args)) as -> by (rewrite E1 in Hlst1; exact Hlst1).
  clearbody c1. subst c1.
  destruct (replays c) eqn:Hr; cbn [sm_when].
  - assert (exists m, memory c = Some m) as [m Hm] by (unfold replays in Hr; destruct (memory c); [by eexists|done]).
    assert (firing c = false) as Hf by (unfold replays in Hr; rewrite Hm in Hr; by destruct (firing c)).
    specialize (Hyes m Hm eq_refl).
    destruct fuel as [|fuel]; [done|].
    destruct (next_run (fire_start (set_lst (Some (fs ++ fns_list args)) (set_queue q (set_index i c))))) as [c'|] eqn:En;
      [|unfold next_run in En; cbn in En; rewrite Hyes in En; by destruct (queue c)].
    rewrite (fire_list_finish fuel l _ h _ En). apply start_inv in En as (m' & q' & Eq & ->).
    cbn in Eq. rewrite Hyes in Eq. cbn [opts locked lst firingIndex set_lst set_queue set_index].
    match goal with |- context [put_dlist l ?c h] => set (c2 := c) end.
    destruct (final_dec l) as [Hfin|Hfin].
    + destruct l as [[d a] b], Hfin as [Ha Hb]. cbn in Ha, Hb, Hl. subst b.
      destruct (final_cases d a h HI Hl Ha) as [[_ (_ & _ & _ & Hm' & _)]|[[Hst Hset]|[_ ((Hl' & _) & _)]]];
        [fold c in Hm'; congruence| |fold c in Hl'; congruence].
      destruct Hset as (Hk & Hq & _ & us & Hus & [(_ & Hf' & _)|Hlst']);
        [fold c in Hf'; congruence|]. fold c in Hk, Hq, Hlst'. rewrite Hq in Eq. injection Eq as <- <-.
      destruct (put_settled d a c2 h h HI (reflexivity h) Hl Ha Hst) as [HI1 Hg1]; [|done|done|by fold c; rewrite Hm|].
      * split_and!; cbn; [by rewrite Hk|done|by exists m|]. exists (us ++ fns_list args). split; [by apply Happ|].
        right. rewrite Hlst in Hlst'. by injection Hlst' as ->.
      * apply finish_final; try done. split_and!; [done|done|by rewrite get_put_dlist].
    + destruct (put_good l c2 h h HI (reflexivity h) Hl Hfin) as [HI1 Hg1]; [done|done| |].
      * cbn. pose proof (inv_good h HI l Hfin) as Hg. fold c in Hg. rewrite Hlst in Hg.
        apply Forall_app. split; [done|]. apply (Forall_impl _ _ _ Hargs). by left.
      * apply finish_other; try done. split_and!; [done|done|by rewrite get_put_dlist].
  - intros _. cbn [snd sm_when mret sm_ret]. destruct (Hno eq_refl) as [-> ->].
    match goal with |- context [put_dlist l ?c h] => set (c2 := c) end.
    destruct (final_dec l) as [Hfin|Hfin].
    + destruct l as [[d a] b], Hfin as [Ha Hb]. cbn in Ha, Hb, Hl. subst b.
      destruct (final_cases d a h HI Hl Ha) as [[Hst Hfr]|[[Hst Hset]|[_ ((Hl' & _) & _)]]];
        [| |fold c in Hl'; congruence].
      * destruct Hfr as (? & ? & ? & ? & ? & ? & us & Hus & Hlst'). fold c in Hlst'.
        apply put_fresh; try done. split_and!; try done. exists (us ++ fns_list args).
        split; [by apply Happ|]. assert (fs = closures d a ++ us) as -> by congruence. unfold c2. cbn [lst set_lst]. by rewrite <-app_assoc.
      * destruct Hset as (? & ? & ? & us & Hus & Hlst'). fold c in Hlst'.
        apply put_settled; try done. split_and!; try done. exists (us ++ fns_list args).
        split; [by apply Happ|]. destruct Hlst' as [(E & ? & ?)|E]; [assert (fs = closures d a ++ us) as -> by congruence|assert (fs = us) as -> by congruence].
        -- left. split_and!; [unfold c2; cbn [lst set_lst]; by rewrite <-app_assoc|done|done].
        -- by right.
    + apply put_good; try done. cbn. pose proof (inv_good h HI l Hfin) as Hg. fold c in Hg. rewrite Hlst in Hg.
      apply Forall_app. split; [done|]. apply (Forall_impl _ _ _ Hargs). by left.
Qed.

Lemma list_add_sound fuel l args : Forall is_fn (fns_list args) -> sound (list_add call fuel l args).
Proof.
  intros Hargs h HI. unfold list_add, on_list. apply sound_at_bind; [by split|].
  intros n h' [= <- <-] _ _. destruct (l.1.1 <? _)%nat eqn:E; bool_hyps; [by apply add_sound|by split].
Qed.

Lemma list_fireWith_sound fuel l this args : sound (list_fireWith call fuel l this args).
Proof.
  intros h HI. unfold list_fireWith, on_list. apply sound_at_bind; [by split|].
  intros n h' [= <- <-] _ _. destruct (l.1.1 <? _)%nat eqn:E; bool_hyps; [by apply fireWith_sound|by split].
Qed.

Lemma list_fireWith_settles fuel d a this args h : Inv h -> (d < next_deferred h)%nat -> a <> Notify ->
  state_of d h = Pending -> let r := list_fireWith call fuel (d, a, false) this args h in
  r.1 <> NoFuel ->
  Inv r.2 /\ grows h r.2 /\ state_of d r.2 = final_state a /\ value_of d r.2 = Some (this, args).
Proof.
  intros HI Hd Ha Hst r. unfold r, list_fireWith, on_list.
  rewrite (sm_bind_eq _ _ h (Ok (next_deferred h)) h) by done.
  rewrite (proj2 (Nat.ltb_lt _ _)) by done. by apply fireWith_settled.
Qed.

(** *** A new deferred *)

(** Adding to a list that remembers nothing. *)
Lemma add_plain fuel l fs gs h :
  (l.1.1 < next_deferred h)%nat -> let c := get_dlist l h in
  lst c = Some fs -> memory c = None -> o_unique (opts c) = false ->
  list_add call fuel l (List.map AFn gs) h = (Ok tt, put_dlist l (set_lst (Some (fs ++ gs)) c) h).
Proof.
  intros Hn c Hl Hm Hu. unfold list_add, on_list.
  rewrite (sm_bind_eq _ _ h (Ok (next_deferred h)) h) by done.
  rewrite (proj2 (Nat.ltb_lt _ _)) by done. unfold add.
  rewrite (sm_bind_eq _ _ h (Ok c) h) by done. rewrite Hl.
  assert (add_pre (List.map AFn gs) c = set_lst (Some (fs ++ gs)) c) as E
    by (unfold add_pre; by rewrite Hm, add_args_fns, fns_list_fns, add_fns_plain, Hl).
  rewrite (sm_bind_eq _ _ h (Ok tt) (put_dlist l (set_lst (Some (fs ++ gs)) c) h))
    by (unfold upd, sm_mod; fold c; by rewrite E).
  unfold replays. by rewrite Hm.
Qed.

Definition with_lst (a : action) (fs : list cb) : dlist := set_lst (Some fs) (new_cbs (row_options a)).

Lemma init_row_eq fuel d a h :
  (d < next_deferred h)%nat -> get_dlist (d, a, false) h = new_cbs (row_options a) ->
  init_row call fuel d a h
  = (Ok tt, put_dlist (d, a, false) (with_lst a (match a with Notify => [] | _ => final_closures d a end
      ++ [CFire (d, a, true)])) h).
Proof.
  intros Hd Hg. unfold init_row.
  set (pre := match a with Notify => [] | _ => final_closures d a end).
  assert (exists h1, (match a with
     | Notify => mret tt
     | _ => list_add call fuel (d, a, false) (List.map AFn (final_closures d a))
     end) h = (Ok tt, h1) /\ get_dlist (d, a, false) h1 = with_lst a pre
     /\ next_deferred h1 = next_deferred h /\ forall c, put_dlist (d, a, false) c h1 = put_dlist (d, a, false) c h)
    as (h1 & E & Hg1 & Hn1 & Hp1).
  { destruct a; [exists h; by rewrite Hg|..];
      (eexists; rewrite (add_plain fuel (d, _, false) []); [|done|by rewrite Hg..];
       rewrite Hg; split_and!; [reflexivity|apply get_put_dlist|done|intros; apply put_put_dlist]). }
  rewrite (sm_bind_eq _ _ _ _ _ E).
  change [AFn (CFire (d, a, true))] with (List.map AFn [CFire (d, a, true)]).
  rewrite (add_plain fuel (d, a, false) pre); rewrite ?Hg1; [|by rewrite Hn1|done|done|apply row_unique].
  by rewrite Hp1.
Qed.

Lemma new_deferred_eq fuel h : Inv h -> let d := next_deferred h in
  exists h', new_deferred call fuel h = (Ok d, h') /\ next_deferred h' = S d
    /\ state_of d h' = Pending /\ (forall d', d' <> d -> state_of d' h' = state_of d' h)
    /\ (forall a, get_dlist (d, a, false) h'
         = with_lst a (match a with Notify => [] | _ => final_closures d a end ++ [CFire (d, a, true)]))
    /\ (forall l, l.1.1 <> d \/ l.2 = true -> get_dlist l h' = get_dlist l h)
    /\ tasks h' = tasks h /\ next_depth h' = next_depth h /\ depths h' = depths h
    /\ whens h' = whens h /\ next_when h' = next_when h.
Proof.
  intros HI d. set (h1 := set_state d Pending (set_next_deferred (S d) h)).
  set (c a := with_lst a (match a with Notify => [] | _ => final_closures d a end ++ [CFire (d, a, true)])).
  set (h2 := put_dlist (d, Notify, false) (c Notify) h1).
  set (h3 := put_dlist (d, Resolve, false) (c Resolve) h2).
  set (h4 := put_dlist (d, Reject, false) (c Reject) h3).
  assert (forall a, get_dlist (d, a, false) h1 = new_cbs (row_options a)) as Hnew
    by (intros a; change (get_dlist (d, a, false) h = new_cbs (row_options a)); by apply (inv_new h HI (d, a, false))).
  exists h4. split_and!.
  - unfold new_deferred.
    rewrite (sm_bind_eq _ _ h (Ok d) h) by done.
    rewrite (sm_bind_eq _ _ h (Ok tt) (set_next_deferred (S d) h)) by done.
    rewrite (sm_bind_eq _ _ _ (Ok tt) h1) by done.
    rewrite (sm_bind_eq _ _ _ (Ok tt) h2) by (apply init_row_eq; [cbn; lia|apply Hnew]).
    rewrite (sm_bind_eq _ _ _ (Ok tt) h3)
      by (apply init_row_eq; [cbn; lia|unfold h2; rewrite get_put_dlist_ne by congruence; apply Hnew]).
    rewrite (sm_bind_eq _ _ _ (Ok tt) h4); [done|].
    apply init_row_eq; [cbn; lia|]. unfold h3, h2. rewrite !get_put_dlist_ne by congruence. apply Hnew.
  - done.
  - unfold state_of. cbn. by rewrite lookup_insert_eq.
  - intros d' Hd'. unfold state_of. cbn. by rewrite lookup_insert_ne.
  - intros []; unfold h4, h3, h2; rewrite ?get_put_dlist_ne by congruence; apply get_put_dlist.
  - intros l Hl. unfold h4, h3, h2. rewrite !get_put_dlist_ne; [done|..]; intros <-; destruct Hl; done.
  - done.
  - done.
  - done.
  - done.
  - done.
Qed.

Lemma new_deferred_sound fuel : sound (new_deferred call fuel).
Proof.
  intros h HI. destruct (new_deferred_eq fuel h HI) as (h' & E & Hn & Hs & Hs' & Hg & Hg' & _).
  unfold sound_at. rewrite E. intros _. cbn [snd]. set (d := next_deferred h) in *.
  assert (forall l, ~ (l.1.1 = d /\ l.2 = false) -> get_dlist l h' = get_dlist l h) as Hold.
  { intros l Hl. apply Hg'. destruct l as [[d' a] []]; [by right|left]. intros Hd. by apply Hl. }
  split; constructor.
  - intros l. destruct (decide (l.1.1 = d /\ l.2 = false)) as [[Hd Hb]|Hne].
    + destruct l as [[d' a] b]. cbn in Hd, Hb. subst. by rewrite Hg.
    + rewrite Hold by done. apply (inv_opts h HI).
  - intros l Hl. rewrite Hn in Hl. rewrite Hold by lia. apply (inv_new h HI). lia.
  - intros d' Hd'. rewrite Hn in Hd'. rewrite Hs' by lia. apply (inv_state h HI). lia.
  - intros d' Hd'. rewrite Hn in Hd'. destruct (decide (d' = d)) as [->|Hne].
    + unfold final_ok. rewrite Hs, !Hg. by split; (split_and!; try done; exists []).
    + unfold final_ok. rewrite Hs', !Hg' by auto. apply (inv_final h HI). lia.
  - intros l Hl. destruct (decide (l.1.1 = d /\ l.2 = false)) as [[Hd Hb]|Hne].
    + destruct l as [[d' a] b]. cbn in Hd, Hb. subst. rewrite Hg.
      destruct a; [|exfalso; by apply Hl..]. cbn. constructor; [|constructor]. right. by exists d, Notify.
    + rewrite Hold by done. by apply (inv_good h HI).
  - lia.
  - intros l Hf. destruct (decide (l.1.1 = d /\ l.2 = false)) as [[Hd Hb]|Hne].
    + rewrite (inv_new h HI) in Hf by lia. done.
    + by rewrite Hold.
  - intros d' Hd'. assert (d' <> d) as Hne.
    { intros ->. apply Hd'. apply (inv_state h HI). lia. }
    split; [by apply Hs'|]. unfold value_of. by rewrite Hs', !Hg' by auto.
Qed.

(** *** The functions *)

Lemma call_fn_sound f this args : sound (call_fn call f this args).
Proof. apply call_sound. left. by exists f. Qed.

Lemma mod_sound f : (forall h, same_lists h (f h)) -> sound (sm_mod f).
Proof. apply sound_same. Qed.

Hint Resolve list_fireWith_sound new_deferred_sound call_fn_sound : jslib.

Lemma add_fn_sound fuel l f : sound (list_add call fuel l [AFn (CFn f)]).
Proof. apply list_add_sound. repeat constructor. by exists f. Qed.

Hint Resolve add_fn_sound : jslib.

Lemma to_arg_fns : forall v, Forall is_fn (fns (to_arg v)).
Proof.
  fix IH 1. intros [| | | | | |l| | | |f]; try by constructor.
  - cbn. induction l as [|v l IHl]; cbn; [constructor|]. apply Forall_app. by split.
  - repeat constructor. by exists f.
Qed.

Lemma to_args_fns args : Forall is_fn (fns_list (List.map to_arg args)).
Proof.
  induction args as [|v args IH]; cbn; [constructor|]. apply Forall_app. split; [apply to_arg_fns|done].
Qed.

Ltac sound_step :=
  first
    [ apply sound_ret | apply sound_get | apply sound_throw | apply list_fireWith_sound
    | apply new_deferred_sound | apply call_fn_sound | apply add_fn_sound
    | apply mod_sound; done
    | apply sound_bind; [|intros ?]
    | case_match ].

Lemma then_sound fuel d f g p : sound (then_ call fuel d f g p).
Proof. unfold then_. cbv zeta. repeat sound_step. Qed.

Lemma mightThrow_sound fuel r depth d f special this args :
  sound (mightThrow call fuel r depth d f special this args).
Proof. unfold mightThrow. repeat sound_step. Qed.

Lemma process_sound fuel r depth d f special this args :
  sound (process call fuel r depth d f special this args).
Proof.
  unfold process. destruct special; [apply mightThrow_sound|].
  apply sound_catch; [apply mightThrow_sound|intros e; repeat sound_step].
Qed.

Lemma adoptValue_sound v f g b : sound (adoptValue call v f g b).
Proof. apply sound_catch; [repeat sound_step|intros e; repeat sound_step]. Qed.

Lemma when_loop_sound i w master : sound (when_loop call i w master).
Proof.
  induction i as [|i IH]; cbn [when_loop]; [apply sound_ret|].
  apply sound_bind; [apply sound_get|intros v].
  apply sound_bind; [apply adoptValue_sound|intros _; apply IH].
Qed.

Lemma when_sound fuel args : sound (when call fuel args).
Proof.
  unfold when. cbv zeta.
  assert (forall n w m, sound (when_loop call n w m ;; mret (DPromise m))) as Hagg
    by (intros; apply sound_bind; [apply when_loop_sound|intros _; apply sound_ret]).
  repeat (apply sound_bind; [first [apply new_deferred_sound|apply sound_get|by apply mod_sound]|intros ?]).
  case_match; [|apply Hagg].
  apply sound_bind; [apply call_fn_sound|intros _].
  apply sound_bind; [apply adoptValue_sound|intros _].
  repeat (apply sound_bind; [apply sound_get|intros ?]).
  case_match; [apply then_sound|apply Hagg].
Qed.

Lemma run_dprog_sound p : sound (run_dprog call p).
Proof.
  induction p as [v|v|f this args k IHk hd IHh]; [apply sound_ret|apply sound_throw|].
  intros h HI. unfold sound_at. cbn [run_dprog]. pose proof (call_fn_sound f this args h HI) as Hc.
  unfold sound_at in Hc. destruct (call_fn call f this args h) as [[v|e|] h'] eqn:E; cbn in Hc; [| |done].
  - destruct (Hc ltac:(done)) as [HI' Hg]. intros Hn. destruct (IHk v h' HI' Hn). split; [done|by etrans].
  - destruct (Hc ltac:(done)) as [HI' Hg]. intros Hn. destruct (IHh (thrown h') h' HI' Hn). split; [done|by etrans].
Qed.

Lemma apply_fn_sound user fuel f this args : sound (apply_fn user call fuel f this args).
Proof.
  assert (forall {A} (m : SM dheap A), sound m -> sound (m ;; mret this)) as Hret
    by (intros; apply sound_bind; [done|intros _; apply sound_ret]).
  assert (forall (m : SM dheap unit), sound m -> sound (m ;; mret DUndef)) as Hundef
    by (intros; apply sound_bind; [done|intros _; apply sound_ret]).
  destruct f; cbn [apply_fn]; unfold act, always, catch, identity, thrower, resolver, deferred.
  - apply run_dprog_sound.
  - apply Hret, list_fireWith_sound.
  - apply Hret, list_fireWith_sound.
  - apply Hret, list_add_sound, to_args_fns.
  - apply sound_get.
  - apply sound_bind; [apply call_fn_sound|intros _]. apply Hret, call_fn_sound.
  - apply then_sound.
  - unfold pipe. cbv zeta. repeat sound_step.
  - apply then_sound.
  - apply sound_ret.
  - apply sound_ret.
  - apply sound_throw.
  - apply Hundef. destruct depth; [by apply mod_sound|apply process_sound].
  - unfold piped. repeat sound_step.
  - unfold update. cbv zeta. apply sound_bind; [by apply mod_sound|intros _].
    apply sound_bind; [apply sound_get|intros v]. apply Hundef, sound_when, list_fireWith_sound.
  - apply sound_bind; [apply new_deferred_sound|intros d]. destruct (as_fn _); [|apply sound_ret].
    apply sound_bind; [apply call_fn_sound|intros _; apply sound_ret].
  - apply when_sound.
Qed.

Lemma apply_cb_sound user fuel c this args : good_cb c -> sound (apply_cb user call fuel c this args).
Proof.
  intros [[f ->]|(d & a & ->)]; cbn [apply_cb]; [apply apply_fn_sound|].
  apply sound_bind; [apply list_fireWith_sound|intros _; apply sound_ret].
Qed.
End sound_calls.

(** ** Every program of the page *)

Section programs.
Context (user : N -> val -> list val -> dprog).

Lemma dcall_closure fuel c this args h : is_closure c ->
  (dcall user fuel c this args h).1 = NoFuel \/
  dcall user fuel c this args h = (Ok DUndef, closure_effect c h).
Proof. destruct fuel; [by left|]. destruct c; try done; by right. Qed.

Lemma dcall_sound fuel c this args : good_cb c -> sound (dcall user fuel c this args).
Proof.
  revert c this args. induction fuel as [|fuel IH]; intros c this args Hc; [intros h HI []; done|].
  cbn [dcall]. apply apply_cb_sound; [done|apply dcall_closure|done].
Qed.

Lemma drun_sound fuel p : sound (drun user fuel p).
Proof. apply run_dprog_sound. apply dcall_sound. Qed.

Lemma run_task_sound fuel : sound (run_task user fuel).
Proof.
  intros h HI. unfold sound_at, run_task.
  assert (forall ts, Inv (set_tasks ts h) /\ grows h (set_tasks ts h)) as Hts
    by (intros ts; by apply same_Inv).
  destruct (tasks h) as [|[f this args] ts]; [by split|].
  destruct f; try (intros _; apply Hts). intros Hn. destruct (Hts ts) as [HI' Hg].
  destruct (process_sound (dcall user fuel) (dcall_sound fuel) (dcall_closure fuel) fuel r depth d f special
    this args _ HI' Hn). split; [done|by etrans].
Qed.

Lemma empty_Inv : Inv empty_heap.
Proof.
  constructor; try done. cbn. lia.
Qed.
End programs.
