(* ===== verification/DeferredProps.v ===== *)
(** * The properties of deferreds

    What a promise promises: it settles once, its handlers wait for the event
    loop and run in order, a derived promise settles by what its handler does,
    and [when] collects values in order. *)

From S2P Require Import Prelude JsNum Callbacks CallbacksFacts CallbacksProps Deferred DeferredFacts.

(** ** The event loop *)

Section event_loop.
Context (user : N -> val -> list val -> dprog).

(** A turn: a script of the page, or the first waiting function. *)
Inductive turn : dheap -> dheap -> Prop :=
  | turn_script fuel p h r h' : drun user fuel p h = (r, h') -> r <> NoFuel -> turn h h'
  | turn_task fuel h r h' : run_task user fuel h = (r, h') -> r <> NoFuel -> turn h h'.

Lemma script_turn fuel p h : (drun user fuel p h).1 <> NoFuel -> turn h (drun user fuel p h).2.
Proof. intros Hn. eapply turn_script; [apply surjective_pairing|done]. Qed.

Lemma task_turn fuel h : (run_task user fuel h).1 <> NoFuel -> turn h (run_task user fuel h).2.
Proof. intros Hn. eapply turn_task; [apply surjective_pairing|done]. Qed.

Definition reachable (h : dheap) : Prop := rtc turn empty_heap h.

Lemma turn_Inv h h' : turn h h' -> Inv h -> Inv h' /\ grows h h'.
Proof.
  intros [fuel p h1 r h2 E Hr|fuel h1 r h2 E Hr] HI.
  - pose proof (drun_sound user fuel p h1 HI) as Hs. unfold sound_at in Hs. rewrite E in Hs. by apply Hs.
  - pose proof (run_task_sound user fuel h1 HI) as Hs. unfold sound_at in Hs. rewrite E in Hs. by apply Hs.
Qed.

Lemma turns_Inv h h' : rtc turn h h' -> Inv h -> Inv h' /\ grows h h'.
Proof.
  intros Ht. induction Ht as [h|h1 h2 h3 H12 _ IH]; intros HI; [by split|].
  destruct (turn_Inv h1 h2 H12 HI) as [HI2 Hg]. destruct (IH HI2) as [HI3 Hg'].
  split; [done|by etrans].
Qed.

Lemma reachable_Inv h : reachable h -> Inv h.
Proof. intros Hr. apply (turns_Inv _ _ Hr), empty_Inv. Qed.

(** The final list of a deferred that is not the one it settled by. *)
Definition other_list (d : nat) (h : dheap) : lid :=
  (d, match state_of d h with Resolved => Reject | _ => Resolve end, false).

(** C15: whatever the scripts and the functions of the page do, a deferred that
    is resolved or rejected stays so, with the context and the values of the call
    that settled it, and the callbacks of the other outcome never fired and are
    gone for ever. *)
Theorem deferred_settles_once h h' d :
  reachable h -> rtc turn h h' -> state_of d h <> Pending ->
  state_of d h' = state_of d h /\ value_of d h' = value_of d h /\ (exists m, value_of d h = Some m)
  /\ let c := get_dlist (other_list d h) h' in lst c = None /\ fired c = false /\ firing c = false.
Proof.
  intros Hr Ht Hs. pose proof (reachable_Inv h Hr) as HI.
  destruct (turns_Inv h h' Ht HI) as [HI' Hg]. destruct (grow_state _ _ Hg d Hs) as [Es Ev].
  assert (d < next_deferred h)%nat as Hd.
  { destruct (decide (d < next_deferred h)%nat); [done|]. exfalso. apply Hs, (inv_state h HI). lia. }
  assert (d < next_deferred h')%nat as Hd' by (pose proof (grow_next _ _ Hg); lia).
  pose proof (inv_final h HI d Hd) as Hf. pose proof (inv_final h' HI' d Hd') as Hf'.
  unfold final_ok in *. rewrite Es in Hf'.
  split; [done|]. split; [done|]. unfold value_of, other_list in *. destruct (state_of d h); [done|..].
  - split; [apply Hf|]. destruct Hf' as [_ ((? & _) & ? & ?)]. by split_and!.
  - split; [apply Hf|]. destruct Hf' as [((? & _) & ? & ?) _]. by split_and!.
Qed.
End event_loop.

(** ** Chains of [then] *)

Section chains.
Context (user : N -> val -> list val -> dprog).
Abbreviation run fuel := (dcall user fuel).

(** The processors that [then] adds, and the waiting functions they become. *)
Definition deferred_fn (f : fn) : Prop := exists r nd g s, f = FProcess r 0 nd g s.

Definition waiting (this : val) (args : list val) (f : fn) : task := Task f this args.

Lemma run_processor n f this args h : deferred_fn f ->
  run (S n) (CFn f) this args h = (Ok DUndef, set_tasks (tasks h ++ [waiting this args f]) h).
Proof. intros (r & nd & g & s & ->). done. Qed.

Lemma put_dlist_tasks l c h : tasks (put_dlist l c h) = tasks h.
Proof. done. Qed.

Lemma call_all_tasks n l c fs : Forall deferred_fn fs -> forall i this args h,
  tasks (call_all put_dlist (run (S n)) l c i (CFn <$> fs) this args h)
  = tasks h ++ (waiting this args <$> fs).
Proof.
  intros Hfs. induction Hfs as [|f fs Hf _ IH]; intros i this args h; [cbn; by rewrite app_nil_r|].
  cbn [fmap list_fmap call_all]. rewrite (run_processor n f) by done. cbn [snd].
  rewrite IH. cbn. by rewrite <-app_assoc.
Qed.

(** Firing a list of handlers. *)
Lemma handlers_fire n d a fs this args h : (d < next_deferred h)%nat ->
  get_dlist (d, a, true) h = with_lst a (CFn <$> fs) -> Forall deferred_fn fs -> (2 + length fs <= n)%nat ->
  exists h', list_fireWith (run n) n (d, a, true) this args h = (Ok tt, h')
    /\ tasks h' = tasks h ++ (waiting this args <$> fs)
    /\ (forall l, l <> (d, a, true) -> get_dlist l h' = get_dlist l h).
Proof.
  intros Hd Hg Hfs Hn. unfold list_fireWith, on_list.
  rewrite (sm_bind_eq _ _ h (Ok (next_deferred h)) h) by done.
  rewrite (proj2 (Nat.ltb_lt _ _)) by done.
  destruct n as [|n]; [lia|].
  rewrite (fire_in_order_aux get_dlist put_dlist get_put_dlist put_put_dlist (run (S n)) DUndef dfalse
    (S n) (d, a, true) (CFn <$> fs) this args h); rewrite ?Hg; try done.
  2: { apply Forall_fmap, (Forall_impl _ _ _ Hfs). intros f Hf this' args' h'. cbn.
       exists DUndef, (set_tasks (tasks h' ++ [waiting this' args' f]) h').
       split_and!; [by apply (run_processor n)|done|done]. }
  2: { rewrite length_fmap. lia. }
  eexists. split; [reflexivity|]. split.
  - rewrite put_dlist_tasks, call_all_tasks by done. done.
  - intros l Hl. rewrite get_put_dlist_ne by done.
    assert (forall fs' i h0, Forall deferred_fn fs' ->
      get_dlist l (call_all put_dlist (run (S n)) (d, a, true) (running (with_lst a (CFn <$> fs)) this args)
        i (CFn <$> fs') this args h0) = get_dlist l h0) as Hall.
    { induction fs' as [|f fs' IH]; intros i h0 Hfs'; cbn [fmap list_fmap call_all];
        [by rewrite get_put_dlist_ne|]. apply Forall_cons in Hfs' as [Hf Hfs'].
      rewrite (run_processor n f) by done. cbn [snd]. fold (fmap (M := list) CFn fs'). rewrite IH by done.
      change (get_dlist l (put_dlist (d, a, true) (set_index i (running (with_lst a (CFn <$> fs)) this args)) h0) = get_dlist l h0).
      by apply get_put_dlist_ne. }
    rewrite Hall by done. by apply get_put_dlist_ne.
Qed.

(** A deferred that waits, with nothing but the handlers [fs] of [then]. *)
Record fresh_chain (d : nat) (fs : action -> list fn) (h : dheap) : Prop := {
  fc_next : (d < next_deferred h)%nat;
  fc_state : state_of d h = Pending;
  fc_final : forall a, a <> Notify -> get_dlist (d, a, false) h = with_lst a (closures d a);
  fc_handlers : forall a, get_dlist (d, a, true) h = with_lst a (CFn <$> fs a)
}.

Lemma new_deferred_chain n h : Inv h ->
  exists h', new_deferred (run n) n h = (Ok (next_deferred h), h') /\ Inv h'
    /\ fresh_chain (next_deferred h) (fun _ => []) h' /\ next_deferred h' = S (next_deferred h)
    /\ tasks h' = tasks h /\ next_depth h' = next_depth h /\ depths h' = depths h
    /\ whens h' = whens h /\ next_when h' = next_when h
    /\ (forall d fs, fresh_chain d fs h -> fresh_chain d fs h').
Proof.
  intros HI. destruct (new_deferred_eq (run n) n h HI)
    as (h' & E & Hn & Hs & Hs' & Hg & Hg' & Ht & Hx & Hd & Hw & Hw').
  pose proof (new_deferred_sound (run n) n h HI) as Hsound. unfold sound_at in Hsound. rewrite E in Hsound.
  exists h'. split_and!; try done; [by apply Hsound|..].
  - constructor; [lia|done| |].
    + intros a Ha. rewrite Hg. by destruct a.
    + intros a. rewrite Hg' by (by right). rewrite (inv_new h HI) by (cbn; lia). done.
  - intros d fs [F1 F2 F3 F4]. constructor; [lia|rewrite Hs' by lia; done| |].
    + intros a Ha. rewrite Hg' by (left; cbn; lia). auto.
    + intros a. rewrite Hg' by (by right). auto.
Qed.

(** The handler that [then] installs in a row. *)
Definition installed (a : action) (onFulfilled onRejected onProgress : val) : fn :=
  match a with
  | Notify => default FIdentity (as_fn onProgress)
  | Resolve => default FIdentity (as_fn onFulfilled)
  | Reject => default FThrower (as_fn onRejected)
  end.

Definition processor (r nd : nat) (a : action) (f g p : val) : fn :=
  FProcess r 0 nd (installed a f g p) (bool_decide (a = Notify)).

Lemma then_chain n d fs f g p h : Inv h -> fresh_chain d fs h ->
  exists h', then_ (run n) n d f g p h = (Ok (DPromise (next_deferred h)), h') /\ Inv h'
    /\ fresh_chain d (fun a => fs a ++ [processor (next_depth h) (next_deferred h) a f g p]) h'
    /\ next_deferred h' = S (next_deferred h) /\ next_depth h' = S (next_depth h) /\ tasks h' = tasks h.
Proof.
  intros HI Hc. set (r := next_depth h). set (h1 := set_depth r 0 (set_next_depth (S r) h)).
  destruct (same_Inv h h1 ltac:(done) HI) as [HI1 _].
  destruct (new_deferred_chain n h1 HI1) as (h2 & E & HI2 & Hc2 & Hn2 & Ht2 & Hr2 & _ & _ & _ & Hkeep).
  destruct (Hkeep d fs) as [F1 F2 F3 F4]; [by destruct Hc; constructor|]. change (next_deferred h1) with (next_deferred h) in *.
  set (nd := next_deferred h) in *.
  set (q a := CFn (processor r nd a f g p)).
  set (w a := with_lst a ((CFn <$> fs a) ++ [q a])).
  set (h3 := put_dlist (d, Notify, true) (w Notify) h2).
  set (h4 := put_dlist (d, Resolve, true) (w Resolve) h3).
  set (h5 := put_dlist (d, Reject, true) (w Reject) h4).
  assert (forall a h0, (d < next_deferred h0)%nat -> get_dlist (d, a, true) h0 = with_lst a (CFn <$> fs a) ->
    list_add (run n) n (d, a, true) [AFn (q a)] h0 = (Ok tt, put_dlist (d, a, true) (w a) h0)) as Hadd.
  { intros a h0 Hd Hg. change [AFn (q a)] with (List.map AFn [q a]).
    rewrite (add_plain (run n) n (d, a, true) (CFn <$> fs a)); rewrite ?Hg; try done. apply row_unique. }
  assert (then_ (run n) n d f g p h = (Ok (DPromise nd), h5)) as Ethen.
  { unfold then_. rewrite (sm_bind_eq _ _ h (Ok r) h) by done.
    rewrite (sm_bind_eq _ _ h (Ok tt) (set_next_depth (S r) h)) by done.
    rewrite (sm_bind_eq _ _ _ (Ok tt) h1) by done. rewrite (sm_bind_eq _ _ _ _ _ E). cbv zeta.
    rewrite (sm_bind_eq _ _ _ (Ok tt) h3) by (by apply (Hadd Notify)).
    rewrite (sm_bind_eq _ _ _ (Ok tt) h4)
      by (apply (Hadd Resolve); [done|unfold h3; by rewrite get_put_dlist_ne]).
    rewrite (sm_bind_eq _ _ _ (Ok tt) h5); [done|].
    apply (Hadd Reject); [done|]. unfold h4, h3. by rewrite !get_put_dlist_ne. }
  exists h5. pose proof (then_sound (run n) (dcall_sound user n) n d f g p h HI) as Hs. unfold sound_at in Hs. rewrite Ethen in Hs.
  split_and!; try done; [by apply Hs|]. constructor; [done|done| |].
  - intros a Ha. unfold h5, h4, h3. rewrite !get_put_dlist_ne by congruence. auto.
  - intros a. rewrite fmap_app. unfold h5, h4, h3. destruct a; rewrite ?get_put_dlist_ne by congruence; apply get_put_dlist.
Qed.

(** One call of a firing, and its end. *)
Lemma fire_calls_step n l c i f this args h h1 v :
  get_dlist l h = set_index (Z.of_nat i - 1) c -> memory c = Some (this, args) ->
  opts c = row_options l.1.2 -> default [] (lst c) !! i = Some f ->
  run n f this args (put_dlist l (set_index (Z.of_nat i) c) h) = (Ok v, h1) ->
  forall k, fire_calls get_dlist put_dlist (run n) DUndef dfalse (S k) l h
  = fire_calls get_dlist put_dlist (run n) DUndef dfalse k l h1.
Proof.
  intros Hg Hm Ho Hf Hc k. cbn [fire_calls]. set (h0 := put_dlist l (set_index (Z.of_nat i) c) h) in *.
  rewrite (sm_bind_eq _ _ h (Ok tt) h0)
    by (unfold upd, sm_mod; rewrite Hg; cbn; by replace (Z.of_nat i - 1 + 1) with (Z.of_nat i) by lia).
  rewrite (sm_bind_eq _ _ h0 (Ok (set_index (Z.of_nat i) c)) h0)
    by (unfold sm_get; by unfold h0; rewrite get_put_dlist).
  cbn [firingIndex set_index lst memory opts]. rewrite (proj2 (Z.ltb_ge _ 0)) by lia.
  rewrite Nat2Z.id, Hf, Hm. cbn [default id]. rewrite (sm_bind_eq _ _ _ _ _ Hc).
  rewrite Ho, row_stop, andb_false_r. done.
Qed.

Lemma fire_calls_last n l c i h :
  get_dlist l h = set_index (Z.of_nat i - 1) c -> (length (default [] (lst c)) <= i)%nat ->
  forall k, fire_calls get_dlist put_dlist (run n) DUndef dfalse (S k) l h
  = (Ok tt, put_dlist l (set_index (Z.of_nat i) c) h).
Proof.
  intros Hg Hf k. cbn [fire_calls]. set (h0 := put_dlist l (set_index (Z.of_nat i) c) h) in *.
  rewrite (sm_bind_eq _ _ h (Ok tt) h0)
    by (unfold upd, sm_mod; rewrite Hg; cbn; by replace (Z.of_nat i - 1 + 1) with (Z.of_nat i) by lia).
  rewrite (sm_bind_eq _ _ h0 (Ok (set_index (Z.of_nat i) c)) h0)
    by (unfold sm_get; by unfold h0; rewrite get_put_dlist).
  cbn [firingIndex set_index lst memory opts]. rewrite (proj2 (Z.ltb_ge _ 0)) by lia.
  by rewrite Nat2Z.id, lookup_ge_None_2.
Qed.

Lemma run_closures_tasks l c i cs h : Forall is_closure cs -> tasks (run_closures l c i cs h) = tasks h.
Proof.
  intros Hcs. revert i h. induction Hcs as [|x cs Hx _ IH]; intros i h; [done|]. cbn. rewrite IH. by destruct x.
Qed.

(** Settling a waiting deferred queues its handlers. *)
Lemma settle_chain n d a fs this args h : Inv h -> fresh_chain d fs h -> a <> Notify ->
  Forall deferred_fn (fs a) -> (8 + length (fs a) <= n)%nat ->
  exists h', list_fireWith (run n) n (d, a, false) this args h = (Ok tt, h') /\ Inv h'
    /\ tasks h' = tasks h ++ (waiting this args <$> fs a)
    /\ state_of d h' = final_state a /\ value_of d h' = Some (this, args).
Proof.
  intros HI [F1 F2 F3 F4] Ha Hfs Hn. set (l := (d, a, false)).
  pose proof (list_fireWith_settles (run n) (dcall_sound user n) (dcall_closure user n) n d a this args h HI F1 Ha F2) as Hset.
  assert (exists h', list_fireWith (run n) n l this args h = (Ok tt, h')
    /\ tasks h' = tasks h ++ (waiting this args <$> fs a)) as (h' & E & Ht).
  2: { fold l in Hset. cbv zeta in Hset. rewrite E in Hset. destruct (Hset ltac:(done)) as (? & _ & ? & ?).
       exists h'. by split_and!. }
  clear Hset. unfold list_fireWith, on_list.
  rewrite (sm_bind_eq _ _ h (Ok (next_deferred h)) h) by done. rewrite (proj2 (Nat.ltb_lt _ _)) by done.
  destruct n as [|n]; [lia|].
  assert (fresh_list d a (get_dlist l h)) as Hfr.
  { unfold l. rewrite (F3 a Ha). split_and!; try done. exists []. by rewrite app_nil_r. }
  unfold l at 1. rewrite (fireWith_fresh (run (S n)) n d a this args h HI F1 Ha F2 Hfr). fold l.
  assert (lst (get_dlist l h) = Some (closures d a)) as -> by (unfold l; by rewrite (F3 a Ha)).
  set (c := Cbs (row_options a) true (Some (this, args)) true true (Some (closures d a)) [] (-1)).
  destruct (fire_closures (run (S n)) (dcall_closure user (S n)) n l c [] (final_closures d a) [CFire (d, a, true)]
    (this, args) (put_dlist l c h)) as [[_ [Hlen|(x & t & ar & h0 & Hx & Hno)]]|(k & Ek & E5 & Hg5)]; try done.
  - by repeat constructor.
  - intros x h0 Hx. destruct a; [done|..]; unfold final_closures in Hx; cbn in Hx;
      repeat (apply elem_of_cons in Hx as [->|Hx]; [cbn; rewrite ?get_put_dlist_ne by (unfold l; congruence); done|]);
      by apply elem_of_nil in Hx.
  - by rewrite get_put_dlist.
  - cbn in Hlen. lia.
  - by destruct x.
  - cbn [length final_closures plus] in Ek, E5, Hg5.
    change (Z.of_nat 0 + Z.of_nat 5 - 1) with 4 in Hg5. change (Z.of_nat 0) with 0 in E5, Hg5.
    set (h5 := run_closures l c 0 _ _) in *.
    destruct k as [|[|k]]; [lia..|].
    set (h6 := put_dlist l (set_index 5 c) h5).
    destruct (handlers_fire n d a (fs a) this args h6) as (h7 & E7 & Ht7 & Hk7); [..|done|lia|].
    { change (d < next_deferred (run_closures l c 0 (final_closures d a) (put_dlist l c h)))%nat. cbn. done. }
    { unfold h6. rewrite get_put_dlist_ne by (unfold l; congruence). unfold h5.
      rewrite get_closures by (unfold l; congruence). rewrite get_put_dlist_ne by (unfold l; congruence).
      rewrite F4. destruct a; [done|..]; cbn; by rewrite !decide_False by congruence. }
    assert (get_dlist l h7 = set_index 5 c) as Hg7
      by (rewrite Hk7 by (unfold l; congruence); apply get_put_dlist).
    assert (fire_calls get_dlist put_dlist (run (S n)) DUndef dfalse n l (put_dlist l c h)
      = (Ok tt, put_dlist l (set_index 6 c) h7)) as Ec.
    { rewrite E5, (fire_calls_step (S n) l c 5 (CFire (d, a, true)) this args h5 h7 DUndef Hg5); try done.
      - by apply (fire_calls_last (S n) l c 6).
      - fold h6. cbn [dcall apply_cb]. by rewrite (sm_bind_eq _ _ _ _ _ E7). }
    unfold finish. rewrite (sm_bind_eq _ _ _ (Ok tt) (put_dlist l (set_index (-1) c) h7)).
    + eexists. split; [reflexivity|]. cbn. rewrite Ht7. unfold h6, h5. rewrite put_dlist_tasks, run_closures_tasks.
      * done.
      * by repeat constructor.
    + rewrite (sm_bind_eq _ _ _ _ _ Ec).
      rewrite (sm_bind_eq _ _ _ (Ok tt) (put_dlist l (set_index (-1) c) h7))
        by (unfold upd, sm_mod; by rewrite get_put_dlist, put_put_dlist).
      destruct n as [|n]; [lia|]. rewrite fire_loop_S, get_put_dlist. done.
Qed.

(** A script of the page: it makes a deferred, calls [then] on it with each of
    [hs], and settles it. *)
Fixpoint then_all (d : nat) (hs : list (val * val * val)) (k : dprog) : dprog :=
  match hs with
  | [] => k
  | (f, g, p) :: hs' => DCall (FThen d) (DDeferred d) [f; g; p] (fun _ => then_all d hs' k) DThrow
  end.

Definition chain_script (hs : list (val * val * val)) (a : action) (this : val) (args : list val) : dprog :=
  DCall FDeferred DUndef [] (fun v =>
    match v with
    | DDeferred d => then_all d hs (DCall (FAct d a) this args DRet DThrow)
    | _ => DRet DUndef
    end) DThrow.

Fixpoint processors (r nd : nat) (a : action) (hs : list (val * val * val)) : list fn :=
  match hs with
  | [] => []
  | (f, g, p) :: hs' => processor r nd a f g p :: processors (S r) (S nd) a hs'
  end.

Lemma processors_deferred r nd a hs : Forall deferred_fn (processors r nd a hs).
Proof.
  revert r nd. induction hs as [|[[f g] p] hs IH]; intros r nd; cbn; constructor; [|apply IH].
  unfold processor. by repeat eexists.
Qed.

Lemma processors_length r nd a hs : length (processors r nd a hs) = length hs.
Proof. revert r nd. induction hs as [|[[f g] p] hs IH]; intros r nd; cbn; [done|]. by rewrite IH. Qed.

Lemma then_all_chain n d fs hs k h : Inv h -> fresh_chain d fs h ->
  exists h', drun user (S n) (then_all d hs k) h = drun user (S n) k h' /\ Inv h' /\ tasks h' = tasks h
    /\ fresh_chain d (fun a => fs a ++ processors (next_depth h) (next_deferred h) a hs) h'.
Proof.
  revert fs h. induction hs as [|[[f g] p] hs IH]; intros fs h HI Hc.
  - exists h. split_and!; try done. destruct Hc as [F1 F2 F3 F4]. constructor; try done.
    intros a. cbn. by rewrite app_nil_r.
  - destruct (then_chain n d fs f g p h HI Hc) as (h1 & E & HI1 & Hc1 & Hn & Hr & Ht).
    destruct (IH _ h1 HI1 Hc1) as (h2 & E2 & HI2 & Ht2 & Hc2). exists h2. split_and!; [|done|congruence|].
    + rewrite <-E2. unfold drun. cbn [then_all run_dprog]. unfold call_fn at 1. cbn [dcall apply_cb apply_fn nth_arg].
      change (then_ (run n) n d (nth_arg [f; g; p] 0) (nth_arg [f; g; p] 1) (nth_arg [f; g; p] 2) h)
        with (then_ (run n) n d f g p h). by rewrite E.
    + destruct Hc2 as [F1 F2 F3 F4]. constructor; try done. intros a. rewrite F4, Hn, Hr. cbn.
      by rewrite <-app_assoc.
Qed.

(** The handlers given to [then] never run at once: when the deferred is
    resolved, or rejected, every call of [then] has its fulfilled, or rejected,
    handler queued for the event loop, in the order of the calls, each with its
    own derived promise and the context and values of the resolution; the fuel
    that suffices is nine more than the handlers. *)
Theorem then_schedules n hs a this args h : reachable user h -> a <> Notify -> (9 + length hs <= n)%nat ->
  let d := next_deferred h in
  let context := if decide (this = DDeferred d) then DUndef else this in
  exists h', drun user (S n) (chain_script hs a this args) h = (Ok this, h')
    /\ tasks h' = tasks h ++ (waiting context args <$> processors (next_depth h) (S d) a hs)
    /\ state_of d h' = final_state a /\ value_of d h' = Some (context, args).
Proof.
  intros Hre Ha Hn d context. pose proof (reachable_Inv user h Hre) as HI. destruct n as [|n]; [lia|].
  destruct (new_deferred_chain (S n) h HI) as (h1 & E1 & HI1 & Hc1 & Hn1 & Ht1 & Hr1 & _).
  destruct (then_all_chain (S n) d (fun _ => []) hs (DCall (FAct d a) this args DRet DThrow) h1 HI1 Hc1)
    as (h2 & E2 & HI2 & Ht2 & Hc2). cbn [app] in Hc2. rewrite Hr1, Hn1 in Hc2. fold d in Hc2.
  destruct (settle_chain (S n) d a _ context args h2 HI2 Hc2 Ha (processors_deferred _ _ _ _))
    as (h3 & E3 & HI3 & Ht3 & Hs3 & Hv3); [rewrite processors_length; lia|].
  exists h3. split_and!; [|by rewrite Ht3, Ht2, Ht1|done|done].
  transitivity (drun user (S (S n)) (then_all d hs (DCall (FAct d a) this args DRet DThrow)) h1).
  - unfold drun, chain_script. cbn [run_dprog]. unfold call_fn at 1. cbn [dcall apply_cb apply_fn].
    unfold deferred.
    change (dcall user (S n)) with (run (S n)). by rewrite (sm_bind_eq _ _ _ _ _ E1).
  - rewrite E2. unfold drun. cbn [run_dprog]. unfold call_fn at 1. cbn [dcall apply_cb apply_fn].
    unfold act. fold context.
    by rewrite (sm_bind_eq _ _ _ _ _ E3).
Qed.

(** What a derived promise becomes, from the end of its handler: the action and
    the context and values; nothing is settled yet when the handler returned a
    promise or another thenable. *)
Definition settlement (d : nat) (handler : fn) (this : val) (args : list val) (out : res val * dheap) :
    option (action * (val * list val)) :=
  let rejected e := Some (Reject, if decide (handler = FThrower) then (this, args) else (DUndef, [e])) in
  match out with
  | (Ok w, _) =>
      if decide (w = DPromise d) then rejected (DTypeError (str "Thenable self-resolution"))
      else match then_method w with
           | Some _ => None
           | None => Some (Resolve, if decide (handler = FIdentity) then (this, args) else (DUndef, [w]))
           end
  | (Throw _, h') => rejected (thrown h')
  | (NoFuel, _) => None
  end.

Lemma set_thrown_chain d fs v h : fresh_chain d fs h -> fresh_chain d fs (set_thrown v h).
Proof. intros [F1 F2 F3 F4]. by constructor. Qed.

(** A derived promise settles by its handler: it is resolved with the value
    that the handler returns, rejected with what it throws, and rejected with a
    TypeError when the handler returns the promise itself; the default handlers
    pass on the context and the values; in each case the handlers that wait on
    the derived promise are queued, and the exception does not escape. *)
Theorem process_settles n r depth d handler this args h a context values fs :
  Inv h -> (max_depth r h <= depth)%nat ->
  let out := run n (CFn handler) this args h in
  settlement d handler this args out = Some (a, (context, values)) ->
  (max_depth r out.2 <= depth + 1)%nat ->
  fresh_chain d fs out.2 -> Forall deferred_fn (fs a) -> (8 + length (fs a) <= n)%nat ->
  exists h', process (run n) n r depth d handler false this args h = (Ok tt, h') /\ Inv h'
    /\ tasks h' = tasks out.2 ++ (waiting context values <$> fs a)
    /\ state_of d h' = final_state a /\ value_of d h' = Some (context, values).
Proof.
  intros HI Hr out Hs Hr' Hc Hfs Hn.
  assert (a <> Notify) as Ha by (unfold settlement in Hs; repeat case_match; congruence).
  pose proof (dcall_sound user n (CFn handler) this args ltac:(left; by eexists) h HI) as Hout.
  unfold sound_at in Hout. fold out in Hout. unfold process, dcatch, mightThrow.
  rewrite (sm_bind_eq _ _ h (Ok (max_depth r h)) h) by done.
  rewrite (proj2 (Nat.ltb_ge _ _)) by done. unfold call_fn. fold (run n).
  unfold mbind at 1, sm_bind at 1. fold out. destruct out as [[w|e|] h1]; cbn [fst snd] in *; [| |done].
  - destruct (Hout ltac:(done)) as [HI1 _]. unfold settlement in Hs. case_decide as Hw.
    + injection Hs as <- Hs. cbn [dthrow]. set (h2 := set_thrown _ h1).
      rewrite (sm_bind_eq _ _ h2 (Ok (max_depth r h2)) h2) by done. cbn [max_depth depths h2 set_thrown].
      fold (max_depth r h1). rewrite (proj2 (Nat.leb_le _ _)) by done. cbn [thrown set_thrown h2].
      destruct (same_Inv h1 h2 ltac:(done) HI1) as [HI2 _].
      destruct (settle_chain n d Reject fs context values h2 HI2 (set_thrown_chain _ _ _ _ Hc) Ha Hfs Hn) as (h3 & E3 & ?).
      exists h3. case_decide; injection Hs as <- <-; by rewrite E3.
    + destruct (then_method w); [done|]. injection Hs as <- Hs.
      destruct (settle_chain n d Resolve fs context values h1 HI1 Hc Ha Hfs Hn) as (h3 & E3 & ?).
      exists h3. case_decide; injection Hs as <- <-; by rewrite E3.
  - destruct (Hout ltac:(done)) as [HI1 _]. injection Hs as <- Hs.
    rewrite (sm_bind_eq _ _ h1 (Ok (max_depth r h1)) h1) by done. rewrite (proj2 (Nat.leb_le _ _)) by done.
    destruct (settle_chain n d Reject fs context values h1 HI1 Hc Ha Hfs Hn) as (h3 & E3 & ?).
    exists h3. case_decide; injection Hs as <- <-; by rewrite E3.
Qed.

(** *** Aggregation *)

(** A value that is neither a promise nor another thenable. *)
Definition plain (v : val) : Prop := promise_method v = None /\ then_method v = None.

(** The master of a call of [when] while it waits for the first [k] values. *)
Record aggregating (w m k : nat) (vs : list val) (h : dheap) : Prop := {
  ag_inv : Inv h;
  ag_chain : fresh_chain m (fun _ => []) h;
  ag_vars : when_of w h = WhenVars (Z.of_nat k) (repeat DUndef (length vs)) vs m
}.

Lemma lookup_repeat {A} (x : A) n i : (i < n)%nat -> repeat x n !! i = Some x.
Proof. revert i. induction n as [|n IH]; intros [|i] Hi; try lia; [done|]. apply IH. lia. Qed.

Lemma array_set_same l i v : l !! i = Some v -> array_set l i v = l.
Proof.
  intros Hl. unfold array_set. pose proof (lookup_lt_Some _ _ _ Hl).
  replace (S i - length l)%nat with 0%nat by lia. cbn. rewrite app_nil_r. by apply list_insert_id.
Qed.

Lemma set_when_same w v h : lists (set_when w v h) = lists h /\ states (set_when w v h) = states h
  /\ next_deferred (set_when w v h) = next_deferred h.
Proof. done. Qed.

(** Adopting the last of the values that are missing. *)
Lemma adopt_step n w m k vs v h : aggregating w m (S k) vs h -> vs !! k = Some v -> plain v -> (8 <= n)%nat ->
  exists h', adoptValue (run (S n)) v (FUpdate w k) (FAct m Reject) false h = (Ok tt, h') /\
    match k with
    | O => state_of m h' = Resolved /\ value_of m h' = Some (DArr (repeat DUndef (length vs)), vs)
    | S _ => aggregating w m k vs h'
    end.
Proof.
  intros [HI Hc Hw] Hv [Hp Ht] Hn. unfold adoptValue, dcatch. rewrite Hp, Ht.
  assert ((repeat DUndef (length vs)) !! k = Some DUndef) as Hu.
  { apply lookup_repeat. by eapply lookup_lt_Some. }
  set (vars := WhenVars (Z.of_nat k) (repeat DUndef (length vs)) vs m). set (h1 := set_when w vars h).
  assert (when_of w h1 = vars) as Hw1 by (unfold when_of; cbn; by rewrite lookup_insert_eq).
  destruct (same_Inv h h1 (set_when_same w vars h) HI) as [HI1 _].
  assert (fresh_chain m (fun _ => []) h1) as Hc1 by (by destruct Hc as [F1 F2 F3 F4]; constructor).
  assert (update (run n) n w k DUndef [v] h
    = (sm_when (Z.of_nat k =? 0) (list_fireWith (run n) n (m, Resolve, false) (DArr (repeat DUndef (length vs))) vs) ;;
       mret DUndef) h1) as E.
  { unfold update. cbv zeta. rewrite (sm_bind_eq _ _ h (Ok tt) h1).
    - rewrite (sm_bind_eq _ _ h1 (Ok (when_of w h1)) h1) by done. by rewrite Hw1.
    - unfold sm_mod. rewrite Hw. cbn [w_remaining w_contexts w_values w_master].
      rewrite !array_set_same by done. unfold h1, vars. by replace (Z.of_nat (S k) - 1) with (Z.of_nat k) by lia. }
  unfold call_fn. cbn [dcall apply_cb apply_fn]. change (dcall user n) with (run n).
  unfold mbind at 1, sm_bind at 1. rewrite E. destruct k as [|k].
  - destruct (settle_chain n m Resolve (fun _ => []) (DArr (repeat DUndef (length vs))) vs h1 HI1 Hc1)
      as (h2 & E2 & _ & _ & Hs & Hval); [done|constructor|cbn; lia|].
    exists h2. cbn [Z.of_nat Z.eqb sm_when]. by rewrite (sm_bind_eq _ _ _ _ _ E2).
  - exists h1. split; [done|]. by constructor.
Qed.

Lemma when_loop_aggregates n w m k vs h : aggregating w m (S k) vs h -> Forall plain vs ->
  (S k <= length vs)%nat -> (8 <= n)%nat ->
  exists h', when_loop (run (S n)) (S k) w m h = (Ok tt, h')
    /\ state_of m h' = Resolved /\ value_of m h' = Some (DArr (repeat DUndef (length vs)), vs).
Proof.
  intros Hag Hvs Hlen Hn. revert h Hag. induction k as [|k IH]; intros h Hag.
  all: destruct (lookup_lt_is_Some_2 vs _ Hlen) as [v Hv].
  all: pose proof (proj1 (Forall_lookup plain vs) Hvs _ v Hv) as Hplain.
  all: destruct (adopt_step n w m _ vs v h Hag Hv Hplain Hn) as (h' & E & Hh').
  all: cbn [when_loop]; unfold sm_get; unfold mbind at 1, sm_bind at 1.
  all: rewrite (ag_vars _ _ _ _ _ Hag); cbn [w_values]; unfold nth_arg; rewrite Hv; cbn [default id].
  all: rewrite (sm_bind_eq _ _ _ _ _ E).
  - by exists h'.
  - apply IH; [lia|done].
Qed.

(** C16: [jQuery.when] of two or more values that are no promises answers a
    promise that is already resolved with the values in the order of the
    arguments; eleven levels of calls are enough. *)
Theorem when_aggregates n this vs h : reachable user h -> Forall plain vs -> (2 <= length vs)%nat ->
  (10 <= n)%nat -> let m := next_deferred h in
  exists h', drun user (S n) (DCall FWhen this vs DRet DThrow) h = (Ok (DPromise m), h')
    /\ state_of m h' = Resolved
    /\ value_of m h' = Some (DArr (repeat DUndef (length vs)), vs).
Proof.
  intros Hre Hvs Hlen Hn m. pose proof (reachable_Inv user h Hre) as HI. destruct n as [|n]; [lia|].
  unfold drun. cbn [run_dprog]. unfold call_fn at 1. cbn [dcall apply_cb apply_fn].
  change (apply_cb user (dcall user n) n) with (run (S n)). unfold when. cbv zeta.
  destruct (new_deferred_chain (S n) h HI) as (h1 & E1 & HI1 & Hc1 & _). fold m in E1, Hc1.
  rewrite (sm_bind_eq _ _ _ _ _ E1).
  set (w := next_when h1). set (h2 := set_next_when (S w) h1).
  set (vars := WhenVars (Z.of_nat (length vs)) (repeat DUndef (length vs)) vs m). set (h3 := set_when w vars h2).
  rewrite (sm_bind_eq _ _ h1 (Ok w) h1) by done. rewrite (sm_bind_eq _ _ h1 (Ok tt) h2) by done.
  rewrite (sm_bind_eq _ _ h2 (Ok tt) h3) by done. rewrite (proj2 (Nat.leb_gt _ _)) by lia.
  destruct (length vs) as [|k] eqn:El; [lia|]. rewrite <-El in *.
  destruct (same_Inv h1 h3 ltac:(done) HI1) as [HI3 _].
  assert (aggregating w m (S k) vs h3) as Hag.
  { constructor; [done|by destruct Hc1 as [F1 F2 F3 F4]; constructor|].
    unfold when_of, h3. cbn. rewrite lookup_insert_eq. cbn. unfold vars. by rewrite El. }
  destruct (when_loop_aggregates n w m k vs h3 Hag Hvs) as (h4 & E4 & Hs4 & Hv4); [lia|lia|].
  exists h4. split; [|done]. rewrite El at 1. by rewrite (sm_bind_eq _ _ _ _ _ E4).
Qed.
End chains.

(** ** Concrete runs *)

(** A page with one function that answers 7, and one that throws. *)
Definition demo_page (f : N) (this : val) (args : list val) : dprog :=
  match f with 1%N => DRet (DNum 7) | _ => DThrow (DStr (str "boom")) end.

Definition demo_chain : list (val * val * val) :=
  [(DFn (FUser 1), DUndef, DUndef); (DFn (FUser 2), DUndef, DUndef); (DUndef, DFn (FUser 1), DUndef)].

Definition demo_heap : dheap :=
  (drun demo_page 14 (chain_script demo_chain Resolve DNull [DNum 3]) empty_heap).2.

Definition demo_heap2 : dheap := (run_task demo_page 14 demo_heap).2.

Lemma demo_reachable : reachable demo_page demo_heap.
Proof.
  apply rtc_once, script_turn. vm_compute. discriminate.
Qed.

Example deferred_settles_once_witness :
  state_of 0 demo_heap2 = Resolved /\ value_of 1 demo_heap2 = Some (DUndef, [DNum 7]).
Proof.
  split; [|vm_compute; reflexivity]. transitivity (state_of 0 demo_heap); [|vm_compute; reflexivity].
  apply (deferred_settles_once demo_page demo_heap demo_heap2 0).
  - apply demo_reachable.
  - apply rtc_once, task_turn. vm_compute. discriminate.
  - vm_compute. discriminate.
Defined.

Example then_schedules_witness :
  tasks demo_heap = waiting DNull [DNum 3] <$> processors 0 1 Resolve demo_chain
  /\ length (tasks demo_heap) = 3%nat.
Proof.
  split; [|vm_compute; reflexivity].
  destruct (then_schedules demo_page 13 demo_chain Resolve DNull [DNum 3] empty_heap) as (h' & E & Ht & _);
    [apply rtc_refl|discriminate|vm_compute; lia|].
  unfold demo_heap. rewrite E. exact Ht.
Defined.

Example process_settles_witness :
  exists h', process (dcall demo_page 12) 12 1 0 2 (FUser 2) false DNull [DNum 3] demo_heap = (Ok tt, h')
    /\ state_of 2 h' = Rejected /\ value_of 2 h' = Some (DUndef, [DStr (str "boom")]).
Proof.
  destruct (process_settles demo_page 12 1 0 2 (FUser 2) DNull [DNum 3] demo_heap Reject DUndef
    [DStr (str "boom")] (fun _ => [])) as (h' & E & _ & _ & Hs & Hv).
  - apply (reachable_Inv demo_page), demo_reachable.
  - vm_compute. lia.
  - vm_compute. reflexivity.
  - vm_compute. lia.
  - constructor.
    + vm_compute. lia.
    + vm_compute. reflexivity.
    + intros [] Ha; [done|vm_compute; reflexivity..].
    + intros []; vm_compute; reflexivity.
  - constructor.
  - vm_compute. lia.
  - exists h'. split; [exact E|]. split; [exact Hs|exact Hv].
Defined.

Example when_aggregates_witness :
  exists h', drun demo_page 11 (DCall FWhen DUndef [DNum 1; DStr (str "a"); DNull] DRet DThrow) empty_heap
    = (Ok (DPromise 0), h')
    /\ value_of 0 h' = Some (DArr [DUndef; DUndef; DUndef], [DNum 1; DStr (str "a"); DNull]).
Proof.
  destruct (when_aggregates demo_page 10 DUndef [DNum 1; DStr (str "a"); DNull] empty_heap)
    as (h' & E & _ & Hv); [apply rtc_refl|by repeat constructor|vm_compute; lia|vm_compute; lia|].
  exists h'. split; [exact E|exact Hv].
Defined.
