(* ===== verification/Core.v ===== *)
(** * Core utilities of jQuery, on a heap of objects

    [extend], [each], [map], [grep], [merge] and the other functions on objects and
    collections, and the methods of jQuery objects that they make up.  What they do
    depends on which object is which, so objects are in a heap. *)

From S2P Require Import Prelude JsNum.

(** ** Objects *)

Inductive cval :=
  | CUndef
  | CNull
  | CBool (b : bool)
  | CNum (n : num)
  | CStr (s : jstr)
  | CRef (o : nat).

#[export] Instance num_eq_dec : EqDecision num.
Proof. solve_decision. Defined.
#[export] Instance cval_eq_dec : EqDecision cval.
Proof. solve_decision. Defined.

(** What [toString] and [typeof] tell of an object: objects of the tag [Object], arrays
    with their length, functions with their text, objects of other tags. *)
Inductive okind := KObject | KArray (len : N) | KFun (source : jstr) | KTag (tag : jstr).

(** Properties in the order of their enumeration, and ones that are not
    enumerable. *)
Abbreviation props := (list (jstr * cval)).
Record object := Object { o_kind : okind; o_proto : option nat; o_props : props; o_hidden : props }.

(** The heap; the first two objects are [Object.prototype] and [Array.prototype]. *)
Abbreviation heap := (list object).

Definition object_prototype : nat := 0.
Definition array_prototype : nat := 1.

Definition set_props (p : props) (o : object) : object := Object (o_kind o) (o_proto o) p (o_hidden o).
Definition set_kind (k : okind) (o : object) : object := Object k (o_proto o) (o_props o) (o_hidden o).

(** ** Properties *)

Fixpoint assoc {A} (p : list (jstr * A)) (name : jstr) : option A :=
  match p with [] => None | (k, v) :: p' => if decide (k = name) then Some v else assoc p' name end.

(** The array index that a name is. *)
Definition index_key (name : jstr) : option N :=
  let n := parse_digits name in
  if bool_decide (N_to_str n = name) && (n <? 4294967295)%N then Some n else None.

Definition index_name (i : nat) : jstr := N_to_str (N.of_nat i).

(** A new key goes behind the smaller indices, or to the end. *)
Fixpoint add_key {A} (name : jstr) (v : A) (p : list (jstr * A)) : list (jstr * A) :=
  match p with
  | [] => [(name, v)]
  | (k, w) :: p' =>
      match index_key name, index_key k with
      | Some i, Some j => if (i <? j)%N then (name, v) :: p else (k, w) :: add_key name v p'
      | Some i, None => (name, v) :: p
      | None, _ => (k, w) :: add_key name v p'
      end
  end.

Fixpoint replace_key {A} (name : jstr) (v : A) (p : list (jstr * A)) : list (jstr * A) :=
  match p with
  | [] => []
  | (k, w) :: p' => if decide (k = name) then (k, v) :: p' else (k, w) :: replace_key name v p'
  end.

Definition put_key {A} (name : jstr) (v : A) (p : list (jstr * A)) : list (jstr * A) :=
  match assoc p name with Some _ => replace_key name v p | None => add_key name v p end.

Definition length_name : jstr := str "length".

(** An own property. *)
Definition own (o : object) (name : jstr) : option cval :=
  match o_kind o with
  | KArray len => if decide (name = length_name) then Some (CNum (Fin (Z.of_N len)))
                  else match assoc (o_props o) name with Some v => Some v | None => assoc (o_hidden o) name end
  | _ => match assoc (o_props o) name with Some v => Some v | None => assoc (o_hidden o) name end
  end.

(** A property along the chain of prototypes. *)
Fixpoint chain_get (fuel : nat) (h : heap) (o : nat) (name : jstr) : option cval :=
  match fuel with
  | O => None
  | S n =>
      match h !! o with
      | Some ob => match own ob name with
                   | Some v => Some v
                   | None => match o_proto ob with Some p => chain_get n h p name | None => None end
                   end
      | None => None
      end
  end.

Definition get_member (h : heap) (o : nat) (name : jstr) : cval := default CUndef (chain_get (S (length h)) h o name).
Definition has_member (h : heap) (o : nat) (name : jstr) : bool := bool_decide (is_Some (chain_get (S (length h)) h o name)).

(** [v[name]] of any value but [null] and [undefined]. *)
Definition get_value (h : heap) (v : cval) (name : jstr) : cval :=
  match v with
  | CRef o => get_member h o name
  | CStr s => if decide (name = length_name) then CNum (Fin (Z.of_nat (length s)))
              else match index_key name with
                   | Some i => match s !! N.to_nat i with Some c => CStr [c] | None => CUndef end
                   | None => CUndef
                   end
  | _ => CUndef
  end.

(** [ToUint32] for the length of an array; another value is no length. *)
Definition as_length (v : cval) : option N :=
  match v with
  | CNum (Fin z) => if (0 <=? z) && (z <? 4294967296) then Some (Z.to_N z) else None
  | CBool b => Some (if b then 1 else 0)%N
  | CNull => Some 0%N
  | _ => None
  end.

(** Assigning a property of an object. *)
Definition put_member (name : jstr) (v : cval) (o : object) : res object :=
  match o_kind o with
  | KArray len =>
      if decide (name = length_name) then
        match as_length v with
        | Some n => Ok (set_kind (KArray n) (set_props (List.filter (fun p => match index_key p.1 with Some i => (i <? n)%N | None => true end) (o_props o)) o))
        | None => Throw (str "RangeError")
        end
      else
        let o' := set_props (put_key name v (o_props o)) o in
        Ok (match index_key name with Some i => set_kind (KArray (N.max len (i + 1))) o' | None => o' end)
  | _ => Ok (match assoc (o_hidden o) name with
             | Some _ => Object (o_kind o) (o_proto o) (o_props o) (replace_key name v (o_hidden o))
             | None => set_props (put_key name v (o_props o)) o
             end)
  end.

Definition put (o : nat) (name : jstr) (v : cval) : SM heap unit := fun h =>
  match h !! o with
  | Some ob => match put_member name v ob with
               | Ok ob' => (Ok tt, <[o := ob']> h)
               | Throw e => (Throw e, h)
               | NoFuel => (NoFuel, h)
               end
  | None => (Ok tt, h)
  end.

Definition new_object (ob : object) : SM heap nat := fun h => (Ok (length h), h ++ [ob]).
Definition empty_object : object := Object KObject (Some object_prototype) [] [].
Definition empty_array : object := Object (KArray 0) (Some array_prototype) [] [].

Definition member (o : nat) (name : jstr) : SM heap cval := sm_get (fun h => get_member h o name).

(** [for ( name in v )]: own enumerable names, then the ones of the prototypes that are
    not hidden by a nearer property. *)
Fixpoint chain_names (fuel : nat) (h : heap) (o : nat) (seen : list jstr) : list jstr :=
  match fuel with
  | O => []
  | S n =>
      match h !! o with
      | Some ob =>
          let names := List.map fst (o_props ob) in
          List.filter (fun k => negb (bool_decide (k ∈ seen))) names
          ++ match o_proto ob with Some p => chain_names n h p (seen ++ names ++ List.map fst (o_hidden ob)) | None => [] end
      | None => []
      end
  end.

Definition for_in (h : heap) (v : cval) : list jstr :=
  match v with
  | CRef o => chain_names (S (length h)) h o []
  | CStr s => List.map index_name (seq 0 (length s))
  | _ => []
  end.

(** Whether such a loop still comes to a name; a property that is gone is left out. *)
Definition visited (h : heap) (v : cval) (name : jstr) : bool :=
  match v with CRef o => has_member h o name | _ => true end.

(** ** Predicates *)

Definition object_at (h : heap) (v : cval) : option object := match v with CRef o => h !! o | _ => None end.

Definition is_array (h : heap) (v : cval) : bool :=
  match object_at h v with Some ob => match o_kind ob with KArray _ => true | _ => false end | None => false end.

Definition is_number (v : cval) : bool := match v with CNum _ => true | _ => false end.

(** [typeof v === "function"]. *)
Definition callable (h : heap) (v : cval) : bool :=
  match object_at h v with Some ob => match o_kind ob with KFun _ => true | _ => false end | None => false end.

Definition isFunction (h : heap) (v : cval) : bool := callable h v && negb (is_number (get_value h v (str "nodeType"))).

Definition c_truthy (v : cval) : bool :=
  match v with
  | CUndef | CNull => false
  | CBool b => b
  | CNum n => Num.truthy n
  | CStr s => bool_decide (s <> [])
  | CRef _ => true
  end.
Definition c_nullish (v : cval) : bool := match v with CUndef | CNull => true | _ => false end.

Definition ObjectFunctionString : jstr := str "function Object() { [native code] }".

Definition isPlainObject (h : heap) (v : cval) : bool :=
  match object_at h v with
  | Some ob =>
      match o_kind ob with
      | KObject =>
          match o_proto ob with
          | None => true
          | Some p =>
              match own (default empty_object (h !! p)) (str "constructor") with
              | Some c => match object_at h c with
                          | Some f => match o_kind f with KFun source => bool_decide (source = ObjectFunctionString) | _ => false end
                          | None => false
                          end
              | None => false
              end
          end
      | _ => false
      end
  | None => false
  end.

Definition isEmptyObject (h : heap) (v : cval) : bool := bool_decide (for_in h v = []).

(** [isWindow]. *)
Definition isWindow (h : heap) (v : cval) : bool :=
  match v with CUndef | CNull => false | _ => bool_decide (get_value h v (str "window") = v) end.

(** [isArrayLike]. *)
Definition isArrayLike (h : heap) (v : cval) : res bool :=
  match v with
  | CStr (_ :: _) | CBool true => Throw (str "TypeError")
  | CNum n => if Num.truthy n then Throw (str "TypeError") else Ok false
  | CRef o =>
      let length := if has_member h o length_name then get_member h o length_name else CBool false in
      Ok (if isFunction h v || isWindow h v then false
          else is_array h v
               || match length with
                  | CNum n => Num.eqb n (Fin 0)
                              || Num.gt n (Fin 0) && has_member h o (num_to_str (Num.sub n (Fin 1)))
                  | _ => false
                  end)
  | _ => Ok false
  end.

(** ** extend *)

Definition proto_name : jstr := str "__proto__".

(** The object that a copy is merged into. *)
Definition clone_of (target : nat) (name : jstr) (copy : cval) : SM heap nat :=
  src ← member target name;
  h ← sm_get (fun h => h);
  match src with
  | CRef o =>
      if (if is_array h copy then is_array h src else isPlainObject h src) then mret o
      else new_object (if is_array h copy then empty_array else empty_object)
  | _ => new_object (if is_array h copy then empty_array else empty_object)
  end.

(** The loop over the properties of one argument; [recurse] extends an object deeply. *)
Definition extend_name (recurse : nat -> cval -> SM heap unit) (deep : bool) (target : nat) (options : cval) (name : jstr) : SM heap unit :=
  h ← sm_get (fun h => h);
  let copy := get_value h options name in
  if negb (visited h options name) || bool_decide (name = proto_name) || bool_decide (copy = CRef target) then mret tt
  else if deep && (isPlainObject h copy || is_array h copy) then
    clone ← clone_of target name copy;
    recurse clone copy ;;
    put target name (CRef clone)
  else if bool_decide (copy = CUndef) then mret tt
  else put target name copy.

(** Extending an object with one argument; [fuel] bounds the depth. *)
Fixpoint extend_one (fuel : nat) (deep : bool) (target : nat) (options : cval) : SM heap unit :=
  match fuel with
  | O => sm_lift NoFuel
  | S n =>
      names ← sm_get (fun h => for_in h options);
      sm_each (extend_name (extend_one n deep) deep target options) names
  end.

(** The target that an argument is: itself, or a new object. *)
Definition as_target (v : cval) : SM heap nat :=
  h ← sm_get (fun h => h);
  match v with
  | CRef o => if callable h v && negb (isFunction h v) then new_object empty_object else mret o
  | _ => new_object empty_object
  end.

(** [extend], called on [this]. *)
Definition extend (fuel : nat) (this : nat) (args : list cval) : SM heap nat :=
  let '(deep, args) := match args with CBool b :: args => (b, args) | _ => (false, args) end in
  match args with
  | [] => as_target CUndef
  | [v] => as_target v ;; sm_each (extend_one fuel deep this) [v] ;; mret this
  | v :: sources => t ← as_target v; sm_each (extend_one fuel deep t) sources ;; mret t
  end.

(** ** Collections *)

Definition c_index (i : nat) : cval := CNum (Fin (Z.of_nat i)).
Definition item (h : heap) (v : cval) (i : nat) : cval := get_value h v (index_name i).

(** The number that a length is; loops run over the integers below it. *)
Definition loop_length (v : cval) : nat := match v with CNum (Fin z) => Z.to_nat z | _ => 0 end.

Definition length_of (h : heap) (v : cval) : nat := loop_length (get_value h v length_name).

(** [Array.prototype.push] of a new array. *)
Definition push_new (ret : nat) (v : cval) : SM heap unit :=
  h ← sm_get (fun h => h);
  put ret (index_name (length_of h (CRef ret))) v.

(** [each]; [f] is the callback, on a key and its value.  The state of the program has the
    heap in it. *)
Section each.
Context {S : Type} (heap_of : S -> heap) (f : cval -> cval -> SM S cval).

Fixpoint each_index (obj : cval) (todo i : nat) : SM S unit :=
  match todo with
  | O => mret tt
  | Datatypes.S n =>
      h ← sm_get heap_of;
      r ← f (c_index i) (item h obj i);
      if decide (r = CBool false) then mret tt else each_index obj n (Datatypes.S i)
  end.

Fixpoint each_name (obj : cval) (names : list jstr) : SM S unit :=
  match names with
  | [] => mret tt
  | name :: names' =>
      h ← sm_get heap_of;
      r ← (if visited h obj name then f (CStr name) (get_value h obj name) else mret CUndef);
      if decide (r = CBool false) then mret tt else each_name obj names'
  end.

Definition each (obj : cval) : SM S cval :=
  h ← sm_get heap_of;
  like ← sm_lift (isArrayLike h obj);
  (if (like : bool) then each_index obj (length_of h obj) 0 else each_name obj (for_in h obj)) ;;
  mret obj.
End each.

(** The callback of the functions that build lists. *)
Section building.
Context (f : cval -> cval -> SM heap cval).

(** [map]: the values that are not nullish, with the arrays among them flattened. *)
Fixpoint map_index (elems : cval) (todo i : nat) : SM heap (list cval) :=
  match todo with
  | O => mret []
  | S n =>
      h ← sm_get (fun h => h);
      v ← f (c_index i) (item h elems i);
      vs ← map_index elems n (S i);
      mret (if c_nullish v then vs else v :: vs)
  end.

Fixpoint map_name (elems : cval) (names : list jstr) : SM heap (list cval) :=
  match names with
  | [] => mret []
  | name :: names' =>
      h ← sm_get (fun h => h);
      v ← (if visited h elems name then f (CStr name) (get_value h elems name) else mret CUndef);
      vs ← map_name elems names';
      mret (if c_nullish v then vs else v :: vs)
  end.

(** The elements that an array has. *)
Definition has_item (h : heap) (v : cval) (i : nat) : bool :=
  match object_at h v with Some ob => bool_decide (is_Some (own ob (index_name i))) | None => false end.
Definition array_items (h : heap) (v : cval) : list cval := List.map (item h v) (List.filter (has_item h v) (seq 0 (length_of h v))).

Definition flat (h : heap) (l : list cval) : list cval := flat_map (fun v => if is_array h v then array_items h v else [v]) l.

Definition array_of (l : list cval) : object :=
  Object (KArray (N.of_nat (length l))) (Some array_prototype) (zip (List.map index_name (seq 0 (length l))) l) [].

Definition map (elems : cval) : SM heap nat :=
  h ← sm_get (fun h => h);
  like ← sm_lift (isArrayLike h elems);
  vs ← (if (like : bool) then map_index elems (length_of h elems) 0 else map_name elems (for_in h elems));
  h ← sm_get (fun h => h);
  new_object (array_of (flat h vs)).

(** [grep]; the answers of the callback are truth values. *)
Fixpoint grep_from (elems : cval) (invert : bool) (matches todo i : nat) : SM heap unit :=
  match todo with
  | O => mret tt
  | S n =>
      h ← sm_get (fun h => h);
      r ← f (c_index i) (item h elems i);
      h ← sm_get (fun h => h);
      sm_when (negb (Bool.eqb (negb (c_truthy r)) (negb invert))) (push_new matches (item h elems i)) ;;
      grep_from elems invert matches n (S i)
  end.

Definition grep (elems : cval) (invert : bool) : SM heap nat :=
  matches ← new_object empty_array;
  h ← sm_get (fun h => h);
  grep_from elems invert matches (length_of h elems) 0 ;; mret matches.

End building.

(** [merge]. *)
Fixpoint merge_from (first : nat) (second : cval) (todo i j : nat) : SM heap nat :=
  match todo with
  | O => mret i
  | S n =>
      h ← sm_get (fun h => h);
      put first (index_name i) (item h second j) ;;
      merge_from first second n (S i) (S j)
  end.

Definition merge (first : nat) (second : cval) : SM heap nat :=
  h ← sm_get (fun h => h);
  i ← merge_from first second (length_of h second) (length_of h (CRef first)) 0;
  put first length_name (c_index i) ;; mret first.

(** [makeArray], without the results of its own use. *)
Definition makeArray (arr : cval) : SM heap nat :=
  ret ← new_object empty_array;
  h ← sm_get (fun h => h);
  match arr with
  | CUndef | CNull => mret ret
  | CRef _ =>
      like ← sm_lift (isArrayLike h arr);
      if (like : bool) then merge ret arr else push_new ret arr ;; mret ret
  | _ => push_new ret arr ;; mret ret
  end.

(** [inArray]: [Array.prototype.indexOf], from an index that may be negative; NaN equals
    nothing. *)
Definition strict_eq (a b : cval) : bool :=
  match a, b with CNum m, CNum n => Num.eqb m n | _, _ => bool_decide (a = b) end.

Fixpoint index_from (h : heap) (elem arr : cval) (todo i : nat) : Z :=
  match todo with
  | O => -1
  | S n => if has_item h arr i && strict_eq (item h arr i) elem then Z.of_nat i else index_from h elem arr n (S i)
  end.

Definition inArray (h : heap) (elem arr : cval) (i : option Z) : Z :=
  match arr with
  | CUndef | CNull => -1
  | _ => let len := length_of h arr in
         let i := default 0 i in
         let start := Z.to_nat (if i <? 0 then i + Z.of_nat len else i) in
         index_from h elem arr (len - start) start
  end.

(** ** jQuery objects *)

Section objects.
(** The object [jQuery.fn]. *)
Context (fn : nat).

Definition empty_set : object := Object KObject (Some fn) [] [].

(** The elements, as [Array.prototype.slice] takes them. *)
Definition elements (h : heap) (this : nat) : list cval := List.map (item h (CRef this)) (seq 0 (length_of h (CRef this))).

Definition pushStack (this : nat) (elems : cval) : SM heap nat :=
  ret ← new_object empty_set;
  merge ret elems ;;
  put ret (str "prevObject") (CRef this) ;; mret ret.

(** [pushStack] of a new array. *)
Definition push_list (this : nat) (l : list cval) : SM heap nat :=
  a ← new_object (array_of l); pushStack this (CRef a).

Definition toArray (this : nat) : SM heap nat := h ← sm_get (fun h => h); new_object (array_of (elements h this)).

Definition get (this : nat) (num : option Z) : SM heap cval :=
  match num with
  | None => a ← toArray this; mret (CRef a)
  | Some z => sm_get (fun h => get_member h this (Z_to_str (if z <? 0 then z + Z.of_nat (length_of h (CRef this)) else z)))
  end.

Definition eq (this : nat) (i : Z) : SM heap nat :=
  h ← sm_get (fun h => h);
  let len := Z.of_nat (length_of h (CRef this)) in
  let j := i + (if i <? 0 then len else 0) in
  push_list this (if (0 <=? j) && (j <? len) then [item h (CRef this) (Z.to_nat j)] else []).

Definition first (this : nat) : SM heap nat := eq this 0.
Definition last (this : nat) : SM heap nat := eq this (-1).

Definition slice (this : nat) (start : num) (end_ : option num) : SM heap nat :=
  h ← sm_get (fun h => h); push_list this (JsNum.slice (elements h this) start end_).

(** The numbers that [even] and [odd] answer to [grep]. *)
Definition parity (shift : Z) (key elem : cval) : SM heap cval :=
  mret (match key with CNum (Fin i) => CNum (Fin (Z.rem (i + shift) 2)) | _ => CUndef end).

Definition even (this : nat) : SM heap nat := a ← grep (parity 1) (CRef this) false; pushStack this (CRef a).
Definition odd (this : nat) : SM heap nat := a ← grep (parity 0) (CRef this) false; pushStack this (CRef a).

Definition end_ (this : nat) : SM heap nat :=
  prev ← member this (str "prevObject");
  match prev with CRef o => mret o | _ => new_object empty_set end.

(** The methods [each] and [map]; [call] calls the callback on [this] with an index and an
    element. *)
Definition fn_each (call : cval -> cval -> SM heap cval) (this : nat) : SM heap nat := each (fun h => h) call (CRef this) ;; mret this.
Definition fn_map (call : cval -> cval -> SM heap cval) (this : nat) : SM heap nat := a ← map call (CRef this); pushStack this (CRef a).

End objects.
