(* ===== verification/ExtendFacts.v ===== *)
(** * Deep copies

    What [extend] builds, as trees: the trees of objects in a heap, merging as a
    function on trees, and the heap facts of the copying. *)

From S2P Require Import Prelude JsNum Core.

(** ** Trees *)

(** A value with the plain objects ([arr] false) and arrays below it; anything else is
    a leaf. *)
Inductive tree := TLeaf (v : cval) | TNode (arr : bool) (entries : list (jstr * tree)).

Definition empty_node (arr : bool) : tree := TNode arr [].

(** The child of a node under a name if it is a node of a kind, or else an empty one. *)
Definition child_or_empty (t : tree) (name : jstr) (arr : bool) : tree :=
  match t with
  | TNode _ es => match assoc es name with
                  | Some (TNode arr' _ as c) => if Bool.eqb arr arr' then c else empty_node arr
                  | _ => empty_node arr
                  end
  | TLeaf _ => empty_node arr
  end.

Definition put_child (name : jstr) (c t : tree) : tree :=
  match t with TNode arr es => TNode arr (put_key name c es) | TLeaf v => TLeaf v end.

(** Merging a tree into another: entries that are nodes are merged into the entry of the
    same kind or into an empty one, other entries are taken over unless undefined; a
    name [__proto__] is left out. *)
Fixpoint merge_tree (source target : tree) : tree :=
  match source with
  | TLeaf _ => target
  | TNode _ es =>
      (fix go (es : list (jstr * tree)) (target : tree) : tree :=
         match es with
         | [] => target
         | (name, c) :: es' =>
             go es' (if decide (name = proto_name) then target
                     else match c with
                          | TNode arr _ => put_child name (merge_tree c (child_or_empty target name arr)) target
                          | TLeaf CUndef => target
                          | TLeaf v => put_child name c target
                          end)
         end) es target
  end.

(** The same entry by entry. *)
Definition merge_entry (target : tree) (e : jstr * tree) : tree :=
  if decide (e.1 = proto_name) then target
  else match e.2 with
       | TNode arr _ => put_child e.1 (merge_tree e.2 (child_or_empty target e.1 arr)) target
       | TLeaf CUndef => target
       | TLeaf v => put_child e.1 e.2 target
       end.

Lemma merge_tree_node arr es target : merge_tree (TNode arr es) target = fold_left merge_entry es target.
Proof. cbn [merge_tree]. revert target. induction es as [|[k c] es IH]; intros target; [done|]. cbn [fold_left]. rewrite <-IH. done. Qed.

(** ** Keys *)

Definition keys {A} (p : list (jstr * A)) : list jstr := List.map fst p.

Lemma assoc_None {A} (p : list (jstr * A)) k : assoc p k = None <-> k ∉ keys p.
Proof.
  induction p as [|[k' w] p IH]; cbn [assoc keys List.map fst]; [split; [intros _; apply not_elem_of_nil|done]|].
  rewrite not_elem_of_cons. case_decide as E; [subst; split; [done|by intros []]|]. rewrite IH. unfold keys. naive_solver.
Qed.

Lemma assoc_in {A} (p : list (jstr * A)) k v : assoc p k = Some v -> (k, v) ∈ p.
Proof.
  induction p as [|[k' w] p IH]; cbn [assoc]; [done|]. case_decide as E; [subst|]; intros Hv; [injection Hv as ->; by left|right; auto].
Qed.

Lemma assoc_elem {A} (p : list (jstr * A)) k v : NoDup (keys p) -> (k, v) ∈ p -> assoc p k = Some v.
Proof.
  induction p as [|[k' w] p IH]; intros Hn Hin; [by apply elem_of_nil in Hin|]. cbn in Hn. apply NoDup_cons in Hn as [Hk Hn].
  cbn [assoc]. apply elem_of_cons in Hin as [[= <- <-]|Hin]; [by rewrite decide_True|].
  rewrite decide_False; [by apply IH|]. intros ->. apply Hk. apply list_elem_of_fmap. by exists (k, v).
Qed.

(** Entries under other keys. *)
Definition others {A} (k : jstr) (p : list (jstr * A)) : list (jstr * A) := List.filter (fun e => negb (bool_decide (e.1 = k))) p.

Lemma others_absent {A} k (p : list (jstr * A)) : k ∉ keys p -> others k p = p.
Proof.
  induction p as [|[k' w] p IH]; [done|]. cbn. rewrite not_elem_of_cons. intros [Hk Hp].
  rewrite bool_decide_eq_false_2 by done. cbn. f_equal. by apply IH.
Qed.

Lemma assoc_split {A} (p : list (jstr * A)) k v : NoDup (keys p) -> assoc p k = Some v -> p ≡ₚ (k, v) :: others k p.
Proof.
  induction p as [|[k' w] p IH]; [done|]. cbn. intros [Hk Hn]%NoDup_cons. case_decide as E.
  - intros [= ->]. subst. rewrite bool_decide_eq_true_2 by done. cbn. fold (others k p). by rewrite others_absent.
  - intros Hv. rewrite bool_decide_eq_false_2 by done. cbn. fold (others k p). rewrite (IH Hn Hv) at 1. constructor.
Qed.

Lemma add_key_perm {A} k (v : A) p : add_key k v p ≡ₚ (k, v) :: p.
Proof.
  induction p as [|[k' w] p IH]; [done|]. cbn. repeat case_match; try done; rewrite IH; constructor.
Qed.

Lemma replace_key_perm {A} k (v : A) p : NoDup (keys p) -> k ∈ keys p -> replace_key k v p ≡ₚ (k, v) :: others k p.
Proof.
  induction p as [|[k' w] p IH]; cbn; [intros _ H; by apply elem_of_nil in H|]. intros [Hk Hn]%NoDup_cons. rewrite elem_of_cons. case_decide as E.
  - intros _. subst. rewrite bool_decide_eq_true_2 by done. cbn. fold (others k p). by rewrite others_absent.
  - intros [?|Hin]; [congruence|]. rewrite bool_decide_eq_false_2 by done. cbn. fold (others k p). rewrite (IH Hn Hin). constructor.
Qed.

Lemma put_key_perm {A} k (v : A) p : NoDup (keys p) -> put_key k v p ≡ₚ (k, v) :: others k p.
Proof.
  intros Hn. unfold put_key. destruct (assoc p k) as [w|] eqn:E.
  - apply replace_key_perm; [done|]. apply assoc_in in E. apply list_elem_of_fmap. by exists (k, w).
  - rewrite others_absent by (by apply assoc_None). apply add_key_perm.
Qed.

Lemma others_keys {A} k (p : list (jstr * A)) : keys (others k p) = List.filter (fun k' => negb (bool_decide (k' = k))) (keys p).
Proof. induction p as [|[k' w] p IH]; [done|]. cbn. destruct (bool_decide (k' = k)); cbn; [done|by f_equal]. Qed.

Lemma put_key_keys {A} k (v : A) p : NoDup (keys p) -> NoDup (keys (put_key k v p)).
Proof.
  intros Hn. unfold keys. rewrite (put_key_perm k v p Hn). cbn. apply NoDup_cons. fold (keys (others k p)). rewrite others_keys. split.
  - intros Hin%list_elem_of_In%filter_In. destruct Hin as [_ Hin]. by rewrite bool_decide_eq_true_2 in Hin.
  - apply NoDup_ListNoDup, List.NoDup_filter, NoDup_ListNoDup, Hn.
Qed.

Lemma assoc_put_key {A} (p : list (jstr * A)) k v k' : assoc (put_key k v p) k' = if decide (k = k') then Some v else assoc p k'.
Proof.
  unfold put_key. destruct (assoc p k) as [w|] eqn:E.
  - induction p as [|[k1 u] p IH]; [done|]. cbn in *. destruct (decide (k1 = k)) as [->|Hk]; cbn; [by repeat case_decide|].
    rewrite (IH E). repeat case_decide; congruence.
  - induction p as [|[k1 u] p IH]; [done|]. cbn in *. destruct (decide (k1 = k)) as [->|Hk]; [done|].
    destruct (index_key k) as [i|], (index_key k1) as [j|]; [destruct (i <? j)%N| | |]; cbn; rewrite ?(IH E); repeat case_decide; congruence.
Qed.

(** Maps that keep the keys. *)
Lemma assoc_map {A B} (g : A -> B) p k : assoc (List.map (fun e => (e.1, g e.2)) p) k = g <$> assoc p k.
Proof. induction p as [|[k' w] p IH]; [done|]. cbn. by case_decide. Qed.

Lemma put_key_map {A B} (g : A -> B) p k v : List.map (fun e => (e.1, g e.2)) (put_key k v p) = put_key k (g v) (List.map (fun e => (e.1, g e.2)) p).
Proof.
  unfold put_key. rewrite assoc_map. destruct (assoc p k); cbn [fmap option_fmap option_map].
  - induction p as [|[k' w] p IH]; [done|]. cbn. case_decide; [done|]. cbn. by rewrite IH.
  - induction p as [|[k' w] p IH]; [done|]. cbn. destruct (index_key k), (index_key k'); cbn; rewrite ?IH; try done. by case_match; cbn; rewrite ?IH.
Qed.

(** Lists of entries with the same keys. *)
Definition entries {A B} (R : A -> B -> Prop) : list (jstr * A) -> list (jstr * B) -> Prop := Forall2 (fun p e => p.1 = e.1 /\ R p.2 e.2).

Lemma entries_assoc {A B} (R : A -> B -> Prop) p es k : entries R p es ->
  match assoc p k, assoc es k with Some v, Some e => R v e | None, None => True | _, _ => False end.
Proof.
  induction 1 as [|[k1 v] [k2 e] p es [Hk HR] _ IH]; [done|]. cbn in *. subst. by case_decide.
Qed.

Lemma entries_put {A B} (R : A -> B -> Prop) p es k v e : entries R p es -> R v e -> entries R (put_key k v p) (put_key k e es).
Proof.
  intros H HR. pose proof (entries_assoc R p es k H) as Ha. unfold put_key.
  destruct (assoc p k), (assoc es k); try done; clear Ha.
  - induction H as [|[k1 w] [k2 e'] p es [Hk HR'] Hall IH]; [constructor|]. cbn in *. subst. case_decide; by constructor.
  - induction H as [|[k1 w] [k2 e'] p es [Hk HR'] Hall IH]; [by constructor; [|constructor]|]. cbn in *. subst.
    destruct (index_key k), (index_key k2); try case_match; repeat first [by constructor|constructor; [done|]]; done.
Qed.

Lemma entries_keys {A B} (R : A -> B -> Prop) p es : entries R p es -> keys p = keys es.
Proof. induction 1 as [|[k1 v] [k2 e] p es [Hk HR] _ IH]; [done|]. cbn in *. by f_equal. Qed.

(** All entries but one are related. *)
Definition entries_but {A B} (k : jstr) (R : A -> B -> Prop) : list (jstr * A) -> list (jstr * B) -> Prop :=
  Forall2 (fun p e => p.1 = e.1 /\ (p.1 <> k -> R p.2 e.2)).

Lemma entries_but_absent {A B} k (R : A -> B -> Prop) p es : entries_but k R p es -> k ∉ keys p -> entries R p es.
Proof.
  induction 1 as [|[k1 v] [k2 e] p es [Hk HR] _ IH]; intros Hn; [constructor|]. cbn in Hn. apply not_elem_of_cons in Hn as [H1 H2].
  constructor; [split; [done|apply HR; cbn; congruence]|by apply IH].
Qed.

Lemma entries_put_but {A B} (R : A -> B -> Prop) p es k v e : NoDup (keys p) -> entries_but k R p es -> R v e ->
  entries R (put_key k v p) (put_key k e es).
Proof.
  intros Hn Hall HR. assert (match assoc p k, assoc es k with Some _, Some _ | None, None => True | _, _ => False end) as Ha.
  { clear Hn. induction Hall as [|[k1 w] [k2 e'] p es [Hk _] _ IH]; [done|]. cbn in *. subst. by case_decide. }
  unfold put_key. destruct (assoc p k) eqn:E1, (assoc es k); try done.
  - clear E1 Ha. induction Hall as [|[k1 w] [k2 e'] p es [Hk HR'] Hall IH]; [constructor|]. cbn in *. subst. apply NoDup_cons in Hn as [Hk1 Hn].
    case_decide as E; subst.
    + constructor; [done|]. by apply entries_but_absent in Hall.
    + constructor; [split; [done|by apply HR']|by apply IH].
  - apply assoc_None in E1. apply entries_but_absent in Hall; [|done]. apply assoc_None in E1.
    pose proof (entries_put R p es k v e Hall HR) as Hput. unfold put_key in Hput. rewrite E1 in Hput.
    pose proof (entries_assoc R p es k Hall) as Ha'. rewrite E1 in Ha'. by destruct (assoc es k).
Qed.

(** ** Trees in a heap *)

Section trees.
(** The heap before anything is copied. *)
Context (h0 : heap).

(** An object or array as literals make them. *)
Definition literal (ob : object) : option bool :=
  if bool_decide (o_hidden ob = []) && bool_decide (NoDup (List.map fst (o_props ob))) then
    match o_kind ob with
    | KObject => match o_proto ob with
                 | None => Some false
                 | Some p => if decide (p = object_prototype) then Some false else None
                 end
    | KArray _ => if bool_decide (o_proto ob = Some array_prototype) && bool_decide (assoc (o_props ob) length_name = None) then Some true else None
    | _ => None
    end
  else None.

(** A value that is copied as it is. *)
Definition leaf_ok (v : cval) : bool :=
  match v with
  | CRef o => bool_decide (o < length h0)%nat && negb (isPlainObject h0 v) && negb (is_array h0 v)
  | _ => true
  end.

(** The tree of a value, up to a depth, with the objects that make up its nodes. *)
Fixpoint scan (n : nat) (h : heap) (v : cval) : option (tree * list nat) :=
  match n with
  | O => None
  | S n =>
      match v with
      | CRef o =>
          match h !! o ≫= (fun ob => arr ← literal ob; Some (arr, o_props ob)) with
          | Some (arr, props) =>
              es ← mapM (fun p => (fun r => (p.1, r)) <$> scan n h p.2) props;
              Some (TNode arr (List.map (fun e => (e.1, e.2.1)) es), o :: flat_map (fun e => e.2.2) es)
          | None => if leaf_ok v then Some (TLeaf v, []) else None
          end
      | _ => Some (TLeaf v, [])
      end
  end.

(** The tree of a source. *)
Definition tree_of (n : nat) (v : cval) : option tree := fst <$> scan n h0 v.

(** ** A heap as a page has it at the beginning *)

Definition ref_ok (v : cval) : Prop := match v with CRef o => (o < length h0)%nat | _ => True end.

Definition inert_value (v : cval) : Prop := isPlainObject h0 v = false /\ is_array h0 v = false.

(** References lead to objects, and the members of the two prototypes are neither plain
    objects nor arrays. *)
Record standard (f : nat) (hid0 hid1 : props) : Prop := {
  std_object : h0 !! object_prototype = Some (Object KObject None [] hid0);
  std_array : h0 !! array_prototype = Some (Object (KArray 0) (Some object_prototype) [] hid1);
  std_constructor : assoc hid0 (str "constructor") = Some (CRef f);
  std_function : exists ob, h0 !! f = Some ob /\ o_kind ob = KFun ObjectFunctionString;
  std_inert k v : assoc hid0 k = Some v \/ assoc hid1 k = Some v -> inert_value v;
  std_closed o ob : h0 !! o = Some ob ->
    (forall p, o_proto ob = Some p -> (p < length h0)%nat) /\ Forall (fun e => ref_ok e.2) (o_props ob ++ o_hidden ob)
}.

(** Heaps in which the old objects are as they were. *)
Definition grown (h : heap) : Prop := h0 `prefix_of` h.

Lemma grown_lookup h o : grown h -> (o < length h0)%nat -> h !! o = h0 !! o.
Proof. intros [l ->] Ho. by rewrite lookup_app_l. Qed.

Lemma grown_refl : grown h0.
Proof. exists []. by rewrite app_nil_r. Qed.

Section standard.
Context (f : nat) (hid0 hid1 : props).
Hypothesis Hstd : standard f hid0 hid1.

Lemma own_ref_ok o ob k v : h0 !! o = Some ob -> own ob k = Some v -> ref_ok v.
Proof.
  intros Eo Ev. destruct (std_closed _ _ _ Hstd o ob Eo) as [_ Hp]. rewrite Forall_forall in Hp.
  assert (forall w, assoc (o_props ob) k = Some w \/ assoc (o_hidden ob) k = Some w -> ref_ok w) as Ha.
  { intros w [Hw|Hw]; apply assoc_in in Hw; apply (Hp (k, w)), elem_of_app; auto. }
  unfold own in Ev. destruct (o_kind ob); [| | |]; try (case_decide; [by injection Ev as <-|]);
    (destruct (assoc (o_props ob) k) eqn:E1; [injection Ev as <-; by apply Ha; left|by apply Ha; right]).
Qed.

Lemma object_at_grown h v : grown h -> ref_ok v -> object_at h v = object_at h0 v.
Proof. intros Hg Hv. destruct v; try done. cbn. by apply grown_lookup. Qed.

Lemma plain_grown h v : grown h -> ref_ok v -> isPlainObject h v = isPlainObject h0 v.
Proof.
  intros Hg Hv. unfold isPlainObject. rewrite object_at_grown by done.
  destruct v as [| | | | |o]; try done. cbn [object_at]. destruct (h0 !! o) as [ob|] eqn:Eo; [|done].
  destruct (o_kind ob); [|done..]. destruct (o_proto ob) as [p|] eqn:Ep; [|done].
  destruct (std_closed _ _ _ Hstd o ob Eo) as [Hp _]. specialize (Hp p Ep). rewrite (grown_lookup h p) by done.
  destruct (h0 !! p) as [pb|] eqn:Epb; cbn [default id]; [|done].
  destruct (own pb (str "constructor")) as [c|] eqn:Ec; [|done]. rewrite object_at_grown; [done|done|].
  by eapply own_ref_ok.
Qed.

Lemma array_grown h v : grown h -> ref_ok v -> is_array h v = is_array h0 v.
Proof. intros Hg Hv. unfold is_array. by rewrite object_at_grown. Qed.

(** Literals are plain objects and arrays. *)
Lemma literal_kind h o ob arr : grown h -> h !! o = Some ob -> literal ob = Some arr ->
  isPlainObject h (CRef o) = negb arr /\ is_array h (CRef o) = arr.
Proof.
  intros Hg Eo Hl. unfold literal in Hl. destruct (bool_decide _ && bool_decide _); [|done].
  unfold isPlainObject, is_array. cbn [object_at]. rewrite Eo. destruct (o_kind ob) eqn:Ek; [| |done..].
  - destruct (o_proto ob) as [p|]; [|by injection Hl as <-]. case_decide as Ep; [|done]. injection Hl as <-. subst p.
    assert (length h0 <> 0)%nat as Hlen by (pose proof (lookup_lt_Some _ _ _ (std_object _ _ _ Hstd)); lia).
    rewrite (grown_lookup h object_prototype Hg), (std_object _ _ _ Hstd) by (unfold object_prototype; lia).
    cbn [default id own o_kind o_props o_hidden]. cbn [assoc]. rewrite (std_constructor _ _ _ Hstd).
    destruct (std_function _ _ _ Hstd) as (fb & Ef & Efk). cbn [object_at].
    rewrite (grown_lookup h f Hg), Ef by (by eapply lookup_lt_Some). rewrite Efk. by rewrite bool_decide_eq_true_2.
  - destruct (bool_decide _ && bool_decide _); [|done]. by injection Hl as <-.
Qed.

Lemma std_long : (2 <= length h0)%nat.
Proof. pose proof (lookup_lt_Some _ _ _ (std_array _ _ _ Hstd)). unfold array_prototype in *. lia. Qed.

(** ** Reading literals *)

Lemma literal_cases ob arr : literal ob = Some arr ->
  o_hidden ob = [] /\ NoDup (keys (o_props ob))
  /\ match arr with
     | false => o_kind ob = KObject /\ (o_proto ob = None \/ o_proto ob = Some object_prototype)
     | true => (exists len, o_kind ob = KArray len) /\ o_proto ob = Some array_prototype /\ assoc (o_props ob) length_name = None
     end.
Proof.
  unfold literal. destruct (bool_decide (o_hidden ob = [])) eqn:E1; [|done]. destruct (bool_decide (NoDup _)) eqn:E2; [|done].
  apply bool_decide_eq_true in E1, E2. cbn [andb]. destruct (o_kind ob) as [|len| |]; [| |done..].
  - destruct (o_proto ob) as [p|]; [case_decide as Ep; [|done]; intros [= <-]; subst; split_and!; auto|intros [= <-]; split_and!; auto].
  - destruct (bool_decide (o_proto ob = _)) eqn:E3; [|done]. destruct (bool_decide (assoc _ _ = _)) eqn:E4; [|done].
    apply bool_decide_eq_true in E3, E4. intros [= <-]. split_and!; try done. by eexists.
Qed.

Lemma literal_own ob arr k : literal ob = Some arr -> (arr = true -> k <> length_name) -> own ob k = assoc (o_props ob) k.
Proof.
  intros Hl Hk. destruct (literal_cases ob arr Hl) as (Hh & _ & Ha). unfold own. rewrite Hh.
  destruct arr; [destruct Ha as ((len & ->) & _); rewrite decide_False by auto|destruct Ha as (-> & _)]; by destruct (assoc _ k).
Qed.

(** The names that a loop over a literal visits are its own. *)
Lemma literal_names h o ob arr : grown h -> h !! o = Some ob -> literal ob = Some arr -> for_in h (CRef o) = keys (o_props ob).
Proof.
  intros Hg Eo Hl. destruct (literal_cases ob arr Hl) as (Hh & _ & Ha). pose proof std_long as Hlen.
  assert (forall n seen, chain_names n h object_prototype seen = []) as H0.
  { intros [|n] seen; [done|]. cbn [chain_names]. rewrite (grown_lookup h object_prototype Hg) by (unfold object_prototype; lia).
    by rewrite (std_object _ _ _ Hstd). }
  assert (forall n seen, chain_names n h array_prototype seen = []) as H1.
  { intros [|n] seen; [done|]. cbn [chain_names]. rewrite (grown_lookup h array_prototype Hg) by (unfold array_prototype; lia).
    rewrite (std_array _ _ _ Hstd). cbn. apply H0. }
  unfold for_in. cbn [chain_names]. rewrite Eo, Hh.
  assert (List.filter (fun k => negb (bool_decide (k ∈ @nil jstr))) (List.map fst (o_props ob)) = keys (o_props ob)) as ->.
  { unfold keys. induction (List.map fst (o_props ob)) as [|k l IH]; [done|]. cbn [List.filter]. rewrite bool_decide_eq_false_2 by apply not_elem_of_nil. cbn. by f_equal. }
  destruct arr.
  - destruct Ha as (_ & -> & _). by rewrite H1, app_nil_r.
  - destruct Ha as (_ & [-> | ->]); [by rewrite app_nil_r|by rewrite H0, app_nil_r].
Qed.

(** What a literal does not have itself is nothing that is copied deeply. *)
Lemma literal_member h o ob arr k : grown h -> h !! o = Some ob -> literal ob = Some arr -> (arr = true -> k <> length_name) ->
  match assoc (o_props ob) k with
  | Some v => get_member h o k = v /\ has_member h o k = true
  | None => isPlainObject h (get_member h o k) = false /\ is_array h (get_member h o k) = false
  end.
Proof.
  intros Hg Eo Hl Hk. pose proof (literal_own ob arr k Hl Hk) as Hown. destruct (literal_cases ob arr Hl) as (_ & _ & Ha).
  pose proof std_long as Hlen. assert (2 <= length h)%nat as Hlh by (destruct Hg as [l ->]; rewrite length_app; lia).
  unfold get_member, has_member. cbn [chain_get]. rewrite Eo, Hown. destruct (assoc (o_props ob) k) as [v|]; [done|].
  assert (forall v, inert_value v -> ref_ok v -> isPlainObject h v = false /\ is_array h v = false) as Hin.
  { intros v [H1 H2] Hr. by rewrite plain_grown, array_grown. }
  assert (forall n, match chain_get n h object_prototype k with Some v => inert_value v /\ ref_ok v | None => True end) as H0.
  { intros [|n]; [done|]. cbn [chain_get]. rewrite (grown_lookup h object_prototype Hg) by (unfold object_prototype; lia).
    rewrite (std_object _ _ _ Hstd). cbn [own o_kind o_props o_hidden o_proto assoc]. destruct (assoc hid0 k) as [v|] eqn:E; [|done].
    split; [apply (std_inert _ _ _ Hstd k); by left|]. eapply (own_ref_ok object_prototype _ k); [apply (std_object _ _ _ Hstd)|]. done. }
  assert (forall n, (arr = true -> k <> length_name) -> arr = true -> match chain_get n h array_prototype k with Some v => inert_value v /\ ref_ok v | None => True end) as H1.
  { intros [|n] Hk' Harr; [done|]. cbn [chain_get]. rewrite (grown_lookup h array_prototype Hg) by (unfold array_prototype; lia).
    rewrite (std_array _ _ _ Hstd). cbn [own o_kind o_props o_hidden o_proto assoc]. rewrite decide_False by auto.
    destruct (assoc hid1 k) as [v|] eqn:E; [|apply H0].
    split; [apply (std_inert _ _ _ Hstd k); by right|]. eapply (own_ref_ok array_prototype _ k); [apply (std_array _ _ _ Hstd)|].
    cbn [own o_kind o_props o_hidden assoc]. by rewrite decide_False by auto. }
  destruct arr.
  - destruct Ha as (_ & -> & _). specialize (H1 (length h) Hk eq_refl). destruct (chain_get _ _ _ _) as [v|]; [|done]. apply Hin; apply H1.
  - destruct Ha as (_ & [-> | ->]); [done|]. specialize (H0 (length h)). destruct (chain_get _ _ _ _) as [v|]; [|done]. apply Hin; apply H0.
Qed.

(** Assigning a property of a literal makes a literal. *)
Lemma literal_put ob arr k v : literal ob = Some arr -> (arr = true -> k <> length_name) ->
  exists ob', put_member k v ob = Ok ob' /\ literal ob' = Some arr /\ o_props ob' = put_key k v (o_props ob).
Proof.
  intros Hl Hk. destruct (literal_cases ob arr Hl) as (Hh & Hn & Ha). pose proof (put_key_keys k v _ Hn) as Hn'. unfold put_member.
  destruct arr.
  - destruct Ha as ((len & Ek) & Ep & Hlen). rewrite Ek. rewrite decide_False by auto. eexists. split; [reflexivity|].
    assert (assoc (put_key k v (o_props ob)) length_name = None) as Hlen'.
    { apply assoc_None. apply assoc_None in Hlen. unfold keys. rewrite (put_key_perm k v _ Hn). cbn. rewrite not_elem_of_cons. split; [by intros E; apply Hk; [|symmetry]|].
      fold (keys (others k (o_props ob))). rewrite others_keys. intros Hin%list_elem_of_In%filter_In. apply Hlen. by apply list_elem_of_In, Hin. }
    destruct (index_key k); (split; [|done]); unfold literal; cbn [o_hidden o_props o_kind o_proto set_kind set_props];
      rewrite ?Ek, Hh, Ep, !bool_decide_eq_true_2 by done; done.
  - destruct Ha as (Ek & Ep). rewrite Ek, Hh. cbn [assoc]. eexists. split; [reflexivity|]. split; [|done].
    unfold literal. cbn [o_hidden o_props o_kind o_proto set_props]. rewrite Hh, !bool_decide_eq_true_2 by done. cbn [andb]. rewrite Ek.
    destruct Ep as [-> | ->]; [done|]. by rewrite decide_True.
Qed.

(** ** Scanning *)

Definition scans (n : nat) (h : heap) (v : cval) (r : tree * list nat) : Prop := scan n h v = Some r.
Definition nodes (es : list (jstr * (tree * list nat))) : list nat := flat_map (fun e => e.2.2) es.
Definition trees_of (es : list (jstr * (tree * list nat))) : list (jstr * tree) := List.map (fun e => (e.1, e.2.1)) es.

Lemma scan_node n h o ob arr es : h !! o = Some ob -> literal ob = Some arr -> entries (scans n h) (o_props ob) es ->
  scan (S n) h (CRef o) = Some (TNode arr (trees_of es), o :: nodes es).
Proof.
  intros Eo Hl Hes. cbn [scan]. rewrite Eo. cbn [mbind option_bind]. rewrite Hl. cbn [mbind option_bind].
  assert (mapM (fun p => (fun r => (p.1, r)) <$> scan n h p.2) (o_props ob) = Some es) as ->; [|done].
  apply mapM_Some. eapply Forall2_impl; [exact Hes|]. intros [k v] [k' r] [Hk Hr]. cbn in *. subst. by rewrite Hr.
Qed.

Lemma scan_inv n h v t fp : scan (S n) h v = Some (t, fp) ->
  (exists o ob arr es, v = CRef o /\ h !! o = Some ob /\ literal ob = Some arr /\ entries (scans n h) (o_props ob) es
    /\ t = TNode arr (trees_of es) /\ fp = o :: nodes es)
  \/ (t = TLeaf v /\ fp = [] /\ leaf_ok v = true).
Proof.
  cbn [scan]. destruct v as [| | | | |o]; try (intros [= <- <-]; by right).
  destruct (h !! o) as [ob|] eqn:Eo; cbn [mbind option_bind].
  - destruct (literal ob) as [arr|] eqn:El; cbn [mbind option_bind].
    + destruct (mapM _ (o_props ob)) as [es|] eqn:Em; cbn [mbind option_bind]; [|done]. intros [= <- <-]. left.
      exists o, ob, arr, es. split_and!; try done. apply mapM_Some in Em. eapply Forall2_impl; [exact Em|].
      intros [k v] [k' r] Hr. cbn in *. destruct (scan n h v) eqn:E; [|done]. injection Hr as <- <-. by split.
    + destruct (leaf_ok (CRef o)) eqn:E; [|done]. intros [= <- <-]. by right.
  - destruct (leaf_ok (CRef o)) eqn:E; [|done]. intros [= <- <-]. by right.
Qed.

(** A leaf is one in every heap grown from the first. *)
Lemma scan_leaf n h v : grown h -> leaf_ok v = true -> scan (S n) h v = Some (TLeaf v, []).
Proof.
  intros Hg Hl. destruct v as [| | | | |o]; try done. pose proof Hl as Hl'. cbn [leaf_ok] in Hl. apply andb_true_iff in Hl as [[Ho Hp]%andb_true_iff Ha].
  apply bool_decide_eq_true in Ho. apply negb_true_iff in Hp, Ha. cbn [scan]. rewrite (grown_lookup h o Hg Ho).
  destruct (h0 !! o) as [ob|] eqn:Eo; cbn [mbind option_bind]; [|by rewrite Hl'].
  destruct (literal ob) as [arr|] eqn:El; cbn [mbind option_bind]; [|by rewrite Hl'].
  destruct (literal_kind h0 o ob arr grown_refl Eo El) as [H1 H2]. destruct arr; cbn in *; congruence.
Qed.

(** A tree is the same in a heap that has the same nodes. *)
Lemma scan_agree n : forall h h' v t fp, grown h -> grown h' -> scan n h v = Some (t, fp) -> (forall o, o ∈ fp -> h' !! o = h !! o) ->
  scan n h' v = Some (t, fp).
Proof.
  induction n as [|n IH]; intros h h' v t fp Hg Hg' Hs Ha; [done|].
  destruct (scan_inv _ _ _ _ _ Hs) as [(o & ob & arr & es & -> & Eo & Hl & Hes & -> & ->)|(-> & -> & Hl)].
  - apply (scan_node n h' o ob); [by rewrite Ha by (by left)|done|].
    assert (forall x, x ∈ nodes es -> h' !! x = h !! x) as Ha' by (intros x Hx; apply Ha; by right). clear Ha Hs Eo Hl. revert Ha'.
    induction Hes as [|[k v] [k' [t' fp']] ps es [Hk Hr] Hes' IHes]; intros Ha'; [constructor|]. constructor.
    + split; [done|]. apply (IH h); try done. intros x Hx. apply Ha'. apply elem_of_app. by left.
    + apply IHes. intros x Hx. apply Ha'. apply elem_of_app. by right.
  - by apply scan_leaf.
Qed.

(** Its nodes are objects of the heap. *)
Lemma scan_nodes n : forall h v t fp o, scan n h v = Some (t, fp) -> o ∈ fp -> (o < length h)%nat.
Proof.
  induction n as [|n IH]; intros h v t fp o Hs Ho; [done|].
  destruct (scan_inv _ _ _ _ _ Hs) as [(o' & ob & arr & es & -> & Eo & Hl & Hes & -> & ->)|(-> & -> & Hl)]; [|by apply elem_of_nil in Ho].
  apply elem_of_cons in Ho as [->|Ho]; [by eapply lookup_lt_Some|]. clear Hs Eo Hl.
  induction Hes as [|[k v] [k' [t' fp']] ps es [Hk Hr] Hes' IHes]; [by apply elem_of_nil in Ho|].
  apply elem_of_app in Ho as [Ho|Ho]; [by eapply IH|by apply IHes].
Qed.

(** ** Changes to fresh objects *)

(** From [h], with the nodes [fp] of a tree, to [h'], with the nodes [fp']. *)
Definition steps (h : heap) (fp : list nat) (h' : heap) (fp' : list nat) : Prop :=
  (length h <= length h')%nat /\ (forall x, (x < length h)%nat -> x ∉ fp -> h' !! x = h !! x)
  /\ (forall x, x ∈ fp' -> x ∈ fp \/ (length h <= x)%nat).

Definition fresh_nodes (fp : list nat) : Prop := NoDup fp /\ forall x, x ∈ fp -> (length h0 <= x)%nat.

Lemma steps_refl h fp : steps h fp h fp.
Proof. split_and!; auto. Qed.

Lemma steps_trans h fp h1 fp1 h2 fp2 : steps h fp h1 fp1 -> steps h1 fp1 h2 fp2 -> steps h fp h2 fp2.
Proof.
  intros (L1 & S1 & F1) (L2 & S2 & F2). split_and!; [lia| |].
  - intros x Hx Hn. rewrite S2; [by apply S1|lia|]. intros [?|?]%F1; [done|lia].
  - intros x [H1|H1]%F2; [by apply F1|right; lia].
Qed.

Lemma grown_by h : (length h0 <= length h)%nat -> (forall x, (x < length h0)%nat -> h !! x = h0 !! x) -> grown h.
Proof.
  intros Hl Hx. exists (drop (length h0) h). rewrite <-(take_drop (length h0) h) at 1. f_equal.
  apply list_eq. intros i. rewrite lookup_take. case_decide as Hi; [by apply Hx|]. by rewrite lookup_ge_None_2 by lia.
Qed.

Lemma grown_length h : grown h -> (length h0 <= length h)%nat.
Proof. intros [l ->]. rewrite length_app. lia. Qed.

Lemma grown_steps h fp h' fp' : grown h -> fresh_nodes fp -> steps h fp h' fp' -> grown h'.
Proof.
  intros Hg [_ Hf] (L & S & _). pose proof (grown_length h Hg) as Hl. apply grown_by; [lia|].
  intros x Hx. rewrite S; [by apply grown_lookup|lia|]. intros Hin. specialize (Hf x Hin). lia.
Qed.

Lemma nodes_put es k r : NoDup (keys es) -> nodes (put_key k r es) ≡ₚ r.2 ++ nodes (others k es).
Proof. intros Hn. unfold nodes. rewrite (put_key_perm k r es Hn). done. Qed.

(** Assigning a value whose nodes are new or the ones that were there. *)
Lemma put_step n h o ob arr es k v c cfp :
  grown h -> h !! o = Some ob -> literal ob = Some arr -> entries_but k (scans n h) (o_props ob) es -> scans n h v (c, cfp) ->
  fresh_nodes (o :: cfp ++ nodes (others k es)) -> (arr = true -> k <> length_name) ->
  exists h' fp', put o k v h = (Ok tt, h') /\ grown h' /\ length h' = length h /\ (forall x, x <> o -> h' !! x = h !! x)
    /\ scan (S n) h' (CRef o) = Some (put_child k c (TNode arr (trees_of es)), fp') /\ fp' ≡ₚ o :: cfp ++ nodes (others k es).
Proof.
  intros Hg Eo Hl Hes Hv [Hnd Hf] Hk. destruct (literal_put ob arr k v Hl Hk) as (ob' & Ep & Hl' & Eprops).
  destruct (literal_cases ob arr Hl) as (_ & Hn & _).
  set (h' := <[o := ob']> h). assert (forall x, x <> o -> h' !! x = h !! x) as Hsame by (intros x Hx; unfold h'; by rewrite list_lookup_insert_ne).
  assert (grown h') as Hg'.
  { apply grown_by; [unfold h'; rewrite length_insert; by apply grown_length|]. intros x Hx. rewrite Hsame; [by apply grown_lookup|].
    intros ->. specialize (Hf o ltac:(by left)). lia. }
  assert (keys es = keys (o_props ob)) as Ekeys.
  { clear -Hes. unfold entries_but in Hes. induction Hes as [|[k1 w] [k2 e] p es [Hk _] _ IH]; [done|]. cbn in *. by f_equal. }
  assert (entries (scans n h) (put_key k v (o_props ob)) (put_key k (c, cfp) es)) as Hput by (by apply entries_put_but).
  assert (nodes (put_key k (c, cfp) es) ≡ₚ cfp ++ nodes (others k es)) as Hnodes by (apply nodes_put; by rewrite Ekeys).
  exists h', (o :: nodes (put_key k (c, cfp) es)). split_and!; try done.
  - unfold put. rewrite Eo, Ep. done.
  - unfold h'. by rewrite length_insert.
  - rewrite (scan_node n h' o ob' arr (put_key k (c, cfp) es)); [|unfold h'; rewrite list_lookup_insert_eq; [done|by eapply lookup_lt_Some]|done|].
    + cbn [put_child]. unfold trees_of. by rewrite (put_key_map fst es k (c, cfp)).
    + rewrite Eprops. apply NoDup_cons in Hnd as [Ho _]. rewrite <-Hnodes in Ho. revert Ho. clear Eprops Hnodes.
      induction Hput as [|[k1 w] [k2 [t f']] p es' [Hk1 Hr] _ IH]; intros Ho; [constructor|]. cbn in Ho. apply not_elem_of_app in Ho as [Ho1 Ho2].
      constructor; [|by apply IH]. split; [done|]. apply (scan_agree n h); try done. intros x Hx. apply Hsame. intros ->. done.
  - by rewrite Hnodes.
Qed.

(** ** Copying *)

Lemma scan_kind n h v t fp : grown h -> scan n h v = Some (t, fp) ->
  match t with
  | TNode arr _ => (exists o, v = CRef o) /\ isPlainObject h v = negb arr /\ is_array h v = arr
  | TLeaf _ => isPlainObject h v = false /\ is_array h v = false
  end.
Proof.
  intros Hg Hs. destruct n as [|n]; [done|]. destruct (scan_inv _ _ _ _ _ Hs) as [(o & ob & arr & es & -> & Eo & Hl & _ & -> & _)|(-> & _ & Hl)].
  - split; [by eexists|]. by eapply literal_kind.
  - destruct v as [| | | | |o]; try done. cbn [leaf_ok] in Hl. apply andb_true_iff in Hl as [[Ho Hp]%andb_true_iff Ha].
    apply bool_decide_eq_true in Ho. apply negb_true_iff in Hp, Ha. by rewrite plain_grown, array_grown.
Qed.

Lemma entries_nodes n h ps es x : entries (scans n h) ps es -> x ∈ nodes es -> (x < length h)%nat.
Proof.
  induction 1 as [|[k v] [k' [t fp]] ps es [_ Hr] _ IH]; intros Hx; [by apply elem_of_nil in Hx|].
  apply elem_of_app in Hx as [Hx|Hx]; [by eapply scan_nodes|by apply IH].
Qed.

Lemma others_nodes k es x : x ∈ nodes (others k es) -> x ∈ nodes es.
Proof.
  unfold nodes. rewrite !list_elem_of_In, !in_flat_map. intros (e & Hin & Hx). exists e. split; [|done]. by apply filter_In in Hin as [? _].
Qed.

Lemma scan_empty n (h : heap) (arr : bool) : grown h ->
  scan (S n) (h ++ [if arr then empty_array else empty_object]) (CRef (length h)) = Some (empty_node arr, [length h]).
Proof.
  intros Hg. apply (scan_node n _ (length h) (if arr then empty_array else empty_object) arr []); [by rewrite list_lookup_middle|by destruct arr|by destruct arr; constructor].
Qed.

(** The object that a copy is merged into, and its tree. *)
Lemma clone_step n h o ob arr es k w :
  grown h -> h !! o = Some ob -> literal ob = Some arr -> entries (scans (S n) h) (o_props ob) es -> fresh_nodes (o :: nodes es) ->
  (arr = true -> k <> length_name) ->
  comes (clone_of o k w) h (fun x h1 => exists cfp, grown h1 /\ steps h [] h1 []
    /\ scan (S n) h1 (CRef x) = Some (child_or_empty (TNode arr (trees_of es)) k (is_array h w), cfp)
    /\ fresh_nodes (o :: cfp ++ nodes (others k es)) /\ (forall y, y ∈ cfp -> y ∈ nodes es \/ (length h <= y)%nat)).
Proof.
  intros Hg Eo Hl Hes [Hnd Hf] Hk. unfold clone_of, member. apply comes_get_bind, comes_get_bind.
  destruct (literal_cases ob arr Hl) as (_ & Hn & _). rewrite (entries_keys _ _ _ Hes) in Hn.
  assert (child_or_empty (TNode arr (trees_of es)) k (is_array h w) = empty_node (is_array h w) ->
    comes (new_object (if is_array h w then empty_array else empty_object)) h (fun x h1 => exists cfp, grown h1 /\ steps h [] h1 []
    /\ scan (S n) h1 (CRef x) = Some (child_or_empty (TNode arr (trees_of es)) k (is_array h w), cfp)
    /\ fresh_nodes (o :: cfp ++ nodes (others k es)) /\ (forall y, y ∈ cfp -> y ∈ nodes es \/ (length h <= y)%nat))) as Hnew.
  { intros ->. exists (length h), (h ++ [if is_array h w then empty_array else empty_object]). split; [done|]. exists [length h]. split_and!.
    - destruct Hg as [l ->]. eexists. by rewrite <-app_assoc.
    - split_and!; [rewrite length_app; lia|intros x Hx _; by rewrite lookup_app_l|auto].
    - by apply scan_empty.
    - assert (forall y, y ∈ nodes (others k es) -> (y < length h)%nat) as Hlt by (intros y Hy; eapply entries_nodes; [done|by eapply others_nodes]).
      pose proof (lookup_lt_Some _ _ _ Eo). apply NoDup_cons in Hnd as [Ho Hnd]. cbn [app]. split.
      + apply NoDup_cons. split; [rewrite elem_of_cons; intros [?|Hy%others_nodes]; [lia|done]|].
        apply NoDup_cons. split; [intros Hy%Hlt; lia|]. unfold nodes in *. clear -Hnd.
        induction es as [|e es IH]; [done|]. cbn in *. apply NoDup_app in Hnd as (H1 & H2 & H3). destruct (bool_decide _); cbn; [by apply IH|].
        apply NoDup_app. split_and!; [done| |by apply IH]. intros x Hx Hy. by apply (H2 x Hx), (others_nodes k es).
      + cbn [app]. intros x Hx. rewrite !elem_of_cons in Hx. destruct Hx as [->|[->|Hx]]; [apply Hf; by left|by apply grown_length|apply Hf; right; by eapply others_nodes].
    - intros y Hy. apply list_elem_of_singleton in Hy as ->. by right. }
  pose proof (literal_member h o ob arr k Hg Eo Hl Hk) as Hm. pose proof (entries_assoc _ _ _ k Hes) as Ha. cbn [child_or_empty] in *.
  unfold trees_of in *. rewrite (assoc_map fst es k) in *.
  destruct (assoc (o_props ob) k) as [v|], (assoc es k) as [[ct cfp]|] eqn:Ees; try done; cbn [fmap option_fmap option_map fst] in *.
  - destruct Hm as [-> _]. pose proof (scan_kind _ _ _ _ _ Hg Ha) as Hkind. destruct ct as [lv|a ces].
    + destruct Hkind as [Hp Hr]. destruct v; try (by apply Hnew). rewrite Hp, Hr. destruct (is_array h w); by apply Hnew.
    + destruct Hkind as ((x & ->) & Hp & Hr). rewrite Hp, Hr. destruct (Bool.eqb (is_array h w) a) eqn:Ea.
      * apply eqb_prop in Ea. rewrite Ea. destruct a; cbn [negb].
        all: apply comes_ret; exists cfp; split_and!; [done|by apply steps_refl|done| |].
        all: pose proof (assoc_split es k _ Hn Ees) as Hsp; assert (nodes es ≡ₚ cfp ++ nodes (others k es)) as Hnp by (unfold nodes; rewrite Hsp at 1; done).
        all: try (split; [by rewrite <-Hnp|intros y; rewrite <-Hnp; apply Hf]).
        all: intros y Hy; left; rewrite Hnp; apply elem_of_app; by left.
      * destruct (is_array h w), a; try done; by apply Hnew.
  - destruct Hm as [Hp Hr]. destruct (get_member h o k); try (by apply Hnew). rewrite Hp, Hr. destruct (is_array h w); by apply Hnew.
Qed.

Lemma child_node t k arr : exists es, child_or_empty t k arr = TNode arr es.
Proof.
  destruct t as [v|a es]; cbn; [by eexists|]. destruct (assoc es k) as [[v|a' es']|]; [by eexists| |by eexists].
  destruct (Bool.eqb arr a') eqn:E; [|by eexists]. apply eqb_prop in E as ->. by eexists.
Qed.

(** What has been reached from [h] when the object [o] has got the tree [t]. *)
Definition reached (n : nat) (o : nat) (h : heap) (fp : list nat) (t : tree) (h' : heap) : Prop :=
  exists fp', grown h' /\ scan n h' (CRef o) = Some (t, fp') /\ fresh_nodes fp' /\ steps h fp h' fp'.

(** Extending a fresh tree with an old one. *)
Definition extends (n : nat) (recurse : nat -> cval -> SM heap unit) : Prop :=
  forall h x arr es fp w arr' wes fpw, grown h -> scan n h (CRef x) = Some (TNode arr es, fp) -> fresh_nodes fp ->
    scan n h0 w = Some (TNode arr' wes, fpw) -> (arr = true -> arr' = true) ->
    comes (recurse x w) h (fun _ h' => reached n x h fp (merge_tree (TNode arr' wes) (TNode arr es)) h').

(** A value of another kind is assigned. *)
Lemma leaf_step n h o arr es0 fp k v : grown h -> scan (S (S n)) h (CRef o) = Some (TNode arr es0, fp) -> fresh_nodes fp ->
  (arr = true -> k <> length_name) -> leaf_ok v = true ->
  comes (put o k v) h (fun _ h' => reached (S (S n)) o h fp (put_child k (TLeaf v) (TNode arr es0)) h').
Proof.
  intros Hg Hs [Hnd Hf] Hk Hv. destruct (scan_inv _ _ _ _ _ Hs) as [(o' & ob & arr' & es & [= <-] & Eo & Hl & Hes & [= <- ->] & ->)|(? & _)]; [|done].
  destruct (literal_cases ob arr Hl) as (_ & Hn & _). rewrite (entries_keys _ _ _ Hes) in Hn.
  assert (fresh_nodes (o :: [] ++ nodes (others k es))) as Hfr.
  { apply NoDup_cons in Hnd as [Ho Hnd]. split.
    - apply NoDup_cons. split; [by intros Hy%others_nodes|]. cbn [app]. destruct (assoc es k) as [r|] eqn:Er.
      + assert (nodes es ≡ₚ r.2 ++ nodes (others k es)) as Hp by (unfold nodes; rewrite (assoc_split es k r Hn Er) at 1; done).
        rewrite Hp in Hnd. by apply NoDup_app in Hnd as (_ & _ & ?).
      + rewrite others_absent by (by apply assoc_None). done.
    - intros x [->|Hx]%elem_of_cons; apply Hf; [by left|right; by eapply others_nodes]. }
  destruct (put_step (S n) h o ob arr es k v (TLeaf v) []) as (h' & fp' & E & Hg' & Hlen & Hsame & Hs' & Hp); try done.
  - eapply Forall2_impl; [exact Hes|]. intros p e [? ?]. by split.
  - unfold scans. by apply scan_leaf.
  - exists tt, h'. split; [done|]. exists fp'. split_and!; [done|done| |].
    + destruct Hfr. split; [by rewrite Hp|]. intros x. rewrite Hp. auto.
    + split_and!; [lia| |].
      * intros x _ Hx. apply Hsame. intros ->. apply Hx. by left.
      * intros x. rewrite Hp. intros [->|Hx]%elem_of_cons; left; [by left|right; by eapply others_nodes].
Qed.

(** A plain object or an array is merged into a clone. *)
Lemma node_step n recurse h o arr es0 fp k w arr' wes fpw : extends (S n) recurse ->
  grown h -> scan (S (S n)) h (CRef o) = Some (TNode arr es0, fp) -> fresh_nodes fp -> (arr = true -> k <> length_name) ->
  scan (S n) h0 w = Some (TNode arr' wes, fpw) -> is_array h w = arr' ->
  comes (clone ← clone_of o k w; recurse clone w ;; put o k (CRef clone)) h
    (fun _ h' => reached (S (S n)) o h fp (put_child k (merge_tree (TNode arr' wes) (child_or_empty (TNode arr es0) k arr')) (TNode arr es0)) h').
Proof.
  intros Hrec Hg Hs Hfr Hk Hw Harr.
  destruct (scan_inv _ _ _ _ _ Hs) as [(o' & ob & arr1 & es & [= <-] & Eo & Hl & Hes & [= <- ->] & ->)|(? & _)]; [|done].
  eapply comes_bind; [by eapply clone_step|]. intros clone h1 (cfp & Hg1 & (L1 & S1 & _) & Hs1 & Hfr1 & Hc1). rewrite Harr in Hs1.
  destruct (child_node (TNode arr (trees_of es)) k arr') as [ces Ec]. rewrite Ec in *.
  assert (fresh_nodes cfp) as Hfc.
  { destruct Hfr1 as [Hnd Hf]. apply NoDup_cons in Hnd as [_ Hnd]. apply NoDup_app in Hnd as (? & _ & _). split; [done|].
    intros x Hx. apply Hf. right. apply elem_of_app. by left. }
  eapply comes_bind; [by eapply Hrec|]. intros [] h2 (cfp2 & Hg2 & Hs2 & Hfc2 & (L2 & S2 & F2)).
  pose proof (lookup_lt_Some _ _ _ Eo) as Hlt. destruct Hfr1 as [Hnd1 Hf1]. apply NoDup_cons in Hnd1 as [Ho1 Hnd1].
  rewrite elem_of_app in Ho1. apply NoDup_app in Hnd1 as (_ & Hdis & Hndo).
  assert (forall y, y ∈ nodes (others k es) -> (y < length h)%nat) as Hlt' by (intros y Hy; eapply entries_nodes; [done|by eapply others_nodes]).
  destruct (put_step (S n) h2 o ob arr es k (CRef clone) (merge_tree (TNode arr' wes) (TNode arr' ces)) cfp2) as (h3 & fp3 & E & Hg3 & Hlen & Hsame & Hs3 & Hp); try done.
  - rewrite S2, S1; [done|done|apply not_elem_of_nil|lia|]. tauto.
  - assert (forall y, y ∈ nodes (others k es) -> h2 !! y = h !! y) as Hsame.
    { intros y Hy. specialize (Hlt' y Hy). rewrite S2, S1; [done|lia|apply not_elem_of_nil|lia|]. intros Hyc. by apply (Hdis y). }
    clear -Hes Hsame Hg Hg2 Hstd. induction Hes as [|[k1 v] [k2 [t f']] ps es [Hk1 Hr] _ IH]; [constructor|]. cbn in Hk1. subst k2. constructor.
    + split; [done|]. cbn [fst snd]. intros Hne. apply (scan_agree (S n) h); try done. intros y Hy. apply Hsame. cbn. rewrite bool_decide_eq_false_2 by done.
      cbn. apply elem_of_app. by left.
    + apply IH. intros y Hy. apply Hsame. cbn. destruct (bool_decide _); cbn; [done|]. apply elem_of_app. by right.
  - destruct Hfc2 as [Hnd2 Hf2]. split.
    + apply NoDup_cons. split; [rewrite elem_of_app; intros [[?|?]%F2|?]; [tauto|lia|tauto]|]. apply NoDup_app. split_and!; [done| |done].
      intros y [Hy|Hy]%F2 Hy'; [by apply (Hdis y)|]. specialize (Hlt' y Hy'). lia.
    + intros x. rewrite elem_of_cons, elem_of_app. intros [->|[?|?]]; [apply Hf1; by left|by apply Hf2|apply Hf1; right; apply elem_of_app; by right].
  - exists tt, h3. split; [done|]. exists fp3. split_and!; [done|done| |].
    + split; [rewrite Hp|intros x; rewrite Hp, elem_of_cons, elem_of_app].
      * destruct Hfc2 as [Hnd2 Hf2]. apply NoDup_cons. split; [rewrite elem_of_app; intros [[?|?]%F2|?]; [tauto|lia|tauto]|]. apply NoDup_app. split_and!; [done| |done].
        intros y [Hy|Hy]%F2 Hy'; [by apply (Hdis y)|]. specialize (Hlt' y Hy'). lia.
      * intros [->|[?|?]]; [apply Hf1; by left|by apply Hfc2|apply Hf1; right; apply elem_of_app; by right].
    + split_and!; [lia| |].
      * intros x Hx Hn. rewrite Hsame by (intros ->; apply Hn; by left). rewrite S2, S1; [done|done|apply not_elem_of_nil|lia|].
        intros [Hy|Hy]%Hc1; [apply Hn; by right|lia].
      * intros x. rewrite Hp, elem_of_cons, elem_of_app. intros [->|[Hx|Hx]]; [left; by left| |left; right; by eapply others_nodes].
        apply F2 in Hx as [Hx|Hx]; [apply Hc1 in Hx as [Hx|Hx]; [left; by right|by right]|right; lia].
Qed.

(** ** The loops *)

Lemma merge_entry_node arr es e : exists es', merge_entry (TNode arr es) e = TNode arr es'.
Proof.
  unfold merge_entry. destruct (decide (e.1 = proto_name)); [by eexists|]. destruct (e.2) as [[]|]; cbn [put_child]; by eexists.
Qed.

Lemma reached_trans n o h fp t h' t' h'' :
  reached n o h fp t h' -> (forall fp', grown h' -> scan n h' (CRef o) = Some (t, fp') -> fresh_nodes fp' -> reached n o h' fp' t' h'') ->
  reached n o h fp t' h''.
Proof.
  intros (fp' & Hg & Hs & Hf & Hst) Hnext. destruct (Hnext fp' Hg Hs Hf) as (fp'' & Hg' & Hs' & Hf' & Hst').
  exists fp''. split_and!; [done..|]. by eapply steps_trans.
Qed.

Lemma fresh_old o fp h n t w : scan n h (CRef o) = Some (TNode t w, fp) -> fresh_nodes fp -> (length h0 <= o)%nat.
Proof.
  intros Hs [_ Hf]. destruct n as [|n]; [done|]. destruct (scan_inv _ _ _ _ _ Hs) as [(o' & ob & arr & es & [= <-] & _ & _ & _ & _ & ->)|(? & _)]; [|done].
  apply Hf. by left.
Qed.

(** One property of a source. *)
Lemma name_step n recurse h o arr es fp os obs arr' k w c fpw : extends n recurse ->
  grown h -> scan (S n) h (CRef o) = Some (TNode arr es, fp) -> fresh_nodes fp ->
  h0 !! os = Some obs -> literal obs = Some arr' -> (arr = true -> arr' = true) -> assoc (o_props obs) k = Some w -> scan n h0 w = Some (c, fpw) ->
  comes (extend_name recurse true o (CRef os) k) h (fun _ h' => reached (S n) o h fp (merge_entry (TNode arr es) (k, c)) h').
Proof.
  intros Hrec Hg Hs Hfr Eos Hlos Harr Ew Hw. pose proof (lookup_lt_Some _ _ _ Eos) as Hos.
  assert (h !! os = Some obs) as Eos' by (rewrite <-Eos; by apply grown_lookup).
  assert (arr' = true -> k <> length_name) as Hk'.
  { intros ->. destruct (literal_cases obs true Hlos) as (_ & _ & _ & _ & Hlen). intros ->. congruence. }
  pose proof (literal_member h os obs arr' k Hg Eos' Hlos Hk') as Hm. rewrite Ew in Hm. destruct Hm as [Egm Ehm].
  unfold extend_name. apply comes_get_bind. cbn [get_value visited]. rewrite Egm, Ehm. cbn [negb orb].
  unfold merge_entry. cbn [fst snd]. destruct (decide (k = proto_name)) as [Hp|Hp].
  { rewrite (bool_decide_eq_true_2 (k = proto_name)) by done. apply comes_ret. exists fp. split_and!; [done..|apply steps_refl]. }
  rewrite (bool_decide_eq_false_2 (k = proto_name)) by done. cbn [orb].
  assert (ref_ok w) as Hrw by (apply (own_ref_ok os obs k w Eos); by rewrite (literal_own obs arr' k Hlos Hk')).
  pose proof (fresh_old _ _ _ _ _ _ Hs Hfr) as Ho.
  rewrite (bool_decide_eq_false_2 (w = CRef o)) by (intros ->; cbn in Hrw; lia).
  rewrite (plain_grown h w Hg Hrw), (array_grown h w Hg Hrw). pose proof (scan_kind n h0 w c fpw grown_refl Hw) as Hkind.
  destruct n as [|n]; [done|]. destruct c as [v|a wes].
  - destruct Hkind as [-> ->]. cbn [andb orb].
    destruct (scan_inv _ _ _ _ _ Hw) as [(? & ? & ? & ? & _ & _ & _ & _ & ? & _)|([= ->] & _ & Hlf)]; [done|].
    destruct (decide (w = CUndef)) as [->|Hu].
    + rewrite bool_decide_eq_true_2 by done. apply comes_ret. exists fp. split_and!; [done..|apply steps_refl].
    + rewrite bool_decide_eq_false_2 by done. replace (match w with CUndef => TNode arr es | _ => _ end) with (put_child k (TLeaf w) (TNode arr es)) by (by destruct w).
      eapply leaf_step; auto.
  - destruct Hkind as (_ & -> & Ha). rewrite Ha. replace (true && (negb a || a)) with true by (by destruct a).
    eapply node_step; eauto. by rewrite (array_grown h w Hg Hrw).
Qed.

(** The properties of a source. *)
Lemma names_step n recurse o os obs arr' : extends n recurse -> h0 !! os = Some obs -> literal obs = Some arr' ->
  forall ps ses, entries (scans n h0) ps ses -> (forall k w, (k, w) ∈ ps -> assoc (o_props obs) k = Some w) ->
  forall h arr es fp, grown h -> scan (S n) h (CRef o) = Some (TNode arr es, fp) -> fresh_nodes fp -> (arr = true -> arr' = true) ->
  comes (sm_each (extend_name recurse true o (CRef os)) (keys ps)) h
    (fun _ h' => reached (S n) o h fp (fold_left merge_entry (trees_of ses) (TNode arr es)) h').
Proof.
  intros Hrec Eos Hlos ps ses Hes. induction Hes as [|[k w] [k' [c fpc]] ps ses [Hk Hw] _ IH]; intros Hps h arr es fp Hg Hs Hfr Harr.
  - apply comes_ret. exists fp. split_and!; [done..|apply steps_refl].
  - cbn in Hk. subst k'. cbn [keys List.map fst sm_each]. eapply comes_bind.
    { eapply name_step; try done. apply Hps. by left. }
    intros [] h1 H1. cbn [trees_of List.map fst snd fold_left]. destruct (merge_entry_node arr es (k, c)) as [es1 E1]. rewrite E1 in *.
    destruct H1 as (fp1 & Hg1 & Hs1 & Hf1 & Hst1). eapply comes_mono.
    { apply (IH ltac:(intros k1 w1 Hin; apply Hps; by right) h1 arr es1 fp1); done. }
    intros ? h2 (fp2 & Hg2 & Hs2 & Hf2 & Hst2). exists fp2. split_and!; [done..|]. by eapply steps_trans.
Qed.

(** Extending a fresh tree with an old one. *)
Lemma extend_one_extends n : extends n (extend_one n true).
Proof.
  induction n as [|n IH]; intros h x arr es fp w arr' wes fpw Hg Hs Hfr Hw Harr; [done|].
  destruct (scan_inv _ _ _ _ _ Hw) as [(os & obs & a & ses & -> & Eos & Hlos & Hses & [= -> ->] & ->)|(? & _)]; [|done].
  cbn [extend_one]. apply comes_get_bind. rewrite (literal_names h os obs a Hg) by (done || (rewrite <-Eos; apply grown_lookup; [done|by eapply lookup_lt_Some])).
  rewrite merge_tree_node. apply (names_step n _ x os obs a); try done.
  intros k w Hin. apply assoc_elem; [|done]. by apply literal_cases in Hlos as (_ & ? & _).
Qed.

End standard.
End trees.
