(* ===== verification/ExtendProps.v ===== *)
(** * The properties of [extend] *)

From S2P Require Import Prelude JsNum Core ExtendFacts.

(** ** Merging, by lookups *)

Definition entries_at (t : tree) (k : jstr) : option tree := match t with TNode _ es => assoc es k | TLeaf _ => None end.

(** Merging takes over what the source has, deeply for plain objects and arrays, and
    keeps the rest. *)
Lemma merge_lookup arr es b t k : NoDup (keys es) -> k <> proto_name ->
  entries_at (merge_tree (TNode arr es) (TNode b t)) k
  = match assoc es k with
    | None | Some (TLeaf CUndef) => assoc t k
    | Some (TNode a c) => Some (merge_tree (TNode a c) (child_or_empty (TNode b t) k a))
    | Some (TLeaf v) => Some (TLeaf v)
    end.
Proof.
  rewrite merge_tree_node. intros Hn Hk. revert b t. induction es as [|[k' c] es IH]; intros b t; [done|].
  apply NoDup_cons in Hn as [Hk' Hn]. cbn [fold_left]. destruct (merge_entry_node b t (k', c)) as [t' E]. rewrite E, (IH Hn).
  assert (forall k1, assoc t' k1 = if decide (k' = k1 /\ k1 <> proto_name)
      then match c with TLeaf CUndef => assoc t k1 | TNode a ces => Some (merge_tree c (child_or_empty (TNode b t) k' a)) | _ => Some c end
      else assoc t k1) as Ht.
  { intros k1. unfold merge_entry in E. cbn [fst snd] in E. destruct (decide (k' = proto_name)) as [->|Hp].
    - injection E as ->. rewrite decide_False; [done|]. by intros [-> ?].
    - destruct c as [v|a ces]; [destruct v; (cbn [put_child] in E; injection E as <-; rewrite ?assoc_put_key)|cbn [put_child] in E; injection E as <-; rewrite assoc_put_key];
        repeat case_decide; subst; tauto. }
  cbn [assoc]. destruct (decide (k' = k)) as [->|Hne].
  - rewrite (proj2 (assoc_None es k)) by done. rewrite Ht, decide_True by done. by destruct c as [[]|].
  - assert (forall a, child_or_empty (TNode b t') k a = child_or_empty (TNode b t) k a) as Hc.
    { intros a. cbn [child_or_empty]. rewrite Ht, decide_False; [done|]. by intros [-> _]. }
    rewrite Ht, decide_False by (by intros [-> _]). destruct (assoc es k) as [[v|a ces]|]; [done|by rewrite Hc|done].
Qed.

(** ** Deep copies *)

(** A source: a plain object or an array, or [undefined] or [null]. *)
Definition source_ok (v : cval) (t : tree) : Prop := match t with TNode _ _ => True | TLeaf _ => c_nullish v = true end.

(** C12: [extend( true, {}, ...  )] never changes an object that is there.  On a page whose
    prototypes are the language's own ([standard]) and whose objects refer to each other in
    any way, merging sources deeply into a new object ends, leaves every object as it was,
    and makes a tree of new objects, none of them used twice, that is the merging of the
    trees of the sources in their order; values that are no plain objects or arrays are
    taken over, and names [__proto__] are left out.  The sources, of which there is at least
    one, are plain objects, arrays, [undefined] or [null], and each of them is a finite tree
    when plain objects and arrays are followed: from a source that is reached from itself
    through them [extend] does not return ([extend_cyclic_endless]). *)
Theorem extend_deep_copy h f hid0 hid1 n this srcs ts :
  standard h f hid0 hid1 -> srcs <> [] -> (0 < n)%nat ->
  Forall2 (fun v t => tree_of h n v = Some t /\ source_ok v t) srcs ts ->
  exists h' fp, extend n this (CBool true :: CRef (length h) :: srcs) (h ++ [empty_object]) = (Ok (length h), h')
    /\ h `prefix_of` h'
    /\ scan h n h' (CRef (length h)) = Some (fold_left (fun acc t => merge_tree t acc) ts (TNode false []), fp)
    /\ NoDup fp /\ Forall (fun o => (length h <= o)%nat) fp.
Proof.
  intros Hstd Hne Hn Hts. destruct n as [|n]; [lia|]. set (h1 := h ++ [empty_object]).
  assert (grown h h1) as Hg1 by (by eexists).
  assert (comes (sm_each (extend_one (S n) true (length h)) srcs) h1
    (fun _ h' => reached h (S n) (length h) h1 [length h] (fold_left (fun acc t => merge_tree t acc) ts (TNode false [])) h')) as (u & h' & E & fp & Hg' & Hs' & [Hnd Hf] & _).
  { assert (fresh_nodes h [length h]) as Hfr by (split; [apply NoDup_singleton|intros x ->%list_elem_of_singleton; done]).
    pose proof (scan_empty h n h false (grown_refl h)) as Hs. change (scan h (S n) h1 (CRef (length h)) = Some (TNode false [], [length h])) in Hs.
    revert Hs Hfr Hg1. clear Hne. generalize h1, [length h], (@nil (jstr * tree)). clear h1.
    induction Hts as [|v t srcs ts [Ht Hok] _ IH]; intros h1 fp es Hs Hfr Hg1; cbn [sm_each fold_left].
    - apply comes_ret. exists fp. split_and!; [done..|apply steps_refl].
    - unfold tree_of in Ht. destruct (scan h (S n) h v) as [[t' fpv]|] eqn:Ev; [injection Ht as ->|done]. destruct t as [w|a ves].
      + assert (extend_one (S n) true (length h) v h1 = (Ok tt, h1)) as E by (by destruct v).
        eapply comes_bind with (R := fun _ h2 => h2 = h1); [by eexists _, _|]. intros ? h2 ->. cbn [merge_tree]. by apply IH.
      + eapply comes_bind; [eapply (extend_one_extends h f hid0 hid1 Hstd (S n)); done|].
        intros ? h2 (fp2 & Hg2 & Hs2 & Hf2 & Hst2). pose proof Hs2 as Hs2'. rewrite merge_tree_node in Hs2' |- *.
        assert (exists es2, fold_left merge_entry ves (TNode false es) = TNode false es2) as [es2 E2].
        { clear. revert es. induction ves as [|e ves IH]; intros es; [by eexists|]. cbn. destruct (merge_entry_node false es e) as [es' ->]. apply IH. }
        rewrite E2 in *. eapply comes_mono; [by apply (IH h2 fp2 es2)|]. intros ? h3 (fp3 & Hg3 & Hs3 & Hf3 & Hst3).
        exists fp3. split_and!; [done..|]. by eapply steps_trans. }
  exists h', fp. split_and!; try done; [|by apply Forall_forall].
  assert (as_target (CRef (length h)) h1 = (Ok (length h), h1)) as Et.
  { unfold as_target. rewrite sm_get_bind. unfold callable. cbn [object_at]. unfold h1. by rewrite list_lookup_middle. }
  unfold extend. destruct srcs as [|s srcs]; [done|]. rewrite (sm_bind_eq _ _ _ _ _ Et). by rewrite (sm_bind_eq _ _ _ _ _ E).
Qed.

(** ** An example *)

(** Defaults with a nested object and an array, and options that override parts of
    them. *)
Definition page : heap :=
  [Object KObject None [] [(str "constructor", CRef 2)]; Object (KArray 0) (Some object_prototype) [] [];
   Object (KFun ObjectFunctionString) None [] [];
   Object KObject (Some object_prototype) [(str "a", CNum (Fin 1)); (str "o", CRef 4)] [];
   Object KObject (Some object_prototype) [(str "x", CNum (Fin 1)); (str "l", CRef 5)] [];
   array_of [CNum (Fin 1); CNum (Fin 2)];
   Object KObject (Some object_prototype) [(str "o", CRef 7); (str "__proto__", CRef 3); (str "b", CUndef)] [];
   Object KObject (Some object_prototype) [(str "x", CNum (Fin 2)); (str "l", CRef 8); (str "f", CRef 2)] [];
   array_of [CNum (Fin 9)]].

Lemma page_standard : standard page 2 [(str "constructor", CRef 2)] [].
Proof.
  constructor; [reflexivity|reflexivity|reflexivity|by eexists| |].
  - intros k v [E|E]; [|done]. cbn [assoc] in E. case_decide; [|done]. injection E as <-. by split.
  - intros o ob E. do 9 (destruct o as [|o]; [injection E as <-; split; [intros p [= <-]; vm_compute; lia|repeat (apply Forall_cons; split; [vm_compute; (exact I || lia)|]); apply Forall_nil; exact I]|]). done.
Qed.

Lemma extend_deep_copy_witness :
  exists h' fp, extend 5 0 [CBool true; CRef (length page); CRef 3; CRef 6] (page ++ [empty_object]) = (Ok (length page), h')
    /\ scan page 5 h' (CRef (length page)) = Some (TNode false
         [(str "a", TLeaf (CNum (Fin 1)));
          (str "o", TNode false [(str "x", TLeaf (CNum (Fin 2)));
                                 (str "l", TNode true [(str "0", TLeaf (CNum (Fin 9))); (str "1", TLeaf (CNum (Fin 2)))]);
                                 (str "f", TLeaf (CRef 2))])], fp).
Proof.
  destruct (extend_deep_copy page 2 [(str "constructor", CRef 2)] [] 5 0 [CRef 3; CRef 6]
    [TNode false [(str "a", TLeaf (CNum (Fin 1)));
                  (str "o", TNode false [(str "x", TLeaf (CNum (Fin 1))); (str "l", TNode true [(str "0", TLeaf (CNum (Fin 1))); (str "1", TLeaf (CNum (Fin 2)))])])];
     TNode false [(str "o", TNode false [(str "x", TLeaf (CNum (Fin 2))); (str "l", TNode true [(str "0", TLeaf (CNum (Fin 9)))]); (str "f", TLeaf (CRef 2))]);
                  (str "__proto__", TNode false [(str "a", TLeaf (CNum (Fin 1)));
                    (str "o", TNode false [(str "x", TLeaf (CNum (Fin 1))); (str "l", TNode true [(str "0", TLeaf (CNum (Fin 1))); (str "1", TLeaf (CNum (Fin 2)))])])]);
                  (str "b", TLeaf CUndef)]])
    as (h' & fp & E & _ & Hs & _); [exact page_standard|discriminate|lia| |].
  - apply Forall2_cons. split; [split; [vm_compute; reflexivity|exact I]|].
    apply Forall2_cons. split; [split; [vm_compute; reflexivity|exact I]|]. apply Forall2_nil. exact I.
  - exists h', fp. split; [exact E|]. rewrite Hs. vm_compute. reflexivity.
Defined.

(** ** Cycles *)

(** An object that refers to itself. *)
Definition cyclic : heap := take 3 page ++ [Object KObject (Some object_prototype) [(str "self", CRef 3)] []].

Lemma cyclic_standard : standard cyclic 2 [(str "constructor", CRef 2)] [].
Proof.
  constructor; [reflexivity|reflexivity|reflexivity|by eexists| |].
  - intros k v [E|E]; [|done]. cbn [assoc] in E. case_decide; [|done]. injection E as <-. by split.
  - intros o ob E. do 4 (destruct o as [|o]; [injection E as <-; split; [intros p [= <-]; vm_compute; lia|repeat (apply Forall_cons; split; [vm_compute; (exact I || lia)|]); apply Forall_nil; exact I]|]). done.
Qed.

(** A deep copy of an object that refers to itself never ends: the check for
    [target === copy] only finds the target itself. *)
Theorem extend_cyclic_endless n this : (extend n this [CBool true; CRef 4; CRef 3] (cyclic ++ [empty_object])).1 = NoFuel.
Proof.
  assert (forall n h x, grown cyclic h -> h !! x = Some empty_object -> (4 <= x)%nat -> (extend_one n true x (CRef 3) h).1 = NoFuel) as Hloop.
  { clear n this. intros n. induction n as [|n IH]; intros h x Hg Hx Hlt; [done|]. cbn [extend_one]. rewrite sm_get_bind.
    rewrite (literal_names cyclic 2 _ _ cyclic_standard h 3 (Object KObject (Some object_prototype) [(str "self", CRef 3)] []) false Hg)
      by (vm_compute; reflexivity || (by apply (grown_lookup cyclic h 3 Hg ltac:(vm_compute; lia)))).
    cbn [o_props keys List.map fst sm_each].
    enough ((extend_name (extend_one n true) true x (CRef 3) (str "self") h).1 = NoFuel) as E by (by rewrite (sm_bind_eq _ _ _ _ _ (sm_run_eq _ _ _ E))).
    pose proof (literal_member cyclic 2 _ _ cyclic_standard h 3 _ false (str "self") Hg (grown_lookup cyclic h 3 Hg ltac:(vm_compute; lia)) eq_refl ltac:(done)) as [Em Ehm].
    unfold extend_name. rewrite sm_get_bind. cbn [get_value visited]. rewrite Em, Ehm.
    rewrite (plain_grown cyclic 2 _ _ cyclic_standard h (CRef 3) Hg), (array_grown cyclic h (CRef 3) Hg) by (vm_compute; lia).
    rewrite (bool_decide_eq_false_2 (str "self" = _)), (bool_decide_eq_false_2 (CRef 3 = CRef x)) by (discriminate || (intros E; injection E as E; lia)).
    change (isPlainObject cyclic (CRef 3) || is_array cyclic (CRef 3)) with true. cbn [negb orb andb].
    assert (clone_of x (str "self") (CRef 3) h = (Ok (length h), h ++ [empty_object])) as Ec.
    { unfold clone_of, member. rewrite !sm_get_bind.
      pose proof (literal_member cyclic 2 _ _ cyclic_standard h x empty_object false (str "self") Hg Hx eq_refl ltac:(done)) as [Hp Ha].
      rewrite (array_grown cyclic h (CRef 3) Hg) by (vm_compute; lia). change (is_array cyclic (CRef 3)) with false.
      destruct (get_member h x (str "self")); try done. by rewrite Hp. }
    rewrite (sm_bind_eq _ _ _ _ _ Ec).
    assert ((extend_one n true (length h) (CRef 3) (h ++ [empty_object])).1 = NoFuel) as E.
    { apply IH; [destruct Hg as [l ->]; eexists; by rewrite <-app_assoc|by rewrite list_lookup_middle|]. pose proof (grown_length cyclic h Hg). done. }
    by rewrite (sm_bind_eq _ _ _ _ _ (sm_run_eq _ _ _ E)). }
  destruct n as [|n]; [done|]. unfold extend.
  assert (as_target (CRef 4) (cyclic ++ [empty_object]) = (Ok 4%nat, cyclic ++ [empty_object])) as Et by (vm_compute; reflexivity).
  rewrite (sm_bind_eq _ _ _ _ _ Et). cbn [sm_each].
  assert ((extend_one (S n) true 4 (CRef 3) (cyclic ++ [empty_object])).1 = NoFuel) as E by (apply Hloop; [by eexists|done|lia]).
  unfold mbind at 1, sm_bind at 1. unfold mbind at 1, sm_bind at 1. by rewrite (sm_run_eq _ _ _ E).
Qed.
