(* ===== verification/ElemData.v ===== *)
(** * Data of elements: jQuery.data

    [Data] keeps an object of named values for every owner, an element or any
    other object, under a property of the owner.  The caches are objects that
    callers share, so they are in a heap.  [dataPriv] and [dataUser] are two of
    these stores; [$.fn.data] reads the attributes of the document as well. *)

From S2P Require Import Prelude JsNum JsVal Callbacks.

(** ** Keys *)

(** [string.replace(rmsPrefix, "ms-")]. *)
Definition ms_prefix (s : jstr) : jstr :=
  if decide (take 4 s = str "-ms-") then drop 1 s else s.

Definition is_lower (c : N) : bool := ((97 <=? c) && (c <=? 122))%N.
Definition is_upper (c : N) : bool := ((65 <=? c) && (c <=? 90))%N.

(** [replace(rdashAlpha, fcamelCase)]. *)
Fixpoint camel_dashes (s : jstr) : jstr :=
  match s with
  | c :: (d :: s') as rest =>
      if (c =? chr "-")%N && is_lower d then (d - 32)%N :: camel_dashes s' else c :: camel_dashes rest
  | _ => s
  end.

Definition camelCase (s : jstr) : jstr := camel_dashes (ms_prefix s).

(** ** Stores *)

(** What the stores need of the values: [undefined], truth, and the members that
    every object inherits. *)
Class DataVal (D : Type) := {
  d_undef : D;
  d_is_undef : D -> bool;
  d_host : jstr -> D
}.

(** Owners are numbered; [nodeType] is [NaN] where there is none. *)
Class Owners := { nodeType : nat -> num }.

Definition acceptData `{Owners} (owner : nat) : bool :=
  Num.eqb (nodeType owner) (Fin 1) || Num.eqb (nodeType owner) (Fin 9) || negb (Num.truthy (nodeType owner)).

(** The property [expando] of every owner, and the cache objects. *)
Record dstore (D : Type) := DStore {
  expandos : gmap nat nat;
  caches : gmap nat (gmap jstr D);
  next_cache : nat
}.
Arguments DStore {D}. Arguments expandos {D}. Arguments caches {D}. Arguments next_cache {D}.

Definition Data_new {D} : dstore D := DStore ∅ ∅ 0.

(** A key as a caller gives it. *)
Inductive dkey (D : Type) := KUndef | KStr (s : jstr) | KProps (l : list (jstr * D)).
Arguments KUndef {D}. Arguments KStr {D}. Arguments KProps {D}.

(** What [access] answers: a cache, a value, or the key that was given. *)
Inductive dres (D : Type) := RCache (c : nat) | RValue (v : D) | RKey (k : dkey D).
Arguments RCache {D}. Arguments RValue {D}. Arguments RKey {D}.

(** The key of [remove]. *)
Inductive rkey := RemAll | RemStr (s : jstr) | RemArr (l : list jstr).

Section store.
Context {D : Type} `{DataVal D} `{Owners}.

Definition cache_of (st : dstore D) (c : nat) : gmap jstr D := default ∅ (caches st !! c).

(** [o[name]] of a cache. *)
Definition read_member (m : gmap jstr D) (name : jstr) : D :=
  match m !! name with
  | Some v => v
  | None => match object_member name with Some _ => d_host name | None => d_undef end
  end.

(** [o[name] = v].  Assigning to [__proto__] makes no property. *)
Definition write_member (m : gmap jstr D) (name : jstr) (v : D) : gmap jstr D :=
  if decide (name = str "__proto__") then m else <[name := v]> m.

Definition upd_cache (c : nat) (f : gmap jstr D -> gmap jstr D) : SM (dstore D) unit :=
  sm_mod (fun st => DStore (expandos st) (<[c := f (cache_of st c)]> (caches st)) (next_cache st)).

Definition cache (owner : nat) : SM (dstore D) nat :=
  st ← sm_get (fun st => st);
  match expandos st !! owner with
  | Some value => mret value
  | None =>
      let value := next_cache st in
      sm_mod (fun _ => DStore (if acceptData owner then <[owner := value]> (expandos st) else expandos st)
                         (<[value := ∅]> (caches st)) (S value)) ;;
      mret value
  end.

Definition write_all (l : list (jstr * D)) (m : gmap jstr D) : gmap jstr D :=
  fold_left (fun m p => write_member m (camelCase p.1) p.2) l m.

Definition set (owner : nat) (key : dkey D) (value : D) : SM (dstore D) nat :=
  c ← cache owner;
  upd_cache c (fun m => match key with
                        | KStr s => write_member m (camelCase s) value
                        | KProps l => write_all l m
                        | KUndef => m
                        end) ;;
  mret c.

(** [get(owner, key)] with a key. *)
Definition get (owner : nat) (key : jstr) : SM (dstore D) D :=
  st ← sm_get (fun st => st);
  mret match expandos st !! owner with
       | Some c => read_member (cache_of st c) (camelCase key)
       | None => d_undef
       end.

Definition access (owner : nat) (key : dkey D) (value : D) : SM (dstore D) (dres D) :=
  let write := set owner key value ;; mret (if d_is_undef value then RKey key else RValue value) in
  match key with
  | KUndef => c ← cache owner; mret (RCache c)
  | KStr s => if bool_decide (s <> []) && d_is_undef value then v ← get owner s; mret (RValue v) else write
  | KProps _ => write
  end.

(** [key in cache]. *)
Definition has_member (m : gmap jstr D) (name : jstr) : bool :=
  bool_decide (is_Some (m !! name)) || bool_decide (is_Some (object_member name)).

Definition removed_names (m : gmap jstr D) (key : rkey) : list jstr :=
  match key with
  | RemAll => []
  | RemArr l => List.map camelCase l
  | RemStr s => let s := camelCase s in if has_member m s then [s] else words s
  end.

Definition remove (owner : nat) (key : rkey) : SM (dstore D) unit :=
  st ← sm_get (fun st => st);
  match expandos st !! owner with
  | None => mret tt
  | Some c =>
      upd_cache c (fun m => foldr delete m (removed_names m key)) ;;
      m ← sm_get (fun st => cache_of st c);
      sm_when (match key with RemAll => true | _ => bool_decide (m = ∅) end)
        (sm_mod (fun st => DStore (delete owner (expandos st)) (caches st) (next_cache st)))
  end.

Definition hasData (owner : nat) : SM (dstore D) bool :=
  sm_get (fun st => match expandos st !! owner with Some c => negb (bool_decide (cache_of st c = ∅)) | None => false end).

End store.

(** ** The data of the page *)

(** The host: attributes of elements in order, [+text], and [JSON.parse]. *)
Class DataHost := {
  host_owners :: Owners;
  attributes : nat -> list (jstr * jstr);
  host_lower : N -> jstr;
  to_number : jstr -> num;
  json_parse : jstr -> res jsval
}.

#[export] Instance jsval_data : DataVal jsval := {|
  d_undef := VUndef;
  d_is_undef v := match v with VUndef => true | _ => false end;
  d_host name := inherited [] name
|}.

(** The stores of the page; of [dataPriv] the entries that [data] makes. *)
Record dstores := DStores { dataUser : dstore jsval; dataPriv : dstore jsval }.

Definition on_user {A} (m : SM (dstore jsval) A) : SM dstores A := fun s =>
  let '(r, u) := m (dataUser s) in (r, DStores u (dataPriv s)).
Definition on_priv {A} (m : SM (dstore jsval) A) : SM dstores A := fun s =>
  let '(r, p) := m (dataPriv s) in (r, DStores (dataUser s) p).

(** [rbrace]. *)
Definition enclosed (a b : N) (s : jstr) : bool :=
  bool_decide (2 <= length s)%nat && bool_decide (head s = Some a) && bool_decide (last s = Some b).
Definition rbrace (s : jstr) : bool := enclosed (chr "{") (chr "}") s || enclosed (chr "[") (chr "]") s.

(** [key.replace(rmultiDash, "-$&")]. *)
Definition dash_upper (s : jstr) : jstr := flat_map (fun c => if is_upper c then [chr "-"; c] else [c]) s.

Section page.
Context `{DataHost}.

Definition getData (data : jstr) : res jsval :=
  if decide (data = str "true") then Ok (VBool true)
  else if decide (data = str "false") then Ok (VBool false)
  else if decide (data = str "null") then Ok VNull
  else if decide (data = num_to_str (to_number data)) then Ok (VNum (to_number data))
  else if rbrace data then json_parse data
  else Ok (VStr data).

Definition attr_name (key : jstr) : jstr := str "data-" ++ toLowerCase host_lower (dash_upper key).

Definition getAttribute (elem : nat) (name : jstr) : option jstr :=
  snd <$> List.find (fun p => bool_decide (p.1 = name)) (attributes elem).

Definition dataAttr (elem : nat) (key : jstr) (data : jsval) : SM dstores jsval :=
  match data with
  | VUndef =>
      if Num.eqb (nodeType elem) (Fin 1) then
        match getAttribute elem (attr_name key) with
        | Some s =>
            let v := match getData s with Ok v => v | _ => VStr s end in
            on_user (set elem (KStr key) v) ;; mret v
        | None => mret VUndef
        end
      else mret VUndef
  | _ => mret data
  end.

(** [jQuery.hasData], [jQuery.data] and [jQuery.removeData]. *)
Definition jq_hasData (elem : nat) : SM dstores bool :=
  u ← on_user (hasData (D := jsval) elem); if (u : bool) then mret true else on_priv (hasData (D := jsval) elem).
Definition jq_data (elem : nat) (name : dkey jsval) (data : jsval) : SM dstores (dres jsval) :=
  on_user (access elem name data).
Definition jq_removeData (elem : nat) (name : rkey) : SM dstores unit := on_user (remove (D := jsval) elem name).

(** [jQuery._data] and [jQuery._removeData]. *)
Definition _data (elem : nat) (name : dkey jsval) (data : jsval) : SM dstores (dres jsval) :=
  on_priv (access elem name data).
Definition _removeData (elem : nat) (name : rkey) : SM dstores unit := on_priv (remove (D := jsval) elem name).

(** What [$.fn.data] answers: the set itself, a cache, or a value. *)
Inductive fres := FSelf | FCache (c : option nat) | FValue (v : jsval).

(** Part of [fn.data] without a key: the [data-*] attributes, the last first. *)
Definition read_attr (elem c : nat) (a : jstr * jstr) : SM dstores unit :=
  if decide (take 5 a.1 = str "data-") then
    let name := camelCase (drop 5 a.1) in
    v ← sm_get (fun s => read_member (cache_of (dataUser s) c) name);
    dataAttr elem name v ;; mret tt
  else mret tt.

Definition fn_data_all (elems : list nat) : SM dstores fres :=
  match elems with
  | [] => mret (FCache None)
  | elem :: _ =>
      c ← on_user (cache elem);
      (if Num.eqb (nodeType elem) (Fin 1) then
         flag ← on_priv (get elem (str "hasDataAttrs"));
         if truthy flag then mret tt
         else sm_each (read_attr elem c) (rev (attributes elem)) ;;
              on_priv (set elem (KStr (str "hasDataAttrs")) (VBool true)) ;; mret tt
       else mret tt) ;;
      mret (FCache (Some c))
  end.

(** [fn.data(key)]: the data, or what the attribute says. *)
Definition fn_data_read (elems : list nat) (key : jstr) : SM dstores fres :=
  match elems with
  | [] => mret (FValue VUndef)
  | elem :: _ =>
      v ← on_user (get elem key);
      match v with
      | VUndef => v ← dataAttr elem key VUndef; mret (FValue v)
      | _ => mret (FValue v)
      end
  end.

(** [fn.data] by its arguments, [None] where there is no second one; a value
    that is [undefined] is not set, and the set is answered. *)
Definition fn_data (elems : list nat) (key : dkey jsval) (value : option jsval) : SM dstores fres :=
  match key with
  | KUndef => fn_data_all elems
  | KProps l => sm_each (fun e => on_user (set e key VUndef) ;; mret tt) elems ;; mret FSelf
  | KStr s =>
      match value with
      | None => fn_data_read elems s
      | Some VUndef => mret FSelf
      | Some v => sm_each (fun e => on_user (set e key v) ;; mret tt) elems ;; mret FSelf
      end
  end.

Definition fn_removeData (elems : list nat) (key : rkey) : SM dstores fres :=
  sm_each (fun e => jq_removeData e key) elems ;; mret FSelf.

End page.
