(* ===== verification/ElemDataFacts.v ===== *)
(** * What the stores of data promise

    Keys are normalised by [camelCase]; a value that is set under a key is read
    under every key of the same normal form and under no other, and for no other
    owner; attributes of the document are found under the key of their name. *)

From S2P Require Import Prelude JsNum JsVal Callbacks ElemData.

(** ** Keys *)

(** Induction over a string, two characters at a time. *)
Lemma pair_ind (P : jstr -> Prop) : P [] -> (forall c, P [c]) ->
  (forall c d s, P (d :: s) -> P s -> P (c :: d :: s)) -> forall s, P s.
Proof.
  intros H0 H1 H2 s. cut (P s /\ forall c, P (c :: s)); [by intros [? _]|].
  induction s as [|d s [IH IHc]]; [done|]. split; [done|]. intros c. apply H2; auto.
Qed.

Definition dashed (s : jstr) : Prop :=
  exists l d r, s = l ++ chr "-" :: d :: r /\ is_lower d = true.

Lemma dashed_cons c s : dashed (c :: s) <-> dashed s \/ (c = chr "-" /\ exists d r, s = d :: r /\ is_lower d = true).
Proof.
  split.
  - intros (l & d & r & E & Hd). destruct l as [|x l]; injection E as -> ->; [right; eauto|left; by exists l, d, r].
  - intros [(l & d & r & -> & Hd)|(-> & d & r & -> & Hd)]; [by exists (c :: l), d, r|by exists [], d, r].
Qed.

Lemma camel_dashes_cons c d s : camel_dashes (c :: d :: s)
  = if (c =? chr "-")%N && is_lower d then (d - 32)%N :: camel_dashes s else c :: camel_dashes (d :: s).
Proof. done. Qed.

Lemma camel_dashes_fixed s : ~ dashed s -> camel_dashes s = s.
Proof.
  induction s as [|c|c d s IH _] using pair_ind; intros Hn; [done..|].
  rewrite dashed_cons in Hn. rewrite ?camel_dashes_cons. destruct (N.eqb_spec c (chr "-")) as [->|Hc]; cbn [andb].
  - destruct (is_lower d) eqn:Ed; [destruct Hn; right; eauto|]. f_equal. apply IH. tauto.
  - f_equal. apply IH. tauto.
Qed.

Lemma camel_head s : head (camel_dashes s) = head s \/ exists d, head s = Some (chr "-") /\ head (camel_dashes s) = Some (d - 32)%N /\ is_lower d = true.
Proof.
  destruct s as [|c [|d s]]; [by left..|]. rewrite ?camel_dashes_cons. destruct (N.eqb_spec c (chr "-")) as [->|]; cbn [andb]; [|by left].
  destruct (is_lower d) eqn:Ed; [right; by exists d|by left].
Qed.

Lemma camel_dashes_undashed s : ~ dashed (camel_dashes s).
Proof.
  assert (forall d, is_lower d = true -> (d - 32)%N <> chr "-" /\ is_lower (d - 32)%N = false) as Hup.
  { intros d Hd. unfold is_lower in *. change (chr "-") with 45%N. rewrite andb_true_iff, !N.leb_le in Hd. split; [lia|].
    apply andb_false_iff. left. apply N.leb_gt. lia. }
  induction s as [|c|c d s IH1 IH2] using pair_ind; try by intros ([|? [|? ?]] & ? & ? & ? & ?).
  rewrite ?camel_dashes_cons. destruct (N.eqb_spec c (chr "-")) as [->|Hc]; cbn [andb]; [destruct (is_lower d) eqn:Ed|]; rewrite dashed_cons.
  - intros [?|(? & _)]; [done|]. by destruct (Hup d Ed).
  - intros [?|(_ & x & r & Ex & Hx)]; [done|].
    destruct (camel_head (d :: s)) as [Eh|(y & _ & Eh & Hy)]; rewrite Ex in Eh; injection Eh as ->; [congruence|].
    destruct (Hup y Hy). congruence.
  - intros [?|(? & _)]; done.
Qed.

Lemma ms_prefix_fixed s : ~ dashed s -> ms_prefix s = s.
Proof.
  intros Hn. unfold ms_prefix. case_decide as E; [|done]. destruct Hn.
  exists [], (chr "m"), (drop 2 s). split; [|done]. rewrite <-(take_drop 2 s) at 1.
  replace (take 2 s) with (take 2 (take 4 s)) by (by rewrite take_take). by rewrite E.
Qed.

(** Normal forms are fixed. *)
Lemma camelCase_idem s : camelCase (camelCase s) = camelCase s.
Proof.
  unfold camelCase at 1. rewrite ms_prefix_fixed by apply camel_dashes_undashed.
  apply camel_dashes_fixed, camel_dashes_undashed.
Qed.

(** ** Reading and writing *)

(** Projections of a store, without unfolding its maps. *)
Ltac red_store := cbn [expandos caches next_cache fst snd].

Section facts.
Context {D : Type} `{DataVal D} `{Owners}.

(** Each owner has a cache of its own. *)
Definition store_ok (st : dstore D) : Prop :=
  (forall o c, expandos st !! o = Some c -> (c < next_cache st)%nat)
  /\ (forall o o' c, expandos st !! o = Some c -> expandos st !! o' = Some c -> o = o').

Definition look (st : dstore D) (o : nat) (key : jstr) : D :=
  match expandos st !! o with
  | Some c => read_member (cache_of st c) (camelCase key)
  | None => d_undef
  end.

Lemma get_look o key st : get o key st = (Ok (look st o key), st).
Proof. done. Qed.

Lemma store_ok_new : store_ok Data_new.
Proof. by split. Qed.

Lemma read_write m k k' v : k <> str "__proto__" ->
  read_member (write_member m k v) k' = if decide (k' = k) then v else read_member m k'.
Proof.
  intros Hk. unfold write_member, read_member. rewrite decide_False by done.
  case_decide as E; [subst; by rewrite lookup_insert_eq|by rewrite lookup_insert_ne].
Qed.

(** The state after a cache was asked for. *)
Definition with_cache (o : nat) (st : dstore D) : dstore D := (cache o st).2.

Lemma cache_spec o st : store_ok st -> acceptData o = true ->
  exists c, cache o st = (Ok c, with_cache o st) /\ store_ok (with_cache o st)
    /\ expandos (with_cache o st) !! o = Some c
    /\ (forall o' k, object_member (camelCase k) = None -> look (with_cache o st) o' k = look st o' k)
    /\ (forall o', o' <> o -> expandos (with_cache o st) !! o' = expandos st !! o')
    /\ (forall o' k, o' <> o -> look (with_cache o st) o' k = look st o' k).
Proof.
  intros [Hlt Hinj] Ha. unfold with_cache, cache. rewrite sm_get_bind.
  destruct (expandos st !! o) as [c|] eqn:E; [by exists c|]. rewrite Ha, sm_mod_bind. exists (next_cache st).
  unfold mret, sm_ret. red_store.
  assert (forall o' c, expandos st !! o' = Some c -> cache_of (DStore (<[o:=next_cache st]> (expandos st)) (<[next_cache st:=∅]> (caches st)) (S (next_cache st))) c = cache_of st c) as Hc.
  { intros o' c Ho. unfold cache_of. red_store. rewrite lookup_insert_ne; [done|]. apply Hlt in Ho. lia. }
  split_and!; [done| |apply lookup_insert_eq| | |].
  - split; red_store.
    + intros o1 c Ho. apply lookup_insert_Some in Ho as [[_ <-]|[_ Ho%Hlt]]; lia.
    + intros o1 o2 c [[<- <-]|[_ Ho]]%lookup_insert_Some [[<- E2]|[_ Ho2]]%lookup_insert_Some; [done| | |by eapply Hinj].
      * apply Hlt in Ho2. lia.
      * apply Hlt in Ho. lia.
  - intros o' k Hk. unfold look. red_store. destruct (decide (o' = o)) as [->|Ho].
    + rewrite lookup_insert_eq, E. unfold cache_of, read_member. red_store. by rewrite lookup_insert_eq, Hk.
    + rewrite lookup_insert_ne by done. destruct (expandos st !! o') as [c|] eqn:E'; [|done]. by erewrite Hc.
  - intros o' Ho. by rewrite lookup_insert_ne.
  - intros o' k Ho. unfold look. red_store. rewrite lookup_insert_ne by done.
    destruct (expandos st !! o') as [c|] eqn:E'; [|done]. by erewrite Hc.
Qed.

Lemma upd_cache_spec c f st o : store_ok st -> expandos st !! o = Some c ->
  exists st', upd_cache c f st = (Ok tt, st') /\ store_ok st' /\ expandos st' = expandos st
    /\ cache_of st' c = f (cache_of st c) /\ (forall o' k, o' <> o -> look st' o' k = look st o' k)
    /\ (forall o', expandos st' !! o' = expandos st !! o').
Proof.
  intros [Hlt Hinj] Ho. eexists. split; [reflexivity|]. red_store. split_and!; [by split|done| |intros o' k Hne|done].
  - unfold cache_of. red_store. by rewrite lookup_insert_eq.
  - unfold look. red_store. destruct (expandos st !! o') as [c'|] eqn:E; [|done]. unfold cache_of. red_store.
    rewrite lookup_insert_ne; [done|]. intros ->. apply Hne. by eapply Hinj.
Qed.

(** Writing one key of an owner that accepts data. *)
Lemma set_spec o key v st : store_ok st -> acceptData o = true -> camelCase key <> str "__proto__" ->
  exists c st', set o (KStr key) v st = (Ok c, st') /\ store_ok st' /\ expandos st' !! o = Some c
    /\ (forall k, look st' o k = if decide (camelCase k = camelCase key) then v else look (with_cache o st) o k)
    /\ (forall o' k, o' <> o -> look st' o' k = look st o' k)
    /\ cache_of st' c !! camelCase key = Some v.
Proof.
  intros Hst Ha Hk. destruct (cache_spec o st Hst Ha) as (c & E & Hst1 & Hc & Hl1 & _ & Hl2).
  destruct (upd_cache_spec c (fun m => write_member m (camelCase key) v) _ o Hst1 Hc) as (st' & E' & Hst' & He & Hm & Hl & _).
  exists c, st'. split_and!; [|done|by rewrite He| | |].
  - unfold set. rewrite (sm_bind_eq _ _ _ _ _ E), (sm_bind_eq _ _ _ _ _ E'). done.
  - intros k. unfold look. rewrite He, Hc, Hm. by rewrite read_write.
  - intros o' k Ho. by rewrite Hl, Hl2.
  - rewrite Hm. unfold write_member. rewrite decide_False by done. by rewrite lookup_insert_eq.
Qed.

Lemma access_spec o key v st : store_ok st -> acceptData o = true -> camelCase key <> str "__proto__" ->
  d_is_undef v = false ->
  exists st', access o (KStr key) v st = (Ok (RValue v), st') /\ store_ok st'
    /\ (forall o' k, object_member (camelCase k) = None ->
          look st' o' k = if decide (o' = o /\ camelCase k = camelCase key) then v else look st o' k).
Proof.
  intros Hst Ha Hk Hv. destruct (set_spec o key v st Hst Ha Hk) as (c & st' & E & Hst' & _ & Hl & Hl' & _).
  exists st'. split_and!; [|done|].
  - unfold access. rewrite Hv, andb_false_r, (sm_bind_eq _ _ _ _ _ E). done.
  - intros o' k Ho. destruct (decide (o' = o)) as [->|Hne].
    + rewrite Hl. destruct (decide (camelCase k = camelCase key)); [by rewrite decide_True|].
      rewrite decide_False by tauto. destruct (cache_spec o st Hst Ha) as (_ & _ & _ & _ & Hc & _). by apply Hc.
    + rewrite decide_False by tauto. by apply Hl'.
Qed.

Lemma lookup_foldr_delete (m : gmap jstr D) l k :
  foldr delete m l !! k = if decide (k ∈ l) then None else m !! k.
Proof.
  induction l as [|x l IH]; cbn [foldr]; [by rewrite decide_False by apply not_elem_of_nil|].
  destruct (decide (k = x)) as [->|Hk].
  - rewrite lookup_delete_eq, decide_True; [done|]. by left.
  - rewrite lookup_delete_ne, IH by done. repeat case_decide; set_solver.
Qed.

(** Removing names. *)
Definition names_removed (st : dstore D) (o : nat) (key : rkey) : list jstr :=
  match expandos st !! o with Some c => removed_names (cache_of st c) key | None => [] end.

Lemma remove_spec o key st : store_ok st -> key <> RemAll ->
  exists st', remove o key st = (Ok tt, st') /\ store_ok st'
    /\ (forall o' k, object_member (camelCase k) = None ->
          look st' o' k = if decide (o' = o /\ camelCase k ∈ names_removed st o key) then d_undef else look st o' k)
    /\ (forall o' k, o' <> o -> look st' o' k = look st o' k).
Proof.
  intros Hst Hkey. unfold remove, names_removed. rewrite sm_get_bind. destruct (expandos st !! o) as [c|] eqn:E.
  - destruct (upd_cache_spec c (fun m => foldr delete m (removed_names m key)) st o Hst E) as (st1 & E1 & Hst1 & He & Hm & Hl & _).
    rewrite (sm_bind_eq _ _ _ _ _ E1), sm_get_bind. set (b := match key with RemAll => true | _ => _ end).
    assert (forall k, object_member (camelCase k) = None -> look st1 o k
      = if decide (camelCase k ∈ removed_names (cache_of st c) key) then d_undef else look st o k) as Hlo.
    { intros k Hk. unfold look. rewrite He, E, Hm. unfold read_member. rewrite lookup_foldr_delete, Hk. by case_decide. }
    assert (b = bool_decide (cache_of st1 c = ∅)) as -> by (by destruct key).
    case_bool_decide as Eb; cbn [sm_when]; eexists; (split; [reflexivity|]); red_store.
    + destruct Hst1 as [Hlt Hinj]. split_and!; [split; red_store| |].
      * intros o' c' Ho. apply lookup_delete_Some in Ho as [_ Ho]. by eapply Hlt.
      * intros o1 o2 c' Ho1 Ho2. apply lookup_delete_Some in Ho1 as [_ Ho1], Ho2 as [_ Ho2]. by eapply Hinj.
      * intros o' k Hk. destruct (decide (o' = o)) as [->|Hne].
        -- unfold look at 1. red_store. rewrite lookup_delete_eq. case_decide as Hd; [done|]. specialize (Hlo k Hk).
           rewrite decide_False in Hlo by naive_solver. rewrite <-Hlo. unfold look. rewrite He, E, Eb. unfold read_member.
           by rewrite lookup_empty, Hk.
        -- rewrite decide_False by tauto. rewrite <-Hl by done. unfold look. red_store. by rewrite lookup_delete_ne.
      * intros o' k Hne. rewrite <-Hl by done. unfold look. red_store. by rewrite lookup_delete_ne.
    + split_and!; [done| |done]. intros o' k Hk. destruct (decide (o' = o)) as [->|Hne].
      * rewrite Hlo by done. repeat case_decide; naive_solver.
      * rewrite decide_False by tauto. by apply Hl.
  - exists st. split_and!; [done|done| |done]. intros o' k _. rewrite decide_False; [done|]. intros [_ Hk]. by apply not_elem_of_nil in Hk.
Qed.
End facts.

(** ** The properties of the data of elements

    Values that are set are read back and removed again; the attributes of the
    document are read as data. *)

Section stores.
Context {D : Type} `{DataVal D} `{Owners}.

(** C32: data round trip: a value set under a key of an owner that accepts data is read under
    every key with the same camel case, and nothing else changes for any key and any owner;
    the owner then has data; and removing the key makes exactly that value undefined again.
    Keys are meant whose camel case is no member of every object of the language: under
    [__proto__] nothing is stored, and [constructor], once removed, reads as the function of
    that name. *)
Theorem data_roundtrip o key v st :
  store_ok st -> acceptData o = true -> object_member (camelCase key) = None ->
  exists c st1 st2, set o (KStr key) v st = (Ok c, st1) /\ store_ok st1
    /\ (forall o' k, object_member (camelCase k) = None ->
          (get o' k st1).1 = if decide (o' = o /\ camelCase k = camelCase key) then Ok v else (get o' k st).1)
    /\ hasData o st1 = (Ok true, st1)
    /\ remove o (RemStr key) st1 = (Ok tt, st2) /\ store_ok st2
    /\ (forall o' k, object_member (camelCase k) = None ->
          (get o' k st2).1 = if decide (o' = o /\ camelCase k = camelCase key) then Ok d_undef else (get o' k st).1).
Proof.
  intros Hst Ha Hk. assert (camelCase key <> str "__proto__") as Hp by (by intros E; rewrite E in Hk).
  destruct (set_spec o key v st Hst Ha Hp) as (c & st1 & E & Hst1 & Hc & Hl & Hl' & Hm).
  destruct (remove_spec o (RemStr key) st1 Hst1 ltac:(done)) as (st2 & E2 & Hst2 & Hr & _).
  assert (names_removed st1 o (RemStr key) = [camelCase key]) as Hn.
  { unfold names_removed. rewrite Hc. cbn [removed_names]. unfold has_member. rewrite bool_decide_eq_true_2; [done|]. by eexists. }
  assert (forall o' k, object_member (camelCase k) = None -> look st1 o' k
    = if decide (o' = o /\ camelCase k = camelCase key) then v else look st o' k) as Hl1.
  { intros o' k Ho. destruct (decide (o' = o)) as [->|Hne].
    - rewrite Hl. destruct (cache_spec o st Hst Ha) as (_ & _ & _ & _ & Hw & _). rewrite Hw by done. repeat case_decide; naive_solver.
    - rewrite decide_False by tauto. by apply Hl'. }
  exists c, st1, st2. split_and!; [done|done| | |done|done|].
  - intros o' k Ho. rewrite !get_look. cbn [fst]. rewrite Hl1 by done. by case_decide.
  - unfold hasData, sm_get. rewrite Hc, bool_decide_eq_false_2; [done|]. intros Em. by rewrite Em in Hm.
  - intros o' k Ho. rewrite !get_look. cbn [fst]. rewrite Hr, Hl1, Hn by done. repeat case_decide; set_solver.
Qed.
End stores.

(** ** Attributes *)

Section attributes.
Context `{DataHost}.

Definition plain_char (c : N) : Prop := is_upper c = false /\ lower_char host_lower c = [c].

Lemma dash_upper_plain s : Forall plain_char s -> dash_upper s = s.
Proof. induction 1 as [|c s [Hc _] _ IH]; [done|]. unfold dash_upper in *. cbn [flat_map]. by rewrite Hc, IH. Qed.

Lemma lower_plain s : Forall plain_char s -> toLowerCase host_lower s = s.
Proof. induction 1 as [|c s [_ Hc] _ IH]; [done|]. unfold toLowerCase in *. cbn [flat_map]. by rewrite Hc, IH. Qed.

Lemma lower_dash_camel s : Forall plain_char s -> toLowerCase host_lower (dash_upper (camel_dashes s)) = s.
Proof.
  induction s as [|c|c d s IH1 IH2] using pair_ind; intros Hs.
  - done.
  - change (camel_dashes [c]) with [c]. by rewrite dash_upper_plain, lower_plain.
  - apply Forall_cons in Hs as [[Hcu Hcl] Hs]. rewrite camel_dashes_cons.
    destruct (N.eqb_spec c (chr "-")) as [->|_]; cbn [andb]; [destruct (is_lower d) eqn:Ed|].
    + apply Forall_cons in Hs as [_ Hs]. cbn [dash_upper flat_map]. unfold is_lower in Ed.
      rewrite andb_true_iff, !N.leb_le in Ed. assert (is_upper (d - 32) = true) as ->.
      { unfold is_upper. rewrite andb_true_iff, !N.leb_le. lia. }
      unfold toLowerCase in *. cbn [app flat_map]. rewrite Hcl. cbn [app]. f_equal.
      unfold lower_char at 1. rewrite (proj2 (N.ltb_lt _ _)) by lia.
      rewrite (proj2 (N.leb_le 65 _)), (proj2 (N.leb_le _ 90)) by lia. cbn [andb app]. f_equal; [lia|]. by apply IH2.
    + cbn [dash_upper flat_map]. rewrite Hcu. unfold toLowerCase in *. cbn [app flat_map]. rewrite Hcl. cbn [app].
      f_equal. by apply IH1.
    + cbn [dash_upper flat_map]. rewrite Hcu. unfold toLowerCase in *. cbn [app flat_map]. rewrite Hcl. cbn [app].
      f_equal. by apply IH1.
Qed.

(** The name of the attribute is the same for a name and for its camel case. *)
Lemma attr_name_plain x : Forall plain_char x -> take 4 x <> str "-ms-" ->
  attr_name x = str "data-" ++ x /\ attr_name (camelCase x) = str "data-" ++ x.
Proof.
  intros Hx Hms. unfold attr_name, camelCase, ms_prefix. rewrite decide_False by done.
  by rewrite lower_dash_camel, dash_upper_plain, lower_plain.
Qed.

Lemma on_user_ok {A} (m : SM (dstore jsval) A) s r u : m (dataUser s) = (r, u) ->
  on_user m s = (r, DStores u (dataPriv s)).
Proof. intros E. unfold on_user. by rewrite E. Qed.

(** An attribute [data-x] of an element is read as data under its name and
    under the camel case of its name, converted by [getData], or as it is when it is
    no JSON although enclosed in brackets; the value is kept: later reads answer it
    again and change nothing. *)
Theorem data_attribute e x text s :
  nodeType e = Fin 1 -> store_ok (dataUser s) ->
  Forall plain_char x -> take 4 x <> str "-ms-" -> object_member (camelCase x) = None ->
  getAttribute e (str "data-" ++ x) = Some text -> (get e x (dataUser s)).1 = Ok VUndef ->
  let v := match getData text with Ok v => v | _ => VStr text end in
  v <> VUndef ->
  forall key, key = x \/ key = camelCase x ->
  exists s1, fn_data [e] (KStr key) None s = (Ok (FValue v), s1) /\ store_ok (dataUser s1)
    /\ dataPriv s1 = dataPriv s
    /\ forall key', camelCase key' = camelCase x -> fn_data [e] (KStr key') None s1 = (Ok (FValue v), s1).
Proof.
  intros Hn Hst Hx Hms Ho Hat Hu v Hv key Hkey. destruct (attr_name_plain x Hx Hms) as [Ha1 Ha2].
  assert (attr_name key = str "data-" ++ x /\ camelCase key = camelCase x) as [Ha Hck].
  { destruct Hkey as [->| ->]; [done|]. split; [done|apply camelCase_idem]. }
  assert (camelCase key <> str "__proto__") as Hp by (rewrite Hck; by intros E; rewrite E in Ho).
  assert (look (dataUser s) e key = VUndef) as Hu'.
  { rewrite get_look in Hu. cbn [fst] in Hu. injection Hu as Hu. unfold look in *. by rewrite Hck. }
  assert (acceptData e = true) as Hacc by (unfold acceptData; by rewrite Hn).
  destruct (set_spec e key v _ Hst Hacc Hp) as (c & u & E & Hst' & _ & Hl & _).
  assert (forall key' s', look (dataUser s') e key' = v -> fn_data [e] (KStr key') None s' = (Ok (FValue v), s')) as Hread.
  { intros key' s' El. unfold fn_data, fn_data_read.
    rewrite (sm_bind_eq _ _ _ _ _ (on_user_ok _ s' _ _ (get_look e key' (dataUser s')))), El.
    replace (DStores (dataUser s') (dataPriv s')) with s' by (by destruct s'). by destruct v. }
  exists (DStores u (dataPriv s)). split_and!; [|done|done|].
  - unfold fn_data, fn_data_read.
    rewrite (sm_bind_eq _ _ _ _ _ (on_user_ok _ s _ _ (get_look e key (dataUser s)))), Hu'.
    replace (DStores (dataUser s) (dataPriv s)) with s by (by destruct s). unfold dataAttr.
    rewrite Hn, Ha, Hat. change (Num.eqb (Fin 1) (Fin 1)) with true. cbv iota zeta. fold v.
    rewrite (sm_bind_eq _ _ s (Ok v) (DStores u (dataPriv s))); [done|].
    by rewrite (sm_bind_eq _ _ _ _ _ (on_user_ok _ s _ _ E)).
  - intros key' Hk'. apply Hread. cbn [dataUser]. rewrite Hl. by rewrite decide_True by congruence.
Qed.
End attributes.

(** ** Concrete instances *)

(** A document with one element, [<div data-row-count="12" data-x="{">]. *)
Definition demo_host : DataHost := {|
  host_owners := {| nodeType o := if (o =? 0)%nat then Fin 1 else NaN |};
  attributes o := if (o =? 0)%nat then [(str "data-row-count", str "12"); (str "data-x", str "{")] else [];
  host_lower c := [c];
  to_number s := if decide (s = str "12") then Fin 12 else NaN;
  json_parse _ := Throw (str "SyntaxError")
|}.

Lemma data_roundtrip_witness : exists c st1 st2,
  @set jsval (@host_owners demo_host) 0 (KStr (str "row-count")) (VNum (Fin 3)) Data_new = (Ok c, st1)
  /\ (get 0 (str "rowCount") st1).1 = Ok (VNum (Fin 3)) /\ (get 0 (str "rowCount") st2).1 = Ok VUndef.
Proof.
  destruct (@data_roundtrip jsval _ (@host_owners demo_host) 0 (str "row-count") (VNum (Fin 3)) Data_new)
    as (c & st1 & st2 & E & _ & H1 & _ & _ & _ & H2);
    [apply store_ok_new|vm_compute; reflexivity|vm_compute; reflexivity|].
  exists c, st1, st2. split; [exact E|]. split; [rewrite H1|rewrite H2]; vm_compute; reflexivity.
Defined.

Lemma data_attribute_witness : exists s1,
  @fn_data demo_host [0%nat] (KStr (str "rowCount")) None (DStores Data_new Data_new) = (Ok (FValue (VNum (Fin 12))), s1).
Proof.
  destruct (@data_attribute demo_host 0 (str "row-count") (str "12") (DStores Data_new Data_new)
    ltac:(reflexivity) store_ok_new) with (key := str "rowCount") as (s1 & E & _).
  - repeat constructor.
  - vm_compute. discriminate.
  - vm_compute. reflexivity.
  - vm_compute. reflexivity.
  - vm_compute. reflexivity.
  - vm_compute. discriminate.
  - right. vm_compute. reflexivity.
  - exists s1. exact E.
Defined.
