(* ===== verification/Queue.v ===== *)
(** * Queues of functions: jQuery.queue, dequeue, delay, promise

    Every element has queues of functions, arrays under the element's private
    data; the functions are called one after the other, each when the one before
    it calls [next].  A queue has hooks: a callback list [empty] that is fired
    when the queue has run empty, and a function [stop].  The functions of the
    code are values of an inductive type, with the variables they close over. *)

From S2P Require Import Prelude JsNum JsVal Callbacks ElemData.

(** ** Values *)

(** A function: of the page, [next] of [dequeue], the callback that [_queueHooks]
    adds, [resolve] of [promise], the function of [delay] and its [hooks.stop]. *)
Inductive fn :=
  | FUser (n : N)
  | FNext (elem : nat) (type : jstr)
  | FRemove (elem : nat) (type : jstr)
  | FResolve (p : nat)
  | FDelay (time : num)
  | FStop (timeout : nat).

#[export] Instance fn_eq_dec : EqDecision fn.
Proof. solve_decision. Defined.

(** An element of a queue: the sentinel ["inprogress"], a function, or another
    value with its truth, which is not like an array. *)
Inductive item := IProgress | IFn (f : fn) | IOther (truthy : bool).

Definition item_truthy (i : item) : bool := match i with IOther b => b | _ => true end.

(** The callback lists: [empty] of hooks, and the one that a promise resolves. *)
Inductive lid := LEmpty (hooks : nat) | LDone (p : nat).

#[export] Instance lid_eq_dec : EqDecision lid.
Proof. solve_decision. Defined.
#[export] Instance lid_countable : Countable lid.
Proof.
  apply (inj_countable' (fun l => match l with LEmpty h => inl h | LDone p => inr p end)
           (fun s => match s with inl h => LEmpty h | inr p => LDone p end)). by intros [].
Defined.

(** The values that the functions are given and answer. *)
Inductive qval :=
  | QUndef
  | QBool (b : bool)
  | QFn (f : fn)
  | QHooks (h : nat)
  | QArr (a : nat)
  | QElem (e : nat)
  | QElems (es : list nat)
  | QList (l : lid)
  | QPromise (p : nat).

Definition q_is_false (v : qval) : bool := match v with QBool false => true | _ => false end.

(** What queues keep in [dataPriv]. *)
Inductive pval := PUndef | PHost (name : jstr) | PArr (a : nat) | PHooks (h : nat).

#[export] Instance pval_data : DataVal pval := {|
  d_undef := PUndef;
  d_is_undef v := match v with PUndef => true | _ => false end;
  d_host := PHost
|}.

(** ** State *)

Abbreviation qcbs := (cbs fn qval).

(** The variables of [promise]. *)
Record promise := Promise { p_count : Z; p_elements : list nat }.

Record qstate := QState {
  priv : dstore pval;
  arrays : gmap nat (list item);
  stops : gmap nat fn;
  lists : gmap lid qcbs;
  promises : gmap nat promise;
  timers : list (nat * qval);
  next_id : nat;
  output : list N
}.

Definition set_priv x s := QState x (arrays s) (stops s) (lists s) (promises s) (timers s) (next_id s) (output s).
Definition set_arrays x s := QState (priv s) x (stops s) (lists s) (promises s) (timers s) (next_id s) (output s).
Definition set_stops x s := QState (priv s) (arrays s) x (lists s) (promises s) (timers s) (next_id s) (output s).
Definition set_lists x s := QState (priv s) (arrays s) (stops s) x (promises s) (timers s) (next_id s) (output s).
Definition set_promises x s := QState (priv s) (arrays s) (stops s) (lists s) x (timers s) (next_id s) (output s).
Definition set_timers x s := QState (priv s) (arrays s) (stops s) (lists s) (promises s) x (next_id s) (output s).
Definition set_next x s := QState (priv s) (arrays s) (stops s) (lists s) (promises s) (timers s) x (output s).
Definition set_output x s := QState (priv s) (arrays s) (stops s) (lists s) (promises s) (timers s) (next_id s) x.

Definition qstate0 : qstate := QState Data_new ∅ ∅ ∅ ∅ [] 0 [].

(** Every list of this component is created with the flags ["once memory"]. *)
Definition once_memory : options := createOptions (str "once memory").
Definition get_cbs (l : lid) (s : qstate) : qcbs := default (new_cbs once_memory) (lists s !! l).
Definition put_cbs (l : lid) (c : qcbs) (s : qstate) : qstate := set_lists (<[l := c]> (lists s)) s.

Definition on_data {A} (m : SM (dstore pval) A) : SM qstate A := fun s =>
  let '(r, d) := m (priv s) in (r, set_priv d s).

(** A new number for an object, an array or a timeout. *)
Definition fresh : SM qstate nat := n ← sm_get next_id; sm_mod (set_next (S n)) ;; mret n.

Definition new_array (l : list item) : SM qstate nat :=
  a ← fresh; sm_mod (fun s => set_arrays (<[a := l]> (arrays s)) s) ;; mret a.
Definition array (s : qstate) (a : nat) : list item := default [] (arrays s !! a).
Definition upd_array (a : nat) (f : list item -> list item) : SM qstate unit :=
  sm_mod (fun s => set_arrays (<[a := f (array s a)]> (arrays s)) s).

(** [queue.shift()]. *)
Definition shift (a : nat) : SM qstate (option item) :=
  l ← sm_get (fun s => array s a); upd_array a tail ;; mret (head l).

Definition fx : jstr := str "fx".
Definition or_fx (type : jstr) : jstr := if decide (type = []) then fx else type.

(** The argument [data]: an array, or one value. *)
Inductive qdata := DArr (l : list item) | DItem (i : item).

Section queues.
Context `{Owners}.

(** [jQuery.queue]: the array that is answered is the queue itself, or a new one
    where there is no queue. *)
Definition queue (elem : nat) (type : jstr) (data : option qdata) : SM qstate nat :=
  let type := or_fx type ++ str "queue" in
  v ← on_data (get elem type);
  let replace l := a ← new_array l; on_data (access elem (KStr type) (PArr a)) ;; mret a in
  match data, v with
  | Some (DArr l), _ => replace l
  | Some (DItem i), PArr a => if item_truthy i then upd_array a (fun l => l ++ [i]) ;; mret a else mret a
  | Some (DItem i), _ => if item_truthy i then replace [i] else new_array []
  | None, PArr a => mret a
  | None, _ => new_array []
  end.

Section calls.
(** Calling a function, and the bound for the loops of the callback lists. *)
Context (call : fn -> qval -> list qval -> SM qstate qval) (fuel : nat).

Definition fire (l : lid) (context : qval) (args : list qval) : SM qstate unit :=
  fireWith get_cbs put_cbs call QUndef q_is_false fuel l context args.
Definition list_add (l : lid) (f : fn) : SM qstate unit :=
  add get_cbs put_cbs call QUndef q_is_false fuel l [AFn f].

Definition _queueHooks (elem : nat) (type : jstr) : SM qstate nat :=
  let key := type ++ str "queueHooks" in
  v ← on_data (get elem key);
  match v with
  | PHooks h => mret h
  | _ =>
      h ← fresh;
      sm_mod (put_cbs (LEmpty h) (new_cbs once_memory)) ;;
      list_add (LEmpty h) (FRemove elem type) ;;
      on_data (access elem (KStr key) (PHooks h)) ;; mret h
  end.

Definition call_item (i : item) (this : qval) (args : list qval) : SM qstate unit :=
  match i with
  | IFn f => call f this args ;; mret tt
  | _ => sm_throw (str "TypeError")
  end.

Definition dequeue (elem : nat) (type : jstr) : SM qstate unit :=
  let type := or_fx type in
  a ← queue elem type None;
  startLength ← sm_get (fun s => length (array s a));
  f ← shift a;
  h ← _queueHooks elem type;
  '(f, startLength) ← match f with
                      | Some IProgress => f ← shift a; mret (f, (startLength - 1)%nat)
                      | _ => mret (f, startLength)
                      end;
  match f with
  | Some i =>
      sm_when (item_truthy i)
        (sm_when (bool_decide (type = fx)) (upd_array a (cons IProgress)) ;;
         sm_mod (fun s => set_stops (delete h (stops s)) s) ;;
         call_item i (QElem elem) [QFn (FNext elem type); QHooks h])
  | None => mret tt
  end ;;
  sm_when (startLength =? 0)%nat (fire (LEmpty h) (QList (LEmpty h)) []).

(** [fn.queue] that reads, and that writes. *)
Definition fn_queue_get (elems : list nat) (type : jstr) : SM qstate qval :=
  match elems with
  | [] => mret QUndef
  | e :: _ => a ← queue e type None; mret (QArr a)
  end.

Definition fn_queue (elems : list nat) (type : jstr) (data : qdata) : SM qstate unit :=
  sm_each (fun e =>
    a ← queue e type (Some data);
    _queueHooks e type ;;
    l ← sm_get (fun s => array s a);
    sm_when (bool_decide (type = fx) && match l with IProgress :: _ => false | _ => true end) (dequeue e type)) elems.

Definition fn_dequeue (elems : list nat) (type : jstr) : SM qstate unit :=
  sm_each (fun e => dequeue e type) elems.

Definition fn_clearQueue (elems : list nat) (type : jstr) : SM qstate unit :=
  fn_queue elems (or_fx type) (DArr []).

(** [fn.delay]; [time] is the number of milliseconds. *)
Definition fn_delay (elems : list nat) (time : num) (type : jstr) : SM qstate unit :=
  fn_queue elems (or_fx type) (DItem (IFn (FDelay time))).

(** The loop of [promise], over the elements in reverse. *)
Definition promise_add (p : nat) (type : jstr) (e : nat) : SM qstate unit :=
  v ← on_data (get e (type ++ str "queueHooks"));
  match v with
  | PHooks h =>
      sm_mod (fun s => set_promises (alter (fun r => Promise (p_count r + 1) (p_elements r)) p (promises s)) s) ;;
      list_add (LEmpty h) (FResolve p)
  | _ => mret tt
  end.

(** [resolve] of [promise]. *)
Definition resolve (p : nat) : SM qstate unit :=
  sm_mod (fun s => set_promises (alter (fun r => Promise (p_count r - 1) (p_elements r)) p (promises s)) s) ;;
  r ← sm_get (fun s => default (Promise 0 []) (promises s !! p));
  sm_when (p_count r =? 0) (fire (LDone p) (QElems (p_elements r)) [QElems (p_elements r)]).

Definition fn_promise (elems : list nat) (type : jstr) : SM qstate nat :=
  p ← fresh;
  sm_mod (fun s => put_cbs (LDone p) (new_cbs once_memory) (set_promises (<[p := Promise 1 elems]> (promises s)) s)) ;;
  sm_each (promise_add p (or_fx type)) (rev elems) ;;
  resolve p ;;
  mret p.

(** ** Functions *)

(** [window.setTimeout] and [window.clearTimeout]. *)
Definition setTimeout (f : qval) : SM qstate nat :=
  t ← fresh; sm_mod (fun s => set_timers (timers s ++ [(t, f)]) s) ;; mret t.
Definition clearTimeout (t : nat) : SM qstate unit :=
  sm_mod (fun s => set_timers (List.filter (fun p => negb (p.1 =? t)%nat) (timers s)) s).

(** The function that [delay] queues. *)
Definition delay_fn (args : list qval) : SM qstate unit :=
  t ← setTimeout (default QUndef (args !! 0%nat));
  match args !! 1%nat with
  | Some (QHooks h) => sm_mod (fun s => set_stops (<[h := FStop t]> (stops s)) s)
  | Some QUndef | None => sm_throw (str "TypeError")
  | Some _ => mret tt
  end.

(** The functions of the code. *)
Definition call_closure (f : fn) (args : list qval) : SM qstate qval :=
  match f with
  | FUser _ => mret tt
  | FNext e type => dequeue e type
  | FRemove e type => on_data (remove (D := pval) e (RemArr [type ++ str "queue"; type ++ str "queueHooks"]))
  | FResolve p => resolve p
  | FDelay _ => delay_fn args
  | FStop t => clearTimeout t
  end ;; mret QUndef.

End calls.

(** ** Programs of the page *)

(** What a function of the page may do. *)
Inductive qop :=
  | OQueue (es : list nat) (type : jstr) (data : qdata)
  | OGetQueue (es : list nat) (type : jstr)
  | ODequeue (es : list nat) (type : jstr)
  | OClearQueue (es : list nat) (type : jstr)
  | ODelay (es : list nat) (time : num) (type : jstr)
  | OPromise (es : list nat) (type : jstr)
  | ODone (p : nat) (f : fn)
  | OAddEmpty (h : nat) (f : fn)
  | OSetStop (h : nat) (f : fn)
  | OCallStop (h : nat)
  | OCall (f : fn) (args : list qval)
  | OTimer (t : nat)
  | OOutput (n : N).

Inductive qprog :=
  | PRet (v : qval)
  | PThrow (e : jstr)
  | POp (o : qop) (k : qval -> qprog) (h : jstr -> qprog).

(** A timeout that is due. *)
Definition run_timer (call : fn -> qval -> list qval -> SM qstate qval) (t : nat) : SM qstate qval :=
  l ← sm_get timers;
  match List.find (fun p => (p.1 =? t)%nat) l with
  | Some (_, QFn f) => clearTimeout t ;; call f QUndef []
  | _ => clearTimeout t ;; mret QUndef
  end.

Definition do_op (call : fn -> qval -> list qval -> SM qstate qval) (fuel : nat) (o : qop) : SM qstate qval :=
  match o with
  | OQueue es type data => fn_queue call fuel es type data ;; mret (QElems es)
  | OGetQueue es type => fn_queue_get es type
  | ODequeue es type => fn_dequeue call fuel es type ;; mret (QElems es)
  | OClearQueue es type => fn_clearQueue call fuel es type ;; mret (QElems es)
  | ODelay es time type => fn_delay call fuel es time type ;; mret (QElems es)
  | OPromise es type => p ← fn_promise call fuel es type; mret (QPromise p)
  | ODone p f => list_add call fuel (LDone p) f ;; mret (QPromise p)
  | OAddEmpty h f => list_add call fuel (LEmpty h) f ;; mret (QList (LEmpty h))
  | OSetStop h f => sm_mod (fun s => set_stops (<[h := f]> (stops s)) s) ;; mret (QFn f)
  | OCallStop h =>
      st ← sm_get stops;
      match st !! h with Some f => call f (QHooks h) [] | None => mret QUndef end
  | OCall f args => call f QUndef args
  | OTimer t => run_timer call t
  | OOutput n => sm_mod (fun s => set_output (output s ++ [n]) s) ;; mret QUndef
  end.

Fixpoint run_prog (exec : qop -> SM qstate qval) (p : qprog) : SM qstate qval :=
  match p with
  | PRet v => mret v
  | PThrow e => sm_throw e
  | POp o k hd => fun s =>
      match exec o s with
      | (Ok v, s') => run_prog exec (k v) s'
      | (Throw e, s') => run_prog exec (hd e) s'
      | (NoFuel, s') => (NoFuel, s')
      end
  end.

Section run.
Context (user : N -> qval -> list qval -> qprog).

(** [fuel] bounds the depth of calls and the length of each loop. *)
Fixpoint call (fuel : nat) (f : fn) (this : qval) (args : list qval) : SM qstate qval :=
  match fuel with
  | O => sm_lift NoFuel
  | S n =>
      match f with
      | FUser k => run_prog (do_op (call n) n) (user k this args)
      | _ => call_closure (call n) n f args
      end
  end.

Definition exec (fuel : nat) : qop -> SM qstate qval := do_op (call fuel) fuel.
Definition run_main (fuel : nat) (p : qprog) : SM qstate qval := run_prog (exec fuel) p.

End run.
End queues.
