(* ===== verification/QueueFacts.v ===== *)
(** * What the queues of effects promise: specification and invariant

    A specification of the queues of effects, in which an element has a list of
    waiting functions and a promise the list of the elements it waits for, and the
    relation between its states and those of the code. *)

From S2P Require Import Prelude JsNum JsVal Callbacks CallbacksFacts CallbacksProps ElemData ElemDataFacts Queue.

(** ** Specification *)

(** The waiting functions of each element that has one in progress; what the
    functions did, in order; the elements each promise still waits for. *)
Record aqueue := AQueue {
  busy : gmap nat (list N);
  done_ : list N;
  pending : list (list nat)
}.

Section specification.
(** The functions that call [next] before they return; the others do later. *)
Context (sync : N -> bool).

(** The functions that are called when the one in progress is over: up to the
    first that does not call [next] at once.  The answer is the queue that
    remains, unless it has run empty. *)
Fixpoint drain (w : list N) : option (list N) * list N :=
  match w with
  | [] => (None, [])
  | n :: w' => if sync n then let '(r, o) := drain w' in (r, n :: o) else (Some w', [n])
  end.

Definition other_than (e : nat) : list nat -> list nat := List.filter (fun x => negb (x =? e)%nat).

(** An element runs empty, and the promises no longer wait for it. *)
Definition run_empty (e : nat) (a : aqueue) : aqueue :=
  AQueue (delete e (busy a)) (done_ a) (other_than e <$> pending a).

(** The functions [w] of an element start. *)
Definition advance (e : nat) (w : list N) (a : aqueue) : aqueue :=
  let '(r, o) := drain w in
  match r with
  | Some w' => AQueue (<[e := w']> (busy a)) (done_ a ++ o) (pending a)
  | None => run_empty e (AQueue (busy a) (done_ a ++ o) (pending a))
  end.

(** A function is queued, calls [next]; a queue is cleared; a promise is made. *)
Inductive event := EQueue (e : nat) (n : N) | ENext (e : nat) | EClear (e : nat) | EPromise (es : list nat).

Definition step (a : aqueue) (ev : event) : aqueue :=
  match ev with
  | EQueue e n =>
      match busy a !! e with
      | Some w => AQueue (<[e := w ++ [n]]> (busy a)) (done_ a) (pending a)
      | None => advance e [n] a
      end
  | ENext e => match busy a !! e with Some w => advance e w a | None => a end
  | EClear e => run_empty e a
  | EPromise es =>
      AQueue (busy a) (done_ a) (pending a ++ [List.filter (fun e => bool_decide (is_Some (busy a !! e))) es])
  end.

Definition steps (evs : list event) (a : aqueue) : aqueue := fold_left step evs a.
End specification.

(** The calls of the page. *)
Definition op_of (ev : event) : qop :=
  match ev with
  | EQueue e n => OQueue [e] fx (DItem (IFn (FUser n)))
  | ENext e => OCall (FNext e fx) []
  | EClear e => OClearQueue [e] fx
  | EPromise es => OPromise es fx
  end.

(** A function of the page that does its work, and calls [next] or leaves that to
    an animation. *)
Definition worker (sync : N -> bool) (n : N) (next : fn) : qprog :=
  POp (OOutput n)
    (fun _ => if sync n then POp (OCall next []) (fun _ => PRet QUndef) PThrow else PRet QUndef) PThrow.

(** ** Counting *)

Abbreviation count e l := (count_occ Nat.eq_dec l e).

Lemma length_other_than e l : length l = (length (other_than e l) + count e l)%nat.
Proof.
  unfold other_than in *. induction l as [|x l IH]; [done|]. cbn [List.filter length].
  destruct (Nat.eqb_spec x e) as [->|Hx]; cbn [negb].
  - rewrite count_occ_cons_eq by done. lia.
  - rewrite count_occ_cons_neq by done. cbn [length]. lia.
Qed.

Lemma other_than_none e l : e ∉ l -> other_than e l = l.
Proof.
  unfold other_than. induction l as [|x l IH]; intros He; [done|]. apply not_elem_of_cons in He as [Hx He]. cbn [List.filter].
  rewrite (proj2 (Nat.eqb_neq x e)) by done. cbn [negb]. f_equal. by apply IH.
Qed.

Lemma elem_of_other_than x e l : x ∈ other_than e l <-> x ∈ l /\ x <> e.
Proof. unfold other_than. rewrite !list_elem_of_In, filter_In, negb_true_iff, Nat.eqb_neq. done. Qed.

Lemma count_other_than x e l : x <> e -> count x (other_than e l) = count x l.
Proof.
  intros Hx. unfold other_than. induction l as [|y l IH]; [done|]. cbn [List.filter].
  destruct (Nat.eqb_spec y e) as [->|Hy]; cbn [negb].
  - rewrite count_occ_cons_neq by done. apply IH.
  - destruct (decide (y = x)) as [->|].
    + rewrite !count_occ_cons_eq by done. f_equal. apply IH.
    + rewrite !count_occ_cons_neq by done. apply IH.
Qed.

Lemma count_none x l : x ∉ l -> count x l = 0%nat.
Proof. intros Hx. apply count_occ_not_In. by rewrite <-list_elem_of_In. Qed.

(** ** Keys of the queues of effects *)

Definition qkey : jstr := fx ++ str "queue".
Definition hkey : jstr := fx ++ str "queueHooks".

Lemma camel_qkey : camelCase qkey = qkey. Proof. by vm_compute. Qed.
Lemma camel_hkey : camelCase hkey = hkey. Proof. by vm_compute. Qed.
Lemma qkey_member : object_member qkey = None. Proof. by vm_compute. Qed.
Lemma hkey_member : object_member hkey = None. Proof. by vm_compute. Qed.
Lemma qkey_hkey : qkey <> hkey. Proof. by vm_compute. Qed.
Lemma or_fx_fx : or_fx fx = fx. Proof. by vm_compute. Qed.

Opaque qkey hkey.

(** ** The invariant *)

(** The hooks of a queue in progress, with [fs] to be called when it is empty. *)
Definition waiting (fs : list fn) : qcbs := Cbs once_memory false None false false (Some fs) [] (-1).

Definition callbacks_of (e : nat) (rs : list nat) : list fn := FRemove e fx :: List.map FResolve rs.

Definition fns (w : list N) : list item := List.map (fun n => IFn (FUser n)) w.

(** A promise that waits for [n] queues. *)
Definition promise_at (p n : nat) (s : qstate) : Prop :=
  (exists es, promises s !! p = Some (Promise (Z.of_nat n) es))
  /\ if decide (n = 0%nat) then fired (get_cbs (LDone p) s) = true
     else get_cbs (LDone p) s = new_cbs once_memory.

Section invariant.
Context `{Owners}.

(** The queue, the hooks and the waiting promises of a busy element.  [x] is the
    element whose array is being worked on, if any; [K] bounds the lengths. *)
Definition busy_at (x : option nat) (ps : list nat) (K : nat) (a : aqueue) (s : qstate) (e : nat) (w : list N) : Prop :=
  acceptData e = true /\ exists q h rs,
    look (priv s) e qkey = PArr q /\ look (priv s) e hkey = PHooks h
    /\ (q < next_id s)%nat /\ (h < next_id s)%nat
    /\ (x = Some e \/ array s q = IProgress :: fns w)
    /\ get_cbs (LEmpty h) s = waiting (callbacks_of e rs)
    /\ Forall (fun p => p ∈ ps) rs
    /\ (forall i p es, ps !! i = Some p -> pending a !! i = Some es -> count p rs = count e es)
    /\ (2 * length w + length rs <= K)%nat.

(** The states of the code that show [a]: [ps] are the promises, and [rs] the
    calls of their [resolve] that are still to be made. *)
Record shows (x : option nat) (rs ps : list nat) (K : nat) (a : aqueue) (s : qstate) : Prop := {
  sh_store : store_ok (priv s);
  sh_busy : forall e w, busy a !! e = Some w -> busy_at x ps K a s e w;
  sh_idle : forall e, busy a !! e = None ->
    look (priv s) e qkey = PUndef /\ look (priv s) e hkey = PUndef /\ Forall (fun es => e ∉ es) (pending a);
  sh_arr : forall e e' q, look (priv s) e qkey = PArr q -> look (priv s) e' qkey = PArr q -> e = e';
  sh_hooks : forall e e' h, look (priv s) e hkey = PHooks h -> look (priv s) e' hkey = PHooks h -> e = e';
  sh_promises : Forall2 (fun p es => (p < next_id s)%nat /\ promise_at p (length es + count p rs) s) ps (pending a);
  sh_nodup : NoDup ps;
  sh_output : output s = done_ a
}.

Lemma shows_start : shows None [] [] 0 (AQueue ∅ [] []) qstate0.
Proof.
  split; cbn; try done; try apply store_ok_new; try by constructor.
Qed.

Lemma shows_weaken x x' rs ps K K' a s : (x = None \/ x' = x) -> (K <= K')%nat -> shows x rs ps K a s -> shows x' rs ps K' a s.
Proof.
  intros Hx HK [Hst Hb Hi Ha Hh Hp Hn Ho]. split; try done. intros e w E.
  destruct (Hb e w E) as (Hacc & q & h & l & H1 & H2 & H3 & H4 & H5 & H6 & H7 & H8 & H9).
  split; [done|]. exists q, h, l. split_and!; try done; [|lia].
  destruct H5 as [H5|H5]; [|by right]. destruct Hx as [Hx|Hx]; [congruence|left; congruence].
Qed.

(** ** Steps of the code *)

(** Calls do not matter where they change what the relation does not see. *)
Lemma shows_stops x rs ps K a s m : shows x rs ps K a s -> shows x rs ps K a (set_stops m s).
Proof. by intros []. Qed.

Lemma shows_array e rs ps K a s q l : look (priv s) e qkey = PArr q ->
  shows (Some e) rs ps K a s -> shows (Some e) rs ps K a (set_arrays (<[q := l]> (arrays s)) s).
Proof.
  intros Hq [Hst Hb Hi Ha Hh Hp Hn Ho]. split; try done. intros e' w E.
  destruct (Hb e' w E) as (Hacc & q' & h & rs' & H1 & H2 & H3 & H4 & H5 & H6 & H7 & H8 & H9).
  split; [done|]. exists q', h, rs'. split_and!; try done.
  destruct H5 as [H5|H5]; [by left|]. destruct (decide (q' = q)) as [->|Hne].
  - left. f_equal. by eapply Ha.
  - right. unfold array in *. cbn. by rewrite lookup_insert_ne.
Qed.

(** The array of the element is in order again. *)
Lemma shows_settle e rs ps K a s q w : look (priv s) e qkey = PArr q -> busy a !! e = Some w ->
  array s q = IProgress :: fns w -> shows (Some e) rs ps K a s -> shows None rs ps K a s.
Proof.
  intros Hq Ew Hl [Hst Hb Hi Ha Hh Hp Hn Ho]. split; try done. intros e' w' E.
  destruct (Hb e' w' E) as (Hacc & q' & h & rs' & H1 & H2 & H3 & H4 & H5 & H6 & H7 & H8 & H9).
  split; [done|]. exists q', h, rs'. split_and!; try done. right.
  destruct H5 as [[= <-]|H5]; [|done]. rewrite Hq in H1. injection H1 as <-. rewrite Ew in E. by injection E as <-.
Qed.

(** Other waiting functions for an element whose array is worked on. *)
Lemma shows_busy e w w0 rs ps K K' a s : busy a !! e = Some w0 -> (K <= K')%nat ->
  (2 * length w + K <= 2 * length w0 + K')%nat ->
  shows (Some e) rs ps K a s -> shows (Some e) rs ps K' (AQueue (<[e := w]> (busy a)) (done_ a) (pending a)) s.
Proof.
  intros E0 HK HK' [Hst Hb Hi Ha Hh Hp Hn Ho]. split; try done; cbn [busy pending done_].
  - intros e' w' E. assert (exists v, busy a !! e' = Some v /\ (e' = e /\ w' = w /\ v = w0 \/ w' = v)) as (v & Ev & Hv).
    { apply lookup_insert_Some in E as [[<- <-]|[_ E]]; [exists w0|exists w']; auto. }
    destruct (Hb e' v Ev) as (Hacc' & q' & h & rs' & H1 & H2 & H3 & H4 & H5 & H6 & H7 & H8 & H9).
    split; [done|]. exists q', h, rs'. split_and!; try done.
    + destruct Hv as [[-> _]| ->]; [by left|done].
    + destruct Hv as [(-> & -> & ->)| ->]; lia.
  - intros e' E. apply lookup_insert_None in E as [E _]. by apply Hi.
Qed.

End invariant.
