(* ===== verification/QueueSteps.v ===== *)
(** * The calls on queues, one by one

    What [queue], [_queueHooks], [dequeue] and the firing of the hooks do to a
    state that shows a state of the specification. *)

From S2P Require Import Prelude JsNum JsVal Callbacks CallbacksFacts CallbacksProps ElemData ElemDataFacts Queue QueueFacts.

(** ** Lists of callbacks *)

Lemma get_put_cbs l c s : get_cbs l (put_cbs l c s) = c.
Proof. unfold get_cbs, put_cbs. cbn [lists set_lists]. by rewrite lookup_insert_eq. Qed.

Lemma get_put_cbs_ne l l' c s : l <> l' -> get_cbs l (put_cbs l' c s) = get_cbs l s.
Proof. intros Hl. unfold get_cbs, put_cbs. cbn [lists set_lists]. by rewrite lookup_insert_ne. Qed.

Lemma put_put_cbs l c c' s : put_cbs l c (put_cbs l c' s) = put_cbs l c s.
Proof. unfold put_cbs, set_lists. cbn. by rewrite insert_insert_eq. Qed.

Lemma qkey_eq : fx ++ str "queue" = qkey. Proof. done. Qed.
Lemma hkey_eq : fx ++ str "queueHooks" = hkey. Proof. done. Qed.

Section steps.
Context `{Owners}.

Lemma set_priv_id s : set_priv (priv s) s = s.
Proof. by destruct s. Qed.

Lemma get_data e k s : on_data (get e k) s = (Ok (look (priv s) e k), s).
Proof. unfold on_data. rewrite get_look. by rewrite set_priv_id. Qed.

(** ** Frames *)

(** [s'] has what [s] has, and new objects. *)
Record extends (s s' : qstate) : Prop := {
  ex_store : store_ok (priv s');
  ex_next : (next_id s <= next_id s')%nat;
  ex_arrays : forall q, (q < next_id s)%nat -> array s' q = array s q;
  ex_hooks : forall h, (h < next_id s)%nat -> get_cbs (LEmpty h) s' = get_cbs (LEmpty h) s;
  ex_promises : forall p, (p < next_id s)%nat -> promises s' !! p = promises s !! p /\ get_cbs (LDone p) s' = get_cbs (LDone p) s;
  ex_output : output s' = output s
}.

Lemma extends_refl s : store_ok (priv s) -> extends s s.
Proof. by split. Qed.

Lemma extends_trans s1 s2 s3 : extends s1 s2 -> extends s2 s3 -> extends s1 s3.
Proof.
  intros [A1 A2 A3 A4 A5 A6] [B1 B2 B3 B4 B5 B6]. split; [done|lia|..].
  - intros q Hq. by rewrite B3, A3 by lia.
  - intros h Hh. by rewrite B4, A4 by lia.
  - intros p Hp. destruct (A5 p Hp) as [<- <-]. apply B5. lia.
  - by rewrite B6.
Qed.

Lemma promise_at_eq p n s s' : promises s' !! p = promises s !! p -> get_cbs (LDone p) s' = get_cbs (LDone p) s ->
  promise_at p n s -> promise_at p n s'.
Proof. unfold promise_at. by intros -> ->. Qed.

Lemma extends_promises rs ps a s s' : extends s s' ->
  Forall2 (fun p es => (p < next_id s)%nat /\ promise_at p (length es + count p rs) s) ps (pending a) ->
  Forall2 (fun p es => (p < next_id s')%nat /\ promise_at p (length es + count p rs) s') ps (pending a).
Proof.
  intros Hex Hps. eapply Forall2_impl; [exact Hps|]. intros p es [Hp Hat]. pose proof (ex_next _ _ Hex).
  destruct (ex_promises _ _ Hex p Hp). split; [lia|]. by eapply promise_at_eq.
Qed.

Lemma extends_busy x ps K a s s' e w : extends s s' ->
  look (priv s') e qkey = look (priv s) e qkey -> look (priv s') e hkey = look (priv s) e hkey ->
  busy_at x ps K a s e w -> busy_at x ps K a s' e w.
Proof.
  intros Hex Eq Eh (Hacc & q & h & rs & H1 & H2 & H3 & H4 & H5 & H6 & H7). pose proof (ex_next _ _ Hex).
  split; [done|]. exists q, h, rs. rewrite Eq, Eh, (ex_arrays _ _ Hex), (ex_hooks _ _ Hex) by done. split_and!; try done; try lia; apply H7.
Qed.

Lemma shows_extends x rs ps K a s s' : extends s s' ->
  (forall e, look (priv s') e qkey = look (priv s) e qkey /\ look (priv s') e hkey = look (priv s) e hkey) ->
  shows x rs ps K a s -> shows x rs ps K a s'.
Proof.
  intros Hex Hl [Hst Hb Hi Ha Hh Hp Hn Ho]. split; try done.
  - apply Hex.
  - intros e w E. destruct (Hl e). eapply extends_busy; eauto.
  - intros e E. destruct (Hl e) as [-> ->]. by apply Hi.
  - intros e e' q. rewrite (proj1 (Hl e)), (proj1 (Hl e')). apply Ha.
  - intros e e' h. rewrite (proj2 (Hl e)), (proj2 (Hl e')). apply Hh.
  - by eapply extends_promises.
  - by rewrite (ex_output _ _ Hex).
Qed.

(** Hooks that no element has are out of sight. *)
Lemma shows_dead x rs ps K a s h c : (forall e, look (priv s) e hkey <> PHooks h) ->
  shows x rs ps K a s -> shows x rs ps K a (put_cbs (LEmpty h) c s).
Proof.
  intros Hdead [Hst Hb Hi Ha Hh Hp Hn Ho]. split; try done.
  - intros e w E. destruct (Hb e w E) as (Hacc & q & h' & rs' & H1 & H2 & H3 & H4 & H5 & H6 & H7).
    split; [done|]. exists q, h', rs'. rewrite get_put_cbs_ne by (intros [= ->]; by apply (Hdead e)). done.
  - eapply Forall2_impl; [exact Hp|]. intros p es [Hlt Hat]. split; [done|]. eapply promise_at_eq; [..|exact Hat]; [done|].
    by rewrite get_put_cbs_ne.
Qed.

(** ** Resolving *)

Lemma fire_empty_list cl fuel l this args s : get_cbs l s = waiting [] -> (2 <= fuel)%nat ->
  exists c, fire cl fuel l this args s = (Ok tt, put_cbs l c s) /\ fired c = true.
Proof.
  intros El Hf. exists (after_run (waiting []) this args). split; [|done]. unfold fire.
  rewrite (fire_in_order_aux get_cbs put_cbs get_put_cbs put_put_cbs cl QUndef q_is_false fuel l [] this args s);
    rewrite ?El; try done.
  cbn [call_all]. by rewrite !put_put_cbs.
Qed.

Lemma resolve_shows cl fuel x p rs ps K a s : (2 <= fuel)%nat -> p ∈ ps -> shows x (p :: rs) ps K a s ->
  exists s', resolve cl fuel p s = (Ok tt, s') /\ shows x rs ps K a s' /\ priv s' = priv s
    /\ forall h, get_cbs (LEmpty h) s' = get_cbs (LEmpty h) s.
Proof.
  intros Hf Hp Hs. pose proof (sh_promises _ _ _ _ _ _ Hs) as Hps.
  apply list_elem_of_lookup in Hp as [i Hi]. destruct (Forall2_lookup_l _ _ _ _ _ Hps Hi) as (es & _ & Hlt & Hat).
  set (n := (length es + count p rs)%nat). rewrite count_occ_cons_eq in Hat by done.
  replace (length es + S (count p rs))%nat with (S n) in Hat by (unfold n; lia).
  destruct Hat as [[all Ep] Ec]. rewrite decide_False in Ec by done.
  set (s1 := set_promises (alter (fun r => Promise (p_count r - 1) (p_elements r)) p (promises s)) s).
  assert (promises s1 !! p = Some (Promise (Z.of_nat n) all)) as E1.
  { unfold s1. cbn [promises set_promises]. rewrite lookup_alter_eq, Ep. cbn. do 2 f_equal. lia. }
  assert (exists s', resolve cl fuel p s = (Ok tt, s') /\ promises s' = promises s1 /\ promise_at p n s'
    /\ (forall l, l <> LDone p -> get_cbs l s' = get_cbs l s)
    /\ priv s' = priv s /\ arrays s' = arrays s /\ next_id s' = next_id s /\ output s' = output s) as (s' & E & Es1 & Hn & Hls & F1 & F2 & F3 & F4).
  { unfold resolve. rewrite sm_mod_bind, sm_get_bind. fold s1. rewrite E1. cbn [default id p_count p_elements].
    destruct (decide (n = 0%nat)) as [En|En].
    - rewrite En. change (Z.of_nat 0 =? 0) with true. cbn [sm_when].
      destruct (fire_empty_list cl fuel (LDone p) (QElems all) [QElems all] s1) as (c & Ef & Hc); [done|done|].
      rewrite Ef. eexists. split; [reflexivity|]. split_and!; try done.
      + split; [exists all; by rewrite <-En in *|]. rewrite decide_True by done. by rewrite get_put_cbs.
      + intros l Hl. by rewrite get_put_cbs_ne.
    - rewrite (proj2 (Z.eqb_neq _ 0)) by lia. cbn [sm_when]. exists s1. split_and!; try done.
      split; [by exists all|]. by rewrite decide_False. }
  exists s'. split_and!; [done| |done|by intros h; apply Hls].
  destruct Hs as [Hst Hb Hid Ha Hh _ Hnd Ho]. split; rewrite ?F1, ?F4; try done.
  - intros e w E'. destruct (Hb e w E') as (Hacc & q & h & rs' & H1 & H2 & H3 & H4 & H5 & H6 & H7).
    split; [done|]. exists q, h, rs'. unfold array. rewrite F1, F2, F3, Hls by done. done.
  - eapply Forall2_impl; [exact Hps|]. intros p' es' [Hlt' Hat']. rewrite F3. split; [done|].
    destruct (decide (p' = p)) as [->|Hne].
    + rewrite count_occ_cons_eq in Hat' by done. destruct Hat' as [[all' Ep'] _].
      assert (Z.of_nat (S n) = Z.of_nat (length es' + S (count p rs))) by congruence.
      replace (length es' + count p rs)%nat with n by lia. done.
    + rewrite count_occ_cons_neq in Hat' by done. eapply promise_at_eq; [..|exact Hat'].
      * rewrite Es1. unfold s1. cbn [promises set_promises]. by rewrite lookup_alter_ne.
      * apply Hls. naive_solver.
Qed.
End steps.

(** ** Running queues of effects

    A queue that runs empty, functions that start one after the other, and the
    calls of the page: each follows the specification. *)

Section run.
Context `{Owners} (user : N -> qval -> list qval -> qprog).

(** ** A queue runs empty *)

(** The first callback of the hooks makes the state show [a], without the hooks
    [h]; the calls of [resolve] for [rs] are to follow. *)
Definition finishing (e h : nat) (rs ps : list nat) (K : nat) (a : aqueue) (s : qstate) : Prop :=
  exists d, remove e (RemArr [qkey; hkey]) (priv s) = (Ok tt, d) /\ shows None rs ps K a (set_priv d s)
    /\ (forall e', look d e' hkey <> PHooks h) /\ Forall (fun p => p ∈ ps) rs.

(** What holds between the calls of the callbacks [fs] of the hooks. *)
Definition firing_inv (e h : nat) (ps : list nat) (K : nat) (a : aqueue) (fs : list fn) (s : qstate) : Prop :=
  (exists rs, fs = callbacks_of e rs /\ finishing e h rs ps K a s)
  \/ (exists rs, fs = List.map FResolve rs /\ Forall (fun p => p ∈ ps) rs /\ shows None rs ps K a s
        /\ forall e', look (priv s) e' hkey <> PHooks h).

Lemma firing_inv_put e h ps K a fs c s : firing_inv e h ps K a fs s -> firing_inv e h ps K a fs (put_cbs (LEmpty h) c s).
Proof.
  intros [(rs & -> & d & E & Hs & Hd & Hrs)|(rs & -> & Hrs & Hs & Hd)].
  - left. exists rs. split; [done|]. exists d. split_and!; [done| |done|done].
    change (set_priv d (put_cbs (LEmpty h) c s)) with (put_cbs (LEmpty h) c (set_priv d s)). by apply shows_dead.
  - right. exists rs. split_and!; [done|done| |done]. by apply shows_dead.
Qed.

Lemma firing_inv_call n e h ps K a f fs this args s : (3 <= n)%nat -> firing_inv e h ps K a (f :: fs) s ->
  exists v s', call user n f this args s = (Ok v, s') /\ get_cbs (LEmpty h) s' = get_cbs (LEmpty h) s
    /\ firing_inv e h ps K a fs s' /\ q_is_false v && o_stopOnFalse (opts (get_cbs (LEmpty h) s)) = false.
Proof.
  intros Hn. destruct n as [|n]; [lia|]. intros [(rs & E & d & Ed & Hs & Hd & Hrs)|(rs & E & Hrs & Hs & Hd)].
  - injection E as -> ->. exists QUndef, (set_priv d s). split_and!; [|done| |done].
    + cbn [call]. unfold call_closure. rewrite (sm_bind_eq _ _ s (Ok tt) (set_priv d s)); [done|].
      unfold on_data. by rewrite qkey_eq, hkey_eq, Ed.
    + right. by exists rs.
  - destruct rs as [|p rs]; [done|]. injection E as -> ->. apply Forall_cons in Hrs as [Hp Hrs].
    destruct (resolve_shows (call user n) n None p rs ps K a s ltac:(lia) Hp Hs) as (s' & E & Hs' & Ep & Eh).
    exists QUndef, s'. split_and!; [|done| |done].
    + cbn [call]. unfold call_closure. by rewrite (sm_bind_eq _ _ _ _ _ E).
    + right. exists rs. rewrite Ep. done.
Qed.

(** Firing the hooks. *)
Lemma fire_hooks n fuel e h rs ps K a this args s : (3 <= n)%nat -> (length rs + 3 <= fuel)%nat ->
  get_cbs (LEmpty h) s = waiting (callbacks_of e rs) -> finishing e h rs ps K a s ->
  exists s', fire (call user n) fuel (LEmpty h) this args s = (Ok tt, s') /\ shows None [] ps K a s'.
Proof.
  intros Hn Hf Eh Hfin. unfold fire.
  destruct (fire_pass get_cbs put_cbs get_put_cbs put_put_cbs (call user n) QUndef q_is_false (LEmpty h)
    (firing_inv e h ps K a) (firing_inv_put e h ps K a) (fun f fs this args s => firing_inv_call n e h ps K a f fs this args s Hn)
    fuel (callbacks_of e rs) this args s) as (s' & E & _ & Hs'); rewrite ?Eh; try done.
  - left. by exists rs.
  - unfold callbacks_of. cbn [length]. rewrite length_map. lia.
  - exists s'. split; [done|]. destruct Hs' as [(rs' & [=] & _)|(rs' & Hrs & _ & Hs' & _)]. by destruct rs'.
Qed.

(** *** The two ways to get there *)

Lemma look_cache (st : dstore pval) e k v : look st e k = v -> v <> PUndef -> exists c, expandos st !! e = Some c.
Proof. unfold look. destruct (expandos st !! e) as [c|]; [by exists c|]. intros <-. done. Qed.

Lemma names_of_queue (st : dstore pval) e c : expandos st !! e = Some c -> names_removed st e (RemArr [qkey; hkey]) = [qkey; hkey].
Proof. intros E. unfold names_removed. rewrite E. cbn [removed_names List.map]. by rewrite camel_qkey, camel_hkey. Qed.

(** Removing the data of a queue. *)
Lemma remove_queue e (st : dstore pval) : store_ok st -> (exists c, expandos st !! e = Some c) ->
  exists d, remove e (RemArr [qkey; hkey]) st = (Ok tt, d) /\ store_ok d
    /\ look d e qkey = PUndef /\ look d e hkey = PUndef
    /\ forall e' k, e' <> e -> look d e' k = look st e' k.
Proof.
  intros Hst [c Ec]. destruct (remove_spec e (RemArr [qkey; hkey]) st Hst ltac:(done)) as (d & E & Hd & Hl & Hl').
  exists d. rewrite (names_of_queue st e c Ec) in Hl. split_and!; [done|done| | |by intros e' k; apply Hl'].
  - rewrite Hl by (by rewrite camel_qkey, qkey_member). rewrite camel_qkey, decide_True; [done|]. split; [done|by left].
  - rewrite Hl by (by rewrite camel_hkey, hkey_member). rewrite camel_hkey, decide_True; [done|]. split; [done|by right; left].
Qed.

(** A busy element. *)
Lemma finish_busy e w q h rs ps K a s : shows (Some e) [] ps K a s -> busy a !! e = Some w ->
  look (priv s) e qkey = PArr q -> look (priv s) e hkey = PHooks h ->
  get_cbs (LEmpty h) s = waiting (callbacks_of e rs) ->
  finishing e h rs ps K (run_empty e a) s.
Proof.
  intros Hs Ew Hq Hh Ers. destruct Hs as [Hst Hb Hid Ha Hhs Hp Hnd Ho].
  destruct (remove_queue e (priv s) Hst) as (d & E & Hd & Dq & Dh & Dl).
  { by eapply look_cache. }
  assert (Forall (fun p => p ∈ ps) rs
    /\ forall i p es, ps !! i = Some p -> pending a !! i = Some es -> count p rs = count e es) as [Hrs Hcount].
  { destruct (Hb e w Ew) as (_ & q' & h' & rs' & H1 & H2 & _ & _ & _ & H6 & H7 & H8 & _).
    assert (h' = h) as -> by congruence. rewrite Ers in H6. injection H6 as H6.
    assert (rs' = rs) as ->; [|done].
    clear -H6. revert rs' H6. induction rs as [|r rs IH]; intros [|r' rs'] H6; try done. cbn in H6. injection H6 as -> H6.
    f_equal. by apply IH. }
  exists d. split_and!; [done| | |done].
  - split; cbn [priv set_priv run_empty busy pending done_]; try done.
    + intros e' w' [Hne E']%lookup_delete_Some.
      destruct (Hb e' w' E') as (Hacc & q' & h' & rs' & H1 & H2 & H3 & H4 & H5 & H6 & H7 & H8 & H9).
      split; [done|]. exists q', h', rs'. cbn [priv set_priv run_empty pending]. rewrite !Dl by done. split_and!; try done.
      * right. destruct H5 as [[= ?]|H5]; [done|]. done.
      * intros i p es Hi Hes. rewrite list_lookup_fmap in Hes. destruct (pending a !! i) as [es'|] eqn:Ees; [|done].
        injection Hes as <-. rewrite count_other_than by done. by eapply H8.
    + intros e' E'. destruct (decide (e' = e)) as [->|Hne].
      * split_and!; [done|done|]. apply Forall_fmap, Forall_forall. intros es _. cbn. by intros [_ ?]%elem_of_other_than.
      * rewrite lookup_delete_ne in E' by done. destruct (Hid e' E') as (I1 & I2 & I3). rewrite !Dl by done.
        split_and!; [done|done|]. apply Forall_fmap. eapply Forall_impl; [exact I3|]. intros es Hes. cbn.
        intros [? _]%elem_of_other_than. by apply Hes.
    + intros e1 e2 q' Q1 Q2. destruct (decide (e1 = e)) as [->|N1]; [congruence|]. destruct (decide (e2 = e)) as [->|N2]; [congruence|].
      rewrite Dl in Q1, Q2 by done. by eapply Ha.
    + intros e1 e2 q' Q1 Q2. destruct (decide (e1 = e)) as [->|N1]; [congruence|]. destruct (decide (e2 = e)) as [->|N2]; [congruence|].
      rewrite Dl in Q1, Q2 by done. by eapply Hhs.
    + apply Forall2_same_length_lookup. split; [rewrite length_fmap; by eapply Forall2_length|].
      intros i p es Hi Hes. rewrite list_lookup_fmap in Hes. destruct (pending a !! i) as [es'|] eqn:Ees; [|done].
      injection Hes as <-. destruct (Forall2_lookup_lr _ _ _ _ _ _ Hp Hi Ees) as [Hlt Hat]. split; [done|].
      rewrite (Hcount i p es' Hi Ees), <-length_other_than. cbn [count_occ] in Hat. by rewrite Nat.add_0_r in Hat.
  - intros e' He'. destruct (decide (e' = e)) as [->|Hne]; [congruence|]. rewrite Dl in He' by done.
    apply Hne. by eapply Hhs.
Qed.

(** An idle element, for which hooks were made in vain. *)
Lemma finish_idle e h ps K a s s' : shows None [] ps K a s -> busy a !! e = None -> extends s s' ->
  (next_id s <= h)%nat -> (exists c, expandos (priv s') !! e = Some c) ->
  (forall e' k, e' <> e -> look (priv s') e' k = look (priv s) e' k) ->
  finishing e h [] ps K a s'.
Proof.
  intros Hs E Hex Hh Hc Hl. destruct (remove_queue e (priv s') (ex_store _ _ Hex) Hc) as (d & Ed & Hd & Dq & Dh & Dl).
  exists d. destruct (sh_idle _ _ _ _ _ _ Hs e E) as (I1 & I2 & _).
  assert (forall e', look d e' qkey = look (priv s) e' qkey /\ look d e' hkey = look (priv s) e' hkey) as Hd'.
  { intros e'. destruct (decide (e' = e)) as [->|Hne]; [by rewrite Dq, Dh|]. by rewrite !Dl, !Hl. }
  split_and!; [done| | |done].
  - eapply shows_extends; [|exact Hd'|exact Hs]. by destruct Hex.
  - intros e' He'. rewrite (proj2 (Hd' e')) in He'. destruct (busy a !! e') as [w|] eqn:Ew.
    + destruct (sh_busy _ _ _ _ _ _ Hs e' w Ew) as (_ & q' & h' & rs' & _ & H2 & _ & H4 & _).
      assert (h' = h) as -> by congruence. lia.
    + destruct (sh_idle _ _ _ _ _ _ Hs e' Ew) as (_ & H2 & _). congruence.
Qed.
End run.
