(* ===== verification/QueueOps.v ===== *)
(** * The operations on queues of effects

    [queue], [_queueHooks] and [dequeue] evaluated, and the simulation of the
    specification: every call of the page does what the step of the specification
    says. *)

From S2P Require Import Prelude JsNum JsVal Callbacks CallbacksFacts CallbacksProps ElemData ElemDataFacts Queue QueueFacts QueueSteps.

Section ops.
Context `{Owners}.

(** ** Evaluation *)

Lemma list_add_waiting cl fuel l f fs s : get_cbs l s = waiting fs ->
  list_add cl fuel l f s = (Ok tt, put_cbs l (waiting (fs ++ [f])) s).
Proof.
  intros E. unfold list_add, add. rewrite sm_get_bind, E. cbn [lst waiting].
  rewrite (sm_bind_eq _ _ s (Ok tt) (put_cbs l (waiting (fs ++ [f])) s)); [done|].
  unfold upd, sm_mod. by rewrite E.
Qed.

Lemma hooks_existing cl fuel e h s : look (priv s) e hkey = PHooks h -> _queueHooks cl fuel e fx s = (Ok h, s).
Proof. intros E. unfold _queueHooks. rewrite hkey_eq, (sm_bind_eq _ _ _ _ _ (get_data _ _ _)), E. done. Qed.

(** Looking up after a write of [access]. *)
Lemma access_data e k v s : store_ok (priv s) -> acceptData e = true -> camelCase k = k -> object_member k = None ->
  v <> PUndef -> exists d, on_data (access e (KStr k) v) s = (Ok (RValue v), set_priv d s) /\ store_ok d
    /\ (exists c, expandos d !! e = Some c)
    /\ look d e k = v
    /\ (forall k', camelCase k' = k' -> object_member k' = None -> k' <> k -> look d e k' = look (priv s) e k')
    /\ (forall e' k', e' <> e -> look d e' k' = look (priv s) e' k').
Proof.
  intros Hst Ha Hk Hm Hv. assert (camelCase k <> str "__proto__") as Hp by (rewrite Hk; by intros ->).
  destruct (set_spec e k v (priv s) Hst Ha Hp) as (c & d & E & Hd & Hc & Hl & Hl' & _).
  destruct (cache_spec e (priv s) Hst Ha) as (_ & _ & _ & _ & Hw & _).
  exists d. split_and!; [|done|by exists c| | |done].
  - unfold on_data, access. replace (d_is_undef v) with false by (by destruct v). rewrite andb_false_r.
    rewrite (sm_bind_eq _ _ _ _ _ E). done.
  - rewrite Hl. by rewrite decide_True.
  - intros k' Hk' Hm' Hne. rewrite Hl, decide_False by congruence. apply Hw. by rewrite Hk'.
Qed.

Lemma extends_priv d s : store_ok d -> extends s (set_priv d s).
Proof. intros Hd. by split. Qed.

(** New hooks. *)
Lemma hooks_new cl fuel e s : store_ok (priv s) -> acceptData e = true -> look (priv s) e hkey = PUndef ->
  exists s', _queueHooks cl fuel e fx s = (Ok (next_id s), s') /\ extends s s' /\ arrays s' = arrays s
    /\ next_id s' = S (next_id s) /\ promises s' = promises s
    /\ get_cbs (LEmpty (next_id s)) s' = waiting [FRemove e fx]
    /\ (exists c, expandos (priv s') !! e = Some c) /\ look (priv s') e hkey = PHooks (next_id s)
    /\ look (priv s') e qkey = look (priv s) e qkey
    /\ (forall e' k', e' <> e -> look (priv s') e' k' = look (priv s) e' k').
Proof.
  intros Hst Ha E. unfold _queueHooks. rewrite hkey_eq, (sm_bind_eq _ _ _ _ _ (get_data _ _ _)), E.
  set (h := next_id s). set (s1 := set_next (S h) s).
  rewrite (sm_bind_eq _ _ s (Ok h) s1) by done. rewrite sm_mod_bind.
  set (s2 := put_cbs (LEmpty h) (new_cbs once_memory) s1).
  rewrite (sm_bind_eq _ _ s2 _ _ (list_add_waiting cl fuel (LEmpty h) (FRemove e fx) [] s2 (get_put_cbs _ _ _))).
  set (s3 := put_cbs (LEmpty h) (waiting ([] ++ [FRemove e fx])) s2).
  destruct (access_data e hkey (PHooks h) s3 Hst Ha camel_hkey hkey_member ltac:(done)) as (d & Ed & Hd & Hc & D1 & D2 & D3).
  rewrite (sm_bind_eq _ _ _ _ _ Ed). exists (set_priv d s3). split_and!; try done.
  - split; try done.
    + cbn. unfold h. lia.
    + intros h' Hh'. change (get_cbs (LEmpty h') (set_priv d s3)) with (get_cbs (LEmpty h') s3). unfold s3, s2.
      rewrite !get_put_cbs_ne by (intros [= ->]; unfold h in Hh'; lia). done.
    + intros p Hp. split; [done|]. change (get_cbs (LDone p) (set_priv d s3)) with (get_cbs (LDone p) s3). unfold s3, s2.
      by rewrite !get_put_cbs_ne.
  - change (get_cbs (LEmpty h) (set_priv d s3)) with (get_cbs (LEmpty h) s3). unfold s3. by rewrite get_put_cbs.
  - apply D2; [apply camel_qkey|apply qkey_member|apply qkey_hkey].
Qed.

(** A new array for a queue. *)
Lemma queue_replace e l data s : store_ok (priv s) -> acceptData e = true ->
  (data = DArr l \/ look (priv s) e qkey = PUndef /\ exists i, data = DItem i /\ l = [i] /\ item_truthy i = true) ->
  exists s', queue e fx (Some data) s = (Ok (next_id s), s') /\ extends s s' /\ array s' (next_id s) = l
    /\ next_id s' = S (next_id s) /\ lists s' = lists s /\ promises s' = promises s
    /\ (exists c, expandos (priv s') !! e = Some c) /\ look (priv s') e qkey = PArr (next_id s)
    /\ look (priv s') e hkey = look (priv s) e hkey
    /\ (forall e' k', e' <> e -> look (priv s') e' k' = look (priv s) e' k').
Proof.
  intros Hst Ha Hdata. set (a := next_id s). set (s1 := set_arrays (<[a := l]> (arrays s)) (set_next (S a) s)).
  destruct (access_data e qkey (PArr a) s1 Hst Ha camel_qkey qkey_member ltac:(done)) as (d & Ed & Hd & Hc & D1 & D2 & D3).
  exists (set_priv d s1). split_and!; try done.
  - unfold queue. rewrite or_fx_fx, qkey_eq, (sm_bind_eq _ _ _ _ _ (get_data _ _ _)).
    assert (((a0 ← new_array l; on_data (access e (KStr qkey) (PArr a0)) ;; mret a0) : SM qstate nat) s = (Ok a, set_priv d s1)) as E.
    { rewrite (sm_bind_eq _ _ s (Ok a) s1) by done. by rewrite (sm_bind_eq _ _ _ _ _ Ed). }
    destruct Hdata as [->|(El & i & -> & -> & Hi)]; cbv zeta; [done|]. by rewrite El, Hi.
  - split; try done; cbn; [unfold a; lia|]. intros q Hq. unfold array. cbn. rewrite lookup_insert_ne; [done|]. unfold a. lia.
  - unfold array. cbn [arrays set_priv s1 set_arrays]. by rewrite lookup_insert_eq.
  - apply D2; [apply camel_hkey|apply hkey_member|apply not_eq_sym, qkey_hkey].
Qed.

Lemma queue_read e q s : look (priv s) e qkey = PArr q -> queue e fx None s = (Ok q, s).
Proof. intros E. unfold queue. rewrite or_fx_fx, qkey_eq, (sm_bind_eq _ _ _ _ _ (get_data _ _ _)), E. done. Qed.

(** [dequeue] on a queue with a function to call. *)
Lemma dequeue_call cl fuel e q h f l s :
  look (priv s) e qkey = PArr q -> look (priv s) e hkey = PHooks h ->
  (array s q = IFn f :: l \/ array s q = IProgress :: IFn f :: l) ->
  dequeue cl fuel e fx s
  = (cl f (QElem e) [QFn (FNext e fx); QHooks h] ;; mret tt)
      (set_stops (delete h (stops s)) (set_arrays (<[q := IProgress :: l]> (arrays s)) s)).
Proof.
  intros Hq Hh Hl. unfold dequeue. rewrite or_fx_fx, (sm_bind_eq _ _ _ _ _ (queue_read e q s Hq)), sm_get_bind.
  set (s1 := set_arrays (<[q := tail (array s q)]> (arrays s)) s).
  rewrite (sm_bind_eq _ _ s (Ok (head (array s q))) s1) by done.
  rewrite (sm_bind_eq _ _ _ _ _ (hooks_existing cl fuel e h s1 Hh)).
  set (s2 := set_arrays (<[q := l]> (arrays s)) s).
  rewrite (sm_bind_eq _ _ s1 (Ok (Some (IFn f), S (length l))) s2).
  - cbv beta iota. cbn [item_truthy sm_when Nat.eqb]. rewrite bool_decide_eq_true_2 by done. cbn [sm_when].
    set (s3 := set_arrays (<[q := IProgress :: l]> (arrays s)) s).
    assert (upd_array q (cons IProgress) s2 = (Ok tt, s3)) as E3.
    { unfold upd_array, sm_mod. unfold array, s2, s3, set_arrays. cbn [arrays].
      by rewrite lookup_insert_eq, insert_insert_eq. }
    unfold mbind, sm_bind. rewrite E3. unfold sm_mod. cbn [call_item]. unfold mbind, sm_bind.
    by destruct (cl f _ _ _) as [[v|x|] t].
  - destruct Hl as [Hl|Hl].
    + unfold s1, s2. rewrite Hl. cbn [head tail length]. done.
    + rewrite Hl. cbn [head tail length].
      assert (shift q s1 = (Ok (Some (IFn f)), s2)) as E.
      { unfold shift. rewrite sm_get_bind. unfold upd_array. rewrite sm_mod_bind. unfold s1, s2, array, set_arrays. cbn [arrays].
        rewrite lookup_insert_eq, insert_insert_eq. fold (array s q). by rewrite Hl. }
      rewrite (sm_bind_eq _ _ _ _ _ E). unfold mret, sm_ret. by rewrite Nat.sub_succ, Nat.sub_0_r.
Qed.

(** [dequeue] on a queue without one. *)
Lemma dequeue_empty cl fuel e q h s :
  look (priv s) e qkey = PArr q -> look (priv s) e hkey = PHooks h ->
  (array s q = [] \/ array s q = [IProgress]) ->
  dequeue cl fuel e fx s
  = fire cl fuel (LEmpty h) (QList (LEmpty h)) [] (set_arrays (<[q := []]> (arrays s)) s).
Proof.
  intros Hq Hh Hl. unfold dequeue. rewrite or_fx_fx, (sm_bind_eq _ _ _ _ _ (queue_read e q s Hq)), sm_get_bind.
  set (s1 := set_arrays (<[q := tail (array s q)]> (arrays s)) s).
  rewrite (sm_bind_eq _ _ s (Ok (head (array s q))) s1) by done.
  rewrite (sm_bind_eq _ _ _ _ _ (hooks_existing cl fuel e h s1 Hh)).
  set (s2 := set_arrays (<[q := []]> (arrays s)) s).
  rewrite (sm_bind_eq _ _ s1 (Ok (None, 0%nat)) s2); [done|].
  destruct Hl as [Hl|Hl].
  - unfold s1, s2. rewrite Hl. done.
  - rewrite Hl. cbn [head tail length].
    assert (shift q s1 = (Ok None, s2)) as E.
    { unfold shift. rewrite sm_get_bind. unfold upd_array. rewrite sm_mod_bind. unfold s1, s2, array, set_arrays. cbn [arrays].
      rewrite lookup_insert_eq, insert_insert_eq. fold (array s q). by rewrite Hl. }
    rewrite (sm_bind_eq _ _ _ _ _ E). done.
Qed.

(** [dequeue] where there is no queue: hooks are made and fired. *)
Lemma dequeue_idle cl fuel e s :
  store_ok (priv s) -> acceptData e = true ->
  look (priv s) e qkey = PUndef -> look (priv s) e hkey = PUndef ->
  exists h s', dequeue cl fuel e fx s = fire cl fuel (LEmpty h) (QList (LEmpty h)) [] s'
    /\ extends s s' /\ (next_id s <= h)%nat /\ get_cbs (LEmpty h) s' = waiting [FRemove e fx]
    /\ (exists c, expandos (priv s') !! e = Some c)
    /\ (forall e' k', e' <> e -> look (priv s') e' k' = look (priv s) e' k').
Proof.
  intros Hst Ha Hq Hh. set (a := next_id s). set (s1 := set_arrays (<[a := []]> (arrays s)) (set_next (S a) s)).
  assert (queue e fx None s = (Ok a, s1)) as E1.
  { unfold queue. rewrite or_fx_fx, qkey_eq, (sm_bind_eq _ _ _ _ _ (get_data _ _ _)), Hq. done. }
  unfold dequeue. rewrite or_fx_fx, (sm_bind_eq _ _ _ _ _ E1), sm_get_bind.
  assert (array s1 a = []) as El by (unfold array, s1; cbn [arrays set_arrays]; by rewrite lookup_insert_eq).
  set (s2 := set_arrays (<[a := []]> (arrays s1)) s1).
  rewrite (sm_bind_eq _ _ s1 (Ok None) s2); [|by unfold shift, upd_array; rewrite sm_get_bind, sm_mod_bind, El].
  destruct (hooks_new cl fuel e s2 Hst Ha Hh) as (s' & E & Hex & _ & _ & _ & Hcb & Hc & Hl1 & Hl2 & Hl3).
  rewrite (sm_bind_eq _ _ _ _ _ E). rewrite El. exists (next_id s2), s'. split_and!; [done| | |done|done|done].
  - eapply extends_trans; [|exact Hex]. split; try done; [cbn; unfold a; lia|].
    intros q Hlt. unfold array, s2, s1. cbn [arrays set_arrays]. rewrite !lookup_insert_ne by (unfold a; lia). done.
  - cbn. unfold a. lia.
Qed.
End ops.
