(* ===== verification/QueueSim.v ===== *)
(** * Queues of effects follow their specification

    The simulation: every call of the page on a queue of effects does what the
    step of the specification says. *)

From S2P Require Import Prelude JsNum JsVal Callbacks CallbacksFacts CallbacksProps ElemData ElemDataFacts.
From S2P Require Import Queue QueueFacts QueueSteps QueueOps.

Section simulation.
Context `{Owners} (sync : N -> bool) (user : N -> qval -> list qval -> qprog).
Hypothesis user_worker : forall n e next h, user n (QElem e) [QFn next; QHooks h] = worker sync n next.

(** ** The functions that start *)

Lemma shows_done x rs ps K a s n : shows x rs ps K a s ->
  shows x rs ps K (AQueue (busy a) (done_ a ++ [n]) (pending a)) (set_output (output s ++ [n]) s).
Proof. intros [Hst Hb Hi Ha Hh Hp Hn Ho]. split; try done. cbn. by rewrite Ho. Qed.

Lemma advance_insert e v w a : advance sync e w (AQueue (<[e := v]> (busy a)) (done_ a) (pending a)) = advance sync e w a.
Proof.
  unfold advance. destruct (drain sync w) as [[w'|] o]; cbn [busy done_ pending run_empty].
  - by rewrite insert_insert_eq.
  - unfold run_empty; cbn [busy done_ pending]. by rewrite delete_insert_eq.
Qed.

Lemma advance_cons e n w a : advance sync e (n :: w) a
  = let a' := AQueue (<[e := w]> (busy a)) (done_ a ++ [n]) (pending a) in
    if sync n then advance sync e w a' else a'.
Proof.
  cbv zeta. unfold advance at 1. cbn [drain]. destruct (sync n); [|done]. unfold advance.
  destruct (drain sync w) as [[w'|] o]; cbn [busy done_ pending].
  - by rewrite insert_insert_eq, <-app_assoc.
  - unfold run_empty; cbn [busy done_ pending]. by rewrite delete_insert_eq, <-app_assoc.
Qed.

(** The state before a function is called, and when it did its work. *)
Lemma shows_start_fn e q h n w ps K a s : shows (Some e) [] ps K a s -> busy a !! e = Some (n :: w) ->
  look (priv s) e qkey = PArr q ->
  let s1 := set_stops (delete h (stops s)) (set_arrays (<[q := IProgress :: fns w]> (arrays s)) s) in
  shows None [] ps K (AQueue (<[e := w]> (busy a)) (done_ a ++ [n]) (pending a)) (set_output (output s1 ++ [n]) s1)
  /\ array (set_output (output s1 ++ [n]) s1) q = IProgress :: fns w.
Proof.
  intros Hs Ew Hq s1. set (s2 := set_arrays (<[q := IProgress :: fns w]> (arrays s)) s).
  assert (array s2 q = IProgress :: fns w) as El by (unfold array, s2; cbn [arrays set_arrays]; by rewrite lookup_insert_eq).
  split; [|exact El].
  pose proof (shows_done None [] ps K (AQueue (<[e := w]> (busy a)) (done_ a) (pending a)) s1 n) as Hd.
  cbn [busy done_ pending] in Hd. apply Hd. unfold s1. apply shows_stops.
  apply (shows_settle e [] ps K _ s2 q w Hq); [cbn [busy]; by rewrite lookup_insert_eq|done|].
  apply (shows_busy e w (n :: w) [] ps K K); [done|done|cbn; lia|]. by apply shows_array.
Qed.

(** [dequeue] on a queue in progress, or on one that is about to start. *)
Lemma dequeue_shows w : forall n e q ps K a s, shows (Some e) [] ps K a s -> busy a !! e = Some w ->
  look (priv s) e qkey = PArr q -> (array s q = fns w \/ array s q = IProgress :: fns w) ->
  (2 * length w + K + 4 <= n)%nat ->
  exists s', dequeue (call user n) n e fx s = (Ok tt, s') /\ shows None [] ps K (advance sync e w a) s'.
Proof.
  induction w as [|m w IH]; intros n e q ps K a s Hs Ew Hq Hl Hn.
  all: destruct (sh_busy _ _ _ _ _ _ Hs e _ Ew) as (Hacc & q' & h & rs & H1 & H2 & _ & _ & _ & H6 & _ & _ & H9).
  - rewrite (dequeue_empty _ _ e q h s Hq H2 Hl). unfold advance. cbn [drain].
    pose proof (shows_array e [] ps K a s q [] Hq Hs) as Hs1. rewrite app_nil_r.
    replace (AQueue (busy a) (done_ a) (pending a)) with a by (by destruct a).
    eapply (fire_hooks user n n e h rs ps K (run_empty e a)); [lia|cbn in H9; lia|exact H6|].
    by eapply (finish_busy e [] q h rs ps K a).
  - destruct (shows_start_fn e q h m w ps K a s Hs Ew Hq) as [Hs1 El1].
    rewrite (dequeue_call _ _ e q h (FUser m) (fns w) s Hq H2) by (by destruct Hl; [left|right]).
    set (s1 := set_stops _ _) in *. set (s2 := set_output (output s1 ++ [m]) s1) in *.
    destruct n as [|n]; [cbn in Hn; lia|]. cbn [call]. rewrite user_worker, advance_cons. cbv zeta.
    unfold worker. cbn [run_prog]. unfold mbind at 1, sm_bind at 1. cbn [run_prog].
    change (do_op (call user n) n (OOutput m) s1) with (Ok QUndef : res qval, s2). cbv iota beta.
    destruct (sync m); cbn [run_prog].
    + cbn [do_op]. destruct n as [|n]; [cbn in Hn; lia|]. cbn [call]. unfold call_closure.
      destruct (IH n e q ps K (AQueue (<[e:=w]> (busy a)) (done_ a ++ [m]) (pending a)) s2) as (s3 & E3 & Hs3).
      * eapply shows_weaken; [by left|reflexivity|exact Hs1].
      * cbn [busy]. by rewrite lookup_insert_eq.
      * done.
      * by right.
      * cbn [length] in Hn. lia.
      * rewrite (sm_bind_eq _ _ _ _ _ E3). exists s3. done.
    + exists s2. done.
Qed.

(** ** A new array for an element *)

Lemma count_idle e (a : aqueue) i es : Forall (fun es => e ∉ es) (pending a) -> pending a !! i = Some es -> count e es = 0%nat.
Proof. intros Hf Hi. apply count_none. by apply (Forall_lookup_1 _ _ _ _ Hf Hi). Qed.

Lemma replace_shows n e w data ps K a s : shows None [] ps K a s -> acceptData e = true ->
  (data = DArr (fns w) \/ busy a !! e = None /\ exists m, data = DItem (IFn (FUser m)) /\ w = [m]) ->
  exists q h s1 s2, queue e fx (Some data) s = (Ok q, s1) /\ _queueHooks (call user n) n e fx s1 = (Ok h, s2)
    /\ look (priv s2) e qkey = PArr q /\ array s2 q = fns w
    /\ shows (Some e) [] ps (K + 2 * length w) (AQueue (<[e := w]> (busy a)) (done_ a) (pending a)) s2.
Proof.
  intros Hs Hacc Hdata. pose proof (sh_store _ _ _ _ _ _ Hs) as Hst. set (q := next_id s).
  destruct (queue_replace e (fns w) data s Hst Hacc) as (s1 & E1 & Hex1 & El1 & En1 & _ & Ep1 & Hc1 & Hq1 & Hh1 & Ho1).
  { destruct Hdata as [->|(Ei & m & -> & ->)]; [by left|right]. split; [|by exists (IFn (FUser m))].
    by apply (sh_idle _ _ _ _ _ _ Hs). }
  assert (exists h rs s2, _queueHooks (call user n) n e fx s1 = (Ok h, s2) /\ extends s1 s2 /\ arrays s2 = arrays s1
    /\ look (priv s2) e hkey = PHooks h /\ look (priv s2) e qkey = PArr q
    /\ (forall e' k', e' <> e -> look (priv s2) e' k' = look (priv s) e' k')
    /\ (h < next_id s2)%nat /\ (look (priv s) e hkey = PHooks h \/ (next_id s <= h)%nat)
    /\ get_cbs (LEmpty h) s2 = waiting (callbacks_of e rs) /\ Forall (fun p => p ∈ ps) rs
    /\ (forall i p es, ps !! i = Some p -> pending a !! i = Some es -> count p rs = count e es)
    /\ (length rs <= K)%nat) as (h & rs & s2 & E2 & Hex2 & Ear & Hh2 & Hq2 & Ho2 & Hlt & Hold & Hcb & Hrs & Hcount & Hlen).
  { destruct (busy a !! e) as [w0|] eqn:Eb.
    - destruct (sh_busy _ _ _ _ _ _ Hs e w0 Eb) as (_ & q0 & h & rs & H1 & H2 & H3 & H4 & _ & H6 & H7 & H8 & H9).
      exists h, rs, s1. assert (look (priv s1) e hkey = PHooks h) as Hl by (by rewrite Hh1).
      split_and!; try done; [by apply hooks_existing|apply extends_refl, Hex1|rewrite En1; lia|by left| |lia].
      by rewrite (ex_hooks _ _ Hex1).
    - destruct (sh_idle _ _ _ _ _ _ Hs e Eb) as (I1 & I2 & I3).
      destruct (hooks_new (call user n) n e s1 (ex_store _ _ Hex1) Hacc) as (s2 & E2 & Hex2 & Ea & En2 & _ & Hcb & _ & L1 & L2 & L3); [by rewrite Hh1|].
      exists (next_id s1), [], s2. split_and!; try done.
      + by rewrite L2.
      + intros e' k' Hne. by rewrite L3, Ho1.
      + rewrite En2. lia.
      + right. rewrite En1. lia.
      + intros i p es _ Hes. by rewrite (count_idle e a i es I3 Hes).
      + cbn. lia. }
  pose proof (extends_trans _ _ _ Hex1 Hex2) as Hex. pose proof (ex_next _ _ Hex).
  assert (array s2 q = fns w) as El2 by (unfold array in *; by rewrite Ear).
  exists q, h, s1, s2. split_and!; try done.
  pose proof Hs as [_ Hb Hi Ha Hh Hp Hnd Ho]. split; cbn [busy pending done_]; try done.
  - apply Hex2.
  - intros e' w' Ew'. destruct (decide (e' = e)) as [->|Hne].
    + rewrite lookup_insert_eq in Ew'. injection Ew' as <-. split; [done|]. exists q, h, rs.
      split_and!; try done; [pose proof (ex_next _ _ Hex2); unfold q; lia|by left|lia].
    + rewrite lookup_insert_ne in Ew' by done. pose proof (Hb e' w' Ew') as Hb'.
      apply (extends_busy None ps K a s s2 e' w' Hex) in Hb'; [|by apply Ho2..].
      destruct Hb' as (Hacc' & q' & h' & rs' & H1 & H2 & H3 & H4 & H5 & H6 & H7 & H8 & H9).
      split; [done|]. exists q', h', rs'. split_and!; try done; [|lia]. by destruct H5 as [|H5]; [|right].
  - intros e' Ee'. apply lookup_insert_None in Ee' as [Ee' Hne]. rewrite !Ho2 by done. by apply Hi.
  - assert (forall e', e' <> e -> look (priv s) e' qkey <> PArr q) as Hfr.
    { intros e' Hne El. destruct (busy a !! e') as [w'|] eqn:Ew'.
      - destruct (Hb e' w' Ew') as (_ & q' & _ & _ & H1 & _ & H3 & _). assert (q' = q) as -> by congruence. unfold q in H3. lia.
      - destruct (Hi e' Ew') as [Hi' _]. congruence. }
    intros e1 e2 q' Q1 Q2. destruct (decide (e1 = e)) as [->|N1], (decide (e2 = e)) as [->|N2]; try done.
    + rewrite Hq2 in Q1. injection Q1 as <-. rewrite Ho2 in Q2 by done. by destruct (Hfr e2 N2).
    + rewrite Hq2 in Q2. injection Q2 as <-. rewrite Ho2 in Q1 by done. by destruct (Hfr e1 N1).
    + rewrite Ho2 in Q1, Q2 by done. by eapply Ha.
  - assert (forall e', e' <> e -> look (priv s) e' hkey <> PHooks h) as Hfr.
    { intros e' Hne El. destruct Hold as [Hold|Hold]; [by apply Hne, (Hh e' e h)|].
      destruct (busy a !! e') as [w'|] eqn:Ew'.
      - destruct (Hb e' w' Ew') as (_ & _ & h' & _ & _ & H2 & _ & H4 & _). assert (h' = h) as -> by congruence. lia.
      - destruct (Hi e' Ew') as (_ & Hi' & _). congruence. }
    intros e1 e2 q' Q1 Q2. destruct (decide (e1 = e)) as [->|N1], (decide (e2 = e)) as [->|N2]; try done.
    + rewrite Hh2 in Q1. injection Q1 as <-. rewrite Ho2 in Q2 by done. by destruct (Hfr e2 N2).
    + rewrite Hh2 in Q2. injection Q2 as <-. rewrite Ho2 in Q1 by done. by destruct (Hfr e1 N1).
    + rewrite Ho2 in Q1, Q2 by done. by eapply Hh.
  - by eapply extends_promises.
  - by rewrite (ex_output _ _ Hex).
Qed.
End simulation.
