(* ===== verification/QueueProps.v ===== *)
(** * The properties of queues

    The queues of effects refine their specification: functions start in order and
    one at a time, and promises are resolved when the queues they wait for have run
    empty.  A function that throws stalls its queue. *)

From S2P Require Import Prelude JsNum JsVal Callbacks CallbacksFacts CallbacksProps ElemData ElemDataFacts.
From S2P Require Import Queue QueueFacts QueueSteps QueueOps QueueSim.

Section refinement.
Context `{Owners} (sync : N -> bool) (user : N -> qval -> list qval -> qprog).
Hypothesis user_worker : forall n e next h, user n (QElem e) [QFn next; QHooks h] = worker sync n next.

(** ** The events *)

(** The elements accept data; the queues grow by so much at most. *)
Definition acceptable (ev : event) : Prop :=
  match ev with EQueue e _ | ENext e | EClear e => acceptData e = true | EPromise _ => True end.

Definition cost (ev : event) : nat :=
  match ev with EQueue _ _ => 2 | EPromise es => length es | _ => 0 end.

Lemma next_shows n e ps K a s : acceptData e = true -> (2 * K + 4 <= n)%nat -> shows None [] ps K a s ->
  exists s', dequeue (call user n) n e fx s = (Ok tt, s') /\ shows None [] ps K (step sync a (ENext e)) s'.
Proof.
  intros Hacc Hn Hs. cbn [step]. destruct (busy a !! e) as [w|] eqn:E.
  - destruct (sh_busy _ _ _ _ _ _ Hs e w E) as (_ & q & h & rs & H1 & H2 & _ & _ & [H5|H5] & H6 & _ & _ & H9); [done|].
    apply (dequeue_shows sync user user_worker w n e q ps K a s); try done; [|by right|lia].
    eapply shows_weaken; [by left|reflexivity|exact Hs].
  - destruct (sh_idle _ _ _ _ _ _ Hs e E) as (I1 & I2 & _).
    destruct (dequeue_idle (call user n) n e s (sh_store _ _ _ _ _ _ Hs) Hacc I1 I2) as (h & s1 & E1 & Hex & Hh & Hcb & Hc & Hl).
    rewrite E1. apply (fire_hooks user n n e h []); [lia|cbn; lia|done|].
    by eapply finish_idle.
Qed.

Lemma array_push q i s : array (set_arrays (<[q := array s q ++ [i]]> (arrays s)) s) q = array s q ++ [i].
Proof. unfold array at 1. cbn [arrays set_arrays]. by rewrite lookup_insert_eq. Qed.

(** Queueing, on an element whose queue is in progress and on another. *)
Lemma queue_shows n e m ps K a s : acceptData e = true -> (2 * K + 8 <= n)%nat -> shows None [] ps K a s ->
  exists s', fn_queue (call user n) n [e] fx (DItem (IFn (FUser m))) s = (Ok tt, s')
    /\ shows None [] ps (K + 2) (step sync a (EQueue e m)) s'.
Proof.
  intros Hacc Hn Hs. unfold fn_queue. cbn [sm_each step]. destruct (busy a !! e) as [w|] eqn:E.
  - destruct (sh_busy _ _ _ _ _ _ Hs e w E) as (_ & q & h & rs & H1 & H2 & _ & _ & [H5|H5] & H6 & _ & _ & H9); [done|].
    set (s1 := set_arrays (<[q := array s q ++ [IFn (FUser m)]]> (arrays s)) s).
    assert (queue e fx (Some (DItem (IFn (FUser m)))) s = (Ok q, s1)) as E1.
    { unfold queue. rewrite or_fx_fx, qkey_eq, (sm_bind_eq _ _ _ _ _ (get_data _ _ _)), H1. done. }
    assert (array s1 q = IProgress :: fns (w ++ [m])) as El.
    { unfold s1. rewrite array_push, H5. unfold fns. by rewrite map_app. }
    exists s1. split.
    + unfold mbind at 1, sm_bind at 1. rewrite (sm_bind_eq _ _ _ _ _ E1).
      rewrite (sm_bind_eq _ _ _ _ _ (hooks_existing _ _ e h s1 H2)), sm_get_bind, El.
      by rewrite andb_false_r.
    + apply (shows_settle e [] ps (K + 2) _ s1 q (w ++ [m]) H1); [cbn [busy]; by rewrite lookup_insert_eq|done|].
      apply (shows_busy e (w ++ [m]) w [] ps K (K + 2)); [done|lia|rewrite length_app; cbn; lia|].
      apply shows_array; [done|]. eapply shows_weaken; [by left|reflexivity|done].
  - destruct (replace_shows user n e [m] (DItem (IFn (FUser m))) ps K a s Hs Hacc) as (q & h & s1 & s2 & E1 & E2 & Hq & El & Hs2).
    { right. split; [done|by exists m]. }
    destruct (dequeue_shows sync user user_worker [m] n e q ps (K + 2) _ s2 Hs2) as (s3 & E3 & Hs3);
      [cbn [busy]; by rewrite lookup_insert_eq|done|by left|cbn; lia|].
    exists s3. split; [|by rewrite advance_insert in Hs3].
    unfold mbind at 1, sm_bind at 1. rewrite (sm_bind_eq _ _ _ _ _ E1), (sm_bind_eq _ _ _ _ _ E2), sm_get_bind, El.
    rewrite bool_decide_eq_true_2 by done. cbn [fns List.map andb sm_when]. by rewrite E3.
Qed.

Lemma clear_shows n e ps K a s : acceptData e = true -> (2 * K + 4 <= n)%nat -> shows None [] ps K a s ->
  exists s', fn_clearQueue (call user n) n [e] fx s = (Ok tt, s') /\ shows None [] ps K (run_empty e a) s'.
Proof.
  intros Hacc Hn Hs. unfold fn_clearQueue, fn_queue. rewrite or_fx_fx. cbn [sm_each].
  destruct (replace_shows user n e [] (DArr []) ps K a s Hs Hacc) as (q & h & s1 & s2 & E1 & E2 & Hq & El & Hs2); [by left|].
  replace (K + 2 * length (@nil N))%nat with K in Hs2 by (cbn; lia).
  destruct (dequeue_shows sync user user_worker [] n e q ps K _ s2 Hs2) as (s3 & E3 & Hs3);
    [cbn [busy]; by rewrite lookup_insert_eq|done|by left|cbn; lia|].
  exists s3. split.
  - unfold mbind at 1, sm_bind at 1. rewrite (sm_bind_eq _ _ _ _ _ E1), (sm_bind_eq _ _ _ _ _ E2), sm_get_bind, El.
    rewrite bool_decide_eq_true_2 by done. cbn [fns List.map andb sm_when]. by rewrite E3.
  - rewrite advance_insert in Hs3. unfold advance in Hs3. cbn [drain] in Hs3. rewrite app_nil_r in Hs3.
    by destruct a.
Qed.

(** ** Promises *)

Definition is_busy (a : aqueue) (e : nat) : bool := bool_decide (is_Some (busy a !! e)).

(** The specification with a promise under construction, which waits for [es]. *)
Definition with_pending (a : aqueue) (es : list nat) : aqueue := AQueue (busy a) (done_ a) (pending a ++ [es]).

Lemma promise_add_shows cl fuel p e es ps K a s : p ∉ ps ->
  shows None [p] (ps ++ [p]) K (with_pending a es) s ->
  exists s', promise_add cl fuel p fx e s = (Ok tt, s')
    /\ shows None [p] (ps ++ [p]) (S K) (with_pending a (if is_busy a e then e :: es else es)) s'.
Proof.
  intros Hnew Hs. unfold promise_add. rewrite hkey_eq, (sm_bind_eq _ _ _ _ _ (get_data _ _ _)). unfold is_busy.
  destruct (busy a !! e) as [w|] eqn:E.
  2: { rewrite bool_decide_eq_false_2 by (by intros [? ?]). destruct (sh_idle _ _ _ _ _ _ Hs e E) as (_ & -> & _).
       exists s. split; [done|]. eapply shows_weaken; [by left| |exact Hs]. lia. }
  rewrite bool_decide_eq_true_2 by done.
  destruct (sh_busy _ _ _ _ _ _ Hs e w E) as (Hacc & q & h & rs & H1 & H2 & H3 & H4 & H5 & H6 & H7 & H8 & H9). rewrite H2, sm_mod_bind.
  set (s1 := set_promises (alter (fun r => Promise (p_count r + 1) (p_elements r)) p (promises s)) s).
  assert (get_cbs (LEmpty h) s1 = waiting (callbacks_of e rs)) as Hcb by done.
  rewrite (list_add_waiting cl fuel (LEmpty h) (FResolve p) _ s1 Hcb). eexists. split; [reflexivity|].
  set (s2 := put_cbs (LEmpty h) _ s1). destruct Hs as [Hst Hb Hi Ha Hh Hp Hnd Ho].
  assert (length ps = length (pending a)) as Hlen.
  { pose proof (Forall2_length _ _ _ Hp) as Hl. cbn [pending with_pending] in Hl. rewrite !length_app in Hl. cbn in Hl. lia. }
  assert (forall i p' es', (ps ++ [p]) !! i = Some p' -> (pending a ++ [e :: es]) !! i = Some es' ->
    exists es0, (pending a ++ [es]) !! i = Some es0
      /\ (p' <> p /\ es' = es0 \/ p' = p /\ es0 = es /\ es' = e :: es)) as Hold.
  { intros i p' es' Hi1 Hi2. apply lookup_app_Some in Hi1 as [Hi1|[Hi1 Hi1']].
    - pose proof (lookup_lt_Some _ _ _ Hi1). rewrite lookup_app_l in Hi2 by lia. exists es'.
      rewrite lookup_app_l by lia. split; [done|]. left. split; [|done]. intros ->. apply Hnew. by eapply list_elem_of_lookup_2.
    - destruct (i - length ps)%nat as [|k] eqn:Ek; [|done]. injection Hi1' as <-.
      rewrite lookup_app_r in * by lia. replace (i - length (pending a))%nat with 0%nat in * by lia.
      injection Hi2 as <-. exists es. split; [done|]. by right. }
  split; cbn [busy pending done_ with_pending]; try done.
  - intros e' w' Ew'. destruct (Hb e' w' Ew') as (Hacc' & q' & h' & rs' & G1 & G2 & G3 & G4 & G5 & G6 & G7 & G8 & G9).
    split; [done|]. destruct (decide (e' = e)) as [->|Hne].
    + assert (h' = h) as -> by congruence. assert (rs' = rs) as ->.
      { rewrite G6 in H6. injection H6 as H6. clear -H6. revert rs H6. induction rs' as [|r' rs' IH]; intros [|r rs] H6; try done.
        cbn in H6. injection H6 as -> H6. f_equal. by apply IH. }
      exists q', h, (rs ++ [p]). split_and!; try done.
      * unfold s2. rewrite get_put_cbs. unfold callbacks_of. by rewrite map_app.
      * apply Forall_app. split; [done|]. apply Forall_singleton, elem_of_app. right. by left.
      * intros i p' es' Hi1 Hi2. destruct (Hold i p' es' Hi1 Hi2) as (es0 & Hi0 & Hcase).
        pose proof (G8 i p' es0 Hi1 Hi0) as Hc. rewrite count_occ_app, Hc. destruct Hcase as [[Hpn ->]|(-> & -> & ->)].
        -- rewrite count_occ_cons_neq by done. cbn. lia.
        -- rewrite !count_occ_cons_eq by done. cbn. lia.
      * rewrite length_app. cbn. lia.
    + exists q', h', rs'. split_and!; try done.
      * unfold s2. rewrite get_put_cbs_ne; [done|]. intros [= ->]. by apply Hne, (Hh e' e h).
      * intros i p' es' Hi1 Hi2. destruct (Hold i p' es' Hi1 Hi2) as (es0 & Hi0 & Hcase).
        rewrite (G8 i p' es0 Hi1 Hi0). destruct Hcase as [[_ ->]|(_ & -> & ->)]; [done|].
        by rewrite count_occ_cons_neq by done.
      * lia.
  - intros e' Ee'. destruct (Hi e' Ee') as (I1 & I2 & I3). split_and!; [done|done|].
    apply Forall_app in I3 as [I3 I4]. apply Forall_app. split; [done|]. apply Forall_singleton.
    rewrite not_elem_of_cons. split; [intros ->; cbn in Ee'; congruence|by apply Forall_cons in I4 as [I4 _]].
  - apply Forall2_same_length_lookup. split; [rewrite !length_app; cbn; lia|]. intros i p' es' Hi1 Hi2.
    destruct (Hold i p' es' Hi1 Hi2) as (es0 & Hi0 & Hcase).
    destruct (Forall2_lookup_lr _ _ _ _ _ _ Hp Hi1 Hi0) as [Hlt Hat]. split; [done|].
    destruct Hcase as [[Hpn ->]|(-> & -> & ->)].
    + eapply promise_at_eq; [..|exact Hat].
      * unfold s2, s1. cbn. by rewrite lookup_alter_ne.
      * unfold s2. by rewrite get_put_cbs_ne.
    + rewrite count_occ_cons_eq in * by done. cbn [count_occ length] in *. destruct Hat as [[all Ep] Hc].
      rewrite Nat.add_1_r, decide_False in Hc by done. split.
      * exists all. unfold s2, s1. cbn [promises put_cbs set_lists set_promises]. rewrite lookup_alter_eq, Ep. cbn. do 2 f_equal. lia.
      * rewrite decide_False by done. unfold s2. by rewrite get_put_cbs_ne.
Qed.

Lemma promise_loop cl fuel p l : forall es ps K a s, p ∉ ps ->
  shows None [p] (ps ++ [p]) K (with_pending a es) s ->
  exists s', sm_each (promise_add cl fuel p fx) l s = (Ok tt, s')
    /\ shows None [p] (ps ++ [p]) (K + length l) (with_pending a (rev (List.filter (is_busy a) l) ++ es)) s'.
Proof.
  induction l as [|e l IH]; intros es ps K a s Hnew Hs; cbn [sm_each].
  - exists s. split; [done|]. cbn. by rewrite Nat.add_0_r.
  - destruct (promise_add_shows cl fuel p e es ps K a s Hnew Hs) as (s1 & E1 & Hs1).
    destruct (IH _ ps (S K) a s1 Hnew Hs1) as (s2 & E2 & Hs2). rewrite (sm_bind_eq _ _ _ _ _ E1). exists s2. split; [done|].
    cbn [List.filter length]. rewrite Nat.add_succ_r. destruct (is_busy a e); [|done].
    cbn [rev]. by rewrite <-app_assoc.
Qed.

Lemma filter_rev {A} (f : A -> bool) l : List.filter f (rev l) = rev (List.filter f l).
Proof.
  induction l as [|x l IH]; [done|]. cbn [rev]. rewrite List.filter_app, IH. cbn [List.filter].
  destruct (f x); cbn [rev]; [done|]. by rewrite app_nil_r.
Qed.

Lemma promise_shows cl fuel es ps K a s : (2 <= fuel)%nat -> shows None [] ps K a s ->
  exists p s', fn_promise cl fuel es fx s = (Ok p, s')
    /\ shows None [] (ps ++ [p]) (K + length es) (step sync a (EPromise es)) s'.
Proof.
  intros Hf Hs. set (p := next_id s).
  set (s1 := put_cbs (LDone p) (new_cbs once_memory) (set_promises (<[p := Promise 1 es]> (promises s)) (set_next (S p) s))).
  assert (Forall (fun p' => p' <> p) ps) as Hne.
  { pose proof (Forall2_Forall_l _ (fun p' => p' <> p) _ _ (sh_promises _ _ _ _ _ _ Hs)) as Hps. apply Hps.
    apply Forall_forall. intros es' _ p' [Hlt _]. unfold p. lia. }
  assert (p ∉ ps) as Hnew by (intros Hin; by apply (proj1 (Forall_forall _ _) Hne p Hin)).
  assert (shows None [p] (ps ++ [p]) K (with_pending a []) s1) as Hs1.
  { destruct Hs as [Hst Hb Hi Ha Hh Hp Hnd Ho]. assert (length ps = length (pending a)) as Hlen by by eapply Forall2_length.
    split; cbn [busy pending done_ with_pending]; try done.
    - intros e w E. destruct (Hb e w E) as (Hacc & q & h & rs & H1 & H2 & H3 & H4 & H5 & H6 & H7 & H8 & H9).
      split; [done|]. exists q, h, rs. split_and!; try done; [cbn; lia|cbn; lia|by unfold s1; rewrite get_put_cbs_ne| |].
      + eapply Forall_impl; [exact H7|]. intros p' Hp'. apply elem_of_app. by left.
      + intros i p' es' Hi1 Hi2. cbn [pending with_pending] in Hi2. apply lookup_app_Some in Hi1 as [Hi1|[Hi1 Hi1']].
        * pose proof (lookup_lt_Some _ _ _ Hi1). rewrite lookup_app_l in Hi2 by lia. by eapply H8.
        * destruct (i - length ps)%nat as [|k] eqn:Ek; [|done]. injection Hi1' as <-.
          rewrite lookup_app_r in Hi2 by lia. replace (i - length (pending a))%nat with 0%nat in Hi2 by lia. injection Hi2 as <-.
          apply count_none. intros Hin. apply Hnew. by apply (proj1 (Forall_forall _ _) H7).
    - intros e E. destruct (Hi e E) as (I1 & I2 & I3). split_and!; [done|done|]. apply Forall_app. split; [done|].
      apply Forall_singleton, not_elem_of_nil.
    - apply Forall2_app.
      + apply Forall2_same_length_lookup. split; [done|]. intros i p' es' Hi1 Hi2.
        destruct (Forall2_lookup_lr _ _ _ _ _ _ Hp Hi1 Hi2) as [Hlt Hat].
        assert (p' <> p) as Hpn by (unfold p; lia). split; [cbn; lia|]. rewrite count_occ_cons_neq by done.
        eapply promise_at_eq; [..|exact Hat].
        * unfold s1. cbn. by rewrite lookup_insert_ne.
        * unfold s1. rewrite get_put_cbs_ne by (intros [= ->]; done). done.
      + apply Forall2_cons. split; [|done]. split; [cbn; unfold p; lia|]. rewrite count_occ_cons_eq by done. split.
        * exists es. unfold s1. cbn [promises put_cbs set_lists set_promises]. by rewrite lookup_insert_eq.
        * rewrite decide_False by done. unfold s1. by rewrite get_put_cbs.
    - apply NoDup_app. split_and!; [done| |apply NoDup_singleton]. intros p' Hp' Hin%list_elem_of_singleton. by subst. }
  destruct (promise_loop cl fuel p (rev es) [] ps K a s1 Hnew Hs1) as (s2 & E2 & Hs2).
  rewrite filter_rev, rev_involutive, app_nil_r, length_rev in Hs2.
  destruct (resolve_shows cl fuel None p [] (ps ++ [p]) _ _ s2 Hf ltac:(apply elem_of_app; right; by left) Hs2) as (s3 & E3 & Hs3 & _).
  exists p, s3. split; [|exact Hs3].
  unfold fn_promise. rewrite (sm_bind_eq _ _ s (Ok p) (set_next (S p) s)) by done. rewrite sm_mod_bind, or_fx_fx. fold s1.
  by rewrite (sm_bind_eq _ _ _ _ _ E2), (sm_bind_eq _ _ _ _ _ E3).
Qed.

(** ** Every event *)

(** The promises that the calls answer. *)
Fixpoint run_events (n : nat) (evs : list event) : SM qstate (list nat) :=
  match evs with
  | [] => mret []
  | ev :: evs' =>
      v ← exec user n (op_of ev);
      ps ← run_events n evs';
      mret (match v with QPromise p => p :: ps | _ => ps end)
  end.

Lemma event_shows n ev ps K a s : acceptable ev -> (2 * K + 10 <= n)%nat -> shows None [] ps K a s ->
  exists v s', exec user n (op_of ev) s = (Ok v, s')
    /\ shows None [] (match v with QPromise p => ps ++ [p] | _ => ps end) (K + cost ev) (step sync a ev) s'.
Proof.
  intros Hacc Hn Hs. unfold exec. destruct ev as [e m|e|e|es]; cbn [op_of do_op cost acceptable] in *.
  - destruct (queue_shows n e m ps K a s Hacc ltac:(lia) Hs) as (s' & E & Hs'). rewrite (sm_bind_eq _ _ _ _ _ E).
    by exists (QElems [e]), s'.
  - destruct n as [|n]; [lia|]. cbn [call]. unfold call_closure.
    destruct (next_shows n e ps K a s Hacc ltac:(lia) Hs) as (s' & E & Hs'). rewrite (sm_bind_eq _ _ _ _ _ E).
    exists QUndef, s'. by rewrite Nat.add_0_r.
  - destruct (clear_shows n e ps K a s Hacc ltac:(lia) Hs) as (s' & E & Hs'). rewrite (sm_bind_eq _ _ _ _ _ E).
    exists (QElems [e]), s'. by rewrite Nat.add_0_r.
  - destruct (promise_shows (call user n) n es ps K a s ltac:(lia) Hs) as (p & s' & E & Hs'). rewrite (sm_bind_eq _ _ _ _ _ E).
    by exists (QPromise p), s'.
Qed.

Lemma events_show evs : forall n ps K a s, Forall acceptable evs -> (2 * (K + sum_list_with cost evs) + 10 <= n)%nat ->
  shows None [] ps K a s ->
  exists ps' s', run_events n evs s = (Ok ps', s')
    /\ shows None [] (ps ++ ps') (K + sum_list_with cost evs) (steps sync evs a) s'.
Proof.
  induction evs as [|ev evs IH]; intros n ps K a s Hacc Hn Hs; cbn [run_events sum_list_with steps fold_left] in *.
  - exists [], s. rewrite app_nil_r, Nat.add_0_r. done.
  - apply Forall_cons in Hacc as [Ha Hacc].
    destruct (event_shows n ev ps K a s Ha ltac:(lia) Hs) as (v & s1 & E1 & Hs1). rewrite (sm_bind_eq _ _ _ _ _ E1).
    destruct (IH n _ (K + cost ev)%nat _ s1 Hacc ltac:(lia) Hs1) as (ps' & s2 & E2 & Hs2). rewrite (sm_bind_eq _ _ _ _ _ E2).
    eexists _, s2. split; [reflexivity|]. rewrite Nat.add_assoc. destruct v; try exact Hs2. by rewrite <-app_assoc in Hs2.
Qed.

(** ** What the page sees *)

(** The queue of effects of an element. *)
Definition queue_of (s : qstate) (e : nat) : option (list item) :=
  match look (priv s) e qkey with PArr q => Some (array s q) | _ => None end.

Definition resolved (s : qstate) (p : nat) : bool := fired (get_cbs (LDone p) s).

Lemma shows_page ps K a s : shows None [] ps K a s ->
  output s = done_ a
  /\ (forall e, queue_of s e = (fun w => IProgress :: fns w) <$> busy a !! e)
  /\ (forall e, busy a !! e = None -> look (priv s) e hkey = PUndef)
  /\ Forall2 (fun p es => resolved s p = true <-> es = []) ps (pending a).
Proof.
  intros Hs. split_and!.
  - apply Hs.
  - intros e. unfold queue_of. destruct (busy a !! e) as [w|] eqn:E.
    + destruct (sh_busy _ _ _ _ _ _ Hs e w E) as (_ & q & h & rs & -> & _ & _ & _ & [H5|H5] & _); [done|]. cbn. by rewrite H5.
    + by destruct (sh_idle _ _ _ _ _ _ Hs e E) as (-> & _).
  - intros e E. apply (sh_idle _ _ _ _ _ _ Hs e E).
  - eapply Forall2_impl; [apply (sh_promises _ _ _ _ _ _ Hs)|]. intros p es [_ [_ Hat]].
    cbn [count_occ] in Hat. rewrite Nat.add_0_r in Hat. unfold resolved. case_decide as El.
    + destruct es; [done|done].
    + rewrite Hat. destruct es; [done|]. done.
Qed.

(** C17: the queues of effects refine their specification, in which an element has a list of
    waiting functions, at most one function in progress, and a promise waits for the
    elements that were busy when it was made.  This is for elements that accept data, and
    for functions that do their work and then call [next] at once or leave that for later
    ([user_worker]): functions that throw, or that use queues themselves, are excluded, and
    one that throws stalls its queue ([throw_stalls_fx]).  Then along every sequence of
    calls that queue functions, report that the function in progress is over, clear queues
    and ask for promises, the functions do their work in the order of the specification, the
    queue of an idle element leaves no data behind, and a promise is resolved exactly when
    all elements it waited for have run empty; the depth of calls that suffices is linear in
    the number of functions and elements. *)
Theorem fx_queues_refine evs n : Forall acceptable evs -> (2 * sum_list_with cost evs + 10 <= n)%nat ->
  let a := steps sync evs (AQueue ∅ [] []) in
  exists ps s, run_events n evs qstate0 = (Ok ps, s)
    /\ output s = done_ a
    /\ (forall e, queue_of s e = (fun w => IProgress :: fns w) <$> busy a !! e)
    /\ (forall e, busy a !! e = None -> look (priv s) e hkey = PUndef)
    /\ Forall2 (fun p es => resolved s p = true <-> es = []) ps (pending a).
Proof.
  intros Hacc Hn a. destruct (events_show evs n [] 0 _ _ Hacc Hn shows_start) as (ps & s & E & Hs).
  exists ps, s. split; [done|]. by apply (shows_page _ _ _ _ Hs).
Qed.

(** ** First in, first out *)

(** The events of one element, and the functions they queue. *)
Definition queued (evs : list event) : list N := omap (fun ev => match ev with EQueue _ n => Some n | _ => None end) evs.
Definition single (e : nat) (ev : event) : Prop :=
  match ev with EQueue e' _ | ENext e' => e' = e | EClear _ => False | EPromise _ => True end.

Lemma drain_split w : (drain sync w).2 ++ default [] (drain sync w).1 = w.
Proof.
  induction w as [|n w IH]; [done|]. cbn [drain]. destruct (sync n); [|done].
  destruct (drain sync w) as [r o]. cbn [fst snd] in *. cbn [app]. by rewrite IH.
Qed.

Definition queue_and_done (e : nat) (a : aqueue) : list N := done_ a ++ default [] (busy a !! e).

Lemma advance_order e w a : queue_and_done e (advance sync e w a) = done_ a ++ w.
Proof.
  unfold queue_and_done, advance. pose proof (drain_split w) as Hw. destruct (drain sync w) as [[w'|] o]; cbn [fst snd done_ busy run_empty] in *.
  - rewrite lookup_insert_eq, <-app_assoc. by rewrite <-Hw.
  - rewrite lookup_delete_eq, app_nil_r. by rewrite <-Hw, app_nil_r.
Qed.

Lemma steps_order e evs : forall a, Forall (single e) evs ->
  queue_and_done e (steps sync evs a) = queue_and_done e a ++ queued evs.
Proof.
  induction evs as [|ev evs IH]; intros a Hall; cbn [steps fold_left].
  - by rewrite app_nil_r.
  - apply Forall_cons in Hall as [Hev Hall]. fold (steps sync evs (step sync a ev)). rewrite IH by done.
    destruct ev as [e' m|e'|e'|es]; cbn [single step] in *; try done; subst e'.
    + cbn [queued omap list_omap]. rewrite (cons_middle m), app_assoc. f_equal.
      destruct (busy a !! e) as [w|] eqn:E.
      * unfold queue_and_done. cbn [busy done_]. rewrite lookup_insert_eq, E. cbn [default id]. by rewrite app_assoc.
      * rewrite advance_order. unfold queue_and_done. by rewrite E, app_nil_r.
    + f_equal. destruct (busy a !! e) as [w|] eqn:E; [|done]. rewrite advance_order. unfold queue_and_done. by rewrite E.
Qed.

(** The functions of a queue. *)
Definition functions (l : list item) : list N := omap (fun i => match i with IFn (FUser n) => Some n | _ => None end) l.

Lemma functions_fns w : functions (IProgress :: fns w) = w.
Proof. unfold functions. cbn [omap list_omap]. induction w as [|n w IH]; [done|]. cbn [fns List.map omap list_omap]. f_equal. apply IH. Qed.

(** Functions queued on an element are called in the order in which they were
    queued, and none is lost or called twice: at every moment, what the functions did,
    followed by the functions that are still in the queue, is exactly what was queued,
    in order, however many of them call [next] before they return. *)
Theorem fx_first_in_first_out e evs n : acceptData e = true -> Forall (single e) evs ->
  (2 * sum_list_with cost evs + 10 <= n)%nat ->
  exists ps s, run_events n evs qstate0 = (Ok ps, s)
    /\ output s ++ functions (default [] (queue_of s e)) = queued evs.
Proof.
  intros Hacc Hall Hn. assert (Forall acceptable evs) as Hok.
  { eapply Forall_impl; [exact Hall|]. intros [] Hs; cbn in *; try done; by subst. }
  destruct (events_show evs n [] 0 _ _ Hok Hn shows_start) as (ps & s & E & Hs). exists ps, s. split; [done|].
  destruct (shows_page _ _ _ _ Hs) as (-> & -> & _). pose proof (steps_order e evs (AQueue ∅ [] []) Hall) as Ho.
  unfold queue_and_done in Ho. cbn [done_ busy] in Ho. rewrite lookup_empty in Ho. cbn [default app] in Ho. rewrite <-Ho.
  f_equal. destruct (busy _ !! e) as [w|]; [|done]. cbn [fmap option_fmap option_map default id]. by rewrite functions_fns.
Qed.
End refinement.

(** ** Exceptions *)

Section exceptions.
Context `{Owners} (user : N -> qval -> list qval -> qprog).

(** Queueing behind the sentinel. *)
Lemma queue_behind cl fuel e q h l ks : forall s, look (priv s) e qkey = PArr q -> look (priv s) e hkey = PHooks h ->
  array s q = IProgress :: l ->
  exists s2, sm_each (fun k => fn_queue cl fuel [e] fx (DItem (IFn (FUser k)))) ks s = (Ok tt, s2)
    /\ queue_of s2 e = Some (IProgress :: l ++ fns ks) /\ output s2 = output s.
Proof.
  revert l. induction ks as [|k ks IH]; intros l s Hq Hh Hl; cbn [sm_each].
  - exists s. unfold queue_of. rewrite Hq, Hl. cbn [fns List.map]. by rewrite app_nil_r.
  - set (s1 := set_arrays (<[q := array s q ++ [IFn (FUser k)]]> (arrays s)) s).
    assert (fn_queue cl fuel [e] fx (DItem (IFn (FUser k))) s = (Ok tt, s1)) as E.
    { unfold fn_queue. cbn [sm_each]. unfold mbind at 1, sm_bind at 1.
      rewrite (sm_bind_eq _ _ s (Ok q) s1); [|by unfold queue; rewrite or_fx_fx, qkey_eq, (sm_bind_eq _ _ _ _ _ (get_data _ _ _)), Hq].
      rewrite (sm_bind_eq _ _ _ _ _ (hooks_existing _ _ e h s1 Hh)), sm_get_bind.
      unfold s1 at 1. rewrite array_push, Hl. by rewrite andb_false_r. }
    rewrite (sm_bind_eq _ _ _ _ _ E).
    destruct (IH (l ++ [IFn (FUser k)]) s1) as (s2 & E2 & H2 & Ho); [done|done|unfold s1; by rewrite array_push, Hl|].
    exists s2. split_and!; [done| |done]. rewrite H2. by rewrite <-app_assoc.
Qed.

(** A function that throws stalls its queue of effects: the exception goes to the
    caller that queued it, the sentinel stays in the queue, and whatever is queued on
    the element afterwards is kept but not called. *)
Theorem throw_stalls_fx n e m x s :
  store_ok (priv s) -> acceptData e = true -> look (priv s) e qkey = PUndef -> look (priv s) e hkey = PUndef ->
  (forall this args, user m this args = PThrow x) ->
  exists s1, fn_queue (call user (S n)) (S n) [e] fx (DItem (IFn (FUser m))) s = (Throw x, s1)
    /\ queue_of s1 e = Some [IProgress] /\ output s1 = output s
    /\ forall ks, exists s2,
         sm_each (fun k => fn_queue (call user (S n)) (S n) [e] fx (DItem (IFn (FUser k)))) ks s1 = (Ok tt, s2)
         /\ queue_of s2 e = Some (IProgress :: fns ks) /\ output s2 = output s.
Proof.
  intros Hst Hacc Hq Hh Hu.
  destruct (queue_replace e [IFn (FUser m)] (DItem (IFn (FUser m))) s Hst Hacc) as (t & E1 & Hex1 & El1 & En1 & _ & _ & _ & Q1 & H1 & _).
  { right. split; [done|]. by exists (IFn (FUser m)). }
  destruct (hooks_new (call user (S n)) (S n) e t (ex_store _ _ Hex1) Hacc) as (t' & E2 & Hex2 & Ea & _ & _ & _ & _ & H2 & Q2 & _);
    [by rewrite H1|].
  set (q := next_id s) in *. set (h := next_id t) in *. rewrite Q1 in Q2.
  assert (array t' q = [IFn (FUser m)]) as El2 by (unfold array in *; by rewrite Ea).
  set (s1 := set_stops (delete h (stops t')) (set_arrays (<[q := [IProgress]]> (arrays t')) t')).
  assert (array s1 q = [IProgress]) as Es1 by (unfold array, s1; cbn [arrays set_arrays set_stops]; by rewrite lookup_insert_eq).
  assert (dequeue (call user (S n)) (S n) e fx t' = (Throw x, s1)) as E3.
  { rewrite (dequeue_call _ _ e q h (FUser m) [] t' Q2 H2) by (by left). fold s1. cbn [call]. unfold mbind, sm_bind. by rewrite Hu. }
  assert (output s1 = output s) as Ho by (change (output s1) with (output t'); by rewrite (ex_output _ _ Hex2), (ex_output _ _ Hex1)).
  exists s1. split_and!; [|unfold queue_of; change (priv s1) with (priv t'); by rewrite Q2, Es1|done|].
  - unfold fn_queue. cbn [sm_each]. unfold mbind at 1, sm_bind at 1.
    rewrite (sm_bind_eq _ _ _ _ _ E1), (sm_bind_eq _ _ _ _ _ E2), sm_get_bind, El2.
    rewrite bool_decide_eq_true_2 by done. cbn [andb sm_when]. by rewrite E3.
  - intros ks. destruct (queue_behind (call user (S n)) (S n) e q h [] ks s1 Q2 H2 Es1) as (s2 & E & H3 & H4).
    exists s2. split_and!; [done|done|]. by rewrite H4.
Qed.
End exceptions.

(** ** Concrete instances *)

(** A page of elements whose functions call [next] at once if their number is even. *)
Definition page_owners : Owners := {| nodeType _ := Fin 1 |}.
Definition page_user (n : N) (this : qval) (args : list qval) : qprog :=
  match args with QFn next :: _ => worker N.even n next | _ => PRet QUndef end.

Definition page_events : list event :=
  [EQueue 0 1; EQueue 0 2; EQueue 1 3; EPromise [0%nat; 1%nat; 2%nat]; ENext 0; EQueue 1 5; EClear 1].

Lemma fx_queues_refine_witness : exists p s,
  @run_events page_owners page_user 100 page_events qstate0 = (Ok [p], s)
  /\ output s = [1; 3; 2]%N /\ @queue_of s 0 = None /\ resolved s p = true.
Proof.
  destruct (@fx_queues_refine page_owners N.even page_user ltac:(reflexivity) page_events 100
    ltac:(repeat constructor) ltac:(vm_compute; lia)) as (ps & s & E & Ho & Hq & _ & Hp).
  destruct ps as [|p [|p' ps]].
  - exfalso. apply Forall2_length in Hp. vm_compute in Hp. discriminate Hp.
  - exists p, s. split; [exact E|]. split; [exact Ho|]. split; [exact (Hq 0%nat)|].
    apply Forall2_cons in Hp as [Hp _]. apply Hp. vm_compute. reflexivity.
  - exfalso. apply Forall2_length in Hp. vm_compute in Hp. discriminate Hp.
Defined.

Lemma fx_first_in_first_out_witness : exists ps s,
  @run_events page_owners page_user 100 [EQueue 0 2; EQueue 0 1; EQueue 0 4; EQueue 0 3; ENext 0; EQueue 0 7] qstate0 = (Ok ps, s)
  /\ output s ++ functions (default [] (queue_of s 0)) = [2; 1; 4; 3; 7]%N.
Proof.
  apply (@fx_first_in_first_out page_owners N.even page_user ltac:(reflexivity) 0%nat
    [EQueue 0 2; EQueue 0 1; EQueue 0 4; EQueue 0 3; ENext 0; EQueue 0 7] 100);
    [reflexivity|repeat constructor|vm_compute; lia].
Defined.

Lemma throw_stalls_fx_witness : exists s1,
  @fn_queue page_owners (@call page_owners (fun _ _ _ => PThrow (str "boom")) 5) 5 [0%nat] fx (DItem (IFn (FUser 1))) qstate0
  = (Throw (str "boom"), s1) /\ queue_of s1 0 = Some [IProgress].
Proof.
  destruct (@throw_stalls_fx page_owners (fun _ _ _ => PThrow (str "boom")) 4 0 1 (str "boom") qstate0)
    as (s1 & E & Hq & _); try reflexivity; [apply store_ok_new|]. exists s1. split; [exact E|exact Hq].
Defined.
