(* ===== verification/Param.v ===== *)
(** * Parameters of requests: jQuery.param and the values of forms

    [buildParams] flattens nested values into pairs, [param] writes them as a query
    string, and [serializeArray] collects the successful controls of forms.
    [encodeURIComponent] is the function of the language. *)

From S2P Require Import Prelude JsNum JsVal.

(** ** encodeURIComponent *)

Definition is_high (c : N) : bool := ((55296 <=? c) && (c <=? 56319))%N.
Definition is_low (c : N) : bool := ((56320 <=? c) && (c <=? 57343))%N.

(** The code points of a string; it throws at half of a surrogate pair. *)
Fixpoint code_points (s : jstr) : res (list N) :=
  match s with
  | [] => Ok []
  | c :: s' =>
      if is_high c then
        match s' with
        | d :: s'' =>
            if is_low d then l ← code_points s''; Ok (((c - 55296) * 1024 + (d - 56320) + 65536)%N :: l)
            else Throw (str "URIError")
        | [] => Throw (str "URIError")
        end
      else if is_low c then Throw (str "URIError")
      else l ← code_points s'; Ok (c :: l)
  end.

(** The letters, the digits and [- _ . ! ~ * ' ( )] stay as they are. *)
Definition unreserved (c : N) : bool :=
  ((65 <=? c) && (c <=? 90) || (97 <=? c) && (c <=? 122) || is_digit c)%N || bool_decide (c ∈ str "-_.!~*'()").

Definition utf8 (c : N) : list N :=
  (if c <? 128 then [c]
   else if c <? 2048 then [192 + c / 64; 128 + c mod 64]
   else if c <? 65536 then [224 + c / 4096; 128 + c / 64 mod 64; 128 + c mod 64]
   else [240 + c / 262144; 128 + c / 4096 mod 64; 128 + c / 64 mod 64; 128 + c mod 64])%N.

Definition hex_digit (d : N) : N := if (d <? 10)%N then (48 + d)%N else (55 + d)%N.
Definition percent (b : N) : jstr := [chr "%"; hex_digit (b / 16)%N; hex_digit (b mod 16)%N].

Definition encode_point (c : N) : jstr := if unreserved c then [c] else flat_map percent (utf8 c).
Definition encodeURIComponent (s : jstr) : res jstr := l ← code_points s; Ok (flat_map encode_point l).

(** ** param *)

(** [/\[\]$/]. *)
Definition rbracket (s : jstr) : bool :=
  match rev s with a :: b :: _ => bool_decide (a = chr "]") && bool_decide (b = chr "[") | _ => false end.

Definition bracketed (prefix name : jstr) : jstr := prefix ++ chr "[" :: name ++ [chr "]"].

(** [typeof v === "object" && v != null]. *)
Definition is_object (v : jsval) : bool := match v with VArr _ | VObj _ => true | _ => false end.

Section param.
Context `{JsEnv}.

(** The function [add] of [param]: what it puts at the end of [s]. *)
Definition add (key : jstr) (valueOrFunction : jsval) : res jstr :=
  value ← match valueOrFunction with VFun f => call_fn f VUndef | v => Ok v end;
  k ← encodeURIComponent key;
  v ← encodeURIComponent (if nullish value then [] else to_string value);
  Ok (k ++ chr "=" :: v).

(** [buildParams], in the strings that the calls of [add] append. *)
Fixpoint buildParams (prefix : jstr) (obj : jsval) (traditional : bool) : res (list jstr) :=
  match obj with
  | VArr l =>
      (fix items (i : nat) (l : list jsval) : res (list jstr) :=
         match l with
         | [] => Ok []
         | v :: l' =>
             a ← (if traditional || rbracket prefix then p ← add prefix v; Ok [p]
                  else buildParams (bracketed prefix (if is_object v then N_to_str (N.of_nat i) else [])) v traditional);
             b ← items (S i) l'; Ok (a ++ b)
         end) 0%nat l
  | VObj props =>
      if traditional then p ← add prefix obj; Ok [p]
      else (fix fields (props : list (jstr * jsval)) : res (list jstr) :=
              match props with
              | [] => Ok []
              | (name, v) :: props' =>
                  a ← buildParams (bracketed prefix name) v traditional; b ← fields props'; Ok (a ++ b)
              end) props
  | _ => p ← add prefix obj; Ok [p]
  end.

Fixpoint join_amp (l : list jstr) : jstr :=
  match l with [] => [] | [s] => s | s :: l' => s ++ chr "&" :: join_amp l' end.

(** What [for ... in] goes through. *)
Definition entries (a : jsval) : list (jstr * jsval) :=
  match a with
  | VObj props => props
  | VStr s => imap (fun i c => (N_to_str (N.of_nat i), VStr [c])) s
  | _ => []
  end.

Fixpoint collect {A} (f : A -> res (list jstr)) (l : list A) : res (list jstr) :=
  match l with [] => Ok [] | x :: l' => a ← f x; b ← collect f l'; Ok (a ++ b) end.

(** The elements of an array that is passed in: objects with [name] and [value]. *)
Definition form_pair (e : jsval) : res (list jstr) :=
  name ← get_prop e (str "name");
  value ← get_prop e (str "value");
  p ← add (to_string name) value; Ok [p].

Definition param (a : jsval) (traditional : bool) : res jstr :=
  if nullish a then Ok []
  else
    let parts := match a with
                 | VArr l => collect form_pair l
                 | _ => collect (fun p => buildParams p.1 p.2 traditional) (entries a)
                 end in
    s ← parts; Ok (join_amp s).

End param.

(** ** The values of forms *)

(** A control of a form: [c_val] is what [val()] answers. *)
Inductive cval := CNull | COne (s : jstr) | CMany (l : list jstr).
Record control := Control {
  c_name : jstr; c_nodeName : jstr; c_type : jstr;
  c_disabled : bool; c_checked : bool; c_val : cval
}.

Definition starts_with (p s : jstr) : bool := bool_decide (take (length p) s = p).

(** The letters of ASCII in lower case, for the flag [i] of the expressions. *)
Definition lower (s : jstr) : jstr := toLowerCase (fun c => [c]) s.

Definition rsubmitterTypes (s : jstr) : bool :=
  bool_decide (lower s ∈ List.map str ["submit"; "button"; "image"; "reset"; "file"]).
Definition rsubmittable (s : jstr) : bool :=
  existsb (fun p => starts_with (str p) (lower s)) ["input"; "select"; "textarea"; "keygen"].
Definition rcheckableType (s : jstr) : bool := bool_decide (lower s ∈ List.map str ["checkbox"; "radio"]).

(** [replace(/\r?\n/g, "\r\n")]. *)
Fixpoint replace_CRLF (s : jstr) : jstr :=
  match s with
  | [] => []
  | c :: s' =>
      if (c =? 10)%N then 13%N :: 10%N :: replace_CRLF s'
      else if (c =? 13)%N then
        match s' with
        | d :: s'' => if (d =? 10)%N then 13%N :: 10%N :: replace_CRLF s'' else c :: replace_CRLF s'
        | [] => [c]
        end
      else c :: replace_CRLF s'
  end.

(** The [filter] and the last [map] of [serializeArray], on the controls. *)
Definition submitted (c : control) : bool :=
  bool_decide (c_name c <> []) && negb (c_disabled c) && rsubmittable (c_nodeName c)
  && negb (rsubmitterTypes (c_type c)) && (c_checked c || negb (rcheckableType (c_type c))).

Definition control_pairs (c : control) : list (jstr * jstr) :=
  match c_val c with
  | CNull => []
  | COne v => [(c_name c, replace_CRLF v)]
  | CMany l => List.map (fun v => (c_name c, replace_CRLF v)) l
  end.

Definition serializeArray (l : list control) : list (jstr * jstr) := flat_map control_pairs (List.filter submitted l).

Definition pair_object (p : jstr * jstr) : jsval := VObj [(str "name", VStr p.1); (str "value", VStr p.2)].

Definition serialize `{JsEnv} (l : list control) : res jstr := param (VArr (List.map pair_object (serializeArray l))) false.
