(* ===== verification/ParamProps.v ===== *)
(** * What param writes can be read back

    A reader of query strings, and that it answers the flattened values of what
    [param] was given: the leaves of nested objects under their bracketed names. *)

From S2P Require Import Prelude JsNum JsVal Callbacks Text Param.

(** ** A reader of query strings *)

Definition hex_value (c : N) : option N :=
  (if (48 <=? c) && (c <=? 57) then Some (c - 48) else if (65 <=? c) && (c <=? 70) then Some (c - 55) else None)%N.

(** The bytes of a text with escapes. *)
Fixpoint bytes_of (s : jstr) : option (list N) :=
  match s with
  | [] => Some []
  | c :: s' =>
      if (c =? chr "%")%N then
        match s' with
        | h :: l :: s'' => a ← hex_value h; b ← hex_value l; r ← bytes_of s''; Some ((a * 16 + b)%N :: r)
        | _ => None
        end
      else r ← bytes_of s'; Some (c :: r)
  end.

Definition cont (b : N) : N := (b - 128)%N.

(** UTF-8, of valid texts. *)
Fixpoint points_of (bs : list N) : option (list N) :=
  match bs with
  | [] => Some []
  | b :: r =>
      if (b <? 128)%N then l ← points_of r; Some (b :: l)
      else if (b <? 224)%N then
        match r with b1 :: r' => l ← points_of r'; Some (((b - 192) * 64 + cont b1)%N :: l) | _ => None end
      else if (b <? 240)%N then
        match r with b1 :: b2 :: r' => l ← points_of r'; Some (((b - 224) * 4096 + cont b1 * 64 + cont b2)%N :: l) | _ => None end
      else
        match r with
        | b1 :: b2 :: b3 :: r' => l ← points_of r'; Some (((b - 240) * 262144 + cont b1 * 4096 + cont b2 * 64 + cont b3)%N :: l)
        | _ => None
        end
  end.

Definition units_of (c : N) : jstr :=
  (if c <? 65536 then [c] else [55296 + (c - 65536) / 1024; 56320 + (c - 65536) mod 1024])%N.

Definition decode (s : jstr) : option jstr := bs ← bytes_of s; l ← points_of bs; Some (flat_map units_of l).

Fixpoint split_at (c : N) (s : jstr) : option (jstr * jstr) :=
  match s with
  | [] => None
  | x :: s' => if (x =? c)%N then Some ([], s') else '(a, b) ← split_at c s'; Some (x :: a, b)
  end.

Definition read_pair (s : jstr) : option (jstr * jstr) :=
  '(k, v) ← split_at (chr "=") s; k ← decode k; v ← decode v; Some (k, v).

Definition read_query (s : jstr) : option (list (jstr * jstr)) :=
  match s with [] => Some [] | _ => mapM read_pair (split_on (chr "&") [] s) end.

(** ** Escaped texts *)

(** Arithmetic with quotients by constants. *)
Ltac divs := zify; Z.to_euclidean_division_equations; lia.

(** Texts of code units without halves of surrogate pairs. *)
Definition well_formed (s : jstr) : Prop := Forall (fun c => c < 65536)%N s /\ exists l, code_points s = Ok l.

Definition is_point (c : N) : Prop := (c < 1114112)%N.

Lemma code_points_units s : forall l, Forall (fun c => c < 65536)%N s -> code_points s = Ok l -> Forall is_point l /\ flat_map units_of l = s.
Proof.
  induction s as [s IH] using (induction_ltof1 _ length). unfold ltof in IH. intros l Hs El. destruct s as [|c s]; cbn [code_points] in El.
  - injection El as <-. by split.
  - inversion Hs as [|? ? Hc Hs']; subst. destruct (is_high c) eqn:Eh.
    + destruct s as [|d s]; [done|]. destruct (is_low d) eqn:El2; [|done]. apply bind_Ok_inv in El as (l' & E & [= <-]).
      inversion Hs' as [|? ? Hd Hs'']; subst. destruct (IH s ltac:(cbn; lia) l' Hs'' E) as [Hp Hf].
      unfold is_high, is_low in *. apply andb_true_iff in Eh as [H1 H2], El2 as [H3 H4]. apply N.leb_le in H1, H2, H3, H4. split.
      * constructor; [unfold is_point; lia|done].
      * cbn [flat_map]. rewrite Hf. unfold units_of. rewrite (proj2 (N.ltb_ge _ _)) by lia.
        replace ((c - 55296) * 1024 + (d - 56320) + 65536 - 65536)%N with ((c - 55296) * 1024 + (d - 56320))%N by lia.
        rewrite N.div_add_l, (N.div_small (d - 56320)) by lia. rewrite N.Div0.add_mod, N.Div0.mod_mul, N.add_0_l, N.Div0.mod_mod, N.mod_small by lia.
        cbn [app]. repeat f_equal; lia.
    + destruct (is_low c) eqn:Elow; [done|]. apply bind_Ok_inv in El as (l' & E & [= <-]).
      destruct (IH s ltac:(cbn; lia) l' Hs' E) as [Hp Hf]. split; [constructor; [unfold is_point; lia|done]|].
      cbn [flat_map]. rewrite Hf. unfold units_of. by rewrite (proj2 (N.ltb_lt _ _)).
Qed.

Lemma hex_value_digit d : (d < 16)%N -> hex_value (hex_digit d) = Some d.
Proof.
  intros Hd. unfold hex_digit. destruct (N.ltb_spec d 10); unfold hex_value.
  - rewrite (proj2 (N.leb_le _ _)), (proj2 (N.leb_le (48 + d) 57)) by lia. cbn [andb]. f_equal. lia.
  - rewrite (proj2 (N.leb_gt (55 + d) 57)), andb_false_r by lia. rewrite !(proj2 (N.leb_le _ _)) by lia. cbn [andb]. f_equal. lia.
Qed.

Lemma bytes_of_percent b s : (b < 256)%N -> bytes_of (percent b ++ s) = r ← bytes_of s; Some (b :: r).
Proof.
  intros Hb. unfold percent. cbn [app bytes_of]. rewrite N.eqb_refl, !hex_value_digit by (try apply N.mod_lt; try apply N.Div0.div_lt_upper_bound; lia).
  cbn [mbind option_bind]. by rewrite N.mul_comm, <-N.div_mod'.
Qed.

Lemma utf8_bytes c : is_point c -> Forall (fun b => b < 256)%N (utf8 c).
Proof.
  unfold is_point, utf8. intros Hc. repeat match goal with |- context [(?a <? ?b)%N] => destruct (N.ltb_spec a b) end; repeat (apply Forall_cons; split); try apply Forall_nil; divs.
Qed.

Lemma bytes_of_escapes bs s : Forall (fun b => b < 256)%N bs -> bytes_of (flat_map percent bs ++ s) = r ← bytes_of s; Some (bs ++ r).
Proof.
  induction 1 as [|b bs Hb _ IH]; cbn [flat_map app]; [by destruct (bytes_of s)|].
  rewrite <-app_assoc, bytes_of_percent, IH by done. by destruct (bytes_of s).
Qed.

Lemma unreserved_ascii c : unreserved c = true -> (c < 128)%N /\ c <> chr "%".
Proof.
  intros Hu. assert (c < 128)%N as Hc.
  { unfold unreserved in Hu. apply orb_true_iff in Hu as [Hu|Hu].
    - rewrite !orb_true_iff, !andb_true_iff, !N.leb_le, is_digit_iff in Hu. lia.
    - apply bool_decide_eq_true in Hu. assert (Forall (fun c => c < 128)%N (str "-_.!~*'()")) as Hall by (vm_compute; repeat constructor).
      by apply (proj1 (Forall_forall _ _) Hall). }
  split; [done|]. intros ->. vm_compute in Hu. discriminate Hu.
Qed.

Lemma bytes_of_points l s : Forall is_point l -> bytes_of (flat_map encode_point l ++ s) = r ← bytes_of s; Some (flat_map utf8 l ++ r).
Proof.
  induction 1 as [|c l Hc _ IH]; cbn [flat_map app]; [by destruct (bytes_of s)|]. rewrite <-app_assoc. unfold encode_point at 1.
  destruct (unreserved c) eqn:Eu.
  - apply unreserved_ascii in Eu as [Ha Hp]. cbn [app bytes_of]. rewrite (proj2 (N.eqb_neq _ _) Hp), IH.
    unfold utf8 at 2. rewrite (proj2 (N.ltb_lt _ _) Ha). by destruct (bytes_of s).
  - rewrite bytes_of_escapes, IH by (by apply utf8_bytes). destruct (bytes_of s); [|done]. cbn. by rewrite app_assoc.
Qed.

Lemma points_of_utf8 l : Forall is_point l -> points_of (flat_map utf8 l) = Some l.
Proof.
  induction 1 as [|c l Hc _ IH]; [done|]. unfold is_point in Hc. cbn [flat_map]. unfold utf8, cont in *.
  destruct (N.ltb_spec c 128); [cbn [app points_of]; rewrite (proj2 (N.ltb_lt _ _)) by done; by rewrite IH|].
  destruct (N.ltb_spec c 2048); [|destruct (N.ltb_spec c 65536)]; cbn [app points_of].
  - rewrite (proj2 (N.ltb_ge _ _)), (proj2 (N.ltb_lt _ _)) by divs. rewrite IH. cbn. unfold cont. do 2 f_equal. divs.
  - rewrite !(proj2 (N.ltb_ge _ _)), (proj2 (N.ltb_lt _ _)) by divs. rewrite IH. cbn. unfold cont. do 2 f_equal. divs.
  - rewrite !(proj2 (N.ltb_ge _ _)) by divs. rewrite IH. cbn. unfold cont. do 2 f_equal. divs.
Qed.

Lemma escape_clean c d : is_point c -> d = chr "&" \/ d = chr "=" -> d ∉ encode_point c.
Proof.
  intros Hc Hd Hin. unfold encode_point in Hin. destruct (unreserved c) eqn:Eu.
  - apply list_elem_of_singleton in Hin as ->. by destruct Hd as [->| ->].
  - apply list_elem_of_In, in_flat_map in Hin as (b & Hb%list_elem_of_In & Hin%list_elem_of_In).
    pose proof (proj1 (Forall_forall _ _) (utf8_bytes c Hc) b Hb) as Hlt. cbv beta in Hlt. unfold percent in Hin.
    assert (forall x, x < 16 -> hex_digit x <> d)%N as Hhex.
    { intros x Hx. unfold hex_digit. change (chr "&") with 38%N in Hd. change (chr "=") with 61%N in Hd. destruct (N.ltb_spec x 10); lia. }
    rewrite !elem_of_cons in Hin. destruct Hin as [E|[E|[E|E]]].
    + change (chr "%") with 37%N in E. change (chr "&") with 38%N in Hd. change (chr "=") with 61%N in Hd. lia.
    + symmetry in E. apply (Hhex (b / 16)%N); [divs|done].
    + symmetry in E. apply (Hhex (b mod 16)%N); [divs|done].
    + by apply not_elem_of_nil in E.
Qed.

Lemma decode_encode s : well_formed s -> exists t, encodeURIComponent s = Ok t /\ decode t = Some s /\ chr "&" ∉ t /\ chr "=" ∉ t.
Proof.
  intros [Hs [l El]]. destruct (code_points_units s l Hs El) as [Hl Eu]. exists (flat_map encode_point l).
  unfold encodeURIComponent. rewrite El.
  assert (forall d, d = chr "&" \/ d = chr "=" -> d ∉ flat_map encode_point l) as Hclean.
  { intros d Hd Hin. apply list_elem_of_In, in_flat_map in Hin as (c & Hc%list_elem_of_In & Hin%list_elem_of_In).
    by apply (escape_clean c d); [apply (proj1 (Forall_forall _ _) Hl)|..]. }
  split_and!; [done| |by apply Hclean; left|by apply Hclean; right].
  unfold decode. rewrite <-(app_nil_r (flat_map encode_point l)), bytes_of_points by done. cbn. rewrite app_nil_r, points_of_utf8 by done.
  cbn. by rewrite Eu.
Qed.

(** ** Pairs *)

Lemma split_at_app c k v : c ∉ k -> split_at c (k ++ c :: v) = Some (k, v).
Proof.
  induction k as [|x k IH]; cbn [app split_at]; [by rewrite N.eqb_refl|]. intros [Hx Hk]%not_elem_of_cons.
  rewrite (proj2 (N.eqb_neq _ _)) by congruence. by rewrite IH.
Qed.

Lemma split_on_none c cur s : c ∉ s -> split_on c cur s = [rev cur ++ s].
Proof.
  revert cur. induction s as [|x s IH]; intros cur; cbn [split_on]; [by rewrite app_nil_r|]. intros [Hx Hs]%not_elem_of_cons.
  rewrite (proj2 (N.eqb_neq _ _)), IH by congruence. cbn [rev]. by rewrite <-app_assoc.
Qed.

Lemma split_on_app c s t cur : c ∉ s -> split_on c cur (s ++ c :: t) = (rev cur ++ s) :: split_on c [] t.
Proof.
  revert cur. induction s as [|x s IH]; intros cur; cbn [app split_on]; [by rewrite N.eqb_refl, app_nil_r|].
  intros [Hx Hs]%not_elem_of_cons. rewrite (proj2 (N.eqb_neq _ _)), IH by congruence. cbn [rev]. by rewrite <-app_assoc.
Qed.

Lemma split_join l : l <> [] -> Forall (fun s => chr "&" ∉ s) l -> split_on (chr "&") [] (join_amp l) = l.
Proof.
  induction l as [|s l IH]; [done|]. intros _ Hl. inversion Hl as [|? ? Hs Hl']; subst. destruct l as [|s' l].
  - cbn [join_amp]. by rewrite split_on_none.
  - cbn [join_amp]. rewrite split_on_app by done. f_equal. by apply IH.
Qed.

Section read.
Context `{JsEnv}.

Definition text_of (v : jsval) : jstr := if nullish v then [] else to_string v.
Definition not_function (v : jsval) : Prop := match v with VFun _ => False | _ => True end.

Lemma add_eq k v : not_function v ->
  add k v = a ← encodeURIComponent k; b ← encodeURIComponent (text_of v); Ok (a ++ chr "=" :: b).
Proof. by destruct v. Qed.

Definition one_pair (p : jstr * jsval) : res (list jstr) := q ← add p.1 p.2; Ok [q].

Definition readable (p : jstr * jsval) : Prop := not_function p.2 /\ well_formed p.1 /\ well_formed (text_of p.2).

Lemma add_reads p : readable p -> exists t, add p.1 p.2 = Ok t /\ read_pair t = Some (p.1, text_of p.2) /\ chr "&" ∉ t /\ t <> [].
Proof.
  destruct p as [k v]. intros (Hf & (tk & Ek & Dk & Ak & Bk)%decode_encode & (tv & Ev & Dv & Av & Bv)%decode_encode).
  exists (tk ++ chr "=" :: tv). cbn [fst snd] in *. split_and!.
  - rewrite add_eq, Ek by done. cbn. by rewrite Ev.
  - unfold read_pair. rewrite split_at_app by done. cbn. rewrite Dk. cbn. by rewrite Dv.
  - intros [?|[E|?]%elem_of_cons]%elem_of_app; [done| |done]. vm_compute in E. discriminate E.
  - by destruct tk.
Qed.

Lemma collect_reads l : Forall readable l -> exists ts, collect one_pair l = Ok ts
  /\ mapM read_pair ts = Some (List.map (fun p => (p.1, text_of p.2)) l) /\ Forall (fun t => chr "&" ∉ t /\ t <> []) ts.
Proof.
  induction 1 as [|p l (t & E & Er & Ht)%add_reads _ (ts & Ec & Em & Hts)]; [by exists []|].
  exists (t :: ts). split_and!; [|by cbn; rewrite Er; cbn; rewrite Em|by constructor]. cbn [collect].
  assert (one_pair p = Ok [t]) as -> by (unfold one_pair; by rewrite E). cbn. by rewrite Ec.
Qed.

Lemma read_joined ts l : mapM read_pair ts = Some l -> Forall (fun t => chr "&" ∉ t /\ t <> []) ts -> read_query (join_amp ts) = Some l.
Proof.
  intros Hm Hts. destruct ts as [|t ts]; [by injection Hm as <-|].
  assert (join_amp (t :: ts) <> []) as Hne.
  { inversion Hts as [|? ? [_ Ht] _]; subst. destruct ts; cbn [join_amp]; by destruct t. }
  unfold read_query. destruct (join_amp (t :: ts)) eqn:E; [done|]. rewrite <-E, split_join; [done..|].
  eapply Forall_impl; [exact Hts|]. by intros ? [? _].
Qed.

(** ** Leaves *)

Definition ends_with_brackets (key : jstr) : bool := bool_decide (str "[]" `suffix_of` key).

(** The values inside one, each with its key: the key of an object followed by the
    name of the member in brackets, that of an array followed by the index in
    brackets if the element is an object or an array, else by empty brackets; the
    elements of an array whose key ends with empty brackets have that key. *)
Fixpoint leaves (key : jstr) (v : jsval) : list (jstr * jsval) :=
  match v with
  | VArr l =>
      (fix items (i : nat) (l : list jsval) : list (jstr * jsval) :=
         match l with
         | [] => []
         | x :: l' =>
             (if ends_with_brackets key then [(key, x)]
              else leaves (key ++ str "[" ++ (if is_object x then N_to_str (N.of_nat i) else []) ++ str "]") x)
             ++ items (S i) l'
         end) 0%nat l
  | VObj props =>
      (fix fields (props : list (jstr * jsval)) : list (jstr * jsval) :=
         match props with
         | [] => []
         | (name, x) :: props' => leaves (key ++ str "[" ++ name ++ str "]") x ++ fields props'
         end) props
  | _ => [(key, v)]
  end.

Definition all_leaves (props : list (jstr * jsval)) : list (jstr * jsval) := flat_map (fun p => leaves p.1 p.2) props.

Lemma jsval_nested_ind (P : jsval -> Prop) :
  (forall v, is_object v = false -> P v) -> (forall l, Forall P l -> P (VArr l)) ->
  (forall props, Forall (fun p => P p.2) props -> P (VObj props)) -> forall v, P v.
Proof.
  intros Hs Ha Ho. fix IH 1. intros [| | | | |l|props|]; try by apply Hs.
  - apply Ha. induction l as [|x l IHl]; constructor; [apply IH|exact IHl].
  - apply Ho. induction props as [|[name x] props IHp]; constructor; [apply IH|exact IHp].
Qed.

Lemma rbracket_ends key : rbracket key = ends_with_brackets key.
Proof.
  unfold rbracket, ends_with_brackets. destruct (rev key) as [|a [|b r]] eqn:E;
    apply (f_equal (@rev N)) in E; rewrite rev_involutive in E; subst key; cbn [rev app].
  - rewrite bool_decide_eq_false_2; [done|]. intros [k Ek]. apply (f_equal length) in Ek. rewrite length_app in Ek. change (length (str "[]")) with 2%nat in Ek. cbn in Ek. lia.
  - rewrite bool_decide_eq_false_2; [done|]. intros [k Ek]. apply (f_equal length) in Ek. rewrite length_app in Ek. change (length (str "[]")) with 2%nat in Ek. cbn in Ek. lia.
  - rewrite <-bool_decide_and, <-app_assoc. apply bool_decide_ext. split.
    + intros [-> ->]. by exists (rev r).
    + intros [k Ek]. change (str "[]") with ([chr "["; chr "]"]) in Ek. cbn [app] in Ek.
      apply app_inj_2 in Ek as [_ [= -> ->]]; done.
Qed.

Lemma collect_app {A} (f : A -> res (list jstr)) l l' : collect f (l ++ l') = a ← collect f l; b ← collect f l'; Ok (a ++ b).
Proof.
  induction l as [|x l IH]; cbn [app collect]; [by destruct (collect f l')|]. rewrite IH. destruct (f x) as [a|e|]; [|done..]. cbn.
  destruct (collect f l) as [b|e|]; [|done..]. cbn. destruct (collect f l') as [d|e|]; [|done..]. cbn. by rewrite app_assoc.
Qed.

Lemma collect_ext {A} (f g : A -> res (list jstr)) l : (forall x, f x = g x) -> collect f l = collect g l.
Proof. intros E. induction l as [|x l IH]; [done|]. cbn [collect]. by rewrite E, IH. Qed.

Lemma collect_map {A B} (f : B -> res (list jstr)) (g : A -> B) l : collect f (List.map g l) = collect (fun x => f (g x)) l.
Proof. induction l as [|x l IH]; [done|]. cbn [List.map collect]. by rewrite IH. Qed.

(** Flattening goes through the leaves in order. *)
Lemma buildParams_leaves v : forall key, buildParams key v false = collect one_pair (leaves key v).
Proof.
  induction v as [v Hv|l IH|props IH] using jsval_nested_ind; intros key.
  - assert (leaves key v = [(key, v)]) as -> by (by destruct v). cbn [collect].
    transitivity (one_pair (key, v)); [by destruct v|]. by destruct (one_pair (key, v)) as [a|e|]; cbn; rewrite ?app_nil_r.
  - cbn [buildParams leaves]. rewrite rbracket_ends. cbn [orb].
    set (i := 0%nat). clearbody i. revert i. induction IH as [|x l Hx _ IHl]; intros i; [done|].
    rewrite collect_app, <-IHl. destruct (ends_with_brackets key).
    + cbn [collect]. unfold one_pair at 1. cbn [fst snd]. by destruct (add key x).
    + by rewrite <-Hx.
  - cbn [buildParams leaves]. induction IH as [|[name x] props Hx _ IHl]; [done|].
    rewrite collect_app, <-IHl. by rewrite <-Hx.
Qed.

(** C26: what [param] writes for an object, not in the traditional way, can be read back: a
    reader that splits at the signs and decodes the escapes finds the values inside the
    object, in order, each under the name of the member followed by the names and indices
    that lead to it, in brackets; the elements of an array that are no objects have empty
    brackets, and all elements of an array whose key ends with empty brackets already have
    just that key. The keys and the texts of the values are any without halves of surrogate
    pairs, and the values are not functions. *)
Theorem param_reads_back props :
  Forall readable (all_leaves props) ->
  exists q, param (VObj props) false = Ok q
    /\ read_query q = Some (List.map (fun p => (p.1, text_of p.2)) (all_leaves props)).
Proof.
  intros (ts & Ec & Em & Hts)%collect_reads. exists (join_amp ts). split; [|by apply read_joined].
  unfold param. cbn [nullish entries]. enough (collect (fun p => buildParams p.1 p.2 false) props = Ok ts) as -> by done.
  rewrite <-Ec. clear ts Ec Em Hts. unfold all_leaves. induction props as [|[name v] props IH]; [done|]. cbn [collect flat_map fst snd] in *.
  by rewrite collect_app, <-IH, buildParams_leaves.
Qed.

(** The controls of forms: [serialize] writes exactly the successful controls,
    with their line ends normalised, so that a reader finds what [serializeArray]
    answers. *)
Theorem serialize_reads_back l :
  Forall (fun p => well_formed p.1 /\ well_formed p.2) (serializeArray l) ->
  exists q, serialize l = Ok q /\ read_query q = Some (serializeArray l).
Proof.
  intros Hwf. destruct (collect_reads (List.map (fun p => (p.1, VStr p.2)) (serializeArray l))) as (ts & Ec & Em & Hts).
  { apply Forall_forall. intros p Hin%list_elem_of_In. apply in_map_iff in Hin as ([k v] & <- & Hin%list_elem_of_In).
    pose proof (proj1 (Forall_forall _ _) Hwf _ Hin) as [? ?]. by split. }
  exists (join_amp ts). split.
  - unfold serialize, param. cbn [nullish]. rewrite collect_map.
    enough (collect (fun x => form_pair (pair_object x)) (serializeArray l) = Ok ts) as -> by done.
    rewrite <-Ec, collect_map. by apply collect_ext.
  - erewrite read_joined; [|exact Em|exact Hts]. rewrite List.map_map. cbn [fst snd]. f_equal. rewrite <-(List.map_id (serializeArray l)) at 2.
    apply List.map_ext. by intros [].
Qed.

End read.

(** ** Examples *)

Definition well_formedb (s : jstr) : bool := forallb (fun c => c <? 65536)%N s && is_ok (code_points s).

Lemma well_formed_check s : well_formedb s = true -> well_formed s.
Proof.
  intros [Hs Hc]%andb_true_iff. split.
  - apply Forall_forall. intros c Hin%list_elem_of_In. apply N.ltb_lt. by apply (proj1 (forallb_forall _ _) Hs).
  - destruct (code_points s) as [l|e|]; [by exists l|done..].
Qed.

#[local] Instance param_env : JsEnv := {|
  call_fn _ _ := Ok VUndef; section_fn _ _ _ := LRet VUndef; fun_prop _ _ := None; fun_source _ := []
|}.

(** Nested values with reserved signs, a line end, a letter beyond ASCII and one
    beyond the basic plane, and keys that end with brackets. *)
Definition param_example : list (jstr * jsval) :=
  [(str "a b", VArr [VStr (str "x&y=z"); VNull; VArr [VNum (Fin 5)]; VObj [(str "q", VStr [228; 55357; 56832]%N)]]);
   (str "o", VObj [(str "p", VBool true); (str "[r", VObj [(str "s", VUndef)])]);
   (str "t[]", VArr [VNum (Fin 1); VArr [VNum (Fin 2); VNum (Fin 3)]; VStr [13; 10]%N])].

Lemma param_reads_back_witness : exists q, param (VObj param_example) false = Ok q
  /\ read_query q = Some [(str "a b[]", str "x&y=z"); (str "a b[]", []); (str "a b[2][]", str "5"); (str "a b[3][q]", [228; 55357; 56832]%N);
       (str "o[p]", str "true"); (str "o[[r][s]", []); (str "t[]", str "1"); (str "t[]", str "2,3"); (str "t[]", [13; 10]%N)].
Proof.
  apply (param_reads_back param_example).
  repeat (apply Forall_cons; split; [split_and!; [exact I|apply well_formed_check; vm_compute; reflexivity..]|]). apply Forall_nil. exact I.
Defined.

Definition form_example : list control :=
  [Control (str "user") (str "INPUT") (str "text") false false (COne (str "m & n"));
   Control (str "go") (str "INPUT") (str "SUBMIT") false false (COne (str "Send"));
   Control (str "c") (str "input") (str "checkbox") false false (COne (str "on"));
   Control (str "s") (str "SELECT") (str "select-multiple") false false (CMany [str "1"; [97; 10; 98]%N]);
   Control (str "d") (str "textarea") [] true false (COne (str "x"))].

Lemma serialize_reads_back_witness : exists q, serialize form_example = Ok q
  /\ read_query q = Some [(str "user", str "m & n"); (str "s", str "1"); (str "s", [97; 13; 10; 98]%N)].
Proof.
  apply (serialize_reads_back form_example).
  repeat (apply Forall_cons; split; [split; apply well_formed_check; vm_compute; reflexivity|]). apply Forall_nil. exact I.
Defined.
