(* ===== verification/AjaxConvert.v ===== *)
(** * Responses of requests: headers, data types, converters

    The functions of [jQuery.ajax] that read a response: the table of headers, the
    choice of the response among those that came ([ajaxHandleResponses]), and the
    chain of conversions ([ajaxConvert]).  Converters and the filter of the data are
    functions of the page, so the section is open in what calling them does. *)

From S2P Require Import Prelude JsNum JsVal.

(** ** Headers *)

Definition line_end (c : N) : bool := ((c =? 10) || (c =? 13) || (c =? 8232) || (c =? 8233))%N.

Fixpoint skip_blanks (s : jstr) : jstr :=
  match s with c :: s' => if ((c =? 32) || (c =? 9))%N then skip_blanks s' else s | [] => [] end.

(** The text up to [\r] or [\n], and the rest. *)
Fixpoint header_value (s : jstr) : jstr * jstr :=
  match s with
  | c :: s' => if ((c =? 10) || (c =? 13))%N then ([], s) else let '(v, r) := header_value s' in (c :: v, r)
  | [] => ([], [])
  end.

(** A line: its name if there is a colon, with what follows; else what follows the
    line. *)
Fixpoint header_line (s : jstr) : option jstr * jstr :=
  match s with
  | [] => (None, [])
  | c :: s' =>
      if (c =? chr ":")%N then (Some [], s')
      else if line_end c then (None, s')
      else let '(n, r) := header_line s' in ((fun n => c :: n) <$> n, r)
  end.

(** The matches of the expression [rheaders]: lines with a colon; the value goes up to
    [\r] or [\n].  Every turn takes at least one character. *)
Fixpoint rheaders (fuel : nat) (s : jstr) : list (jstr * jstr) :=
  match fuel with
  | O => []
  | S n =>
      match s with
      | [] => []
      | _ =>
          match header_line s with
          | (Some name, r) => let '(v, r') := header_value (skip_blanks r) in (name, v) :: rheaders n (tail r')
          | (None, r) => rheaders n r
          end
      end
  end.

Definition header_matches (s : jstr) : list (jstr * jstr) := rheaders (S (length s)) s.

Section headers.
Context (unicode_lower : N -> jstr).
Definition lower (s : jstr) : jstr := toLowerCase unicode_lower s.

(** The object [responseHeaders]: the values of a name, in order. *)
Fixpoint concat_header (t : list (jstr * list jstr)) (name value : jstr) : list (jstr * list jstr) :=
  match t with
  | [] => [(name, [value])]
  | (n, vs) :: t' => if decide (n = name) then (n, vs ++ [value]) :: t' else (n, vs) :: concat_header t' name value
  end.

Definition header_table (s : jstr) : list (jstr * list jstr) :=
  fold_left (fun t m => concat_header t (lower m.1 ++ [chr " "]) m.2) (header_matches s) [].

Fixpoint join_comma (l : list jstr) : jstr :=
  match l with [] => [] | [v] => v | v :: l' => v ++ str ", " ++ join_comma l' end.

Fixpoint table_get {A} (t : list (jstr * A)) (name : jstr) : option A :=
  match t with [] => None | (n, v) :: t' => if decide (n = name) then Some v else table_get t' name end.

(** [getResponseHeader] of a completed request. *)
Definition getResponseHeader (headers key : jstr) : option jstr :=
  join_comma <$> table_get (header_table headers) (lower key ++ [chr " "]).

End headers.

(** ** Data types *)

(** The value of a converter: [true], a function (of the page, or the empty one), or a
    falsy value. *)
Inductive cfun := ConvFn (n : N) | ConvNoop.
Inductive conv := CTrue | CFun (f : cfun) | CFalsy.
Definition conv_truthy (c : conv) : bool := match c with CFalsy => false | _ => true end.

Abbreviation conv_table := (list (jstr * conv)).
Definition conv_get (t : conv_table) (key : jstr) : conv := default CFalsy (table_get t key).

Fixpoint table_set {A} (t : list (jstr * A)) (name : jstr) (v : A) : list (jstr * A) :=
  match t with
  | [] => [(name, v)]
  | (n, w) :: t' => if decide (n = name) then (n, v) :: t' else (n, w) :: table_set t' name v
  end.

Definition star : jstr := str "*".
Definition spaced (a b : jstr) : jstr := a ++ chr " " :: b.

Section responses.
Context `{JsEnv} (unicode_lower : N -> jstr).

(** [name in o] for an object literal. *)
Definition in_object {A} (t : list (jstr * A)) (name : jstr) : bool :=
  match table_get t name with Some _ => true | None => bool_decide (is_Some (object_member name)) end.

Fixpoint drop_stars (l : list jstr) : list jstr :=
  match l with x :: l' => if decide (x = star) then drop_stars l' else l | [] => [] end.

(** The loop over [contents]; a content is a test on the type, or a falsy value. *)
Fixpoint content_type (contents : list (jstr * option (jstr -> bool))) (ct : jstr) : option jstr :=
  match contents with
  | [] => None
  | (type, Some test) :: l => if test ct then Some type else content_type l ct
  | (_, None) :: l => content_type l ct
  end.

(** The loop over the responses that looks for a convertible one: [finalDataType]. *)
Fixpoint convertible (converters : conv_table) (first : option jstr) (responses : list (jstr * jsval)) (firstDataType : jstr) : jstr :=
  match responses with
  | [] => firstDataType
  | (type, _) :: l =>
      if match first with None | Some [] => true | Some t => conv_truthy (conv_get converters (spaced type t)) end
      then if decide (type = []) then firstDataType else type
      else convertible converters first l (if decide (firstDataType = []) then type else firstDataType)
  end.

(** [ajaxHandleResponses]: the data types after it, and the response; [header] is the
    header [Content-Type]. *)
Definition ajaxHandleResponses (dataTypes : list jstr) (contents : list (jstr * option (jstr -> bool))) (converters : conv_table)
    (mimeType : jstr) (header : option jstr) (responses : list (jstr * jsval)) : list jstr * jsval :=
  let types := drop_stars dataTypes in
  let ct := if bool_decide (head dataTypes = Some star)
            then if decide (mimeType = []) then default [] header else mimeType else [] in
  let types := if decide (ct = []) then types
               else match content_type contents ct with Some type => type :: types | None => types end in
  let final := if in_object responses (default (str "undefined") (head types)) then default [] (head types)
               else convertible converters (head types) responses [] in
  if decide (final = []) then (types, VUndef)
  else (if bool_decide (head types = Some final) then types else final :: types,
        default (inherited [] final) (table_get responses final)).

(** ** Conversions *)

Inductive conv_error := CaughtError (e : jstr) | NoConversion (prev current : jstr).
Inductive conv_result := ConvSuccess (v : jsval) | ConvError (e : conv_error).

(** The table with keys in lower case. *)
Definition lower_table (t : conv_table) : conv_table :=
  fold_left (fun acc p => table_set acc (toLowerCase unicode_lower p.1) p.2) t [].

Definition conv_or (a b : conv) : conv := if conv_truthy a then a else b.

(** [split(" ")]: the first two parts, if there are two. *)
Fixpoint split_space (cur s : jstr) : option (jstr * jstr) :=
  match s with
  | [] => None
  | c :: s' => if (c =? 32)%N then Some (rev cur, digits_prefix (fun c => negb (c =? 32)%N) s') else split_space (c :: cur) s'
  end.

(** The search for a pair of converters: the converter to apply, and the type in
    between if it is the first of two to be applied. *)
Fixpoint seek_pair (converters : conv_table) (prev current : jstr) (l : conv_table) : conv * option jstr :=
  match l with
  | [] => (CFalsy, None)
  | (conv2, c2) :: l' =>
      match split_space [] conv2 with
      | Some (a, b) =>
          if decide (b = current) then
            match conv_or (conv_get converters (spaced prev a)) (conv_get converters (spaced star a)) with
            | CTrue => (c2, None)
            | CFalsy => seek_pair converters prev current l'
            | c => (c, match c2 with CTrue => None | _ => Some a end)
            end
          else seek_pair converters prev current l'
      | None => seek_pair converters prev current l'
      end
  end.

Definition seek (converters : conv_table) (prev current : jstr) : conv * option jstr :=
  match conv_or (conv_get converters (spaced prev current)) (conv_get converters (spaced star current)) with
  | CFalsy => seek_pair converters prev current converters
  | c => (c, None)
  end.

Context {S : Type} (call_conv : cfun -> jsval -> SM S jsval) (dataFilter : option (jsval -> SM S jsval))
        (set_field : jstr -> jsval -> SM S unit).

(** Applying what [seek] found; an exception is caught unless [throws]. *)
Definition apply_conv (throws : bool) (c : conv) (prev current : jstr) (response : jsval) : SM S (jsval + conv_error) :=
  match c with
  | CTrue => mret (inl response)
  | CFun f =>
      if throws then v ← call_conv f response; mret (inl v)
      else fun s => match call_conv f response s with
                    | (Ok v, s') => (Ok (inl v), s')
                    | (Throw e, s') => (Ok (inr (CaughtError e)), s')
                    | (NoFuel, s') => (NoFuel, s')
                    end
  | CFalsy => mret (inr (NoConversion prev current))
  end.

(** Storing the response in a field of the request, and the filter. *)
Definition store_field (fields : list (jstr * jstr)) (current : jstr) (response : jsval) : SM S unit :=
  let field := default (inherited [] current) (VStr <$> table_get fields current) in
  sm_when (truthy field) (set_field (to_string field) response).

(** The loop; [first] says that there is no type before. *)
Fixpoint convert_loop (fuel : nat) (converters : conv_table) (fields : list (jstr * jstr)) (isSuccess throws : bool)
    (first : bool) (current : jstr) (dataTypes : list jstr) (response : jsval) : SM S conv_result :=
  match fuel with
  | O => sm_lift NoFuel
  | Datatypes.S n =>
      if decide (current = []) then mret (ConvSuccess response)
      else
        store_field fields current response ;;
        response ← match dataFilter with
                   | Some f => if first && isSuccess then f response else mret response
                   | None => mret response
                   end;
        let loop := convert_loop n converters fields isSuccess throws false in
        match dataTypes with
        | [] => mret (ConvSuccess response)
        | next :: rest =>
            if decide (next = []) then mret (ConvSuccess response)
            else if decide (next = star) then loop current rest response
            else if bool_decide (current = star) || bool_decide (current = next) then loop next rest response
            else
              let '(c, between) := seek converters current next in
              let '(target, rest) := match between with Some a => (a, next :: rest) | None => (next, rest) end in
              r ← apply_conv throws c current target response;
              match r with
              | inl response => loop target rest response
              | inr e => mret (ConvError e)
              end
        end
  end.

Definition ajaxConvert (fuel : nat) (dataTypes : list jstr) (converters : conv_table) (fields : list (jstr * jstr))
    (isSuccess throws : bool) (response : jsval) : SM S conv_result :=
  let table := match dataTypes with _ :: (_ :: _) :: _ => lower_table converters | _ => [] end in
  convert_loop fuel table fields isSuccess throws true (default [] (head dataTypes)) (tail dataTypes) response.

End responses.
