(* ===== verification/AjaxConvertProps.v ===== *)
(** * Reading responses

    The table of headers answers what the header text says; the chain of conversions
    is the composition of the converters, and ends. *)

From S2P Require Import Prelude JsNum JsVal AjaxConvert.

(** ** Headers *)

Section headers.
Context (unicode_lower : N -> jstr).

Definition name_clean (n : jstr) : Prop := Forall (fun c => line_end c = false /\ c <> chr ":") n.
Definition value_clean (v : jstr) : Prop :=
  Forall (fun c => c <> 10%N /\ c <> 13%N) v /\ match v with c :: _ => c <> 32%N /\ c <> 9%N | [] => True end.

(** A block of headers as it is sent. *)
Definition header_block (hs : list (jstr * jstr)) : jstr :=
  flat_map (fun h => h.1 ++ chr ":" :: 32%N :: h.2 ++ [13; 10]%N) hs.

Lemma header_line_name n r : name_clean n -> header_line (n ++ chr ":" :: r) = (Some n, r).
Proof.
  induction 1 as [|c n [Hc Hn] _ IH]; cbn [app header_line]; [by rewrite N.eqb_refl|].
  rewrite (proj2 (N.eqb_neq _ _) Hn), Hc, IH. done.
Qed.

Lemma header_value_text v r : Forall (fun c => c <> 10%N /\ c <> 13%N) v -> header_value (v ++ 13%N :: r) = (v, 13%N :: r).
Proof.
  induction 1 as [|c v [H10 H13] _ IH]; cbn [app header_value]; [done|].
  rewrite (proj2 (N.eqb_neq _ _) H10), (proj2 (N.eqb_neq _ _) H13), IH. done.
Qed.

Lemma skip_blanks_value v r : value_clean v -> skip_blanks (32%N :: v ++ 13%N :: r) = v ++ 13%N :: r.
Proof.
  intros [_ Hv]. destruct v as [|c v]; [done|]. destruct Hv as [H32 H9]. cbn [app skip_blanks].
  rewrite (proj2 (N.eqb_neq _ _) H32), (proj2 (N.eqb_neq _ _) H9). done.
Qed.

Lemma rheaders_line m n v r : name_clean n -> value_clean v ->
  rheaders (S m) (n ++ chr ":" :: 32%N :: v ++ 13%N :: r) = (n, v) :: rheaders m r.
Proof.
  intros Hn Hv. cbn [rheaders]. rewrite header_line_name, skip_blanks_value by done. rewrite header_value_text by apply Hv. by destruct n.
Qed.

Lemma header_block_cons n v hs : header_block ((n, v) :: hs) = n ++ chr ":" :: 32%N :: v ++ 13%N :: 10%N :: header_block hs.
Proof. cbn [header_block flat_map fst snd]. rewrite <-!app_assoc. cbn [app]. by rewrite <-app_assoc. Qed.

Lemma rheaders_block hs : Forall (fun h => name_clean h.1 /\ value_clean h.2) hs ->
  forall fuel, (2 * length hs <= fuel)%nat -> rheaders fuel (header_block hs) = hs.
Proof.
  induction 1 as [|[n v] hs [Hn Hv] _ IH]; intros fuel Hf; [by destruct fuel|].
  destruct fuel as [|[|fuel]]; [cbn in Hf; lia..|]. rewrite header_block_cons, rheaders_line by done. f_equal.
  cbn [rheaders header_line]. change ((10 =? chr ":")%N) with false. cbn [line_end N.eqb Pos.eqb orb]. apply IH. cbn in Hf. lia.
Qed.

Lemma block_length hs : (2 * length hs <= length (header_block hs))%nat.
Proof. induction hs as [|[n v] hs IH]; [done|]. rewrite header_block_cons, length_app. cbn [length]. rewrite length_app. cbn [length]. lia. Qed.

Lemma table_concat t name value key : table_get (concat_header t name value) key
  = if decide (name = key) then Some (default [] (table_get t key) ++ [value]) else table_get t key.
Proof.
  induction t as [|[n vs] t IH]; cbn [concat_header table_get].
  - by case_decide.
  - destruct (decide (n = name)) as [->|Hn]; cbn [table_get]; [by destruct (decide (name = key))|].
    rewrite IH. repeat case_decide; congruence || done.
Qed.

(** The values of the headers with a name, however it is spelt. *)
Definition values_of (hs : list (jstr * jstr)) (key : jstr) : list jstr :=
  List.map snd (List.filter (fun h => bool_decide (lower unicode_lower h.1 = lower unicode_lower key)) hs).

Lemma header_fold hs key : forall t,
  table_get (fold_left (fun t m => concat_header t (lower unicode_lower m.1 ++ [chr " "]) m.2) hs t) (lower unicode_lower key ++ [chr " "])
  = match values_of hs key with [] => table_get t (lower unicode_lower key ++ [chr " "])
    | vs => Some (default [] (table_get t (lower unicode_lower key ++ [chr " "])) ++ vs) end.
Proof.
  unfold values_of. induction hs as [|[n v] hs IH]; intros t; cbn [fold_left]; [done|]. rewrite IH, table_concat. cbn [List.filter fst snd].
  case_bool_decide as E.
  - rewrite decide_True by (by rewrite E). cbn [List.map snd]. destruct (List.map snd _); [done|]. simpl. by rewrite <-app_assoc.
  - rewrite decide_False; [done|]. intros [? _]%app_inj_2; done.
Qed.

(** [getResponseHeader] answers the values of the headers with the name it is
    given, in whatever case it is spelt, in their order and with commas between; a
    name that is not there answers null. *)
Theorem response_headers_read hs key :
  Forall (fun h => name_clean h.1 /\ value_clean h.2) hs ->
  getResponseHeader unicode_lower (header_block hs) key
  = match values_of hs key with [] => None | vs => Some (join_comma vs) end.
Proof.
  intros Hhs. unfold getResponseHeader, header_table, header_matches.
  rewrite rheaders_block by (try done; pose proof (block_length hs); lia). rewrite header_fold. cbn [table_get].
  by destruct (values_of hs key).
Qed.

End headers.

Lemma response_headers_read_witness :
  getResponseHeader (fun c => [c]) (header_block [(str "Set-Cookie", str "a=1"); (str "Content-Type", str "text/html: x"); (str "set-cookie", str "b=2 ")])
    (str "SET-cookie") = Some (str "a=1, b=2 ").
Proof.
  apply (response_headers_read (fun c => [c]) [(str "Set-Cookie", str "a=1"); (str "Content-Type", str "text/html: x"); (str "set-cookie", str "b=2 ")]).
  repeat (apply Forall_cons; split; [split; [|split]; vm_compute; repeat (apply Forall_cons || split || apply Forall_nil || exact I); try done|]).
  apply Forall_nil. exact I.
Defined.

(** ** The chain of conversions *)

Section chain.
Context `{JsEnv} (unicode_lower : N -> jstr).
(** What the converters do to values. *)
Context (F : cfun -> jsval -> res jsval).

(** A converter applied to a value; without [throws] an exception is an error. *)
Definition converted (throws : bool) (c : conv) (v : jsval) (e : conv_error) : res (jsval + conv_error) :=
  match c with
  | CTrue => Ok (inl v)
  | CFun f => match F f v with Throw x => if throws then Throw x else Ok (inr (CaughtError x)) | Ok w => Ok (inl w) | NoFuel => NoFuel end
  | CFalsy => Ok (inr e)
  end.

(** From one type to the next: the converter for the two or for any type, or else
    the first pair of converters that meet in a type between. *)
Definition direct (t : conv_table) (a b : jstr) : conv := conv_or (conv_get t (spaced a b)) (conv_get t (spaced star b)).

Fixpoint first_pair (t : conv_table) (a b : jstr) (l : conv_table) : option (jstr * conv * conv) :=
  match l with
  | [] => None
  | (key, c) :: l' =>
      match split_space [] key with
      | Some (m, b') => if decide (b' = b) then
                          if conv_truthy (direct t a m) then Some (m, direct t a m, c) else first_pair t a b l'
                        else first_pair t a b l'
      | None => first_pair t a b l'
      end
  end.

Definition step (throws : bool) (t : conv_table) (a b : jstr) (v : jsval) : res (jsval + conv_error) :=
  if conv_truthy (direct t a b) then converted throws (direct t a b) v (NoConversion a b)
  else match first_pair t a b t with
       | None => Ok (inr (NoConversion a b))
       | Some (m, c1, c2) =>
           r ← converted throws c1 v (NoConversion a m);
           match r with inl w => converted throws c2 w (NoConversion m b) | inr e => Ok (inr e) end
       end.

(** Through all the types, where [*] and repetitions do not count. *)
Fixpoint chain (throws : bool) (t : conv_table) (a : jstr) (types : list jstr) (v : jsval) : res conv_result :=
  match types with
  | [] => Ok (ConvSuccess v)
  | b :: types' =>
      if decide (b = []) then Ok (ConvSuccess v)
      else if decide (b = star) then chain throws t a types' v
      else if bool_decide (a = star) || bool_decide (a = b) then chain throws t b types' v
      else r ← step throws t a b v;
           match r with inl w => chain throws t b types' w | inr e => Ok (ConvError e) end
  end.

(** Tables with one space in every key, two names around it, and no falsy values;
    keys are different, as in every object. *)
Definition entries_ok (t : conv_table) : Prop := Forall (fun p => conv_truthy p.2 = true
  /\ exists a b, p.1 = spaced a b /\ a <> [] /\ b <> [] /\ 32%N ∉ a /\ 32%N ∉ b) t.

Lemma split_space_spaced a b cur : 32%N ∉ a -> 32%N ∉ b -> split_space cur (spaced a b) = Some (rev cur ++ a, b).
Proof.
  intros Ha Hb. unfold spaced. revert cur. induction a as [|c a IH]; intros cur; cbn [app split_space].
  - rewrite app_nil_r. change ((chr " " =? 32)%N) with true. cbv iota. repeat f_equal.
    clear -Hb. induction b as [|c b IH]; [done|]. apply not_elem_of_cons in Hb as [Hc Hb]. cbn [digits_prefix].
    rewrite (proj2 (N.eqb_neq _ _)) by congruence. cbn [negb]. by rewrite IH.
  - apply not_elem_of_cons in Ha as [Hc Ha]. rewrite (proj2 (N.eqb_neq _ _)), IH by congruence. cbn [rev]. by rewrite <-app_assoc.
Qed.

Lemma conv_get_in t key c : NoDup (List.map fst t) -> (key, c) ∈ t -> conv_get t key = c.
Proof.
  unfold conv_get. induction t as [|[k d] t IH]; intros Hnd Hin; [by apply not_elem_of_nil in Hin|]. cbn [table_get List.map fst] in *.
  apply NoDup_cons in Hnd as [Hk Hnd]. apply elem_of_cons in Hin as [[= -> ->]|Hin]; [by rewrite decide_True|].
  rewrite decide_False; [by apply IH|]. intros ->. apply Hk, list_elem_of_In. apply list_elem_of_In in Hin. by apply (in_map fst) in Hin.
Qed.

Definition table_ok (t : conv_table) : Prop := entries_ok t /\ NoDup (List.map fst t).

(** What [seek] finds, next to the reference. *)
Lemma seek_pair_first t a b l : entries_ok l ->
  match first_pair t a b l with
  | None => seek_pair t a b l = (CFalsy, None)
  | Some (m, c1, c2) => c1 = direct t a m /\ conv_truthy c1 = true /\ m <> [] /\ 32%N ∉ m /\ (spaced m b, c2) ∈ l
      /\ seek_pair t a b l = match c1, c2 with CTrue, _ => (c2, None) | _, CTrue => (c1, None) | _, _ => (c1, Some m) end
  end.
Proof.
  induction l as [|[key c2] l IH]; intros Ht; cbn [first_pair seek_pair]; [done|].
  apply Forall_cons in Ht as [[Hc (x & y & Ek & Hx & Hy & Hx32 & Hy32)] Ht']. cbn [fst snd] in *. subst key.
  specialize (IH Ht'). rewrite split_space_spaced by done. cbn [rev app].
  assert (match first_pair t a b l with
    | Some (m, c1, c3) => c1 = direct t a m /\ conv_truthy c1 = true /\ m <> [] /\ 32%N ∉ m /\ (spaced m b, c3) ∈ (spaced x y, c2) :: l
        /\ seek_pair t a b l = match c1, c3 with CTrue, _ => (c3, None) | _, CTrue => (c1, None) | _, _ => (c1, Some m) end
    | None => seek_pair t a b l = (CFalsy, None) end) as IH'.
  { destruct (first_pair t a b l) as [[[m c1] c3]|]; [|done].
    destruct IH as (? & ? & ? & ? & ? & ?). split_and!; try done. by right. }
  destruct (decide (y = b)) as [->|Hyb]; [|done]. fold (direct t a x).
  destruct (direct t a x) eqn:Ed; cbn [conv_truthy]; [| |done].
  - split_and!; try done. by left.
  - split_and!; try done; [by left|]. by destruct c2.
Qed.

Context {S : Type} (set_field : jstr -> jsval -> SM S unit).
Hypothesis set_field_completes : forall n v s, exists s', set_field n v s = (Ok tt, s').
(** Converters without effects. *)
Definition call_pure (f : cfun) (v : jsval) : SM S jsval := sm_lift (F f v).
(** A [dataFilter], if there is one, without effects; it is called once, with the
    response of a request that succeeded. *)
Context (filter : option (jsval -> res jsval)).
Definition filter_pure : option (jsval -> SM S jsval) := (fun f v => sm_lift (f v)) <$> filter.
Definition filtered (isSuccess : bool) (v : jsval) : res jsval :=
  match filter with Some f => if isSuccess then f v else Ok v | None => Ok v end.
Abbreviation loop := (convert_loop call_pure filter_pure set_field).

Lemma store_completes fields a v s : exists s', store_field set_field fields a v s = (Ok tt, s').
Proof. unfold store_field, sm_when. destruct (truthy _); [apply set_field_completes|by eexists]. Qed.

Lemma apply_converted throws c a b v s :
  apply_conv call_pure throws c a b v s = (converted throws c v (NoConversion a b), s).
Proof.
  unfold apply_conv, converted, call_pure, sm_lift. destruct c as [|f|]; [done| |done]. destruct throws.
  - unfold mbind, sm_bind. by destruct (F f v).
  - by destruct (F f v).
Qed.

(** A turn of the loop. *)
Definition turn (throws : bool) (n : nat) (t : conv_table) (fields : list (jstr * jstr)) (isSuccess : bool) (a : jstr) (types : list jstr) (v : jsval) : SM S conv_result :=
  match types with
  | [] => mret (ConvSuccess v)
  | b :: rest =>
      if decide (b = []) then mret (ConvSuccess v)
      else if decide (b = star) then loop n t fields isSuccess throws false a rest v
      else if bool_decide (a = star) || bool_decide (a = b) then loop n t fields isSuccess throws false b rest v
      else
        let '(c, between) := seek t a b in
        let '(target, rest) := match between with Some m => (m, b :: rest) | None => (b, rest) end in
        r ← apply_conv call_pure throws c a target v;
        match r with inl w => loop n t fields isSuccess throws false target rest w | inr e => mret (ConvError e) end
  end.

Lemma loop_filtered throws n t fields isSuccess first a types v s : a <> [] -> exists s',
  loop (Datatypes.S n) t fields isSuccess throws first a types v s
  = (v' ← sm_lift (if first then filtered isSuccess v else Ok v); turn throws n t fields isSuccess a types v') s'.
Proof.
  intros Ha. cbn [convert_loop]. rewrite decide_False by done. destruct (store_completes fields a v s) as [s' E].
  exists s'. rewrite (sm_bind_eq _ _ _ _ _ E). unfold turn, filter_pure, filtered. destruct filter, first, isSuccess; done.
Qed.

Lemma loop_turn throws n t fields isSuccess a types v s : a <> [] -> exists s',
  loop (Datatypes.S n) t fields isSuccess throws false a types v s = turn throws n t fields isSuccess a types v s'.
Proof.
  intros Ha. destruct (loop_filtered throws n t fields isSuccess false a types v s Ha) as [s' E]. by exists s'.
Qed.

Lemma seek_direct t a b c : direct t a b = c -> conv_truthy c = true -> seek t a b = (c, None).
Proof. intros <- Hc. unfold seek. fold (direct t a b). by destruct (direct t a b). Qed.

Lemma seek_first t a b : table_ok t -> conv_truthy (direct t a b) = false -> seek t a b
  = match first_pair t a b t with
    | None => (CFalsy, None)
    | Some (m, c1, c2) => match c1, c2 with CTrue, _ => (c2, None) | _, CTrue => (c1, None) | _, _ => (c1, Some m) end
    end.
Proof.
  intros Ht Hd. unfold seek. fold (direct t a b). destruct (direct t a b); try done.
  pose proof (seek_pair_first t a b t (proj1 Ht)) as Hs. destruct (first_pair t a b t) as [[[m c1] c2]|]; [|done]. apply Hs.
Qed.

Lemma apply_bind throws c a b v (K : jsval -> SM S conv_result) (R : jsval -> res conv_result) s :
  (forall w s', (K w s').1 = R w) ->
  ((r ← apply_conv call_pure throws c a b v; match r with inl w => K w | inr e => mret (ConvError e) end) s).1
  = r ← converted throws c v (NoConversion a b); match r with inl w => R w | inr e => Ok (ConvError e) end.
Proof.
  intros HK. rewrite (sm_bind_eq _ _ _ _ _ (apply_converted throws c a b v s)).
  destruct (converted throws c v (NoConversion a b)) as [[w|e']|x|]; [apply HK|done..].
Qed.

Lemma turn_chain throws t fields isSuccess : table_ok t -> forall types n a v s,
  (2 * length types <= n)%nat -> a <> [] ->
  (turn throws n t fields isSuccess a types v s).1 = chain throws t a types v.
Proof.
  intros Ht types. induction types as [|b types IHt]; intros n a v s Hn Ha; cbn [turn chain]; [done|].
  assert (forall n a v s, (2 * length types < n)%nat -> a <> [] ->
    (loop n t fields isSuccess throws false a types v s).1 = chain throws t a types v) as IH.
  { clear -IHt set_field_completes. intros n a v s Hn Ha. destruct n as [|n]; [lia|].
    destruct (loop_turn throws n t fields isSuccess a types v s Ha) as [s0 ->]. apply IHt; [lia|done]. }
  cbn [length] in Hn. destruct (decide (b = [])) as [|Hb]; [done|]. destruct (decide (b = star)) as [|Hbs]; [apply IH; [lia|done]|].
  destruct (bool_decide (a = star) || bool_decide (a = b)) eqn:Eab; [apply IH; [lia|done]|].
  unfold step. destruct (conv_truthy (direct t a b)) eqn:Ed.
  - rewrite (seek_direct t a b _ eq_refl Ed). apply apply_bind. intros w s'. apply IH; [lia|done].
  - rewrite (seek_first t a b Ht Ed). pose proof (seek_pair_first t a b t (proj1 Ht)) as Hp.
    destruct (first_pair t a b t) as [[[m c1] c2]|]; [|done]. destruct Hp as (-> & Hc1 & Hm & Hm32 & Hin & _).
    pose proof (conv_get_in _ _ _ (proj2 Ht) Hin) as Eget.
    assert (conv_truthy c2 = true) as Hc2 by (apply (proj1 (Forall_forall _ _) (proj1 Ht)) in Hin; apply Hin).
    destruct (direct t a m) as [|f|] eqn:Edm; [|destruct c2 as [|g|]; [| |done]|done]; cbn [converted mbind res_bind].
    + rewrite (apply_bind throws c2 a b v _ (chain throws t b types)); [by destruct c2|]. intros w s'. apply IH; [lia|done].
    + rewrite (apply_bind throws (CFun f) a b v _ (chain throws t b types)) by (intros w s'; apply IH; [lia|done]).
      cbn [converted]. destruct (F f v) as [w|e|]; [done| |done]. by destruct throws.
    + rewrite (apply_bind throws (CFun f) a m v _ (fun w => r ← converted throws (CFun g) w (NoConversion m b);
          match r with inl w => chain throws t b types w | inr e => Ok (ConvError e) end)).
      * cbn [converted]. destruct (F f v) as [w|e|]; [done| |done]. by destruct throws.
      * intros w s'. destruct n as [|n]; [lia|]. destruct (loop_turn throws n t fields isSuccess m (b :: types) w s' Hm) as [s1 ->].
        cbn [turn]. rewrite !decide_False by done.
        assert (direct t m b = CFun g) as Emb by (unfold direct; by rewrite Eget).
        rewrite (bool_decide_eq_false_2 (m = star)), (bool_decide_eq_false_2 (m = b)); cbn [orb].
        -- rewrite (seek_direct t m b _ Emb eq_refl). apply apply_bind. intros w' s2. apply IH; [lia|done].
        -- intros ->. by rewrite Edm in Ed.
        -- intros ->. unfold direct in Ed. rewrite Eget in Ed. by destruct (conv_get t (spaced a b)).
Qed.

(** C25: [ajaxConvert] ends, and its answer is that of the chain of data types: from
    each type to the next by the direct converter, or else by the first pair of
    converters in the table that meet in a type between, an exception of a converter
    being an error of the conversion unless [throws] is set; types that are equal to
    their predecessor or [*] need no converter.  What is converted is the response,
    or what [dataFilter] makes of it if there is one and the request succeeded.
    Converters and filter without effects; the table has names around one space as
    keys, all different, and no falsy values; the first type is not empty. *)
Theorem conversions_chain converters fields isSuccess throws fuel a types v s :
  table_ok (lower_table unicode_lower converters) -> a <> [] -> (2 * length types < fuel)%nat ->
  (ajaxConvert unicode_lower call_pure filter_pure set_field fuel (a :: types) converters fields isSuccess throws v s).1
  = v' ← filtered isSuccess v; chain throws (lower_table unicode_lower converters) a types v'.
Proof.
  intros Ht Ha Hf. unfold ajaxConvert. change (default [] (head (a :: types))) with a. cbn [tail]. destruct fuel as [|n]; [lia|].
  match goal with |- context [loop _ ?t _ _ _ _ _ _ _ _] => set (table := t) end.
  destruct (loop_filtered throws n table fields isSuccess true a types v s Ha) as [s' ->].
  unfold mbind at 1, sm_bind, sm_lift. destruct (filtered isSuccess v) as [v'|e|]; [|done..]. cbn [mbind res_bind].
  destruct types as [|[|c b] types]; [done|done|]. apply turn_chain; [done|lia|done].
Qed.

End chain.

(** ** The converters of jQuery *)

(** [String] and [JSON.parse] are the functions 0 and 1, [parseXML] and [globalEval]
    2 and 3. *)
Definition jquery_converters : conv_table :=
  [(str "* text", CFun (ConvFn 0)); (str "text html", CTrue); (str "text json", CFun (ConvFn 1)); (str "text xml", CFun (ConvFn 2)); (str "text script", CFun (ConvFn 3))].

#[local] Instance convert_env : JsEnv := {|
  call_fn _ _ := Ok VUndef; section_fn _ _ _ := LRet VUndef; fun_prop _ _ := None; fun_source _ := []
|}.

Definition convert_demo (f : cfun) (v : jsval) : res jsval :=
  match f with ConvFn 0 => Ok (VStr (to_string v)) | ConvFn 1 => Ok (VObj [(str "parsed", v)]) | _ => Throw (str "Error") end.

(** A filter that ends a text. *)
Definition demo_filter (v : jsval) : res jsval := Ok (VStr (to_string v ++ str ";")).

(** A number is filtered, made a text and parsed. *)
Lemma conversions_chain_witness :
  (ajaxConvert (fun c => [c]) (call_pure convert_demo) (filter_pure (Some demo_filter)) (fun _ _ s => (Ok tt, s)) 5
     [str "blob"; str "json"] jquery_converters [] true false (VNum (Fin 7)) tt).1
  = Ok (ConvSuccess (VObj [(str "parsed", VStr (str "7;"))])).
Proof.
  refine (conversions_chain (fun c => [c]) convert_demo (fun _ _ s => (Ok tt, s)) (fun _ _ s => ex_intro _ s eq_refl)
    (Some demo_filter) jquery_converters [] true false 5 (str "blob") [str "json"] (VNum (Fin 7)) tt _ _ _).
  - split.
    + repeat (apply Forall_cons; split; [split; [reflexivity|]|]); [| | | | |apply Forall_nil; exact I].
      1: exists (str "*"), (str "text"). 2: exists (str "text"), (str "html"). 3: exists (str "text"), (str "json").
      4: exists (str "text"), (str "xml"). 5: exists (str "text"), (str "script").
      all: split_and!; [reflexivity|discriminate|discriminate|apply (bool_decide_unpack _); vm_compute; exact I..].
    + apply (bool_decide_unpack _). vm_compute. exact I.
  - discriminate.
  - cbn. lia.
Defined.

(** A converter that is switched off with a falsy value makes the loop endless, where
    an error is meant: the search takes the entry that is switched off for the second
    of a pair whose first converter leads from the type to itself. *)
Theorem convert_endless fuel v s :
  (ajaxConvert (fun c => [c]) (call_pure convert_demo) None (fun (_ : jstr) (_ : jsval) (s : unit) => (Ok tt, s)) fuel
     [str "text"; str "json"] [(str "* text", CFun (ConvFn 0)); (str "text html", CTrue); (str "text json", CFalsy)] [] true false v s).1 = NoFuel.
Proof.
  unfold ajaxConvert. cbn [head tail default].
  change (match str "json" with [] => _ | _ => _ end) with
    (lower_table (fun c => [c]) [(str "* text", CFun (ConvFn 0)); (str "text html", CTrue); (str "text json", CFalsy)]).
  set (t := lower_table _ _).
  enough (forall fuel first v s, (convert_loop (call_pure convert_demo) None (fun (_ : jstr) (_ : jsval) (s : unit) => (Ok tt, s)) fuel
    t [] true false first (str "text") [str "json"] v s).1 = NoFuel) as Hloop by apply Hloop.
  assert (seek t (str "text") (str "json") = (CFun (ConvFn 0), Some (str "text"))) as Es by (vm_compute; reflexivity).
  clearbody t. clear -Es. intros fuel. induction fuel as [|n IH]; intros first v s; [done|].
  destruct (loop_filtered convert_demo (fun _ _ s => (Ok tt, s)) (fun _ _ s => ex_intro _ s eq_refl) None false n t [] true first (str "text") [str "json"] v s)
    as [s' E]; [discriminate|]. cbn [filter_pure fmap option_fmap option_map] in E. rewrite E. clear E.
  replace (if first then filtered None true v else Ok v) with (Ok v : res jsval) by by destruct first.
  change (sm_lift (Ok v)) with (mret v : SM unit jsval). rewrite sm_ret_bind. cbn [turn]. rewrite !decide_False by discriminate.
  rewrite !bool_decide_eq_false_2 by discriminate. cbn [orb]. rewrite Es. apply IH.
Qed.
