(* ===== verification/Ajax.v ===== *)
(** * Requests: jQuery.ajax

    The life of a request: its settings, prefilters and transports, the request
    object with its headers and its methods, the completion with conversion,
    callbacks and global events, abortion and timeouts.  Functions of the page run
    at many places and may do anything with any request, so the model is an
    interpreter with a heap of requests, as for queues and events. *)

From S2P Require Import Prelude JsNum JsVal Callbacks Param AjaxConvert.

(** ** Values *)

(** The callback lists of a request: of its deferred the ones for done and fail, and
    [completeDeferred]. *)
Inductive lid := LDone (x : nat) | LFail (x : nat) | LComplete (x : nat).

#[export] Instance lid_eq_dec : EqDecision lid.
Proof. solve_decision. Defined.
#[export] Instance lid_countable : Countable lid.
Proof.
  apply (inj_countable' (fun l => match l with LDone x => inl (inl x) | LFail x => inl (inr x) | LComplete x => inr x end)
           (fun s => match s with inl (inl x) => LDone x | inl (inr x) => LFail x | inr x => LComplete x end)). by intros [].
Defined.

(** A callback: a function of the page, and the ones with which a deferred begins its
    lists, that set its state and disable the list of the other outcome. *)
Inductive afn := AUser (n : N) | AState (x : nat) (state : jstr) | ADisable (l : lid).

#[export] Instance afn_eq_dec : EqDecision afn.
Proof. solve_decision. Defined.

(** A transport: an object with functions of the page, or another truthy value. *)
Inductive transport := TObj (send abort : N) | TOther.

(** The values that functions are given and answer; [VFinish] is the function [done]
    of a request, which its transport calls. *)
Inductive aval :=
  | VJs (v : jsval)
  | VReq (x : nat)
  | VSettings (x : nat)
  | VTransport (t : transport)
  | VFinish (x : nat)
  | VHeaders (l : list (jstr * jstr)).

Definition a_undef : aval := VJs VUndef.
Definition a_is_false (v : aval) : bool := match v with VJs (VBool false) => true | _ => false end.
Definition a_str (s : jstr) : aval := VJs (VStr s).
(** A response that is no plain value is an object. *)
Definition as_js (v : aval) : jsval := match v with VJs v => v | _ => VObj [] end.

(** The global events. *)
Inductive gevent := AjaxStart | AjaxSend | AjaxSuccess | AjaxError | AjaxComplete | AjaxStop.

(** ** Settings *)

(** What the code never changes; a missing [context] is the settings themselves, and
    [s_own_type] says that the caller has given [contentType].  Texts are empty where
    there is none. *)
Record afixed := AFixed {
  s_fields : list (jstr * jstr);
  s_accepts : list (jstr * jstr);
  s_headers : list (jstr * jstr);
  s_processData : bool;
  s_traditional : bool;
  s_ifModified : bool;
  s_global : bool;
  s_async : bool;
  s_timeout : Z;
  s_throws : bool;
  s_dataFilter : option N;
  s_beforeSend : option N;
  s_success : list (arg afn);
  s_error : list (arg afn);
  s_complete : list (arg afn);
  s_statusCode : list (jstr * arg afn);
  s_context : option aval;
  s_dataType : jstr;
  s_own_type : bool
}.

(** The settings of a request. *)
Record aset := ASet {
  s_fixed : afixed;
  s_url : jstr;
  s_type : jstr;
  s_dataTypes : list jstr;
  s_data : jsval;
  s_converters : conv_table;
  s_mimeType : jstr;
  s_hasContent : bool;
  s_crossDomain : option bool;
  s_contents : list (jstr * option (jstr -> bool));
  s_contentType : option jstr;
  s_cache : option bool
}.

Definition set_url x s := ASet (s_fixed s) x (s_type s) (s_dataTypes s) (s_data s) (s_converters s) (s_mimeType s) (s_hasContent s) (s_crossDomain s) (s_contents s) (s_contentType s) (s_cache s).
Definition set_type x s := ASet (s_fixed s) (s_url s) x (s_dataTypes s) (s_data s) (s_converters s) (s_mimeType s) (s_hasContent s) (s_crossDomain s) (s_contents s) (s_contentType s) (s_cache s).
Definition set_dataTypes x s := ASet (s_fixed s) (s_url s) (s_type s) x (s_data s) (s_converters s) (s_mimeType s) (s_hasContent s) (s_crossDomain s) (s_contents s) (s_contentType s) (s_cache s).
Definition set_data x s := ASet (s_fixed s) (s_url s) (s_type s) (s_dataTypes s) x (s_converters s) (s_mimeType s) (s_hasContent s) (s_crossDomain s) (s_contents s) (s_contentType s) (s_cache s).
Definition set_converters x s := ASet (s_fixed s) (s_url s) (s_type s) (s_dataTypes s) (s_data s) x (s_mimeType s) (s_hasContent s) (s_crossDomain s) (s_contents s) (s_contentType s) (s_cache s).
Definition set_mimeType x s := ASet (s_fixed s) (s_url s) (s_type s) (s_dataTypes s) (s_data s) (s_converters s) x (s_hasContent s) (s_crossDomain s) (s_contents s) (s_contentType s) (s_cache s).
Definition set_hasContent x s := ASet (s_fixed s) (s_url s) (s_type s) (s_dataTypes s) (s_data s) (s_converters s) (s_mimeType s) x (s_crossDomain s) (s_contents s) (s_contentType s) (s_cache s).
Definition set_crossDomain x s := ASet (s_fixed s) (s_url s) (s_type s) (s_dataTypes s) (s_data s) (s_converters s) (s_mimeType s) (s_hasContent s) x (s_contents s) (s_contentType s) (s_cache s).
Definition set_contents x s := ASet (s_fixed s) (s_url s) (s_type s) (s_dataTypes s) (s_data s) (s_converters s) (s_mimeType s) (s_hasContent s) (s_crossDomain s) x (s_contentType s) (s_cache s).
Definition set_contentType x s := ASet (s_fixed s) (s_url s) (s_type s) (s_dataTypes s) (s_data s) (s_converters s) (s_mimeType s) (s_hasContent s) (s_crossDomain s) (s_contents s) x (s_cache s).
Definition set_cache x s := ASet (s_fixed s) (s_url s) (s_type s) (s_dataTypes s) (s_data s) (s_converters s) (s_mimeType s) (s_hasContent s) (s_crossDomain s) (s_contents s) (s_contentType s) x.

(** ** State *)

(** The variables of a call of [ajax] with the request object. *)
Record areq := AReq {
  r_set : aset;
  r_completed : option bool;
  r_transport : option transport;
  r_timer : option nat;
  r_fireGlobals : bool;
  r_statusCode : option (list (jstr * arg afn));
  r_strAbort : jstr;
  r_headers : list (jstr * jstr);
  r_names : list (jstr * jstr);
  r_headersString : jstr;
  r_readyState : Z;
  r_status : option Z;
  r_statusText : option jstr;
  r_fields : list (jstr * jsval);
  r_cacheURL : jstr;
  r_state : jstr
}.

Definition set_set x r := AReq x (r_completed r) (r_transport r) (r_timer r) (r_fireGlobals r) (r_statusCode r) (r_strAbort r) (r_headers r) (r_names r) (r_headersString r) (r_readyState r) (r_status r) (r_statusText r) (r_fields r) (r_cacheURL r) (r_state r).
Definition set_completed x r := AReq (r_set r) x (r_transport r) (r_timer r) (r_fireGlobals r) (r_statusCode r) (r_strAbort r) (r_headers r) (r_names r) (r_headersString r) (r_readyState r) (r_status r) (r_statusText r) (r_fields r) (r_cacheURL r) (r_state r).
Definition set_transport x r := AReq (r_set r) (r_completed r) x (r_timer r) (r_fireGlobals r) (r_statusCode r) (r_strAbort r) (r_headers r) (r_names r) (r_headersString r) (r_readyState r) (r_status r) (r_statusText r) (r_fields r) (r_cacheURL r) (r_state r).
Definition set_timer x r := AReq (r_set r) (r_completed r) (r_transport r) x (r_fireGlobals r) (r_statusCode r) (r_strAbort r) (r_headers r) (r_names r) (r_headersString r) (r_readyState r) (r_status r) (r_statusText r) (r_fields r) (r_cacheURL r) (r_state r).
Definition set_fireGlobals x r := AReq (r_set r) (r_completed r) (r_transport r) (r_timer r) x (r_statusCode r) (r_strAbort r) (r_headers r) (r_names r) (r_headersString r) (r_readyState r) (r_status r) (r_statusText r) (r_fields r) (r_cacheURL r) (r_state r).
Definition set_statusCode x r := AReq (r_set r) (r_completed r) (r_transport r) (r_timer r) (r_fireGlobals r) x (r_strAbort r) (r_headers r) (r_names r) (r_headersString r) (r_readyState r) (r_status r) (r_statusText r) (r_fields r) (r_cacheURL r) (r_state r).
Definition set_strAbort x r := AReq (r_set r) (r_completed r) (r_transport r) (r_timer r) (r_fireGlobals r) (r_statusCode r) x (r_headers r) (r_names r) (r_headersString r) (r_readyState r) (r_status r) (r_statusText r) (r_fields r) (r_cacheURL r) (r_state r).
Definition set_header h n r := AReq (r_set r) (r_completed r) (r_transport r) (r_timer r) (r_fireGlobals r) (r_statusCode r) (r_strAbort r) h n (r_headersString r) (r_readyState r) (r_status r) (r_statusText r) (r_fields r) (r_cacheURL r) (r_state r).
Definition set_response h rs r := AReq (r_set r) (r_completed r) (r_transport r) (r_timer r) (r_fireGlobals r) (r_statusCode r) (r_strAbort r) (r_headers r) (r_names r) h rs (r_status r) (r_statusText r) (r_fields r) (r_cacheURL r) (r_state r).
Definition set_ready rs r := set_response (r_headersString r) rs r.
Definition set_status st t r := AReq (r_set r) (r_completed r) (r_transport r) (r_timer r) (r_fireGlobals r) (r_statusCode r) (r_strAbort r) (r_headers r) (r_names r) (r_headersString r) (r_readyState r) (Some st) (Some t) (r_fields r) (r_cacheURL r) (r_state r).
Definition set_rfields x r := AReq (r_set r) (r_completed r) (r_transport r) (r_timer r) (r_fireGlobals r) (r_statusCode r) (r_strAbort r) (r_headers r) (r_names r) (r_headersString r) (r_readyState r) (r_status r) (r_statusText r) x (r_cacheURL r) (r_state r).
Definition set_cacheURL x r := AReq (r_set r) (r_completed r) (r_transport r) (r_timer r) (r_fireGlobals r) (r_statusCode r) (r_strAbort r) (r_headers r) (r_names r) (r_headersString r) (r_readyState r) (r_status r) (r_statusText r) (r_fields r) x (r_state r).
Definition set_rstate x r := AReq (r_set r) (r_completed r) (r_transport r) (r_timer r) (r_fireGlobals r) (r_statusCode r) (r_strAbort r) (r_headers r) (r_names r) (r_headersString r) (r_readyState r) (r_status r) (r_statusText r) (r_fields r) (r_cacheURL r) x.

Abbreviation acbs := (cbs afn aval).
(** Prefilters or transports by data type, in the order of their registration. *)
Abbreviation structure := (list (jstr * list N)).

Record astate := AState_ {
  reqs : list areq;
  lists : gmap lid acbs;
  active : Z;
  lastModified : list (jstr * jstr);
  etag : list (jstr * jstr);
  nonce : N;
  prefilters : structure;
  transports : structure;
  timers : list (nat * nat);
  next_timer : nat;
  printed : list N
}.

Definition set_reqs x s := AState_ x (lists s) (active s) (lastModified s) (etag s) (nonce s) (prefilters s) (transports s) (timers s) (next_timer s) (printed s).
Definition set_lists x s := AState_ (reqs s) x (active s) (lastModified s) (etag s) (nonce s) (prefilters s) (transports s) (timers s) (next_timer s) (printed s).
Definition set_active x s := AState_ (reqs s) (lists s) x (lastModified s) (etag s) (nonce s) (prefilters s) (transports s) (timers s) (next_timer s) (printed s).
Definition set_validators m e s := AState_ (reqs s) (lists s) (active s) m e (nonce s) (prefilters s) (transports s) (timers s) (next_timer s) (printed s).
Definition set_nonce x s := AState_ (reqs s) (lists s) (active s) (lastModified s) (etag s) x (prefilters s) (transports s) (timers s) (next_timer s) (printed s).
Definition set_structures p t s := AState_ (reqs s) (lists s) (active s) (lastModified s) (etag s) (nonce s) p t (timers s) (next_timer s) (printed s).
Definition set_timers x n s := AState_ (reqs s) (lists s) (active s) (lastModified s) (etag s) (nonce s) (prefilters s) (transports s) x n (printed s).
Definition set_printed x s := AState_ (reqs s) (lists s) (active s) (lastModified s) (etag s) (nonce s) (prefilters s) (transports s) (timers s) (next_timer s) x.

Definition astate0 : astate := AState_ [] ∅ 0 [] [] 0 [] [] [] 0 [].

(** ** The host *)

(** The conversions of the host, and its location; [origin_of] is the protocol and the
    host of an address, as an anchor element answers them, which may throw. *)
Class AjaxHost := {
  ajax_env :: JsEnv;
  unicode_lower : N -> jstr;
  unicode_upper : N -> jstr;
  location_href : jstr;
  location_protocol : jstr;
  location_origin : jstr;
  origin_of : jstr -> res jstr
}.

(** ** Addresses *)

(** [replace(/\/\/.../)] at the beginning: the protocol of the page. *)
Definition with_protocol `{AjaxHost} (url : jstr) : jstr :=
  if bool_decide (take 2 url = str "//") then location_protocol ++ str "//" ++ drop 2 url else url.

(** Without the last part from a number sign on. *)
Fixpoint strip_hash (s : jstr) : jstr :=
  match s with
  | [] => []
  | c :: s' => if (c =? chr "#")%N && forallb (fun c => negb (line_end c)) s' then [] else c :: strip_hash s'
  end.

Definition rquery (s : jstr) : bool := bool_decide (chr "?" ∈ s).

Fixpoint until_amp (s : jstr) : jstr :=
  match s with c :: s' => if (c =? chr "&")%N then s else until_amp s' | [] => [] end.

(** [replace(rantiCache, "$1")]: the first parameter named with an underscore. *)
Fixpoint strip_antiCache (s : jstr) : jstr :=
  match s with
  | c :: s' =>
      if ((c =? chr "?") || (c =? chr "&"))%N && bool_decide (take 2 s' = str "_=") then c :: until_amp (drop 2 s')
      else c :: strip_antiCache s'
  | [] => []
  end.

(** [replace(/%20/g, "+")]. *)
Fixpoint plus_spaces (s : jstr) : jstr :=
  match s with
  | a :: ((b :: c :: s') as r) =>
      if bool_decide ([a; b; c] = str "%20") then chr "+" :: plus_spaces s' else a :: plus_spaces r
  | _ => s
  end.

Definition allTypes : jstr := str "*/" ++ star.
Definition form_type : jstr := str "application/x-www-form-urlencoded".

Definition toUpper `{AjaxHost} (s : jstr) : jstr :=
  flat_map (fun c => if (c <? 128)%N then [if ((97 <=? c) && (c <=? 122))%N then (c - 32)%N else c] else unicode_upper c) s.

Section ajax.
Context `{AjaxHost}.

Definition low (s : jstr) : jstr := toLowerCase unicode_lower s.

(** ** Requests *)

Definition fixed0 : afixed := AFixed [] [] [] true false false true true 0 false None None [] [] [] [] None [] false.
Definition aset0 : aset := ASet fixed0 [] [] [] VUndef [] [] false None [] None None.
Definition areq0 : areq := AReq aset0 None None None false None [] [] [] [] 0 None None [] [] [].
Definition req_at (s : astate) (x : nat) : areq := default areq0 (reqs s !! x).
Definition upd_req (x : nat) (f : areq -> areq) : SM astate unit :=
  sm_mod (fun s => set_reqs (<[x := f (req_at s x)]> (reqs s)) s).
Definition upd_set (x : nat) (f : aset -> aset) : SM astate unit := upd_req x (fun r => set_set (f (r_set r)) r).
Definition setting {A} (x : nat) (f : aset -> A) : SM astate A := sm_get (fun s => f (r_set (req_at s x))).
Definition fixed {A} (x : nat) (f : afixed -> A) : SM astate A := setting x (fun s => f (s_fixed s)).

Definition is_completed (r : areq) : bool := bool_decide (r_completed r = Some true).

Definition once_memory : options := createOptions (str "once memory").
Definition get_cbs (l : lid) (s : astate) : acbs := default (new_cbs once_memory) (lists s !! l).
Definition put_cbs (l : lid) (c : acbs) (s : astate) : astate := set_lists (<[l := c]> (lists s)) s.

(** The deferred of a new request: setting its state and disabling the list of the
    other outcome come first in its lists. *)
Definition deferred_list (fs : list afn) : acbs := set_lst (Some fs) (new_cbs once_memory).

Definition new_req (s0 : aset) : SM astate nat :=
  x ← sm_get (fun s => length (reqs s));
  sm_mod (fun s => set_reqs (reqs s ++ [AReq s0 None None None false (Some (s_statusCode (s_fixed s0))) (str "canceled")
                                          [] [] [] 0 None None [] [] (str "pending")]) s) ;;
  sm_mod (put_cbs (LDone x) (deferred_list [AState x (str "resolved"); ADisable (LFail x)])) ;;
  sm_mod (put_cbs (LFail x) (deferred_list [AState x (str "rejected"); ADisable (LDone x)])) ;;
  sm_mod (put_cbs (LComplete x) (new_cbs once_memory)) ;;
  mret x.

(** Reading a text from an object literal, whose prototype has members. *)
Definition plain_text (t : list (jstr * jstr)) (key : jstr) : jstr :=
  match table_get t key with
  | Some v => v
  | None => if bool_decide (is_Some (object_member key)) then to_string (inherited [] key) else []
  end.

(** ** Methods of the request object that call nothing *)

Definition getAllResponseHeaders (x : nat) : SM astate aval :=
  sm_get (fun s => if is_completed (req_at s x) then a_str (r_headersString (req_at s x)) else VJs VNull).

Definition get_header (x : nat) (key : jstr) : SM astate (option jstr) :=
  sm_get (fun s => if is_completed (req_at s x) then getResponseHeader unicode_lower (r_headersString (req_at s x)) key else None).

Definition setRequestHeader (x : nat) (name value : jstr) : SM astate unit :=
  r ← sm_get (fun s => req_at s x);
  match r_completed r with
  | None =>
      let known := plain_text (r_names r) (low name) in
      let name' := if decide (known = []) then name else known in
      upd_req x (set_header (table_set (r_headers r) name' value) (table_set (r_names r) (low name) name'))
  | Some _ => mret tt
  end.

Definition overrideMimeType (x : nat) (type : jstr) : SM astate unit :=
  r ← sm_get (fun s => req_at s x);
  match r_completed r with None => upd_set x (set_mimeType type) | Some _ => mret tt end.

(** ** What runs code of the page *)

Section calls.
Context (call : afn -> aval -> list aval -> SM astate aval) (trigger : gevent -> list aval -> SM astate unit) (fuel : nat).

Definition user (n : N) : aval -> list aval -> SM astate aval := call (AUser n).
Definition add_fns (l : lid) (args : list (arg afn)) : SM astate unit := Callbacks.add get_cbs put_cbs call a_undef a_is_false fuel l args.
Definition fire_with (l : lid) (context : aval) (args : list aval) : SM astate unit :=
  fireWith get_cbs put_cbs call a_undef a_is_false fuel l context args.

(** [always( ... )]. *)
Definition always (x : nat) (args : list (arg afn)) : SM astate unit := add_fns (LDone x) args ;; add_fns (LFail x) args.

Definition status_key (r : areq) : jstr := match r_status r with Some st => Z_to_str st | None => str "undefined" end.

(** The method [statusCode], with a map. *)
Definition statusCode (x : nat) (map : list (jstr * arg afn)) : SM astate unit :=
  r ← sm_get (fun s => req_at s x);
  if is_completed r then always x [default AOther (table_get map (status_key r))]
  else sm_each (fun p => upd_req x (fun r =>
         match r_statusCode r with
         | Some codes => set_statusCode (Some (table_set codes p.1 (AArr [default AOther (table_get codes p.1); p.2]))) r
         | None => r
         end)) map.

Definition callback_context (x : nat) : SM astate aval := fixed x (fun f => default (VSettings x) (s_context f)).

Definition conv_fn (f : cfun) (v : jsval) : SM astate jsval :=
  match f with
  | ConvFn n => r ← user n a_undef [VJs v]; mret (as_js r)
  | ConvNoop => mret VUndef
  end.

(** The headers that make the next request conditional. *)
Definition keep_validators (x : nat) : SM astate unit :=
  r ← sm_get (fun s => req_at s x);
  m ← get_header x (str "Last-Modified");
  sm_when (bool_decide (default [] m <> [])) (sm_mod (fun s => set_validators (table_set (lastModified s) (r_cacheURL r) (default [] m)) (etag s) s)) ;;
  e ← get_header x (str "etag");
  sm_when (bool_decide (default [] e <> [])) (sm_mod (fun s => set_validators (lastModified s) (table_set (etag s) (r_cacheURL r) (default [] e)) s)).

Definition success_status (status : Z) : bool := (200 <=? status) && (status <? 300) || (status =? 304).

(** The outcome of a request: whether it is a success, the text, the data and the
    error. *)
Record outcome := Outcome { oc_success : bool; oc_status : Z; oc_text : jstr; oc_data : aval; oc_error : aval }.

Definition error_text (e : conv_error) : jstr :=
  match e with CaughtError e => e | NoConversion p c => str "No conversion from " ++ p ++ str " to " ++ c end.

Definition outcome_of (status : Z) (native type : jstr) (response : conv_result) : outcome :=
  if success_status status then
    if (status =? 204) || bool_decide (type = str "HEAD") then Outcome true status (str "nocontent") a_undef a_undef
    else if status =? 304 then Outcome true status (str "notmodified") a_undef a_undef
    else match response with
         | ConvSuccess v => Outcome true status (str "success") (VJs v) a_undef
         | ConvError e =>
             (** [isSuccess = !error]: an empty error counts as none *)
             Outcome (bool_decide (error_text e = [])) status (str "parsererror") a_undef (a_str (error_text e))
         end
  else if negb (status =? 0) || bool_decide (native = [])
       then Outcome false (Z.max status 0) (str "error") a_undef (a_str native)
       else Outcome false status native a_undef (a_str native).

(** What [done] does with the response before the outcome is known. *)
Definition read_response (x : nat) (status : Z) (responses : option (list (jstr * jsval))) : SM astate conv_result :=
  let isSuccess := success_status status in
  response ← match responses with
             | Some l =>
                 r ← sm_get (fun s => req_at s x);
                 header ← get_header x (str "Content-Type");
                 let s := r_set r in
                 let '(types, v) := ajaxHandleResponses (s_dataTypes s) (s_contents s) (s_converters s) (s_mimeType s) header l in
                 upd_set x (set_dataTypes types) ;; mret v
             | None => mret VUndef
             end;
  s ← setting x (fun s => s);
  sm_when (negb isSuccess && bool_decide (str "script" ∈ s_dataTypes s))
    (upd_set x (set_converters (table_set (s_converters s) (str "text script") (CFun ConvNoop)))) ;;
  s ← setting x (fun s => s);
  ajaxConvert unicode_lower conv_fn
    ((fun n v => r ← user n (VSettings x) [VJs v; a_str (s_dataType (s_fixed s))]; mret (as_js r)) <$> s_dataFilter (s_fixed s))
    (fun name v => upd_req x (fun r => set_rfields (table_set (r_fields r) name v) r))
    fuel (s_dataTypes s) (s_converters s) (s_fields (s_fixed s)) isSuccess (s_throws (s_fixed s)) response.

(** The end of [done]: callbacks and global events. *)
Definition settle (x : nat) (o : outcome) : SM astate unit :=
  ctx ← callback_context x;
  (if oc_success o then fire_with (LDone x) ctx [oc_data o; a_str (oc_text o); VReq x]
   else fire_with (LFail x) ctx [VReq x; a_str (oc_text o); oc_error o]) ;;
  codes ← sm_get (fun s => r_statusCode (req_at s x));
  match codes with Some map => statusCode x map | None => mret tt end ;;
  upd_req x (set_statusCode None) ;;
  g ← sm_get (fun s => r_fireGlobals (req_at s x));
  sm_when g (trigger (if oc_success o then AjaxSuccess else AjaxError)
               [VReq x; VSettings x; if oc_success o then oc_data o else oc_error o]) ;;
  fire_with (LComplete x) ctx [VReq x; a_str (oc_text o)] ;;
  sm_when g
    (trigger AjaxComplete [VReq x; VSettings x] ;;
     sm_mod (fun s => set_active (active s - 1) s) ;;
     a ← sm_get active;
     sm_when (a =? 0) (trigger AjaxStop [])).

(** [done], the callback for when everything is done. *)
Definition done (x : nat) (status : Z) (native : jstr) (responses : option (list (jstr * jsval))) (headers : jstr) : SM astate unit :=
  r ← sm_get (fun s => req_at s x);
  if is_completed r then mret tt
  else
    upd_req x (set_completed (Some true)) ;;
    match r_timer r with
    | Some t => sm_mod (fun s => set_timers (List.filter (fun p => negb (p.1 =? t)%nat) (timers s)) (next_timer s) s)
    | None => mret tt
    end ;;
    upd_req x (fun r => set_response headers (if 0 <? status then 4 else 0) (set_transport None r)) ;;
    response ← read_response x status responses;
    m ← fixed x s_ifModified;
    sm_when (success_status status && m) (keep_validators x) ;;
    type ← setting x s_type;
    let o := outcome_of status native type response in
    upd_req x (set_status (oc_status o) (if decide (native = []) then oc_text o else native)) ;;
    settle x o.

(** [abort]. *)
Definition abort (x : nat) (statusText : jstr) : SM astate unit :=
  r ← sm_get (fun s => req_at s x);
  let finalText := if decide (statusText = []) then r_strAbort r else statusText in
  match r_transport r with
  | Some (TObj _ abort) => user abort a_undef [a_str finalText] ;; mret tt
  | Some TOther => sm_throw (str "TypeError")
  | None => mret tt
  end ;;
  done x 0 finalText None [].

(** ** Prefilters and transports *)

Definition entries_of (st : structure) (type : jstr) : list N := default [] (table_get st type).

(** [each] over a list of the structure: its length is read once, its elements when
    their turn comes.  [visit] says whether to go on. *)
Fixpoint each_entry {A} (read : astate -> list N) (visit : N -> A -> SM astate (A * bool)) (todo i : nat) (acc : A) : SM astate A :=
  match todo with
  | O => mret acc
  | S todo' =>
      f ← sm_get (fun s => default 0%N (read s !! i));
      r ← visit f acc;
      if (r.2 : bool) then each_entry read visit todo' (S i) r.1 else mret r.1
  end.

(** [inspectPrefiltersOrTransports] on the prefilters; [inspected] are the types seen.
    Members of [Object.prototype] count as seen. *)
Definition seen (inspected : list jstr) (type : jstr) : bool :=
  bool_decide (type ∈ inspected) || bool_decide (is_Some (object_member type)).

Fixpoint inspect_prefilters (n : nat) (x : nat) (inspected : list jstr) (type : jstr) : SM astate (list jstr) :=
  match n with
  | O => sm_lift NoFuel
  | S n' =>
      len ← sm_get (fun s => length (entries_of (prefilters s) type));
      each_entry (fun s => entries_of (prefilters s) type)
        (fun (f : N) (inspected : list jstr) =>
           r ← user f a_undef [VSettings x; VReq x];
           let go_on : SM astate (list jstr * bool) := mret (inspected, true) in
           match r with
           | VJs (VStr t) =>
               if seen inspected t then go_on
               else upd_set x (fun s => set_dataTypes (t :: s_dataTypes s) s) ;;
                    inspected' ← inspect_prefilters n' x inspected t; mret (inspected', false)
           | _ => go_on
           end) len 0%nat (type :: inspected)
  end.

Definition first_type (x : nat) : SM astate jstr := setting x (fun s => default (str "undefined") (head (s_dataTypes s))).

Definition run_prefilters (x : nat) : SM astate unit :=
  t ← first_type x;
  inspected ← inspect_prefilters fuel x [] t;
  if seen inspected star then mret tt else inspect_prefilters fuel x inspected star ;; mret tt.

(** A value in the place of a transport. *)
Definition as_transport (v : aval) : option transport :=
  match v with
  | VTransport t => Some t
  | VJs v => if truthy v then Some TOther else None
  | _ => Some TOther
  end.

Definition inspect_transports (x : nat) (type : jstr) : SM astate (option transport) :=
  len ← sm_get (fun s => length (entries_of (transports s) type));
  each_entry (fun s => entries_of (transports s) type)
    (fun f _ =>
       r ← user f a_undef [VSettings x; VReq x];
       mret (as_transport r, match as_transport r with Some _ => false | None => true end)) len 0%nat None.

Definition find_transport (x : nat) : SM astate (option transport) :=
  t ← first_type x;
  r ← inspect_transports x t;
  match r with
  | Some _ => mret r
  | None => if decide (t = star) then mret None else inspect_transports x star
  end.

(** ** ajax *)

(** The options before the prefilters. *)
Definition normalise (x : nat) (url : jstr) : SM astate unit :=
  upd_set x (fun s => set_url (with_protocol (if decide (url = []) then if decide (s_url s = []) then location_href else s_url s else url)) s) ;;
  upd_set x (fun s => set_dataTypes
    (match words (low (if decide (s_dataType (s_fixed s) = []) then star else s_dataType (s_fixed s))) with [] => [[]] | l => l end) s) ;;
  upd_set x (fun s => match s_crossDomain s with
                      | Some _ => s
                      | None => set_crossDomain (Some match origin_of (s_url s) with
                                                      | Ok o => negb (bool_decide (o = location_origin))
                                                      | _ => true
                                                      end) s
                      end) ;;
  s ← setting x (fun s => s);
  match s_data s with
  | VStr _ => mret tt
  | d => if truthy d && s_processData (s_fixed s)
         then q ← sm_lift (param d (s_traditional (s_fixed s))); upd_set x (set_data (VStr q))
         else mret tt
  end.

(** The address and the data of a request that has no content, and of one that has. *)
Definition with_param (url param : jstr) : jstr := url ++ (if rquery url then chr "&" else chr "?") :: param.

Definition address_options (x : nat) : SM astate unit :=
  upd_set x (fun s => let t := toUpper (s_type s) in
    set_hasContent (negb (bool_decide (t ∈ [str "GET"; str "HEAD"]))) (set_type t s)) ;;
  s ← setting x (fun s => s);
  let cacheURL := strip_hash (s_url s) in
  if s_hasContent s then
    upd_req x (set_cacheURL cacheURL) ;;
    match s_data s with
    | VStr d => if bool_decide (d <> []) && s_processData (s_fixed s)
                     && starts_with form_type (default [] (s_contentType s))
                then upd_set x (set_data (VStr (plus_spaces d))) else mret tt
    | _ => mret tt
    end
  else
    let hash := drop (length cacheURL) (s_url s) in
    let '(cacheURL, s') :=
      if truthy (s_data s) && (s_processData (s_fixed s) || match s_data s with VStr _ => true | _ => false end)
      then (with_param cacheURL (to_string (s_data s)), set_data VUndef s) else (cacheURL, s) in
    upd_set x (fun _ => s') ;;
    if bool_decide (s_cache s' = Some false) then
      n ← sm_get nonce;
      sm_mod (set_nonce (n + 1)) ;;
      let cacheURL := strip_antiCache cacheURL in
      upd_req x (set_cacheURL cacheURL) ;;
      upd_set x (set_url (with_param cacheURL (str "_=" ++ N_to_str n) ++ hash))
    else upd_req x (set_cacheURL cacheURL) ;; upd_set x (set_url (cacheURL ++ hash)).

(** The headers that the options ask for. *)
Definition header_options (x : nat) : SM astate unit :=
  r ← sm_get (fun s => req_at s x);
  st ← sm_get (fun s => s);
  let s := r_set r in
  sm_when (s_ifModified (s_fixed s))
    (let m := plain_text (lastModified st) (r_cacheURL r) in
     let e := plain_text (etag st) (r_cacheURL r) in
     sm_when (bool_decide (m <> [])) (setRequestHeader x (str "If-Modified-Since") m) ;;
     sm_when (bool_decide (e <> [])) (setRequestHeader x (str "If-None-Match") e)) ;;
  sm_when (truthy (s_data s) && s_hasContent s && bool_decide (s_contentType s <> None) || s_own_type (s_fixed s))
    (setRequestHeader x (str "Content-Type") (default (str "false") (s_contentType s))) ;;
  let t := default [] (head (s_dataTypes s)) in
  let accepts := plain_text (s_accepts (s_fixed s)) in
  setRequestHeader x (str "Accept")
    (if bool_decide (t <> []) && bool_decide (accepts t <> [])
     then accepts t ++ (if decide (t = star) then [] else str ", " ++ allTypes ++ str "; q=0.01")
     else accepts star) ;;
  sm_each (fun h => setRequestHeader x h.1 h.2) (s_headers (s_fixed s)).

(** Sending, with exceptions of the transport as results. *)
Definition send (x : nat) (t : transport) : SM astate unit := fun s =>
  match (upd_req x (set_completed (Some false)) ;;
         h ← sm_get (fun s => r_headers (req_at s x));
         match t with
         | TObj send _ => user send a_undef [VHeaders h; VFinish x] ;; mret tt
         | TOther => sm_throw (str "TypeError")
         end) s with
  | (Throw e, s') => if is_completed (req_at s' x) then (Throw e, s') else done x (-1) e None [] s'
  | r => r
  end.

(** From the choice of the transport on. *)
Definition dispatch_request (x : nat) : SM astate unit :=
  t ← find_transport x;
  upd_req x (set_transport t) ;;
  match t with
  | None => done x (-1) (str "No Transport") None []
  | Some t =>
      upd_req x (set_ready 1) ;;
      g ← sm_get (fun s => r_fireGlobals (req_at s x));
      sm_when g (trigger AjaxSend [VReq x; VSettings x]) ;;
      r ← sm_get (fun s => req_at s x);
      if is_completed r then mret tt
      else
        let f := s_fixed (r_set r) in
        sm_when (s_async f && (0 <? s_timeout f))
          (n ← sm_get next_timer;
           sm_mod (fun s => set_timers (timers s ++ [(n, x)]) (S n) s) ;;
           upd_req x (set_timer (Some n))) ;;
        send x t
  end.

Definition ajax (url : jstr) (s0 : aset) : SM astate nat :=
  x ← new_req s0;
  normalise x url ;;
  run_prefilters x ;;
  r ← sm_get (fun s => req_at s x);
  if is_completed r then mret x
  else
    let g := s_global (s_fixed (r_set r)) in
    upd_req x (set_fireGlobals g) ;;
    a ← sm_get active;
    sm_when g (sm_mod (set_active (a + 1)) ;; sm_when (a =? 0) (trigger AjaxStart [])) ;;
    address_options x ;;
    header_options x ;;
    ctx ← callback_context x;
    before ← fixed x s_beforeSend;
    stop ← match before with
           | Some b => v ← user b ctx [VReq x; VSettings x];
                       r ← sm_get (fun s => req_at s x); mret (a_is_false v || is_completed r)
           | None => mret false
           end;
    if (stop : bool) then abort x [] ;; mret x
    else
      upd_req x (set_strAbort (str "abort")) ;;
      f ← fixed x (fun f => f);
      add_fns (LComplete x) (s_complete f) ;;
      add_fns (LDone x) (s_success f) ;;
      add_fns (LFail x) (s_error f) ;;
      dispatch_request x ;;
      mret x.

End calls.

(** ** Programs of the page *)

(** What functions of the page and of its transports may do with requests;
    [OFinish] calls the function [done] of a request, and [OTimer] is the browser
    whose timeout has come. *)
Inductive aop :=
  | OAjax (url : jstr) (s : aset)
  | OAbort (x : nat) (text : jstr)
  | OFinish (x : nat) (status : Z) (text : jstr) (responses : option (list (jstr * jsval))) (headers : jstr)
  | OTimer (t : nat)
  | OSetHeader (x : nat) (name value : jstr)
  | OGetHeader (x : nat) (key : jstr)
  | OAllHeaders (x : nat)
  | OMimeType (x : nat) (type : jstr)
  | OStatusCode (x : nat) (map : list (jstr * arg afn))
  | ODone (x : nat) (args : list (arg afn))
  | OFail (x : nat) (args : list (arg afn))
  | OAlways (x : nat) (args : list (arg afn))
  | OSettings (x : nat) (f : aset -> aset)
  | OState (x : nat)
  | OPrefilter (expr : jstr) (f : N)
  | OTransport (expr : jstr) (f : N)
  | OPrint (n : N).

Inductive aprog :=
  | PRet (v : aval)
  | PThrow (e : jstr)
  | POp (o : aop) (k : aval -> aprog) (h : jstr -> aprog).

(** [addToPrefiltersOrTransports]; a list that stands for a member of
    [Object.prototype] is a function, which has no [push]. *)
Definition register_one (f : N) (st : structure) (dataType : jstr) : res structure :=
  let '(prepend, t) := match dataType with
                       | c :: r => if (c =? chr "+")%N then (true, if decide (r = []) then star else r) else (false, dataType)
                       | [] => (false, dataType)
                       end in
  match table_get st t with
  | Some l => Ok (table_set st t (if prepend then f :: l else l ++ [f]))
  | None => if bool_decide (is_Some (object_member t)) then Throw (str "TypeError") else Ok (table_set st t [f])
  end.

Fixpoint register_all (f : N) (types : list jstr) (st : structure) : res structure * structure :=
  match types with
  | [] => (Ok st, st)
  | t :: types' => match register_one f st t with
                   | Ok st' => register_all f types' st'
                   | Throw e => (Throw e, st)
                   | NoFuel => (NoFuel, st)
                   end
  end.

Definition register (expr : jstr) (f : N) (read : astate -> structure) (write : structure -> astate -> astate) : SM astate unit := fun s =>
  match register_all f (words (low expr)) (read s) with
  | (Ok st, _) => (Ok tt, write st s)
  | (Throw e, st) => (Throw e, write st s)
  | (NoFuel, st) => (NoFuel, s)
  end.

Section ops.
Context (call : afn -> aval -> list aval -> SM astate aval) (trigger : gevent -> list aval -> SM astate unit) (fuel : nat).

(** An operation on a request that there is. *)
Definition run_op (o : aop) : SM astate aval :=
  match o with
  | OAjax url s => x ← ajax call trigger fuel url s; mret (VReq x)
  | OAbort x text => abort call trigger fuel x text ;; mret (VReq x)
  | OFinish x status text responses headers => done call trigger fuel x status text responses headers ;; mret a_undef
  | OTimer t =>
      l ← sm_get timers;
      match List.find (fun p => (p.1 =? t)%nat) l with
      | Some (_, x) =>
          sm_mod (fun s => set_timers (List.filter (fun p => negb (p.1 =? t)%nat) (timers s)) (next_timer s) s) ;;
          abort call trigger fuel x (str "timeout") ;; mret a_undef
      | None => mret a_undef
      end
  | OSetHeader x name value => setRequestHeader x name value ;; mret (VReq x)
  | OGetHeader x key => h ← get_header x key; mret (match h with Some v => a_str v | None => VJs VNull end)
  | OAllHeaders x => getAllResponseHeaders x
  | OMimeType x type => overrideMimeType x type ;; mret (VReq x)
  | OStatusCode x map => statusCode call fuel x map ;; mret (VReq x)
  | ODone x args => add_fns call fuel (LDone x) args ;; mret (VReq x)
  | OFail x args => add_fns call fuel (LFail x) args ;; mret (VReq x)
  | OAlways x args => always call fuel x args ;; mret (VReq x)
  | OSettings x f => upd_set x (fun s => let s' := f s in ASet (s_fixed s) (s_url s') (s_type s') (s_dataTypes s') (s_data s') (s_converters s') (s_mimeType s') (s_hasContent s') (s_crossDomain s') (s_contents s') (s_contentType s') (s_cache s')) ;; mret a_undef
  | OState x => sm_get (fun s => a_str (r_state (req_at s x)))
  | OPrefilter expr f => register expr f prefilters (fun p s => set_structures p (transports s) s) ;; mret a_undef
  | OTransport expr f => register expr f transports (fun t s => set_structures (prefilters s) t s) ;; mret a_undef
  | OPrint n => sm_mod (fun s => set_printed (printed s ++ [n]) s) ;; mret a_undef
  end.

(** The request an operation is on. *)
Definition op_target (o : aop) : option nat :=
  match o with
  | OAbort x _ | OFinish x _ _ _ _ | OSetHeader x _ _ | OGetHeader x _ | OAllHeaders x | OMimeType x _ | OStatusCode x _
  | ODone x _ | OFail x _ | OAlways x _ | OSettings x _ | OState x => Some x
  | _ => None
  end.

(** A number that is no request's stands for a variable without a request, whose
    methods throw. *)
Definition do_op (o : aop) : SM astate aval :=
  there ← sm_get (fun s => match op_target o with Some x => bool_decide (x < length (reqs s))%nat | None => true end);
  if (there : bool) then run_op o else sm_throw (str "TypeError").
End ops.

Fixpoint run_prog (exec : aop -> SM astate aval) (p : aprog) : SM astate aval :=
  match p with
  | PRet v => mret v
  | PThrow e => sm_throw e
  | POp o k hd => fun s =>
      match exec o s with
      | (Ok v, s') => run_prog exec (k v) s'
      | (Throw e, s') => run_prog exec (hd e) s'
      | (NoFuel, s') => (NoFuel, s')
      end
  end.

Section run.
(** The functions of the page, and its handlers of the global events. *)
Context (user : N -> aval -> list aval -> aprog) (handlers : gevent -> list aval -> aprog).

(** [fuel] bounds the depth of calls and the length of the loops. *)
Fixpoint call (fuel : nat) (f : afn) (this : aval) (args : list aval) : SM astate aval :=
  match fuel with
  | O => sm_lift NoFuel
  | S n =>
      let exec := do_op (call n) (fun e args => trigger n e args ;; mret tt) n in
      match f with
      | AUser k => run_prog exec (user k this args)
      | AState x st => upd_req x (set_rstate st) ;; mret a_undef
      | ADisable l => upd get_cbs put_cbs l disable ;; mret a_undef
      end
  end
with trigger (fuel : nat) (e : gevent) (args : list aval) : SM astate aval :=
  match fuel with
  | O => sm_lift NoFuel
  | S n => run_prog (do_op (call n) (fun e args => trigger n e args ;; mret tt) n) (handlers e args)
  end.

Definition exec (fuel : nat) : aop -> SM astate aval := do_op (call fuel) (fun e args => trigger fuel e args ;; mret tt) fuel.
Definition run_main (fuel : nat) (p : aprog) : SM astate aval := run_prog (exec fuel) p.
End run.
End ajax.
