(* ===== verification/AjaxFacts.v ===== *)
(** * Requests under arbitrary programs

    What holds of all requests whatever the functions of the page do and wherever
    they throw: a completed request stays as it is, only one list of its deferred
    ever fires, and the counter of active requests is never too small. *)

From S2P Require Import Prelude JsNum JsVal Callbacks CallbacksFacts Param AjaxConvert Ajax.

Section facts.
Context `{AjaxHost}.

(** ** The invariant *)

Definition lid_req (l : lid) : nat := match l with LDone x | LFail x | LComplete x => x end.
Definition there (x : nat) (s : astate) : Prop := (x < length (reqs s))%nat.
#[export] Instance there_dec x s : Decision (there x s).
Proof. unfold there. apply _. Defined.
Definition has_fired (l : lid) (s : astate) : bool := fired (get_cbs l s).

(** What a completed request keeps. *)
Definition obs (r : areq) : bool * bool * option Z * option jstr :=
  (is_completed r, r_fireGlobals r, r_status r, r_statusText r).

(** A request with global events that has not completed. *)
Definition open_req (r : areq) : bool := r_fireGlobals r && negb (is_completed r).
Definition pending (s : astate) : Z := Z.of_nat (length (List.filter open_req (reqs s))).

(** [k] more requests than the open ones are counted. *)
Record good (k : Z) (s : astate) : Prop := {
  good_memory l : there (lid_req l) s -> memory (get_cbs l s) <> None -> has_fired l s = true;
  good_pending x : there x s -> is_completed (req_at s x) = false -> has_fired (LDone x) s = false /\ has_fired (LFail x) s = false;
  good_one x : there x s -> has_fired (LDone x) s = true -> has_fired (LFail x) s = true -> False;
  good_timers : Forall (fun p => there p.2 s) (timers s);
  good_active : pending s + k <= active s
}.

(** A completed request keeps its status and which of its lists have fired. *)
Definition same_req (x : nat) (s s' : astate) : Prop :=
  obs (req_at s' x) = obs (req_at s x)
  /\ has_fired (LDone x) s' = has_fired (LDone x) s /\ has_fired (LFail x) s' = has_fired (LFail x) s.

Definition later (s s' : astate) : Prop :=
  (length (reqs s) <= length (reqs s'))%nat
  /\ (forall l, there (lid_req l) s -> has_fired l s = true -> has_fired l s' = true)
  /\ (forall x, there x s -> is_completed (req_at s x) = true -> same_req x s s').

(** The same except for a request that is being settled. *)
Definition later_but (y : nat) (s s' : astate) : Prop :=
  (length (reqs s) <= length (reqs s'))%nat
  /\ (forall l, there (lid_req l) s -> has_fired l s = true -> has_fired l s' = true)
  /\ (forall x, there x s -> is_completed (req_at s x) = true -> is_completed (req_at s' x) = true
       /\ r_fireGlobals (req_at s' x) = r_fireGlobals (req_at s x) /\ (x <> y -> same_req x s s')).

Lemma completed_obs r r' : obs r' = obs r -> is_completed r' = is_completed r.
Proof. by intros [= ->]. Qed.

Lemma later_refl s : later s s.
Proof. by split_and!. Qed.

Lemma later_trans s1 s2 s3 : later s1 s2 -> later s2 s3 -> later s1 s3.
Proof.
  unfold there. intros (L1 & F1 & C1) (L2 & F2 & C2). unfold later, there. split_and!; [lia| |].
  - intros l Hl Hf. apply F2; [unfold there; lia|]. by apply F1.
  - intros x Hx Hc. destruct (C1 x Hx Hc) as (O1 & D1 & E1).
    destruct (C2 x) as (O2 & D2 & E2); [unfold there; lia|by rewrite (completed_obs _ _ O1)|]. split_and!; congruence.
Qed.

Lemma later_but_refl y s : later_but y s s.
Proof. by split_and!. Qed.

Lemma later_but_trans y s1 s2 s3 : later_but y s1 s2 -> later_but y s2 s3 -> later_but y s1 s3.
Proof.
  unfold there. intros (L1 & F1 & C1) (L2 & F2 & C2). unfold later_but, there. split_and!; [lia| |].
  - intros l Hl Hf. apply F2; [unfold there; lia|]. by apply F1.
  - intros x Hx Hc. destruct (C1 x Hx Hc) as (Q1 & G1 & S1).
    destruct (C2 x) as (Q2 & G2 & S2); [unfold there; lia|done|]. split_and!; [done|congruence|]. intros Hxy.
    destruct (S1 Hxy) as (O1 & D1 & E1), (S2 Hxy) as (O2 & D2 & E2). split_and!; congruence.
Qed.

Lemma later_later_but y s s' : later s s' -> later_but y s s'.
Proof.
  intros (L & F & C). split_and!; [done..|]. intros x Hx Hc. destruct (C x Hx Hc) as (O & D). split_and!; [by rewrite (completed_obs _ _ O)|by injection O|by intros _].
Qed.

(** A request that had not completed may have been settled. *)
Lemma later_but_pending y s s' : is_completed (req_at s y) = false -> later_but y s s' -> later s s'.
Proof.
  intros Hy (L & F & C). split_and!; [done..|]. intros x Hx Hc. apply (C x Hx Hc). intros ->. congruence.
Qed.

Lemma there_later x s s' : later s s' -> there x s -> there x s'.
Proof. intros (L & _). unfold there. lia. Qed.

Lemma good_less k k' s : k' <= k -> good k s -> good k' s.
Proof. intros Hk [M P O T A]. constructor; [done..|]. lia. Qed.

(** ** Computations that keep it *)

Definition safe {A} (P : astate -> Prop) (m : SM astate A) : Prop :=
  forall k s, good k s -> P s -> good k (m s).2 /\ later s (m s).2.

(** Conditions that last. *)
Class Lasting (P : astate -> Prop) := lasting s s' : later s s' -> P s -> P s'.

#[export] Instance there_lasting x : Lasting (there x).
Proof. intros s s'. apply there_later. Qed.
#[export] Instance true_lasting : Lasting (fun _ => True).
Proof. done. Qed.
#[export] Instance and_lasting P Q `{!Lasting P, !Lasting Q} : Lasting (fun s => P s /\ Q s).
Proof. intros s s' Hl [HP HQ]. split; by eapply lasting. Qed.

(** A list that has fired. *)
Definition has_run (l : lid) (s : astate) : Prop := there (lid_req l) s /\ has_fired l s = true.
#[export] Instance run_lasting l : Lasting (has_run l).
Proof. intros s s' Hl [Ht Hf]. split; [by eapply there_later|]. destruct Hl as (_ & F & _). by apply F. Qed.

(** A completed request whose lists have not fired. *)
Definition completing (x : nat) (s : astate) : Prop :=
  there x s /\ is_completed (req_at s x) = true /\ has_fired (LDone x) s = false /\ has_fired (LFail x) s = false.
#[export] Instance completing_lasting x : Lasting (completing x).
Proof.
  intros s s' Hl (Ht & Hc & Hd & He). destruct Hl as (L & F & C). destruct (C x Ht Hc) as (O & D & E).
  split_and!; [unfold there in *; lia|by rewrite (completed_obs _ _ O)|congruence..].
Qed.

Lemma safe_mono {A} (P Q : astate -> Prop) (m : SM astate A) : (forall s, P s -> Q s) -> safe Q m -> safe P m.
Proof. intros HPQ Hm k s Hg HP. apply Hm; auto. Qed.

Lemma safe_free {A} P (m : SM astate A) : safe (fun _ => True) m -> safe P m.
Proof. by apply safe_mono. Qed.

Lemma safe_ret {A} P (a : A) : safe P (mret a : SM astate A).
Proof. intros k s Hg _. split; [done|apply later_refl]. Qed.
Lemma safe_get {A} P (f : astate -> A) : safe P (sm_get f).
Proof. intros k s Hg _. split; [done|apply later_refl]. Qed.
Lemma safe_lift {A} P (r : res A) : safe P (sm_lift r : SM astate A).
Proof. intros k s Hg _. split; [done|apply later_refl]. Qed.
Lemma safe_throw {A} P e : safe P (sm_throw e : SM astate A).
Proof. intros k s Hg _. split; [done|apply later_refl]. Qed.

Lemma safe_bind {A B} P `{!Lasting P} (m : SM astate A) (f : A -> SM astate B) :
  safe P m -> (forall a, safe P (f a)) -> safe P (m ≫= f).
Proof.
  intros Hm Hf k s Hg HP. destruct (Hm k s Hg HP) as [Hg' Hl]. unfold mbind, sm_bind.
  destruct (m s) as [[a|e|] s']; cbn [snd] in *; [|done..].
  destruct (Hf a k s' Hg' (lasting _ _ Hl HP)) as [Hg'' Hl']. split; [done|]. by eapply later_trans.
Qed.

Lemma safe_when P b m : safe P m -> safe P (sm_when b m).
Proof. intros Hm. destruct b; [done|apply safe_ret]. Qed.

Lemma safe_each {A} P `{!Lasting P} (f : A -> SM astate unit) l : (forall a, safe P (f a)) -> safe P (sm_each f l).
Proof. intros Hf. induction l as [|a l IH]; [apply safe_ret|]. by apply safe_bind. Qed.

(** ** Changes of the state *)

(** Neither requests nor lists change, and the counter does not fall. *)
Lemma safe_mod P f :
  (forall s, reqs (f s) = reqs s /\ lists (f s) = lists s /\ active (f s) = active s
     /\ (Forall (fun p => there p.2 s) (timers s) -> P s -> Forall (fun p => there p.2 s) (timers (f s)))) ->
  safe P (sm_mod f).
Proof.
  intros Hf k s [M Pd O T A] HP. cbn [sm_mod snd]. destruct (Hf s) as (Er & El & Ea & Ht).
  assert (forall l, get_cbs l (f s) = get_cbs l s) as Eg by (intros l; unfold get_cbs; by rewrite El).
  assert (forall x, req_at (f s) x = req_at s x) as Eq by (intros x; unfold req_at; by rewrite Er).
  unfold later, same_req, has_fired in *. split.
  - constructor; unfold there, has_fired, pending in *; try setoid_rewrite Eg; try setoid_rewrite Eq; rewrite ?Er, ?Ea; auto.
  - unfold there, has_fired. rewrite Er. split_and!; [done|by intros l; rewrite Eg|]. intros x _ _. by rewrite Eq, !Eg.
Qed.

(** Functions that leave alone what counts of a request. *)
Definition quiet (f : areq -> areq) : Prop := forall r, obs (f r) = obs r.

Lemma req_at_insert s x y r : req_at (set_reqs (<[x := r]> (reqs s)) s) y = if decide (x = y /\ there x s) then r else req_at s y.
Proof.
  unfold req_at, there. cbn [reqs set_reqs]. rewrite list_lookup_insert. case_decide as E; case_decide as E'; naive_solver.
Qed.

Lemma filter_length_insert {A} (g : A -> bool) (l : list A) x a b : l !! x = Some a ->
  Z.of_nat (length (List.filter g (<[x := b]> l))) = Z.of_nat (length (List.filter g l)) - (if g a then 1 else 0) + (if g b then 1 else 0).
Proof.
  revert x. induction l as [|c l IH]; intros [|x] E; [done..| |].
  - injection E as ->. cbn. destruct (g a), (g b); cbn [length]; lia.
  - specialize (IH x E). change (<[S x := b]> (c :: l)) with (c :: <[x := b]> l). cbn [List.filter].
    destruct (g c); cbn [length]; lia.
Qed.

Definition weight (r : areq) : Z := if open_req r then 1 else 0.

Lemma pending_upd s x r : there x s -> pending (set_reqs (<[x := r]> (reqs s)) s) = pending s - weight (req_at s x) + weight r.
Proof.
  intros Hx. destruct (lookup_lt_is_Some_2 _ _ Hx) as [a Ea]. unfold pending, weight, req_at. cbn [reqs set_reqs].
  rewrite (filter_length_insert _ _ _ a) by done. rewrite Ea. done.
Qed.

(** Giving the request [x] a value that counts for the same. *)
Lemma upd_req_later x s f :
  (there x s -> is_completed (req_at s x) = true ->
    is_completed (f (req_at s x)) = true /\ r_fireGlobals (f (req_at s x)) = r_fireGlobals (req_at s x)) ->
  later_but x s (upd_req x f s).2.
Proof.
  intros Hf. unfold upd_req, sm_mod, later_but, same_req. cbn [snd].
  unfold there at 1. cbn [reqs set_reqs]. rewrite length_insert. split_and!; [done..|].
  intros y Hy Hc. rewrite req_at_insert. case_decide as E; [|by split_and!].
  destruct E as [<- _]. destruct (Hf Hy Hc). by split_and!.
Qed.

Lemma upd_req_good k s x f : good k s -> is_completed (f (req_at s x)) = is_completed (req_at s x) ->
  r_fireGlobals (f (req_at s x)) = r_fireGlobals (req_at s x) -> good k (upd_req x f s).2.
Proof.
  intros [M Pd O T A] Hc Hg. unfold upd_req, sm_mod. cbn [snd]. set (s' := set_reqs _ s).
  assert (length (reqs s') = length (reqs s)) as El by (unfold s'; cbn [reqs set_reqs]; by rewrite length_insert).
  assert (forall l, has_fired l s' = has_fired l s) as Ef by done.
  constructor; unfold there in *; rewrite ?El; [done| |done| |].
  - intros y Hy. unfold s' at 1. rewrite req_at_insert. case_decide as E; [destruct E as [<- _]; rewrite Hc|]; by apply Pd.
  - by change (timers s') with (timers s).
  - change (active s') with (active s). destruct (decide (x < length (reqs s))%nat) as [Hx|Hx].
    + unfold s'. rewrite pending_upd by done. unfold weight, open_req. rewrite Hc, Hg. lia.
    + unfold s', pending in *. cbn [reqs set_reqs]. rewrite list_insert_ge; [done|]. lia.
Qed.

Lemma upd_req_step k s x f : good k s -> obs (f (req_at s x)) = obs (req_at s x) ->
  good k (upd_req x f s).2 /\ later s (upd_req x f s).2.
Proof.
  intros Hg Hf. split; [apply upd_req_good; [done|by apply completed_obs|by injection Hf]|].
  destruct (upd_req_later x s f) as (L & F & C).
  { intros _ Hc. split; [by rewrite (completed_obs _ _ Hf)|by injection Hf]. }  split_and!; [done..|].
  intros y Hy Hc. destruct (decide (y = x)) as [->|Hne]; [|by apply C]. split_and!; [|done..].
  unfold upd_req, sm_mod. cbn [snd]. rewrite req_at_insert. by case_decide.
Qed.

Lemma safe_upd_req P x f : quiet f -> safe P (upd_req x f).
Proof. intros Hf k s Hg _. apply upd_req_step; [done|apply Hf]. Qed.

Lemma safe_upd_set P x f : safe P (upd_set x f).
Proof. by apply safe_upd_req. Qed.

(** Changing a callback list; it may have fired after it only if it had before, or if
    it is not one of a pending or settled request. *)
Lemma req_list_get_put l l' c s : get_cbs l' (put_cbs l c s) = if decide (l = l') then c else get_cbs l' s.
Proof.
  unfold get_cbs, put_cbs. cbn [lists set_lists]. case_decide as E; [subst; by rewrite lookup_insert_eq|by rewrite lookup_insert_ne].
Qed.

Lemma safe_put k s l c : good k s -> fired c = has_fired l s -> (there (lid_req l) s -> memory c <> None -> has_fired l s = true) ->
  good k (put_cbs l c s) /\ later s (put_cbs l c s).
Proof.
  intros [M Pd O T A] Hf Hm.
  assert (forall l', has_fired l' (put_cbs l c s) = has_fired l' s) as Ef.
  { intros l'. unfold has_fired at 1. rewrite req_list_get_put. case_decide as E; [by subst|done]. }
  split.
  - constructor; auto.
    + intros l' Hl'. rewrite Ef, req_list_get_put. case_decide as E; [subst; auto|auto].
    + intros x Hx Hc. rewrite !Ef. by apply Pd.
    + intros x Hx. rewrite !Ef. by apply O.
  - split_and!; [done|intros l' _; by rewrite Ef|]. intros x _ _. split_and!; [done|by rewrite Ef..].
Qed.

Lemma safe_upd P l f : (forall c, fired (f c) = fired c) ->
  (forall c, memory (f c) <> None -> memory c <> None) -> safe P (upd get_cbs put_cbs l f).
Proof.
  intros Hf Hm k s Hg _. apply safe_put; [done|apply Hf|]. intros Hl Hne. by apply (good_memory _ _ Hg), Hm.
Qed.

Lemma safe_upd_run l f : (forall c, fired (f c) = fired c) -> safe (has_run l) (upd get_cbs put_cbs l f).
Proof. intros Hf k s Hg [Ht Hr]. apply safe_put; [done|apply Hf|done]. Qed.

Lemma safe_disable P l : safe P (upd get_cbs put_cbs l disable).
Proof. by apply safe_upd. Qed.

(** ** Callback lists *)

Section calls.
Context (call : afn -> aval -> list aval -> SM astate aval) (trigger : gevent -> list aval -> SM astate unit) (fuel : nat).
Hypothesis call_safe : forall f this args, safe (fun _ => True) (call f this args).
Hypothesis trigger_safe : forall e args, safe (fun _ => True) (trigger e args).

Lemma fire_calls_safe n l : safe (has_run l) (fire_calls get_cbs put_cbs call a_undef a_is_false n l).
Proof.
  induction n as [|n IH]; cbn [fire_calls]; [apply safe_lift|].
  apply safe_bind; [apply _|by apply safe_upd_run|intros _].
  apply safe_bind; [apply _|apply safe_get|intros c].
  destruct (if firingIndex c <? 0 then None else _) as [f|]; [|apply safe_ret].
  destruct (default _ (memory c)) as [this args].
  apply safe_bind; [apply _|by apply safe_free|intros r].
  apply safe_bind; [apply _|apply safe_when; by apply safe_upd_run|done].
Qed.

Lemma fire_loop_safe n l : safe (has_run l) (fire_loop get_cbs put_cbs call a_undef a_is_false n l).
Proof.
  induction n as [|n IH]; cbn [fire_loop]; [apply safe_lift|]. intros k s Hg Hr. rewrite sm_get_bind.
  destruct (next_run (get_cbs l s)) as [c'|] eqn:En; [|by apply (safe_ret (has_run l))].
  assert (fired c' = fired (get_cbs l s)) as Ef by (unfold next_run in En; destruct (queue _); [done|by injection En as <-]).
  assert (safe (fun s' => s' = s) (upd get_cbs put_cbs l (fun _ => c'))) as Hu.
  { intros k' s' Hg' ->. apply safe_put; [done|done|]. intros _ _. apply Hr. }
  destruct (Hu k s Hg eq_refl) as [Hg1 Hl1]. unfold upd in *. rewrite sm_mod_bind. cbn [sm_mod snd] in *.
  set (s1 := put_cbs _ _ s) in *. assert (has_run l s1) as Hr1 by (by eapply (lasting s)).
  enough (safe (has_run l) (fire_calls get_cbs put_cbs call a_undef a_is_false n l ;;
    upd get_cbs put_cbs l (set_index (-1)) ;; fire_loop get_cbs put_cbs call a_undef a_is_false n l)) as Hrest.
  { destruct (Hrest k s1 Hg1 Hr1) as [Hg2 Hl2]. split; [done|]. by eapply later_trans. }
  apply safe_bind; [apply _|apply fire_calls_safe|intros _].
  apply safe_bind; [apply _|by apply safe_upd_run|done].
Qed.

Lemma fire_list_safe n l : safe (has_run l) (fire_list get_cbs put_cbs call a_undef a_is_false n l).
Proof.
  unfold fire_list. apply safe_bind; [apply _| |intros _].
  - intros k s Hg [Ht Hr]. apply safe_put; [done|by rewrite Hr|done].
  - apply safe_bind; [apply _|apply fire_loop_safe|intros _]. apply safe_upd_run. intros c. rewrite fire_end_eq. done.
Qed.

Lemma add_fns_safe l args : safe (there (lid_req l)) (add_fns call fuel l args).
Proof.
  intros k s Hg Ht. unfold add_fns, Callbacks.add. rewrite sm_get_bind. destruct (lst (get_cbs l s)); [|by apply (safe_ret (there (lid_req l)))].
  assert (safe (there (lid_req l)) (upd get_cbs put_cbs l (add_pre args))) as Hu.
  { apply safe_upd; intros c; destruct (add_pre_frame args c) as (l' & q & i & -> & _); done. }
  destruct (Hu k s Hg Ht) as [Hg1 Hl1]. destruct (memory (get_cbs l s)) as [v|] eqn:Em; unfold replays; rewrite Em;
    [|cbn [sm_when]; unfold mbind, sm_bind, upd, sm_mod in *; cbn in *; done].
  destruct (firing (get_cbs l s)); [cbn [negb sm_when]; unfold mbind, sm_bind, upd, sm_mod in *; cbn in *; done|].
  assert (has_run l s) as Hr by (split; [done|]; apply (good_memory _ _ Hg); [done|by rewrite Em]).
  revert k s Hg Hr Ht Em Hg1 Hl1. cbn [negb sm_when]. intros k s Hg Hr _ _ _ _.
  enough (safe (has_run l) (upd get_cbs put_cbs l (add_pre args) ;; fire_list get_cbs put_cbs call a_undef a_is_false fuel l)) as Hm by (by apply Hm).
  apply safe_bind; [apply _| |intros _; apply fire_list_safe].
  apply safe_upd_run. intros c. destruct (add_pre_frame args c) as (l' & q & i & -> & _); done.
Qed.

(** [safe_steps] takes a computation apart down to its changes of the state. *)
Ltac safe_steps :=
  repeat match goal with
  | |- safe _ (_ ≫= _) => apply safe_bind; [apply _| |intros ?]
  | |- safe _ (mret _) => apply safe_ret
  | |- safe _ (sm_get _) => apply safe_get
  | |- safe _ (sm_lift _) => apply safe_lift
  | |- safe _ (sm_throw _) => apply safe_throw
  | |- safe _ (sm_when _ _) => apply safe_when
  | |- safe _ (sm_each _ _) => apply safe_each; [apply _|intros ?]
  | |- safe _ (upd_set _ _) => apply safe_upd_set
  | |- safe _ (upd_req _ _) => apply safe_upd_req; done
  | |- safe _ (sm_mod _) => apply safe_mod; intros ?; split_and!; done
  | |- safe _ (match ?x with _ => _ end) => destruct x
  | |- safe _ _ => solve [eauto using safe_free with jslib typeclass_instances]
  end.

#[local] Hint Resolve add_fns_safe : jslib.

(** ** The methods *)

Lemma user_safe P n this args : safe P (user call n this args).
Proof. apply safe_free, call_safe. Qed.
Lemma trigger_any P e args : safe P (trigger e args).
Proof. apply safe_free, trigger_safe. Qed.
#[local] Hint Resolve user_safe trigger_any : jslib.

Lemma always_safe x args : safe (there x) (always call fuel x args).
Proof. unfold always. safe_steps; apply (add_fns_safe (LDone x)) || apply (add_fns_safe (LFail x)). Qed.
#[local] Hint Resolve always_safe : jslib.

Lemma statusCode_safe x map : safe (there x) (statusCode call fuel x map).
Proof.
  unfold statusCode. safe_steps. apply safe_upd_req. intros r. by destruct (r_statusCode r).
Qed.

Lemma setRequestHeader_safe P `{!Lasting P} x name value : safe P (setRequestHeader x name value).
Proof. unfold setRequestHeader. safe_steps. Qed.
Lemma overrideMimeType_safe P `{!Lasting P} x type : safe P (overrideMimeType x type).
Proof. unfold overrideMimeType. safe_steps. Qed.
#[local] Hint Resolve setRequestHeader_safe overrideMimeType_safe : jslib.

Lemma keep_validators_safe P `{!Lasting P} x : safe P (keep_validators x).
Proof. unfold keep_validators, get_header. safe_steps. Qed.
#[local] Hint Resolve keep_validators_safe statusCode_safe : jslib.

(** ** Conversion *)

Lemma conv_fn_safe P `{!Lasting P} f v : safe P (conv_fn call f v).
Proof. unfold conv_fn. safe_steps. Qed.

Lemma apply_conv_safe P `{!Lasting P} throws c prev current v : safe P (apply_conv (conv_fn call) throws c prev current v).
Proof.
  pose proof (conv_fn_safe P). unfold apply_conv. destruct c as [|f|]; [safe_steps| |safe_steps].
  destruct throws; [safe_steps; auto|]. intros k s Hg HP. specialize (H0 f v k s Hg HP).
  by destruct (conv_fn call f v s) as [[]].
Qed.
#[local] Hint Resolve apply_conv_safe : jslib.

Lemma ajaxConvert_safe P `{!Lasting P} filter x types convs fields ok throws v :
  (forall f v, filter = Some f -> safe P (f v)) ->
  safe P (ajaxConvert unicode_lower (conv_fn call) filter
    (fun name v => upd_req x (fun r => set_rfields (table_set (r_fields r) name v) r)) fuel types convs fields ok throws v).
Proof.
  intros Hf. unfold ajaxConvert. set (table := match types with [] => [] | _ => _ end). clearbody table.
  generalize true at 1, (default [] (head types)), (tail types). intros first current rest. revert table first current rest v.
  induction fuel as [|n IH]; intros table first current rest v; cbn [convert_loop]; [apply safe_lift|].
  unfold store_field. destruct filter as [f|]; safe_steps; auto.
Qed.

Lemma read_response_safe P `{!Lasting P} x status responses : safe P (read_response call fuel x status responses).
Proof.
  unfold read_response. apply safe_bind; [apply _| |intros v].
  - destruct responses; unfold get_header, setting; safe_steps.
  - unfold setting. safe_steps. apply ajaxConvert_safe; [done|]. intros f w Ef.
    destruct (s_dataFilter _); cbn in Ef; [injection Ef as <-|done]. safe_steps.
Qed.
#[local] Hint Resolve read_response_safe : jslib.

(** ** Settling

    While a request settles it is still counted as active. *)

Definition count (g : bool) : Z := if g then 1 else 0.

Definition settling {A} (x : nat) (g : bool) (P : astate -> Prop) (m : SM astate A) : Prop :=
  forall k s, good (k + count g) s -> P s -> good k (m s).2 /\ later_but x s (m s).2.

(** The request has completed, with global events or without. *)
Definition finished (x : nat) (g : bool) (s : astate) : Prop :=
  there x s /\ is_completed (req_at s x) = true /\ r_fireGlobals (req_at s x) = g.
#[local] Instance finished_lasting x g : Lasting (finished x g).
Proof.
  intros s s' Hl (Ht & Hc & Hg). destruct Hl as (L & F & C). destruct (C x Ht Hc) as ([= Ec Eg _ _] & _).
  split_and!; [unfold there in *; lia|congruence..].
Qed.

Definition starting (x : nat) (g : bool) (s : astate) : Prop := finished x g s /\ completing x s.
#[local] Instance starting_lasting x g : Lasting (starting x g).
Proof. unfold starting. apply _. Qed.

Lemma count_nonneg g : 0 <= count g.
Proof. by destruct g. Qed.

Lemma settling_safe {A} x g P (m : SM astate A) : safe P m -> settling x g P m.
Proof.
  intros Hm k s Hg HP. destruct (Hm _ s Hg HP) as [Hg' Hl]. split; [|by apply later_later_but].
  eapply good_less; [|done]. pose proof (count_nonneg g). lia.
Qed.

(** A step after which [Q] holds. *)
Definition steps_to {A} (x : nat) (P Q : astate -> Prop) (m : SM astate A) : Prop :=
  forall k s, good k s -> P s -> good k (m s).2 /\ later_but x s (m s).2 /\ (forall a, (m s).1 = Ok a -> Q (m s).2).

Lemma steps_safe {A} x P `{!Lasting P} (m : SM astate A) : safe P m -> steps_to x P P m.
Proof.
  intros Hm k s Hg HP. destruct (Hm k s Hg HP) as [Hg' Hl]. split_and!; [done|by apply later_later_but|].
  intros a _. by eapply lasting.
Qed.

Lemma settling_bind {A B} x g P Q (m : SM astate A) (f : A -> SM astate B) :
  steps_to x P Q m -> (forall a, settling x g Q (f a)) -> settling x g P (m ≫= f).
Proof.
  intros Hm Hf k s Hg HP. destruct (Hm _ s Hg HP) as (Hg' & Hl & HQ). unfold mbind, sm_bind.
  destruct (m s) as [[a|e|] s'] eqn:E; cbn [fst snd] in *.
  - destruct (Hf a k s' Hg' (HQ _ eq_refl)) as [Hg'' Hl']. split; [done|]. by eapply later_but_trans.
  - split; [|done]. eapply good_less; [|done]. pose proof (count_nonneg g). lia.
  - split; [|done]. eapply good_less; [|done]. pose proof (count_nonneg g). lia.
Qed.

Lemma settling_bind_safe {A B} x g P `{!Lasting P} (m : SM astate A) (f : A -> SM astate B) :
  safe P m -> (forall a, settling x g P (f a)) -> settling x g P (m ≫= f).
Proof. intros Hm. apply settling_bind. by apply steps_safe. Qed.

Lemma settling_mono {A} x g (P Q : astate -> Prop) (m : SM astate A) : (forall s, P s -> Q s) -> settling x g Q m -> settling x g P m.
Proof. intros HPQ Hm k s Hg HP. by apply Hm; [|apply HPQ]. Qed.

Lemma upd_bind {B} l f (k : unit -> SM astate B) s :
  (upd get_cbs put_cbs l f ≫= k) s = k tt (put_cbs l (f (get_cbs l s)) s).
Proof. done. Qed.

(** Putting a list that has fired in the place of one that may not have. *)
Lemma put_fired_good k s l c : good k s -> fired c = true ->
  (forall x, there x s -> l = LDone x \/ l = LFail x -> completing x s) ->
  good k (put_cbs l c s).
Proof.
  intros [M Pd O T A] Hf Hl. set (s' := put_cbs l c s).
  assert (forall l', has_fired l' s' = if decide (l = l') then true else has_fired l' s) as Ef.
  { intros l'. unfold has_fired at 1, s'. rewrite req_list_get_put. by case_decide. }
  constructor; [| | |done|done].
  - intros l' Hl'. rewrite Ef. unfold s'. rewrite req_list_get_put. case_decide; [done|by apply M].
  - intros y Hy Hp. change (is_completed (req_at s y) = false) in Hp. rewrite !Ef.
    assert (l = LDone y \/ l = LFail y -> False) as Hne by (intros Hy'; destruct (Hl y Hy Hy') as (_ & Hc & _); congruence).
    rewrite !decide_False by auto. by apply Pd.
  - intros y Hy. rewrite !Ef. intros H1 H2. repeat case_decide; subst; try congruence.
    + destruct (Hl y Hy) as (_ & _ & Hd & _); [auto|congruence].
    + destruct (Hl y Hy) as (_ & _ & _ & He); [auto|congruence].
    + by apply (O y).
Qed.

Lemma put_fired_run l c s : fired c = true -> there (lid_req l) s -> has_run l (put_cbs l c s).
Proof. intros Hf Ht. split; [done|]. unfold has_fired. rewrite req_list_get_put. by rewrite decide_True. Qed.

(** [fireWith], given what its first change does. *)
Lemma fire_with_from (P : astate -> Prop) `{!Lasting P} (Rel : astate -> astate -> Prop) `{!Reflexive Rel} `{!Transitive Rel} l context args :
  (forall s s', later s s' -> Rel s s') ->
  (forall s, P s -> there (lid_req l) s) ->
  (forall k s c, good k s -> P s -> fired c = true -> good k (put_cbs l c s) /\ Rel s (put_cbs l c s)) ->
  forall k s, good k s -> P s -> good k (fire_with call fuel l context args s).2 /\ Rel s (fire_with call fuel l context args s).2.
Proof.
  intros HRel Hin Hput k s Hg HP. unfold fire_with, fireWith. rewrite sm_get_bind.
  destruct (locked (get_cbs l s)); [by split|].
  assert (safe (fun _ => True) (upd get_cbs put_cbs l (fun c => set_queue (queue c ++ [(context, args)]) c))) as Hu by (by apply safe_upd).
  destruct (Hu k s Hg I) as [Hg1 Hl1]. rewrite upd_bind. unfold upd, sm_mod in Hg1, Hl1. cbn [snd] in Hg1, Hl1.
  set (s1 := put_cbs _ _ s) in *. destruct (firing (get_cbs l s)); cbn [negb sm_when]; [by split; [|apply HRel]|].
  pose proof (lasting _ _ Hl1 HP) as HP1. unfold fire_list. rewrite upd_bind.
  destruct (Hput k s1 (fire_start (get_cbs l s1)) Hg1 HP1 eq_refl) as (Hg2 & Hl2).
  pose proof (put_fired_run l (fire_start (get_cbs l s1)) s1 eq_refl (Hin _ HP1)) as Hr. set (s2 := put_cbs l _ s1) in *.
  enough (safe (has_run l) (fire_loop get_cbs put_cbs call a_undef a_is_false fuel l ;; upd get_cbs put_cbs l fire_end)) as Hm.
  { destruct (Hm k s2 Hg2 Hr) as [Hg3 Hl3]. split; [done|]. etrans; [by apply HRel|]. etrans; [done|by apply HRel]. }
  apply safe_bind; [apply _|by apply fire_loop_safe|intros _]. apply safe_upd_run. intros c. by rewrite fire_end_eq.
Qed.

#[local] Instance later_but_reflexive x : Reflexive (later_but x) := later_but_refl x.
#[local] Instance later_but_transitive x : Transitive (later_but x) := later_but_trans x.
#[local] Instance later_reflexive : Reflexive later := later_refl.
#[local] Instance later_transitive : Transitive later := later_trans.

(** Firing one of the two lists of a request for the first time. *)
Lemma fire_first x l context args k s : l = LDone x \/ l = LFail x -> good k s -> completing x s ->
  good k (fire_with call fuel l context args s).2 /\ later_but x s (fire_with call fuel l context args s).2.
Proof.
  intros Hl. assert (lid_req l = x) as Hx by (by destruct Hl; subst).
  apply (fire_with_from (completing x) (later_but x)); [apply later_later_but|intros s1 [Ht _]; by rewrite Hx|].
  intros k1 s1 c Hg Hc Hf. split; [apply put_fired_good; [done..|]; intros y _ Hy; by assert (y = x) as -> by (destruct Hl, Hy; congruence)|].
  split_and!; [done|intros l' _; unfold has_fired; rewrite req_list_get_put; by case_decide|].
  intros y Hy Hyc. split_and!; [done..|]. intros Hyx.
  by split_and!; [done|unfold has_fired; rewrite req_list_get_put, decide_False by (destruct Hl; congruence)..].
Qed.

Lemma fire_complete x context args : safe (there x) (fire_with call fuel (LComplete x) context args).
Proof.
  intros k s. apply (fire_with_from (there x) later); [done..|]. intros k1 s1 c Hg Hx Hf. split.
  - apply put_fired_good; [done..|]. by intros y _ [|].
  - split_and!; [done|intros l' _; unfold has_fired; rewrite req_list_get_put; by case_decide|].
    intros y _ _. by split_and!; [done|unfold has_fired; rewrite req_list_get_put, decide_False by done..].
Qed.

Lemma later_but_finished x g s s' : later_but x s s' -> finished x g s -> finished x g s'.
Proof.
  intros (L & _ & C) (Ht & Hc & Hg). destruct (C x Ht Hc) as (Hc' & Hg' & _). split_and!; [unfold there in *; lia|done|congruence].
Qed.

Lemma fire_steps x g l context args : l = LDone x \/ l = LFail x ->
  steps_to x (starting x g) (finished x g) (fire_with call fuel l context args).
Proof.
  intros Hl k s Hg (Hf & Hc). destruct (fire_first x l context args k s Hl Hg Hc) as [Hg' Hl']. split_and!; [done..|].
  intros _ _. by eapply later_but_finished.
Qed.

Lemma finished_there x g s : finished x g s -> there x s.
Proof. by intros [? _]. Qed.
Lemma starting_there x g s : starting x g s -> there x s.
Proof. by intros [[? _] _]. Qed.

(** The last step of a completion: the request is no longer counted. *)
Lemma uncount_good k g s : g = true -> good (k + count g) s -> good k (set_active (active s - 1) s).
Proof. intros -> [M Pd O T A]. constructor; [done..|]. unfold pending in *. cbn in *. lia. Qed.

Lemma uncount_settling x g (e1 e2 : SM astate unit) :
  (forall P, safe P e1) -> (forall P, safe P e2) ->
  settling x g (finished x g)
    (sm_when g (e1 ;; sm_mod (fun s => set_active (active s - 1) s) ;; a ← sm_get active; sm_when (a =? 0) e2)).
Proof.
  intros H1 H2. destruct g; [|apply settling_safe, safe_ret]. apply settling_bind_safe; [apply _|apply H1|intros _].
  intros k s Hg HP. rewrite sm_mod_bind. pose proof (uncount_good k true s eq_refl Hg) as Hg'.
  assert (safe (fun _ => True) (a ← sm_get active; sm_when (a =? 0) e2)) as Hm by (apply safe_bind; [apply _|apply safe_get|intros a; by apply safe_when]).
  destruct (Hm k _ Hg' I) as [Hg2 Hl2]. split; [done|]. exact (later_later_but x _ _ Hl2).
Qed.

Lemma settle_settling x g o : settling x g (starting x g) (settle call trigger fuel x o).
Proof.
  unfold settle, callback_context, fixed, setting. apply settling_bind_safe; [apply _|apply safe_get|intros ctx].
  apply (settling_bind _ _ _ (finished x g)); [destruct (oc_success o); by apply fire_steps; auto|intros _].
  apply settling_bind_safe; [apply _|apply safe_get|intros codes].
  apply settling_bind_safe; [apply _| |intros _].
  { eapply safe_mono; [apply finished_there|]. safe_steps. }
  apply settling_bind_safe; [apply _|by apply safe_upd_req|intros _].
  intros k s Hg HP. rewrite sm_get_bind. destruct HP as (Ht & Hc & Eg). rewrite Eg.
  assert (settling x g (finished x g) (sm_when g (trigger (if oc_success o then AjaxSuccess else AjaxError) [VReq x; VSettings x; if oc_success o then oc_data o else oc_error o]) ;;
    fire_with call fuel (LComplete x) ctx [VReq x; a_str (oc_text o)] ;;
    sm_when g (trigger AjaxComplete [VReq x; VSettings x] ;; sm_mod (fun s => set_active (active s - 1) s) ;;
     a ← sm_get active; sm_when (a =? 0) (trigger AjaxStop [])))) as Hm; [|by apply Hm].
  apply settling_bind_safe; [apply _|safe_steps|intros _].
  apply settling_bind_safe; [apply _|eapply safe_mono; [apply finished_there|apply fire_complete]|intros _].
  apply uncount_settling; intros P; auto with jslib.
Qed.

(** ** Completion *)

Lemma complete_start k s x : good k s -> there x s -> is_completed (req_at s x) = false ->
  let s' := (upd_req x (set_completed (Some true)) s).2 in let g := r_fireGlobals (req_at s x) in
  good (k + count g) s' /\ later s s' /\ starting x g s'.
Proof.
  intros [M Pd O T A] Hx Hc s' g. unfold s', upd_req, sm_mod. cbn [snd]. set (t := set_reqs _ s).
  assert (forall y, req_at t y = if decide (x = y) then set_completed (Some true) (req_at s x) else req_at s y) as Er.
  { intros y. unfold t. rewrite req_at_insert. repeat case_decide; try done; tauto. }
  assert (length (reqs t) = length (reqs s)) as El by (unfold t; cbn [reqs set_reqs]; by rewrite length_insert).
  split_and!.
  - constructor; unfold there in *; rewrite ?El; [done| |done| |].
    + intros y Hy. rewrite Er. case_decide; [done|by apply Pd].
    + by change (timers t) with (timers s).
    + change (active t) with (active s). unfold t. rewrite pending_upd by done. unfold weight, open_req. rewrite Hc. change (is_completed (set_completed _ _)) with true.
      unfold g. cbn. destruct (r_fireGlobals _); cbn; lia.
  - eapply (later_but_pending x); [done|]. apply upd_req_later. congruence.
  - destruct (Pd x Hx Hc). assert (is_completed (req_at t x) = true) as Hc' by (rewrite Er; by rewrite decide_True).
    split; [split_and!|split_and!]; try done; unfold there in *; [by rewrite El|rewrite Er; by rewrite decide_True|by rewrite El].
Qed.

Lemma upd_req_bind {B} x f (k : unit -> SM astate B) s : (upd_req x f ≫= k) s = k tt (upd_req x f s).2.
Proof. done. Qed.

Lemma done_safe x status native responses headers : safe (there x) (Ajax.done call trigger fuel x status native responses headers).
Proof.
  intros k s Hg Hx. unfold Ajax.done. rewrite sm_get_bind.
  destruct (is_completed (req_at s x)) eqn:Hc; [by apply (safe_ret (there x))|].
  destruct (complete_start k s x Hg Hx Hc) as (Hg1 & Hl1 & Hs1). rewrite upd_req_bind.
  set (g := r_fireGlobals _) in *. set (s1 := (upd_req _ _ s).2) in *.
  match goal with |- good k (?m s1).2 /\ _ => assert (settling x g (starting x g) m) as Hm end.
  2: { destruct (Hm k s1 Hg1 Hs1) as [Hg2 Hl2]. split; [done|]. eapply (later_but_pending x); [done|].
       eapply later_but_trans; [by apply later_later_but|done]. }
  apply settling_bind_safe; [apply _| |intros _].
  { destruct (r_timer _); safe_steps. apply safe_mod. intros s2. split_and!; [done..|]. intros Hf _. cbn [timers set_timers].
    apply Forall_forall. intros p Hp. apply list_elem_of_In, filter_In in Hp as [Hp _]. apply (proj1 (Forall_forall _ _) Hf). by apply list_elem_of_In. }
  apply settling_bind_safe; [apply _|by apply safe_upd_req|intros _].
  apply settling_bind_safe; [apply _|apply read_response_safe; apply _|intros response].
  apply settling_bind_safe; [apply _|unfold fixed, setting; safe_steps|intros m].
  apply settling_bind_safe; [apply _|safe_steps; apply keep_validators_safe, _|intros _].
  apply settling_bind_safe; [apply _|unfold setting; safe_steps|intros type].
  apply (settling_bind _ _ _ (starting x g)); [|intros _; apply settle_settling].
  intros k2 s2 Hg2 Hs2. split_and!; [by apply upd_req_good|by apply upd_req_later|]. intros _ _.
  destruct Hs2 as (Hf & Ht & Hc2 & Hd & He). assert (later_but x s2 (upd_req x (set_status (oc_status (outcome_of status native type response)) (if decide (native = []) then oc_text (outcome_of status native type response) else native)) s2).2) as Hl2 by (by apply upd_req_later).
  pose proof (later_but_finished _ _ _ _ Hl2 Hf) as Hf2. split; [done|]. destruct Hf2 as (? & ? & ?). by split_and!.
Qed.
#[local] Hint Resolve done_safe : jslib.

Lemma abort_safe x text : safe (there x) (abort call trigger fuel x text).
Proof. unfold abort. safe_steps. Qed.
#[local] Hint Resolve abort_safe : jslib.

(** ** Starting *)

Lemma each_entry_safe {A} P `{!Lasting P} read (visit : N -> A -> SM astate (A * bool)) todo i acc :
  (forall f a, safe P (visit f a)) -> safe P (each_entry read visit todo i acc).
Proof.
  intros Hv. revert i acc. induction todo as [|n IH]; intros i acc; cbn [each_entry]; [apply safe_ret|]. safe_steps; auto.
Qed.

Lemma inspect_prefilters_safe P `{!Lasting P} n x inspected type : safe P (inspect_prefilters call n x inspected type).
Proof.
  revert inspected type. induction n as [|n IH]; intros inspected type; cbn [inspect_prefilters]; [apply safe_lift|].
  apply safe_bind; [apply _|apply safe_get|intros len]. apply each_entry_safe; [apply _|]. intros f a. safe_steps; auto.
Qed.
#[local] Hint Resolve inspect_prefilters_safe : jslib.

Lemma run_prefilters_safe P `{!Lasting P} x : safe P (run_prefilters call fuel x).
Proof. unfold run_prefilters, first_type, setting. safe_steps. Qed.

Lemma find_transport_safe P `{!Lasting P} x : safe P (find_transport call x).
Proof.
  unfold find_transport, inspect_transports, first_type, setting. safe_steps; (apply each_entry_safe; [apply _|]; intros ? ?; safe_steps).
Qed.

Lemma normalise_safe P `{!Lasting P} x url : safe P (normalise x url).
Proof. unfold normalise, setting. safe_steps. Qed.

Lemma address_options_safe P `{!Lasting P} x : safe P (address_options x).
Proof.
  unfold address_options, setting. apply safe_bind; [apply _|apply safe_upd_set|intros _]. apply safe_bind; [apply _|apply safe_get|intros s].
  destruct (s_hasContent s); [safe_steps|]. safe_steps.
Qed.

Lemma header_options_safe P `{!Lasting P} x : safe P (header_options x).
Proof. unfold header_options. safe_steps. Qed.
#[local] Hint Resolve run_prefilters_safe find_transport_safe normalise_safe address_options_safe header_options_safe : jslib.

(** Sending a request that has not completed. *)
Lemma send_good x t k s : good k s -> there x s -> is_completed (req_at s x) = false ->
  good k (send call trigger fuel x t s).2 /\ later s (send call trigger fuel x t s).2.
Proof.
  intros Hg Hx Hc. unfold send. rewrite upd_req_bind. set (s1 := (upd_req x _ s).2).
  assert (good k s1) as Hg1 by (by apply upd_req_good).
  assert (later s s1) as Hl1 by (eapply (later_but_pending x); [done|]; apply upd_req_later; congruence).
  match goal with |- context [match ?m s1 with _ => _ end] => assert (safe (there x) m) as Hm; [destruct t; safe_steps|];
    destruct (Hm k s1 Hg1 (there_later _ _ _ Hl1 Hx)) as [Hg2 Hl2]; destruct (m s1) as [[v|e|] s2] end; cbn [snd] in *.
  - split; [done|]. by eapply later_trans.
  - pose proof (later_trans _ _ _ Hl1 Hl2) as Hl. destruct (is_completed (req_at s2 x)); [by split|].
    destruct (done_safe x (-1) e None [] k s2 Hg2 (there_later _ _ _ Hl Hx)) as [Hg3 Hl3]. split; [done|]. by eapply later_trans.
  - split; [done|]. by eapply later_trans.
Qed.

Lemma dispatch_safe x : safe (there x) (dispatch_request call trigger fuel x).
Proof.
  unfold dispatch_request. apply safe_bind; [apply _|apply find_transport_safe, _|intros t].
  apply safe_bind; [apply _|by apply safe_upd_req|intros _]. destruct t as [t|]; [|safe_steps].
  apply safe_bind; [apply _|by apply safe_upd_req|intros _]. apply safe_bind; [apply _|apply safe_get|intros g].
  apply safe_bind; [apply _|safe_steps|intros _]. intros k s Hg Hx. rewrite sm_get_bind.
  destruct (is_completed (req_at s x)) eqn:Hc; [by apply (safe_ret (there x))|].
  destruct (s_async _ && _); cbn [sm_when]; [|by rewrite sm_ret_bind; apply send_good].
  match goal with |- good k ((?m ≫= _) s).2 /\ _ => assert (safe (there x) m) as Hm; [|set (s1 := (m s).2)] end.
  - safe_steps. apply safe_mod. intros s2. split_and!; [done..|]. intros Hf Hx2. cbn [timers set_timers].
    apply Forall_app. split; [done|]. by constructor.
  - destruct (Hm k s Hg Hx) as [Hg1 Hl1]. change (good k (send call trigger fuel x t s1).2 /\ later s (send call trigger fuel x t s1).2).
    assert (is_completed (req_at s1 x) = false) as Hc1.
    { unfold s1, mbind, sm_bind, sm_get, sm_mod, upd_req. cbn [snd]. unfold sm_mod. cbn [snd]. rewrite req_at_insert. by case_decide. }
    destruct (send_good x t k s1 Hg1 (there_later _ _ _ Hl1 Hx) Hc1) as [Hg2 Hl2]. split; [done|]. by eapply later_trans.
Qed.
#[local] Hint Resolve dispatch_safe : jslib.

(** The request becomes one with global events, and is counted. *)
Lemma open_good x g (e m : SM astate unit) k s : (forall P, safe P e) -> safe (there x) m -> good k s -> there x s -> is_completed (req_at s x) = false ->
  forall A (rest : SM astate A), safe (there x) rest ->
  let all := upd_req x (set_fireGlobals g) ;; a ← sm_get active;
    sm_when g (sm_mod (set_active (a + 1)) ;; sm_when (a =? 0) e) ;; rest in
  good k (all s).2 /\ later s (all s).2.
Proof.
  intros He Hm [M Pd O T Ac] Hx Hc A rest Hrest all. unfold all. rewrite upd_req_bind. set (s1 := (upd_req _ _ s).2). rewrite sm_get_bind.
  assert (later s s1) as Hl1 by (eapply (later_but_pending x); [done|]; apply upd_req_later; congruence).
  assert (forall a, count g + active s <= a -> good k (set_active a s1)) as Hg1.
  { intros a Ha. assert (length (reqs s1) = length (reqs s)) as El by (unfold s1, upd_req, sm_mod; cbn; by rewrite length_insert).
    constructor; unfold there in *; change (reqs (set_active a s1)) with (reqs s1); rewrite ?El; [done| |done| |].
    - intros y Hy Hp. apply Pd; [done|]. revert Hp. change (is_completed (req_at s1 y) = false -> is_completed (req_at s y) = false).
      unfold s1, upd_req, sm_mod. cbn [snd]. rewrite req_at_insert. case_decide as E; [|done]. by destruct E as [<- _].
    - by change (timers (set_active a s1)) with (timers s).
    - change (pending s1 + k <= a). unfold s1, upd_req, sm_mod. cbn [snd]. rewrite pending_upd by done. unfold weight, open_req.
      rewrite Hc. change (is_completed (set_fireGlobals g (req_at s x))) with (is_completed (req_at s x)). 
      rewrite Hc. change (r_fireGlobals (set_fireGlobals g (req_at s x))) with g. clearbody s1. clear all El Hl1.
      destruct g, (r_fireGlobals (req_at s x)); cbn [andb negb count] in *; lia. }
  assert (safe (there x) (sm_when (active s =? 0) e ;; rest)) as Hrest1 by safe_steps.
  change (active s1) with (active s). destruct g; cbn [sm_when].
  - change (good k ((sm_when (active s =? 0) e ;; rest) (set_active (active s + 1) s1)).2 /\ later s ((sm_when (active s =? 0) e ;; rest) (set_active (active s + 1) s1)).2).
    set (s2 := set_active _ s1). destruct (Hrest1 k s2 (Hg1 (active s + 1) ltac:(cbn [count]; lia)) (there_later _ _ _ Hl1 Hx)) as [Hg2 Hl2].
    split; [done|]. by eapply (later_trans _ s2).
  - rewrite sm_ret_bind. replace s1 with (set_active (active s) s1) by (by unfold s1).
    destruct (Hrest k (set_active (active s) s1) (Hg1 (active s) ltac:(cbn [count]; lia)) (there_later _ _ _ Hl1 Hx)) as [Hg2 Hl2].
    split; [done|]. by eapply (later_trans _ s1).
Qed.

(** A new request, with new lists. *)
Lemma new_req_good s0 k s : good k s -> let x := length (reqs s) in let s' := (new_req s0 s).2 in
  new_req s0 s = (Ok x, s') /\ good k s' /\ later s s' /\ there x s'.
Proof.
  intros [M Pd O T A] x s'. split; [done|].
  set (r := AReq s0 None None None false (Some (s_statusCode (s_fixed s0))) (str "canceled") [] [] [] 0 None None [] [] (str "pending")).
  assert (reqs s' = reqs s ++ [r]) as Er by done.
  assert (length (reqs s') = S x) as El by (rewrite Er, length_app; cbn; lia).
  assert (forall y, req_at s' y = if decide (y = x) then r else req_at s y) as Eq.
  { intros y. unfold req_at. rewrite Er. case_decide as E; [subst y; by rewrite list_lookup_middle|].
    destruct (decide (y < x)%nat); [by rewrite lookup_app_l|]. rewrite !lookup_ge_None_2; [done|fold x; lia|rewrite <-Er, El; lia]. }
  assert (forall l, lid_req l <> x -> get_cbs l s' = get_cbs l s) as Ho.
  { intros l Hl. unfold s', new_req. unfold mbind, sm_bind, sm_get, sm_mod, mret, sm_ret. cbn [snd]. rewrite !req_list_get_put.
    rewrite !decide_False by (intros <-; cbn in Hl; done). done. }
  assert (forall l, lid_req l = x -> memory (get_cbs l s') = None /\ fired (get_cbs l s') = false) as Hn.
  { intros l Hl. unfold s', new_req. unfold mbind, sm_bind, sm_get, sm_mod, mret, sm_ret. cbn [snd]. rewrite !req_list_get_put.
    destruct l; cbn in Hl; subst; repeat case_decide; try done; congruence. }
  split_and!.
  - constructor; unfold there, has_fired; rewrite ?El.
    + intros l Hl. destruct (decide (lid_req l = x)) as [Hx|Hx]; [by rewrite (proj1 (Hn l Hx))|]. rewrite (Ho l Hx). apply M. unfold there. lia.
    + intros y Hy. rewrite Eq. case_decide as E.
      * intros _. split; by apply Hn.
      * rewrite !Ho by done. apply Pd. unfold there. lia.
    + intros y Hy. destruct (decide (y = x)) as [E|E]; [by rewrite (proj2 (Hn (LDone y) E))|]. rewrite !Ho by done. apply O. unfold there. lia.
    + change (timers s') with (timers s). eapply Forall_impl; [done|]. unfold there. intros p. lia.
    + change (active s') with (active s). unfold pending. rewrite Er, List.filter_app, length_app. cbn. unfold pending in A. lia.
  - unfold later, there, same_req, has_fired. rewrite El. split_and!; [lia| |].
    + intros l Hl. by rewrite Ho by lia.
    + intros y Hy _. rewrite Eq, decide_False by lia. by rewrite !Ho by (cbn; lia).
  - unfold there. lia.
Qed.

Lemma ajax_safe url s0 : safe (fun _ => True) (ajax call trigger fuel url s0).
Proof.
  intros k s Hg _. unfold ajax. destruct (new_req_good s0 k s Hg) as (E & Hg1 & Hl1 & Hx). set (x := length (reqs s)) in *.
  rewrite (sm_bind_eq _ _ _ _ _ E). set (s1 := (new_req s0 s).2) in *. clearbody s1 x.
  match goal with |- good k (?m s1).2 /\ _ => assert (safe (there x) m) as Hm end.
  2: { destruct (Hm k s1 Hg1 Hx) as [Hg2 Hl2]. split; [done|]. by eapply later_trans. }
  clear s Hg Hl1 E s1 Hg1 Hx k. apply safe_bind; [apply _|apply normalise_safe, _|intros _].
  apply safe_bind; [apply _|apply run_prefilters_safe, _|intros _]. intros k s Hg Hx. rewrite sm_get_bind.
  destruct (is_completed (req_at s x)) eqn:Hc; [by apply (safe_ret (there x))|].
  apply (open_good x _ _ (mret tt)); [auto with jslib|apply safe_ret|done..|]. unfold callback_context, fixed, setting. safe_steps.
  - apply (add_fns_safe (LComplete x)).
  - apply (add_fns_safe (LDone x)).
  - apply (add_fns_safe (LFail x)).
Qed.

(** ** Operations *)

Lemma register_safe P expr f read write :
  (forall t s, reqs (write t s) = reqs s /\ lists (write t s) = lists s /\ active (write t s) = active s /\ timers (write t s) = timers s) ->
  safe P (register expr f read write).
Proof.
  intros Hw k s Hg HP. assert (forall t, safe P (sm_mod (write t))) as Hm.
  { intros t. apply safe_mod. intros s'. destruct (Hw t s') as (-> & -> & -> & ->). split_and!; auto. }
  unfold register. destruct (register_all _ _ _) as [[st|e|] t]; [by apply (Hm st)|by apply (Hm t)|]. split; [done|apply later_refl].
Qed.

Lemma do_op_safe o : safe (fun _ => True) (do_op call trigger fuel o).
Proof.
  intros k s Hg _. unfold do_op. rewrite sm_get_bind.
  destruct (match op_target o with Some x => _ | None => true end) eqn:Et; [|by apply (safe_throw (fun _ => True))].
  assert (forall x, op_target o = Some x -> there x s) as Hx by (intros x Ex; rewrite Ex in Et; by apply bool_decide_eq_true in Et).
  destruct o as [url s0|x text|x status text responses headers|t|x name value|x key|x|x type|x map|x args|x args|x args|x f|x|expr f|expr f|n]; cbn [run_op op_target] in *;
    try (specialize (Hx x eq_refl); match goal with |- good k (?m s).2 /\ _ => assert (safe (there x) m) as Hm; [|by apply Hm] end; unfold get_header, getAllResponseHeaders; safe_steps);
    try (match goal with |- good k (?m s).2 /\ _ => assert (safe (fun _ => True) m) as Hm; [|by apply Hm] end; safe_steps;
         first [apply ajax_safe|apply register_safe; by intros]).
  - rewrite sm_get_bind. destruct (List.find _ (timers s)) as [[t' x]|] eqn:Ef; [|by apply (safe_ret (fun _ => True))].
    assert (there x s) as Hxt.
    { apply find_some in Ef as [Hin _]. apply (proj1 (Forall_forall _ _) (good_timers _ _ Hg) (t', x)). by apply list_elem_of_In. }
    match goal with |- good k (?m s).2 /\ _ => assert (safe (there x) m) as Hm; [|by apply Hm] end. safe_steps.
    apply safe_mod. intros s2. split_and!; [done..|]. intros Hf _. cbn [timers set_timers].
    apply Forall_forall. intros p Hp. apply list_elem_of_In, filter_In in Hp as [Hp _]. apply (proj1 (Forall_forall _ _) Hf). by apply list_elem_of_In.
  - apply (add_fns_safe (LDone x)).
  - apply (add_fns_safe (LFail x)).
Qed.

End calls.
End facts.
