(* ===== verification/AjaxProps.v ===== *)
(** * The properties of requests

    What holds of the requests of any page, and of the headers of a request. *)

From S2P Require Import Prelude JsNum JsVal Callbacks Param AjaxConvert Ajax AjaxFacts.

Section programs.
Context `{AjaxHost} (user : N -> aval -> list aval -> aprog) (handlers : gevent -> list aval -> aprog).

Lemma run_prog_safe ex p : (forall o, safe (fun _ => True) (ex o)) -> safe (fun _ => True) (run_prog ex p).
Proof.
  intros He. induction p as [v|e|o k IHk hd IHh]; cbn [run_prog]; [apply safe_ret|apply safe_throw|].
  intros n s Hg _. destruct (He o n s Hg I) as [Hg1 Hl1]. destruct (ex o s) as [[v|e|] s1]; cbn [snd] in *; [| |done].
  - destruct (IHk v n s1 Hg1 I) as [Hg2 Hl2]. split; [done|]. by eapply later_trans.
  - destruct (IHh e n s1 Hg1 I) as [Hg2 Hl2]. split; [done|]. by eapply later_trans.
Qed.

Lemma calls_safe fuel :
  (forall f this args, safe (fun _ => True) (call user handlers fuel f this args))
  /\ (forall e args, safe (fun _ => True) (trigger user handlers fuel e args)).
Proof.
  induction fuel as [|n [IHc IHt]]; [by split; intros; apply safe_lift|].
  assert (forall o, safe (fun _ => True) (do_op (call user handlers n) (fun e args => trigger user handlers n e args ;; mret tt) n o)) as Hop.
  { intros o. apply do_op_safe; [done|]. intros e args. apply safe_bind; [apply _|done|intros _; apply safe_ret]. }
  split.
  - intros f this args. cbn [call]. destruct f as [k|x st|l]; [by apply run_prog_safe| |].
    + apply safe_bind; [apply _|by apply safe_upd_req|intros _; apply safe_ret].
    + apply safe_bind; [apply _|by apply safe_disable|intros _; apply safe_ret].
  - intros e args. cbn [trigger]. by apply run_prog_safe.
Qed.

Lemma run_main_safe fuel p : safe (fun _ => True) (run_main user handlers fuel p).
Proof.
  destruct (calls_safe fuel) as [Hc Ht]. apply run_prog_safe. intros o. apply do_op_safe; [done|].
  intros e args. apply safe_bind; [apply _|done|intros _; apply safe_ret].
Qed.

Lemma good0 : good 0 astate0.
Proof. by constructor. Qed.

(** Whatever the page does with requests (any program, with functions and
    handlers that start, abort or finish requests and throw at any time), a request
    that has not completed has run none of its callbacks for success or for error, no
    request runs both kinds, and [jQuery.active] is at least the number of requests
    with global events that have not completed; so [ajaxStop], which is sent when it
    is zero, never comes before one of them has completed. *)
Theorem ajax_reachable fuel p :
  let s := (run_main user handlers fuel p astate0).2 in
  (forall x r, reqs s !! x = Some r -> r_completed r <> Some true ->
     fired (get_cbs (LDone x) s) = false /\ fired (get_cbs (LFail x) s) = false)
  /\ (forall x, (x < length (reqs s))%nat -> fired (get_cbs (LDone x) s) && fired (get_cbs (LFail x) s) = false)
  /\ Z.of_nat (length (List.filter (fun r => r_fireGlobals r && negb (bool_decide (r_completed r = Some true))) (reqs s))) <= active s.
Proof.
  intros s. destruct (run_main_safe fuel p 0 astate0 good0 I) as [[M Pd O T A] _]. fold s in M, Pd, O, T, A. split_and!.
  - intros x r Er Hc. apply Pd; [by eapply lookup_lt_Some|]. unfold req_at. rewrite Er. by apply bool_decide_eq_false.
  - intros x Hx. specialize (O x Hx). unfold has_fired in O. destruct (fired _), (fired _); naive_solver.
  - unfold pending in A. change (fun r => _) with open_req. lia.
Qed.

(** C23: a request completes once and for all: whatever happens after a request has
    completed, it stays completed, its status and text stay as they are, and none of
    its two lists of callbacks runs that has not run. *)
Theorem ajax_settles_once fuel p fuel' p' x r :
  let s := (run_main user handlers fuel p astate0).2 in
  let s' := (run_main user handlers fuel' p' s).2 in
  reqs s !! x = Some r -> r_completed r = Some true ->
  exists r', reqs s' !! x = Some r' /\ r_completed r' = Some true
    /\ r_status r' = r_status r /\ r_statusText r' = r_statusText r
    /\ fired (get_cbs (LDone x) s') = fired (get_cbs (LDone x) s)
    /\ fired (get_cbs (LFail x) s') = fired (get_cbs (LFail x) s).
Proof.
  intros s s' Er Hc. destruct (run_main_safe fuel p 0 astate0 good0 I) as [Hg _]. fold s in Hg.
  destruct (run_main_safe fuel' p' 0 s Hg I) as [_ (L & _ & C)]. fold s' in L, C.
  pose proof (lookup_lt_Some _ _ _ Er) as Hx. destruct (lookup_lt_is_Some_2 (reqs s') x) as [r' Er']; [lia|].
  assert (req_at s x = r) as Eq by (unfold req_at; by rewrite Er). assert (req_at s' x = r') as Eq' by (unfold req_at; by rewrite Er').
  destruct (C x Hx) as (O & D & E); [rewrite Eq; by apply bool_decide_eq_true|]. rewrite Eq, Eq' in O. injection O as Oc _ Os Ot.
  exists r'. split_and!; try done. unfold is_completed in Oc. rewrite (bool_decide_eq_true_2 (r_completed r = _)) in Oc by done. by apply bool_decide_eq_true in Oc.
Qed.
End programs.

(** ** An example page *)

Module Page.
#[local] Instance env : JsEnv :=
  {| call_fn _ _ := Ok VUndef; section_fn _ _ _ := LRet VUndef; fun_prop _ _ := None; fun_source _ := str "function () { [native code] }" |}.
#[export] Instance host : AjaxHost :=
  {| unicode_lower c := [c]; unicode_upper c := [c]; location_href := str "http://h/p"; location_protocol := str "http:";
     location_origin := str "http://h"; origin_of _ := Ok (str "http://h") |}.

(** Functions print their numbers; 10 makes a transport, whose sending, 11, answers
    at once. *)
Definition user (n : N) (this : aval) (args : list aval) : aprog :=
  POp (OPrint n) (fun _ =>
    match n, args with
    | 10%N, _ => PRet (VTransport (TObj 11 12))
    | 11%N, [_; VFinish x] => POp (OFinish x 200 (str "OK") (Some [(str "text", VStr (str "hello"))]) []) PRet PThrow
    | _, _ => PRet a_undef
    end) PThrow.
Definition event_num (e : gevent) : N :=
  match e with AjaxStart => 101 | AjaxSend => 102 | AjaxSuccess => 103 | AjaxError => 104 | AjaxComplete => 105 | AjaxStop => 106 end.
Definition handlers (e : gevent) (args : list aval) : aprog := POp (OPrint (event_num e)) PRet PThrow.

Definition settings : aset :=
  ASet (AFixed [(str "text", str "responseText")] [(str "*", str "*")] [] true false false true true 5 false None (Some 4%N)
          [AFn (AUser 1)] [AFn (AUser 2)] [AFn (AUser 3)] [(str "200", AFn (AUser 5))] None [] false)
    (str "//x/y?_=1#z") (str "get") [] (VObj [(str "q", VStr (str "a b"))]) [] [] false None [] None (Some false).
Definition main : aprog :=
  POp (OTransport (str "*") 10) (fun _ => POp (OAjax [] settings) PRet PThrow) PThrow.
Definition after : aprog := POp (OAbort 0 []) (fun _ => POp (OFinish 0 404 [] None []) PRet PThrow) PThrow.
Definition state : astate := (run_main user handlers 30 main astate0).2.

(** The order in which the functions and the handlers of the page run. *)
Example page_order : printed state = [101; 4; 10; 102; 11; 1; 5; 103; 3; 105; 106]%N.
Proof. vm_compute. reflexivity. Qed.
End Page.
Import Page.

Lemma ajax_settles_once_witness :
  exists r, r_status r = Some 200
    /\ reqs (run_main user handlers 30 after (run_main user handlers 30 main astate0).2).2 !! 0%nat = Some r.
Proof.
  assert (exists r, reqs (run_main user handlers 30 main astate0).2 !! 0%nat = Some r /\ r_completed r = Some true /\ r_status r = Some 200)
    as (r & E & Hc & Hr) by (eexists; split; [vm_compute; reflexivity|by split]).
  destruct (ajax_settles_once user handlers 30 main 30 after 0 r E Hc) as (r' & Er & _ & Hs & _).
  exists r'. split; [by rewrite Hs|exact Er].
Defined.

(** ** The headers of a request *)

Section headers.
Context `{AjaxHost}.

(** The first of the headers with a name, in any spelling. *)
Definition named (k : jstr) (hs : list (jstr * jstr)) : option (jstr * jstr) := List.find (fun p => bool_decide (low p.1 = k)) hs.

Definition set_headers (x : nat) (hs : list (jstr * jstr)) : SM astate unit := sm_each (fun p => setRequestHeader x p.1 p.2) hs.

(** Names that the object for the names has no member for. *)
Definition plain_name (p : jstr * jstr) : Prop := p.1 <> [] /\ object_member (low p.1) = None.

(** What is known after the headers [hs]. *)
Definition headers_are (hs : list (jstr * jstr)) (r : areq) : Prop :=
  (forall k, table_get (r_names r) k = fst <$> named k hs)
  /\ (forall n, table_get (r_headers r) n
        = p ← named (low n) hs; if decide (p.1 = n) then snd <$> named (low n) (rev hs) else None).

Lemma find_app {A} (f : A -> bool) (l1 l2 : list A) :
  List.find f (l1 ++ l2) = match List.find f l1 with Some a => Some a | None => List.find f l2 end.
Proof. induction l1 as [|a l1 IH]; cbn; [done|]. by destruct (f a). Qed.

Lemma table_get_set {A} (t : list (jstr * A)) n v n' : table_get (table_set t n v) n' = if decide (n = n') then Some v else table_get t n'.
Proof.
  induction t as [|[m w] t IH]; cbn [table_set table_get]; [done|].
  destruct (decide (m = n)) as [->|Hm]; cbn [table_get].
  - by repeat case_decide.
  - rewrite IH. repeat case_decide; congruence.
Qed.

Lemma named_app k hs p : named k (hs ++ [p]) = match named k hs with Some q => Some q | None => if decide (low p.1 = k) then Some p else None end.
Proof. unfold named. rewrite find_app. cbn. by rewrite <-(decide_bool_decide (low p.1 = k)). Qed.

Lemma named_last k hs p : named k (rev (hs ++ [p])) = if decide (low p.1 = k) then Some p else named k (rev hs).
Proof. rewrite rev_app_distr. unfold named. cbn. by rewrite <-(decide_bool_decide (low p.1 = k)). Qed.

Lemma named_Some k hs q : named k hs = Some q -> q ∈ hs /\ low q.1 = k.
Proof. intros E. apply find_some in E as [Hin Hq]. split; [by apply list_elem_of_In|]. by apply bool_decide_eq_true in Hq. Qed.

(** The spelling of a header that a new one gets. *)
Lemma known_name hs r p : headers_are hs r -> Forall plain_name hs -> plain_name p ->
  (let known := plain_text (r_names r) (low p.1) in if decide (known = []) then p.1 else known)
  = match named (low p.1) hs with Some q => q.1 | None => p.1 end.
Proof.
  intros [Hn _] Hp [Hne Hm]. unfold plain_text. rewrite Hn. destruct (named (low p.1) hs) as [q|] eqn:Eq; cbn [fmap option_fmap option_map].
  - apply named_Some in Eq as [Hq _]. rewrite decide_False; [done|]. apply (proj1 (Forall_forall _ _) Hp q Hq).
  - rewrite Hm, bool_decide_eq_false_2 by (by intros [? ?]). by rewrite decide_True.
Qed.

Lemma headers_step hs r p : headers_are hs r -> Forall plain_name hs -> plain_name p ->
  let name := match named (low p.1) hs with Some q => q.1 | None => p.1 end in
  headers_are (hs ++ [p]) (set_header (table_set (r_headers r) name p.2) (table_set (r_names r) (low p.1) name) r).
Proof.
  intros [Hn Hh] Hp Hpl name. split.
  - intros k. cbn [r_names set_header]. rewrite table_get_set, named_app, Hn. case_decide as Ek; [subst k|by destruct (named k hs)].
    unfold name. by destruct (named (low p.1) hs).
  - intros n. cbn [r_headers set_header]. rewrite table_get_set, named_app, named_last, Hh.
    assert (low name = low p.1) as El by (unfold name; destruct (named (low p.1) hs) as [q|] eqn:Eq; [by apply named_Some in Eq as [_ ->]|done]).
    destruct (decide (low p.1 = low n)) as [E|E].
    + unfold name. rewrite E. destruct (named (low n) hs) as [q|]; cbn; by case_decide.
    + rewrite (decide_False (P := name = n)) by congruence. by destruct (named (low n) hs).
Qed.

(** Whether a state has the request [x], which has not been sent. *)
Definition unsent (x : nat) (s : astate) : Prop := there x s /\ r_completed (req_at s x) = None.

Lemma set_headers_go x hs : forall pre s, unsent x s -> headers_are pre (req_at s x) -> Forall plain_name pre -> Forall plain_name hs ->
  comes (set_headers x hs) s (fun _ s' => unsent x s' /\ headers_are (pre ++ hs) (req_at s' x)).
Proof.
  induction hs as [|p hs IH]; intros pre s Hu Hh Hpre Hhs; cbn [set_headers sm_each].
  - apply comes_ret. by rewrite app_nil_r.
  - apply Forall_cons in Hhs as [Hp Hhs]. eapply comes_bind with (R := fun _ s' => unsent x s' /\ headers_are (pre ++ [p]) (req_at s' x)).
    + unfold setRequestHeader. apply comes_get_bind. rewrite (proj2 Hu). cbn zeta. rewrite (known_name pre) by done.
      apply comes_mod. destruct Hu as [Ht Hc]. unfold unsent, there in *. cbn [reqs set_reqs]. rewrite length_insert, req_at_insert, decide_True by done.
      split; [done|]. by apply headers_step.
    + intros ? s1 [Hu1 Hh1]. eapply comes_mono; [apply (IH (pre ++ [p])); [done..| |done]|].
      * apply Forall_app. split; [done|]. by constructor.
      * intros ? s2. by rewrite <-app_assoc.
Qed.

(** Headers of a request that has not been sent are known by their names in any
    spelling: after any number of calls of [setRequestHeader], exactly the spelling is
    sent with which a header was set first, with the value with which it was set last
    (for names that are not empty and not, in lower case, a member of every
    object). *)
Theorem headers_sent x hs s :
  (x < length (reqs s))%nat -> r_completed (req_at s x) = None -> r_headers (req_at s x) = [] -> r_names (req_at s x) = [] ->
  Forall plain_name hs ->
  exists s', set_headers x hs s = (Ok tt, s')
    /\ forall n, table_get (r_headers (req_at s' x)) n
         = match named (low n) hs, named (low n) (rev hs) with
           | Some first, Some last => if decide (first.1 = n) then Some last.2 else None
           | _, _ => None
           end.
Proof.
  intros Hx Hc Hh Hn Hhs. destruct (set_headers_go x hs [] s) as ([] & s' & E & _ & _ & Hs'); [by split| |done..|].
  - split; intros k; [by rewrite Hn|by rewrite Hh].
  - exists s'. split; [done|]. intros n. rewrite Hs'. cbn [app]. destruct (named (low n) hs) as [p|]; cbn; [|done].
    destruct (named (low n) (rev hs)); cbn; by case_decide.
Qed.
End headers.

Import Page.

Lemma headers_sent_witness :
  exists s', set_headers 0 [(str "X-A", str "1"); (str "x-b", str "2"); (str "x-a", str "3")] (new_req settings astate0).2 = (Ok tt, s')
    /\ table_get (r_headers (req_at s' 0)) (str "X-A") = Some (str "3") /\ table_get (r_headers (req_at s' 0)) (str "x-a") = None.
Proof.
  destruct (headers_sent 0 [(str "X-A", str "1"); (str "x-b", str "2"); (str "x-a", str "3")] (new_req settings astate0).2) as (s' & E & Hs');
    [vm_compute; lia|reflexivity|reflexivity|reflexivity|repeat constructor; done|].
  exists s'. split; [exact E|]. rewrite !Hs'. split; vm_compute; reflexivity.
Defined.

(** The name [constructor] counts as set before, so that the header is sent under
    another name, the text of a function. *)
Lemma constructor_header :
  table_get (r_headers (req_at (setRequestHeader 0 (str "constructor") (str "v") (new_req settings astate0).2).2 0)) (str "constructor") = None.
Proof. vm_compute. reflexivity. Qed.
