(* ===== verification/AjaxOrder.v ===== *)
(** * The order in which a request settles

    Callbacks, status callbacks and global events, on a page whose functions only
    print. *)

From S2P Require Import Prelude JsNum JsVal Callbacks CallbacksFacts CallbacksProps Param AjaxConvert Ajax AjaxFacts AjaxProps.

Section order.
Context `{AjaxHost} (number : gevent -> N).

(** Functions print their numbers, handlers of global events the ones of the events. *)
Definition printing (n : N) (this : aval) (args : list aval) : aprog := POp (OPrint n) PRet PThrow.
Definition printing_event (e : gevent) (args : list aval) : aprog := POp (OPrint (number e)) PRet PThrow.

Definition print (l : list N) (s : astate) : astate := set_printed (printed s ++ l) s.

(** The calls and the sending of events of the page. *)
Definition page_call (n : nat) : afn -> aval -> list aval -> SM astate aval := call printing printing_event (S n).
Definition page_trigger (n : nat) (e : gevent) (args : list aval) : SM astate unit :=
  trigger printing printing_event (S n) e args ;; mret tt.

Lemma trigger_prints n e args s : page_trigger n e args s = (Ok tt, print [number e] s).
Proof. done. Qed.

(** What a callback prints. *)
Definition outs (f : afn) : list N := match f with AUser k => [k] | _ => [] end.

Lemma outs_users ks : flat_map outs (List.map AUser ks) = ks.
Proof. induction ks as [|k ks IH]; cbn; [done|by rewrite IH]. Qed.

(** States that differ in what has been printed, the state of a request and lists. *)
Definition frame (s s' : astate) : Prop :=
  active s' = active s /\ length (reqs s') = length (reqs s)
  /\ forall y, set_rstate [] (req_at s' y) = set_rstate [] (req_at s y).

(** The callbacks [fs] of the list [l] are still to run; in the end the state of the
    request is [st] and the list [other] disabled. *)
Definition to_run (x : nat) (l other : lid) (st : jstr) (s0 : astate) (total : list N) (fs : list afn) (s : astate) : Prop :=
  frame s0 s /\ printed s ++ flat_map outs fs = total
  /\ Forall (fun f => match f with AUser _ => True | AState y t => y = x /\ t = st | ADisable l => l = other end) fs
  /\ (AState x st ∈ fs \/ r_state (req_at s x) = st)
  /\ (ADisable other ∈ fs \/ lst (get_cbs other s) = None)
  /\ (l <> LComplete x -> get_cbs (LComplete x) s = get_cbs (LComplete x) s0).

Section lists.
Context (x : nat) (l other : lid) (st : jstr) (s0 : astate) (total : list N) (n : nat).
Hypothesis lists_differ : l <> other.
Hypothesis not_complete : other <> LComplete x.
Hypothesis is_there : there x s0.

Lemma to_run_put fs c s : to_run x l other st s0 total fs s -> to_run x l other st s0 total fs (put_cbs l c s).
Proof.
  intros (Hf & Hp & Ha & Hs & Hd & Hc). split_and!; try done.
  - by rewrite req_list_get_put, decide_False.
  - intros Hl. rewrite req_list_get_put, decide_False by done. by apply Hc.
Qed.

Lemma to_run_call f fs this args s : to_run x l other st s0 total (f :: fs) s ->
  exists v s', page_call n f this args s = (Ok v, s') /\ get_cbs l s' = get_cbs l s /\ to_run x l other st s0 total fs s'
    /\ a_is_false v && o_stopOnFalse (opts (get_cbs l s)) = false.
Proof.
  intros (Hf & Hp & Ha & Hs & Hd & Hc). apply Forall_cons in Ha as [Hf0 Ha]. rewrite elem_of_cons in Hs, Hd.
  assert (Hs' : AState x st = f \/ AState x st ∈ fs \/ r_state (req_at s x) = st) by tauto. clear Hs.
  assert (Hd' : ADisable other = f \/ ADisable other ∈ fs \/ lst (get_cbs other s) = None) by tauto. clear Hd.
  destruct f as [k|y t|l'].
  - destruct Hs' as [?|Hs]; [done|]. destruct Hd' as [?|Hd]; [done|].
    eexists _, _. split; [reflexivity|]. split_and!; [done| |done]. split_and!; try done.
    cbn in Hp |- *. by rewrite <-app_assoc.
  - destruct Hd' as [?|Hd]; [done|]. destruct Hf0 as [-> ->]. eexists _, _. split; [reflexivity|]. split_and!; [done| |done].
    set (s' := set_reqs _ s). assert (forall y, set_rstate [] (req_at s' y) = set_rstate [] (req_at s y)) as Eq.
    { intros y. unfold s'. rewrite req_at_insert. case_decide as E; [by destruct E as [<- _]|done]. }
    destruct Hf as (Hf1 & Hf2 & Hf3). split_and!; try done.
    + split_and!; [done|unfold s'; cbn [reqs set_reqs]; by rewrite length_insert|intros y; by rewrite Eq].
    + right. unfold s'. rewrite req_at_insert, decide_True; [done|]. split; [done|]. unfold there in *. by rewrite Hf2.
  - destruct Hs' as [?|Hs]; [done|]. subst l'. eexists _, _. split; [reflexivity|].
    assert (forall l', l' <> other -> get_cbs l' (put_cbs other (disable (get_cbs other s)) s) = get_cbs l' s) as Ho
      by (intros l' Hl'; by rewrite req_list_get_put, decide_False).
    split_and!; [by apply Ho| |done]. split_and!; try done.
    + right. by rewrite req_list_get_put, decide_True.
    + intros Hl. rewrite Ho by done. by apply Hc.
Qed.

End lists.

(** ** The phases *)

Lemma frame_refl s : frame s s.
Proof. by split_and!. Qed.

(** A list of a request on which nothing has fired. *)
Definition idle (l : lid) (fs : list afn) (s : astate) : Prop := get_cbs l s = deferred_list fs.

Definition done_fns (x : nat) (ds : list N) : list afn := AState x (str "resolved") :: ADisable (LFail x) :: List.map AUser ds.
Definition fail_fns (x : nat) (es : list N) : list afn := AState x (str "rejected") :: ADisable (LDone x) :: List.map AUser es.

Lemma fire_idle x l other st ks fs n m ctx args s :
  l <> other -> other <> LComplete x -> there x s -> idle l fs s ->
  Forall (fun f => match f with AUser _ => True | AState y t => y = x /\ t = st | ADisable l => l = other end) fs ->
  flat_map outs fs = ks -> (AState x st ∈ fs \/ r_state (req_at s x) = st) -> (ADisable other ∈ fs \/ lst (get_cbs other s) = None) ->
  (S (length fs) < m)%nat ->
  exists s', fire_with (page_call n) m l ctx args s = (Ok tt, s')
    /\ get_cbs l s' = after_run (deferred_list fs) ctx args /\ to_run x l other st s (printed s ++ ks) [] s'.
Proof.
  intros Hlo Ho Ht Hi Ha Hks Hs Hd Hm.
  destruct (fire_pass get_cbs put_cbs) with (l := l) (I := to_run x l other st s (printed s ++ ks)) (call := page_call n) (undef := a_undef)
    (is_false := a_is_false) (fuel := m) (fs := fs) (this := ctx) (args := args) (h := s) as (s' & E & Eg & HI); rewrite ?Hi; try done.
  - intros l' c s1. by rewrite req_list_get_put, decide_True.
  - intros l' c c' s1. unfold put_cbs, set_lists. cbn. by rewrite insert_insert_eq.
  - intros fs' c s1. by apply to_run_put.
  - intros f fs' this args' s1. by apply to_run_call.
  - split_and!; [apply frame_refl|by rewrite Hks|done..].
  - exists s'. rewrite Hi in Eg. by split_and!.
Qed.

Lemma users_only (P : afn -> Prop) ks : (forall k, P (AUser k)) -> Forall P (List.map AUser ks).
Proof. intros HP. apply Forall_forall. intros f Hf. apply list_elem_of_In, in_map_iff in Hf as (k & <- & _). apply HP. Qed.

(** Callbacks added to a list that has fired. *)
Lemma replay x l other st ks gs fs n m ctx args s :
  l <> other -> other <> LComplete x -> there x s -> get_cbs l s = after_run (deferred_list fs) ctx args ->
  fns_list gs = List.map AUser ks -> r_state (req_at s x) = st -> lst (get_cbs other s) = None -> (S (length ks) < m)%nat ->
  exists s', add_fns (page_call n) m l gs s = (Ok tt, s') /\ to_run x l other st s (printed s ++ ks) [] s'.
Proof.
  intros Hlo Ho Ht Hi Hgs Hs Hd Hm.
  destruct (add_pass get_cbs put_cbs) with (l := l) (I := to_run x l other st s (printed s ++ ks)) (call := page_call n) (undef := a_undef)
    (is_false := a_is_false) (fuel := m) (fs := @nil afn) (gs := gs) (this := ctx) (args := args) (h := s) as (s' & E & HI); rewrite ?Hi; try done.
  - intros l' c s1. by rewrite req_list_get_put, decide_True.
  - intros l' c c' s1. unfold put_cbs, set_lists. cbn. by rewrite insert_insert_eq.
  - intros fs' c s1. by apply to_run_put.
  - intros f fs' this args' s1. by apply to_run_call.
  - rewrite Hgs. split_and!; [apply frame_refl|by rewrite outs_users|by apply users_only|by right|by right|done].
  - rewrite Hgs. by rewrite length_map.
  - by exists s'.
Qed.

(** Adding to a disabled list. *)
Lemma add_disabled l gs n m s : lst (get_cbs l s) = None -> add_fns (page_call n) m l gs s = (Ok tt, s).
Proof. intros Hd. unfold add_fns, Callbacks.add. rewrite sm_get_bind. by rewrite Hd. Qed.

(** The two lists of a deferred, by the outcome. *)
Definition outcome_list (ok : bool) (x : nat) : lid := if ok then LDone x else LFail x.
Definition outcome_fns (ok : bool) (x : nat) (ds es : list N) : list afn := if ok then done_fns x ds else fail_fns x es.
Definition outcome_state (ok : bool) : jstr := if ok then str "resolved" else str "rejected".

Lemma fire_outcome ok x ds es n m ctx args s :
  there x s -> idle (outcome_list ok x) (outcome_fns ok x ds es) s -> (length (outcome_fns ok x ds es) + 1 < m)%nat ->
  exists s', fire_with (page_call n) m (outcome_list ok x) ctx args s = (Ok tt, s')
    /\ get_cbs (outcome_list ok x) s' = after_run (deferred_list (outcome_fns ok x ds es)) ctx args
    /\ to_run x (outcome_list ok x) (outcome_list (negb ok) x) (outcome_state ok) s (printed s ++ if ok then ds else es) [] s'.
Proof.
  intros Ht Hi Hm. apply (fire_idle x _ (outcome_list (negb ok) x) (outcome_state ok) _ (outcome_fns ok x ds es)); try done; destruct ok; try done.
  all: try (repeat constructor; by apply users_only). all: try (cbn; by rewrite outs_users). all: try (cbn in *; lia).
  all: left; repeat constructor.
Qed.

Lemma add_outcome ok x gs ks n m fs ctx args s :
  there x s -> get_cbs (outcome_list ok x) s = after_run (deferred_list fs) ctx args ->
  fns_list gs = List.map AUser ks -> r_state (req_at s x) = outcome_state ok -> lst (get_cbs (outcome_list (negb ok) x) s) = None ->
  (S (length ks) < m)%nat ->
  exists s', always (page_call n) m x gs s = (Ok tt, s')
    /\ to_run x (outcome_list ok x) (outcome_list (negb ok) x) (outcome_state ok) s (printed s ++ ks) [] s'.
Proof.
  intros Ht Hi Hgs Hs Hd Hm. unfold always.
  destruct (replay x (outcome_list ok x) (outcome_list (negb ok) x) (outcome_state ok) ks gs fs n m ctx args s) as (s' & E & HI); try done; [by destruct ok..|].
  exists s'. split; [|done]. destruct ok; cbn in *.
  - rewrite (sm_bind_eq _ _ _ _ _ E). apply (add_disabled (LFail x) gs n m). by destruct HI as (_ & _ & _ & _ & [?%elem_of_nil|?] & _).
  - rewrite (sm_bind_eq _ _ _ _ _ (add_disabled _ gs n m s Hd)). done.
Qed.

(** Reading what a frame keeps. *)
Lemma frame_field {A} (f : areq -> A) s s' x : (forall r, f (set_rstate [] r) = f r) -> frame s s' -> f (req_at s' x) = f (req_at s x).
Proof. intros Hf (_ & _ & Hr). by rewrite <-(Hf (req_at s' x)), Hr, Hf. Qed.

Lemma frame_there s s' x : frame s s' -> there x s -> there x s'.
Proof. intros (_ & Hl & _). unfold there. by rewrite Hl. Qed.

(** The callbacks by status. *)
Lemma status_outcome ok x codes st ks n m fs ctx args s :
  there x s -> is_completed (req_at s x) = true -> r_status (req_at s x) = Some st ->
  fns (default AOther (table_get codes (Z_to_str st))) = List.map AUser ks ->
  get_cbs (outcome_list ok x) s = after_run (deferred_list fs) ctx args ->
  r_state (req_at s x) = outcome_state ok -> lst (get_cbs (outcome_list (negb ok) x) s) = None -> (S (length ks) < m)%nat ->
  exists s', statusCode (page_call n) m x codes s = (Ok tt, s')
    /\ to_run x (outcome_list ok x) (outcome_list (negb ok) x) (outcome_state ok) s (printed s ++ ks) [] s'.
Proof.
  intros Ht Hc Hst Hks Hi Hs Hd Hm. unfold statusCode. rewrite sm_get_bind, Hc. unfold status_key. rewrite Hst.
  apply (add_outcome ok x _ ks n m fs ctx args); try done. cbn. by rewrite app_nil_r.
Qed.

(** The end: complete callbacks, [ajaxComplete] and [ajaxStop]. *)
Lemma finish_order x g cs n m ctx args s :
  there x s -> idle (LComplete x) (List.map AUser cs) s -> (S (length cs) < m)%nat ->
  exists s', (fire_with (page_call n) m (LComplete x) ctx args ;;
      sm_when g (page_trigger n AjaxComplete [VReq x; VSettings x] ;; sm_mod (fun s => set_active (active s - 1) s) ;;
        a ← sm_get active; sm_when (a =? 0) (page_trigger n AjaxStop []))) s = (Ok tt, s')
    /\ printed s' = printed s ++ cs ++ (if g then number AjaxComplete :: (if active s =? 1 then [number AjaxStop] else []) else [])
    /\ active s' = active s - count g /\ r_state (req_at s' x) = r_state (req_at s x).
Proof.
  intros Ht Hi Hm. set (f := fire_with _ _ _ _ _).
  destruct (fire_pass get_cbs put_cbs) with (l := LComplete x) (call := page_call n) (undef := a_undef) (is_false := a_is_false)
    (I := fun fs s1 => active s1 = active s /\ printed s1 ++ flat_map outs fs = printed s ++ cs /\ reqs s1 = reqs s
            /\ Forall (fun f => match f with AUser _ => True | _ => False end) fs)
    (fuel := m) (fs := List.map AUser cs) (this := ctx) (args := args) (h := s) as (s1 & E & _ & Ha & Hp & Hr & _); rewrite ?Hi; try done.
  - intros l' c s1. by rewrite req_list_get_put, decide_True.
  - intros l' c c' s1. unfold put_cbs, set_lists. cbn. by rewrite insert_insert_eq.
  - intros [k| |] fs' this args' s1 (Ha & Hp & Hr & Hall); apply Forall_cons in Hall as [? Hall]; try done.
    eexists _, _. split; [reflexivity|]. split_and!; try done. cbn in Hp |- *. by rewrite <-app_assoc.
  - rewrite outs_users. split_and!; try done. by apply users_only.
  - by rewrite length_map.
  - cbn in Hp. rewrite app_nil_r in Hp. unfold f. rewrite (sm_bind_eq _ _ _ _ _ E). unfold req_at. rewrite <-Hr.
    destruct g; cbn [sm_when]; [|by eexists; split_and!; [reflexivity|rewrite app_nil_r|cbn; lia|]].
    rewrite (sm_bind_eq _ _ _ _ _ (trigger_prints _ _ _ _)), sm_mod_bind, sm_get_bind. cbn [active set_active print set_printed].
    rewrite <-Ha. destruct (Z.eqb_spec (active s1 - 1) 0), (Z.eqb_spec (active s1) 1); try lia; cbn [sm_when].
    + eexists. split_and!; [apply trigger_prints| |done|done]. cbn. by rewrite Hp, <-!app_assoc.
    + eexists. split_and!; [reflexivity| |done|done]. cbn. by rewrite Hp, <-!app_assoc.
Qed.

Lemma frame_trans s1 s2 s3 : frame s1 s2 -> frame s2 s3 -> frame s1 s3.
Proof.
  intros (A1 & L1 & R1) (A2 & L2 & R2). split_and!; [congruence..|]. intros y. by rewrite R2.
Qed.

(** The callbacks for the outcome and the ones for the status code. *)
Lemma callbacks_order x ok ds es ks codes st ctx args n m s :
  there x s -> is_completed (req_at s x) = true -> r_status (req_at s x) = Some st ->
  idle (outcome_list ok x) (outcome_fns ok x ds es) s ->
  fns (default AOther (table_get codes (Z_to_str st))) = List.map AUser ks ->
  (length ds + length es + length ks + 3 < m)%nat ->
  exists s1 s2, fire_with (page_call n) m (outcome_list ok x) ctx args s = (Ok tt, s1) /\ frame s s1
    /\ statusCode (page_call n) m x codes s1 = (Ok tt, s2) /\ frame s s2
    /\ printed s2 = printed s ++ (if ok then ds else es) ++ ks /\ r_state (req_at s2 x) = outcome_state ok
    /\ get_cbs (LComplete x) s2 = get_cbs (LComplete x) s.
Proof.
  intros Ht Hc Hst Hi Hks Hm.
  destruct (fire_outcome ok x ds es n m ctx args s) as (s1 & E1 & Eg1 & Hf1 & Hp1 & _ & Hs1 & Hd1 & Hl1);
    [done|done|destruct ok; cbn; rewrite length_map; lia|].
  destruct Hs1 as [?%elem_of_nil|Hs1]; [done|]. destruct Hd1 as [?%elem_of_nil|Hd1]; [done|].
  destruct (status_outcome ok x codes st ks n m (outcome_fns ok x ds es) ctx args s1) as (s2 & E2 & Hf2 & Hp2 & _ & Hs2 & _ & Hl2);
    [by eapply frame_there|by rewrite (frame_field is_completed _ _ x (fun _ => eq_refl) Hf1)
    |by rewrite (frame_field r_status _ _ x (fun _ => eq_refl) Hf1)|done..|lia|].
  destruct Hs2 as [?%elem_of_nil|Hs2]; [done|]. cbn in Hp1, Hp2. rewrite app_nil_r in Hp1, Hp2.
  exists s1, s2. split_and!; [done..|by eapply frame_trans| |done|].
  - by rewrite Hp2, Hp1, <-app_assoc.
  - rewrite Hl2, Hl1; [done|by destruct ok..].
Qed.

(** C24: on a page whose functions only print, a request settles in this order: the
    callbacks for its outcome, in the order of their registration; the ones for its
    status code; [ajaxSuccess] or [ajaxError], if it has global events; the complete
    callbacks; [ajaxComplete]; and [ajaxStop], if no other request is active.  The
    callbacks for the other outcome are never called, the state of the deferred is
    that of the outcome, and the request is no longer counted. *)
Theorem settle_order x o ds es cs ks codes st n m s :
  let ok := oc_success o in let r := req_at s x in
  (x < length (reqs s))%nat -> r_completed r = Some true -> r_status r = Some st -> r_statusCode r = Some codes ->
  idle (LDone x) (done_fns x ds) s -> idle (LFail x) (fail_fns x es) s -> idle (LComplete x) (List.map AUser cs) s ->
  fns (default AOther (table_get codes (Z_to_str st))) = List.map AUser ks ->
  (length ds + length es + length cs + length ks + 3 < m)%nat ->
  exists s', settle (page_call n) (page_trigger n) m x o s = (Ok tt, s')
    /\ printed s' = printed s ++ (if ok then ds else es) ++ ks
         ++ (if r_fireGlobals r then [number (if ok then AjaxSuccess else AjaxError)] else []) ++ cs
         ++ (if r_fireGlobals r then number AjaxComplete :: (if active s =? 1 then [number AjaxStop] else []) else [])
    /\ r_state (req_at s' x) = (if ok then str "resolved" else str "rejected")
    /\ active s' = active s - (if r_fireGlobals r then 1 else 0).
Proof.
  intros ok r Ht Hc Hst Hcodes Hd Hf Hcs Hks Hm. assert (is_completed r = true) as Hc' by (unfold is_completed; by apply bool_decide_eq_true).
  unfold settle, callback_context, fixed, setting. rewrite sm_get_bind. set (ctx := default _ _).
  set (args := if ok then [oc_data o; a_str (oc_text o); VReq x] else [VReq x; a_str (oc_text o); oc_error o]).
  destruct (callbacks_order x ok ds es ks codes st ctx args n m s) as (s1 & s2 & E1 & Hf1 & E2 & Hf2 & Hp2 & Hs2 & Hl2); [done..|by destruct ok|done|lia|].
  assert ((if oc_success o then fire_with (page_call n) m (LDone x) ctx [oc_data o; a_str (oc_text o); VReq x]
    else fire_with (page_call n) m (LFail x) ctx [VReq x; a_str (oc_text o); oc_error o]) s = (Ok tt, s1)) as E1'
    by (rewrite <-E1; unfold args; fold ok; by destruct ok).
  rewrite (sm_bind_eq _ _ _ _ _ E1'), sm_get_bind, (frame_field r_statusCode _ _ x (fun _ => eq_refl) Hf1). fold r. rewrite Hcodes.
  rewrite (sm_bind_eq _ _ _ _ _ E2), upd_req_bind. set (s3 := (upd_req x _ s2).2). rewrite sm_get_bind.
  assert (there x s2) as Ht2 by (by eapply frame_there).
  assert (req_at s3 x = set_statusCode None (req_at s2 x)) as Er3.
  { unfold s3, upd_req, sm_mod. cbn [snd]. by rewrite req_at_insert, decide_True. }
  rewrite Er3. change (r_fireGlobals (set_statusCode None ?r)) with (r_fireGlobals r).
  rewrite (frame_field r_fireGlobals _ _ x (fun _ => eq_refl) Hf2). fold r. set (g := r_fireGlobals r). set (e := if oc_success o then AjaxSuccess else AjaxError).
  set (s4 := print (if g then [number e] else []) s3).
  assert (sm_when g (page_trigger n e [VReq x; VSettings x; if oc_success o then oc_data o else oc_error o]) s3 = (Ok tt, s4)) as E4.
  { unfold s4. destruct g; [done|]. cbn [sm_when]. unfold print. rewrite app_nil_r. by destruct s3. }
  rewrite (sm_bind_eq _ _ _ _ _ E4).
  assert (reqs s4 = reqs s3) as Er4 by done. assert (there x s3) as Ht3 by (unfold s3, upd_req, sm_mod, there; cbn; by rewrite length_insert).
  destruct (finish_order x g cs n m ctx [VReq x; a_str (oc_text o)] s4) as (s5 & E5 & Hp5 & Ha5 & Hr5).
  { done. } { unfold idle. change (get_cbs (LComplete x) s2 = deferred_list (List.map AUser cs)). by rewrite Hl2. } { lia. }
  exists s5. split_and!; [exact E5| | |].
  - rewrite Hp5. change (printed s4) with (printed s2 ++ (if g then [number e] else [])). rewrite Hp2, <-!app_assoc.
    change (active s4) with (active s2). by destruct Hf2 as (-> & _).
  - rewrite Hr5. change (req_at s4 x) with (req_at s3 x). rewrite Er3. exact Hs2.
  - rewrite Ha5. change (active s4) with (active s2). by destruct Hf2 as (-> & _).
Qed.

End order.

Import Page.

(** A completed request of the example page with callbacks of each kind. *)
Definition order_state : astate :=
  let s := (new_req Page.settings astate0).2 in
  let s := put_cbs (LDone 0) (deferred_list (done_fns 0 [1; 7]%N)) s in
  let s := put_cbs (LFail 0) (deferred_list (fail_fns 0 [2]%N)) s in
  let s := put_cbs (LComplete 0) (deferred_list [AUser 3]) s in
  set_active 1 (upd_req 0 (fun r => set_fireGlobals true (set_status 200 (str "OK") (set_completed (Some true) r))) s).2.

Lemma settle_order_witness :
  exists s', settle (page_call Page.event_num 0) (page_trigger Page.event_num 0) 20 0
      (Outcome true 200 (str "success") a_undef a_undef) order_state = (Ok tt, s')
    /\ printed s' = [1; 7; 5; 103; 3; 105; 106]%N /\ active s' = 0.
Proof.
  destruct (settle_order Page.event_num 0 (Outcome true 200 (str "success") a_undef a_undef) [1; 7]%N [2]%N [3]%N [5]%N
    [(str "200", AFn (AUser 5))] 200 0 20 order_state) as (s' & E & Hp & _ & Ha);
    [vm_compute; lia|reflexivity|reflexivity|reflexivity|reflexivity|reflexivity|reflexivity|reflexivity|cbn; lia|].
  exists s'. split; [exact E|]. split; [rewrite Hp; reflexivity|rewrite Ha; reflexivity].
Defined.
