(* ===== verification/Events.v ===== *)
(** * Events of elements: jQuery.event

    The handlers of elements, their registration and removal by types, namespaces
    and selectors, the dispatch of native events and of triggered ones, and event
    objects.  Handlers are functions of the page, which may do anything, so the
    model is an interpreter, as for queues.  The selector engine, the document and
    the table of special events are interfaces. *)

From S2P Require Import Prelude JsNum RegExp JsVal Callbacks Text ElemData.

(** ** Values *)

(** A handler: a function of the page, the wrapper that [one] makes, and
    [returnFalse]. *)
Inductive handler := HUser (n : N) | HOne (h : handler) | HReturnFalse.

#[export] Instance handler_eq_dec : EqDecision handler.
Proof. solve_decision. Defined.
#[export] Instance handler_countable : Countable handler.
Proof.
  apply (inj_countable'
    (fix enc h := match h with HUser n => GenLeaf (Some n) | HReturnFalse => GenLeaf None | HOne h => GenNode 0 [enc h] end)
    (fix dec t := match t with GenLeaf (Some n) => HUser n | GenNode _ (t :: _) => HOne (dec t) | _ => HReturnFalse end)).
  fix IH 1. intros [n|h|]; [done| |done]. f_equal. apply IH.
Defined.

(** The values that handlers are given and answer. *)
Inductive eval :=
  | XUndef
  | XBool (b : bool)
  | XStr (s : jstr)
  | XElem (e : nat)
  | XElems (es : list nat)
  | XEvent (id : nat).

Definition x_is_undef (v : eval) : bool := match v with XUndef => true | _ => false end.
Definition x_is_false (v : eval) : bool := match v with XBool false => true | _ => false end.

(** An entry of a handler list; the empty selector stands for none. *)
Record handleObj := HandleObj {
  ho_type : jstr;
  ho_origType : jstr;
  ho_data : eval;
  ho_handler : handler;
  ho_guid : nat;
  ho_selector : jstr;
  ho_needsContext : bool;
  ho_namespace : jstr
}.

(** A handler list with its [delegateCount], and the [events] of an element, in the
    order in which their types came. *)
Record hlist := HList { hl_handlers : list handleObj; delegateCount : nat }.
Abbreviation edata := (list (jstr * hlist)).

(** A native event of the browser. *)
Record nevent := NEvent {
  n_type : jstr;
  n_target : option nat;
  n_current : option nat;
  n_related : option nat;
  n_button : num;
  n_prevented : bool;
  n_stopped : bool;
  n_immediate : bool
}.

(** [jQuery.Event]; [j_rnamespace] has the namespaces of the expression. *)
Record jevent := JEvent {
  j_type : jstr;
  j_original : option nat;
  j_target : option nat;
  j_current : option nat;
  j_delegate : option nat;
  j_related : option nat;
  j_handleObj : option handleObj;
  j_data : eval;
  j_result : eval;
  j_namespace : option jstr;
  j_rnamespace : option (list jstr);
  j_prevented : bool;
  j_stopped : bool;
  j_immediate : bool;
  j_simulated : bool
}.

Definition set_j_type x e := JEvent x (j_original e) (j_target e) (j_current e) (j_delegate e) (j_related e) (j_handleObj e) (j_data e) (j_result e) (j_namespace e) (j_rnamespace e) (j_prevented e) (j_stopped e) (j_immediate e) (j_simulated e).
Definition set_j_target x e := JEvent (j_type e) (j_original e) x (j_current e) (j_delegate e) (j_related e) (j_handleObj e) (j_data e) (j_result e) (j_namespace e) (j_rnamespace e) (j_prevented e) (j_stopped e) (j_immediate e) (j_simulated e).
Definition set_j_current x e := JEvent (j_type e) (j_original e) (j_target e) x (j_delegate e) (j_related e) (j_handleObj e) (j_data e) (j_result e) (j_namespace e) (j_rnamespace e) (j_prevented e) (j_stopped e) (j_immediate e) (j_simulated e).
Definition set_j_delegate x e := JEvent (j_type e) (j_original e) (j_target e) (j_current e) x (j_related e) (j_handleObj e) (j_data e) (j_result e) (j_namespace e) (j_rnamespace e) (j_prevented e) (j_stopped e) (j_immediate e) (j_simulated e).
Definition set_j_handling h d e := JEvent (j_type e) (j_original e) (j_target e) (j_current e) (j_delegate e) (j_related e) (Some h) d (j_result e) (j_namespace e) (j_rnamespace e) (j_prevented e) (j_stopped e) (j_immediate e) (j_simulated e).
Definition set_j_result x e := JEvent (j_type e) (j_original e) (j_target e) (j_current e) (j_delegate e) (j_related e) (j_handleObj e) (j_data e) x (j_namespace e) (j_rnamespace e) (j_prevented e) (j_stopped e) (j_immediate e) (j_simulated e).
Definition set_j_namespaces n r e := JEvent (j_type e) (j_original e) (j_target e) (j_current e) (j_delegate e) (j_related e) (j_handleObj e) (j_data e) (j_result e) n r (j_prevented e) (j_stopped e) (j_immediate e) (j_simulated e).
Definition set_j_prevented x e := JEvent (j_type e) (j_original e) (j_target e) (j_current e) (j_delegate e) (j_related e) (j_handleObj e) (j_data e) (j_result e) (j_namespace e) (j_rnamespace e) x (j_stopped e) (j_immediate e) (j_simulated e).
Definition set_j_stopped x e := JEvent (j_type e) (j_original e) (j_target e) (j_current e) (j_delegate e) (j_related e) (j_handleObj e) (j_data e) (j_result e) (j_namespace e) (j_rnamespace e) (j_prevented e) x (j_immediate e) (j_simulated e).
Definition set_j_immediate x e := JEvent (j_type e) (j_original e) (j_target e) (j_current e) (j_delegate e) (j_related e) (j_handleObj e) (j_data e) (j_result e) (j_namespace e) (j_rnamespace e) (j_prevented e) (j_stopped e) x (j_simulated e).

Definition set_n_prevented e := NEvent (n_type e) (n_target e) (n_current e) (n_related e) (n_button e) true (n_stopped e) (n_immediate e).
Definition set_n_stopped e := NEvent (n_type e) (n_target e) (n_current e) (n_related e) (n_button e) (n_prevented e) true (n_immediate e).
Definition set_n_immediate e := NEvent (n_type e) (n_target e) (n_current e) (n_related e) (n_button e) (n_prevented e) true true.

(** ** Interfaces *)

(** Special events of the table [jQuery.event.special] without set-up: types that
    stand for others, and types that do not bubble; [sp_enter] says that handlers are
    called only if the pointer really enters or leaves, and [sp_default] when the
    default action is suppressed. *)
Record special := Special {
  sp_noBubble : bool;
  sp_delegateType : option jstr;
  sp_bindType : option jstr;
  sp_enter : bool;
  sp_default : option (nat -> bool)
}.

Definition no_special : special := Special false None None false None.

(** The selector engine, the document and what the browser does. *)
Class EventHost := {
  event_owners :: Owners;
  special_of : jstr -> special;
  (** [jQuery.find.matchesSelector], which throws on an invalid selector *)
  check_selector : jstr -> res unit;
  needs_context : jstr -> bool;
  (** whether an element is among those a selector finds in a context; the flag says
      that the selector needs its context *)
  selects : bool -> jstr -> nat -> nat -> bool;
  contains : nat -> nat -> bool;
  disabled_elem : nat -> bool;
  is_window : nat -> bool;
  has_listeners : nat -> bool;
  (** whether an element has a method of that name *)
  has_method : nat -> jstr -> bool;
  (** [new RegExp(source)] for an expression with further syntax than the one
      written here: what it throws, or the texts it accepts *)
  odd_regexp : jstr -> res (jstr -> bool);
  document : nat;
  window : nat
}.

(** The part of the table that jQuery fills itself. *)
Definition builtin_special (type : jstr) : special :=
  let enter fix_ := Special false (Some (str fix_)) (Some (str fix_)) true None in
  if decide (type = str "load") then Special true None None false None
  else if decide (type = str "mouseenter") then enter "mouseover"%string
  else if decide (type = str "mouseleave") then enter "mouseout"%string
  else if decide (type = str "pointerenter") then enter "pointerover"%string
  else if decide (type = str "pointerleave") then enter "pointerout"%string
  else no_special.

(** ** State *)

Record estate := EState {
  edatas : gmap nat edata;
  listeners : gset (nat * jstr);
  guids : gmap handler nat;
  guid : nat;
  jevents : gmap nat jevent;
  nevents : gmap nat nevent;
  next_event : nat;
  triggered : option jstr;
  parents : gmap nat nat;
  onprops : gmap (nat * jstr) handler;
  natively_stopped : gset (nat * jstr);
  printed : list N
}.

Definition set_edatas x s := EState x (listeners s) (guids s) (guid s) (jevents s) (nevents s) (next_event s) (triggered s) (parents s) (onprops s) (natively_stopped s) (printed s).
Definition set_listeners x s := EState (edatas s) x (guids s) (guid s) (jevents s) (nevents s) (next_event s) (triggered s) (parents s) (onprops s) (natively_stopped s) (printed s).
Definition set_guids x n s := EState (edatas s) (listeners s) x n (jevents s) (nevents s) (next_event s) (triggered s) (parents s) (onprops s) (natively_stopped s) (printed s).
Definition set_jevents x s := EState (edatas s) (listeners s) (guids s) (guid s) x (nevents s) (next_event s) (triggered s) (parents s) (onprops s) (natively_stopped s) (printed s).
Definition set_nevents x s := EState (edatas s) (listeners s) (guids s) (guid s) (jevents s) x (next_event s) (triggered s) (parents s) (onprops s) (natively_stopped s) (printed s).
Definition set_next_event x s := EState (edatas s) (listeners s) (guids s) (guid s) (jevents s) (nevents s) x (triggered s) (parents s) (onprops s) (natively_stopped s) (printed s).
Definition set_triggered x s := EState (edatas s) (listeners s) (guids s) (guid s) (jevents s) (nevents s) (next_event s) x (parents s) (onprops s) (natively_stopped s) (printed s).
Definition set_parents x s := EState (edatas s) (listeners s) (guids s) (guid s) (jevents s) (nevents s) (next_event s) (triggered s) x (onprops s) (natively_stopped s) (printed s).
Definition set_onprops x s := EState (edatas s) (listeners s) (guids s) (guid s) (jevents s) (nevents s) (next_event s) (triggered s) (parents s) x (natively_stopped s) (printed s).
Definition set_natively x s := EState (edatas s) (listeners s) (guids s) (guid s) (jevents s) (nevents s) (next_event s) (triggered s) (parents s) (onprops s) x (printed s).
Definition set_printed x s := EState (edatas s) (listeners s) (guids s) (guid s) (jevents s) (nevents s) (next_event s) (triggered s) (parents s) (onprops s) (natively_stopped s) x.

Definition estate0 : estate := EState ∅ ∅ ∅ 1 ∅ ∅ 0 None ∅ ∅ ∅ [].

(** ** Types and namespaces *)

Definition line_terminator (c : N) : bool := ((c =? 10) || (c =? 13) || (c =? 8232) || (c =? 8233))%N.

(** [rtypenamespace]: the type, and the text of the namespaces if there is one. *)
Fixpoint before_dot (s : jstr) : jstr :=
  match s with c :: s' => if (c =? chr ".")%N then [] else c :: before_dot s' | [] => [] end.
Fixpoint from_dot (s : jstr) : jstr :=
  match s with c :: s' => if (c =? chr ".")%N then s' else from_dot s' | [] => [] end.
Definition typenamespace (s : jstr) : jstr * option jstr :=
  (before_dot s, match digits_prefix (fun c => negb (line_terminator c)) (from_dot s) with [] => None | r => Some r end).

(** [join(".")]. *)
Fixpoint join_dots (l : list jstr) : jstr :=
  match l with [] => [] | [s] => s | s :: l' => s ++ chr "." :: join_dots l' end.

(** [sort()], by code units. *)
Fixpoint name_le (a b : jstr) : bool :=
  match a, b with
  | [], _ => true
  | _ :: _, [] => false
  | x :: a', y :: b' => (x <? y)%N || (x =? y)%N && name_le a' b'
  end.
Fixpoint insert_sorted (x : jstr) (l : list jstr) : list jstr :=
  match l with [] => [x] | y :: l' => if name_le x y then x :: l else y :: insert_sorted x l' end.
Definition sort_names (l : list jstr) : list jstr := foldr insert_sorted [] l.

Definition namespaces_of (ns : option jstr) : list jstr := sort_names (split_dots (default [] ns)).

(** The expression [(^|\.)n1\.(?:.*\.|)n2...(\.|$)] for names that stand for
    themselves: what follows [(^|\.)], and the search. *)
Definition RDot : re := RChr (chr ".").
Definition RAny : re := RStar (fun c => negb (line_terminator c)).
Fixpoint names_re (names : list jstr) : re :=
  match names with
  | [] => RAlt RDot REol
  | [n] => RSeq (RLit n) (RAlt RDot REol)
  | n :: names' => RSeq (RLit n) (RSeq RDot (RSeq (ROpt (RSeq RAny RDot)) (names_re names')))
  end.
Definition matches_here (names : list jstr) (s : jstr) : bool := bool_decide (is_Some (match_here (names_re names) s)).
Fixpoint matches_after_dot (names : list jstr) (s : jstr) : bool :=
  match s with
  | [] => false
  | c :: s' => (c =? chr ".")%N && matches_here names s' || matches_after_dot names s'
  end.
Definition literal_test (names : list jstr) (s : jstr) : bool := matches_here names s || matches_after_dot names s.

(** A name without characters of the syntax of expressions stands for itself. *)
Definition plain_name (n : jstr) : bool := forallb (fun c => negb (bool_decide (c ∈ syntax_chars))) n.

(** [names.join("\\.(?:.*\\.|)")] between [(^|\\.)] and [(\\.|$)]. *)
Fixpoint join_names (names : list jstr) : jstr :=
  match names with [] => [] | [n] => n | n :: names' => n ++ str "\.(?:.*\.|)" ++ join_names names' end.
Definition names_source (names : list jstr) : jstr := str "(^|\.)" ++ join_names names ++ str "(\.|$)".

Section names.
Context `{EventHost}.

(** [new RegExp( ... )] of these names, which are not escaped: the test it makes. *)
Definition names_regexp (names : list jstr) : res (jstr -> bool) :=
  if forallb plain_name names then Ok (literal_test names) else odd_regexp (names_source names).

(** The construction, which may throw. *)
Definition check_names (names : list jstr) : SM estate unit := sm_lift (_ ← names_regexp names; Ok tt).

(** [test] of an expression that was constructed. *)
Definition ns_test (names : list jstr) (s : jstr) : bool :=
  match names_regexp names with Ok test => test s | _ => false end.

Lemma check_names_ok names s : forallb plain_name names = true -> check_names names s = (Ok tt, s).
Proof. intros Hn. unfold check_names, names_regexp. by rewrite Hn. Qed.

Lemma ns_test_plain names s : forallb plain_name names = true -> ns_test names s = literal_test names s.
Proof. intros Hn. unfold ns_test, names_regexp. by rewrite Hn. Qed.
End names.

(** The [events] of an element: reading, writing and deleting a type. *)
Fixpoint ev_get (d : edata) (type : jstr) : option hlist :=
  match d with [] => None | (k, v) :: d' => if decide (k = type) then Some v else ev_get d' type end.
Fixpoint ev_set (d : edata) (type : jstr) (v : hlist) : edata :=
  match d with
  | [] => [(type, v)]
  | (k, w) :: d' => if decide (k = type) then (k, v) :: d' else (k, w) :: ev_set d' type v
  end.
Definition ev_delete (d : edata) (type : jstr) : edata := List.filter (fun p => negb (bool_decide (p.1 = type))) d.

Definition events_of (s : estate) (e : nat) : edata := default [] (edatas s !! e).
Definition set_events (e : nat) (d : edata) : estate -> estate := fun s => set_edatas (<[e := d]> (edatas s)) s.

(** ** Event objects *)

Definition jevent0 : jevent := JEvent [] None None None None None None XUndef XUndef None None false false false false.
Definition nevent0 : nevent := NEvent [] None None None NaN false false false.
Definition ev_at (s : estate) (id : nat) : jevent := default jevent0 (jevents s !! id).
Definition nev_at (s : estate) (id : nat) : nevent := default nevent0 (nevents s !! id).

Definition upd_ev (id : nat) (f : jevent -> jevent) : SM estate unit :=
  sm_mod (fun s => set_jevents (<[id := f (ev_at s id)]> (jevents s)) s).
Definition upd_nev (id : nat) (f : nevent -> nevent) : SM estate unit :=
  sm_mod (fun s => set_nevents (<[id := f (nev_at s id)]> (nevents s)) s).

Definition new_ev (e : jevent) : SM estate nat :=
  id ← sm_get next_event;
  sm_mod (fun s => set_jevents (<[id := e]> (jevents s)) (set_next_event (S id) s)) ;; mret id.

(** The native event of an event object that is not simulated. *)
Definition on_original (id : nat) (f : nevent -> nevent) : SM estate unit :=
  e ← sm_get (fun s => ev_at s id);
  match j_original e with Some n => sm_when (negb (j_simulated e)) (upd_nev n f) | None => mret tt end.

Definition preventDefault (id : nat) : SM estate unit :=
  upd_ev id (set_j_prevented true) ;; on_original id set_n_prevented.
Definition stopPropagation (id : nat) : SM estate unit :=
  upd_ev id (set_j_stopped true) ;; on_original id set_n_stopped.
Definition stopImmediatePropagation (id : nat) : SM estate unit :=
  upd_ev id (set_j_immediate true) ;; on_original id set_n_immediate ;; stopPropagation id.

(** What [dispatch] is called with: an event object or a native event. *)
Inductive eref := RefJ (id : nat) | RefN (n : nat).

Section events.
Context `{EventHost}.

(** [new jQuery.Event(src)] of a native event. *)
Definition event_of_native (s : estate) (n : nat) : jevent :=
  let src := nev_at s n in
  let target := match n_target src with
                | Some t => if Num.eqb (nodeType t) (Fin 3) then parents s !! t else Some t
                | None => None
                end in
  JEvent (n_type src) (Some n) target (n_current src) None (n_related src) None XUndef XUndef None None
    (n_prevented src) false false false.

Definition fix_ (r : eref) : SM estate nat :=
  match r with RefJ id => mret id | RefN n => e ← sm_get (fun s => event_of_native s n); new_ev e end.

Definition ref_type (s : estate) (r : eref) : jstr :=
  match r with RefJ id => j_type (ev_at s id) | RefN n => n_type (nev_at s n) end.

(** ** add and remove *)

Fixpoint base (h : handler) : handler := match h with HOne h' => base h' | _ => h end.
Definition guid_of (s : estate) (h : handler) : option nat := guids s !! base h.

(** [fn.guid || (fn.guid = jQuery.guid++)]. *)
Definition ensure_guid (h : handler) : SM estate nat :=
  g ← sm_get (fun s => guid_of s h);
  match g with
  | Some g => mret g
  | None => g ← sm_get guid; sm_mod (fun s => set_guids (<[base h := g]> (guids s)) (S g) s) ;; mret g
  end.

Definition mapped_type (selector type : jstr) : jstr :=
  let sp := special_of type in
  default type (if bool_decide (selector <> []) then sp_delegateType sp else sp_bindType sp).

(** [match(rnothtmlwhite) || [""]]. *)
Definition type_words (types : jstr) : list jstr := match words types with [] => [[]] | l => l end.

Definition insert_handler (h : handleObj) (l : hlist) : hlist :=
  if bool_decide (ho_selector h <> [])
  then HList (take (delegateCount l) (hl_handlers l) ++ h :: drop (delegateCount l) (hl_handlers l)) (S (delegateCount l))
  else HList (hl_handlers l ++ [h]) (delegateCount l).

(** One turn of the loop of [add]. *)
Definition add_type (elem : nat) (h : handler) (g : nat) (data : eval) (selector : jstr) (t : jstr) : SM estate unit :=
  let '(origType, ns) := typenamespace t in
  if decide (origType = []) then mret tt
  else
    let type := mapped_type selector origType in
    let obj := HandleObj type origType data h g selector (bool_decide (selector <> []) && needs_context selector)
                 (join_dots (namespaces_of ns)) in
    d ← sm_get (fun s => events_of s elem);
    match ev_get d type with
    | Some _ => mret tt
    | None =>
        sm_mod (fun s => set_events elem (ev_set d type (HList [] 0)) s) ;;
        sm_when (has_listeners elem) (sm_mod (fun s => set_listeners ({[ (elem, type) ]} ∪ listeners s) s))
    end ;;
    sm_mod (fun s => set_events elem
      (ev_set (events_of s elem) type (insert_handler obj (default (HList [] 0) (ev_get (events_of s elem) type)))) s).

Definition event_add (elem : nat) (types : jstr) (h : handler) (data : eval) (selector : jstr) : SM estate unit :=
  if acceptData elem then
    (if decide (selector = []) then mret tt else sm_lift (check_selector selector)) ;;
    g ← ensure_guid h;
    sm_mod (fun s => set_events elem (events_of s elem) s) ;;
    sm_each (add_type elem h g data selector) (rev (type_words types))
  else mret tt.

(** The condition of [remove]; [g] is the number of the handler, [None] inside if it
    has none. *)
Definition removes (mapped : bool) (origType : jstr) (names : option (list jstr)) (g : option (option nat))
    (selector : jstr) (o : handleObj) : bool :=
  (mapped || bool_decide (origType = ho_origType o))
  && match g with Some g => bool_decide (g = Some (ho_guid o)) | None => true end
  && match names with Some l => ns_test l (ho_namespace o) | None => true end
  && (bool_decide (selector = []) || bool_decide (selector = ho_selector o)
      || bool_decide (selector = str "**") && bool_decide (ho_selector o <> [])).

(** The loop over the handlers, from the last to the first. *)
Definition remove_matching (p : handleObj -> bool) (l : hlist) : hlist :=
  HList (List.filter (fun o => negb (p o)) (hl_handlers l))
    (delegateCount l - length (List.filter (fun o => p o && bool_decide (ho_selector o <> [])) (hl_handlers l)))%nat.

(** A turn of the loop of [remove] for a token with a type. *)
Definition remove_type (elem : nat) (g : option (option nat)) (selector : jstr) (mapped : bool) (t : jstr) : SM estate unit :=
  let '(origType, ns) := typenamespace t in
  let type := mapped_type selector origType in
  let names := (fun _ => namespaces_of ns) <$> ns in
  match names with Some l => check_names l | None => mret tt end ;;
  d ← sm_get (fun s => events_of s elem);
  match ev_get d type with
  | Some l =>
      let l' := remove_matching (removes mapped origType names g selector) l in
      match hl_handlers l, hl_handlers l' with
      | _ :: _, [] =>
          sm_mod (fun s => set_listeners (if has_listeners elem then listeners s ∖ {[ (elem, type) ]} else listeners s) s) ;;
          sm_mod (set_events elem (ev_delete d type))
      | _, _ => sm_mod (set_events elem (ev_set d type l'))
      end
  | None => mret tt
  end.

(** The end of [remove]: the data of the element goes when no event is left. *)
Definition remove_end (elem : nat) : SM estate unit :=
  d ← sm_get (fun s => events_of s elem);
  sm_when (bool_decide (d = [])) (sm_mod (fun s => set_edatas (delete elem (edatas s)) s)).

(** The call of [remove] for one type of the element that is still there, from a
    token without type. *)
Definition remove_mapped (elem : nat) (g : option (option nat)) (selector : jstr) (t k : jstr) : SM estate unit :=
  d ← sm_get (fun s => events_of s elem);
  match ev_get d k with
  | Some _ => remove_type elem g selector true (k ++ t) ;; remove_end elem
  | None => mret tt
  end.

Definition remove_token (elem : nat) (g : option (option nat)) (selector : jstr) (t : jstr) : SM estate unit :=
  if decide ((typenamespace t).1 = []) then
    keys ← sm_get (fun s => List.map fst (events_of s elem));
    sm_each (remove_mapped elem g selector t) keys
  else remove_type elem g selector false t.

Definition event_remove (elem : nat) (types : jstr) (h : option handler) (selector : jstr) : SM estate unit :=
  e ← sm_get (fun s => edatas s !! elem);
  match e with
  | None => mret tt
  | Some _ =>
      g ← sm_get (fun s => guid_of s <$> h);
      sm_each (remove_token elem g selector) (rev (type_words types)) ;;
      remove_end elem
  end.

(** ** Dispatch *)

(** The elements from the target up to the one that handles, without it. *)
Fixpoint path_below (fuel : nat) (s : estate) (cur this : nat) : res (list nat) :=
  if (cur =? this)%nat then Ok []
  else match fuel with
       | O => NoFuel
       | S n => match parents s !! cur with
                | Some p => l ← path_below n s p this; Ok (cur :: l)
                | None => Ok [cur]
                end
       end.

Definition event_button (s : estate) (e : jevent) : num :=
  match j_original e with Some n => n_button (nev_at s n) | None => NaN end.

Definition delegates_at (type : jstr) (l : hlist) (this cur : nat) : list handleObj :=
  if Num.eqb (nodeType cur) (Fin 1) && negb (bool_decide (type = str "click") && disabled_elem cur)
  then List.filter (fun o => selects (ho_needsContext o) (ho_selector o) this cur) (take (delegateCount l) (hl_handlers l))
  else [].

(** [jQuery.event.handlers]: the elements with the handlers to call. *)
Definition handler_queue (fuel : nat) (this id : nat) (l : hlist) : SM estate (list (nat * list handleObj)) :=
  s ← sm_get (fun s => s);
  let e := ev_at s id in
  delegated ←
    (if (delegateCount l =? 0)%nat then mret []
     else match j_target e with
          | None => sm_throw (str "TypeError")
          | Some cur =>
              if Num.truthy (nodeType cur) && negb (bool_decide (j_type e = str "click") && Num.le (Fin 1) (event_button s e))
              then path ← sm_lift (path_below fuel s cur this);
                   mret (List.filter (fun p => bool_decide (p.2 <> []))
                           (List.map (fun c => (c, delegates_at (j_type e) l this c)) path))
              else mret []
          end);
  mret (delegated ++
    if bool_decide (delegateCount l < length (hl_handlers l))%nat then [(this, drop (delegateCount l) (hl_handlers l))] else []).

Section calls.
Context (call : handler -> eval -> list eval -> SM estate eval) (default_action : nat -> jstr -> SM estate unit) (fuel : nat).

(** Calling a handler of [mouseenter] and the like, or any other. *)
Definition call_handler (o : handleObj) (id elem : nat) (args : list eval) : SM estate eval :=
  let sp := special_of (ho_origType o) in
  if sp_enter sp then
    e ← sm_get (fun s => ev_at s id);
    if match j_related e with None => true | Some r => negb (r =? elem)%nat && negb (contains elem r) end
    then upd_ev id (set_j_type (ho_origType o)) ;;
         ret ← call (ho_handler o) (XElem elem) args;
         upd_ev id (set_j_type (default [] (sp_delegateType sp))) ;;
         mret ret
    else mret XUndef
  else call (ho_handler o) (XElem elem) args.

(** The inner loop of [dispatch]. *)
Fixpoint run_handlers (id elem : nat) (args : list eval) (l : list handleObj) : SM estate unit :=
  match l with
  | [] => mret tt
  | o :: l' =>
      e ← sm_get (fun s => ev_at s id);
      if j_immediate e then mret tt
      else
        (if match j_rnamespace e with None => true | Some names => ns_test names (ho_namespace o) end then
           upd_ev id (set_j_handling o (ho_data o)) ;;
           ret ← call_handler o id elem args;
           if x_is_undef ret then mret tt
           else upd_ev id (set_j_result ret) ;;
                sm_when (x_is_false ret) (preventDefault id ;; stopPropagation id)
         else mret tt) ;;
        run_handlers id elem args l'
  end.

(** The outer loop. *)
Fixpoint run_queue (id : nat) (args : list eval) (q : list (nat * list handleObj)) : SM estate unit :=
  match q with
  | [] => mret tt
  | (elem, l) :: q' =>
      e ← sm_get (fun s => ev_at s id);
      if j_stopped e then mret tt
      else
        upd_ev id (set_j_current (Some elem)) ;;
        run_handlers id elem args l ;;
        run_queue id args q'
  end.

Definition dispatch (elem : nat) (r : eref) (extra : list eval) : SM estate eval :=
  id ← fix_ r;
  l ← sm_get (fun s => default (HList [] 0) (ev_get (events_of s elem) (j_type (ev_at s id))));
  upd_ev id (set_j_delegate (Some elem)) ;;
  q ← handler_queue fuel elem id l;
  run_queue id (XEvent id :: extra) q ;;
  sm_get (fun s => j_result (ev_at s id)).

(** [eventHandle], the one native handler of an element. *)
Definition eventHandle (elem : nat) (r : eref) (extra : list eval) : SM estate eval :=
  s ← sm_get (fun s => s);
  if bool_decide (triggered s = Some (ref_type s r)) then mret XUndef else dispatch elem r extra.

(** ** trigger *)

(** The elements above one, and the window if the last is the document. *)
Fixpoint ancestors (fuel : nat) (s : estate) (cur : option nat) : res (list nat) :=
  match cur with
  | None => Ok []
  | Some c => match fuel with
              | O => NoFuel
              | S n => l ← ancestors n s (parents s !! c); Ok (c :: l)
              end
  end.

Definition rfocusMorph (s : jstr) : bool := bool_decide (s = str "focusinfocus") || bool_decide (s = str "focusoutblur").

Definition event_path (s : estate) (elem : nat) (sp : special) (type : jstr) (onlyHandlers : bool) : res (list nat) :=
  if negb onlyHandlers && negb (sp_noBubble sp) && negb (is_window elem) then
    let bubbleType := default type (sp_delegateType sp) in
    up ← ancestors fuel s (if rfocusMorph (bubbleType ++ type) then Some elem else parents s !! elem);
    Ok (elem :: up ++ if bool_decide (last (elem :: up) = Some document) then [window] else [])
  else Ok [elem].

(** What [trigger] is given: a type with namespaces, or an event object. *)
Inductive tsrc := TType (type : jstr) | TEvent (id : nat).

(** A turn of the loop over the path: the handlers of jQuery, then the property. *)
Definition fire_at (id cur : nat) (ontype : option jstr) (extra : list eval) : SM estate unit :=
  d ← sm_get (fun s => ev_get (events_of s cur) (j_type (ev_at s id)));
  match d with Some _ => eventHandle cur (RefJ id) extra ;; mret tt | None => mret tt end ;;
  p ← sm_get (fun s => match ontype with Some o => onprops s !! (cur, o) | None => None end);
  match p with
  | Some h =>
      if acceptData cur then
        r ← call h (XElem cur) (XEvent id :: extra);
        upd_ev id (set_j_result r) ;; sm_when (x_is_false r) (preventDefault id)
      else mret tt
  | None => mret tt
  end.

Fixpoint fire_path (id : nat) (first bubble : jstr) (ontype : option jstr) (extra : list eval) (path : list nat) (lastElement : nat) : SM estate nat :=
  match path with
  | [] => mret lastElement
  | cur :: path' =>
      e ← sm_get (fun s => ev_at s id);
      if j_stopped e then mret lastElement
      else upd_ev id (set_j_type first) ;; fire_at id cur ontype extra ;;
           fire_path id bubble bubble ontype extra path' cur
  end.

(** The default action: the method of the element, without its [on] property, and
    with the events of that type discarded. *)
Definition run_method (id elem lastElement : nat) (type ontype : jstr) : SM estate unit :=
  tmp ← sm_get (fun s => onprops s !! (elem, ontype));
  sm_mod (fun s => set_onprops (delete (elem, ontype) (onprops s)) s) ;;
  sm_mod (set_triggered (Some type)) ;;
  e ← sm_get (fun s => ev_at s id);
  sm_when (j_stopped e) (sm_mod (fun s => set_natively ({[ (lastElement, type) ]} ∪ natively_stopped s) s)) ;;
  default_action elem type ;;
  e ← sm_get (fun s => ev_at s id);
  sm_when (j_stopped e) (sm_mod (fun s => set_natively (natively_stopped s ∖ {[ (lastElement, type) ]}) s)) ;;
  sm_mod (set_triggered None) ;;
  match tmp with
  | Some h => sm_mod (fun s => set_onprops (<[(elem, ontype) := h]> (onprops s)) s)
  | None => mret tt
  end.

Definition event_trigger (src : tsrc) (extra : list eval) (elem : nat) (onlyHandlers : bool) : SM estate eval :=
  s ← sm_get (fun s => s);
  let type0 := match src with TType t => t | TEvent id => j_type (ev_at s id) end in
  let names0 := match src with
                | TType _ => []
                | TEvent id => match j_namespace (ev_at s id) with Some n => split_dots n | None => [] end
                end in
  if Num.eqb (nodeType elem) (Fin 3) || Num.eqb (nodeType elem) (Fin 8) then mret XUndef
  else if rfocusMorph (type0 ++ default (str "undefined") (triggered s)) then mret XUndef
  else
    let '(type, names) := if bool_decide (chr "." ∈ type0)
                          then (before_dot type0, sort_names (split_dots (from_dot type0))) else (type0, names0) in
    let ontype := if bool_decide (chr ":" ∈ type) then None else Some (str "on" ++ type) in
    id ← match src with TEvent id => mret id | TType _ => new_ev (set_j_type type jevent0) end;
    let namespace := join_dots names in
    upd_ev id (fun e => set_j_namespaces (Some namespace) (j_rnamespace e) e) ;;
    (if decide (namespace = []) then mret tt else check_names names) ;;
    upd_ev id (fun e => set_j_result XUndef
                 (set_j_namespaces (Some namespace) (if decide (namespace = []) then None else Some names) e)) ;;
    upd_ev id (fun e => match j_target e with Some _ => e | None => set_j_target (Some elem) e end) ;;
    let sp := special_of type in
    path ← (s ← sm_get (fun s => s); sm_lift (event_path s elem sp type onlyHandlers));
    lastElement ← fire_path id (default type (sp_bindType sp)) (default type (sp_delegateType sp)) ontype extra path elem;
    upd_ev id (set_j_type type) ;;
    e ← sm_get (fun s => ev_at s id);
    sm_when (negb onlyHandlers && negb (j_prevented e)
             && match sp_default sp with Some f => negb (f (default elem (j_target e))) | None => true end && acceptData elem)
      match ontype with
      | Some o => sm_when (has_method elem type && negb (is_window elem)) (run_method id elem lastElement type o)
      | None => mret tt
      end ;;
    sm_get (fun s => j_result (ev_at s id)).

(** ** The methods of jQuery objects *)

Definition fn_on (es : list nat) (types selector : jstr) (data : eval) (h : handler) : SM estate unit :=
  sm_each (fun e => event_add e types h data selector) es.

Definition fn_one (es : list nat) (types selector : jstr) (data : eval) (h : handler) : SM estate unit :=
  ensure_guid h ;; sm_each (fun e => event_add e types (HOne h) data selector) es.

Definition fn_off (es : list nat) (types selector : jstr) (h : option handler) : SM estate unit :=
  sm_each (fun e => event_remove e types h selector) es.

(** [off(event)]. *)
Definition off_event (id : nat) : SM estate unit :=
  e ← sm_get (fun s => ev_at s id);
  match j_handleObj e, j_delegate e with
  | Some o, Some d =>
      event_remove d (if decide (ho_namespace o = []) then ho_origType o else ho_origType o ++ chr "." :: ho_namespace o)
        (Some (ho_handler o)) (ho_selector o)
  | _, _ => mret tt
  end.

Definition fn_trigger (es : list nat) (src : tsrc) (extra : list eval) : SM estate unit :=
  sm_each (fun e => event_trigger src extra e false ;; mret tt) es.

Definition fn_triggerHandler (es : list nat) (src : tsrc) (extra : list eval) : SM estate eval :=
  match es with e :: _ => event_trigger src extra e true | [] => mret XUndef end.

(** A native event reaches a listener of an element. *)
Definition listener (elem n : nat) : SM estate unit :=
  s ← sm_get (fun s => s);
  sm_when (bool_decide ((elem, n_type (nev_at s n)) ∈ listeners s)) (eventHandle elem (RefN n) [] ;; mret tt) ;;
  s ← sm_get (fun s => s);
  sm_when (bool_decide ((elem, n_type (nev_at s n)) ∈ natively_stopped s)) (upd_nev n set_n_stopped).

End calls.

(** ** Programs of the page *)

Inductive eop :=
  | OOn (es : list nat) (types selector : jstr) (data : eval) (h : handler)
  | OOne (es : list nat) (types selector : jstr) (data : eval) (h : handler)
  | OOff (es : list nat) (types selector : jstr) (h : option handler)
  | OOffEvent (id : nat)
  | OTrigger (es : list nat) (src : tsrc) (extra : list eval)
  | OTriggerHandler (es : list nat) (src : tsrc) (extra : list eval)
  | ONewEvent (type : jstr)
  | OPreventDefault (id : nat)
  | OStopPropagation (id : nat)
  | OStopImmediate (id : nat)
  | OIsPrevented (id : nat)
  | ONative (n : nat) (e : nevent)
  | OListener (elem n : nat)
  | OParent (elem : nat) (p : option nat)
  | OSetOn (elem : nat) (ontype : jstr) (h : option handler)
  | OPrint (n : N).

Inductive eprog :=
  | PRet (v : eval)
  | PThrow (e : jstr)
  | POp (o : eop) (k : eval -> eprog) (h : jstr -> eprog).

Definition do_op (call : handler -> eval -> list eval -> SM estate eval) (act : nat -> jstr -> SM estate unit)
    (fuel : nat) (o : eop) : SM estate eval :=
  match o with
  | OOn es types selector data h => fn_on es types selector data h ;; mret (XElems es)
  | OOne es types selector data h => fn_one es types selector data h ;; mret (XElems es)
  | OOff es types selector h => fn_off es types selector h ;; mret (XElems es)
  | OOffEvent id => off_event id ;; mret XUndef
  | OTrigger es src extra => fn_trigger call act fuel es src extra ;; mret (XElems es)
  | OTriggerHandler es src extra => fn_triggerHandler call act fuel es src extra
  | ONewEvent type => id ← new_ev (set_j_type type jevent0); mret (XEvent id)
  | OPreventDefault id => preventDefault id ;; mret XUndef
  | OStopPropagation id => stopPropagation id ;; mret XUndef
  | OStopImmediate id => stopImmediatePropagation id ;; mret XUndef
  | OIsPrevented id => sm_get (fun s => XBool (j_prevented (ev_at s id)))
  | ONative n e => upd_nev n (fun _ => e) ;; mret XUndef
  | OListener elem n => listener call fuel elem n ;; mret XUndef
  | OParent elem p => sm_mod (fun s => set_parents (match p with Some p => <[elem := p]> (parents s) | None => delete elem (parents s) end) s) ;; mret XUndef
  | OSetOn elem ontype h => sm_mod (fun s => set_onprops (match h with Some h => <[(elem, ontype) := h]> (onprops s) | None => delete (elem, ontype) (onprops s) end) s) ;; mret XUndef
  | OPrint n => sm_mod (fun s => set_printed (printed s ++ [n]) s) ;; mret XUndef
  end.

Fixpoint run_prog (exec : eop -> SM estate eval) (p : eprog) : SM estate eval :=
  match p with
  | PRet v => mret v
  | PThrow e => sm_throw e
  | POp o k hd => fun s =>
      match exec o s with
      | (Ok v, s') => run_prog exec (k v) s'
      | (Throw e, s') => run_prog exec (hd e) s'
      | (NoFuel, s') => (NoFuel, s')
      end
  end.

Section run.
(** The functions of the page, and what the browser does for a method. *)
Context (user : N -> eval -> list eval -> eprog) (native_method : nat -> jstr -> eprog).

(** The body of a function, with the calls it makes. *)
Definition call_body (call : handler -> eval -> list eval -> SM estate eval) (exec : eop -> SM estate eval)
    (h : handler) (this : eval) (args : list eval) : SM estate eval :=
  match h with
  | HUser n => run_prog exec (user n this args)
  | HReturnFalse => mret (XBool false)
  | HOne h' =>
      match args with XEvent id :: _ => off_event id | _ => mret tt end ;;
      call h' this args
  end.

(** [fuel] bounds the depth of calls and the height of the document. *)
Fixpoint call (fuel : nat) (h : handler) (this : eval) (args : list eval) : SM estate eval :=
  match fuel with
  | O => sm_lift NoFuel
  | S n =>
      call_body (call n) (do_op (call n) (fun e t => run_native n e t ;; mret tt) n) h this args
  end
with run_native (fuel : nat) (elem : nat) (type : jstr) : SM estate eval :=
  match fuel with
  | O => sm_lift NoFuel
  | S n => run_prog (do_op (call n) (fun e t => run_native n e t ;; mret tt) n) (native_method elem type)
  end.

Definition exec (fuel : nat) : eop -> SM estate eval :=
  do_op (call fuel) (fun e t => run_native fuel e t ;; mret tt) fuel.
Definition run_main (fuel : nat) (p : eprog) : SM estate eval := run_prog (exec fuel) p.

End run.
End events.

(** ** A page with events

    A concrete document for the examples on events: the selector engine finds one
    element, and some handlers are bound. *)

(** An element 1 in 2 in the document 3, with the window 4; the selector finds 1. *)
Definition event_page_owners : Owners := {| nodeType e := match e with 1%nat | 2%nat => Fin 1 | 3%nat => Fin 9 | _ => NaN end |}.
Definition page_host : EventHost := {|
  event_owners := event_page_owners;
  special_of := builtin_special;
  check_selector _ := Ok tt;
  needs_context _ := false;
  selects _ sel _ cur := bool_decide (sel = str ".a") && (cur =? 1)%nat;
  contains _ _ := false;
  disabled_elem _ := false;
  is_window e := (e =? 4)%nat;
  has_listeners _ := true;
  has_method e t := bool_decide (t = str "click");
  odd_regexp _ := Throw (str "SyntaxError");
  document := 3;
  window := 4
|}.

Definition page_prog : eprog :=
  let on e types sel n k := POp (OOn [e] (str types) (str sel) XUndef (HUser n)) (fun _ => k) PThrow in
  POp (OParent 1 (Some 2%nat)) (fun _ => POp (OParent 2 (Some 3%nat)) (fun _ =>
    on 2%nat "click"%string ""%string 21%N (on 2%nat "click.a.b"%string ".a"%string 22%N (on 2%nat "click keyup.a"%string ".b"%string 23%N
    (on 1%nat "click.b.a"%string ""%string 11%N (on 1%nat "keyup"%string ""%string 12%N
    (on 3%nat "click.a"%string ""%string 31%N (on 4%nat "click.b.c.a"%string ".a"%string 41%N (PRet XUndef)))))))) PThrow) PThrow.

(** A page where one function is bound. *)
Definition fresh_page : estate :=
  (@run_main page_host (fun _ _ _ => PRet XUndef) (fun _ _ => PRet XUndef) 0
     (POp (OOn [2%nat] (str "click.c") (str ".b") XUndef (HUser 20)) PRet PThrow) estate0).2.
