(* ===== verification/EventsNs.v ===== *)
(** * Namespaces of events

    The regular expression that [remove] and [trigger] build from namespaces accepts
    the handlers that have all of them. *)

From S2P Require Import Prelude JsNum RegExp JsVal Callbacks Text ElemData Events.

(** ** What an expression accepts *)

Fixpoint acc (r : re) (P : jstr -> Prop) (s : jstr) : Prop :=
  match r with
  | REps => P s
  | RCls p => exists c s', s = c :: s' /\ p c = true /\ P s'
  | RSeq a b => acc a (acc b P) s
  | RAlt a b => acc a P s \/ acc b P s
  | RStar p => exists a b, s = a ++ b /\ Forall (fun c => p c = true) a /\ P b
  | REol => s = [] /\ P []
  end.

Lemma acc_iff r : forall P Q s, (forall t, P t <-> Q t) -> acc r P s <-> acc r Q s.
Proof.
  induction r as [|p|a IHa b IHb|a IHa b IHb|p|]; intros P Q s HPQ; cbn [acc].
  - apply HPQ.
  - by setoid_rewrite HPQ.
  - apply IHa. intros t. by apply IHb.
  - by rewrite (IHa P Q), (IHb P Q).
  - by setoid_rewrite HPQ.
  - by rewrite HPQ.
Qed.

Lemma star_acc p k s : is_Some (star_match p k s)
  <-> exists a b, s = a ++ b /\ Forall (fun c => p c = true) a /\ is_Some (k b).
Proof.
  induction s as [|c s IH]; cbn [star_match].
  - split; [intros Hk; by exists [], []|]. intros (a & b & E & _ & Hk). symmetry in E. by apply app_nil in E as [-> ->].
  - destruct (p c) eqn:Ep.
    + destruct (star_match p k s) as [x|] eqn:Es.
      * split; [|by eexists]. intros _. destruct (proj1 IH) as (a & b & -> & Ha & Hk); [by eexists|].
        exists (c :: a), b. split_and!; [done|by constructor|done].
      * split; [intros Hk; by exists [], (c :: s)|]. intros (a & b & E & Ha & Hk). destruct a as [|x a]; [by rewrite E|].
        injection E as <- E. apply Forall_cons in Ha as [_ Ha]. destruct (proj2 IH) as [? ?]; [by exists a, b|done].
    + split; [intros Hk; by exists [], (c :: s)|]. intros (a & b & E & Ha & Hk). destruct a as [|x a]; [by rewrite E|].
      injection E as <- E. apply Forall_cons in Ha as [Ha _]. congruence.
Qed.

Lemma rmatch_acc r : forall k s, is_Some (rmatch r k s) <-> acc r (fun t => is_Some (k t)) s.
Proof.
  induction r as [|p|a IHa b IHb|a IHa b IHb|p|]; intros k s; cbn [rmatch acc].
  - done.
  - destruct s as [|c s]; [split; [by intros [? ?]|by intros (? & ? & ? & _)]|]. destruct (p c) eqn:Ep.
    + split; [intros Hk; by exists c, s|]. by intros (? & ? & [= <- <-] & _ & Hk).
    + split; [by intros [? ?]|]. intros (? & ? & [= <- <-] & Hc & _). congruence.
  - rewrite IHa. apply acc_iff. intros t. apply IHb.
  - rewrite <-IHa, <-IHb. destruct (rmatch a k s) as [x|]; [split; [by left|by eexists]|].
    split; [by right|]. intros [[? ?]|Hk]; [done|done].
  - apply star_acc.
  - destruct s; [split; [done|by intros [_ ?]]|split; [by intros [? ?]|by intros [? _]]].
Qed.

Lemma acc_lit n P s : acc (RLit n) P s <-> exists t, s = n ++ t /\ P t.
Proof.
  revert s. induction n as [|c n IH]; intros s; cbn [RLit acc].
  - split; [intros Hs; by exists s|]. by intros (t & -> & Ht).
  - split.
    + intros (c' & s' & -> & Hc & Hs). apply IH in Hs as (t & -> & Ht). apply N.eqb_eq in Hc as <-. by exists t.
    + intros (t & -> & Ht). exists c, (n ++ t). split_and!; [done|apply N.eqb_refl|]. apply IH. by exists t.
Qed.

Lemma acc_dot P s : acc RDot P s <-> exists t, s = chr "." :: t /\ P t.
Proof.
  cbn [acc RDot RChr]. split.
  - intros (c & t & -> & Hc & Ht). apply N.eqb_eq in Hc as <-. by exists t.
  - intros (t & -> & Ht). exists (chr "."), t. split_and!; [done|apply N.eqb_refl|done].
Qed.

(** ** Names between dots *)

Definition good_name (n : jstr) : Prop := n <> [] /\ chr "." ∉ n /\ Forall (fun c => line_terminator c = false) n.

Definition good_nameb (n : jstr) : bool :=
  bool_decide (n <> []) && negb (bool_decide (chr "." ∈ n)) && forallb (fun c => negb (line_terminator c)) n.

Lemma good_names_check l : forallb good_nameb l = true -> Forall good_name l.
Proof.
  induction l as [|n l IH]; [done|]. cbn [forallb]. unfold good_nameb at 1.
  rewrite !andb_true_iff, bool_decide_eq_true, negb_true_iff, bool_decide_eq_false.
  intros [[[Hn Hd] Ht] Hl]. constructor; [|by apply IH]. split_and!; [done|done|].
  clear -Ht. induction n as [|c n IH]; [done|]. cbn [forallb] in Ht. apply andb_true_iff in Ht as [Hc Ht].
  constructor; [by apply negb_true_iff|by apply IH].
Qed.

(** The text after a name. *)
Definition after (fs : list jstr) : jstr := match fs with [] => [] | _ => chr "." :: join_dots fs end.

Lemma join_cons f fs : join_dots (f :: fs) = f ++ after fs.
Proof. destruct fs; cbn [join_dots after]; [by rewrite app_nil_r|done]. Qed.

Lemma split_names n t f fs : chr "." ∉ n -> chr "." ∉ f -> n ++ t = f ++ after fs ->
  (t = [] \/ exists t', t = chr "." :: t') -> n = f /\ t = after fs.
Proof.
  revert f. induction n as [|c n IH]; intros f Hn Hf E Ht.
  - destruct f as [|d f]; [done|]. cbn in E. subst t. apply not_elem_of_cons in Hf as [Hd _].
    destruct Ht as [?|[t' Et]]; [done|]. injection Et as -> _. done.
  - destruct f as [|d f].
    + apply not_elem_of_cons in Hn as [Hc _]. cbn in E. destruct fs; [done|]. injection E as -> _. done.
    + injection E as -> E. apply not_elem_of_cons in Hn as [_ Hn], Hf as [_ Hf]. by destruct (IH f Hn Hf E Ht) as [-> ->].
Qed.

(** What stands after a dot is the names from some name on. *)
Lemma join_split fs : Forall good_name fs -> forall a t, join_dots fs = a ++ chr "." :: t ->
  exists l1 l2, fs = l1 ++ l2 /\ l1 <> [] /\ l2 <> [] /\ t = join_dots l2.
Proof.
  induction fs as [|f fs IH]; intros Hg a t E; [by destruct a|]. apply Forall_cons in Hg as [[Hf [Hdot _]] Hg].
  rewrite join_cons in E.
  assert (exists b, a = f ++ b /\ after fs = b ++ chr "." :: t) as (b & -> & E').
  { clear -E Hdot. revert a E. induction f as [|c f IHf]; intros a E; [by exists a|].
    apply not_elem_of_cons in Hdot as [Hc Hdot]. destruct a as [|x a]; [injection E as -> _; done|]. injection E as -> E.
    destruct (IHf Hdot a E) as (b & -> & E'). by exists b. }
  destruct fs as [|g fs]; [by destruct b|]. cbn [after] in E'. destruct b as [|x b].
  - injection E' as <-. exists [f], (g :: fs). done.
  - injection E' as <- E'. destruct (IH Hg b t E') as (l1 & l2 & El & Hl1 & Hl2 & ->).
    exists (f :: l1), l2. rewrite El. done.
Qed.

Lemma join_suffix l1 l2 : l1 <> [] -> l2 <> [] -> join_dots (l1 ++ l2) = join_dots l1 ++ chr "." :: join_dots l2.
Proof.
  intros H1 H2. induction l1 as [|f l1 IH]; [done|]. cbn [app]. rewrite join_cons. destruct l1 as [|g l1].
  - cbn [app join_dots]. by destruct l2.
  - rewrite (join_cons f (g :: l1)). cbn [app after] in *. rewrite IH by done. by rewrite <-app_assoc.
Qed.

Lemma join_terminators fs : Forall good_name fs -> Forall (fun c => negb (line_terminator c) = true) (join_dots fs).
Proof.
  induction 1 as [|f fs (_ & _ & Hf) _ IH]; [done|]. rewrite join_cons. apply Forall_app. split.
  - eapply Forall_impl; [exact Hf|]. by intros c ->.
  - destruct fs; [done|]. by constructor.
Qed.

(** A name that heads a suffix heads a sublist. *)
Lemma sublist_suffix (n : jstr) ns fs :
  n :: ns `sublist_of` fs <-> exists l1 l2, fs = l1 ++ n :: l2 /\ ns `sublist_of` l2.
Proof. apply sublist_cons_l. Qed.

Lemma names_accept ns : forall n f fs, Forall good_name (n :: ns) -> Forall good_name (f :: fs) ->
  acc (names_re (n :: ns)) (fun _ => True) (join_dots (f :: fs)) <-> n = f /\ ns `sublist_of` fs.
Proof.
  induction ns as [|m ns IH]; intros n f fs Hn Hf;
    pose proof (Forall_inv Hn) as (_ & Hnd & _); pose proof (Forall_inv Hf) as (_ & Hfd & _).
  - cbn [names_re acc]. rewrite acc_lit, join_cons. split.
    + intros (t & E & Ht). destruct (split_names n t f fs Hnd Hfd (eq_sym E)) as [-> _]; [|split; [done|apply sublist_nil_l]].
      destruct Ht as [(c & t' & -> & Hc & _)|[-> _]]; [right|by left]. exists t'. apply N.eqb_eq in Hc. by rewrite Hc.
    + intros [-> _]. exists (after fs). split; [done|]. destruct fs as [|g fs]; [by right|left].
      exists (chr "."), (join_dots (g :: fs)). split_and!; [done|apply N.eqb_refl|done].
  - change (names_re (n :: m :: ns)) with (RSeq (RLit n) (RSeq RDot (RSeq (ROpt (RSeq RAny RDot)) (names_re (m :: ns))))).
    assert (Forall good_name (m :: ns)) as Hm by by apply Forall_cons in Hn as [_ ?].
    assert (Forall good_name fs) as Hfs by by apply Forall_cons in Hf as [_ ?].
    cbn [acc]. fold acc. rewrite acc_lit, join_cons. split.
    + intros (t & E & Ht). apply (acc_dot (fun t => _)) in Ht as (t' & -> & Ht).
      destruct (split_names n _ f fs Hnd Hfd (eq_sym E)) as [-> E']; [right; by exists t'|]. split; [done|].
      destruct fs as [|g fs]; [done|]. injection E' as ->. cbn [ROpt acc] in Ht.
      destruct Ht as [(a & b & Ej & _ & Hb)|Ht].
      * apply (acc_dot (fun t => _)) in Hb as (t & -> & Ht). destruct (join_split (g :: fs) Hfs a t Ej) as (l1 & l2 & El & _ & Hl2 & ->).
        rewrite El in Hfs |- *. apply Forall_app in Hfs as [_ Hl2g]. destruct l2 as [|h l2]; [done|].
        apply (IH m h l2 Hm Hl2g) in Ht as [-> Hsub]. apply sublist_suffix. by exists l1, l2.
      * apply (IH m g fs Hm Hfs) in Ht as [-> Hsub]. by apply sublist_skip.
    + intros [-> Hsub]. apply sublist_suffix in Hsub as (l1 & l2 & -> & Hsub). exists (after (l1 ++ m :: l2)). split; [done|].
      apply Forall_app in Hfs as [H1 H2]. pose proof (proj2 (IH m m l2 Hm H2) (conj eq_refl Hsub)) as Hacc.
      assert (after (l1 ++ m :: l2) = chr "." :: join_dots (l1 ++ m :: l2)) as -> by by destruct l1.
      apply (acc_dot (fun t => _)). eexists. split; [done|]. cbn [ROpt acc]. destruct l1 as [|g l1]; [by right|left].
      rewrite join_suffix by done. exists (join_dots (g :: l1)), (chr "." :: join_dots (m :: l2)). split_and!; [done|by apply join_terminators|].
      apply (acc_dot (fun t => _)). by eexists.
Qed.

Lemma matches_here_iff names s : matches_here names s = true <-> acc (names_re names) (fun _ => True) s.
Proof.
  unfold matches_here, match_here. rewrite bool_decide_eq_true, rmatch_acc. apply acc_iff. intros t. split; [done|by eexists].
Qed.

Lemma matches_after_iff names s : matches_after_dot names s = true
  <-> exists a t, s = a ++ chr "." :: t /\ matches_here names t = true.
Proof.
  induction s as [|c s IH]; cbn [matches_after_dot]; [split; [done|]; by intros ([|? ?] & ? & ? & _)|].
  rewrite orb_true_iff, andb_true_iff, IH. split.
  - intros [[Hc Hs]|(a & t & -> & Ht)]; [|by exists (c :: a), t]. exists [], s. apply N.eqb_eq in Hc as ->. done.
  - intros ([|x a] & t & E & Ht); injection E as -> ->; [left; split; [apply N.eqb_refl|done]|right; by exists a, t].
Qed.

Lemma literal_test_sublist n ns l : Forall good_name (n :: ns) -> Forall good_name l ->
  literal_test (n :: ns) (join_dots l) = true <-> n :: ns `sublist_of` l.
Proof.
  intros Hn Hl. unfold literal_test. rewrite orb_true_iff, matches_here_iff, matches_after_iff, sublist_suffix. split.
  - intros [Ha|(a & t & E & Ht)].
    + destruct l as [|f l].
      * exfalso. assert (exists t, [] = n ++ t) as [t Et].
        { destruct ns; cbn [names_re acc] in Ha; apply acc_lit in Ha as (t & Et & _); by exists t. }
        apply Forall_inv in Hn as [Hn _]. by destruct n.
      * apply names_accept in Ha as [-> Hs]; [|done..]. by exists [], l.
    + destruct (join_split l Hl a t E) as (l1 & l2 & -> & _ & Hl2 & ->). destruct l2 as [|f l2]; [done|].
      apply Forall_app in Hl as [_ Hl2g]. apply matches_here_iff, names_accept in Ht as [-> Hs]; [|done..]. by exists l1, l2.
  - intros (l1 & l2 & -> & Hs). apply Forall_app in Hl as [_ Hl2]. pose proof (proj2 (names_accept ns n n l2 Hn Hl2) (conj eq_refl Hs)) as Ha.
    destruct l1 as [|g l1]; [by left|right]. exists (join_dots (g :: l1)), (join_dots (n :: l2)).
    split; [by apply join_suffix|by apply matches_here_iff].
Qed.

(** ** Sorted names *)

Lemma name_le_total a b : name_le a b = true \/ name_le b a = true.
Proof.
  revert b. induction a as [|x a IH]; intros [|y b]; cbn [name_le]; [by left..|by right|].
  destruct (N.ltb_spec x y); [by left|]. destruct (N.ltb_spec y x); [by right|]. assert (x = y) as -> by lia.
  rewrite N.eqb_refl. apply IH.
Qed.

Lemma name_le_trans a b c : name_le a b = true -> name_le b c = true -> name_le a c = true.
Proof.
  revert b c. induction a as [|x a IH]; intros [|y b] [|z c]; cbn [name_le]; try done.
  rewrite !orb_true_iff, !andb_true_iff, !N.ltb_lt, !N.eqb_eq. intros [H1|[-> H1]] [H2|[-> H2]]; [left; lia|by left|by left|].
  right. split; [done|]. by eapply IH.
Qed.

Lemma name_le_antisym a b : name_le a b = true -> name_le b a = true -> a = b.
Proof.
  revert b. induction a as [|x a IH]; intros [|y b]; cbn [name_le]; try done.
  rewrite !orb_true_iff, !andb_true_iff, !N.ltb_lt, !N.eqb_eq. intros [H1|[-> H1]] [H2|[? H2]]; try lia.
  f_equal. by apply IH.
Qed.

Definition le_all (x : jstr) (l : list jstr) : Prop := Forall (fun y => name_le x y = true) l.

Inductive ordered : list jstr -> Prop :=
  | ordered_nil : ordered []
  | ordered_cons x l : le_all x l -> ordered l -> ordered (x :: l).

Lemma insert_name_perm x l : insert_sorted x l ≡ₚ x :: l.
Proof.
  induction l as [|y l IH]; cbn [insert_sorted]; [done|]. destruct (name_le x y); [done|]. rewrite IH. apply Permutation_swap.
Qed.

Lemma sort_names_perm l : sort_names l ≡ₚ l.
Proof. induction l as [|x l IH]; cbn; [done|]. fold (sort_names l). by rewrite insert_name_perm, IH. Qed.

Lemma insert_ordered x l : ordered l -> ordered (insert_sorted x l).
Proof.
  induction 1 as [|y l Hy Hl IH]; cbn [insert_sorted]; [by repeat constructor|]. destruct (name_le x y) eqn:E.
  - constructor; [|by constructor]. constructor; [done|]. eapply Forall_impl; [exact Hy|]. intros z Hz. by eapply name_le_trans.
  - constructor; [|done]. unfold le_all. rewrite insert_name_perm. constructor; [|done]. destruct (name_le_total x y); [congruence|done].
Qed.

Lemma sort_names_ordered l : ordered (sort_names l).
Proof. induction l as [|x l IH]; [constructor|]. by apply insert_ordered. Qed.

(** Among ordered lists, having all elements is having them in order. *)
Lemma ordered_sublist l : ordered l -> forall k, ordered k -> k ⊆+ l -> k `sublist_of` l.
Proof.
  induction 1 as [|y l Hy Hl IH]; intros k Hk Hsub.
  - apply submseteq_nil_r in Hsub as ->. done.
  - destruct k as [|x k]; [apply sublist_nil_l|]. inversion Hk as [|? ? Hx Hk']; subst.
    destruct (decide (x = y)) as [->|Hne].
    + apply sublist_skip, IH; [done|]. by apply submseteq_cons_l in Hsub as (l' & ->%(inj _) & Hs).
    + apply sublist_cons, IH; [by constructor|].
      assert (y ∉ x :: k) as Hn.
      { intros [->|Hin]%elem_of_cons; [done|]. apply Hne, name_le_antisym.
        - by apply (proj1 (Forall_forall _ _) Hx).
        - assert (x ∈ y :: l) as Hxl by (eapply elem_of_submseteq; [|exact Hsub]; by left).
          apply elem_of_cons in Hxl as [->|Hxl]; [done|]. by apply (proj1 (Forall_forall _ _) Hy). }
      apply submseteq_cons_r in Hsub as [?|(k' & Ep & _)]; [done|]. exfalso. apply Hn. rewrite Ep. by left.
Qed.

Lemma sort_names_plain l : forallb plain_name l = true -> forallb plain_name (sort_names l) = true.
Proof.
  rewrite !forallb_forall. intros Hl n Hn. apply Hl. apply list_elem_of_In in Hn. apply list_elem_of_In.
  by rewrite <-(sort_names_perm l).
Qed.

(** C22: the regular expression for the namespaces of an event or of a call of [off]
    accepts a handler exactly if the handler has every one of these namespaces,
    whatever the order in which either were written; a handler without namespaces is
    not accepted.  The names are words without dots and line ends; those asked for
    have no character of the syntax of regular expressions either, since the code
    does not escape them. *)
Theorem namespaces_match `{EventHost} (names l : list jstr) :
  names <> [] -> Forall good_name names -> forallb plain_name names = true -> Forall good_name l ->
  exists test, names_regexp (sort_names names) = Ok test
    /\ (test (join_dots (sort_names l)) = true <-> names ⊆+ l).
Proof.
  intros Hne Hn Hp Hl. exists (literal_test (sort_names names)). split.
  { unfold names_regexp. by rewrite sort_names_plain. }
  destruct (sort_names names) as [|n ns] eqn:E.
  { exfalso. apply Hne, Permutation_nil_r. by rewrite <-(sort_names_perm names), E. }
  assert (n :: ns ≡ₚ names) as Ep by (by rewrite <-E, sort_names_perm).
  rewrite literal_test_sublist; [|by rewrite Ep|by rewrite sort_names_perm].
  rewrite <-(sort_names_perm l) at 2. rewrite <-Ep. split; [apply sublist_submseteq|].
  apply ordered_sublist; [apply sort_names_ordered|]. rewrite <-E. apply sort_names_ordered.
Qed.

#[local] Existing Instance page_host.

Lemma namespaces_match_witness :
  exists test, names_regexp (sort_names [str "red"; str "blue"]) = Ok test
    /\ test (join_dots (sort_names [str "blue"; str "green"; str "red"])) = true.
Proof.
  destruct (namespaces_match [str "red"; str "blue"] [str "blue"; str "green"; str "red"]) as (test & E & Ht).
  - discriminate.
  - apply good_names_check. vm_compute. reflexivity.
  - vm_compute. reflexivity.
  - apply good_names_check. vm_compute. reflexivity.
  - exists test. split; [exact E|]. apply Ht. apply (bool_decide_unpack _). vm_compute. exact I.
Defined.

(** A name is not escaped: [off(".c++")] throws the exception of [new RegExp]. *)
Example name_not_escaped :
  (event_remove 2 (str ".c++") None []
     (run_main (fun _ _ _ => PRet XUndef) (fun _ _ => PRet XUndef) 0
        (POp (OOn [2%nat] (str "click.c++") [] XUndef (HUser 22)) PRet PThrow) estate0).2).1
  = Throw (str "SyntaxError").
Proof. vm_compute. reflexivity. Qed.
