(* ===== verification/EventsFacts.v ===== *)
(** * The handler lists of elements under arbitrary programs

    Whatever handlers and the code of the page do, delegated handlers stand in front
    and are counted, and the browser has a listener exactly for the types that have
    handlers. *)

From S2P Require Import Prelude JsNum RegExp JsVal Callbacks Text ElemData Events.

(** ** Lists by type *)

Lemma ev_get_set d t t' l : ev_get (ev_set d t l) t' = if decide (t = t') then Some l else ev_get d t'.
Proof.
  induction d as [|[k w] d IH]; cbn [ev_set ev_get].
  - done.
  - destruct (decide (k = t)) as [->|Hk]; cbn [ev_get].
    + by repeat case_decide.
    + rewrite IH. repeat case_decide; congruence.
Qed.

Lemma ev_get_delete d t t' : ev_get (ev_delete d t) t' = if decide (t = t') then None else ev_get d t'.
Proof.
  unfold ev_delete. induction d as [|[k w] d IH]; cbn [List.filter ev_get fst]; [by case_decide|].
  destruct (bool_decide (k = t)) eqn:E; cbn [negb].
  - apply bool_decide_eq_true in E as ->. rewrite IH. by case_decide.
  - apply bool_decide_eq_false in E. cbn [ev_get]. rewrite IH. repeat case_decide; congruence.
Qed.

Lemma events_of_set e e' d s : events_of (set_events e d s) e' = if decide (e' = e) then d else events_of s e'.
Proof.
  unfold events_of, set_events. cbn [edatas set_edatas]. case_decide as E.
  - by rewrite E, lookup_insert_eq.
  - by rewrite lookup_insert_ne.
Qed.

(** ** The invariant *)

(** Delegated handlers first, as many as counted; never empty. *)
Definition hlist_ok (l : hlist) : Prop :=
  hl_handlers l <> []
  /\ (delegateCount l <= length (hl_handlers l))%nat
  /\ Forall (fun o => ho_selector o <> []) (take (delegateCount l) (hl_handlers l))
  /\ Forall (fun o => ho_selector o = []) (drop (delegateCount l) (hl_handlers l)).

Lemma insert_handler_ok o l : hlist_ok l \/ l = HList [] 0 -> hlist_ok (insert_handler o l).
Proof.
  intros Hl. assert ((delegateCount l <= length (hl_handlers l))%nat
    /\ Forall (fun o => ho_selector o <> []) (take (delegateCount l) (hl_handlers l))
    /\ Forall (fun o => ho_selector o = []) (drop (delegateCount l) (hl_handlers l))) as (Hc & Hd & Hr).
  { destruct Hl as [(_ & ? & ? & ?)| ->]; [done|]. cbn. split_and!; [lia|constructor..]. }
  unfold insert_handler, hlist_ok. case_bool_decide as Es; cbn [hl_handlers delegateCount].
  - assert (length (take (delegateCount l) (hl_handlers l)) = delegateCount l) as Hlen by (rewrite length_take; lia).
    split_and!.
    + by destruct (take _ _).
    + rewrite length_app. cbn [length]. rewrite Hlen, length_drop. lia.
    + rewrite take_app, Hlen. replace (S (delegateCount l) - delegateCount l)%nat with 1%nat by lia. cbn [take].
      rewrite take_take, Nat.min_r by lia. apply Forall_app. split; [done|]. constructor; [done|constructor].
    + rewrite drop_app, Hlen. replace (S (delegateCount l) - delegateCount l)%nat with 1%nat by lia. cbn [drop].
      rewrite drop_ge by (rewrite Hlen; lia). done.
  - split_and!.
    + by destruct (hl_handlers l).
    + rewrite length_app. lia.
    + rewrite take_app_le by done. done.
    + rewrite drop_app_le by done. apply Forall_app. split; [done|]. by constructor.
Qed.

Lemma filter_split {A} (f g : A -> bool) n (l : list A) :
  Forall (fun x => g x = true) (take n l) -> Forall (fun x => g x = false) (drop n l) ->
  List.filter f l = List.filter f (take n l) ++ List.filter f (drop n l)
  /\ length (List.filter (fun x => f x && g x) l) = length (List.filter f (take n l)).
Proof.
  intros Ht Hd. split; [by rewrite <-List.filter_app, take_drop|].
  rewrite <-(take_drop n l) at 1. rewrite List.filter_app, length_app.
  assert (List.filter (fun x => f x && g x) (drop n l) = []) as ->.
  { induction Hd as [|x l' Hx _ IH]; [done|]. cbn [List.filter]. by rewrite Hx, andb_false_r. }
  cbn [length]. rewrite Nat.add_0_r. f_equal. induction Ht as [|x l' Hx _ IH]; [done|]. cbn [List.filter].
  by rewrite Hx, andb_true_r, IH.
Qed.

Lemma filter_lengths {A} (f : A -> bool) (l : list A) :
  length l = (length (List.filter f l) + length (List.filter (fun x => negb (f x)) l))%nat.
Proof. induction l as [|x l IH]; [done|]. cbn [List.filter length]. destruct (f x); cbn [length negb]; lia. Qed.

Lemma remove_matching_ok p l : hlist_ok l -> hl_handlers (remove_matching p l) <> [] -> hlist_ok (remove_matching p l).
Proof.
  intros (_ & Hc & Hd & Hr) Hne. split; [done|]. unfold remove_matching in *. cbn [hl_handlers delegateCount] in *.
  set (n := delegateCount l) in *. set (hs := hl_handlers l) in *.
  set (g := fun o => bool_decide (ho_selector o <> [])).
  assert (Forall (fun o => g o = true) (take n hs)) as Hd' by (eapply Forall_impl; [exact Hd|]; intros o Ho; by apply bool_decide_eq_true).
  assert (Forall (fun o => g o = false) (drop n hs)) as Hr'.
  { eapply Forall_impl; [exact Hr|]. intros o Ho. apply bool_decide_eq_false. by intros ?. }
  destruct (filter_split p g n hs Hd' Hr') as [_ Hlen]. unfold g in Hlen. rewrite Hlen.
  destruct (filter_split (fun o => negb (p o)) g n hs Hd' Hr') as [Hsplit _]. rewrite Hsplit.
  pose proof (filter_lengths p (take n hs)) as Hn. rewrite length_take, Nat.min_l in Hn by done.
  replace (n - length (List.filter p (take n hs)))%nat with (length (List.filter (fun o => negb (p o)) (take n hs))) by lia.
  split_and!.
  - rewrite length_app. lia.
  - rewrite take_app_length. apply Forall_forall. intros o Ho. apply list_elem_of_In, filter_In in Ho as [Ho _].
    apply (proj1 (Forall_forall _ _) Hd). by apply list_elem_of_In.
  - rewrite drop_app_length. apply Forall_forall. intros o Ho. apply list_elem_of_In, filter_In in Ho as [Ho _].
    apply (proj1 (Forall_forall _ _) Hr). by apply list_elem_of_In.
Qed.

Section invariant.
Context `{EventHost}.

Definition events_inv (s : estate) : Prop :=
  (forall e t l, ev_get (events_of s e) t = Some l -> hlist_ok l)
  /\ (forall e t, (e, t) ∈ listeners s <-> has_listeners e = true /\ is_Some (ev_get (events_of s e) t)).

Lemma events_inv0 : events_inv estate0.
Proof. split; [done|]. intros e t. split; [set_solver|]. by intros [_ [? ?]]. Qed.

(** [keeps_events] takes a computation apart down to its changes of the state. *)
Ltac keeps_events :=
  repeat match goal with
  | |- sm_keeps _ (_ ≫= _) => apply keeps_bind; [|intros ?]
  | |- sm_keeps _ (mret _) => apply keeps_ret
  | |- sm_keeps _ (sm_get _) => apply keeps_get
  | |- sm_keeps _ (sm_lift _) => apply keeps_lift
  | |- sm_keeps _ (sm_throw _) => apply keeps_throw
  | |- sm_keeps _ (sm_when _ _) => apply keeps_when
  | |- sm_keeps _ (sm_each _ _) => apply keeps_each; intros ?
  | |- sm_keeps _ (match ?x with _ => _ end) => destruct x
  | |- sm_keeps _ (sm_mod _) => apply keeps_mod; intros ? ?; assumption
  | |- sm_keeps _ _ => solve [eauto with jslib]
  end.

(** ** Adding and removing *)

Lemma add_type_keeps elem h g data selector t : sm_keeps events_inv (add_type elem h g data selector t).
Proof.
  intros s [Hl Hn]. unfold add_type. destruct (typenamespace t) as [origType ns]. destruct (decide (origType = [])); [done|].
  set (type := mapped_type selector origType). set (o := HandleObj type _ _ _ _ _ _ _). rewrite sm_get_bind.
  assert (forall s1 l, (l = HList [] 0 \/ hlist_ok l) -> ev_get (events_of s1 elem) type = Some l ->
    (forall e t', (e, t') <> (elem, type) -> ev_get (events_of s1 e) t' = ev_get (events_of s e) t') ->
    listeners s1 = (if has_listeners elem then {[ (elem, type) ]} ∪ listeners s else listeners s) ->
    events_inv (set_events elem (ev_set (events_of s1 elem) type
      (insert_handler o (default (HList [] 0) (ev_get (events_of s1 elem) type)))) s1)) as Hfin.
  { intros s1 l Hok E1 Hoth Els. rewrite E1. cbn [default id].
    assert (forall e t', ev_get (events_of (set_events elem (ev_set (events_of s1 elem) type (insert_handler o l)) s1) e) t'
      = if decide ((e, t') = (elem, type)) then Some (insert_handler o l) else ev_get (events_of s e) t') as Eall.
    { intros e t'. rewrite events_of_set. destruct (decide (e = elem)) as [->|He].
      - rewrite ev_get_set. destruct (decide (type = t')) as [->|Ht]; [by rewrite decide_True|].
        rewrite decide_False by congruence. apply Hoth. congruence.
      - rewrite decide_False by congruence. apply Hoth. congruence. }
    split.
    - intros e t' l'. rewrite Eall. case_decide; [|by apply Hl]. intros [= <-]. apply insert_handler_ok. tauto.
    - intros e t'. change (listeners (set_events _ _ s1)) with (listeners s1). rewrite Eall, Els. case_decide as Ee.
      + injection Ee as -> ->. destruct (has_listeners elem) eqn:Eh; [split; [intros _; split; [done|by eexists]|intros _; set_solver]|].
        rewrite Hn, Eh. split; by intros [? _].
      + destruct (has_listeners elem); rewrite ?elem_of_union, ?elem_of_singleton, Hn; naive_solver. }
  destruct (ev_get (events_of s elem) type) as [l|] eqn:El.
  - rewrite sm_ret_bind. apply (Hfin s l); [right; by eapply Hl|done|done|].
    destruct (has_listeners elem) eqn:Eh; [|done]. assert ((elem, type) ∈ listeners s) by (apply Hn; split; [done|by eexists]). set_solver.
  - unfold mbind at 1, sm_bind at 1. rewrite sm_mod_bind. set (s1 := set_events elem _ s).
    assert (ev_get (events_of s1 elem) type = Some (HList [] 0)) as E1.
    { unfold s1. rewrite events_of_set, decide_True by done. by rewrite ev_get_set, decide_True. }
    assert (forall e t', (e, t') <> (elem, type) -> ev_get (events_of s1 e) t' = ev_get (events_of s e) t') as Hoth.
    { intros e t' Hne. unfold s1. rewrite events_of_set. destruct (decide (e = elem)) as [->|He]; [|done].
      rewrite ev_get_set, decide_False; [done|]. congruence. }
    destruct (has_listeners elem) eqn:Eh; cbn [sm_when].
    + apply (Hfin (set_listeners ({[(elem, type)]} ∪ listeners s1) s1) (HList [] 0)); [by left|exact E1|exact Hoth|done].
    + apply (Hfin s1 (HList [] 0)); [by left|exact E1|exact Hoth|done].
Qed.

Lemma ensure_guid_keeps h : sm_keeps events_inv (ensure_guid h).
Proof. unfold ensure_guid. keeps_events. Qed.
#[local] Hint Resolve ensure_guid_keeps add_type_keeps : jslib.

(** Creating or emptying the events object of an element does not matter. *)
Lemma same_events_inv s s' : (forall e t, ev_get (events_of s' e) t = ev_get (events_of s e) t) -> listeners s' = listeners s ->
  events_inv s -> events_inv s'.
Proof. intros He Hls [Hl Hn]. split; [intros e t l; rewrite He; apply Hl|]. intros e t. by rewrite Hls, He. Qed.

Lemma event_add_keeps elem types h data selector : sm_keeps events_inv (event_add elem types h data selector).
Proof.
  unfold event_add. destruct (acceptData elem); [|apply keeps_ret].
  apply keeps_bind; [keeps_events|intros _]. apply keeps_bind; [auto with jslib|intros g].
  apply keeps_bind; [|intros _; keeps_events]. apply keeps_mod. intros s. apply same_events_inv; [|done].
  intros e t. rewrite events_of_set. by case_decide; subst.
Qed.

(** The construction of the expression changes nothing. *)
Lemma check_state names s :
  exists r, (match names with Some l => check_names l | None => mret tt end) s = (r, s).
Proof. destruct names; by eexists. Qed.

Lemma check_names_keeps names : sm_keeps events_inv (check_names names).
Proof. apply keeps_lift. Qed.
#[local] Hint Resolve check_names_keeps : jslib.

Lemma remove_type_keeps elem g selector mapped t : sm_keeps events_inv (remove_type elem g selector mapped t).
Proof.
  intros s [Hl Hn]. unfold remove_type. destruct (typenamespace t) as [origType ns].
  set (type := mapped_type selector origType). cbv zeta.
  destruct (check_state ((fun _ => namespaces_of ns) <$> ns) s) as [r Echk].
  rewrite (sm_bind_eq _ _ _ _ _ Echk). destruct r as [[]|e|]; [|by split..]. rewrite sm_get_bind.
  destruct (ev_get (events_of s elem) type) as [l|] eqn:El; [|done].
  set (p := removes _ _ _ _ _). pose proof (Hl _ _ _ El) as Hok.
  assert (forall s' v, (forall e t', ev_get (events_of s' e) t' = if decide ((e, t') = (elem, type)) then v else ev_get (events_of s e) t') ->
    match v with
    | Some l' => hlist_ok l' /\ listeners s' = listeners s
    | None => listeners s' = if has_listeners elem then listeners s ∖ {[ (elem, type) ]} else listeners s
    end -> events_inv s') as Hfin.
  { intros s' v Hall Hv. split.
    - intros e t' l'. rewrite Hall. case_decide; [|by apply Hl]. destruct v; [|done]. intros [= <-]. apply Hv.
    - intros e t'. rewrite Hall. case_decide as Ee.
      + injection Ee as -> ->. destruct v as [l'|].
        * destruct Hv as [_ ->]. rewrite Hn, El. split; (intros [? _]; split; [done|by eexists]).
        * rewrite Hv. split; [|by intros [_ [? ?]]]. destruct (has_listeners elem) eqn:Eh; [set_solver|]. rewrite Hn, Eh. by intros [? _].
      + destruct v; [destruct Hv as [_ ->]; apply Hn|]. rewrite Hv. destruct (has_listeners elem); [|apply Hn].
        rewrite elem_of_difference, elem_of_singleton, Hn. naive_solver. }
  assert (forall v s1 d, d = (match v with Some l' => ev_set (events_of s elem) type l' | None => ev_delete (events_of s elem) type end) ->
    edatas s1 = edatas s -> forall e t', ev_get (events_of (set_events elem d s1) e) t'
      = if decide ((e, t') = (elem, type)) then v else ev_get (events_of s e) t') as Hall.
  { intros v s1 d -> Es e t'. rewrite events_of_set. unfold events_of. rewrite Es. destruct (decide (e = elem)) as [->|He].
    - destruct v; [rewrite ev_get_set|rewrite ev_get_delete]; (destruct (decide (type = t')) as [->|Ht]; [by rewrite decide_True|]);
        by rewrite decide_False by congruence.
    - by rewrite decide_False by congruence. }
  destruct (hl_handlers l) as [|o os] eqn:Eh; [by destruct Hok|].
  destruct (hl_handlers (remove_matching p l)) as [|o' os'] eqn:Er.
  - unfold mbind, sm_bind, sm_mod. cbn [snd]. eapply (Hfin _ None); [|done]. by apply (Hall None).
  - unfold sm_mod. cbn [snd]. eapply (Hfin _ (Some (remove_matching p l))); [by apply (Hall (Some _))|].
    split; [|done]. apply remove_matching_ok; [done|]. by rewrite Er.
Qed.

Lemma remove_end_keeps elem : sm_keeps events_inv (remove_end elem).
Proof.
  intros s. unfold remove_end. rewrite sm_get_bind. case_bool_decide as Ed; [|done]. cbn [sm_when sm_mod snd].
  apply same_events_inv; [|done]. intros e t. unfold events_of in *. cbn [edatas set_edatas].
  destruct (decide (e = elem)) as [->|Hne]; [|by rewrite lookup_delete_ne]. by rewrite lookup_delete_eq, Ed.
Qed.
#[local] Hint Resolve event_add_keeps remove_type_keeps remove_end_keeps : jslib.

Lemma event_remove_keeps elem types h selector : sm_keeps events_inv (event_remove elem types h selector).
Proof. unfold event_remove, remove_token, remove_mapped. keeps_events. Qed.
#[local] Hint Resolve event_remove_keeps : jslib.

(** ** Event objects and dispatch *)

Lemma upd_ev_keeps id f : sm_keeps events_inv (upd_ev id f).
Proof. unfold upd_ev. keeps_events. Qed.
Lemma upd_nev_keeps id f : sm_keeps events_inv (upd_nev id f).
Proof. unfold upd_nev. keeps_events. Qed.
#[local] Hint Resolve upd_ev_keeps upd_nev_keeps : jslib.

Lemma new_ev_keeps e : sm_keeps events_inv (new_ev e).
Proof. unfold new_ev. keeps_events. Qed.

Lemma preventDefault_keeps id : sm_keeps events_inv (preventDefault id).
Proof. unfold preventDefault, on_original. keeps_events. Qed.
Lemma stopPropagation_keeps id : sm_keeps events_inv (stopPropagation id).
Proof. unfold stopPropagation, on_original. keeps_events. Qed.
#[local] Hint Resolve new_ev_keeps preventDefault_keeps stopPropagation_keeps : jslib.
Lemma stopImmediate_keeps id : sm_keeps events_inv (stopImmediatePropagation id).
Proof. unfold stopImmediatePropagation, on_original. keeps_events. Qed.
Lemma off_event_keeps id : sm_keeps events_inv (off_event id).
Proof. unfold off_event. keeps_events. Qed.
#[local] Hint Resolve stopImmediate_keeps off_event_keeps : jslib.

Section calls.
Context (cl : handler -> eval -> list eval -> SM estate eval) (act : nat -> jstr -> SM estate unit) (fuel : nat).
Hypothesis cl_keeps : forall h this args, sm_keeps events_inv (cl h this args).
Hypothesis act_keeps : forall e t, sm_keeps events_inv (act e t).
#[local] Hint Resolve cl_keeps act_keeps : jslib.

Lemma run_handlers_keeps id elem args l : sm_keeps events_inv (run_handlers cl id elem args l).
Proof. induction l as [|o l IH]; cbn [run_handlers]; unfold call_handler; keeps_events. Qed.
#[local] Hint Resolve run_handlers_keeps : jslib.

Lemma run_queue_keeps id args q : sm_keeps events_inv (run_queue cl id args q).
Proof. induction q as [|[e l] q IH]; cbn [run_queue]; keeps_events. Qed.
#[local] Hint Resolve run_queue_keeps : jslib.

Lemma eventHandle_keeps elem r extra : sm_keeps events_inv (eventHandle cl fuel elem r extra).
Proof. unfold eventHandle, dispatch, fix_, handler_queue. keeps_events. Qed.
#[local] Hint Resolve eventHandle_keeps : jslib.

Lemma fire_path_keeps id first bubble ontype extra path : forall last,
  sm_keeps events_inv (fire_path cl fuel id first bubble ontype extra path last).
Proof. revert first. induction path as [|c path IH]; intros first last; cbn [fire_path]; unfold fire_at; keeps_events. Qed.
#[local] Hint Resolve fire_path_keeps : jslib.

Lemma event_trigger_keeps src extra elem only : sm_keeps events_inv (event_trigger cl act fuel src extra elem only).
Proof. unfold event_trigger, run_method. keeps_events. Qed.
#[local] Hint Resolve event_trigger_keeps : jslib.

Lemma do_op_keeps o : sm_keeps events_inv (do_op cl act fuel o).
Proof.
  destruct o; cbn [do_op]; unfold fn_on, fn_one, fn_off, fn_trigger, fn_triggerHandler, listener; keeps_events.
Qed.
End calls.

Lemma run_prog_keeps exec p : (forall o, sm_keeps events_inv (exec o)) -> sm_keeps events_inv (run_prog exec p).
Proof.
  intros He. induction p as [v|e|o k IHk hd IHh]; cbn [run_prog]; [apply keeps_ret|apply keeps_throw|].
  intros s Hs. pose proof (He o s Hs) as Ho. destruct (exec o s) as [[v|e|] s']; [by apply IHk|by apply IHh|done].
Qed.

Section programs.
Context (user : N -> eval -> list eval -> eprog) (native_method : nat -> jstr -> eprog).

Lemma calls_keep fuel :
  (forall h this args, sm_keeps events_inv (call user native_method fuel h this args))
  /\ (forall e t, sm_keeps events_inv (run_native user native_method fuel e t)).
Proof.
  induction fuel as [|n [IHc IHn]]; [by split; intros; apply keeps_lift|].
  assert (forall o, sm_keeps events_inv (do_op (call user native_method n) (fun e t => run_native user native_method n e t ;; mret tt) n o)) as Hop.
  { intros o. apply do_op_keeps; [done|]. intros e t. apply keeps_bind; [done|intros _; apply keeps_ret]. }
  split.
  - intros h this args. cbn [call]. destruct h as [k|h|]; cbn [call_body]; [by apply run_prog_keeps| |apply keeps_ret].
    apply keeps_bind; [|done]. destruct args as [|[] ?]; auto with jslib.
  - intros e t. cbn [run_native]. by apply run_prog_keeps.
Qed.

Lemma run_main_keeps fuel p : sm_keeps events_inv (run_main user native_method fuel p).
Proof.
  destruct (calls_keep fuel) as [Hc Hn]. apply run_prog_keeps. intros o. apply do_op_keeps; [done|].
  intros e t. apply keeps_bind; [done|intros _; apply keeps_ret].
Qed.

(** C20: whatever the page does with events (any program, from inside handlers or
    not, completing or throwing): in every list of handlers the delegated ones stand
    in front of the others and their number is [delegateCount], no list is empty, and
    the browser has the element's listener for a type exactly if handlers of that
    type are left, on elements that have listeners. *)
Theorem events_reachable fuel p s :
  events_inv s ->
  let s' := (run_main user native_method fuel p s).2 in
  (forall e t l, ev_get (events_of s' e) t = Some l ->
     exists delegated direct, hl_handlers l = delegated ++ direct /\ l = HList (delegated ++ direct) (length delegated)
       /\ delegated ++ direct <> []
       /\ Forall (fun o => ho_selector o <> []) delegated /\ Forall (fun o => ho_selector o = []) direct)
  /\ (forall e t, (e, t) ∈ listeners s' <-> has_listeners e = true /\ is_Some (ev_get (events_of s' e) t)).
Proof.
  intros Hs s'. destruct (run_main_keeps fuel p s Hs) as [Hl Hn]. fold s' in Hl, Hn. split; [|done].
  intros e t l El. destruct (Hl e t l El) as (Hne & Hc & Hd & Hr).
  exists (take (delegateCount l) (hl_handlers l)), (drop (delegateCount l) (hl_handlers l)).
  rewrite take_drop, length_take, Nat.min_l by done. split_and!; try done. by destruct l.
Qed.
End programs.
End invariant.

#[local] Existing Instance page_host.

Lemma events_reachable_witness :
  let s' := (run_main (fun _ _ _ => PRet XUndef) (fun _ _ => PRet XUndef) 1 page_prog estate0).2 in
  (forall e t l, ev_get (events_of s' e) t = Some l ->
     exists delegated direct, hl_handlers l = delegated ++ direct /\ l = HList (delegated ++ direct) (length delegated)
       /\ delegated ++ direct <> []
       /\ Forall (fun o => ho_selector o <> []) delegated /\ Forall (fun o => ho_selector o = []) direct)
  /\ (forall e t, (e, t) ∈ listeners s' <-> has_listeners e = true /\ is_Some (ev_get (events_of s' e) t)).
Proof. apply events_reachable. apply events_inv0. Defined.
