(* ===== verification/EventsBubble.v ===== *)
(** * Bubbling

    The order in which a triggered event calls handlers, against a reference
    definition on the elements above the target, for handlers that leave a mark and
    act on the event. *)

From S2P Require Import Prelude JsNum RegExp JsVal Callbacks Text ElemData Events EventsFacts.

(** ** A reference definition of bubbling *)

(** What a handler does after it has left its mark: nothing, answering false, or
    calling a method of the event. *)
Inductive reaction := Silent | AnswerFalse | Prevents | Stops | StopsAll.

Definition stops (r : reaction) : bool := match r with AnswerFalse | Stops | StopsAll => true | _ => false end.
Definition prevents (r : reaction) : bool := match r with AnswerFalse | Prevents => true | _ => false end.
Definition answers_false (r : reaction) : bool := match r with AnswerFalse => true | _ => false end.
Definition stops_all (r : reaction) : bool := match r with StopsAll => true | _ => false end.

(** Handlers that share an element: the marks, and whether the event is stopped and
    its default action prevented afterwards. *)
Fixpoint group_run (f : N -> reaction) (l : list N) : list N * bool * bool :=
  match l with
  | [] => ([], false, false)
  | n :: l' =>
      let '(t, st, pv) := if stops_all (f n) then ([], false, false) else group_run f l' in
      (n :: t, stops (f n) || st, prevents (f n) || pv)
  end.

(** Elements in order, until the event is stopped. *)
Fixpoint groups_run (f : N -> reaction) (gs : list (list N)) : list N * bool :=
  match gs with
  | [] => ([], false)
  | g :: gs' =>
      let '(t, st, pv) := group_run f g in
      let '(t', pv') := if st then ([], false) else groups_run f gs' in
      (t ++ t', pv || pv')
  end.

(** The elements above one. *)
Fixpoint climbs (s : estate) (e : nat) (up : list nat) : Prop :=
  match up with
  | [] => parents s !! e = None
  | p :: up' => parents s !! e = Some p /\ climbs s p up'
  end.

Section levels.
Context `{EventHost}.

Definition number_of (o : handleObj) : N := match ho_handler o with HUser n => n | _ => 0%N end.
Definition wanted (rn : option (list jstr)) (o : handleObj) : bool :=
  match rn with None => true | Some names => ns_test names (ho_namespace o) end.
Definition marks (rn : option (list jstr)) (l : list handleObj) : list N := List.map number_of (List.filter (wanted rn) l).


(** The groups of handlers of an element for an event that came through [below]: the
    delegated handlers for each element below, innermost first, then its own. *)
Definition level (s : estate) (type : jstr) (rn : option (list jstr)) (below : list nat) (c : nat) : list (list N) :=
  match ev_get (events_of s c) type with
  | None => []
  | Some l => List.map (fun d => marks rn (delegates_at type l c d)) below
              ++ [marks rn (drop (delegateCount l) (hl_handlers l))]
  end.

Fixpoint levels (s : estate) (type : jstr) (rn : option (list jstr)) (below path : list nat) : list (list N) :=
  match path with
  | [] => []
  | c :: path' => level s type rn below c ++ levels s type rn (below ++ [c]) path'
  end.

End levels.

(** The functions of a page whose handlers react so. *)
Definition reacts (f : N -> reaction) (n : N) (this : eval) (args : list eval) : eprog :=
  POp (OPrint n) (fun _ =>
    match f n, args with
    | AnswerFalse, _ => PRet (XBool false)
    | Prevents, XEvent id :: _ => POp (OPreventDefault id) (fun _ => PRet XUndef) PThrow
    | Stops, XEvent id :: _ => POp (OStopPropagation id) (fun _ => PRet XUndef) PThrow
    | StopsAll, XEvent id :: _ => POp (OStopImmediate id) (fun _ => PRet XUndef) PThrow
    | _, _ => PRet XUndef
    end) PThrow.

(** ** Facts of the reference *)

Lemma group_run_nil f : group_run f [] = ([], false, false).
Proof. done. Qed.

(** Empty groups do not matter. *)
Lemma groups_run_drop f gs : groups_run f (List.filter (fun g => negb (bool_decide (g = []))) gs) = groups_run f gs.
Proof.
  induction gs as [|g gs IH]; [done|]. cbn [List.filter groups_run]. case_bool_decide as E; cbn [negb].
  - subst g. cbn. rewrite IH. by destruct (groups_run f gs).
  - cbn [groups_run]. by rewrite IH.
Qed.

Definition joins (a b : list N * bool * bool) : list N * bool * bool :=
  let '(t, st, pv) := a in
  if st then a else let '(t', st', pv') := b in (t ++ t', st', pv || pv').

(** Elements in order, keeping whether the event was stopped. *)
Fixpoint groups_state (f : N -> reaction) (gs : list (list N)) : list N * bool * bool :=
  match gs with [] => ([], false, false) | g :: gs' => joins (group_run f g) (groups_state f gs') end.

Lemma groups_state_run f gs : groups_run f gs = ((groups_state f gs).1.1, (groups_state f gs).2).
Proof.
  induction gs as [|g gs IH]; [done|]. cbn [groups_run groups_state]. unfold joins. destruct (group_run f g) as [[t st] pv].
  destruct st; [by rewrite app_nil_r, orb_false_r|]. rewrite IH. by destruct (groups_state f gs) as [[t' st'] pv'].
Qed.

Lemma groups_state_app f gs gs' : groups_state f (gs ++ gs') = joins (groups_state f gs) (groups_state f gs').
Proof.
  induction gs as [|g gs IH]; cbn [app groups_state]; [by destruct (groups_state f gs') as [[]]|]. rewrite IH. unfold joins.
  destruct (group_run f g) as [[t st] pv]. destruct st; [done|]. destruct (groups_state f gs) as [[t1 st1] pv1].
  destruct st1; [done|]. destruct (groups_state f gs') as [[t2 st2] pv2]. by rewrite app_assoc, orb_assoc.
Qed.

Definition adds (a b : list N * bool * bool) : list N * bool * bool :=
  (a.1.1 ++ b.1.1, a.1.2 || b.1.2, a.2 || b.2).

Lemma joins_adds a b : a.1.2 = false -> joins a b = adds a b.
Proof. destruct a as [[t st] pv], b as [[t' st'] pv']. by intros [= ->]. Qed.

Lemma joins_stopped a b : a.1.2 = true -> joins a b = a.
Proof. destruct a as [[t st] pv]. by intros [= ->]. Qed.

Lemma adds_assoc a b c : adds a (adds b c) = adds (adds a b) c.
Proof. unfold adds. cbn [fst snd]. by rewrite app_assoc, !orb_assoc. Qed.

Lemma adds_nil a : adds a ([], false, false) = a.
Proof. destruct a as [[t st] pv]. unfold adds. cbn [fst snd]. by rewrite app_nil_r, !orb_false_r. Qed.

Lemma joins_assoc a b c : joins a (joins b c) = joins (joins a b) c.
Proof.
  destruct a as [[t st] pv], b as [[t1 st1] pv1], c as [[t2 st2] pv2]. unfold joins.
  destruct st, st1; try done. by rewrite app_assoc, orb_assoc.
Qed.

Lemma group_run_cons f n l : group_run f (n :: l)
  = adds ([n], stops (f n), prevents (f n)) (if stops_all (f n) then ([], false, false) else group_run f l).
Proof. cbn [group_run]. by destruct (if stops_all (f n) then _ else _) as [[t st] pv]. Qed.

(** ** The state while an event bubbles *)

Section bubbling.
Context `{EventHost} (f : N -> reaction) (native_method : nat -> jstr -> eprog) (fuel : nat).
Abbreviation cl := (call (reacts f) native_method (S fuel)).

(** The event [id] for [target], with what has been left on the page so far, and
    whether the event is stopped, prevented and immediately stopped. *)
Record bubbling (s0 : estate) (id target : nat) (type : jstr) (rn : option (list jstr))
    (x : list N * bool * bool) (im : bool) (s : estate) : Prop := Bubbling {
  b_edatas : edatas s = edatas s0;
  b_parents : parents s = parents s0;
  b_onprops : onprops s = onprops s0;
  b_triggered : triggered s = triggered s0;
  b_printed : printed s = printed s0 ++ x.1.1;
  b_original : j_original (ev_at s id) = None;
  b_type : j_type (ev_at s id) = type;
  b_target : j_target (ev_at s id) = Some target;
  b_rn : j_rnamespace (ev_at s id) = rn;
  b_stopped : j_stopped (ev_at s id) = x.1.2;
  b_prevented : j_prevented (ev_at s id) = x.2;
  b_immediate : j_immediate (ev_at s id) = im
}.

Context (s0 : estate) (id target : nat) (type : jstr) (rn : option (list jstr)).
Abbreviation at_ := (bubbling s0 id target type rn).

Lemma ev_at_upd s g : ev_at (upd_ev id g s).2 id = g (ev_at s id).
Proof. unfold ev_at, upd_ev, sm_mod. cbn [snd jevents set_jevents]. by rewrite lookup_insert_eq. Qed.

(** Changing the event changes what is known about it, and nothing else. *)
Lemma at_upd (g : jevent -> jevent) x x' im im' s :
  at_ x im s -> x'.1.1 = x.1.1 ->
  let e := ev_at s id in
  j_original (g e) = None -> j_type (g e) = type -> j_target (g e) = Some target -> j_rnamespace (g e) = rn ->
  j_stopped (g e) = x'.1.2 -> j_prevented (g e) = x'.2 -> j_immediate (g e) = im' ->
  comes (upd_ev id g) s (fun _ => at_ x' im').
Proof.
  intros [] Ex e. intros. exists tt, (upd_ev id g s).2. split; [done|].
  constructor; rewrite ?ev_at_upd; try done. change (printed s = printed s0 ++ x'.1.1). by rewrite Ex.
Qed.

Lemma at_quiet (g : jevent -> jevent) x im s :
  at_ x im s -> (forall e, j_original (g e) = j_original e /\ j_type (g e) = j_type e /\ j_target (g e) = j_target e
    /\ j_rnamespace (g e) = j_rnamespace e /\ j_stopped (g e) = j_stopped e /\ j_prevented (g e) = j_prevented e
    /\ j_immediate (g e) = j_immediate e) ->
  comes (upd_ev id g) s (fun _ => at_ x im).
Proof.
  intros Hs Hg. destruct (Hg (ev_at s id)) as (E1 & E2 & E3 & E4 & E5 & E6 & E7). pose proof Hs as [].
  by apply (at_upd g x x im im s); rewrite ?E1, ?E2, ?E3, ?E4, ?E5, ?E6, ?E7.
Qed.

Lemma on_original_at x im s g : at_ x im s -> comes (on_original id g) s (fun _ => at_ x im).
Proof. intros Hs. unfold on_original. apply comes_get_bind. rewrite (b_original _ _ _ _ _ _ _ _ Hs). by apply comes_ret. Qed.

Lemma preventDefault_at x im s : at_ x im s -> comes (preventDefault id) s (fun _ => at_ (x.1, true) im).
Proof.
  intros Hs. pose proof Hs as []. eapply comes_bind; [by apply (at_upd _ x (x.1, true) im im s)|].
  intros ? s' Hs'. by apply on_original_at.
Qed.

Lemma stopPropagation_at x im s : at_ x im s -> comes (stopPropagation id) s (fun _ => at_ (x.1.1, true, x.2) im).
Proof.
  intros Hs. pose proof Hs as []. eapply comes_bind; [by apply (at_upd _ x (x.1.1, true, x.2) im im s)|].
  intros ? s' Hs'. by apply on_original_at.
Qed.

Lemma stopImmediate_at x im s : at_ x im s -> comes (stopImmediatePropagation id) s (fun _ => at_ (x.1.1, true, x.2) true).
Proof.
  intros Hs. pose proof Hs as []. eapply comes_bind; [by apply (at_upd _ x x im true s)|].
  intros ? s' Hs'. eapply comes_bind; [eapply on_original_at, Hs'|]. intros ? s2 Hs2. by apply stopPropagation_at.
Qed.

(** ** One handler *)

(** Leaving a mark. *)
Lemma mark_at x im s n : at_ x im s ->
  comes (sm_mod (fun s => set_printed (printed s ++ [n]) s)) s (fun _ => at_ (x.1.1 ++ [n], x.1.2, x.2) im).
Proof.
  intros []. eexists tt, _. split; [done|]. constructor; try done.
  cbn [printed set_printed fst]. by rewrite app_assoc, b_printed0.
Qed.

Lemma run_prog_op (exec : eop -> SM estate eval) o k hd s R Q :
  comes (exec o) s R -> (forall v s', R v s' -> comes (run_prog exec (k v)) s' Q) -> comes (run_prog exec (POp o k hd)) s Q.
Proof.
  intros (v & s1 & E & Hv) Hk. destruct (Hk v s1 Hv) as (w & s2 & E2 & Hw). exists w, s2. split; [|done].
  cbn [run_prog]. by rewrite E.
Qed.

(** A handler leaves its mark and acts on the event; answering false is left to the
    caller. *)
Lemma reacts_at x im s n this args : at_ x im s ->
  comes (cl (HUser n) this (XEvent id :: args)) s (fun r s' =>
    (r = if answers_false (f n) then XBool false else XUndef)
    /\ at_ (if answers_false (f n) then (x.1.1 ++ [n], x.1.2, x.2) else adds x ([n], stops (f n), prevents (f n)))
         (im || stops_all (f n)) s').
Proof.
  intros Hs. cbn [call call_body]. unfold reacts at 1. eapply run_prog_op; [eapply answers, mark_at, Hs|].
  intros v s1 [_ Hs1]. unfold adds. cbn [fst snd]. destruct (f n); cbn [answers_false stops prevents stops_all];
    rewrite ?orb_false_r, ?orb_true_r; try by apply comes_ret.
  - eapply run_prog_op; [eapply answers, preventDefault_at, Hs1|]. intros w s2 [_ Hs2]. by apply comes_ret.
  - eapply run_prog_op; [eapply answers, stopPropagation_at, Hs1|]. intros w s2 [_ Hs2]. by apply comes_ret.
  - eapply run_prog_op; [eapply answers, stopImmediate_at, Hs1|]. intros w s2 [_ Hs2]. by apply comes_ret.
Qed.

(** ** The loops of dispatch *)

(** The handlers of a page: numbered functions for ordinary events. *)
Definition plain (o : handleObj) : Prop :=
  (exists n, ho_handler o = HUser n) /\ sp_enter (special_of (ho_origType o)) = false.

(** One turn of the inner loop. *)
Lemma run_handler_at x s o c extra : at_ x false s -> plain o -> wanted rn o = true ->
  comes (upd_ev id (set_j_handling o (ho_data o)) ;;
         ret ← call_handler cl o id c (XEvent id :: extra);
         if x_is_undef ret then mret tt
         else upd_ev id (set_j_result ret) ;; sm_when (x_is_false ret) (preventDefault id ;; stopPropagation id)) s
    (fun _ => at_ (adds x ([number_of o], stops (f (number_of o)), prevents (f (number_of o)))) (stops_all (f (number_of o)))).
Proof.
  intros Hs [[n En] Hsp] _. unfold call_handler. rewrite Hsp, En. unfold number_of. rewrite En.
  eapply comes_bind; [by apply (at_quiet _ _ _ _ Hs)|]. intros ? s1 Hs1.
  eapply comes_bind; [apply (reacts_at _ _ _ _ _ _ Hs1)|]. intros r s2 [-> Hs2]. rewrite orb_false_l in Hs2.
  destruct (answers_false (f n)) eqn:Ef; cbn [x_is_undef x_is_false sm_when]; [|by apply comes_ret].
  destruct (f n); try discriminate Ef.
  eapply comes_bind; [by apply (at_quiet _ _ _ _ Hs2)|]. intros ? s3 Hs3.
  eapply comes_bind; [eapply preventDefault_at, Hs3|]. intros ? s4 Hs4.
  eapply comes_mono; [eapply stopPropagation_at, Hs4|]. intros ? s5 Hs5. unfold adds. cbn [fst snd stops prevents stops_all] in *.
  by rewrite !orb_true_r.
Qed.

Lemma run_handlers_at l : forall x s c extra, at_ x false s -> Forall plain l ->
  comes (run_handlers cl id c (XEvent id :: extra) l) s (fun _ s' => exists im,
    at_ (adds x (group_run f (marks rn l))) im s' /\ (im = true -> (group_run f (marks rn l)).1.2 = true)).
Proof.
  induction l as [|o l IH]; intros x s c extra Hs Hl; cbn [run_handlers].
  - apply comes_ret. exists false. cbn. by rewrite adds_nil.
  - inversion Hl as [|? ? Ho Hl']; subst. apply comes_get_bind. rewrite (b_immediate _ _ _ _ _ _ _ _ Hs).
    rewrite (b_rn _ _ _ _ _ _ _ _ Hs). fold (wanted rn o). unfold marks. cbn [List.filter]. destruct (wanted rn o) eqn:Ew.
    + eapply comes_bind; [by apply run_handler_at|]. intros ? s1 Hs1. cbn [List.map]. fold (marks rn l).
      rewrite group_run_cons. destruct (stops_all (f (number_of o))) eqn:Ea.
      * exists tt, s1. split; [|exists true; rewrite adds_nil; split; [done|]].
        { destruct l; cbn [run_handlers]; [done|]. rewrite sm_get_bind. by rewrite (b_immediate _ _ _ _ _ _ _ _ Hs1). }
        intros _. destruct (f (number_of o)); done.
      * eapply comes_mono; [by apply IH|]. intros ? s2 (im & Hs2 & Him). exists im. rewrite adds_assoc. split; [done|].
        intros Hi. unfold adds. cbn [fst snd]. by rewrite (Him Hi), orb_true_r.
    + apply comes_ret_bind. by apply IH.
Qed.

(** Between handlers: stopping at once is stopping. *)
Definition between (x : list N * bool * bool) (s : estate) : Prop := exists im, at_ x im s /\ (im = true -> x.1.2 = true).

Lemma between_go x s : between x s -> x.1.2 = false -> at_ x false s.
Proof. intros ([] & Hs & Him) E; [|done]. by rewrite Him in E. Qed.

Lemma between_stopped x s : between x s -> j_stopped (ev_at s id) = x.1.2.
Proof. intros (im & Hs & _). apply Hs. Qed.

(** The outer loop, over elements with their handlers. *)
Lemma run_queue_at q : forall x s extra, between x s -> Forall (fun p => Forall plain p.2) q ->
  comes (run_queue cl id (XEvent id :: extra) q) s
    (fun _ => between (joins x (groups_state f (List.map (fun p => marks rn p.2) q)))).
Proof.
  induction q as [|[c l] q IH]; intros x s extra Hs Hq; cbn [run_queue List.map groups_state].
  - apply comes_ret. destruct (x.1.2) eqn:E; [by rewrite joins_stopped|]. by rewrite joins_adds, adds_nil.
  - inversion Hq as [|? ? Hl Hq']; subst. apply comes_get_bind. rewrite (between_stopped _ _ Hs).
    destruct (x.1.2) eqn:E; [apply comes_ret; by rewrite joins_stopped|].
    eapply comes_bind; [by apply (at_quiet _ _ _ _ (between_go _ _ Hs E))|]. intros ? s1 Hs1.
    eapply comes_bind; [eapply run_handlers_at; [exact Hs1|exact Hl]|]. intros ? s2 Hs2. cbn [snd].
    rewrite joins_assoc, (joins_adds x) by done. apply IH; [|done].
    destruct Hs2 as (im & Hs2 & Him). exists im. split; [exact Hs2|]. intros Hi. unfold adds. cbn [fst snd].
    by rewrite (Him Hi), orb_true_r.
Qed.

(** ** An element of the path *)

Lemma events_of_at x im s e : at_ x im s -> events_of s e = events_of s0 e.
Proof. intros Hs. unfold events_of. by rewrite (b_edatas _ _ _ _ _ _ _ _ Hs). Qed.

Lemma path_below_parents n s s' cur this : parents s = parents s' -> path_below n s cur this = path_below n s' cur this.
Proof. intros E. revert cur. induction n as [|n IH]; intros cur; cbn [path_below]; [done|]. rewrite E. repeat case_match; by rewrite ?IH. Qed.

Lemma groups_state_nils (A : Type) (g : A -> list N) (l : list A) (p : A -> bool) :
  (forall a, p a = false -> g a = []) ->
  groups_state f (List.map g (List.filter p l)) = groups_state f (List.map g l).
Proof.
  intros Hp. induction l as [|a l IH]; [done|]. cbn [List.filter List.map groups_state]. destruct (p a) eqn:E.
  - cbn [List.map groups_state]. by rewrite IH.
  - rewrite (Hp a E), group_run_nil, IH. unfold joins. by destruct (groups_state f (List.map g l)) as [[]].
Qed.

Lemma groups_state_end (gs : list (list N)) : groups_state f (gs ++ [[]]) = groups_state f gs.
Proof.
  rewrite groups_state_app. cbn [groups_state group_run joins]. destruct (groups_state f gs) as [[t st] pv].
  destruct st; cbn; [done|]. by rewrite app_nil_r, orb_false_r.
Qed.

(** The queue of an element, up to elements without handlers. *)
Lemma handler_queue_at x im s c l below : at_ x im s -> Num.truthy (nodeType target) = true ->
  (delegateCount l <= length (hl_handlers l))%nat -> path_below (S fuel) s0 target c = Ok below -> Forall plain (hl_handlers l) ->
  comes (handler_queue (S fuel) c id l) s (fun q s' => s' = s
    /\ Forall (fun p => Forall plain p.2) q
    /\ groups_state f (List.map (fun p => marks rn p.2) q)
       = groups_state f (List.map (fun d => marks rn (delegates_at type l c d)) below ++ [marks rn (drop (delegateCount l) (hl_handlers l))])).
Proof.
  intros Hs Ht Hlen Hw Hpl. unfold handler_queue. apply comes_get_bind.
  assert (forall d, Forall plain (delegates_at type l c d)) as Hdel.
  { intros d. unfold delegates_at. destruct (_ && _); [|constructor]. apply Forall_forall. intros o Ho.
    apply list_elem_of_In, filter_In in Ho as [Ho _]. apply (proj1 (Forall_forall _ _) Hpl).
    apply list_elem_of_In in Ho. by eapply elem_of_subseteq in Ho; [|apply subseteq_take]. }
  set (own := if bool_decide _ then _ else _).
  assert (Forall (fun p => Forall plain p.2) own /\ groups_state f (List.map (fun p => marks rn p.2) own)
    = groups_state f [marks rn (drop (delegateCount l) (hl_handlers l))]) as [Hown Eown].
  { unfold own. case_bool_decide as Ed; [split; [|done]|].
    - constructor; [|constructor]. by apply Forall_drop.
    - split; [constructor|]. by rewrite drop_ge by lia. }
  rewrite groups_state_app, <-Eown, <-groups_state_app.
  destruct (delegateCount l =? 0)%nat eqn:E0.
  - apply comes_ret_bind, comes_ret. split_and!; [done|done|]. rewrite groups_state_app. cbn [List.map app].
    enough (groups_state f (List.map (fun d => marks rn (delegates_at type l c d)) below) = ([], false, false)) as ->
      by (cbn; by destruct (groups_state f _) as [[]]).
    rewrite <-(groups_state_nils _ _ below (fun _ => false)); [by assert (List.filter (fun _ : nat => false) below = []) as -> by (clear; by induction below)|].
    intros d _. unfold delegates_at. apply Nat.eqb_eq in E0 as ->. by destruct (_ && _).
  - rewrite (b_target _ _ _ _ _ _ _ _ Hs), Ht, (b_type _ _ _ _ _ _ _ _ Hs). unfold event_button.
    rewrite (b_original _ _ _ _ _ _ _ _ Hs), andb_false_r. cbn [andb negb].
    eapply (comes_bind _ _ _ (fun q s' => s' = s /\ q = _)).
    { rewrite (path_below_parents _ s s0), Hw by apply Hs. unfold sm_lift. eexists _, s. split; [done|]. by split. }
    intros q s' [-> ->]. apply comes_ret. split_and!; [done| |].
    + apply Forall_app. split; [|done]. apply Forall_forall. intros p Hp.
      apply list_elem_of_In, filter_In in Hp as [Hp _]. apply in_map_iff in Hp as (d & <- & _). apply Hdel.
    + rewrite List.map_app, !groups_state_app. f_equal. rewrite groups_state_nils.
      * by rewrite List.map_map.
      * intros p Hp. apply bool_decide_eq_false, dec_stable in Hp. by rewrite Hp.
Qed.

(** The way up: below every element of the path lie those before it. *)
Fixpoint ways (below path : list nat) : Prop :=
  match path with
  | [] => True
  | c :: path' => path_below (S fuel) s0 target c = Ok below /\ ways (below ++ [c]) path'
  end.

(** The lists of an element are as [add] and [remove] leave them, with handlers of
    the page. *)
Definition page_lists (c : nat) : Prop := forall l, ev_get (events_of s0 c) type = Some l ->
  (delegateCount l <= length (hl_handlers l))%nat /\ Forall plain (hl_handlers l).

Lemma dispatch_at x s c l below extra : at_ x false s -> x.1.2 = false -> Num.truthy (nodeType target) = true ->
  page_lists c -> path_below (S fuel) s0 target c = Ok below -> ev_get (events_of s0 c) type = Some l ->
  comes (dispatch cl (S fuel) c (RefJ id) extra) s (fun _ => between (joins x (groups_state f (level s0 type rn below c)))).
Proof.
  intros Hs Hx Ht Hc Hw El. destruct (Hc l El) as [Hlen Hpl]. unfold dispatch, level. rewrite El. cbn [fix_].
  apply comes_ret_bind, comes_get_bind. rewrite (b_type _ _ _ _ _ _ _ _ Hs), (events_of_at _ _ _ _ Hs), El. change (default (HList [] 0) (Some l)) with l.
  eapply comes_bind; [by apply (at_quiet _ _ _ _ Hs)|]. intros ? s1 Hs1.
  eapply comes_bind; [eapply handler_queue_at; [exact Hs1|done..]|]. intros q s2 (-> & Hq & Eq). rewrite <-Eq.
  eapply comes_bind; [eapply run_queue_at; [|exact Hq]|].
  - exists false. by split; [exact Hs1|].
  - intros ? s3 Hs3. apply comes_get. exact Hs3.
Qed.

(** A turn of the loop of [trigger]. *)
Lemma fire_at_at x s c below extra ontype : between x s -> x.1.2 = false -> Num.truthy (nodeType target) = true ->
  page_lists c -> path_below (S fuel) s0 target c = Ok below -> triggered s0 = None ->
  (forall o, ontype = Some o -> onprops s0 !! (c, o) = None) ->
  comes (fire_at cl (S fuel) id c ontype extra) s (fun _ => between (joins x (groups_state f (level s0 type rn below c)))).
Proof.
  intros Hb Hx Ht Hc Hw Htr Hon. pose proof (between_go _ _ Hb Hx) as Hs. unfold fire_at. apply comes_get_bind.
  rewrite (b_type _ _ _ _ _ _ _ _ Hs), (events_of_at _ _ _ _ Hs).
  eapply (comes_bind _ _ _ (fun _ => between (joins x (groups_state f (level s0 type rn below c))))).
  - destruct (ev_get (events_of s0 c) type) as [l|] eqn:El.
    + eapply comes_bind; [|intros ? s1 Hs1; apply comes_ret; exact Hs1]. unfold eventHandle. apply comes_get_bind.
      rewrite (b_triggered _ _ _ _ _ _ _ _ Hs), Htr. rewrite bool_decide_eq_false_2 by done. by apply (dispatch_at _ _ _ l).
    + apply comes_ret. unfold level. rewrite El. cbn [groups_state]. by rewrite joins_adds, adds_nil.
  - intros ? s1 Hs1. apply comes_get_bind. cbv beta in Hs1.
    assert (match ontype with Some o => onprops s1 !! (c, o) | None => None end = None) as ->; [|by apply comes_ret].
    destruct ontype as [o|]; [|done]. destruct Hs1 as (im & Hs1 & _). rewrite (b_onprops _ _ _ _ _ _ _ _ Hs1). by apply Hon.
Qed.

Lemma fire_path_at path : forall below x s extra ontype lastElement,
  between x s -> Num.truthy (nodeType target) = true -> Forall page_lists path -> ways below path -> triggered s0 = None ->
  (forall c o, c ∈ path -> ontype = Some o -> onprops s0 !! (c, o) = None) ->
  comes (fire_path cl (S fuel) id type type ontype extra path lastElement) s
    (fun _ => between (joins x (groups_state f (levels s0 type rn below path)))).
Proof.
  induction path as [|c path IH]; intros below x s extra ontype lastElement Hb Ht Hl Hw Htr Hon; cbn [fire_path levels].
  - apply comes_ret. cbn [groups_state]. destruct (x.1.2) eqn:Hx; [by rewrite joins_stopped|]. by rewrite joins_adds, adds_nil.
  - inversion Hl as [|? ? Hc Hl']; subst. destruct Hw as [Hw Hws]. apply comes_get_bind. rewrite (between_stopped _ _ Hb).
    destruct (x.1.2) eqn:Hx; [apply comes_ret; by rewrite joins_stopped|]. pose proof (between_go _ _ Hb Hx) as Hs.
    eapply comes_bind; [pose proof Hs as []; by apply (at_upd (set_j_type type) x x false false s Hs)|]. intros ? s1 Hs1.
    eapply comes_bind; [eapply fire_at_at; [by exists false; split; [exact Hs1|]|done..|by intros; eapply Hon; [left|]]|].
    intros ? s2 Hs2. rewrite groups_state_app, joins_assoc. apply IH; try done. intros. eapply Hon; [by right|done].
Qed.

End bubbling.

(** ** The path *)

Fixpoint before (c : nat) (l : list nat) : list nat :=
  match l with [] => [] | x :: l' => if (x =? c)%nat then [] else x :: before c l' end.

Lemma before_app c l l' : c ∈ l -> before c (l ++ l') = before c l.
Proof.
  induction l as [|x l IH]; [set_solver|]. intros Hc. cbn [app before]. destruct (Nat.eqb_spec x c); [done|]. rewrite IH; [done|].
  by apply elem_of_cons in Hc as [->|?].
Qed.

Lemma before_all c l l' : c ∉ l -> before c (l ++ c :: l') = l.
Proof.
  induction l as [|x l IH]; cbn [app before]; intros Hc; [by rewrite Nat.eqb_refl|].
  apply not_elem_of_cons in Hc as [Hx Hc]. destruct (Nat.eqb_spec x c) as [->|]; [done|]. by rewrite IH.
Qed.

Lemma before_none c l : c ∉ l -> before c l = l.
Proof.
  induction l as [|x l IH]; cbn [before]; intros Hc; [done|].
  apply not_elem_of_cons in Hc as [Hx Hc]. destruct (Nat.eqb_spec x c) as [->|]; [done|]. by rewrite IH.
Qed.

Lemma climbs_parents s s' e up : parents s = parents s' -> climbs s e up -> climbs s' e up.
Proof. intros E. revert e. induction up as [|p up IH]; intros e; cbn [climbs]; rewrite E; naive_solver. Qed.

Lemma climbs_fun s e up : climbs s e up -> forall up', climbs s e up' -> up = up'.
Proof.
  revert e. induction up as [|p up IH]; intros e Hc [|p' up']; cbn [climbs] in *; [done|naive_solver..|].
  intros [Hp' Hc']. destruct Hc as [Hp Hc]. rewrite Hp in Hp'. injection Hp' as ->. by rewrite (IH p' Hc up').
Qed.

Lemma climbs_suffix s up : forall e p a b, climbs s e up -> up = a ++ p :: b -> climbs s p b.
Proof.
  induction up as [|q up IH]; intros e p a b Hc E; [by destruct a|]. destruct Hc as [_ Hc]. destruct a as [|x a]; cbn in E.
  - by injection E as -> ->.
  - injection E as -> ->. by eapply IH.
Qed.

Lemma climbs_NoDup s e up : climbs s e up -> NoDup (e :: up).
Proof.
  revert e. induction up as [|p up IH]; intros e Hc; [repeat constructor; set_solver|]. constructor; [|by apply IH, Hc].
  intros Hin. apply list_elem_of_split in Hin as (a & b & E). pose proof (climbs_suffix _ _ _ _ _ _ Hc E) as Hb.
  pose proof (climbs_fun _ _ _ Hc _ Hb) as Eb. apply (f_equal length) in E, Eb. rewrite length_app in E. cbn in *. lia.
Qed.

Lemma path_below_climbs n s up : forall e c, climbs s e up -> (length up < n)%nat -> path_below n s e c = Ok (before c (e :: up)).
Proof.
  revert n. induction up as [|p up IH]; intros n e c Hc Hn; (destruct n as [|n]; [cbn in Hn; lia|]); cbn [path_below before].
  - cbn [climbs] in Hc. rewrite Hc. by destruct (e =? c)%nat.
  - destruct Hc as [Hp Hc]. destruct (e =? c)%nat; [done|]. rewrite Hp. rewrite (IH n p c Hc) by (cbn in Hn; lia). done.
Qed.

Lemma ancestors_climbs n s up : forall e, climbs s e up -> (length up <= n)%nat -> ancestors n s (parents s !! e) = Ok up.
Proof.
  revert n. induction up as [|p up IH]; intros n e Hc Hn.
  - cbn [climbs] in Hc. rewrite Hc. by destruct n.
  - destruct Hc as [Hp Hc]. rewrite Hp. destruct n as [|n]; [cbn in Hn; lia|]. cbn [ancestors]. by rewrite (IH n p Hc) by (cbn in Hn; lia).
Qed.

Section paths.
Context `{EventHost}.

(** The path of an event that is triggered on [elem]. *)
Definition bubble_path (elem : nat) (up : list nat) (noBubble : bool) : list nat :=
  elem :: (if noBubble then [] else up ++ if bool_decide (last (elem :: up) = Some document) then [window] else []).

Lemma ways_path fuel s elem up noBubble : climbs s elem up -> (length up <= fuel)%nat -> window ∉ elem :: up ->
  ways fuel s elem [] (bubble_path elem up noBubble).
Proof.
  intros Hc Hn Hw. set (full := bubble_path elem up noBubble).
  assert (exists w, full ++ w = elem :: up ++ [window]) as [w Ew].
  { unfold full, bubble_path. destruct noBubble; [by eexists|]. case_bool_decide; [exists []|exists [window]]; by rewrite ?app_nil_r. }
  assert (NoDup (elem :: up ++ [window])) as Hnd.
  { apply (NoDup_app (elem :: up) [window]). split_and!; [by eapply climbs_NoDup| |apply NoDup_singleton].
    intros x Hx ->%list_elem_of_singleton. done. }
  enough (forall path below, full = below ++ path -> ways fuel s elem below path) as Hall by by apply (Hall full []).
  induction path as [|c path IH]; intros below E; cbn [ways]; [done|]. split.
  - rewrite (path_below_climbs _ _ up) by (done || lia). f_equal.
    assert (before c (elem :: up ++ [window]) = below) as <-.
    { rewrite <-Ew, E, <-app_assoc. cbn [app]. apply before_all. intros Hin. rewrite <-Ew, E, <-app_assoc in Hnd.
      apply NoDup_app in Hnd as (_ & Hnd & _). apply (Hnd c Hin). by left. }
    destruct (decide (c ∈ elem :: up)) as [Hin|Hin].
    + by rewrite <-(before_app c _ [window]).
    + assert (c = window) as ->.
      { assert (c ∈ (elem :: up) ++ [window]) as Hi by (cbn [app]; rewrite <-Ew, E, <-app_assoc; apply elem_of_app; right; by left).
        apply elem_of_app in Hi as [Hi|Hi]; [done|]. by apply list_elem_of_singleton in Hi. }
      rewrite before_none by done. symmetry. by apply (before_all window (elem :: up) []).
  - apply IH. by rewrite <-app_assoc.
Qed.

End paths.

(** ** Triggering *)

Lemma morph_undefined t : rfocusMorph (t ++ str "undefined") = false.
Proof.
  unfold rfocusMorph. apply orb_false_iff. split; apply bool_decide_eq_false; intros E; apply (f_equal (fun l => last l)) in E;
    rewrite last_app in E; vm_compute in E; discriminate E.
Qed.

Lemma morph_twice t : rfocusMorph (t ++ t) = false.
Proof.
  assert (forall l, t ++ t = l -> l = take (length l / 2) l ++ take (length l / 2) l) as Ht.
  { intros l <-. rewrite length_app. replace ((length t + length t) / 2)%nat with (length t) by (rewrite <-(Nat.div_mul (length t) 2) at 1 by done; f_equal; lia).
    by rewrite take_app_length. }
  unfold rfocusMorph. apply orb_false_iff. split; apply bool_decide_eq_false; intros E%Ht; vm_compute in E; discriminate E.
Qed.

Section trigger.
Context `{EventHost} (f : N -> reaction) (mark : nat -> jstr -> N).

(** The methods of elements leave a mark. *)
Definition marks_method (e : nat) (t : jstr) : eprog := POp (OPrint (mark e t)) (fun _ => PRet XUndef) PThrow.
Abbreviation cl fuel := (call (reacts f) marks_method (S fuel)).
Abbreviation act fuel := (fun e t => run_native (reacts f) marks_method (S fuel) e t ;; mret tt).

(** The default action leaves its mark, and the handlers as they were. *)
Definition acted (id : nat) (s : estate) (marks : list N) (s' : estate) : Prop :=
  printed s' = printed s ++ marks /\ edatas s' = edatas s /\ ev_at s' id = ev_at s id.

Lemma acted_when id s b m g s' : acted id s m s' -> (forall s, printed (g s) = printed s /\ edatas (g s) = edatas s /\ jevents (g s) = jevents s) ->
  comes (sm_when b (sm_mod g)) s' (fun _ => acted id s m).
Proof.
  intros (Hp & He & Hj) Hg. destruct b; [|by apply comes_ret]. apply comes_mod. destruct (Hg s') as (Ep & Ee & Ej).
  unfold acted, ev_at in *. by rewrite Ep, Ee, Ej.
Qed.

Lemma run_method_marks fuel id elem last_ type ontype s :
  comes (run_method (act fuel) id elem last_ type ontype) s (fun _ => acted id s [mark elem type]).
Proof.
  unfold run_method. apply comes_get_bind, comes_mod_bind, comes_mod_bind, comes_get_bind.
  eapply comes_bind; [apply (acted_when id s _ []); [|done]|].
  { unfold acted. cbn [printed edatas set_triggered set_onprops]. by rewrite app_nil_r. }
  intros ? s1 (Hp & He & Hj). eapply (comes_bind _ _ _ (fun _ => acted id s [mark elem type])).
  { eexists tt, _. split; [reflexivity|]. unfold acted. cbn [snd printed edatas set_printed]. rewrite app_nil_r in Hp. by rewrite Hp. }
  intros ? s2 Hs2. apply comes_get_bind. eapply comes_bind; [by apply (acted_when id s _ [mark elem type])|].
  intros ? s3 Hs3. apply comes_mod_bind. destruct (onprops s !! _); [by apply comes_mod|by apply comes_ret].
Qed.

(** The type of a text that is triggered, and its namespaces if it has some. *)
Definition text_type (text : jstr) : jstr := before_dot text.
Definition text_names (text : jstr) : option (list jstr) :=
  if bool_decide (chr "." ∈ text)
  then let names := sort_names (split_dots (from_dot text)) in if decide (join_dots names = []) then None else Some names
  else None.

Lemma text_split text : (if bool_decide (chr "." ∈ text) then (before_dot text, sort_names (split_dots (from_dot text))) else (text, []))
  = (text_type text, if bool_decide (chr "." ∈ text) then sort_names (split_dots (from_dot text)) else []).
Proof.
  case_bool_decide as E; [done|]. f_equal. unfold text_type. induction text as [|c t IH]; [done|]. cbn [before_dot].
  apply not_elem_of_cons in E as [Hc Ht]. destruct (N.eqb_spec c (chr ".")); [done|]. by rewrite <-IH.
Qed.

(** A new event for an element. *)
Lemma comes_start {A} s elem type rn ns (chk : SM estate unit) (K : nat -> SM estate A) Q :
  (forall s', chk s' = (Ok tt, s')) ->
  (forall id s1, bubbling s id elem type rn ([], false, false) false s1 -> comes (K id) s1 Q) ->
  comes (id ← new_ev (set_j_type type jevent0);
         upd_ev id (fun e => set_j_namespaces ns (j_rnamespace e) e) ;;
         chk ;;
         upd_ev id (fun e => set_j_result XUndef (set_j_namespaces ns rn e)) ;;
         upd_ev id (fun e => match j_target e with Some _ => e | None => set_j_target (Some elem) e end) ;;
         K id) s Q.
Proof.
  intros Hchk HK. set (id := next_event s).
  set (s1 := (new_ev (set_j_type type jevent0) s).2).
  set (g0 := fun e => set_j_namespaces ns (j_rnamespace e) e).
  set (g := fun e => set_j_result XUndef (set_j_namespaces ns rn e)).
  set (h := fun e => match j_target e with Some _ => e | None => set_j_target (Some elem) e end).
  set (s2 := (upd_ev id g0 s1).2).
  refine (_ : comes (chk ;; upd_ev id g ;; upd_ev id h ;; K id) s2 Q).
  destruct (HK id (upd_ev id h (upd_ev id g s2).2).2) as (a & s' & E & HQ).
  2: { exists a, s'. split; [|done]. unfold mbind, sm_bind. rewrite Hchk. exact E. }
  assert (ev_at s1 id = set_j_type type jevent0) as E1.
  { change (default jevent0 (<[id := set_j_type type jevent0]> (jevents s) !! id) = set_j_type type jevent0).
    by rewrite lookup_insert_eq. }
  constructor; unfold s2; rewrite ?ev_at_upd, ?E1; try done. cbn [fst]. by rewrite app_nil_r.
Qed.

Lemma trigger_comes fuel s elem up noBubble text extra :
  nodeType elem = Fin 1 -> is_window elem = false ->
  special_of (text_type text) = Special noBubble None None false None -> chr ":" ∉ text_type text ->
  match text_names text with Some names => forallb plain_name names | None => true end = true ->
  triggered s = None -> climbs s elem up -> (length up <= fuel)%nat -> window ∉ elem :: up ->
  Forall (page_lists s (text_type text)) (bubble_path elem up noBubble) ->
  (forall c, c ∈ bubble_path elem up noBubble -> onprops s !! (c, str "on" ++ text_type text) = None) ->
  comes (event_trigger (cl fuel) (act fuel) (S fuel) (TType text) extra elem false) s (fun _ s' =>
    let run := groups_state f (levels s (text_type text) (text_names text) [] (bubble_path elem up noBubble)) in
    printed s' = printed s ++ run.1.1 ++ (if has_method elem (text_type text) && negb run.2 then [mark elem (text_type text)] else [])
    /\ edatas s' = edatas s).
Proof.
  intros He Hwin Hsp Hcolon Hpl Htr Hc Hn Hw Hl Hon. unfold event_trigger. apply comes_get_bind.
  rewrite He. cbn [Num.eqb Z.eqb orb]. rewrite Htr. change (default (str "undefined") None) with (str "undefined").
  rewrite morph_undefined, text_split. set (type := text_type text) in *. rewrite (bool_decide_eq_false_2 _ Hcolon). cbv zeta.
  set (names := if bool_decide (chr "." ∈ text) then _ else []).
  assert (text_names text = if decide (join_dots names = []) then None else Some names) as En.
  { unfold text_names, names. case_bool_decide; [done|]. by rewrite decide_True. }
  rewrite <-En. set (rn := text_names text). rewrite Hsp. cbn [sp_bindType sp_delegateType sp_default].
  change ((1 =? 3)%positive || (1 =? 8)%positive) with false. cbv iota.
  assert (forall s', (if decide (join_dots names = []) then mret tt else check_names names) s' = (Ok tt, s')) as Hchk.
  { intros s'. rewrite En in Hpl. case_decide; [done|]. by apply check_names_ok. }
  apply comes_start; [exact Hchk|]. intros id s1 Hs1. set (path := bubble_path elem up noBubble) in *.
  eapply (comes_bind _ _ _ (fun p s' => p = path /\ s' = s1)).
  { apply comes_get_bind. unfold sm_lift, event_path. rewrite Hwin, andb_true_r. cbn [sp_noBubble sp_delegateType negb andb].
    unfold path, bubble_path. destruct noBubble; cbn [negb]; [by eexists _, _|].
    change (default (text_type text) None) with (text_type text). rewrite morph_twice.
    rewrite (ancestors_climbs (S fuel) s1 up elem) by (try apply (climbs_parents s); [symmetry; apply Hs1|done] || lia).
    by eexists _, _. }
  intros ? ? [-> ->].
  eapply comes_bind; [apply (fire_path_at f marks_method fuel s id elem type rn path [] ([], false, false) s1 extra _ elem);
    [by exists false|by rewrite He|done|by apply ways_path|done|by intros c o Hin [= <-]; apply Hon]|].
  intros last_ s2 Hs2. cbv beta in Hs2. set (run := groups_state f (levels s type rn [] path)) in *.
  assert (joins ([], false, false) run = run) as Er by (unfold joins; by destruct run as [[]]). rewrite Er in Hs2.
  destruct Hs2 as (im & Hs2 & _).
  eapply comes_bind; [pose proof Hs2 as []; by apply (at_upd s id elem type rn (set_j_type type) run run im im s2 Hs2)|].
  intros ? s3 Hs3. apply comes_get_bind. rewrite (b_prevented _ _ _ _ _ _ _ _ Hs3).
  eapply (comes_bind _ _ _ (fun _ => acted id s3 (if has_method elem type && negb run.2 then [mark elem type] else []))).
  - assert (acceptData elem = true) as -> by (unfold acceptData; by rewrite He). rewrite Hwin, !andb_true_r. cbn [negb andb].
    assert (comes (mret tt) s3 (fun _ => acted id s3 [])) as Hnone by (apply comes_ret; unfold acted; by rewrite app_nil_r).
    destruct run.2; cbn [negb sm_when]; [by rewrite andb_false_r|]. rewrite andb_true_r.
    destruct (has_method elem type); cbn [sm_when]; [apply run_method_marks|done].
  - intros ? s4 (Hp & Hed & _). apply comes_get. split; [|by rewrite Hed; apply Hs3].
    rewrite Hp, (b_printed _ _ _ _ _ _ _ _ Hs3). by rewrite app_assoc.
Qed.

(** A program that triggers an event. *)
Lemma program_triggers fuel s elem src extra (Q : estate -> Prop) :
  comes (event_trigger (cl fuel) (act fuel) (S fuel) src extra elem false) s (fun _ => Q) ->
  exists s', run_main (reacts f) marks_method (S fuel) (POp (OTrigger [elem] src extra) PRet PThrow) s = (Ok (XElems [elem]), s') /\ Q s'.
Proof.
  intros Hcome. apply comes_of. eapply (run_prog_op _ _ _ _ _ (fun v s' => v = XElems [elem] /\ Q s')); [|intros v s' Hv; by apply comes_ret].
  apply (answers _ _ _ (fun _ => Q)). eapply comes_bind; [|intros ? s' Hs'; apply comes_ret; exact Hs'].
  eapply comes_bind; [exact Hcome|]. intros v s' Hs'. apply comes_ret. exact Hs'.
Qed.

(** C18: on a page whose handlers log their call and at most stop the event, answer
    [false] or prevent the default action, an event that is triggered on an element
    by a type, without a colon and not special but for bubbling or not, and perhaps
    namespaces without characters special to regular expressions, while no other
    event is being triggered and no element on the way has a property named [on]
    and the type, goes from its element up to the document and the window
    (or stays, if its type does not bubble), and calls at each of them first the
    delegated handlers of the elements passed, from the innermost on, then the
    handlers of the element itself, all in the order in which they were bound and only
    those with the namespaces asked for.  A handler that stops the event or answers
    false lets the handlers of the same element finish, one that stops it at once does
    not.  The default action follows unless a handler has prevented it. *)
Theorem trigger_bubbles fuel s elem up noBubble text extra :
  events_inv s -> triggered s = None -> nodeType elem = Fin 1 -> is_window elem = false ->
  special_of (text_type text) = Special noBubble None None false None -> chr ":" ∉ text_type text ->
  match text_names text with Some names => forallb plain_name names | None => true end = true ->
  climbs s elem up -> (length up <= fuel)%nat -> window ∉ elem :: up ->
  (forall c l, c ∈ bubble_path elem up noBubble -> ev_get (events_of s c) (text_type text) = Some l -> Forall plain (hl_handlers l)) ->
  (forall c, c ∈ bubble_path elem up noBubble -> onprops s !! (c, str "on" ++ text_type text) = None) ->
  let '(called, prevented) :=
    groups_run f (levels s (text_type text) (text_names text) [] (bubble_path elem up noBubble)) in
  exists s', run_main (reacts f) marks_method (S fuel) (POp (OTrigger [elem] (TType text) extra) PRet PThrow) s = (Ok (XElems [elem]), s')
    /\ printed s' = printed s ++ called
         ++ (if has_method elem (text_type text) && negb prevented then [mark elem (text_type text)] else [])
    /\ edatas s' = edatas s.
Proof.
  intros [Hok _] Htr He Hwin Hsp Hcolon Hplain Hc Hn Hw Hl Hon. rewrite groups_state_run.
  assert (Forall (page_lists s (text_type text)) (bubble_path elem up noBubble)) as Hpl.
  { apply Forall_forall. intros c Hin l El. split; [by eapply Hok|by eapply Hl]. }
  pose proof (trigger_comes fuel s elem up noBubble text extra He Hwin Hsp Hcolon Hplain Htr Hc Hn Hw Hpl Hon) as Hcome.
  exact (program_triggers _ _ _ _ _ _ Hcome).
Qed.

End trigger.

(** ** A page *)

#[local] Existing Instance page_host.

Definition page_react (n : N) : reaction := if (n =? 31)%N then Prevents else Silent.
Definition page_state : estate := (run_main (reacts page_react) (marks_method (fun _ _ => 99%N)) 1 page_prog estate0).2.

Lemma page_state_plain c l : c ∈ [1; 2; 3; 4]%nat -> ev_get (events_of page_state c) (str "click") = Some l -> Forall plain (hl_handlers l).
Proof.
  intros Hc. revert l.
  apply (proj1 (Forall_forall (fun c => forall l, ev_get (events_of page_state c) (str "click") = Some l -> Forall plain (hl_handlers l)) [1; 2; 3; 4]%nat)
    ltac:(repeat constructor; intros l E; vm_compute in E; injection E as <-; repeat constructor; by eexists) c Hc).
Qed.

Lemma page_state_props c : c ∈ [1; 2; 3; 4]%nat -> onprops page_state !! (c, str "onclick") = None.
Proof.
  apply (proj1 (Forall_forall (fun c => onprops page_state !! (c, str "onclick") = None) [1; 2; 3; 4]%nat) ltac:(repeat constructor; vm_compute; reflexivity)).
Qed.

Lemma page_groups :
  groups_run page_react (levels page_state (str "click") (text_names (str "click.b.a")) [] [1; 2; 3; 4]%nat) = ([11; 22; 41]%N, false).
Proof. vm_compute. reflexivity. Qed.

Lemma trigger_bubbles_witness :
  exists s', run_main (reacts page_react) (marks_method (fun _ _ => 99%N)) 3
       (POp (OTrigger [1%nat] (TType (str "click.b.a")) []) PRet PThrow) page_state = (Ok (XElems [1%nat]), s')
    /\ printed s' = [11; 22; 41; 99]%N /\ edatas s' = edatas page_state.
Proof.
  pose proof (trigger_bubbles page_react (fun _ _ => 99%N) 2 page_state 1 [2; 3]%nat false (str "click.b.a") []) as Hb.
  change (bubble_path 1 [2; 3]%nat false) with [1; 2; 3; 4]%nat in Hb. change (text_type (str "click.b.a")) with (str "click") in Hb.
  rewrite page_groups in Hb. destruct Hb as (s' & E & Hp & He).
  - apply run_main_keeps, events_inv0.
  - vm_compute. reflexivity.
  - reflexivity.
  - reflexivity.
  - vm_compute. reflexivity.
  - apply (bool_decide_unpack _). vm_compute. exact I.
  - vm_compute. reflexivity.
  - vm_compute. split_and!; reflexivity.
  - cbn; lia.
  - apply (bool_decide_unpack _). vm_compute. exact I.
  - intros c l. apply page_state_plain.
  - apply page_state_props.
  - exists s'. rewrite Hp. split_and!; [exact E|vm_compute; reflexivity|exact He].
Defined.
