(* ===== verification/EventsOff.v ===== *)
(** * Binding and unbinding

    What [on] adds, [off] with the same arguments takes away, for any list of types
    with namespaces, and leaves the other handlers where they were. *)

From S2P Require Import Prelude JsNum RegExp JsVal Callbacks Text ElemData Events EventsNs EventsFacts.

(** ** Namespaces match themselves *)

Lemma names_self ns : ns <> [] -> acc (names_re ns) (fun _ => True) (join_dots ns).
Proof.
  induction ns as [|n ns IH]; intros Hne; [done|]. destruct ns as [|m ns].
  - cbn [names_re acc join_dots]. rewrite acc_lit. exists []. rewrite app_nil_r. split; [done|]. right. by split.
  - cbn [names_re acc]. cbn [join_dots]. rewrite acc_lit. eexists. split; [done|]. cbn [acc]. rewrite acc_dot. eexists. split; [done|].
    cbn [acc ROpt]. right. by apply IH.
Qed.

Lemma split_on_ne c cur s : split_on c cur s <> [].
Proof. revert cur. induction s as [|x s IH]; intros cur; cbn [split_on]; [done|]. by destruct (x =? c)%N. Qed.

Lemma ns_test_self `{EventHost} ns : forallb plain_name (namespaces_of ns) = true ->
  ns_test (namespaces_of ns) (join_dots (namespaces_of ns)) = true.
Proof.
  intros Hpl. rewrite ns_test_plain by done. unfold literal_test. apply orb_true_iff. left. apply matches_here_iff, names_self.
  intros E. unfold namespaces_of in E. pose proof (sort_names_perm (split_dots (default [] ns))) as Hp. rewrite E in Hp.
  apply Permutation_nil_l in Hp. by eapply split_on_ne.
Qed.

(** ** The handlers of an element *)

Definition handlers_at (s : estate) (e : nat) (t : jstr) : list handleObj :=
  match ev_get (events_of s e) t with Some l => hl_handlers l | None => [] end.

Lemma handlers_set s e d e' t : handlers_at (set_events e d s) e' t
  = if decide (e' = e) then match ev_get d t with Some l => hl_handlers l | None => [] end else handlers_at s e' t.
Proof. unfold handlers_at. rewrite events_of_set. by case_decide. Qed.

(** A word of [on] and [off]: a type, and namespaces that stand for themselves in an
    expression. *)
Definition plain_word (w : jstr) : bool :=
  negb (bool_decide ((typenamespace w).1 = [])) && forallb plain_name (namespaces_of (typenamespace w).2).

Section off.
Context `{EventHost} (elem : nat) (selector : jstr) (g : nat).

(** The handlers that are not ours: on other elements, or of other functions. *)
Definition others (e : nat) (o : handleObj) : bool := negb (e =? elem)%nat || negb (ho_guid o =? g)%nat.

(** The other handlers are where they were. *)
Definition others_kept (s0 s : estate) : Prop :=
  forall e t, List.filter (others e) (handlers_at s e t) = handlers_at s0 e t.

(** A handler that [add] made for a word. *)
Definition made_for (w : jstr) (t : jstr) (o : handleObj) : Prop :=
  let '(origType, ns) := typenamespace w in
  origType <> [] /\ t = mapped_type selector origType /\ ho_origType o = origType
  /\ ho_namespace o = join_dots (namespaces_of ns) /\ ho_selector o = selector.

(** Our handlers are for these words. *)
Definition ours_for (ws : list jstr) (s : estate) : Prop :=
  forall t o, o ∈ handlers_at s elem t -> ho_guid o = g -> exists w, w ∈ ws /\ made_for w t o.

(** ** Adding *)

Lemma insert_others e o l : others e o = false -> List.filter (others e) (hl_handlers (insert_handler o l)) = List.filter (others e) (hl_handlers l).
Proof.
  intros Ho. unfold insert_handler. case_bool_decide; cbn [hl_handlers].
  - rewrite List.filter_app. cbn [List.filter]. rewrite Ho, <-List.filter_app, take_drop. done.
  - rewrite List.filter_app. cbn [List.filter]. by rewrite Ho, app_nil_r.
Qed.

Lemma insert_elem o o' l : o' ∈ hl_handlers (insert_handler o l) <-> o' = o \/ o' ∈ hl_handlers l.
Proof.
  unfold insert_handler. case_bool_decide; cbn [hl_handlers].
  - rewrite <-(take_drop (delegateCount l) (hl_handlers l)) at 3. set_solver.
  - set_solver.
Qed.

(** What a turn of [add] does to the lists. *)
Lemma add_type_handlers h data w s : exists s', add_type elem h g data selector w s = (Ok tt, s') /\
  let '(origType, ns) := typenamespace w in
  let type := mapped_type selector origType in
  forall e t, handlers_at s' e t = if decide (origType <> [] /\ (e, t) = (elem, type))
    then hl_handlers (insert_handler (HandleObj type origType data h g selector (bool_decide (selector <> []) && needs_context selector)
                                        (join_dots (namespaces_of ns)))
                       (default (HList [] 0) (ev_get (events_of s elem) type)))
    else handlers_at s e t.
Proof.
  unfold add_type. destruct (typenamespace w) as [origType ns]. destruct (decide (origType = [])) as [E0|E0].
  { exists s. split; [done|]. intros e t. by rewrite decide_False by tauto. }
  set (type := mapped_type selector origType). set (o := HandleObj type _ _ _ _ _ _ _).
  assert (forall s1, ev_get (events_of s1 elem) type = Some (default (HList [] 0) (ev_get (events_of s elem) type)) ->
    (forall e t, (e, t) <> (elem, type) -> handlers_at s1 e t = handlers_at s e t) ->
    forall e t, handlers_at (set_events elem (ev_set (events_of s1 elem) type
        (insert_handler o (default (HList [] 0) (ev_get (events_of s1 elem) type)))) s1) e t
      = if decide (origType <> [] /\ (e, t) = (elem, type)) then hl_handlers (insert_handler o (default (HList [] 0) (ev_get (events_of s elem) type)))
        else handlers_at s e t) as Hfin.
  { intros s1 E1 Hoth e t. rewrite handlers_set. destruct (decide (e = elem)) as [->|Hne].
    - rewrite ev_get_set. destruct (decide (type = t)) as [<-|Ht].
      + rewrite decide_True by done. by rewrite E1.
      + rewrite decide_False by naive_solver. apply Hoth. congruence.
    - rewrite decide_False by naive_solver. apply Hoth. congruence. }
  unfold comes. rewrite sm_get_bind. destruct (ev_get (events_of s elem) type) as [l|] eqn:El.
  - eexists. split; [done|]. by apply Hfin.
  - set (s1 := set_events elem (ev_set (events_of s elem) type (HList [] 0)) s).
    set (s2 := if has_listeners elem then set_listeners ({[(elem, type)]} ∪ listeners s1) s1 else s1).
    assert (events_of s2 elem = ev_set (events_of s elem) type (HList [] 0)) as E2.
    { transitivity (events_of s1 elem); [by unfold s2; destruct (has_listeners elem)|]. unfold s1. by rewrite events_of_set, decide_True. }
    eexists. split; [|apply (Hfin s2)].
    + unfold s2. by destruct (has_listeners elem).
    + by rewrite E2, ev_get_set, decide_True.
    + intros e t Hne. transitivity (handlers_at s1 e t); [by unfold s2; destruct (has_listeners elem)|]. unfold s1. rewrite handlers_set.
      case_decide as Ee; [subst e|done]. rewrite ev_get_set, decide_False by congruence. done.
Qed.

Lemma add_type_keeps_others h data w ws s0 s : others_kept s0 s -> ours_for ws s ->
  comes (add_type elem h g data selector w) s (fun _ s' => others_kept s0 s' /\ ours_for (w :: ws) s').
Proof.
  intros Hk Ho. destruct (add_type_handlers h data w s) as (s' & E & Hs'). exists tt, s'. split; [done|].
  destruct (typenamespace w) as [origType ns] eqn:Ew. cbv zeta in Hs'. split.
  - intros e t. rewrite Hs'. case_decide as Ed; [|by apply Hk]. destruct Ed as [_ [= -> ->]]. rewrite insert_others.
    + rewrite <-Hk. unfold handlers_at. by destruct (ev_get _ _).
    + unfold others. cbn [ho_guid]. by rewrite !Nat.eqb_refl.
  - intros t o. rewrite Hs'. case_decide as Ed.
    + destruct Ed as [Hne [= ->]]. rewrite insert_elem. intros [->|Hin] Hg.
      * exists w. split; [by left|]. unfold made_for. rewrite Ew. by split_and!.
      * destruct (Ho (mapped_type selector origType) o) as (w' & Hw & Hm); [|done|by exists w'; split; [right|]].
        unfold handlers_at. by destruct (ev_get _ _).
    + intros Hin Hg. destruct (Ho t o Hin Hg) as (w' & Hw & Hm). exists w'. by split; [right|].
Qed.

(** ** Removing *)

(** One turn of [remove] only takes handlers of ours away, and those it is for. *)
Definition takes_away (p : jstr -> handleObj -> bool) (s s' : estate) : Prop :=
  forall e t, handlers_at s' e t = List.filter (fun o => negb ((e =? elem)%nat && p t o)) (handlers_at s e t).

Lemma takes_away_refl p s : (forall t o, o ∈ handlers_at s elem t -> p t o = false) -> takes_away p s s.
Proof.
  intros Hp e t. rewrite List.forallb_filter_id; [done|]. apply forallb_forall. intros o Ho%list_elem_of_In.
  destruct (Nat.eqb_spec e elem) as [->|]; [|done]. by rewrite Hp.
Qed.

Lemma remove_type_takes sel mapped w s : plain_word w = true -> exists s', remove_type elem (Some (Some g)) sel mapped w s = (Ok tt, s') /\
  let '(origType, ns) := typenamespace w in
  takes_away (fun t o => bool_decide (t = mapped_type sel origType)
     && removes mapped origType ((fun _ => namespaces_of ns) <$> ns) (Some (Some g)) sel o) s s'.
Proof.
  unfold plain_word, remove_type. intros [_ Hpl]%andb_true_iff. destruct (typenamespace w) as [origType ns].
  cbn [snd] in Hpl. set (type := mapped_type sel origType). cbv zeta.
  assert ((match (fun _ : jstr => namespaces_of ns) <$> ns with Some l => check_names l | None => mret tt end) s = (Ok tt, s)) as Ec.
  { destruct ns; [|done]. by apply check_names_ok. }
  rewrite (sm_bind_eq _ _ _ _ _ Ec).
  set (q := removes _ _ _ _ _). rewrite sm_get_bind. destruct (ev_get (events_of s elem) type) as [l|] eqn:El.
  - assert (forall s1 d, edatas s1 = edatas s ->
      (match ev_get d type with Some l' => hl_handlers l' | None => [] end) = hl_handlers (remove_matching q l) ->
      (forall t, t <> type -> ev_get d t = ev_get (events_of s elem) t) ->
      takes_away (fun t o => bool_decide (t = type) && q o) s (set_events elem d s1)) as Hfin.
    { intros s1 d Es Ed Hoth e t. rewrite handlers_set. destruct (decide (e = elem)) as [->|Hne].
      - rewrite Nat.eqb_refl. cbn [andb]. destruct (decide (t = type)) as [->|Ht].
        + rewrite Ed. unfold handlers_at. rewrite El. apply List.filter_ext. intros o. by rewrite bool_decide_eq_true_2.
        + rewrite Hoth by done. rewrite bool_decide_eq_false_2 by done. symmetry. apply List.forallb_filter_id. by apply forallb_forall.
      - apply Nat.eqb_neq in Hne as ->. cbn [andb negb]. rewrite List.forallb_filter_id by (by apply forallb_forall).
        unfold handlers_at, events_of. by rewrite Es. }
    destruct (hl_handlers l) as [|o os] eqn:Eh; [|destruct (hl_handlers (remove_matching q l)) as [|o' os'] eqn:Er].
    + eexists. split; [done|]. apply Hfin; [done| |].
      * by rewrite ev_get_set, decide_True.
      * intros t Ht. rewrite ev_get_set. by rewrite decide_False.
    + eexists. split; [done|]. apply Hfin; [done| |].
      * by rewrite ev_get_delete, decide_True.
      * intros t Ht. rewrite ev_get_delete. by rewrite decide_False.
    + eexists. split; [done|]. apply Hfin; [done| |].
      * by rewrite ev_get_set, decide_True.
      * intros t Ht. rewrite ev_get_set. by rewrite decide_False.
  - exists s. split; [done|]. apply takes_away_refl. intros t o Hin. case_bool_decide as Et; [|done]. subst t.
    unfold handlers_at in Hin. rewrite El in Hin. by apply not_elem_of_nil in Hin.
Qed.

Lemma remove_end_handlers s : exists s', remove_end elem s = (Ok tt, s') /\ forall e t, handlers_at s' e t = handlers_at s e t.
Proof.
  unfold remove_end. rewrite sm_get_bind. case_bool_decide as Ed; [|by eexists]. eexists. split; [done|]. intros e t.
  unfold handlers_at, events_of in *. cbn [edatas set_edatas]. destruct (decide (e = elem)) as [->|Hne].
  - by rewrite lookup_delete_eq, Ed.
  - by rewrite lookup_delete_ne.
Qed.

(** Handlers of ours go, and nothing else changes. *)
Definition shrinks (s s' : estate) : Prop :=
  (forall e t, List.filter (others e) (handlers_at s' e t) = List.filter (others e) (handlers_at s e t))
  /\ (forall e t o, o ∈ handlers_at s' e t -> o ∈ handlers_at s e t).

Lemma shrinks_refl s : shrinks s s.
Proof. by split. Qed.

Lemma shrinks_trans s1 s2 s3 : shrinks s1 s2 -> shrinks s2 s3 -> shrinks s1 s3.
Proof. intros [H1 H2] [H3 H4]. split; [intros e t; by rewrite H3, H1|]. eauto. Qed.

Lemma shrinks_same s s' : (forall e t, handlers_at s' e t = handlers_at s e t) -> shrinks s s'.
Proof. intros E. split; intros e t; rewrite E; naive_solver. Qed.

Lemma takes_away_shrinks p s s' : (forall t o, p t o = true -> ho_guid o = g) -> takes_away p s s' -> shrinks s s'.
Proof.
  intros Hp Ht. split.
  - intros e t. rewrite Ht. induction (handlers_at s e t) as [|o l IH]; [done|]. cbn [List.filter].
    destruct (Nat.eqb_spec e elem) as [->|He]; cbn [andb negb List.filter] in *; [|by rewrite IH].
    destruct (p t o) eqn:Ep; cbn [negb List.filter]; [|by rewrite IH]. apply Hp in Ep.
    unfold others at 2. rewrite Ep, !Nat.eqb_refl. cbn [negb orb]. exact IH.
  - intros e t o. rewrite Ht. intros Hin%list_elem_of_In. apply filter_In in Hin as [Hin _]. by apply list_elem_of_In.
Qed.

Lemma removes_ours mapped origType names sel o : removes mapped origType names (Some (Some g)) sel o = true -> ho_guid o = g.
Proof. unfold removes. rewrite !andb_true_iff. intros [[[_ Hg] _] _]. apply bool_decide_eq_true in Hg. congruence. Qed.

(** A token of [off] takes away what [on] added for it. *)
Lemma remove_token_shrinks w s : plain_word w = true -> comes (remove_token elem (Some (Some g)) selector w) s (fun _ s' => shrinks s s'
  /\ forall t o, made_for w t o -> ho_guid o = g -> o ∉ handlers_at s' elem t).
Proof.
  intros Hpl. pose proof Hpl as [Hty%negb_true_iff%bool_decide_eq_false Hns]%andb_true_iff.
  unfold remove_token, made_for. destruct (remove_type_takes selector false w s Hpl) as (s' & E & Ht).
  rewrite decide_False by done. destruct (typenamespace w) as [origType ns] eqn:Ew. cbn [fst snd] in *. exists tt, s'.
  split; [done|]. split.
  - eapply takes_away_shrinks; [|exact Ht]. intros t o. cbv beta. rewrite andb_true_iff. intros [_ Hr]. by eapply removes_ours.
  - intros t o (_ & -> & Eo & En & Es) Eg. rewrite Ht. intros Hin%list_elem_of_In. apply filter_In in Hin as [_ Hp].
      rewrite Nat.eqb_refl, bool_decide_eq_true_2 in Hp by done. unfold removes in Hp. rewrite Eo, En, Es, Eg in Hp.
      rewrite !bool_decide_eq_true_2, (bool_decide_eq_true_2 (selector = selector)) in Hp by done.
      destruct ns as [ns|]; cbn [fmap option_fmap option_map andb] in Hp; rewrite ?ns_test_self in Hp by done;
        by destruct (bool_decide (selector = [])).
Qed.

(** ** Both *)

Lemma others_kept_shrinks s0 s s' : shrinks s s' -> others_kept s0 s -> others_kept s0 s'.
Proof. intros [Hs _] Hk e t. by rewrite Hs. Qed.

Lemma remove_tokens ws s0 : Forall (fun w => plain_word w = true) ws -> forall s, others_kept s0 s -> ours_for ws s ->
  comes (sm_each (remove_token elem (Some (Some g)) selector) ws) s (fun _ s' => others_kept s0 s' /\ ours_for [] s').
Proof.
  induction 1 as [|w ws Hpl _ IH]; intros s Hk Ho; cbn [sm_each]; [by apply comes_ret|].
  eapply comes_bind; [by apply remove_token_shrinks|]. intros ? s1 [Hs Hw]. apply IH; [by eapply others_kept_shrinks|].
  intros t o Hin Hg. destruct Hs as [_ Hs]. destruct (Ho t o (Hs _ _ _ Hin) Hg) as (w' & Hw' & Hm).
  apply elem_of_cons in Hw' as [->|Hw']; [|by exists w']. exfalso. by eapply Hw.
Qed.

Lemma add_words h data ws s0 : forall done_ s, others_kept s0 s -> ours_for done_ s ->
  comes (sm_each (add_type elem h g data selector) ws) s (fun _ s' => others_kept s0 s' /\ ours_for (rev ws ++ done_) s').
Proof.
  induction ws as [|w ws IH]; intros done_ s Hk Ho; cbn [sm_each rev]; [by apply comes_ret|].
  eapply comes_bind; [by apply add_type_keeps_others|]. intros ? s1 [Hk1 Ho1]. rewrite <-app_assoc. by apply IH.
Qed.

(** Without handlers of ours left, the lists are the old ones. *)
Lemma others_all s0 s : others_kept s0 s -> ours_for [] s -> forall e t, handlers_at s e t = handlers_at s0 e t.
Proof.
  intros Hk Ho e t. rewrite <-Hk. symmetry. apply List.forallb_filter_id. apply forallb_forall. intros o Hin%list_elem_of_In.
  unfold others. destruct (Nat.eqb_spec e elem) as [->|]; [|done]. destruct (Nat.eqb_spec (ho_guid o) g) as [Hg|]; [|done].
  destruct (Ho t o Hin Hg) as (w & Hw & _). by apply not_elem_of_nil in Hw.
Qed.

End off.

(** Lists with the same handlers are the same. *)
Lemma hlist_ok_eq l l' : hlist_ok l -> hlist_ok l' -> hl_handlers l = hl_handlers l' -> l = l'.
Proof.
  destruct l as [hs n], l' as [hs' n']. unfold hlist_ok. cbn [hl_handlers delegateCount]. intros (_ & Hn & Hd & Hr) (_ & Hn' & Hd' & Hr') <-. f_equal.
  assert (forall a b, (a <= length hs)%nat -> (b <= length hs)%nat -> Forall (fun o => ho_selector o = []) (drop a hs) ->
    Forall (fun o => ho_selector o <> []) (take b hs) -> ~ (a < b)%nat) as Hcmp.
  { intros a b Ha Hb Hda Htb Hlt. destruct (lookup_lt_is_Some_2 hs a) as [o Eo]; [lia|].
    assert (o ∈ drop a hs) as H1 by (apply list_elem_of_lookup; exists 0%nat; by rewrite lookup_drop, Nat.add_0_r).
    assert (o ∈ take b hs) as H2 by (apply elem_of_take; eauto).
    apply (proj1 (Forall_forall _ _) Htb o H2), (proj1 (Forall_forall _ _) Hda o H1). }
  pose proof (Hcmp n n' Hn Hn' Hr Hd'). pose proof (Hcmp n' n Hn' Hn Hr' Hd). lia.
Qed.

Lemma same_handlers `{EventHost} s s' : events_inv s -> events_inv s' -> (forall e t, handlers_at s' e t = handlers_at s e t) ->
  (forall e t, ev_get (events_of s' e) t = ev_get (events_of s e) t) /\ listeners s' = listeners s.
Proof.
  intros [Hl Hn] [Hl' Hn'] E.
  assert (forall e t, ev_get (events_of s' e) t = ev_get (events_of s e) t) as Ee.
  { intros e t. specialize (E e t). unfold handlers_at in E.
    destruct (ev_get (events_of s e) t) as [l|] eqn:El, (ev_get (events_of s' e) t) as [l'|] eqn:El'; [|..|done].
    - f_equal. apply hlist_ok_eq; eauto.
    - pose proof (Hl _ _ _ El) as (Hne & _). by destruct Hne.
    - pose proof (Hl' _ _ _ El') as (Hne & _). by destruct Hne. }
  split; [done|]. apply set_eq. intros [e t]. by rewrite Hn, Hn', Ee.
Qed.

Section both.
Context `{EventHost}.

Lemma comes_keeps {A} (m : SM estate A) P s (Q : A -> estate -> Prop) : sm_keeps P m -> P s -> comes m s Q -> comes m s (fun a s' => Q a s' /\ P s').
Proof. intros Hk Hs (a & s' & E & HQ). exists a, s'. split; [done|]. split; [done|]. pose proof (Hk s Hs) as Hk'. by rewrite E in Hk'. Qed.

(** Adding keeps the numbers of functions, and the element has its data. *)
Definition numbered (elem : nat) (G : gmap handler nat) (s : estate) : Prop := guids s = G /\ is_Some (edatas s !! elem).

Lemma add_words_numbered elem h g data selector ws G :
  sm_keeps (numbered elem G) (sm_each (add_type elem h g data selector) ws).
Proof.
  apply keeps_each. intros w s [HG Hs]. destruct (add_type_handlers elem selector g h data w s) as (s' & E & _). rewrite E. cbn [snd].
  assert (guids (add_type elem h g data selector w s).2 = guids s /\ is_Some (edatas (add_type elem h g data selector w s).2 !! elem)) as [? ?].
  { unfold add_type. destruct (typenamespace w) as [origType ns]. case_decide; [done|]. rewrite sm_get_bind.
    assert (forall s1 d, is_Some (edatas (set_events elem d s1) !! elem)) as Hset.
    { intros s1 d. unfold set_events. cbn [edatas set_edatas]. rewrite lookup_insert_eq. by eexists. }
    destruct (ev_get _ _); [rewrite sm_ret_bind|unfold mbind, sm_bind; destruct (has_listeners elem)]; split; try done; apply Hset. }
  rewrite E in *. split; [by rewrite <-HG|done].
Qed.

Lemma ensure_guid_comes h s : comes (ensure_guid h) s (fun g s' => guid_of s' h = Some g /\ edatas s' = edatas s /\ listeners s' = listeners s
  /\ (guid_of s h = Some g \/ guid_of s h = None /\ g = guid s)).
Proof.
  unfold ensure_guid. apply comes_get_bind. destruct (guid_of s h) as [g|] eqn:E.
  - apply comes_ret. split_and!; try done. by left.
  - apply comes_get_bind, comes_mod_bind, comes_ret. split_and!; [|done..|by right].
    unfold guid_of. cbn [guids set_guids]. apply lookup_insert_eq.
Qed.

Lemma on_off_comes elem types selector data h s : forallb plain_word (type_words types) = true ->
  acceptData elem = true -> selector = [] \/ check_selector selector = Ok tt ->
  (forall t o, o ∈ handlers_at s elem t -> (ho_guid o < guid s)%nat /\ guid_of s h <> Some (ho_guid o)) ->
  comes (event_add elem types h data selector ;; event_remove elem types (Some h) selector) s
    (fun _ s' => forall e t, handlers_at s' e t = handlers_at s e t).
Proof.
  intros Hpl Hacc Hsel Hfresh. unfold event_add. rewrite Hacc.
  eapply (comes_bind _ _ _ (fun _ s1 => exists g, others_kept elem g s s1 /\ ours_for elem selector g (type_words types) s1
    /\ guid_of s1 h = Some g /\ is_Some (edatas s1 !! elem))).
  - eapply (comes_bind _ _ _ (fun _ s1 => s1 = s)).
    { destruct (decide (selector = [])); [by apply comes_ret|]. destruct Hsel as [?|Hsel]; [done|]. rewrite Hsel. by eexists _, _. }
    intros ? ? ->. eapply comes_bind; [apply ensure_guid_comes|]. intros g s1 (Hg & Hed & _ & Hwhich). apply comes_mod_bind.
    set (s2 := set_events elem (events_of s1 elem) s1).
    assert (forall e t, handlers_at s2 e t = handlers_at s e t) as E2.
    { intros e t. unfold s2. rewrite handlers_set. unfold handlers_at, events_of. rewrite Hed. by case_decide; subst. }
    assert (numbered elem (guids s1) s2) as Hnum.
    { split; [done|]. unfold s2, set_events. cbn [edatas set_edatas]. rewrite lookup_insert_eq. by eexists. }
    eapply comes_mono; [eapply comes_keeps; [apply add_words_numbered|exact Hnum|]|].
    + apply (add_words elem selector g h data _ s []).
      * intros e t. rewrite E2. apply List.forallb_filter_id, forallb_forall. intros o Hin%list_elem_of_In. unfold others.
        destruct (Nat.eqb_spec e elem) as [->|]; [|done]. destruct (Nat.eqb_spec (ho_guid o) g) as [Eg|]; [|done].
        destruct (Hfresh t o Hin) as [Hlt Hne]. destruct Hwhich as [Hw|[_ Hw]]; [|lia]. by rewrite Hw, Eg in Hne.
      * intros t o. rewrite E2. intros Hin Eg. destruct (Hfresh t o Hin) as [Hlt Hne].
        destruct Hwhich as [Hw|[_ Hw]]; [|lia]. by rewrite Hw, Eg in Hne.
    + cbv beta. intros ? s3 [[Hk Ho] [HG Hs]]. exists g. rewrite rev_involutive, app_nil_r in Ho. split_and!; [done..| |done].
      unfold guid_of. rewrite HG. exact Hg.
  - intros ? s1 (g & Hk & Ho & Hg & [d Hd]). unfold event_remove. apply comes_get_bind. rewrite Hd. apply comes_get_bind.
    change (guid_of s1 <$> Some h) with (Some (guid_of s1 h)). rewrite Hg.
    eapply comes_bind; [eapply (remove_tokens elem selector g (rev (type_words types))); [|exact Hk|]|].
    + apply Forall_forall. intros w Hw%list_elem_of_In. rewrite <-in_rev in Hw. by eapply forallb_forall.
    + intros t o Hin Eg. destruct (Ho t o Hin Eg) as (w & Hw & Hm). exists w. split; [|done].
      apply list_elem_of_In. rewrite <-in_rev. by apply list_elem_of_In.
    + cbv beta. intros ? s2 [Hk2 Ho2]. destruct (remove_end_handlers elem s2) as (s3 & E & Hs3). exists tt, s3. split; [done|].
      intros e t. rewrite Hs3. by eapply others_all.
Qed.

Context (user : N -> eval -> list eval -> eprog) (native_method : nat -> jstr -> eprog).

(** C21: [off] undoes [on]: binding a function to any list of types, each with any
    namespaces (made of characters that mean nothing in regular expressions, since
    [off] does not escape them), for a selector that is valid or none, and unbinding it with the same arguments leaves the handlers of
    every element and the listeners of the browser as they were, if the function was
    not bound to the element before. *)
Theorem off_undoes_on fuel elem types selector data h s :
  events_inv s -> acceptData elem = true -> forallb plain_word (type_words types) = true ->
  selector = [] \/ check_selector selector = Ok tt ->
  (forall t o, o ∈ handlers_at s elem t -> (ho_guid o < guid s)%nat /\ guid_of s h <> Some (ho_guid o)) ->
  exists s', run_main user native_method fuel
      (POp (OOn [elem] types selector data h) (fun _ => POp (OOff [elem] types selector (Some h)) PRet PThrow) PThrow) s
    = (Ok (XElems [elem]), s')
  /\ (forall e t, ev_get (events_of s' e) t = ev_get (events_of s e) t) /\ listeners s' = listeners s.
Proof.
  intros Hinv Hacc Hpl Hsel Hfresh. set (p := POp _ _ _).
  assert (comes (run_main user native_method fuel p) s (fun v s' => v = XElems [elem] /\ forall e t, handlers_at s' e t = handlers_at s e t)) as Hc.
  { destruct (on_off_comes elem types selector data h s Hpl Hacc Hsel Hfresh) as ([] & s' & E & Hs').
    apply sm_bind_inv in E as ([] & s1 & E1 & E2). exists (XElems [elem]), s'. split; [|by split].
    unfold run_main, p. cbn [run_prog]. unfold exec. cbn [do_op]. unfold fn_on, fn_off. cbn [sm_each].
    unfold mbind, sm_bind. rewrite E1. cbn. by rewrite E2. }
  destruct (comes_of _ _ _ _ Hc) as (s' & E & Hs'). exists s'. split; [done|]. apply same_handlers; [done| |done].
  pose proof (run_main_keeps user native_method fuel p s Hinv) as Hk. by rewrite E in Hk.
Qed.

End both.

#[local] Existing Instance page_host.

Lemma off_undoes_on_witness : exists s', run_main (fun _ _ _ => PRet XUndef) (fun _ _ => PRet XUndef) 0
    (POp (OOn [2%nat] (str "click.b.a keyup click") (str ".a") XUndef (HUser 22))
       (fun _ => POp (OOff [2%nat] (str "click.b.a keyup click") (str ".a") (Some (HUser 22))) PRet PThrow) PThrow) fresh_page
    = (Ok (XElems [2%nat]), s')
  /\ (forall e t, ev_get (events_of s' e) t = ev_get (events_of fresh_page e) t) /\ listeners s' = listeners fresh_page.
Proof.
  apply off_undoes_on.
  - apply run_main_keeps, events_inv0.
  - reflexivity.
  - vm_compute. reflexivity.
  - right. reflexivity.
  - intros t o. destruct (decide (t = str "click")) as [->|Ht].
    + intros Ho. apply (proj1 (Forall_forall (fun o => (ho_guid o < guid fresh_page)%nat /\ guid_of fresh_page (HUser 22) <> Some (ho_guid o))
        (handlers_at fresh_page 2 (str "click")))); [vm_compute; repeat constructor; discriminate|exact Ho].
    + unfold handlers_at. assert (ev_get (events_of fresh_page 2) t = None) as ->; [|set_solver].
      assert (exists l, events_of fresh_page 2 = [(str "click", l)]) as [l ->] by (vm_compute; eexists; reflexivity).
      cbn [ev_get]. by rewrite decide_False.
Defined.
