(* ===== verification/JsDate.v ===== *)
(** * Dates of the language

    Date objects as the language specifies them: time values in milliseconds
    since 1970, the proleptic Gregorian calendar, and the local time zone as an
    interface, with daylight saving time. *)

From S2P Require Import Prelude JsNum.

(** ** The calendar *)

Definition msPerDay : Z := 86400000.
Definition msPerHour : Z := 3600000.

(** The day on which year [y] starts. *)
Definition DayFromYear (y : Z) : Z :=
  365 * (y - 1970) + (y - 1969) / 4 - (y - 1901) / 100 + (y - 1601) / 400.

Definition leap_year (y : Z) : bool :=
  (y mod 4 =? 0) && (negb (y mod 100 =? 0) || (y mod 400 =? 0)).

(** The year that contains a day: an estimate from the mean year, corrected. *)
Definition YearFromDay (d : Z) : Z :=
  let y := 1970 + (400 * d) / 146097 in
  if d <? DayFromYear y then y - 1 else if DayFromYear (y + 1) <=? d then y + 1 else y.

(** The day of the year on which month [m] starts; [m] from 0 to 12. *)
Definition month_start (leap : bool) (m : Z) : Z :=
  let l := if leap then 1 else 0 in
  match m with
  | 0 => 0 | 1 => 31 | 2 => 59 + l | 3 => 90 + l | 4 => 120 + l | 5 => 151 + l
  | 6 => 181 + l | 7 => 212 + l | 8 => 243 + l | 9 => 273 + l | 10 => 304 + l
  | 11 => 334 + l | _ => 365 + l
  end.

Definition month_of (leap : bool) (n : Z) : Z :=
  let before m := n <? month_start leap m in
  if before 1 then 0 else if before 2 then 1 else if before 3 then 2 else
  if before 4 then 3 else if before 5 then 4 else if before 6 then 5 else
  if before 7 then 6 else if before 8 then 7 else if before 9 then 8 else
  if before 10 then 9 else if before 11 then 10 else 11.

Definition DayWithinYear (d : Z) : Z := d - DayFromYear (YearFromDay d).
Definition MonthFromDay (d : Z) : Z := month_of (leap_year (YearFromDay d)) (DayWithinYear d).
Definition DateFromDay (d : Z) : Z :=
  DayWithinYear d - month_start (leap_year (YearFromDay d)) (MonthFromDay d) + 1.
Definition WeekDay (d : Z) : Z := (d + 4) mod 7.

(** [MakeDay]: the month may lie outside the year, the date outside the month. *)
Definition MakeDay (y m dt : Z) : Z :=
  let ym := y + m / 12 in
  DayFromYear ym + month_start (leap_year ym) (m mod 12) + dt - 1.

Definition days_in_month (y m : Z) : Z :=
  month_start (leap_year y) (m + 1) - month_start (leap_year y) m.

(** *** Laws *)

Lemma DayFromYear_succ y : DayFromYear (y + 1) = DayFromYear y + 365 + (if leap_year y then 1 else 0).
Proof.
  unfold DayFromYear, leap_year.
  destruct (y mod 4 =? 0) eqn:E4, (y mod 100 =? 0) eqn:E100, (y mod 400 =? 0) eqn:E400;
    cbn; bool_hyps; dlia.
Qed.

Lemma DayFromYear_mono y y' : y <= y' -> DayFromYear y <= DayFromYear y'.
Proof. unfold DayFromYear. intros Hy. dlia. Qed.

(** The mean year, to within two days. *)
Lemma DayFromYear_bounds y :
  146097 * (y - 1970) - 600 <= 400 * DayFromYear y <= 146097 * (y - 1970) + 600.
Proof. unfold DayFromYear. dlia. Qed.

Lemma YearFromDay_spec d : DayFromYear (YearFromDay d) <= d < DayFromYear (YearFromDay d + 1).
Proof.
  unfold YearFromDay. cbv zeta.
  pose proof (Z.mul_div_le (400 * d) 146097 ltac:(lia)). pose proof (Z.mul_succ_div_gt (400 * d) 146097 ltac:(lia)).
  generalize dependent ((400 * d) / 146097). intros q Hq1 Hq2. set (y := 1970 + q).
  assert (DayFromYear (y - 1) <= d < DayFromYear (y + 2)) as Hy.
  { destruct (DayFromYear_bounds (y - 1)), (DayFromYear_bounds (y + 2)). unfold y in *. lia. }
  destruct (d <? DayFromYear y) eqn:E; bool_hyps; [replace (y - 1 + 1) with y; lia|].
  destruct (DayFromYear (y + 1) <=? d) eqn:E'; bool_hyps; [|lia].
  replace (y + 1 + 1) with (y + 2); lia.
Qed.

Lemma YearFromDay_unique d y : DayFromYear y <= d < DayFromYear (y + 1) -> YearFromDay d = y.
Proof.
  intros Hy. pose proof (YearFromDay_spec d) as Hd.
  destruct (Z.lt_trichotomy (YearFromDay d) y) as [H|[H|H]]; [|done|].
  - pose proof (DayFromYear_mono (YearFromDay d + 1) y). lia.
  - pose proof (DayFromYear_mono (y + 1) (YearFromDay d)). lia.
Qed.

(** A month number from 0 to 11, for case analysis. *)
Lemma month_cases m : 0 <= m < 12 -> m = 0 \/ m = 1 \/ m = 2 \/ m = 3 \/ m = 4 \/ m = 5 \/ m = 6
  \/ m = 7 \/ m = 8 \/ m = 9 \/ m = 10 \/ m = 11.
Proof. lia. Qed.

Ltac month_case m Hm :=
  destruct (month_cases m Hm) as [->|[->|[->|[->|[->|[->|[->|[->|[->|[->|[->| ->]]]]]]]]]]].

(** The month is the first whose successor starts later. *)
Lemma month_of_chain (P : Z -> Prop) leap n :
  (forall m, 0 <= m < 12 -> (m = 0 \/ month_start leap m <= n) -> (m = 11 \/ n < month_start leap (m + 1)) -> P m) ->
  P (month_of leap n).
Proof.
  intros HP. unfold month_of. cbv zeta.
  destruct (n <? month_start leap 1) eqn:E1; bool_hyps; [apply HP; [lia|first [by left|by right]..]|].
  destruct (n <? month_start leap 2) eqn:E2; bool_hyps; [apply HP; [lia|first [by left|by right]..]|].
  destruct (n <? month_start leap 3) eqn:E3; bool_hyps; [apply HP; [lia|first [by left|by right]..]|].
  destruct (n <? month_start leap 4) eqn:E4; bool_hyps; [apply HP; [lia|first [by left|by right]..]|].
  destruct (n <? month_start leap 5) eqn:E5; bool_hyps; [apply HP; [lia|first [by left|by right]..]|].
  destruct (n <? month_start leap 6) eqn:E6; bool_hyps; [apply HP; [lia|first [by left|by right]..]|].
  destruct (n <? month_start leap 7) eqn:E7; bool_hyps; [apply HP; [lia|first [by left|by right]..]|].
  destruct (n <? month_start leap 8) eqn:E8; bool_hyps; [apply HP; [lia|first [by left|by right]..]|].
  destruct (n <? month_start leap 9) eqn:E9; bool_hyps; [apply HP; [lia|first [by left|by right]..]|].
  destruct (n <? month_start leap 10) eqn:E10; bool_hyps; [apply HP; [lia|first [by left|by right]..]|].
  destruct (n <? month_start leap 11) eqn:E11; bool_hyps; apply HP; (lia || first [by left|by right]).
Qed.

Lemma month_start_mono leap m m' : 0 <= m <= m' -> m' <= 12 -> month_start leap m <= month_start leap m'.
Proof.
  intros Hm Hm'. assert (forall k, 0 <= k < 12 -> month_start leap k <= month_start leap (k + 1)) as Hstep
    by (intros k Hk; destruct leap; month_case k Hk; by vm_compute).
  assert (forall k : nat, m + Z.of_nat k <= 12 -> month_start leap m <= month_start leap (m + Z.of_nat k)) as Hk.
  { induction k as [|k IH]; intros Hk; [rewrite Z.add_0_r; lia|].
    etrans; [apply IH; lia|]. replace (m + Z.of_nat (S k)) with (m + Z.of_nat k + 1) by lia. apply Hstep. lia. }
  specialize (Hk (Z.to_nat (m' - m))). rewrite Z2Nat.id in Hk by lia. replace (m + (m' - m)) with m' in Hk by lia.
  apply Hk. lia.
Qed.

Lemma month_of_spec leap n : 0 <= n < month_start leap 12 ->
  let m := month_of leap n in 0 <= m < 12 /\ month_start leap m <= n < month_start leap (m + 1).
Proof.
  intros Hn m. subst m. apply month_of_chain. intros m Hm H1 H2. split; [done|]. split.
  - destruct H1 as [->|H1]; [change (month_start leap 0) with 0; lia|done].
  - destruct H2 as [->|H2]; [change (11 + 1) with 12; lia|done].
Qed.

Lemma month_of_start leap m n : 0 <= m < 12 -> month_start leap m <= n < month_start leap (m + 1) ->
  month_of leap n = m.
Proof.
  intros Hm Hn. apply month_of_chain. intros m' Hm' H1 H2.
  destruct (Z.lt_trichotomy m' m) as [H|[H|H]]; [|done|].
  - destruct H2 as [->|H2]; [lia|]. pose proof (month_start_mono leap (m' + 1) m). lia.
  - destruct H1 as [->|H1]; [lia|]. pose proof (month_start_mono leap (m + 1) m'). lia.
Qed.

Lemma days_in_month_table y m : 0 <= m < 12 ->
  days_in_month y m = match m with
    | 1 => if leap_year y then 29 else 28
    | 3 | 5 | 8 | 10 => 30
    | _ => 31
    end.
Proof. intros Hm. unfold days_in_month. destruct (leap_year y); by month_case m Hm. Qed.

Lemma days_in_month_bounds y m : 0 <= m < 12 -> 28 <= days_in_month y m <= 31.
Proof. intros Hm. rewrite days_in_month_table by done. destruct (leap_year y); by month_case m Hm. Qed.

(** A civil date. *)
Definition valid_date (y m dt : Z) : Prop := 0 <= m < 12 /\ 1 <= dt <= days_in_month y m.

Lemma year_length y : DayFromYear (y + 1) - DayFromYear y = month_start (leap_year y) 12.
Proof. rewrite DayFromYear_succ. destruct (leap_year y); cbn; lia. Qed.

Lemma month_start_bounds leap m : 0 <= m < 12 ->
  0 <= month_start leap m /\ month_start leap (m + 1) <= month_start leap 12.
Proof. intros Hm. destruct leap; month_case m Hm; split; by vm_compute. Qed.

(** The fields of [MakeDay y m dt] are [y], [m] and [dt]. *)
Lemma fields_of_date y m dt : valid_date y m dt ->
  YearFromDay (MakeDay y m dt) = y /\ MonthFromDay (MakeDay y m dt) = m /\ DateFromDay (MakeDay y m dt) = dt.
Proof.
  intros [Hm Hdt]. unfold MakeDay. rewrite Z.div_small, Z.mod_small by done. rewrite Z.add_0_r.
  unfold days_in_month in Hdt. pose proof (month_start_bounds (leap_year y) m Hm). pose proof (year_length y).
  set (d := DayFromYear y + month_start (leap_year y) m + dt - 1).
  assert (YearFromDay d = y) as Hy by (apply YearFromDay_unique; unfold d; lia).
  assert (DayWithinYear d = month_start (leap_year y) m + dt - 1) as Hw by (unfold DayWithinYear; rewrite Hy; unfold d; lia).
  assert (MonthFromDay d = m) as Hmd.
  { unfold MonthFromDay. rewrite Hy, Hw. apply month_of_start; [done|lia]. }
  split_and!; [done|done|]. unfold DateFromDay. rewrite Hy, Hmd, Hw. lia.
Qed.

(** The fields of a day are a civil date, and denote the day. *)
Lemma date_of_fields d :
  valid_date (YearFromDay d) (MonthFromDay d) (DateFromDay d) /\
  MakeDay (YearFromDay d) (MonthFromDay d) (DateFromDay d) = d.
Proof.
  pose proof (YearFromDay_spec d) as Hd. pose proof (year_length (YearFromDay d)) as Hl.
  destruct (month_of_spec (leap_year (YearFromDay d)) (DayWithinYear d)) as [Hm Hs].
  { unfold DayWithinYear. lia. }
  fold (MonthFromDay d) in Hm, Hs. split.
  - split; [done|]. unfold days_in_month, DateFromDay. lia.
  - unfold MakeDay. rewrite Z.div_small, Z.mod_small, Z.add_0_r by done. unfold DateFromDay, DayWithinYear. lia.
Qed.

(** Moving the date moves the day. *)
Lemma MakeDay_add y m dt k : MakeDay y m (dt + k) = MakeDay y m dt + k.
Proof. unfold MakeDay. lia. Qed.

(** A month outside the year. *)
Lemma MakeDay_month y m dt : MakeDay y m dt = MakeDay (y + m / 12) (m mod 12) dt.
Proof.
  unfold MakeDay. rewrite (Z.div_small (m mod 12)), Z.mod_mod, Z.add_0_r by (try apply Z.mod_pos_bound; lia). done.
Qed.

(** The days of a year, counted from its start. *)
Lemma MakeDay_year y dt : MakeDay y 0 dt = DayFromYear y + dt - 1.
Proof. unfold MakeDay. change (0 / 12) with 0. change (0 mod 12) with 0. by rewrite !Z.add_0_r. Qed.

(** The first of the month after the first of a month. *)
Lemma next_month y m : 0 <= m < 12 -> MakeDay y m 1 + days_in_month y m = MakeDay y (m + 1) 1.
Proof.
  intros Hm. unfold days_in_month. destruct (decide (m = 11)) as [->|Hne].
  - rewrite (MakeDay_month y (11 + 1)). change ((11 + 1) / 12) with 1. change ((11 + 1) mod 12) with 0.
    unfold MakeDay. change (11 / 12) with 0. change (11 mod 12) with 11. change (0 / 12) with 0. change (0 mod 12) with 0.
    change (11 + 1) with 12. rewrite !Z.add_0_r. change (month_start _ 0) with 0. pose proof (year_length y). lia.
  - unfold MakeDay. rewrite !Z.div_small, !Z.mod_small, !Z.add_0_r by lia. lia.
Qed.

(** Consecutive months, in any year. *)
Lemma month_succ y m : MakeDay y (m + 1) 1 = MakeDay y m 1 + days_in_month (y + m / 12) (m mod 12).
Proof.
  pose proof (Z.mod_pos_bound m 12 ltac:(done)) as Hm.
  rewrite (MakeDay_month y m), (MakeDay_month y (m + 1)), next_month by done.
  rewrite (MakeDay_month (y + m / 12) (m mod 12 + 1)).
  assert (m + 1 = 12 * (m / 12) + (m mod 12 + 1)) as E by (pose proof (Z.div_mod m 12); lia).
  f_equal; rewrite E at 1; clear E.
  - rewrite (Z.mul_comm 12), Z.div_add_l by done. lia.
  - rewrite Z.add_comm, (Z.mul_comm 12), Z_mod_plus_full. done.
Qed.

Lemma MakeDay_years y m dt : 0 <= m -> DayFromYear y + dt - 1 <= MakeDay y m dt.
Proof.
  intros Hm. unfold MakeDay. pose proof (Z.mod_pos_bound m 12 ltac:(done)) as Hm'.
  pose proof (DayFromYear_mono y (y + m / 12) ltac:(pose proof (Z.div_pos m 12); lia)).
  destruct (month_start_bounds (leap_year (y + m / 12)) (m mod 12) Hm'). lia.
Qed.

(** Every civil day from year 1 to year 200000, give or take some years, is in range. *)
Lemma MakeDay_range y m dt : 1 <= y <= 200000 -> -1000 <= m <= 1000 -> -100000 <= dt <= 100000 ->
  Z.abs (MakeDay y m dt) <= 99999990.
Proof.
  intros Hy Hm Hdt. unfold MakeDay. pose proof (Z.mod_pos_bound m 12 ltac:(done)) as Hm'.
  assert (-84 <= m / 12 <= 84) as Hq by dlia.
  destruct (month_start_bounds (leap_year (y + m / 12)) (m mod 12) Hm').
  assert (month_start (leap_year (y + m / 12)) 12 <= 366) by (by destruct (leap_year (y + m / 12))).
  pose proof (month_start_mono (leap_year (y + m / 12)) (m mod 12) 12). pose proof (DayFromYear_bounds (y + m / 12)). lia.
Qed.

(** ** Date objects

    A date is a time value, or [None] for an invalid date; its fields are those of
    the local time.  The time zone is the host's: [tz_offset t] is the offset of
    local time at the instant [t], [tz_utc l] the instant that the host chooses
    for the local time [l]. *)

Class TimeZone := { tz_offset : Z -> Z; tz_utc : Z -> Z }.

Abbreviation date := (option Z).

Section dates.
Context `{TimeZone}.

Definition LocalTime (t : Z) : Z := t + tz_offset t.

Definition Day (t : Z) : Z := t / msPerDay.
Definition TimeWithinDay (t : Z) : Z := t mod msPerDay.
Definition HourFromTime (t : Z) : Z := (t / msPerHour) mod 24.
Definition MinFromTime (t : Z) : Z := (t / 60000) mod 60.
Definition SecFromTime (t : Z) : Z := (t / 1000) mod 60.
Definition msFromTime (t : Z) : Z := t mod 1000.

Definition MakeTime (h m s ms : Z) : Z := h * msPerHour + m * 60000 + s * 1000 + ms.
Definition MakeDate (day time : Z) : Z := day * msPerDay + time.

Definition TimeClip (t : Z) : date := if Z.abs t <=? 8640000000000000 then Some t else None.

(** [new Date(year, month, day)]; years from 0 to 99 are of the twentieth century. *)
Definition MakeFullYear (y : Z) : Z := if (0 <=? y) && (y <=? 99) then 1900 + y else y.

Definition new_Date (y m dt : num) : date :=
  match y, m, dt with
  | Fin y, Fin m, Fin dt => TimeClip (tz_utc (MakeDate (MakeDay (MakeFullYear y) m dt) 0))
  | _, _, _ => None
  end.

(** [new Date(value)]. *)
Definition date_of_time (v : num) : date := match v with Fin t => TimeClip t | _ => None end.

Definition getTime (d : date) : num := match d with Some t => Fin t | None => NaN end.

Definition local_field (f : Z -> Z) (d : date) : num :=
  match d with Some t => Fin (f (LocalTime t)) | None => NaN end.

Definition getFullYear : date -> num := local_field (fun t => YearFromDay (Day t)).
Definition getMonth : date -> num := local_field (fun t => MonthFromDay (Day t)).
Definition getDate : date -> num := local_field (fun t => DateFromDay (Day t)).
Definition getDay : date -> num := local_field (fun t => WeekDay (Day t)).
Definition getHours : date -> num := local_field HourFromTime.

(** A setter: [f] computes the new local time from the old one. *)
Definition set_local (f : Z -> Z) (d : date) : date :=
  match d with Some t => TimeClip (tz_utc (f (LocalTime t))) | None => None end.

Definition setter (f : Z -> Z -> Z) (d : date) (v : num) : date :=
  match v with Fin v => set_local (f v) d | _ => None end.

Definition setDate : date -> num -> date := setter (fun dt t =>
  MakeDate (MakeDay (YearFromDay (Day t)) (MonthFromDay (Day t)) dt) (TimeWithinDay t)).

Definition setMonth : date -> num -> date := setter (fun m t =>
  MakeDate (MakeDay (YearFromDay (Day t)) m (DateFromDay (Day t))) (TimeWithinDay t)).

Definition setHours : date -> num -> date := setter (fun h t =>
  MakeDate (Day t) (MakeTime h (MinFromTime t) (SecFromTime t) (msFromTime t))).

Definition setMinutes : date -> num -> date := setter (fun m t =>
  MakeDate (Day t) (MakeTime (HourFromTime t) m (SecFromTime t) (msFromTime t))).

Definition setSeconds : date -> num -> date := setter (fun s t =>
  MakeDate (Day t) (MakeTime (HourFromTime t) (MinFromTime t) s (msFromTime t))).

Definition setMilliseconds : date -> num -> date := setter (fun ms t =>
  MakeDate (Day t) (MakeTime (HourFromTime t) (MinFromTime t) (SecFromTime t) ms)).

(** The comparison [a < b] of two dates. *)
Definition date_lt (a b : date) : bool := Num.lt (getTime a) (getTime b).

(** The local day of a valid date. *)
Definition local_day (t : Z) : Z := Day (LocalTime t).

Lemma getFullYear_Some t : getFullYear (Some t) = Fin (YearFromDay (local_day t)).
Proof. done. Qed.

Lemma getMonth_Some t : getMonth (Some t) = Fin (MonthFromDay (local_day t)).
Proof. done. Qed.

Lemma getDate_Some t : getDate (Some t) = Fin (DateFromDay (local_day t)).
Proof. done. Qed.
End dates.

#[export] Hint Rewrite @getFullYear_Some @getMonth_Some @getDate_Some : jslib.

(** What the code relies on of the time zone: a local time that occurs is the
    local time of the instant chosen for it; clocks go forward and back by at
    most an hour, which a local time that is skipped is moved by, either way; an
    hour after a skipped time that was moved back, the clock is regular; offsets
    are within a day, and differ by at most two hours. *)
Class TimeZoneLaws `{TimeZone} : Prop := {
  tz_exact : forall t, LocalTime (tz_utc (LocalTime t)) = LocalTime t;
  tz_gap : forall l, - msPerHour <= LocalTime (tz_utc l) - l <= msPerHour;
  tz_back : forall l, LocalTime (tz_utc l) < l -> LocalTime (tz_utc (l + msPerHour)) = l + msPerHour;
  tz_bound : forall t, - msPerDay < tz_offset t < msPerDay;
  tz_spread : forall t t', tz_offset t - tz_offset t' <= 2 * msPerHour
}.

(** A zone in which clocks go forward by an hour at the local midnight that
    starts day [n], where the host moves skipped times back. *)
Definition summer_zone (n : Z) : TimeZone := {|
  tz_offset t := if t <? n * msPerDay then 0 else msPerHour;
  tz_utc l := if l <? n * msPerDay then l else l - msPerHour
|}.

Lemma summer_laws n : @TimeZoneLaws (summer_zone n).
Proof.
  constructor; unfold LocalTime; cbn; unfold msPerHour, msPerDay; intros; repeat case_match; bool_hyps; lia.
Qed.

Section laws.
Context `{TimeZoneLaws}.

(** The days for which every computation here stays within the time values. *)
Definition day_in_range (d : Z) : Prop := Z.abs d <= 99999990.

Lemma clip_utc l : Z.abs l <= 99999990 * msPerDay + 30 * msPerHour -> TimeClip (tz_utc l) = Some (tz_utc l).
Proof.
  intros Hl. unfold TimeClip. pose proof (tz_gap l) as Hg. unfold LocalTime in Hg. pose proof (tz_bound (tz_utc l)).
  rewrite (proj2 (Z.leb_le _ _)); [done|]. unfold msPerDay, msPerHour in *. lia.
Qed.

(** [new Date(y, m, d)] on civil fields. *)
Lemma new_Date_Some y m dt : day_in_range (MakeDay (MakeFullYear y) m dt) ->
  new_Date (Fin y) (Fin m) (Fin dt) = Some (tz_utc (MakeDay (MakeFullYear y) m dt * msPerDay)).
Proof.
  intros Hd. unfold new_Date, MakeDate. rewrite Z.add_0_r. apply clip_utc. unfold day_in_range, msPerDay, msPerHour in *. lia.
Qed.

Lemma MakeFullYear_id y : 100 <= y -> MakeFullYear y = y.
Proof. intros Hy. unfold MakeFullYear. by rewrite (proj2 (Z.leb_gt y 99)) by lia; rewrite andb_false_r. Qed.
End laws.
