(* ===== verification/DateFormat.v ===== *)
(** * Dates as text: formatDate, parseDate, _possibleChars of the date picker

    The date formats of jquery-ui.js.  A format is scanned from left to right;
    the model keeps what remains of it, the current character first, where the
    code keeps the index [iFormat]. *)

From S2P Require Import Prelude JsNum JsDate.

(** ** Settings *)

(** [shortYearCutoff] is a number of the century, or a string that is added to
    the current year. *)
Inductive cutoff := CutNum (n : num) | CutStr (s : jstr).

(** What the callers pass as [settings]; [None] is a missing property. *)
Record format_settings := FormatSettings {
  s_shortYearCutoff : option cutoff;
  s_dayNamesShort : option (list jstr);
  s_dayNames : option (list jstr);
  s_monthNamesShort : option (list jstr);
  s_monthNames : option (list jstr)
}.

(** The settings in use: [_defaults], or those and the caller's. *)
Record format_names := FormatNames {
  shortYearCutoff : cutoff;
  dayNamesShort : list jstr;
  dayNames : list jstr;
  monthNamesShort : list jstr;
  monthNames : list jstr
}.

Definition regional_en : format_names := FormatNames (CutStr (str "+10"))
  (List.map str ["Sun"; "Mon"; "Tue"; "Wed"; "Thu"; "Fri"; "Sat"])
  (List.map str ["Sunday"; "Monday"; "Tuesday"; "Wednesday"; "Thursday"; "Friday"; "Saturday"])
  (List.map str ["Jan"; "Feb"; "Mar"; "Apr"; "May"; "Jun"; "Jul"; "Aug"; "Sep"; "Oct"; "Nov"; "Dec"])
  (List.map str ["January"; "February"; "March"; "April"; "May"; "June"; "July"; "August"; "September";
     "October"; "November"; "December"]).

Definition cutoff_truthy (c : cutoff) : bool :=
  match c with CutNum n => Num.truthy n | CutStr s => bool_decide (s <> []) end.

(** [( settings ? settings.x : null ) || this._defaults.x] for each [x]. *)
Definition with_defaults (defaults : format_names) (settings : option format_settings) : format_names :=
  match settings with
  | None => defaults
  | Some s => FormatNames
      (match s_shortYearCutoff s with
       | Some c => if cutoff_truthy c then c else shortYearCutoff defaults
       | None => shortYearCutoff defaults
       end)
      (default (dayNamesShort defaults) (s_dayNamesShort s))
      (default (dayNames defaults) (s_dayNames s))
      (default (monthNamesShort defaults) (s_monthNamesShort s))
      (default (monthNames defaults) (s_monthNames s))
  end.

(** ** Scanning a format *)

(** [charAt(iFormat)]. *)
Definition cur (fmt : jstr) : N := default 0%N (head fmt).

(** [lookAhead(match)]: whether the next character is [m]; if so it becomes the
    current one. *)
Definition lookAhead (m : N) (fmt : jstr) : bool * jstr :=
  match fmt with
  | c :: x :: r => if (x =? m)%N then (true, x :: r) else (false, fmt)
  | _ => (false, fmt)
  end.

Definition ch_quote : N := chr "'".

Definition _ticksTo1970 : Z := 621355968000000000.

Section formats.
Context `{TimeZone}.

(** ** formatDate *)

Fixpoint pad_zeros (fuel : nat) (num : jstr) (len : nat) : jstr :=
  match fuel with
  | O => num
  | S n => if (length num <? len)%nat then pad_zeros n (chr "0" :: num) len else num
  end.

(** [formatNumber(match, value, len)]. *)
Definition formatNumber (m : N) (value : num) (len : nat) (fmt : jstr) : jstr * jstr :=
  let num := num_to_str value in
  let '(doubled, fmt) := lookAhead m fmt in
  (if doubled then pad_zeros len num len else num, fmt).

(** [names[value]] in a string. *)
Definition name_at (names : list jstr) (value : num) : jstr :=
  default (str "undefined")
    (match value with Fin i => if i <? 0 then None else names !! Z.to_nat i | _ => None end).

Definition formatName (m : N) (value : num) (short long : list jstr) (fmt : jstr) : jstr * jstr :=
  let '(doubled, fmt) := lookAhead m fmt in
  (name_at (if doubled then long else short) value, fmt).

(** The day of the year. *)
Definition dayOfYear (d : date) : num :=
  let start := new_Date (getFullYear d) (getMonth d) (getDate d) in
  let year := new_Date (getFullYear d) (Fin 0) (Fin 0) in
  Num.round_div (Num.sub (getTime start) (getTime year)) msPerDay.

(** The two digits of the year. *)
Definition two_digits (d : date) : jstr :=
  let y := Num.rem (getFullYear d) (Fin 100) in
  (if Num.lt y (Fin 10) then str "0" else []) ++ num_to_str y.

Definition double_str (v : num) : jstr :=
  match v with Fin z => double_to_str z | _ => num_to_str v end.

Definition ticks (d : date) : num :=
  match getTime d with Fin t => Fin (round53 (round53 (t * 10000) + _ticksTo1970)) | v => v end.

(** What one turn of the loop appends, and the format after it. *)
Definition format_step (g : format_names) (d : date) (literal : bool) (fmt : jstr) : jstr * bool * jstr :=
  let c := cur fmt in
  let keep '(out, fmt) := (out, literal, fmt) in
  if literal then
    if (c =? ch_quote)%N then
      let '(doubled, fmt) := lookAhead ch_quote fmt in
      if doubled then ([cur fmt], literal, fmt) else ([], false, fmt)
    else ([c], literal, fmt)
  else if (c =? chr "d")%N then keep (formatNumber c (getDate d) 2 fmt)
  else if (c =? chr "D")%N then keep (formatName c (getDay d) (dayNamesShort g) (dayNames g) fmt)
  else if (c =? chr "o")%N then keep (formatNumber c (dayOfYear d) 3 fmt)
  else if (c =? chr "m")%N then keep (formatNumber c (Num.add (getMonth d) (Fin 1)) 2 fmt)
  else if (c =? chr "M")%N then keep (formatName c (getMonth d) (monthNamesShort g) (monthNames g) fmt)
  else if (c =? chr "y")%N then
    let '(doubled, fmt) := lookAhead c fmt in
    keep (if doubled then num_to_str (getFullYear d) else two_digits d, fmt)
  else if (c =? chr "@")%N then keep (num_to_str (getTime d), fmt)
  else if (c =? chr "!")%N then keep (double_str (ticks d), fmt)
  else if (c =? ch_quote)%N then
    let '(doubled, fmt) := lookAhead ch_quote fmt in
    if doubled then ([ch_quote], literal, fmt) else ([], true, fmt)
  else ([c], literal, fmt).

(** The [for] loop; [fuel] is the length of the format. *)
Fixpoint format_loop (fuel : nat) (g : format_names) (d : date) (literal : bool) (fmt : jstr) : jstr :=
  match fuel, fmt with
  | S n, _ :: _ =>
      let '(out, literal, fmt) := format_step g d literal fmt in
      out ++ format_loop n g d literal (tail fmt)
  | _, _ => []
  end.

(** [formatDate(format, date, settings)]; [None] is a date that is [null]. *)
Definition formatDate (defaults : format_names) (format : jstr) (d : option date)
    (settings : option format_settings) : jstr :=
  match d with
  | None => []
  | Some d => format_loop (length format) (with_defaults defaults settings) d false format
  end.

(** ** _possibleChars *)

Definition digits : jstr := str "0123456789".

Definition chars_step (literal : bool) (fmt : jstr) : option (jstr * bool * jstr) :=
  let c := cur fmt in
  if literal then
    if (c =? ch_quote)%N then
      let '(doubled, fmt) := lookAhead ch_quote fmt in
      if doubled then Some ([cur fmt], literal, fmt) else Some ([], false, fmt)
    else Some ([c], literal, fmt)
  else if bool_decide (c ∈ str "dmy@") then Some (digits, literal, fmt)
  else if bool_decide (c ∈ str "DM") then None
  else if (c =? ch_quote)%N then
    let '(doubled, fmt) := lookAhead ch_quote fmt in
    if doubled then Some ([ch_quote], literal, fmt) else Some ([], true, fmt)
  else Some ([c], literal, fmt).

Fixpoint chars_loop (fuel : nat) (literal : bool) (fmt : jstr) : option jstr :=
  match fuel, fmt with
  | S n, _ :: _ =>
      '(out, literal, fmt) ← chars_step literal fmt;
      (fun rest => out ++ rest) <$> chars_loop n literal (tail fmt)
  | _, _ => Some []
  end.

(** [None] is [null]: any character. *)
Definition _possibleChars (format : jstr) : option jstr := chars_loop (length format) false format.

(** ** Days and months *)

(** [_daylightSavingAdjust(date)], on a date. *)
Definition _daylightSavingAdjust (d : date) : date :=
  setHours d (if Num.gt (getHours d) (Fin 12) then Num.add (getHours d) (Fin 2) else Fin 0).

Definition _getDaysInMonth (year month : num) : num :=
  Num.sub (Fin 32) (getDate (_daylightSavingAdjust (new_Date year month (Fin 32)))).

Definition _getFirstDayOfMonth (year month : num) : num := getDay (new_Date year month (Fin 1)).

Definition noWeekends (d : date) : bool := Num.gt (getDay d) (Fin 0) && Num.lt (getDay d) (Fin 6).

Definition iso8601Week (d : date) : num :=
  let checkDate := date_of_time (getTime d) in
  let weekday := if Num.truthy (getDay checkDate) then getDay checkDate else Fin 7 in
  let checkDate := setDate checkDate (Num.sub (Num.add (getDate checkDate) (Fin 4)) weekday) in
  let time := getTime checkDate in
  let checkDate := setDate (setMonth checkDate (Fin 0)) (Fin 1) in
  match Num.round_div (Num.sub time (getTime checkDate)) msPerDay with
  | Fin n => Fin (n / 7 + 1)
  | v => v
  end.

(** ** parseDate *)

(** The variables of [parseDate]. *)
Record pst := PSt {
  p_fmt : jstr;
  iValue : nat;
  year : num;
  month : num;
  day : num;
  doy : num;
  literal : bool
}.

Definition set_fmt (x : jstr) (s : pst) : pst := PSt x (iValue s) (year s) (month s) (day s) (doy s) (literal s).
Definition set_iValue (x : nat) (s : pst) : pst := PSt (p_fmt s) x (year s) (month s) (day s) (doy s) (literal s).
Definition set_year (x : num) (s : pst) : pst := PSt (p_fmt s) (iValue s) x (month s) (day s) (doy s) (literal s).
Definition set_month (x : num) (s : pst) : pst := PSt (p_fmt s) (iValue s) (year s) x (day s) (doy s) (literal s).
Definition set_day (x : num) (s : pst) : pst := PSt (p_fmt s) (iValue s) (year s) (month s) x (doy s) (literal s).
Definition set_doy (x : num) (s : pst) : pst := PSt (p_fmt s) (iValue s) (year s) (month s) (day s) x (literal s).
Definition set_literal (x : bool) (s : pst) : pst := PSt (p_fmt s) (iValue s) (year s) (month s) (day s) (doy s) x.

Definition set_ymd (d : date) : pst -> pst := fun s =>
  set_day (getDate d) (set_month (Num.add (getMonth d) (Fin 1)) (set_year (getFullYear d) s)).

(** Lower case letters beyond ASCII. *)
Context (unicode_lower : N -> jstr).

(** The names with their indices, the longer first, otherwise in order. *)
Fixpoint insert_name (x : nat * jstr) (l : list (nat * jstr)) : list (nat * jstr) :=
  match l with
  | [] => [x]
  | y :: l' => if (length y.2 <=? length x.2)%nat then x :: l else y :: insert_name x l'
  end.

Definition sorted_names (names : list jstr) : list (nat * jstr) :=
  foldr insert_name [] (imap pair names).

Section parse.
Context (value : jstr).

Definition look (m : N) : SM pst bool := fun s =>
  let '(b, fmt) := lookAhead m (p_fmt s) in (Ok b, set_fmt fmt s).

(** At most [n] digits, as many as there are. *)
Definition take_digits (n : nat) (s : jstr) : jstr := digits_prefix is_digit (take n s).

Definition at_position (s : pst) : jstr := N_to_str (N.of_nat (iValue s)).

(** A number of [minSize] to [size] digits. *)
Definition read_digits (size minSize : nat) : SM pst num := fun s =>
  let ds := take_digits size (drop (iValue s) value) in
  if (length ds <? minSize)%nat then (Throw (str "Missing number at position " ++ at_position s), s)
  else (Ok (Fin (round53 (Z.of_N (parse_digits ds)))), set_iValue (iValue s + length ds) s).

(** [getNumber(match)]. *)
Definition number_size (m : N) (isDoubled : bool) : nat :=
  if (m =? chr "@")%N then 14 else if (m =? chr "!")%N then 20
  else if (m =? chr "y")%N && isDoubled then 4 else if (m =? chr "o")%N then 3 else 2.

Definition getNumber (m : N) : SM pst num :=
  isDoubled ← look m;
  let size := number_size m isDoubled in
  read_digits size (if (m =? chr "y")%N then size else 1%nat).

(** The first of the names that the value goes on with, in any case. *)
Definition find_name (names : list (nat * jstr)) : SM pst num := fun s =>
  let rest := drop (iValue s) value in
  match List.find (fun p => bool_decide (toLowerCase unicode_lower (take (length p.2) rest) = toLowerCase unicode_lower p.2)) names with
  | Some (k, name) => (Ok (Fin (Z.of_nat k + 1)), set_iValue (iValue s + length name) s)
  | None => (Throw (str "Unknown name at position " ++ at_position s), s)
  end.

(** [getName(match, shortNames, longNames)]. *)
Definition getName (m : N) (short long : list jstr) : SM pst num :=
  isDoubled ← look m;
  find_name (sorted_names (if isDoubled : bool then long else short)).

Definition checkLiteral : SM pst unit := fun s =>
  if bool_decide (value !! iValue s = head (p_fmt s)) then (Ok tt, set_iValue (S (iValue s)) s)
  else (Throw (str "Unexpected literal at position " ++ at_position s), s).

(** A turn of the loop. *)
Definition parse_step (g : format_names) : SM pst unit :=
  c ← sm_get (fun s => cur (p_fmt s));
  lit ← sm_get literal;
  if lit : bool then
    if (c =? ch_quote)%N then
      doubled ← look ch_quote;
      if doubled : bool then checkLiteral else sm_mod (set_literal false)
    else checkLiteral
  else if (c =? chr "d")%N then n ← getNumber c; sm_mod (set_day n)
  else if (c =? chr "D")%N then getName c (dayNamesShort g) (dayNames g) ;; mret tt
  else if (c =? chr "o")%N then n ← getNumber c; sm_mod (set_doy n)
  else if (c =? chr "m")%N then n ← getNumber c; sm_mod (set_month n)
  else if (c =? chr "M")%N then n ← getName c (monthNamesShort g) (monthNames g); sm_mod (set_month n)
  else if (c =? chr "y")%N then n ← getNumber c; sm_mod (set_year n)
  else if (c =? chr "@")%N then n ← getNumber c; sm_mod (set_ymd (date_of_time n))
  else if (c =? chr "!")%N then
    n ← getNumber c;
    sm_mod (set_ymd (match n with
                     | Fin n => date_of_time (Fin (trunc_div (round53 (n - _ticksTo1970)) 10000))
                     | _ => None
                     end))
  else if (c =? ch_quote)%N then
    doubled ← look ch_quote;
    if doubled : bool then checkLiteral else sm_mod (set_literal true)
  else checkLiteral.

Fixpoint parse_loop (fuel : nat) (g : format_names) : SM pst unit :=
  match fuel with
  | O => sm_lift NoFuel
  | S n => fun s =>
      match p_fmt s with
      | [] => (Ok tt, s)
      | _ :: _ => (parse_step g ;; sm_mod (fun s => set_fmt (tail (p_fmt s)) s) ;; parse_loop n g) s
      end
  end.
End parse.

(** The loop that turns a day of the year into a month and a day. *)
Fixpoint doy_loop (fuel : nat) (year month day : num) : res (num * num) :=
  match fuel with
  | O => NoFuel
  | S n =>
      let dim := _getDaysInMonth year (Num.sub month (Fin 1)) in
      if Num.le day dim then Ok (month, day)
      else doy_loop n year (Num.add month (Fin 1)) (Num.sub day dim)
  end.

(** [shortYearCutoff] as a number. *)
Definition cutoff_num (now : date) (c : cutoff) : num :=
  match c with
  | CutNum n => n
  | CutStr s => Num.add (Num.rem (getFullYear now) (Fin 100)) (parseInt10 s)
  end.

(** The year that a missing or two-digit year denotes. *)
Definition fix_year (now : date) (cut y : num) : num :=
  if Num.eqb y (Fin (-1)) then getFullYear now
  else if Num.lt y (Fin 100) then
    Num.add y (Num.add (Num.sub (getFullYear now) (Num.rem (getFullYear now) (Fin 100)))
                 (if Num.le y cut then Fin 0 else Fin (-100)))
  else y.

(** What follows the loop: the month and the day of a day of the year, and the
    check of the date. *)
Definition parse_end (fuel : nat) (y m dt doy : num) : res date :=
  '(m, dt) ← (if Num.gt doy (Fin (-1)) then doy_loop fuel y (Fin 1) doy else Ok (m, dt));
  let d := _daylightSavingAdjust (new_Date y (Num.sub m (Fin 1)) dt) in
  if negb (Num.eqb (getFullYear d) y) || negb (Num.eqb (Num.add (getMonth d) (Fin 1)) m)
     || negb (Num.eqb (getDate d) dt)
  then Throw (str "Invalid date") else Ok d.

(** [parseDate(format, value, settings)]; [null] is [None] in the arguments and
    in the answer.  The fuel of the last loop allows for a day of the year of
    three digits. *)
Definition parseDate (now : date) (defaults : format_names) (format value : option jstr)
    (settings : option format_settings) : res (option date) :=
  match format, value with
  | Some format, Some value =>
      if decide (value = []) then Ok None else
      let g := with_defaults defaults settings in
      match parse_loop value (S (length format)) g (PSt format 0 (Fin (-1)) (Fin (-1)) (Fin (-1)) (Fin (-1)) false) with
      | (Throw e, _) => Throw e
      | (NoFuel, _) => NoFuel
      | (Ok _, s) =>
          let extra := drop (iValue s) value in
          if bool_decide (extra <> []) && negb (is_space (cur extra))
          then Throw (str "Extra/unparsed characters found in date: " ++ extra)
          else
            let y := fix_year now (cutoff_num now (shortYearCutoff g)) (year s) in
            Some <$> parse_end 40 y (month s) (day s) (doy s)
      end
  | _, _ => Throw (str "Invalid arguments")
  end.
End formats.
