(* ===== verification/DateFacts.v ===== *)
(** * What the date formats promise: days, months and weeks

    The calendar computations of the date picker in a local time zone with
    daylight saving time. *)

From S2P Require Import Prelude JsNum JsDate DateFormat.

Section facts.
Context `{TimeZoneLaws}.

(** ** Midnights *)

Lemma time_split h x : MakeTime h (MinFromTime x) (SecFromTime x) (msFromTime x) = h * msPerHour + x mod msPerHour.
Proof. unfold MakeTime, MinFromTime, SecFromTime, msFromTime, msPerHour. dlia. Qed.

Lemma Day_near D x : D * msPerDay <= x < (D + 1) * msPerDay -> Day x = D.
Proof. unfold Day, msPerDay. intros Hx. dlia. Qed.

(** [setHours] on an instant whose local time is [x]. *)
Lemma setHours_Some t h : let x := LocalTime t in
  setHours (Some t) (Fin h) = TimeClip (tz_utc (Day x * msPerDay + h * msPerHour + x mod msPerHour)).
Proof. intros x. unfold setHours, setter, set_local, MakeDate. by rewrite time_split, Z.add_assoc. Qed.

Lemma getHours_Some t : getHours (Some t) = Fin ((LocalTime t / msPerHour) mod 24).
Proof. done. Qed.

(** The instant that stands for the start of a day, and after the adjustment. *)
Definition on_day (D : Z) (d : date) : Prop :=
  exists t, d = Some t /\ D * msPerDay <= LocalTime t <= D * msPerDay + 3 * msPerHour.

Lemma adjust_midnight D : day_in_range D -> on_day D (_daylightSavingAdjust (Some (tz_utc (D * msPerDay)))).
Proof.
  intros HD. unfold day_in_range in HD. set (u := tz_utc (D * msPerDay)).
  pose proof (tz_gap (D * msPerDay)) as Hg. fold u in Hg.
  unfold _daylightSavingAdjust. rewrite getHours_Some.
  assert (forall x, D * msPerDay <= x <= D * msPerDay + 3 * msPerHour ->
    TimeClip (tz_utc x) = Some (tz_utc x)) as Hclip
    by (intros x Hx; apply clip_utc; unfold msPerDay, msPerHour in *; lia).
  destruct (decide (LocalTime u < D * msPerDay)) as [Hlt|Hge].
  - pose proof (tz_back _ Hlt) as Hback.
    assert ((LocalTime u / msPerHour) mod 24 = 23) as ->
      by (unfold msPerDay, msPerHour in *; clear - Hg Hlt; dlia).
    cbn [Num.gt Num.lt Z.ltb]. change (12 <? 23) with true. cbn [Num.add].
    rewrite setHours_Some. cbv zeta.
    assert (Day (LocalTime u) = D - 1) as -> by (apply Day_near; unfold msPerDay, msPerHour in *; lia).
    set (x := (D - 1) * msPerDay + (23 + 2) * msPerHour + LocalTime u mod msPerHour).
    assert (x = D * msPerDay + msPerHour + LocalTime u mod msPerHour) as Hx
      by (unfold x, msPerDay, msPerHour; lia).
    pose proof (Z.mod_pos_bound (LocalTime u) msPerHour ltac:(done)).
    exists (tz_utc x). rewrite Hclip by lia. split; [done|].
    destruct (decide (x = D * msPerDay + msPerHour)) as [E|Hne]; [rewrite E, Hback; unfold msPerHour; lia|].
    pose proof (tz_gap x). lia.
  - assert ((LocalTime u / msPerHour) mod 24 = (LocalTime u - D * msPerDay) / msPerHour) as ->
      by (unfold msPerDay, msPerHour in *; clear - Hg Hge; dlia).
    assert ((LocalTime u - D * msPerDay) / msPerHour <= 1) as Hh
      by (unfold msPerHour in *; clear - Hg Hge; dlia).
    replace (Num.gt (Fin ((LocalTime u - D * msPerDay) / msPerHour)) (Fin 12)) with false
      by (symmetry; apply Z.ltb_ge; lia).
    rewrite setHours_Some. cbv zeta. rewrite Z.mul_0_l, Z.add_0_r.
    assert (Day (LocalTime u) = D) as -> by (apply Day_near; unfold msPerDay, msPerHour in *; lia).
    destruct (decide (LocalTime u = D * msPerDay + msPerHour)) as [E|Hne].
    + assert (LocalTime u mod msPerHour = 0) as -> by (rewrite E; unfold msPerDay, msPerHour; clear; dlia).
      rewrite Z.add_0_r. fold u. exists u. split; [apply Hclip; unfold msPerHour; lia|unfold msPerHour in *; lia].
    + assert (D * msPerDay + LocalTime u mod msPerHour = LocalTime u) as ->
        by (unfold msPerDay, msPerHour in *; clear - Hg Hge Hne; dlia).
      exists (tz_utc (LocalTime u)). rewrite Hclip by (unfold msPerHour in *; lia). split; [done|].
      rewrite tz_exact. lia.
Qed.

Lemma on_day_local D d : on_day D d -> exists t, d = Some t /\ local_day t = D.
Proof.
  intros (t & -> & Ht). exists t. split; [done|]. apply Day_near. unfold msPerDay, msPerHour in *. lia.
Qed.

(** The fields of an adjusted date. *)
Lemma adjusted_date y m dt : 100 <= y -> day_in_range (MakeDay y m dt) ->
  exists t, _daylightSavingAdjust (new_Date (Fin y) (Fin m) (Fin dt)) = Some t /\ local_day t = MakeDay y m dt.
Proof.
  intros Hy Hd. rewrite new_Date_Some; rewrite MakeFullYear_id by done; [|done].
  by apply on_day_local, adjust_midnight.
Qed.

(** ** The length of months *)

(** [_getDaysInMonth] on any month of the years from 100 on. *)
Lemma getDaysInMonth_eq y m : 100 <= y <= 190000 -> -900 <= m <= 900 ->
  _getDaysInMonth (Fin y) (Fin m) = Fin (days_in_month (y + m / 12) (m mod 12)).
Proof.
  intros Hy Hm. unfold _getDaysInMonth.
  destruct (adjusted_date y m 32) as (t & -> & Ht); [lia|apply MakeDay_range; lia|].
  rewrite getDate_Some, Ht. pose proof (Z.mod_pos_bound m 12 ltac:(done)) as Hm'.
  set (y' := y + m / 12) in *. set (m' := m mod 12) in *.
  pose proof (days_in_month_bounds y' m' Hm') as Hdim.
  assert (MakeDay y m 32 = MakeDay y (m + 1) (32 - days_in_month y' m')) as ->.
  { replace 32 with (1 + 31) at 1 by lia. replace (32 - days_in_month y' m') with (1 + (31 - days_in_month y' m')) by lia.
    rewrite !MakeDay_add, month_succ. fold y' m'. lia. }
  rewrite MakeDay_month. destruct (fields_of_date (y + (m + 1) / 12) ((m + 1) mod 12) (32 - days_in_month y' m'))
    as (_ & _ & ->); [|cbn [Num.sub Num.opp Num.add]; f_equal; lia].
  split; [by apply Z.mod_pos_bound|].
  pose proof (days_in_month_bounds (y + (m + 1) / 12) ((m + 1) mod 12) ltac:(by apply Z.mod_pos_bound)). lia.
Qed.

(** ** Days of the year *)

(** The loop of [parseDate] moves to the month that contains the day. *)
Lemma doy_loop_sound n y m dt : 100 <= y <= 9999 -> 1 <= m -> m + Z.of_nat n <= 900 -> 1 <= dt <= 28 * Z.of_nat n ->
  exists m' dt', doy_loop n (Fin y) (Fin m) (Fin dt) = Ok (Fin m', Fin dt')
    /\ m <= m' /\ MakeDay y (m' - 1) dt' = MakeDay y (m - 1) dt
    /\ 1 <= dt' <= days_in_month (y + (m' - 1) / 12) ((m' - 1) mod 12).
Proof.
  revert m dt. induction n as [|n IH]; intros m dt Hy Hm Hn Hdt; [lia|].
  cbn [doy_loop]. cbn [Num.sub Num.opp Num.add]. rewrite Z.add_opp_r, getDaysInMonth_eq by lia.
  set (dim := days_in_month (y + (m - 1) / 12) ((m - 1) mod 12)).
  assert (28 <= dim <= 31) as Hdim by (apply days_in_month_bounds, Z.mod_pos_bound; lia).
  rewrite le_fin. destruct (dt <=? dim) eqn:E; bool_hyps.
  - exists m, dt. split_and!; [done|lia|done|lia|done].
  - destruct (IH (m + 1) (dt - dim)) as (m' & dt' & E' & Hm' & Hd' & Hv'); [lia..|].
    cbn [Num.add Num.opp Num.sub]. rewrite Z.add_opp_r. exists m', dt'.
    split_and!; [done|lia| |apply Hv'..]. rewrite Hd'. replace (m + 1 - 1) with (m - 1 + 1) by lia.
    replace (dt - dim) with (1 + (dt - dim - 1)) by lia. replace dt with (1 + (dt - 1)) at 2 by lia.
    rewrite !MakeDay_add, month_succ. fold dim. lia.
Qed.

(** On a day of the year it finds the month and the day. *)
Lemma doy_loop_exact y dt : 100 <= y <= 9999 -> 1 <= dt <= month_start (leap_year y) 12 ->
  let D := MakeDay y 0 dt in
  doy_loop 40 (Fin y) (Fin 1) (Fin dt) = Ok (Fin (MonthFromDay D + 1), Fin (DateFromDay D)).
Proof.
  intros Hy Hdt D.
  assert (month_start (leap_year y) 12 <= 366) as Hyear by (by destruct (leap_year y)).
  destruct (doy_loop_sound 40 y 1 dt) as (m' & dt' & E & Hm' & Hd' & Hv'); [lia..|].
  rewrite E. fold D in Hd'. change (1 - 1) with 0 in Hd'. fold D in Hd'.
  rewrite MakeDay_month in Hd'. destruct (fields_of_date (y + (m' - 1) / 12) ((m' - 1) mod 12) dt') as (Ey & Em & Ed);
    [by split; [apply Z.mod_pos_bound|]|]. rewrite Hd' in Ey, Em, Ed.
  assert (YearFromDay D = y) as EyD.
  { apply YearFromDay_unique. pose proof (year_length y). unfold D. rewrite MakeDay_year. lia. }
  assert ((m' - 1) / 12 = 0) as Hq by lia.
  assert ((m' - 1) mod 12 = m' - 1) as Hr by (pose proof (Z.div_mod (m' - 1) 12); lia).
  rewrite Em, Ed, Hr. do 3 f_equal. lia.
Qed.

(** The distance of two midnights, in days. *)
Lemma midnight_distance D D' : Num.round_div (Fin (tz_utc (D * msPerDay) - tz_utc (D' * msPerDay))) msPerDay = Fin (D - D').
Proof.
  cbn. f_equal. pose proof (tz_gap (D * msPerDay)) as G. pose proof (tz_gap (D' * msPerDay)) as G'.
  set (u := tz_utc (D * msPerDay)) in *. set (u' := tz_utc (D' * msPerDay)) in *.
  pose proof (tz_spread u u'). pose proof (tz_spread u' u). unfold LocalTime, msPerDay, msPerHour in *.
  symmetry. apply (Z.div_unique _ _ _ (2 * (u - u') + 86400000 - 2 * 86400000 * (D - D'))); lia.
Qed.

(** [formatDate]'s day of the year. *)
Lemma dayOfYear_eq t : 100 <= YearFromDay (local_day t) <= 190000 ->
  dayOfYear (Some t) = Fin (DayWithinYear (local_day t) + 1).
Proof.
  intros Hy. unfold dayOfYear. rewrite getFullYear_Some, getMonth_Some, getDate_Some.
  destruct (date_of_fields (local_day t)) as [[Hm Hdt] HD].
  pose proof (days_in_month_bounds (YearFromDay (local_day t)) _ Hm).
  rewrite (new_Date_Some _ (MonthFromDay _)), (new_Date_Some _ 0 0); rewrite MakeFullYear_id by lia;
    [|apply MakeDay_range; lia..].
  cbn [getTime Num.sub Num.opp Num.add]. rewrite Z.add_opp_r, midnight_distance, HD. f_equal.
  unfold DayWithinYear. rewrite MakeDay_year. lia.
Qed.

(** ** Weeks *)

(** The Monday of the week of a day. *)
Definition monday (D : Z) : Z := D - (WeekDay D + 6) mod 7.

(** A local time of the day [D], before nine in the evening and a later hour for
    each move of the clock. *)
Definition near (D e : Z) (t : Z) : Prop :=
  D * msPerDay <= LocalTime t < D * msPerDay + 21 * msPerHour + e * msPerHour.

Lemma near_day D e t : e <= 3 -> near D e t -> local_day t = D.
Proof. intros He Ht. apply Day_near. unfold near, msPerDay, msPerHour in *. nia. Qed.

Lemma near_time D e t : e <= 3 -> near D e t -> TimeWithinDay (LocalTime t) = LocalTime t - D * msPerDay.
Proof.
  intros He Ht. pose proof (near_day D e t He Ht) as Hd. unfold local_day, Day, TimeWithinDay in *.
  rewrite Z.mod_eq by done. rewrite Hd. lia.
Qed.

(** Moving to another day at the same time of the day, where clocks move forward. *)
Lemma move_day (Hfwd : forall l, l <= LocalTime (tz_utc l)) D D' e t : 0 <= e <= 2 -> day_in_range D' -> near D e t ->
  exists t', TimeClip (tz_utc (MakeDate D' (TimeWithinDay (LocalTime t)))) = Some t' /\ near D' (e + 1) t'
    /\ 0 <= (LocalTime t' - D' * msPerDay) - (LocalTime t - D * msPerDay) <= msPerHour.
Proof.
  intros He HD' Ht. rewrite (near_time D e) by (done || lia). unfold MakeDate, near, day_in_range in *.
  set (x := D' * msPerDay + (LocalTime t - D * msPerDay)).
  exists (tz_utc x). pose proof (tz_gap x). pose proof (Hfwd x).
  rewrite clip_utc by (unfold x, msPerDay, msPerHour in *; nia).
  unfold x in *. split_and!; [done|..]; lia.
Qed.

Definition iso_reference (D w : Z) : Prop :=
  let y := YearFromDay (monday D + 3) in
  1 <= w <= 53 /\ monday D = monday (MakeDay y 0 4) + 7 * (w - 1).

(** The arithmetic of weeks: [th] is a Thursday of the year that starts on [J]. *)
Lemma week_number th J : (th + 4) mod 7 = 4 -> J <= th < J + 366 ->
  1 <= (th - J) / 7 + 1 <= 53 /\ th - 3 = monday (J + 3) + 7 * ((th - J) / 7 + 1 - 1).
Proof. intros Hth HJ. unfold monday, WeekDay. dlia. Qed.

Lemma iso_week_eq (Hfwd : forall l, l <= LocalTime (tz_utc l)) t :
  let D := local_day t in
  100 <= YearFromDay D <= 190000 -> near D 0 t ->
  exists w, iso8601Week (Some t) = Fin w /\ iso_reference D w.
Proof.
  intros D Hy Ht.
  destruct (date_of_fields D) as [[Hm Hdt] HD]. pose proof (days_in_month_bounds (YearFromDay D) _ Hm).
  assert (date_of_time (getTime (Some t)) = Some t \/ Z.abs t > 8640000000000000) as [Hclip|Hbig].
  { cbn. unfold TimeClip. destruct (Z.abs t <=? _) eqn:E; bool_hyps; [by left|right; lia]. }
  2: { exfalso. pose proof (tz_bound t). pose proof (YearFromDay_spec D). unfold near, LocalTime in Ht.
       pose proof (DayFromYear_bounds (YearFromDay D)). pose proof (DayFromYear_bounds (YearFromDay D + 1)).
       unfold msPerDay, msPerHour in *. lia. }
  unfold iso8601Week. rewrite Hclip. cbv zeta.
  set (wd := if WeekDay D =? 0 then 7 else WeekDay D).
  assert ((if Num.truthy (getDay (Some t)) then getDay (Some t) else Fin 7) = Fin wd) as ->
    by (unfold wd; cbn; fold (local_day t) D; by destruct (WeekDay D =? 0)).
  set (th := monday D + 3).
  assert (MakeDay (YearFromDay D) (MonthFromDay D) (DateFromDay D + 4 - wd) = th) as Eth.
  { replace (DateFromDay D + 4 - wd) with (DateFromDay D + (4 - wd)) by lia. rewrite MakeDay_add, HD.
    unfold th, monday, wd, WeekDay. case_match; bool_hyps; dlia. }
  assert (- 10 <= th - D <= 10) as Hnear by (unfold th, monday; dlia).
  assert (Z.abs D <= 90000000) as HDr.
  { pose proof (YearFromDay_spec D). pose proof (DayFromYear_bounds (YearFromDay D)).
    pose proof (DayFromYear_bounds (YearFromDay D + 1)). lia. }
  set (y := YearFromDay th). set (J := MakeDay y 0 1).
  pose proof (YearFromDay_spec th) as Hth. fold y in Hth. pose proof (year_length y) as Hlen.
  assert (month_start (leap_year y) 12 <= 366) by (by destruct (leap_year y)).
  assert (y - 2 <= YearFromDay D <= y + 2) as HyD.
  { pose proof (YearFromDay_spec D). pose proof (DayFromYear_bounds (YearFromDay D)).
    pose proof (DayFromYear_bounds (YearFromDay D + 1)). pose proof (DayFromYear_bounds y).
    pose proof (DayFromYear_bounds (y + 1)). lia. }
  destruct (move_day Hfwd D th 0 t) as (t1 & E1 & Ht1 & Hd1); [lia|unfold day_in_range; lia|done|].
  rewrite getDate_Some. fold D. cbn [Num.add Num.sub Num.opp]. rewrite Z.add_opp_r.
  assert (setDate (Some t) (Fin (DateFromDay D + 4 - wd)) = Some t1) as ->
    by (rewrite <-E1, <-Eth; done).
  pose proof (near_day th 1 t1 ltac:(lia) Ht1) as El1.
  destruct (date_of_fields th) as [[Hm' Hdt'] _]. fold y in Hdt'. pose proof (days_in_month_bounds y _ Hm').
  set (D2 := MakeDay y 0 (DateFromDay th)).
  assert (valid_date y 0 (DateFromDay th)) as Hv2.
  { split; [done|]. rewrite days_in_month_table by done. cbn. lia. }
  destruct (fields_of_date y 0 (DateFromDay th) Hv2) as (Ey2 & Em2 & _). fold D2 in Ey2, Em2.
  destruct (move_day Hfwd th D2 1 t1) as (t2 & E2 & Ht2 & Hd2); [lia|apply MakeDay_range; lia|done|].
  assert (setMonth (Some t1) (Fin 0) = Some t2) as ->.
  { rewrite <-E2. unfold setMonth, setter, set_local. fold (local_day t1). by rewrite El1. }
  pose proof (near_day D2 2 t2 ltac:(lia) Ht2) as El2.
  destruct (move_day Hfwd D2 J 2 t2) as (t3 & E3 & Ht3 & Hd3); [lia|apply MakeDay_range; lia|done|].
  assert (setDate (Some t2) (Fin 1) = Some t3) as ->.
  { rewrite <-E3. unfold setDate, setter, set_local. fold (local_day t2). rewrite El2, Ey2, Em2. done. }
  cbn [getTime Num.sub Num.opp Num.add Num.round_div].
  assert ((2 * (t1 + - t3) + msPerDay) / (2 * msPerDay) = th - J) as ->.
  { pose proof (tz_spread t1 t3). pose proof (tz_spread t3 t1). unfold LocalTime, msPerDay, msPerHour in *.
    symmetry. apply (Z.div_unique _ _ _ (2 * (t1 + - t3) + 86400000 - 2 * 86400000 * (th - J))); lia. }
  exists ((th - J) / 7 + 1). split; [done|]. unfold iso_reference. fold th y.
  assert (MakeDay y 0 4 = J + 3) as -> by (unfold J; rewrite !MakeDay_year; lia).
  destruct (week_number th J) as [Hw Hmon]; [unfold th, monday, WeekDay; dlia|unfold J; rewrite MakeDay_year; lia|].
  split; [done|]. rewrite <-Hmon. unfold th. lia.
Qed.
End facts.
