(* ===== verification/DateTokens.v ===== *)
(** * Date formats as lists of fields

    A format is a list of fields and literal characters; the three loops over a
    format do what the list says; what was written is read back. *)

From Stdlib Require Import Sorting.Sorted.
From S2P Require Import Prelude JsNum JsDate DateFormat DateFacts.

(** A field of a format; the flag says whether its letter is doubled. *)
Inductive tok :=
  | TNum (c : N) (doubled : bool)
  | TName (c : N) (doubled : bool)
  | TYear (doubled : bool)
  | TTime
  | TTicks
  | TLit (c : N).

(** The field that a turn of the loops deals with, if any, whether the text that
    follows is quoted, and the format after it. *)
Definition next_tok (literal : bool) (fmt : jstr) : option tok * bool * jstr :=
  let c := cur fmt in
  let field (t : bool -> tok) := let '(doubled, fmt) := lookAhead c fmt in (Some (t doubled), literal, fmt) in
  if literal then
    if (c =? ch_quote)%N then
      let '(doubled, fmt) := lookAhead ch_quote fmt in
      if doubled then (Some (TLit ch_quote), literal, fmt) else (None, false, fmt)
    else (Some (TLit c), literal, fmt)
  else if bool_decide (c ∈ str "dom") then field (TNum c)
  else if bool_decide (c ∈ str "DM") then field (TName c)
  else if (c =? chr "y")%N then field TYear
  else if (c =? chr "@")%N then (Some TTime, literal, fmt)
  else if (c =? chr "!")%N then (Some TTicks, literal, fmt)
  else if (c =? ch_quote)%N then
    let '(doubled, fmt) := lookAhead ch_quote fmt in
    if doubled then (Some (TLit ch_quote), literal, fmt) else (None, true, fmt)
  else (Some (TLit c), literal, fmt).

Fixpoint tokens_loop (fuel : nat) (literal : bool) (fmt : jstr) : list tok :=
  match fuel, fmt with
  | S n, _ :: _ =>
      let '(t, literal, fmt) := next_tok literal fmt in
      option_list t ++ tokens_loop n literal (tail fmt)
  | _, _ => []
  end.

Definition tokens (format : jstr) : list tok := tokens_loop (length format) false format.

(** Case analysis on a character among those that the formats give a meaning. *)
Ltac char_cases c :=
  destruct (decide (c = chr "d")) as [->|?];
  [|destruct (decide (c = chr "D")) as [->|?];
  [|destruct (decide (c = chr "o")) as [->|?];
  [|destruct (decide (c = chr "m")) as [->|?];
  [|destruct (decide (c = chr "M")) as [->|?];
  [|destruct (decide (c = chr "y")) as [->|?];
  [|destruct (decide (c = chr "@")) as [->|?];
  [|destruct (decide (c = chr "!")) as [->|?];
  [|destruct (decide (c = ch_quote)) as [->|?]]]]]]]]].

Lemma not_in_dom c : c <> chr "d" -> c <> chr "o" -> c <> chr "m" -> bool_decide (c ∈ str "dom") = false.
Proof. intros. apply bool_decide_eq_false. change (str "dom") with [chr "d"; chr "o"; chr "m"]. set_solver. Qed.

Lemma not_in_DM c : c <> chr "D" -> c <> chr "M" -> bool_decide (c ∈ str "DM") = false.
Proof. intros. apply bool_decide_eq_false. change (str "DM") with [chr "D"; chr "M"]. set_solver. Qed.

(** Evaluate the tests of a known character. *)
Ltac known_char :=
  repeat match goal with
  | |- context [(chr ?a =? ?b)%N] => let v := eval vm_compute in (chr a =? b)%N in change (chr a =? b)%N with v
  | |- context [(ch_quote =? ?b)%N] => let v := eval vm_compute in (ch_quote =? b)%N in change (ch_quote =? b)%N with v
  | |- context [bool_decide (chr ?a ∈ str ?b)] =>
      let v := eval vm_compute in (bool_decide (chr a ∈ str b)) in change (bool_decide (chr a ∈ str b)) with v
  | |- context [bool_decide (ch_quote ∈ str ?b)] =>
      let v := eval vm_compute in (bool_decide (ch_quote ∈ str b)) in change (bool_decide (ch_quote ∈ str b)) with v
  end; cbv iota.

(** Rewrite the tests of a character that is none of the letters. *)
Ltac other_char :=
  rewrite ?not_in_dom, ?not_in_DM by done;
  repeat match goal with H : ?c <> ?x |- context [(?c =? ?x)%N] => rewrite (proj2 (N.eqb_neq c x) H) end.

(** A turn does not lengthen the format. *)
Lemma next_tok_length lit fmt t lit' fmt' : next_tok lit fmt = (t, lit', fmt') -> (length fmt' <= length fmt)%nat.
Proof.
  assert (forall m b f, lookAhead m fmt = (b, f) -> (length f <= length fmt)%nat) as Hl.
  { intros m b f. destruct fmt as [|c [|x r]]; cbn; [by intros [= _ <-]..|]. destruct (x =? m)%N; intros [= _ <-]; cbn; lia. }
  intros Hn. unfold next_tok in Hn. cbv zeta in Hn.
  repeat match type of Hn with
  | context [if ?b then _ else _] => destruct b
  | context [lookAhead ?m fmt] => let E := fresh "E" in destruct (lookAhead m fmt) as [[] ?] eqn:E; apply Hl in E
  end; simplify_eq/=; done || lia.
Qed.

(** ** formatDate *)

Section tokens.
Context `{TimeZone}.

Definition names_of (g : format_names) (c : N) (doubled : bool) : list jstr :=
  if (c =? chr "D")%N then (if doubled then dayNames g else dayNamesShort g)
  else if doubled then monthNames g else monthNamesShort g.

(** The number of a numeric field, and the width it is padded to. *)
Definition number_of (d : date) (c : N) : num :=
  if (c =? chr "d")%N then getDate d
  else if (c =? chr "o")%N then dayOfYear d else Num.add (getMonth d) (Fin 1).

Definition width_of (c : N) : nat := if (c =? chr "o")%N then 3 else 2.

Definition fmt_tok (g : format_names) (d : date) (t : tok) : jstr :=
  match t with
  | TNum c doubled =>
      let num := num_to_str (number_of d c) in
      if doubled then pad_zeros (width_of c) num (width_of c) else num
  | TName c doubled => name_at (names_of g c doubled) (if (c =? chr "D")%N then getDay d else getMonth d)
  | TYear doubled => if doubled then num_to_str (getFullYear d) else two_digits d
  | TTime => num_to_str (getTime d)
  | TTicks => double_str (ticks d)
  | TLit c => [c]
  end.

Lemma lookAhead_true m fmt fmt' : lookAhead m fmt = (true, fmt') -> cur fmt' = m.
Proof.
  destruct fmt as [|c [|x r]]; [done..|]. cbn. destruct (x =? m)%N eqn:E; bool_hyps; [|done].
  intros [= <-]. by cbn.
Qed.

Lemma format_step_tok g d literal fmt :
  format_step g d literal fmt
  = let '(t, literal', fmt') := next_tok literal fmt in
    (match t with Some t => fmt_tok g d t | None => [] end, literal', fmt').
Proof.
  unfold format_step, next_tok. cbv zeta. destruct literal.
  - destruct (cur fmt =? ch_quote)%N; [|done].
    destruct (lookAhead ch_quote fmt) as [[] fmt'] eqn:E; [|done]. apply lookAhead_true in E. cbn. by rewrite E.
  - generalize (cur fmt). intros c. char_cases c; unfold formatNumber, formatName; cbn;
      try (destruct (lookAhead _ fmt) as [[] fmt']; done); try done.
    other_char. done.
Qed.

Lemma format_loop_tok n g d literal fmt :
  format_loop n g d literal fmt = concat (List.map (fmt_tok g d) (tokens_loop n literal fmt)).
Proof.
  revert literal fmt. induction n as [|n IH]; intros literal fmt; [by destruct fmt|].
  destruct fmt as [|c fmt]; [done|]. cbn [format_loop tokens_loop]. rewrite format_step_tok.
  destruct (next_tok literal (c :: fmt)) as [[t literal'] fmt']. rewrite IH, map_app, concat_app. f_equal.
  destruct t; cbn; [by rewrite app_nil_r|done].
Qed.
End tokens.

(** ** Reading back what was formatted

    What [parseDate] reads of a date that [formatDate] wrote, field by field. *)

(** ** Decimal numbers in a string *)

Lemma digits_prefix_app ds rest : Forall (fun c => is_digit c = true) ds ->
  is_digit (cur rest) = false -> digits_prefix is_digit (ds ++ rest) = ds.
Proof.
  intros Hds Hrest. induction Hds as [|c ds Hc _ IH]; cbn.
  - destruct rest as [|c rest]; [done|]. cbn in *. by rewrite Hrest.
  - by rewrite Hc, IH.
Qed.

Lemma take_digits_app n ds rest : Forall (fun c => is_digit c = true) ds -> (length ds <= n)%nat ->
  length ds = n \/ is_digit (cur rest) = false -> take_digits n (ds ++ rest) = ds.
Proof.
  intros Hds Hn Hend. unfold take_digits. destruct Hend as [<-|Hrest].
  - rewrite take_app_length. rewrite <-(app_nil_r ds) at 1. by apply digits_prefix_app.
  - rewrite take_app_ge by done. apply digits_prefix_app; [done|].
    destruct (n - length ds)%nat; [done|]. by destruct rest.
Qed.

Lemma pad_zeros_spec n num len : Forall (fun c => is_digit c = true) num -> (len <= n + length num)%nat ->
  let p := pad_zeros n num len in
  Forall (fun c => is_digit c = true) p /\ parse_digits p = parse_digits num /\ length p = Nat.max len (length num).
Proof.
  revert num. induction n as [|n IH]; intros num Hd Hn; cbn [pad_zeros].
  - split_and!; [done|done|lia].
  - destruct (length num <? len)%nat eqn:E; bool_hyps; [|split_and!; [done|done|lia]].
    destruct (IH (chr "0" :: num)) as (H1 & H2 & H3); [by constructor|cbn; lia|].
    split_and!; [done|rewrite H2; exact (parse_digits_zero num)|]. rewrite H3. cbn. lia.
Qed.

Lemma nonneg_str z : 0 <= z -> num_to_str (Fin z) = N_to_str (Z.to_N z).
Proof. intros Hz. cbn. unfold Z_to_str. by rewrite (proj2 (Z.ltb_ge z 0)). Qed.

(** A written number: its digits and its value. *)
Definition writes (ds : jstr) (z : Z) : Prop :=
  Forall (fun c => is_digit c = true) ds /\ ds <> [] /\ Z.of_N (parse_digits ds) = z.

Lemma num_writes z : 0 <= z -> writes (num_to_str (Fin z)) z.
Proof.
  intros Hz. rewrite nonneg_str by done. split_and!; auto with jslib. rewrite parse_N_to_str. lia.
Qed.

Lemma num_length z k : 0 <= z < 10 ^ Z.of_nat k -> (0 < k)%nat -> (length (num_to_str (Fin z)) <= k)%nat.
Proof.
  intros Hz Hk. rewrite nonneg_str by lia. apply N_to_str_length; [done|].
  apply N2Z.inj_lt. rewrite Z2N.id, N2Z.inj_pow, nat_N_Z by lia. lia.
Qed.

(** A number padded to [w] digits. *)
Lemma padded_writes z w : 0 <= z < 10 ^ Z.of_nat w -> (0 < w)%nat ->
  let ds := pad_zeros w (num_to_str (Fin z)) w in writes ds z /\ length ds = w.
Proof.
  intros Hz Hw ds. destruct (num_writes z) as (Hd & Hne & Hv); [lia|].
  destruct (pad_zeros_spec w (num_to_str (Fin z)) w Hd) as (H1 & H2 & H3); [lia|].
  pose proof (num_length z w Hz Hw). fold ds in H1, H2, H3. split; [|lia]. split_and!; [done| |by rewrite H2].
  intros E. rewrite E in H3. cbn in H3. lia.
Qed.

Section parse.
Context `{TimeZone} (unicode_lower : N -> jstr).
Context (value : jstr).

Abbreviation lower := (toLowerCase unicode_lower).

(** What is left of the value. *)
Definition rest_is (s : pst) (rest : jstr) : Prop := drop (iValue s) value = rest.

Lemma rest_advance s out rest : rest_is s (out ++ rest) -> rest_is (set_iValue (iValue s + length out) s) rest.
Proof. unfold rest_is. cbn. intros E. by rewrite <-drop_drop, E, drop_app_length. Qed.

Lemma read_digits_ok size minSize s ds rest z :
  rest_is s (ds ++ rest) -> writes ds z -> (minSize <= length ds <= size)%nat ->
  length ds = size \/ is_digit (cur rest) = false -> z < 2 ^ 53 ->
  read_digits value size minSize s = (Ok (Fin z), set_iValue (iValue s + length ds) s).
Proof.
  intros Hr (Hd & _ & Hv) Hlen Hend Hz. unfold rest_is in Hr. unfold read_digits. cbv zeta. rewrite Hr, take_digits_app by (done || lia).
  rewrite (proj2 (Nat.ltb_ge _ _)) by lia. rewrite Hv, round53_small; [done|]. lia.
Qed.

(** ** Names *)

(** The names can be told apart: none is empty or starts with a digit, and none
    is found in front of a text that starts with another, shorter or equally
    long, one. *)
Definition names_ok (names : list jstr) : Prop :=
  Forall (fun n => n <> [] /\ is_digit (cur n) = false) names /\
  forall i j ni nj rest, names !! i = Some ni -> names !! j = Some nj -> i <> j ->
    (length ni <= length nj)%nat -> lower (take (length nj) (ni ++ rest)) <> lower nj.

(** A test of [names_ok] for names in ASCII. *)
Definition names_okb (names : list jstr) : bool :=
  forallb (fun n => bool_decide (n <> []) && negb (is_digit (cur n)) && forallb (fun c => (c <? 128)%N) n) names &&
  forallb (fun '(i, ni) => forallb (fun '(j, nj) =>
      (i =? j)%nat || (length nj <? length ni)%nat || negb (bool_decide (lower (take (length ni) nj) = lower ni)))
    (imap pair names)) (imap pair names).

Lemma lower_app s t : lower (s ++ t) = lower s ++ lower t.
Proof. apply flat_map_app. Qed.

Lemma lower_ascii_length s : Forall (fun c => (c < 128)%N) s -> length (lower s) = length s.
Proof.
  induction 1 as [|c s Hc _ IH]; [done|].
  change (lower (c :: s)) with (lower_char unicode_lower c ++ lower s). rewrite length_app, IH.
  unfold lower_char. by rewrite (proj2 (N.ltb_lt c 128)) by done.
Qed.

Lemma names_okb_sound names : names_okb names = true -> names_ok names.
Proof.
  unfold names_okb. intros [H1 H2]%andb_true_iff. rewrite forallb_forall in H1. rewrite forallb_forall in H2.
  assert (forall n, n ∈ names -> (n <> [] /\ is_digit (cur n) = false) /\ Forall (fun c => (c < 128)%N) n) as Hn.
  { intros n Hin%list_elem_of_In. specialize (H1 n Hin).
    apply andb_true_iff in H1 as [[Ha Hb%negb_true_iff]%andb_true_iff Hc]. apply bool_decide_eq_true in Ha.
    split; [done|]. apply Forall_forall. intros c Hin'%list_elem_of_In. rewrite forallb_forall in Hc. by apply N.ltb_lt, Hc. }
  split; [apply Forall_forall; intros n Hin; by apply Hn|].
  intros i j ni nj rest Hi Hj Hij Hlen E.
  assert (forall k n, names !! k = Some n -> In (k, n) (imap pair names)) as Hpair.
  { intros k n Hk. apply list_elem_of_In, elem_of_lookup_imap. by exists k, n. }
  specialize (H2 _ (Hpair i ni Hi)). cbv beta iota in H2. rewrite forallb_forall in H2.
  specialize (H2 _ (Hpair j nj Hj)). cbv beta iota in H2.
  rewrite (proj2 (Nat.eqb_neq i j) Hij), (proj2 (Nat.ltb_ge _ _) Hlen) in H2. cbn [orb] in H2. bool_hyps.
  apply bool_decide_eq_false in H2. apply H2. rewrite take_app_ge, lower_app in E by done.
  rewrite <-(take_drop (length ni) nj) in E at 2. rewrite lower_app in E.
  destruct (Hn ni) as [_ Hai]; [by eapply list_elem_of_lookup_2|].
  destruct (Hn nj) as [_ Haj]; [by eapply list_elem_of_lookup_2|].
  apply app_inj_1 in E as [E _]; [done|].
  rewrite !lower_ascii_length, length_take_le by (done || by apply Forall_take). done.
Qed.

Abbreviation longer := (fun x y : nat * jstr => (length y.2 <= length x.2)%nat).

Lemma insert_name_elem x l y : y ∈ insert_name x l <-> y = x \/ y ∈ l.
Proof.
  induction l as [|z l IH]; cbn; [set_solver|]. destruct (_ <=? _)%nat; [set_solver|].
  rewrite elem_of_cons, IH, elem_of_cons. tauto.
Qed.

Lemma insert_name_sorted x l : StronglySorted longer l -> StronglySorted longer (insert_name x l).
Proof.
  induction 1 as [|y l Hl IH Hy]; cbn; [by repeat constructor|].
  destruct (_ <=? _)%nat eqn:E; bool_hyps.
  - constructor; [by constructor|]. constructor; [done|]. eapply Forall_impl; [exact Hy|]. cbn. lia.
  - constructor; [done|]. apply Forall_forall. intros z Hz. apply insert_name_elem in Hz as [->|Hz]; [lia|].
    rewrite Forall_forall in Hy. by apply Hy.
Qed.

Lemma sorted_names_spec names :
  StronglySorted longer (sorted_names names) /\ forall k n, (k, n) ∈ sorted_names names <-> names !! k = Some n.
Proof.
  unfold sorted_names. assert (forall l : list (nat * jstr), StronglySorted longer (foldr insert_name [] l)
    /\ forall p, p ∈ foldr insert_name [] l <-> p ∈ l) as Hgen.
  { induction l as [|x l [IH1 IH2]]; cbn; [by split; [constructor|]|]. split; [by apply insert_name_sorted|].
    intros p. rewrite insert_name_elem, IH2, elem_of_cons. done. }
  destruct (Hgen (imap pair names)) as [H1 H2]. split; [done|]. intros k n. rewrite H2, elem_of_lookup_imap. split.
  - intros (i & x & [= -> ->] & Hx). done.
  - intros Hx. by exists k, n.
Qed.

(** In a list sorted by length, the first match is the one of that length. *)
Lemma find_sorted (P : nat * jstr -> bool) l x : StronglySorted longer l -> x ∈ l -> P x = true ->
  (forall y, y ∈ l -> P y = true -> (length x.2 <= length y.2)%nat -> y = x) -> List.find P l = Some x.
Proof.
  induction 1 as [|y l Hl IH Hy]; intros Hx HP Hu; [by apply elem_of_nil in Hx|]. cbn.
  destruct (P y) eqn:EP.
  - f_equal. apply Hu; [by left|done|]. apply elem_of_cons in Hx as [->|Hx]; [done|].
    rewrite Forall_forall in Hy. by apply Hy.
  - apply elem_of_cons in Hx as [->|Hx]; [congruence|]. apply IH; [done..|]. intros z Hz. apply Hu. by right.
Qed.

Lemma find_name_ok names s i n rest : names_ok names -> names !! i = Some n -> rest_is s (n ++ rest) ->
  find_name unicode_lower value (sorted_names names) s
  = (Ok (Fin (Z.of_nat i + 1)), set_iValue (iValue s + length n) s).
Proof.
  intros [_ Hok] Hi Hr. unfold find_name. unfold rest_is in Hr. rewrite Hr. destruct (sorted_names_spec names) as [Hs Hin].
  rewrite (find_sorted _ _ (i, n) Hs); [done|by apply Hin|..].
  - cbn. apply bool_decide_eq_true. by rewrite take_app_length.
  - intros [j m] Hj HP Hlen. cbn in *. apply Hin in Hj. apply bool_decide_eq_true in HP.
    destruct (decide (i = j)) as [<-|Hne]; [by simplify_eq|]. exfalso. by eapply (Hok i j).
Qed.
End parse.
