(* ===== verification/DateFields.v ===== *)
(** * parseDate, field by field

    A turn of the loop of [parseDate] reads one field of the format; a field that
    [formatDate] wrote reads back as it was. *)

From Stdlib Require Import Sorting.Sorted.
From S2P Require Import Prelude JsNum JsDate DateFormat DateFacts DateTokens.

Section fields.
Context `{TimeZone} (unicode_lower : N -> jstr) (value : jstr).

Definition parse_tok (g : format_names) (t : tok) : SM pst unit :=
  match t with
  | TNum c doubled =>
      n ← read_digits value (number_size c doubled) 1;
      sm_mod (if (c =? chr "d")%N then set_day n else if (c =? chr "o")%N then set_doy n else set_month n)
  | TName c doubled =>
      n ← find_name unicode_lower value (sorted_names (names_of g c doubled));
      if (c =? chr "D")%N then mret tt else sm_mod (set_month n)
  | TYear doubled =>
      let size := number_size (chr "y") doubled in
      n ← read_digits value size size; sm_mod (set_year n)
  | TTime => n ← read_digits value 14 1; sm_mod (set_ymd (date_of_time n))
  | TTicks =>
      n ← read_digits value 20 1;
      sm_mod (set_ymd (match n with
                       | Fin n => date_of_time (Fin (trunc_div (round53 (n - _ticksTo1970)) 10000))
                       | _ => None
                       end))
  | TLit c => fun s =>
      if bool_decide (value !! iValue s = Some c) then (Ok tt, set_iValue (S (iValue s)) s)
      else (Throw (str "Unexpected literal at position " ++ at_position s), s)
  end.

Lemma cur_head fmt c : head fmt = Some c -> cur fmt = c.
Proof. destruct fmt; [done|]. by intros [= ->]. Qed.

Lemma lookAhead_head m fmt fmt' : lookAhead m fmt = (true, fmt') -> head fmt' = Some m.
Proof.
  destruct fmt as [|c [|x r]]; [done..|]. cbn. destruct (x =? m)%N eqn:E; bool_hyps; [|done].
  intros [= <-]. by subst.
Qed.

Lemma checkLiteral_tok s fmt c : head fmt = Some c ->
  checkLiteral value (set_fmt fmt s) = parse_tok regional_en (TLit c) (set_fmt fmt s).
Proof. intros Hc. unfold checkLiteral. cbn. by rewrite Hc. Qed.

Lemma set_fmt_id s : set_fmt (p_fmt s) s = s.
Proof. by destruct s. Qed.

Lemma lookAhead_false m fmt fmt' : lookAhead m fmt = (false, fmt') -> fmt' = fmt.
Proof.
  destruct fmt as [|c [|x r]]; cbn; [by intros [= <-]..|]. destruct (x =? m)%N; by intros [= <-].
Qed.

(** A turn of the loop is the field at the head of the format. *)
Lemma parse_step_tok g s fmt t literal' fmt' : p_fmt s = fmt -> fmt <> [] ->
  next_tok (literal s) fmt = (t, literal', fmt') ->
  (t = Some TTime \/ t = Some TTicks -> lookAhead (cur fmt) fmt = (false, fmt)) ->
  parse_step unicode_lower value g s = match t with
    | Some t => parse_tok g t (set_fmt fmt' s)
    | None => (Ok tt, set_literal literal' (set_fmt fmt' s))
    end /\ (t <> None -> literal' = literal s).
Proof.
  intros Hf Hne Htok Htime. revert Htok. unfold next_tok, parse_step. cbv zeta.
  rewrite (sm_bind_eq _ _ s (Ok (cur fmt)) s) by (unfold sm_get; by rewrite Hf).
  rewrite (sm_bind_eq _ _ s (Ok (literal s)) s) by done.
  assert (forall m b f, lookAhead m fmt = (b, f) -> look m s = (Ok b, set_fmt f s)) as Hlook
    by (intros m b f E; unfold look; by rewrite Hf, E).
  assert (forall (f : bool -> SM pst unit) m b r, lookAhead m fmt = (b, r) ->
    (look m ≫= f) s = f b (set_fmt r s)) as Hl by (intros f m b r E; by rewrite (sm_bind_eq _ _ _ _ _ (Hlook m b r E))).
  assert (head fmt = Some (cur fmt)) as Hcur by (by destruct fmt).
  pose proof (set_fmt_id s) as Hid. rewrite Hf in Hid.
  destruct (literal s) eqn:Elit.
  - destruct (cur fmt =? ch_quote)%N.
    + destruct (lookAhead ch_quote fmt) as [[] f'] eqn:E; rewrite (Hl _ _ _ _ E); intros [= <- <- <-]; (split; [|done]).
      * rewrite (checkLiteral_tok s f' ch_quote) by (by eapply lookAhead_head). done.
      * done.
    + intros [= <- <- <-]. split; [|done]. rewrite <-Hid at 1. by apply checkLiteral_tok.
  - revert Hcur Htime. generalize (cur fmt). intros c Hcur Htime.
    unfold getNumber, getName, mbind, sm_bind in *.
    char_cases c; known_char.
    1-6: destruct (lookAhead _ fmt) as [b f'] eqn:E; rewrite (Hlook _ _ _ E); intros [= <- <- <-]; by split.
    1-2: intros [= <- <- <-]; rewrite (Hlook _ _ _ (Htime ltac:(auto))); by split.
    + destruct (lookAhead _ fmt) as [b f'] eqn:E; rewrite (Hlook _ _ _ E).
      destruct b; intros [= <- <- <-]; (split; [|done]); [|done].
      rewrite (checkLiteral_tok s f' ch_quote) by (by eapply lookAhead_head). done.
    + other_char. intros [= <- <- <-]. split; [|done]. rewrite <-Hid at 1. by apply checkLiteral_tok.
Qed.

(** *** What each field reads back *)

Definition fields (s : pst) : num * num * num * num := (year s, month s, day s, doy s).

(** The fields of a date, as the text of a field tells them. *)
Definition tell (d : date) (t : tok) (f : num * num * num * num) : num * num * num * num :=
  let '(y, m, dt, o) := f in
  match t with
  | TNum c _ =>
      if (c =? chr "d")%N then (y, m, getDate d, o)
      else if (c =? chr "o")%N then (y, m, dt, dayOfYear d) else (y, Num.add (getMonth d) (Fin 1), dt, o)
  | TName c _ => if (c =? chr "D")%N then f else (y, Num.add (getMonth d) (Fin 1), dt, o)
  | TYear doubled => (if doubled then getFullYear d else Num.rem (getFullYear d) (Fin 100), m, dt, o)
  | TTime => (getFullYear d, Num.add (getMonth d) (Fin 1), getDate d, o)
  | TTicks | TLit _ => f
  end.

(** Fields whose text may go on with a digit of the next field. *)
Definition needs_sep (t : tok) : bool := match t with TNum _ doubled => negb doubled | TTime => true | _ => false end.

Definition starts_digit (t : tok) : bool :=
  match t with TNum _ _ | TYear _ | TTime | TTicks => true | TName _ _ => false | TLit c => is_digit c end.

Fixpoint separated (ts : list tok) : bool :=
  match ts with
  | t :: ((t' :: _) as ts') => (negb (needs_sep t) || negb (starts_digit t')) && separated ts'
  | _ => true
  end.

(** The settings have the names of seven days and of twelve months, and these can
    be told apart. *)
Definition settings_ok (g : format_names) : Prop :=
  (forall doubled, length (names_of g (chr "D") doubled) = 7%nat /\ names_ok unicode_lower (names_of g (chr "D") doubled)) /\
  (forall doubled, length (names_of g (chr "M") doubled) = 12%nat /\ names_ok unicode_lower (names_of g (chr "M") doubled)).

Definition valid_tok (t : tok) : Prop :=
  match t with TNum c _ => c ∈ str "dom" | TName c _ => c ∈ str "DM" | _ => True end.

Lemma next_tok_valid literal fmt t literal' fmt' : next_tok literal fmt = (Some t, literal', fmt') -> valid_tok t.
Proof.
  unfold next_tok. cbv zeta. intros E. destruct literal.
  - destruct (_ =? _)%N; [destruct (lookAhead _ fmt) as [[] ?]|]; by simplify_eq/=.
  - destruct (bool_decide (cur fmt ∈ str "dom")) eqn:E1;
      [apply bool_decide_eq_true in E1; destruct (lookAhead _ fmt) as [? ?]; by simplify_eq/=|].
    destruct (bool_decide (cur fmt ∈ str "DM")) eqn:E2;
      [apply bool_decide_eq_true in E2; destruct (lookAhead _ fmt) as [? ?]; by simplify_eq/=|].
    destruct (_ =? _)%N; [destruct (lookAhead _ fmt) as [? ?]; by simplify_eq/=|].
    do 2 (destruct (_ =? _)%N; [by simplify_eq/=|]).
    destruct (_ =? _)%N; [destruct (lookAhead _ fmt) as [[] ?]|]; by simplify_eq/=.
Qed.

Context `{!TimeZoneLaws}.

(** The dates for which the text of every field is as wide as [parseDate] reads:
    years of four digits, and with the field [@] a time that is not negative and
    has at most fourteen digits. *)
Definition writable (tm : Z) (ts : list tok) : Prop :=
  1000 <= YearFromDay (local_day tm) <= 9999 /\ TTicks ∉ ts /\ (TTime ∈ ts -> 0 <= tm < 10 ^ 14).

Lemma number_bounds tm c : 1000 <= YearFromDay (local_day tm) <= 9999 -> c ∈ str "dom" ->
  exists z, number_of (Some tm) c = Fin z /\ 0 <= z < 10 ^ Z.of_nat (width_of c).
Proof.
  intros Hy Hc. destruct (date_of_fields (local_day tm)) as [[Hm Hdt] _].
  pose proof (days_in_month_bounds (YearFromDay (local_day tm)) _ Hm).
  assert (c = chr "d" \/ c = chr "o" \/ c = chr "m") as Hc' by (change (str "dom") with [chr "d"; chr "o"; chr "m"] in Hc; set_solver).
  destruct Hc' as [->|[->| ->]]; unfold number_of, width_of; known_char.
  - exists (DateFromDay (local_day tm)). rewrite getDate_Some. cbn. split; [done|lia].
  - rewrite dayOfYear_eq by lia. eexists. split; [done|]. cbn.
    pose proof (YearFromDay_spec (local_day tm)). pose proof (year_length (YearFromDay (local_day tm))).
    assert (month_start (leap_year (YearFromDay (local_day tm))) 12 <= 366) by (by destruct (leap_year _)).
    unfold DayWithinYear. lia.
  - exists (MonthFromDay (local_day tm) + 1). rewrite getMonth_Some. cbn. split; [done|lia].
Qed.

Lemma two_digits_writes tm : 1000 <= YearFromDay (local_day tm) <= 9999 ->
  writes (two_digits (Some tm)) (Z.rem (YearFromDay (local_day tm)) 100) /\ length (two_digits (Some tm)) = 2%nat.
Proof.
  intros Hy. unfold two_digits. rewrite getFullYear_Some. cbn [Num.rem Num.lt Z.eqb].
  set (r := Z.rem (YearFromDay (local_day tm)) 100).
  assert (0 <= r < 100) as Hr by (unfold r; rewrite Z.rem_mod_nonneg by lia; apply Z.mod_pos_bound; lia).
  destruct (padded_writes r 2) as [Hw Hl]; [done|lia|].
  assert (pad_zeros 2 (num_to_str (Fin r)) 2 = (if r <? 10 then str "0" else []) ++ num_to_str (Fin r)) as <-; [|done].
  rewrite nonneg_str, N_to_str_step by lia.
  assert ((Z.to_N r <? 10)%N = (r <? 10)) as -> by (destruct (r <? 10) eqn:E; bool_hyps; [apply N.ltb_lt|apply N.ltb_ge]; lia).
  destruct (r <? 10) eqn:E; bool_hyps; [done|]. cbn [app].
  assert (1 <= length (N_to_str (Z.to_N r / 10)))%nat.
  { pose proof (N_to_str_nonempty (Z.to_N r / 10)). destruct (N_to_str (Z.to_N r / 10)); [done|cbn; lia]. }
  cbn [pad_zeros]. rewrite length_app. cbn [length]. by rewrite (proj2 (Nat.ltb_ge _ _)) by lia.
Qed.

(** A numeric field: its text, and how wide it is. *)
Lemma num_field_writes tm c doubled : 1000 <= YearFromDay (local_day tm) <= 9999 -> c ∈ str "dom" ->
  exists z, number_of (Some tm) c = Fin z /\ z < 2 ^ 53 /\ let ds := fmt_tok regional_en (Some tm) (TNum c doubled) in
    writes ds z /\ (1 <= length ds <= number_size c doubled)%nat /\ (doubled = true -> length ds = number_size c doubled).
Proof.
  intros Hy Hc. destruct (number_bounds tm c Hy Hc) as (z & Ez & Hz).
  assert (number_size c doubled = width_of c) as ->.
  { change (str "dom") with [chr "d"; chr "o"; chr "m"] in Hc. unfold number_size, width_of.
    repeat (apply elem_of_cons in Hc as [->|Hc]; [known_char; done|]). by apply elem_of_nil in Hc. }
  assert (0 < width_of c <= 3)%nat as Hw by (unfold width_of; case_match; lia).
  exists z. split; [done|]. split; [|cbn [fmt_tok]; rewrite Ez; cbv zeta].
  - apply (Z.lt_le_trans _ (10 ^ Z.of_nat (width_of c))); [lia|]. unfold width_of. by case_match.
  - destruct doubled.
    + destruct (padded_writes z (width_of c) Hz) as [H1 H2]; [lia|]. split_and!; [done|lia|lia|done].
    + destruct (num_writes z) as (H1 & H2 & H3); [lia|]. pose proof (num_length z (width_of c) Hz).
      split_and!; [done| |lia|done]. destruct (num_to_str (Fin z)); [done|cbn; lia].
Qed.

Lemma name_field g tm c doubled : settings_ok g -> c ∈ str "DM" ->
  exists i n, (if (c =? chr "D")%N then getDay (Some tm) else getMonth (Some tm)) = Fin (Z.of_nat i)
    /\ names_of g c doubled !! i = Some n /\ fmt_tok g (Some tm) (TName c doubled) = n
    /\ names_ok unicode_lower (names_of g c doubled).
Proof.
  intros [HD HM] Hc. destruct (date_of_fields (local_day tm)) as [[Hm _] _].
  assert (forall names z k, 0 <= z < Z.of_nat k -> length names = k -> names_ok unicode_lower names ->
    exists i n, Fin z = Fin (Z.of_nat i) /\ names !! i = Some n /\ name_at names (Fin z) = n
      /\ names_ok unicode_lower names) as Hgen.
  { intros names z k Hz Hk Hok. destruct (lookup_lt_is_Some_2 names (Z.to_nat z)) as [n Hn]; [lia|].
    exists (Z.to_nat z), n. rewrite Z2Nat.id by lia. split_and!; [done|done| |done].
    unfold name_at. by rewrite (proj2 (Z.ltb_ge z 0)), Hn by lia. }
  assert (c = chr "D" \/ c = chr "M") as [->| ->] by (change (str "DM") with [chr "D"; chr "M"] in Hc; set_solver);
    cbn [fmt_tok]; known_char.
  - destruct (HD doubled) as [Hl Hok]. apply (Hgen _ _ 7%nat); [|done|done]. unfold WeekDay. apply Z.mod_pos_bound. done.
  - destruct (HM doubled) as [Hl Hok]. rewrite getMonth_Some. by apply (Hgen _ _ 12%nat).
Qed.

(** Reading one field back. *)
Lemma parse_tok_ok g tm t s rest : settings_ok g -> valid_tok t -> writable tm [t] ->
  rest_is value s (fmt_tok g (Some tm) t ++ rest) -> (needs_sep t = true -> is_digit (cur rest) = false) ->
  exists s', parse_tok g t s = (Ok tt, s') /\ rest_is value s' rest /\ fields s' = tell (Some tm) t (fields s)
    /\ p_fmt s' = p_fmt s /\ literal s' = literal s.
Proof.
  intros Hg Hv (Hy & Hticks & Htime) Hr Hsep.
  pose proof (rest_advance value s _ _ Hr) as Hr'.
  destruct t as [c doubled|c doubled|doubled| | |c]; cbn [parse_tok].
  - destruct (num_field_writes tm c doubled Hy Hv) as (z & Ez & Hz & Hw & Hlen & Hfull).
    erewrite sm_bind_eq; [|eapply (read_digits_ok value); [exact Hr|exact Hw|exact Hlen| |exact Hz]].
    2: { destruct doubled; [left; by apply Hfull|right; by apply Hsep]. }
    change (fmt_tok regional_en) with (fmt_tok g) in Hr'. unfold sm_mod, number_of in *.
    destruct (c =? chr "d")%N eqn:Ed; [|destruct (c =? chr "o")%N eqn:Eo]; (eexists; split; [reflexivity|]);
      (split; [exact Hr'|]); cbn [tell fields]; rewrite Ed, ?Eo, Ez; done.
  - destruct (name_field g tm c doubled Hg Hv) as (i & n & Ei & Hn & En & Hok). rewrite En in Hr, Hr'.
    rewrite (sm_bind_eq _ _ _ _ _ (find_name_ok unicode_lower value _ s i n rest Hok Hn Hr)).
    destruct (c =? chr "D")%N eqn:EcD; (eexists; split; [reflexivity|]); (split; [exact Hr'|]); cbn [tell fields]; rewrite EcD.
    + done.
    + by rewrite Ei.
  - cbn [fmt_tok] in Hr, Hr'. cbv zeta. destruct doubled.
    + destruct (num_writes (YearFromDay (local_day tm))) as (H1 & H2 & H3); [lia|].
      rewrite getFullYear_Some in *.
      assert (length (num_to_str (Fin (YearFromDay (local_day tm)))) = 4%nat) as Hlen.
      { pose proof (num_length (YearFromDay (local_day tm)) 4). rewrite nonneg_str in * by lia.
        pose proof (N_to_str_length_ge (Z.to_N (YearFromDay (local_day tm))) 3). cbn in *. lia. }
      erewrite sm_bind_eq; [|eapply (read_digits_ok value); [exact Hr|done|by rewrite Hlen|by left|lia]].
      eexists. split; [reflexivity|]. split; [exact Hr'|]. cbn [tell fields]. by rewrite getFullYear_Some.
    + destruct (two_digits_writes tm Hy) as [Hw Hlen].
      assert (0 <= Z.rem (YearFromDay (local_day tm)) 100 < 100) as Hrem
        by (rewrite Z.rem_mod_nonneg by lia; apply Z.mod_pos_bound; lia).
      erewrite sm_bind_eq; [|eapply (read_digits_ok value); [exact Hr|exact Hw|by rewrite Hlen|by left|lia]].
      eexists. split; [reflexivity|]. split; [exact Hr'|]. cbn [tell fields]. by rewrite getFullYear_Some.
  - cbn [fmt_tok] in Hr, Hr'. specialize (Htime ltac:(by left)). cbn [getTime] in *.
    destruct (num_writes tm) as (H1 & H2 & H3); [lia|]. pose proof (num_length tm 14 Htime ltac:(lia)).
    assert (1 <= length (num_to_str (Fin tm)))%nat by (destruct (num_to_str (Fin tm)); [done|cbn; lia]).
    erewrite sm_bind_eq; [|eapply (read_digits_ok value); [exact Hr|done|lia|right; by apply Hsep|lia]].
    eexists. split; [reflexivity|]. split; [exact Hr'|]. cbn [date_of_time]. unfold TimeClip.
    rewrite (proj2 (Z.leb_le _ _)) by lia. done.
  - exfalso. apply Hticks. by left.
  - cbn [fmt_tok app length] in Hr, Hr'. unfold rest_is in Hr.
    assert (value !! iValue s = Some c) as -> by (rewrite <-(Nat.add_0_r (iValue s)), <-lookup_drop, Hr; done).
    rewrite bool_decide_true by done. eexists. split; [reflexivity|]. split; [|done].
    by rewrite <-Nat.add_1_r.
Qed.
End fields.
