(* ===== verification/DateProps.v ===== *)
(** * The properties of date formats

    Parsing what was formatted, the length of months, the number of the week,
    and the characters that an input field accepts. *)

From S2P Require Import Prelude JsNum JsDate DateFormat DateFacts DateTokens DateFields.

Section properties.
Context `{TimeZoneLaws} (unicode_lower : N -> jstr).

(** ** Round trip *)

Section value.
Context (value : jstr) (g : format_names) (tm : Z).
Context (g_ok : settings_ok unicode_lower g).

Abbreviation text ts := (concat (List.map (fmt_tok g (Some tm)) ts)).

Lemma names_nonempty c doubled : c ∈ str "DM" ->
  let n := fmt_tok g (Some tm) (TName c doubled) in n <> [] /\ is_digit (cur n) = false.
Proof.
  intros Hc. destruct (name_field unicode_lower g tm c doubled g_ok Hc) as (i & n & _ & Hn & -> & [Hok _]).
  rewrite Forall_forall in Hok. apply Hok. by eapply list_elem_of_lookup_2.
Qed.

Lemma cur_app (s r : jstr) : s <> [] -> cur (s ++ r) = cur s.
Proof. by destruct s. Qed.

(** In a separated format, the text after a field that needs it has no digit. *)
Lemma separated_text t ts : separated (t :: ts) = true -> Forall valid_tok ts -> needs_sep t = true ->
  is_digit (cur (text ts)) = false.
Proof.
  intros Hsep Hv Ht. destruct ts as [|t' ts]; [done|]. apply andb_true_iff in Hsep as [Hs _].
  rewrite Ht in Hs. cbn [negb orb] in Hs. apply negb_true_iff in Hs. apply Forall_cons in Hv as [Hv _].
  destruct t'; cbn [starts_digit] in Hs; try done.
  cbn [List.map concat]. destruct (names_nonempty c doubled Hv) as [Hne Hd]. by rewrite cur_app.
Qed.

Lemma tokens_valid n lit fmt : Forall valid_tok (tokens_loop n lit fmt).
Proof.
  revert lit fmt. induction n as [|n IH]; intros lit fmt; [by destruct fmt|]. destruct fmt as [|c fmt]; [done|].
  cbn [tokens_loop]. destruct (next_tok lit (c :: fmt)) as [[t lit'] fmt'] eqn:E. apply Forall_app. split; [|apply IH].
  destruct t as [t|]; [|done]. cbn. repeat constructor. by eapply next_tok_valid.
Qed.

(** A doubled [@] would be one field of [parseDate] and two of [formatDate]. *)
Lemma time_not_doubled n lit fmt lit' fmt' : next_tok lit fmt = (Some TTime, lit', fmt') ->
  (length fmt <= n)%nat -> separated (tokens_loop n lit fmt) = true -> lookAhead (cur fmt) fmt = (false, fmt).
Proof.
  intros E Hn Hs. destruct n as [|n]; [by destruct fmt; cbn in Hn; [|lia]|]. destruct fmt as [|c fmt]; [done|].
  assert (c = chr "@" /\ lit = false /\ fmt' = c :: fmt /\ lit' = false) as (-> & -> & -> & ->).
  { unfold next_tok in E. cbv zeta in E. destruct lit.
    - destruct (_ =? _)%N; [destruct (lookAhead _ _) as [[] ?]|]; by simplify_eq/=.
    - cbn [cur head default id] in E.
      destruct (bool_decide (c ∈ str "dom")); [destruct (lookAhead _ _); by simplify_eq/=|].
      destruct (bool_decide (c ∈ str "DM")); [destruct (lookAhead _ _); by simplify_eq/=|].
      destruct (c =? chr "y")%N; [destruct (lookAhead _ _); by simplify_eq/=|].
      destruct (c =? chr "@")%N eqn:Ec; [bool_hyps; by simplify_eq/=|].
      destruct (c =? chr "!")%N; [by simplify_eq/=|].
      destruct (c =? ch_quote)%N; [destruct (lookAhead _ _) as [[] ?]|]; by simplify_eq/=. }
  cbn [tokens_loop] in Hs. rewrite E in Hs. cbn [tail option_list app] in Hs.
  destruct fmt as [|x fmt]; [done|]. cbn [cur head default id lookAhead]. destruct (x =? chr "@")%N eqn:Ex; [|done].
  bool_hyps. subst x. destruct n as [|n]; [cbn in Hn; lia|]. cbn [tokens_loop] in Hs.
  change (next_tok false (chr "@" :: fmt)) with (Some TTime, false, chr "@" :: fmt) in Hs. done.
Qed.

Lemma separated_tail t ts : separated (t :: ts) = true -> separated ts = true.
Proof. destruct ts; [done|]. by intros [_ ?]%andb_true_iff. Qed.

(** The whole loop. *)
Lemma parse_loop_ok n k s lit fmt : p_fmt s = fmt -> literal s = lit -> (length fmt < n)%nat -> (length fmt <= k)%nat ->
  let ts := tokens_loop k lit fmt in
  rest_is value s (text ts) -> separated ts = true -> writable tm ts ->
  exists s', parse_loop unicode_lower value n g s = (Ok tt, s') /\ rest_is value s' []
    /\ fields s' = fold_left (fun f t => tell (Some tm) t f) ts (fields s).
Proof.
  revert k s lit fmt. induction n as [|n IH]; intros k s lit fmt Hf Hl Hn Hk ts Hr Hsep Hw; [lia|].
  cbn [parse_loop]. rewrite Hf. destruct fmt as [|c fmt];
    [exists s; subst ts; by destruct k|].
  destruct k as [|k]; [cbn in Hk; lia|]. subst ts. cbn [tokens_loop] in *.
  destruct (next_tok lit (c :: fmt)) as [[t lit'] fmt'] eqn:E. pose proof (next_tok_length _ _ _ _ _ E) as Hlen.
  assert (length (tail fmt') < n /\ length (tail fmt') <= k)%nat as [Hn' Hk'] by (destruct fmt'; cbn in *; lia).
  pose proof (tokens_valid k lit' (tail fmt')) as Hv. set (ts := tokens_loop k lit' (tail fmt')) in *.
  assert (writable tm ts) as Hwts.
  { destruct Hw as (H1 & H2 & H3). split; [done|]. split; [intros Hin; apply H2|intros Hin; apply H3]; apply elem_of_app; by right. }
  destruct (parse_step_tok unicode_lower value g s (c :: fmt) t lit' fmt' Hf) as [Hstep Hlit]; [done|by rewrite Hl|..].
  { intros [->| ->].
    - apply (time_not_doubled (S k) lit _ lit' fmt' E); [cbn in Hk |- *; lia|]. cbn [tokens_loop]. by rewrite E.
    - exfalso. destruct Hw as (_ & Hticks & _). apply Hticks. by left. }
  assert (exists s1, parse_step unicode_lower value g s = (Ok tt, s1) /\ rest_is value s1 (text ts)
    /\ fields s1 = fold_left (fun f t => tell (Some tm) t f) (option_list t) (fields s)
    /\ p_fmt s1 = fmt' /\ literal s1 = lit') as (s1 & E1 & Hr1 & Hf1 & Hp1 & Hl1).
  { rewrite Hstep. destruct t as [t|].
    - cbn [option_list app List.map concat] in *.
      destruct (parse_tok_ok unicode_lower value g tm t (set_fmt fmt' s) (text ts)) as (s1 & E1 & Hr1 & Hf1 & Hp1 & Hl1);
        [done|by eapply next_tok_valid| |done| |].
      + destruct Hw as (H1 & H2 & H3). split; [done|]. split; [set_solver|]. intros Hin. apply H3. set_solver.
      + intros Hs. by apply (separated_text t ts).
      + exists s1. split_and!; try done. rewrite Hl1. symmetry. by apply Hlit.
    - by eexists. }
  rewrite (sm_bind_eq _ _ _ _ _ E1). rewrite (sm_bind_eq _ _ s1 (Ok tt) (set_fmt (tail fmt') s1))
    by (unfold sm_mod; by rewrite Hp1).
  destruct (IH k (set_fmt (tail fmt') s1) lit' (tail fmt')) as (s2 & E2 & Hr2 & Hf2); try done.
  { destruct t as [t|]; [exact (separated_tail t ts Hsep)|done]. }
  exists s2. split_and!; [done|done|]. rewrite Hf2, fold_left_app. fold ts. f_equal. exact Hf1.
Qed.
End value.

(** What the fields of a format determine: the year, the month, the day of the
    month and the day of the year. *)
Definition know (t : tok) (k : bool * bool * bool * bool) : bool * bool * bool * bool :=
  let '(y, m, d, o) := k in
  match t with
  | TNum c _ => if (c =? chr "d")%N then (y, m, true, o) else if (c =? chr "o")%N then (y, m, d, true) else (y, true, d, o)
  | TName c _ => if (c =? chr "D")%N then k else (y, true, d, o)
  | TYear doubled => (doubled, m, d, o)
  | TTime => (true, true, true, o)
  | TTicks | TLit _ => k
  end.

(** A format that determines the day: the last year in it has four digits. *)
Definition complete (ts : list tok) : bool :=
  let '(y, m, d, o) := fold_left (fun k t => know t k) ts (false, false, false, false) in y && (o || m && d).

Lemma know_tell d ts k f :
  let agree '(y, m, dt, o) '(fy, fm, fd, fo) :=
    (y = true -> fy = getFullYear d) /\ (m = true -> fm = Num.add (getMonth d) (Fin 1))
    /\ (dt = true -> fd = getDate d) /\ fo = (if o : bool then dayOfYear d else Fin (-1)) in
  agree k f -> agree (fold_left (fun k t => know t k) ts k) (fold_left (fun f t => tell d t f) ts f).
Proof.
  intros agree. revert k f. induction ts as [|t ts IH]; intros k f Hkf; [done|]. cbn [fold_left]. apply IH.
  destruct k as [[[y m] dt] o], f as [[[fy fm] fd] fo], Hkf as (H1 & H2 & H3 & H4).
  destruct t as [c doubled|c doubled|[]| | |c]; cbn [know tell]; repeat case_match; by split_and!.
Qed.

(** The year of a complete format is written. *)
Lemma complete_text ts g tm : complete ts = true -> concat (List.map (fmt_tok g (Some tm)) ts) <> [].
Proof.
  unfold complete. intros Hc Ht.
  assert (forall z, num_to_str (Fin z) <> []) as Hne.
  { intros z. cbn. unfold Z_to_str. destruct (z <? 0); [done|]. auto with jslib. }
  assert (forall ts k, (fold_left (fun k t => know t k) ts k).1.1.1 = true -> k.1.1.1 = true \/ TYear true ∈ ts \/ TTime ∈ ts) as Hin.
  { clear. induction ts as [|t ts IH]; intros k; cbn [fold_left]; [by left|]. intros Hk.
    destruct (IH _ Hk) as [Hk'|[?|?]]; [|right; left; by right|right; right; by right].
    destruct k as [[[y m] d] o]. destruct t as [c doubled|c doubled|[]| | |c]; cbn [know] in Hk';
      try (destruct (c =? _)%N; [by left|]); try (destruct (c =? _)%N; by left); try (by left); try done.
    - right; left; by left.
    - right; right; by left. }
  destruct (fold_left _ ts _) as [[[y m] d] o] eqn:E. apply andb_true_iff in Hc as [Hy _].
  assert (exists t, t ∈ ts /\ fmt_tok g (Some tm) t <> []) as (t & Hts & Hne').
  { destruct (Hin ts (false, false, false, false)) as [?|[?|?]]; [by rewrite E|done|..].
    - exists (TYear true). split; [done|]. cbn [fmt_tok]. rewrite getFullYear_Some. apply Hne.
    - exists TTime. split; [done|]. apply Hne. }
  apply Hne'. destruct (fmt_tok g (Some tm) t) as [|c l] eqn:El; [done|]. exfalso.
  assert (c ∈ concat (List.map (fmt_tok g (Some tm)) ts)) as Hc'; [|rewrite Ht in Hc'; by apply elem_of_nil in Hc'].
  apply list_elem_of_In, in_concat. exists (c :: l). split; [|by left].
  rewrite <-El. apply in_map. by apply list_elem_of_In.
Qed.

(** The end of [parseDate] on the fields of a day. *)
Lemma parse_end_ok Y fm fd fo tm : 1000 <= Y <= 9999 -> let D := local_day tm in YearFromDay D = Y ->
  (fo = Fin (-1) /\ fm = Num.add (getMonth (Some tm)) (Fin 1) /\ fd = getDate (Some tm) \/ fo = dayOfYear (Some tm)) ->
  exists tm', parse_end 40 (Fin Y) fm fd fo = Ok (Some tm') /\ local_day tm' = D.
Proof.
  intros HY D EY Hf. destruct (date_of_fields D) as [[Hm Hdt] HD]. rewrite EY in Hdt, HD.
  pose proof (days_in_month_bounds Y _ Hm).
  assert ((if Num.gt fo (Fin (-1)) then doy_loop 40 (Fin Y) (Fin 1) fo else Ok (fm, fd))
    = Ok (Fin (MonthFromDay D + 1), Fin (DateFromDay D))) as E.
  { destruct Hf as [(-> & -> & ->)| ->]; [done|]. rewrite dayOfYear_eq by (fold D; lia). fold D.
    pose proof (YearFromDay_spec D) as Hs. rewrite EY in Hs. pose proof (year_length Y).
    assert (0 <= DayWithinYear D < month_start (leap_year Y) 12) as Hdoy by (unfold DayWithinYear; rewrite EY; lia).
    assert (MakeDay Y 0 (DayWithinYear D + 1) = D) as ED by (rewrite MakeDay_year; unfold DayWithinYear; rewrite EY; lia).
    pose proof (doy_loop_exact Y (DayWithinYear D + 1)) as Hloop. cbv zeta in Hloop. rewrite ED in Hloop.
    rewrite Hloop by lia. replace (Num.gt (Fin (DayWithinYear D + 1)) (Fin (-1))) with true; [done|].
    symmetry. apply Z.ltb_lt. lia. }
  unfold parse_end. rewrite E. cbn [mbind res_bind Num.sub Num.opp Num.add].
  replace (MonthFromDay D + 1 + - (1)) with (MonthFromDay D) by lia.
  destruct (adjusted_date Y (MonthFromDay D) (DateFromDay D)) as (tm' & -> & Ht); [lia|apply MakeDay_range; lia|].
  rewrite HD in Ht. exists tm'. rewrite getFullYear_Some, getMonth_Some, getDate_Some, Ht, EY. cbn [Num.add Num.eqb].
  by rewrite !Z.eqb_refl.
Qed.

Lemma parse_formatted_aux now defaults settings format tm :
  settings_ok unicode_lower (with_defaults defaults settings) ->
  separated (tokens format) = true -> complete (tokens format) = true -> writable tm (tokens format) ->
  exists tm', parseDate unicode_lower now defaults (Some format)
                (Some (formatDate defaults format (Some (Some tm)) settings)) settings = Ok (Some (Some tm'))
              /\ local_day tm' = local_day tm.
Proof.
  intros Hg Hsep Hc Hw. set (g := with_defaults defaults settings) in *.
  cbn [formatDate]. fold g. rewrite format_loop_tok. fold (tokens format). set (ts := tokens format) in *.
  set (value := concat (List.map (fmt_tok g (Some tm)) ts)).
  unfold parseDate. rewrite decide_False by (by apply complete_text). fold g.
  set (s0 := PSt format 0 (Fin (-1)) (Fin (-1)) (Fin (-1)) (Fin (-1)) false).
  destruct (parse_loop_ok value g tm Hg (S (length format)) (length format) s0 false format) as (s & -> & Hr & Hf);
    [done|done|lia|lia|done|done|done|].
  fold (tokens format) ts in Hf.
  pose proof (know_tell (Some tm) ts (false, false, false, false) (fields s0)) as Hk. cbv zeta in Hk.
  rewrite <-Hf in Hk. unfold complete in Hc.
  destruct (fold_left (fun k t => know t k) ts (false, false, false, false)) as [[[y m] d] o].
  destruct Hk as (Hy & Hm & Hd & Ho); [done|]. apply andb_true_iff in Hc as [-> Hc].
  specialize (Hy eq_refl). unfold rest_is in Hr. rewrite Hr. rewrite bool_decide_false by (by intros []). cbn [andb].
  rewrite Hy, getFullYear_Some. pose proof (proj1 Hw) as HY.
  assert (forall c, fix_year now c (Fin (YearFromDay (local_day tm))) = Fin (YearFromDay (local_day tm))) as ->.
  { intros c. unfold fix_year. cbn [Num.eqb Num.lt]. rewrite (proj2 (Z.eqb_neq _ _)), (proj2 (Z.ltb_ge _ _)) by lia. done. }
  destruct (parse_end_ok (YearFromDay (local_day tm)) (month s) (day s) (doy s) tm HY eq_refl) as (tm' & -> & Ht).
  - destruct o; [by right|]. cbn [orb] in Hc. apply andb_true_iff in Hc as [-> ->]. left. auto.
  - by exists tm'.
Qed.

(** C33: [parseDate] reads back what [formatDate] wrote: for every format that determines the
    day and in which no number of variable width is followed by a digit, for names of days
    and months that can be told apart and for the days of the years 1000 to 9999, the date
    that is parsed is of the same day, on the days on which clocks change too.  The format
    has no [!], and with [@] the time is not negative and has at most fourteen digits.  The
    time zone is one whose clocks change by at most an hour at a time and whose offsets
    differ by at most two hours ([TimeZoneLaws]); zones in which a whole day was skipped,
    such as that of Apia, are not among them. *)
Theorem parse_formatted now defaults settings format tm :
  settings_ok unicode_lower (with_defaults defaults settings) ->
  separated (tokens format) = true -> complete (tokens format) = true -> writable tm (tokens format) ->
  exists tm', parseDate unicode_lower now defaults (Some format)
                (Some (formatDate defaults format (Some (Some tm)) settings)) settings = Ok (Some (Some tm'))
              /\ local_day tm' = local_day tm.
Proof. apply parse_formatted_aux. Qed.

(** ** Months and weeks *)

(** [_getDaysInMonth] is the Gregorian rule, leap years included, in every
    time zone, also when the clocks change in the month. *)
Theorem getDaysInMonth_table y m : 100 <= y <= 190000 -> 0 <= m < 12 ->
  _getDaysInMonth (Fin y) (Fin m) = Fin
    match m with
    | 1 => if (y mod 4 =? 0) && (negb (y mod 100 =? 0) || (y mod 400 =? 0)) then 29 else 28
    | 3 | 5 | 8 | 10 => 30
    | _ => 31
    end.
Proof.
  intros Hy Hm. rewrite getDaysInMonth_eq by lia. rewrite Z.div_small, Z.mod_small, Z.add_0_r by lia.
  by rewrite days_in_month_table.
Qed.

(** [iso8601Week] numbers the weeks as ISO 8601 does: week 1 is the week,
    from Monday, that contains the fourth of January of the year of the Thursday,
    and the weeks after it follow one by one; on hosts that move skipped local
    times forward, for times of the day before nine in the evening. *)
Theorem iso8601Week_correct t : (forall l, l <= LocalTime (tz_utc l)) ->
  100 <= YearFromDay (local_day t) <= 190000 -> TimeWithinDay (LocalTime t) < 21 * msPerHour ->
  exists w, iso8601Week (Some t) = Fin w /\ iso_reference (local_day t) w.
Proof.
  intros Hfwd Hy Ht. apply iso_week_eq; [done|done|]. unfold near, TimeWithinDay, local_day, Day in *.
  pose proof (Z.div_mod (LocalTime t) msPerDay ltac:(done)).
  pose proof (Z.mod_pos_bound (LocalTime t) msPerDay ltac:(done)). lia.
Qed.
End properties.

(** ** Concrete dates *)

(** A zone whose clocks went forward at midnight of the 26th of March 2000, and
    that midnight. *)
Definition demo_zone : TimeZone := summer_zone 11042.
Definition demo_lower (c : N) : jstr := [c].
Definition demo_format : jstr := str "DD, d MM 'of' yy (oo)".
Definition demo_time : Z := 11042 * msPerDay - msPerHour + 5000.

Lemma regional_ok : settings_ok demo_lower regional_en.
Proof.
  split; intros doubled; destruct doubled; (split; [done|]); apply names_okb_sound; vm_compute; reflexivity.
Qed.

Example parse_formatted_witness :
  exists tm', @parseDate demo_zone demo_lower (Some 0) regional_en (Some demo_format)
                (Some (@formatDate demo_zone regional_en demo_format (Some (Some (demo_time + msPerHour))) None)) None = Ok (Some (Some tm'))
              /\ @local_day demo_zone tm' = 11042.
Proof.
  destruct (@parse_formatted demo_zone (summer_laws 11042) demo_lower (Some 0) regional_en None demo_format (demo_time + msPerHour))
    as (tm' & E & Hd).
  - apply regional_ok.
  - vm_compute. reflexivity.
  - vm_compute. reflexivity.
  - split; [vm_compute; split; discriminate|]. split; [|intros Hin]; vm_compute in *;
      [intros Hin|]; repeat (apply elem_of_cons in Hin as [Hin|Hin]; [discriminate|]); by apply elem_of_nil in Hin.
  - exists tm'. split; [exact E|]. rewrite Hd. vm_compute. reflexivity.
Defined.

Example getDaysInMonth_table_witness :
  @_getDaysInMonth demo_zone (Fin 2000) (Fin 2) = Fin 31 /\ @_getDaysInMonth demo_zone (Fin 1900) (Fin 1) = Fin 28.
Proof.
  split; (rewrite (@getDaysInMonth_table demo_zone (summer_laws 11042)); [reflexivity|lia|lia]).
Defined.

(** The zone of universal time. *)
Definition utc : TimeZone := {| tz_offset _ := 0; tz_utc l := l |}.

Lemma utc_laws : @TimeZoneLaws utc.
Proof. constructor; unfold LocalTime; cbn; unfold msPerHour, msPerDay; intros; lia. Qed.

Example iso8601Week_correct_witness :
  exists w, @iso8601Week utc (Some (18630 * msPerDay)) = Fin w /\ iso_reference 18630 w /\ w = 53.
Proof.
  destruct (@iso8601Week_correct utc utc_laws (18630 * msPerDay)) as (w & E & Hw).
  - intros l. cbn. unfold LocalTime. cbn. lia.
  - vm_compute. split; discriminate.
  - vm_compute. reflexivity.
  - exists w. split; [exact E|]. split; [exact Hw|]. vm_compute in E. congruence.
Defined.
