(* ===== verification/DateTotal.v ===== *)
(** * Termination of parseDate, and the characters of a date

    [parseDate] ends on every text, its last loop included; the characters that
    [_possibleChars] allows are enough to write a date. *)

From S2P Require Import Prelude JsNum JsDate DateFormat DateFacts DateTokens DateFields DateProps.

Section total.
Context `{TimeZoneLaws} (unicode_lower : N -> jstr).

(** ** Termination *)

Definition small (lo hi : Z) (n : num) : Prop := exists z, n = Fin z /\ lo <= z <= hi.

(** What holds at every turn of the loop, with [k] characters of the format left:
    no field [!] is to come, and the year and the day of the year are bounded. *)
Definition bounded (k : nat) (s : pst) : Prop :=
  (length (p_fmt s) <= k)%nat /\ chr "!" ∉ p_fmt s /\ small (-1) 9999 (year s) /\ small (-1) 999 (doy s).

Lemma lookAhead_suffix m fmt : (lookAhead m fmt).2 `suffix_of` fmt.
Proof.
  destruct fmt as [|c [|x r]]; cbn; [done..|]. destruct (x =? m)%N; cbn; [|done]. by apply suffix_cons_r.
Qed.

Lemma look_total k m : sm_total (bounded k) (look m) (fun _ => True).
Proof.
  intros s (Hl & Hb & Hy & Hd). unfold look. pose proof (lookAhead_suffix m (p_fmt s)) as Hs.
  destruct (lookAhead m (p_fmt s)) as [b f]. cbn in Hs. split; [done|]. split_and!; [|..]; try done.
  - apply suffix_length in Hs. cbn. lia.
  - cbn. intros Hin. apply Hb. destruct Hs as [l ->]. apply elem_of_app. by right.
Qed.

Lemma parse_digits_bound ds : Forall (fun c => is_digit c = true) ds -> Z.of_N (parse_digits ds) < 10 ^ Z.of_nat (length ds).
Proof.
  intros Hds. induction ds as [|c ds IH] using rev_ind; [done|]. apply Forall_app in Hds as [Hds Hc].
  apply Forall_singleton, is_digit_iff in Hc. specialize (IH Hds).
  rewrite parse_digits_snoc, length_app, Nat.add_1_r, Nat2Z.inj_succ, Z.pow_succ_r by lia. lia.
Qed.

Lemma digits_prefix_spec s : Forall (fun c => is_digit c = true) (digits_prefix is_digit s)
  /\ (length (digits_prefix is_digit s) <= length s)%nat.
Proof.
  induction s as [|c s [IH1 IH2]]; [by split; [constructor|cbn]|]. cbn. destruct (is_digit c) eqn:E; cbn.
  - split; [by constructor|lia].
  - split; [constructor|lia].
Qed.

Lemma read_digits_total value k size minSize : (size <= 14)%nat ->
  sm_total (bounded k) (read_digits value size minSize) (small 0 (10 ^ Z.of_nat size - 1)).
Proof.
  intros Hsize s Hs. unfold read_digits. cbv zeta. set (ds := take_digits size (drop (iValue s) value)).
  destruct (length ds <? minSize)%nat; [done|]. split; [|done].
  assert (Forall (fun c => is_digit c = true) ds /\ (length ds <= size)%nat) as [Hd Hl].
  { unfold ds, take_digits. destruct (digits_prefix_spec (take size (drop (iValue s) value))) as [H1 H2].
    split; [done|]. rewrite length_take in H2. lia. }
  pose proof (parse_digits_bound ds Hd).
  assert (10 ^ Z.of_nat (length ds) <= 10 ^ Z.of_nat size) by (apply Z.pow_le_mono_r; lia).
  assert (10 ^ Z.of_nat size <= 10 ^ 14) by (apply Z.pow_le_mono_r; lia).
  eexists. split; [reflexivity|]. rewrite round53_small by lia. lia.
Qed.

Lemma getNumber_total value k c : c <> chr "!" ->
  sm_total (bounded k) (getNumber value c) (fun n =>
    small 0 (10 ^ 14 - 1) n /\ (c = chr "o" -> small 0 999 n) /\ (c = chr "y" -> small 0 9999 n)).
Proof.
  intros Hc. unfold getNumber. eapply total_bind; [apply look_total|]. intros doubled _. cbv zeta.
  assert (number_size c doubled <= 14)%nat as Hsize.
  { unfold number_size. repeat case_match; bool_hyps; lia. }
  eapply total_mono; [by apply read_digits_total|]. intros n (z & -> & Hz).
  assert (10 ^ Z.of_nat (number_size c doubled) <= 10 ^ 14) by (apply Z.pow_le_mono_r; lia).
  split_and!; [exists z; split; [done|lia]|..].
  - intros ->. exists z. change (number_size (chr "o") doubled) with 3%nat in Hz. split; [done|cbn in *; lia].
  - intros ->. exists z. split; [done|]. destruct doubled; [change (number_size (chr "y") true) with 4%nat in Hz|
      change (number_size (chr "y") false) with 2%nat in Hz]; cbn in *; lia.
Qed.

Lemma getName_total value k c short long :
  sm_total (bounded k) (getName unicode_lower value c short long) (fun _ => True).
Proof.
  unfold getName. eapply total_bind; [apply look_total|]. intros doubled _ s Hs. unfold find_name. cbv zeta.
  by destruct (List.find _ _) as [[? ?]|].
Qed.

Lemma checkLiteral_total value k : sm_total (bounded k) (checkLiteral value) (fun _ => True).
Proof. intros s Hs. unfold checkLiteral. by case_bool_decide. Qed.

(** The fields of a time of fourteen digits. *)
Lemma time_year n : small 0 (10 ^ 14 - 1) n -> small (-1) 9999 (getFullYear (date_of_time n)).
Proof.
  intros (t & -> & Ht). cbn [date_of_time]. unfold TimeClip. rewrite (proj2 (Z.leb_le _ _)) by lia.
  rewrite getFullYear_Some. exists (YearFromDay (local_day t)). split; [done|].
  pose proof (tz_bound t) as Hb. assert (-1 <= local_day t < 1200000) as HD.
  { unfold local_day, Day, LocalTime, msPerDay in *. dlia. }
  pose proof (YearFromDay_spec (local_day t)).
  pose proof (DayFromYear_bounds (YearFromDay (local_day t))). pose proof (DayFromYear_bounds (YearFromDay (local_day t) + 1)). lia.
Qed.

Lemma step_total value k g : sm_total (bounded k) (parse_step unicode_lower value g) (fun _ => True).
Proof.
  unfold parse_step. apply (total_bind _ _ _ (fun c => c <> chr "!")).
  { apply total_get. intros s (_ & Hb & _). destruct (p_fmt s) as [|c r]; [done|]. cbn. intros ->. apply Hb. by left. }
  intros c Hc. apply (total_bind _ _ _ (fun _ => True)); [by apply total_get|]. intros lit _.
  assert (forall f, (forall s, bounded k s -> bounded k (f s)) -> sm_total (bounded k) (sm_mod f) (fun _ => True)) as Hmod
    by (intros f Hf; by apply total_mod).
  assert (forall (f : num -> pst -> pst), (forall n s, small 0 (10 ^ 14 - 1) n -> (c = chr "o" -> small 0 999 n) ->
      (c = chr "y" -> small 0 9999 n) -> bounded k s -> bounded k (f n s)) ->
    c <> chr "!" -> sm_total (bounded k) (n ← getNumber value c; sm_mod (f n)) (fun _ => True)) as Hnum.
  { intros f Hf Hne. eapply total_bind; [by apply getNumber_total|]. intros n (H1 & H2 & H3). apply Hmod. intros s. by apply Hf. }
  assert (sm_total (bounded k) (doubled ← look ch_quote; if doubled : bool then checkLiteral value else sm_mod (set_literal (negb lit)))
    (fun _ => True)) as Hquote.
  { eapply total_bind; [apply look_total|]. intros [] _; [apply checkLiteral_total|]. by apply Hmod. }
  assert (forall n lo hi, small lo hi n -> -1 <= lo -> small (-1) hi n) as Hsmall
    by (intros n lo hi (z & -> & Hz) Hlo; exists z; split; [done|lia]).
  destruct lit.
  - destruct (c =? ch_quote)%N; [exact Hquote|apply checkLiteral_total].
  - destruct (c =? chr "d")%N eqn:Ed; [apply Hnum; [|done]; by intros n s _ _ _|].
    destruct (c =? chr "D")%N eqn:ED; [eapply total_bind; [apply getName_total|]; intros; by apply total_ret|].
    destruct (c =? chr "o")%N eqn:Eo.
    { apply Hnum; [|done]. bool_hyps. intros n s _ Ho _ (H1 & H2 & H3 & _). split_and!; try done.
      eapply Hsmall; [by apply Ho|lia]. }
    destruct (c =? chr "m")%N eqn:Em; [apply Hnum; [|done]; by intros n s _ _ _|].
    destruct (c =? chr "M")%N eqn:EM; [eapply total_bind; [apply getName_total|]; intros; by apply Hmod|].
    destruct (c =? chr "y")%N eqn:Ey.
    { apply Hnum; [|done]. bool_hyps. intros n s _ _ Hy (H1 & H2 & _ & H4). split_and!; try done.
      eapply Hsmall; [by apply Hy|lia]. }
    destruct (c =? chr "@")%N eqn:Ea.
    { apply (Hnum (fun n => set_ymd (date_of_time n))); [|done]. intros n s Hn _ _ (H1 & H2 & _ & H4). split_and!; try done.
      by apply time_year. }
    destruct (c =? chr "!")%N eqn:Eb; [by bool_hyps|].
    destruct (c =? ch_quote)%N; [exact Hquote|apply checkLiteral_total].
Qed.

Lemma loop_total value g n : forall k, (k < n)%nat -> sm_total (bounded k) (parse_loop unicode_lower value n g) (fun _ => True).
Proof.
  induction n as [|n IH]; intros k Hk s Hs; [lia|]. cbn [parse_loop]. destruct (p_fmt s) as [|c r] eqn:Ef; [done|].
  pose proof (step_total value k g s Hs) as Hstep. unfold mbind, sm_bind.
  destruct (parse_step unicode_lower value g s) as [[[]|e|] s1]; [|done|done]. destruct Hstep as [_ (H1 & H2 & H3 & H4)].
  destruct k as [|k]; [destruct Hs as (Hl & _); rewrite Ef in Hl; cbn in Hl; lia|].
  assert (bounded k (set_fmt (tail (p_fmt s1)) s1)) as Hb.
  { split_and!; try done; cbn; [destruct (p_fmt s1); cbn in *; lia|]. intros Hin. apply H2. destruct (p_fmt s1); [done|by right]. }
  assert (forall s, bounded k s -> bounded (S k) s) as Hweak by (intros s' (? & ? & ? & ?); split_and!; try done; lia).
  specialize (IH k ltac:(lia) _ Hb). cbn.
  destruct (parse_loop unicode_lower value n g (set_fmt (tail (p_fmt s1)) s1)) as [[a|e|] s2]; [|by apply Hweak|done].
  split; [done|]. apply Hweak, IH.
Qed.

(** The loop over the months ends on every day of the year of three digits. *)
Lemma doy_loop_total y dt : 100 <= y <= 9999 -> -1 < dt <= 999 -> exists m d, doy_loop 40 (Fin y) (Fin 1) (Fin dt) = Ok (m, d).
Proof.
  intros Hy Hdt. destruct (decide (dt = 0)) as [->|Hne].
  - cbn [doy_loop]. cbn [Num.sub Num.opp Num.add]. change (1 + - (1)) with 0. rewrite getDaysInMonth_eq by lia.
    rewrite le_fin. pose proof (days_in_month_bounds (y + 0 / 12) (0 mod 12)).
    rewrite (proj2 (Z.leb_le 0 _)) by (change (0 mod 12) with 0 in *; lia). by eexists _, _.
  - destruct (doy_loop_sound 40 y 1 dt) as (m' & dt' & E & _); [lia..|]. by eexists _, _.
Qed.

Lemma fix_year_range now cut y cy : getFullYear now = Fin cy -> 1000 <= cy <= 9000 -> small (-1) 9999 y ->
  small 100 9999 (fix_year now cut y).
Proof.
  intros Hnow Hcy (z & -> & Hz). unfold fix_year. rewrite Hnow. cbn [Num.eqb Num.lt Num.rem Z.eqb].
  destruct (z =? -1); [exists cy; split; [done|lia]|]. destruct (z <? 100) eqn:E; bool_hyps; [|exists z; split; [done|lia]].
  cbn [Num.sub Num.opp Num.add].
  assert (0 <= Z.rem cy 100 < 100) by (rewrite Z.rem_mod_nonneg by lia; apply Z.mod_pos_bound; lia).
  destruct (Num.le _ _); cbn [Num.add]; eexists; (split; [reflexivity|]); lia.
Qed.

(** [parseDate] ends, on every format without the field [!], every value and
    all settings: the loop over the format, and the loop that looks for the
    month of a day of the year, even a day beyond the end of the year. *)
Theorem parseDate_terminates now defaults format value settings cy :
  getFullYear now = Fin cy -> 1000 <= cy <= 9000 -> (forall f, format = Some f -> chr "!" ∉ f) ->
  parseDate unicode_lower now defaults format value settings <> NoFuel.
Proof.
  intros Hnow Hcy Hf. unfold parseDate. destruct format as [format|]; [|done]. destruct value as [value|]; [|done].
  case_decide; [done|]. set (g := with_defaults defaults settings).
  set (s0 := PSt format 0 (Fin (-1)) (Fin (-1)) (Fin (-1)) (Fin (-1)) false).
  assert (bounded (length format) s0) as Hs0.
  { split_and!; [done|by apply Hf|..]; by exists (-1). }
  pose proof (loop_total value g (S (length format)) (length format) ltac:(lia) s0 Hs0) as Hloop.
  destruct (parse_loop unicode_lower value (S (length format)) g s0) as [[[]|e|] s]; [|done|done].
  destruct Hloop as [_ (_ & _ & Hy & Hd)]. case_match; [done|].
  destruct (fix_year_range now (cutoff_num now (shortYearCutoff g)) (year s) cy Hnow Hcy Hy) as (y & -> & Hy').
  destruct Hd as (dt & -> & Hdt). unfold parse_end. cbn [Num.gt Num.lt]. destruct (-1 <? dt) eqn:E; bool_hyps.
  - destruct (doy_loop_total y dt) as (m & d & ->); [lia|lia|]. cbn. by case_match.
  - cbn. by case_match.
Qed.

End total.

(** ** The characters of a date *)

Section chars.
Context `{TimeZone}.

Lemma digits_in ds : Forall (fun c => is_digit c = true) ds -> ds ⊆ digits.
Proof.
  intros Hds c Hc. rewrite Forall_forall in Hds. apply Hds, is_digit_iff in Hc.
  assert (c = 48 \/ c = 49 \/ c = 50 \/ c = 51 \/ c = 52 \/ c = 53 \/ c = 54 \/ c = 55 \/ c = 56 \/ c = 57)%N as Hc' by lia.
  change digits with [48; 49; 50; 51; 52; 53; 54; 55; 56; 57]%N. set_solver.
Qed.

(** Fields that the function takes into account. *)
Definition counted (t : tok) : Prop := match t with TNum c _ => c <> chr "o" | TTicks => False | _ => True end.

Lemma num_in z : 0 <= z -> num_to_str (Fin z) ⊆ digits.
Proof. intros Hz. apply digits_in. by destruct (num_writes z Hz). Qed.

Lemma num_tok_in g tm c doubled : c = chr "d" \/ c = chr "m" -> fmt_tok g (Some tm) (TNum c doubled) ⊆ digits.
Proof.
  intros Hc. destruct (date_of_fields (local_day tm)) as [[Hm Hdt] _].
  assert (exists z, number_of (Some tm) c = Fin z /\ 0 <= z) as (z & Ez & Hz).
  { destruct Hc as [->| ->]; unfold number_of; known_char; rewrite ?getDate_Some, ?getMonth_Some; cbn;
      (eexists; split; [reflexivity|lia]). }
  cbn [fmt_tok]. rewrite Ez. cbv zeta. destruct doubled; [|by apply num_in].
  destruct (num_writes z Hz) as (Hd & _). apply digits_in.
  destruct (pad_zeros_spec (width_of c) _ (width_of c) Hd) as [H1 _]; [lia|done].
Qed.

Lemma year_tok_in g tm doubled : 0 <= YearFromDay (local_day tm) -> fmt_tok g (Some tm) (TYear doubled) ⊆ digits.
Proof.
  intros Hy. cbn [fmt_tok]. destruct doubled; [rewrite getFullYear_Some; by apply num_in|].
  unfold two_digits. rewrite getFullYear_Some. cbn [Num.rem Z.eqb Num.lt].
  assert (0 <= Z.rem (YearFromDay (local_day tm)) 100) by (apply Z.rem_nonneg; lia).
  intros c [Hc|Hc]%elem_of_app; [|by apply num_in in Hc].
  destruct (_ <? 10); [|by apply elem_of_nil in Hc]. by apply list_elem_of_singleton in Hc as ->; left.
Qed.

(** A run of the same letter adds the digits again, and goes on after it. *)
Lemma chars_again n c r cs : bool_decide (c ∈ str "dmy@") = true -> (length (c :: r) <= n)%nat ->
  chars_loop n false (c :: r) = Some cs ->
  exists n' cs', chars_loop n' false r = Some cs' /\ (length r <= n')%nat /\ cs = digits ++ cs'.
Proof.
  intros Hc Hn. destruct n as [|n]; [cbn in Hn; lia|]. cbn [chars_loop].
  assert (chars_step false (c :: r) = Some (digits, false, c :: r)) as ->.
  { unfold chars_step. cbv zeta. cbn [cur head default id]. by rewrite Hc. }
  cbn [mbind option_bind tail]. destruct (chars_loop n false r) as [cs'|] eqn:E; [|done]. intros [= <-].
  exists n, cs'. split_and!; [done|cbn in Hn; lia|done].
Qed.

(** The same for a letter that may be doubled in the format. *)
Lemma chars_field n c fmt cs doubled fmt' : cur fmt = c -> fmt <> [] -> bool_decide (c ∈ str "dmy@") = true ->
  (length fmt <= n)%nat -> chars_loop n false fmt = Some cs -> lookAhead c fmt = (doubled, fmt') ->
  exists n' cs', chars_loop n' false (tail fmt') = Some cs' /\ (length (tail fmt') <= n')%nat /\ digits ⊆ cs /\ cs' ⊆ cs.
Proof.
  intros Hcur Hne Hc Hn Hcs Hl. destruct fmt as [|c0 r]; [done|]. cbn in Hcur. subst c0.
  destruct (chars_again n c r cs Hc Hn Hcs) as (n1 & cs1 & E1 & Hn1 & ->).
  destruct r as [|x r]; cbn [lookAhead] in Hl.
  - injection Hl as <- <-. exists n1, cs1. split_and!; [done|done|set_solver..].
  - destruct (x =? c)%N eqn:Ex; injection Hl as <- <-; cbn [tail].
    + bool_hyps. subst x. destruct (chars_again n1 c r cs1 Hc Hn1 E1) as (n2 & cs2 & E2 & Hn2 & ->).
      exists n2, cs2. split_and!; [done|done|set_solver..].
    + exists n1, cs1. split_and!; [done|done|set_solver..].
Qed.

(** A turn on a character that is not a letter of a number. *)
Lemma chars_other n lit fmt cs : fmt <> [] -> (length fmt <= n)%nat ->
  (lit = false -> bool_decide (cur fmt ∈ str "dmy@") = false) -> chars_loop n lit fmt = Some cs ->
  exists out lit' fmt' n' cs', chars_step lit fmt = Some (out, lit', fmt') /\ chars_loop n' lit' (tail fmt') = Some cs'
    /\ S n' = n /\ cs = out ++ cs'.
Proof.
  intros Hne Hn Hc Hcs. destruct n as [|n]; [destruct fmt; [done|cbn in Hn; lia]|]. destruct fmt as [|c r]; [done|].
  cbn [chars_loop] in Hcs. destruct (chars_step lit (c :: r)) as [[[out lit'] fmt']|]; [|done].
  cbn [mbind option_bind] in Hcs. destruct (chars_loop n lit' (tail fmt')) as [cs'|] eqn:E; [|done]. injection Hcs as <-.
  by exists out, lit', fmt', n, cs'.
Qed.

Lemma chars_tok lit fmt t lit' fmt' : next_tok lit fmt = (t, lit', fmt') -> fmt <> [] ->
  (forall t', t = Some t' -> counted t') ->
  match t with
  | Some (TNum c doubled) => lit = false /\ lit' = false /\ (c = chr "d" \/ c = chr "m") /\ cur fmt = c /\ lookAhead c fmt = (doubled, fmt')
  | Some (TYear doubled) => lit = false /\ lit' = false /\ cur fmt = chr "y" /\ lookAhead (chr "y") fmt = (doubled, fmt')
  | Some TTime => lit = false /\ lit' = false /\ cur fmt = chr "@" /\ fmt' = fmt
  | Some (TName _ _) => chars_step lit fmt = None
  | Some TTicks => False
  | Some (TLit c) => chars_step lit fmt = Some ([c], lit', fmt')
  | None => chars_step lit fmt = Some ([], lit', fmt')
  end.
Proof.
  intros E Hne Hc. unfold next_tok, chars_step in *. cbv zeta in *. destruct lit.
  - destruct (cur fmt =? ch_quote)%N.
    + destruct (lookAhead ch_quote fmt) as [[] f] eqn:El; simplify_eq; [|done].
      apply lookAhead_true in El. by rewrite El.
    + by simplify_eq.
  - revert E. assert (forall c, c = cur fmt -> c = cur fmt) as _ by done. remember (cur fmt) as c eqn:Ec.
    char_cases c; known_char.
    1,4: destruct (lookAhead _ fmt) as [b f] eqn:El; intros [= <- <- <-]; split_and!; auto.
    1,3: destruct (lookAhead _ fmt) as [b f] eqn:El; by intros [= <- <- <-].
    + destruct (lookAhead _ fmt) as [b f] eqn:El. intros [= <- <- <-]. exfalso. by apply (Hc _ eq_refl).
    + destruct (lookAhead _ fmt) as [b f] eqn:El. intros [= <- <- <-]. by split_and!.
    + by intros [= <- <- <-].
    + intros [= <- <- <-]. exfalso. by apply (Hc _ eq_refl).
    + destruct (lookAhead _ fmt) as [[] f] eqn:El; by intros [= <- <- <-].
    + other_char. intros [= <- <- <-].
      assert (bool_decide (c ∈ str "dmy@") = false) as ->; [|done].
      apply bool_decide_eq_false. change (str "dmy@") with [chr "d"; chr "m"; chr "y"; chr "@"]. set_solver.
Qed.

Lemma chars_loop_ok g tm n1 : 0 <= YearFromDay (local_day tm) -> forall n2 lit fmt cs,
  (length fmt <= n2)%nat -> chars_loop n2 lit fmt = Some cs ->
  let ts := tokens_loop n1 lit fmt in Forall counted ts -> (TTime ∈ ts -> 0 <= tm) ->
  concat (List.map (fmt_tok g (Some tm)) ts) ⊆ cs.
Proof.
  intros Hy. induction n1 as [|n1 IH]; intros n2 lit fmt cs Hn Hcs ts Hts Htime;
    [subst ts; destruct fmt; apply list_subseteq_nil|].
  subst ts. destruct fmt as [|c r]; [apply list_subseteq_nil|]. cbn [tokens_loop] in *. set (fmt := c :: r) in *.
  destruct (next_tok lit fmt) as [[t lit'] fmt'] eqn:E. apply Forall_app in Hts as [Ht Hts].
  assert (TTime ∈ tokens_loop n1 lit' (tail fmt') -> 0 <= tm) as Htime' by (intros Hin; apply Htime, elem_of_app; by right).
  pose proof (chars_tok lit fmt t lit' fmt' E ltac:(done)) as Hstep.
  assert (forall n' cs', chars_loop n' lit' (tail fmt') = Some cs' -> (length (tail fmt') <= n')%nat -> cs' ⊆ cs ->
    (forall t', t = Some t' -> fmt_tok g (Some tm) t' ⊆ cs) ->
    concat (List.map (fmt_tok g (Some tm)) (option_list t ++ tokens_loop n1 lit' (tail fmt'))) ⊆ cs) as Hgoal.
  { intros n' cs' Hcs' Hn' Hsub Htok. specialize (IH n' lit' (tail fmt') cs' Hn' Hcs' Hts Htime').
    rewrite map_app, concat_app. intros x [Hx|Hx]%elem_of_app; [|by apply Hsub, IH].
    destruct t as [t|]; [|by apply elem_of_nil in Hx].
    assert (concat (List.map (fmt_tok g (Some tm)) (option_list (Some t))) = fmt_tok g (Some tm) t) as Et
      by apply app_nil_r.
    rewrite Et in Hx. exact (Htok t eq_refl x Hx). }
  assert (forall t', t = Some t' -> counted t') as Hcnt by (intros t' ->; by apply (Forall_singleton counted)).
  specialize (Hstep Hcnt).
  assert (forall out, chars_step lit fmt = Some (out, lit', fmt') ->
    (forall t', t = Some t' -> fmt_tok g (Some tm) t' ⊆ out) ->
    concat (List.map (fmt_tok g (Some tm)) (option_list t ++ tokens_loop n1 lit' (tail fmt'))) ⊆ cs) as Hplain.
  { intros out Hs Hout. destruct n2 as [|n2]; [cbn in Hn; lia|]. unfold fmt in Hcs. cbn [chars_loop] in Hcs. fold fmt in Hcs.
    rewrite Hs in Hcs. cbn [mbind option_bind] in Hcs.
    destruct (chars_loop n2 lit' (tail fmt')) as [cs'|] eqn:E'; [|done]. injection Hcs as <-.
    apply (Hgoal n2 cs' E').
    - pose proof (next_tok_length _ _ _ _ _ E). destruct fmt'; cbn in *; lia.
    - set_solver.
    - intros t' Ht'. specialize (Hout t' Ht'). set_solver. }
  destruct t as [[c0 doubled|c0 doubled|doubled| | |c0]|].
  - destruct Hstep as (-> & -> & Hc0 & Hcur & Hl).
    destruct (chars_field n2 c0 fmt cs doubled fmt' Hcur) as (n' & cs' & E' & Hn' & Hd & Hsub); [done|by destruct Hc0 as [->| ->]|done..|].
    apply (Hgoal n' cs' E' Hn' Hsub). intros t' [= <-]. etrans; [by apply num_tok_in|done].
  - destruct n2 as [|n2]; [cbn in Hn; lia|]. unfold fmt in Hcs. cbn [chars_loop] in Hcs. fold fmt in Hcs. by rewrite Hstep in Hcs.
  - destruct Hstep as (-> & -> & Hcur & Hl).
    destruct (chars_field n2 (chr "y") fmt cs doubled fmt' Hcur) as (n' & cs' & E' & Hn' & Hd & Hsub); [done..|].
    apply (Hgoal n' cs' E' Hn' Hsub). intros t' [= <-]. etrans; [by apply year_tok_in|done].
  - destruct Hstep as (-> & -> & Hcur & ->). cbn in Hcur. subst c.
    destruct (chars_again n2 (chr "@") r cs) as (n' & cs' & E' & Hn' & ->); [done..|].
    apply (Hgoal n' cs' E' Hn').
    + intros x Hx. apply elem_of_app. by right.
    + intros t' [= <-] x Hx. apply elem_of_app. left. revert x Hx. apply (num_in tm), Htime. by left.
  - done.
  - apply (Hplain [c0]); [done|]. intros t' [= <-]. done.
  - apply (Hplain []); [done|]. done.
Qed.

(** The characters that [_possibleChars] allows in an input field are enough
    for every date that [formatDate] writes in that format, when the format has
    no day of the year and no ticks, the year is not negative, and, with the
    field [@], the time is not negative. *)
Theorem possibleChars_suffice defaults settings format tm cs :
  _possibleChars format = Some cs -> Forall counted (tokens format) -> 0 <= YearFromDay (local_day tm) ->
  (TTime ∈ tokens format -> 0 <= tm) ->
  formatDate defaults format (Some (Some tm)) settings ⊆ cs.
Proof.
  intros Hcs Hts Hy Htime. cbn [formatDate]. rewrite format_loop_tok.
  by apply (chars_loop_ok _ tm (length format) Hy (length format) false format cs).
Qed.
End chars.

Example parseDate_terminates_witness :
  @parseDate demo_zone demo_lower (Some 946684800000) regional_en (Some (str "yy-oo")) (Some (str "2001-999")) None <> NoFuel.
Proof.
  apply (@parseDate_terminates demo_zone (summer_laws 11042) demo_lower _ _ _ _ _ 2000).
  - vm_compute. reflexivity.
  - lia.
  - intros f [= <-] Hin. vm_compute in Hin. repeat (apply elem_of_cons in Hin as [Hin|Hin]; [discriminate|]). by apply elem_of_nil in Hin.
Defined.

Example possibleChars_suffice_witness :
  @formatDate demo_zone regional_en (str "mm/dd/yy") (Some (Some demo_time)) None
  ⊆ default [] (_possibleChars (str "mm/dd/yy")).
Proof.
  apply (@possibleChars_suffice demo_zone regional_en None (str "mm/dd/yy") demo_time).
  - vm_compute. reflexivity.
  - vm_compute. repeat constructor; intros ?; discriminate.
  - vm_compute. discriminate.
  - intros _. vm_compute. discriminate.
Defined.

(** With a day of the year in the format, they are not enough: no digit can be
    typed. *)
Example possibleChars_day_of_year :
  _possibleChars (str "o") = Some (str "o") /\ @formatDate utc regional_en (str "o") (Some (Some 0)) None = str "1".
Proof. by vm_compute. Qed.

(** With the field [!] it can be endless: ticks that are not a time make the year
    [NaN], which no month of the loop for the day of the year brings to an end. *)
Lemma doy_loop_endless fuel month dt : @doy_loop utc fuel NaN month dt = NoFuel.
Proof.
  revert month dt. induction fuel as [|n IH]; intros month dt; [done|]. cbn [doy_loop].
  assert (@_getDaysInMonth utc NaN (Num.sub month (Fin 1)) = NaN) as -> by by destruct month.
  by destruct dt; apply IH.
Qed.

Example parseDate_endless :
  let value := str "999999999999999999991" in
  let s := (@parse_loop utc (fun c => [c]) value 3 regional_en
              (PSt (str "!o") 0 (Fin (-1)) (Fin (-1)) (Fin (-1)) (Fin (-1)) false)).2 in
  (iValue s = length value /\ year s = NaN /\ doy s = Fin 1)
  /\ forall fuel, @parse_end utc fuel (year s) (month s) (day s) (doy s) = NoFuel.
Proof.
  intros value s. split; [by vm_compute|]. intros fuel. unfold parse_end.
  assert (year s = NaN /\ doy s = Fin 1) as [-> ->] by by vm_compute.
  cbn [Num.gt Num.lt]. by rewrite doy_loop_endless.
Qed.

(** Times before 1970 are written with a sign, which [parseDate] does not read;
    and it reads a doubled [@] as one field, where [formatDate] writes two. *)
Example timestamp_not_read :
  let write f t := @formatDate utc regional_en (str f) (Some (Some t)) None in
  let read f v := @parseDate utc (fun c => [c]) (Some 0) regional_en (Some (str f)) (Some v) None in
  write "@" (-86400000) = str "-86400000"
  /\ read "@" (write "@" (-86400000)) = Throw (str "Missing number at position 0")
  /\ write "@@" 86400000 = str "8640000086400000"
  /\ read "@@" (write "@@" 86400000) = Throw (str "Extra/unparsed characters found in date: 00").
Proof. by vm_compute. Qed.

(** The "four digit" year is not padded, and [parseDate] wants four digits. *)
Example short_year_not_read :
  let d := @new_Date utc (Fin 900) (Fin 0) (Fin 1) in
  let v := @formatDate utc regional_en (str "yy-mm-dd") (Some d) None in
  v = str "900-01-01"
  /\ @parseDate utc (fun c => [c]) (Some 0) regional_en (Some (str "yy-mm-dd")) (Some v) None
     = Throw (str "Missing number at position 0").
Proof. by vm_compute. Qed.
