(* ===== verification/Datepicker.v ===== *)
(** * The date picker of jquery-ui.js: its instances

    The settings, the instances and the manager [$.datepicker], and the methods
    that compute with them: the dates that settings denote, the selected date and
    its moves.  Instances are objects that outlive the elements' data, so they are
    in a heap; what is drawn and shown is in [DatepickerHtml] and [DatepickerUi]. *)

From S2P Require Import Prelude JsNum JsDate DateFormat.

(** ** Settings *)

(** A date in the settings or given by the caller. *)
Inductive dateArg := ANull | ADate (d : date) | AText (s : jstr) | ANum (n : num).

(** [numberOfMonths]. *)
Inductive months := MNull | MNum (n : Z) | MArr (rows cols : Z).

(** What [beforeShowDay] returns: selectable, classes, title. *)
Record day_settings := DaySettings { ds_ok : bool; ds_class : jstr; ds_title : option jstr }.

(** The functions of the page that the picker calls are numbered. *)
Abbreviation handler := N.

(** The settings that the modelled code reads, each a value of type [F A]. *)
Record opts (F : Type -> Type) := Opts {
  dateFormat : F jstr;
  defaultDate : F dateArg;
  minDate : F dateArg;
  maxDate : F dateArg;
  o_shortYearCutoff : F cutoff;
  o_dayNames : F (list jstr);
  o_dayNamesShort : F (list jstr);
  dayNamesMin : F (list jstr);
  o_monthNames : F (list jstr);
  o_monthNamesShort : F (list jstr);
  closeText : F jstr;
  prevText : F jstr;
  nextText : F jstr;
  currentText : F jstr;
  weekHeader : F jstr;
  yearSuffix : F jstr;
  firstDay : F num;
  isRTL : F bool;
  showMonthAfterYear : F bool;
  showOn : F jstr;
  appendText : F jstr;
  buttonText : F jstr;
  buttonImage : F jstr;
  buttonImageOnly : F bool;
  showAnim : F jstr;
  duration : F jstr;
  hideIfNoPrevNext : F bool;
  navigationAsDateFormat : F bool;
  gotoCurrent : F bool;
  changeMonth : F bool;
  changeYear : F bool;
  yearRange : F jstr;
  showOtherMonths : F bool;
  selectOtherMonths : F bool;
  showWeek : F bool;
  calculateWeek : F (date -> num);
  beforeShowDay : F (option (date -> day_settings));
  beforeShow : F (option handler);
  onSelect : F (option handler);
  onChangeMonthYear : F (option handler);
  onClose : F (option handler);
  numberOfMonths : F months;
  showCurrentAtPos : F num;
  stepMonths : F num;
  stepBigMonths : F num;
  altField : F jstr;
  altFormat : F jstr;
  constrainInput : F bool;
  showButtonPanel : F bool;
  autoSize : F bool;
  disabled : F bool
}.

Arguments dateFormat {F} _.
Arguments defaultDate {F} _.
Arguments minDate {F} _.
Arguments maxDate {F} _.
Arguments o_shortYearCutoff {F} _.
Arguments o_dayNames {F} _.
Arguments o_dayNamesShort {F} _.
Arguments dayNamesMin {F} _.
Arguments o_monthNames {F} _.
Arguments o_monthNamesShort {F} _.
Arguments closeText {F} _.
Arguments prevText {F} _.
Arguments nextText {F} _.
Arguments currentText {F} _.
Arguments weekHeader {F} _.
Arguments yearSuffix {F} _.
Arguments firstDay {F} _.
Arguments isRTL {F} _.
Arguments showMonthAfterYear {F} _.
Arguments showOn {F} _.
Arguments appendText {F} _.
Arguments buttonText {F} _.
Arguments buttonImage {F} _.
Arguments buttonImageOnly {F} _.
Arguments showAnim {F} _.
Arguments duration {F} _.
Arguments hideIfNoPrevNext {F} _.
Arguments navigationAsDateFormat {F} _.
Arguments gotoCurrent {F} _.
Arguments changeMonth {F} _.
Arguments changeYear {F} _.
Arguments yearRange {F} _.
Arguments showOtherMonths {F} _.
Arguments selectOtherMonths {F} _.
Arguments showWeek {F} _.
Arguments calculateWeek {F} _.
Arguments beforeShowDay {F} _.
Arguments beforeShow {F} _.
Arguments onSelect {F} _.
Arguments onChangeMonthYear {F} _.
Arguments onClose {F} _.
Arguments numberOfMonths {F} _.
Arguments showCurrentAtPos {F} _.
Arguments stepMonths {F} _.
Arguments stepBigMonths {F} _.
Arguments altField {F} _.
Arguments altFormat {F} _.
Arguments constrainInput {F} _.
Arguments showButtonPanel {F} _.
Arguments autoSize {F} _.
Arguments disabled {F} _.
Arguments Opts {F}.

(** Settings field by field: all from one value, and two settings combined. *)
Definition opts_all {F : Type -> Type} (x : forall A, F A) : opts F := Opts
  (x _) (x _) (x _) (x _) (x _) (x _) (x _) (x _) (x _) (x _) (x _) (x _) (x _) (x _) (x _) (x _) (x _)
  (x _) (x _) (x _) (x _) (x _) (x _) (x _) (x _) (x _) (x _) (x _) (x _) (x _) (x _) (x _) (x _) (x _)
  (x _) (x _) (x _) (x _) (x _) (x _) (x _) (x _) (x _) (x _) (x _) (x _) (x _) (x _) (x _) (x _) (x _).

Definition opts_zip {F G H : Type -> Type} (h : forall A, F A -> G A -> H A) (a : opts F) (b : opts G) : opts H := Opts
  (h _ (dateFormat a) (dateFormat b)) (h _ (defaultDate a) (defaultDate b))
  (h _ (minDate a) (minDate b)) (h _ (maxDate a) (maxDate b))
  (h _ (o_shortYearCutoff a) (o_shortYearCutoff b)) (h _ (o_dayNames a) (o_dayNames b))
  (h _ (o_dayNamesShort a) (o_dayNamesShort b)) (h _ (dayNamesMin a) (dayNamesMin b))
  (h _ (o_monthNames a) (o_monthNames b)) (h _ (o_monthNamesShort a) (o_monthNamesShort b))
  (h _ (closeText a) (closeText b)) (h _ (prevText a) (prevText b)) (h _ (nextText a) (nextText b))
  (h _ (currentText a) (currentText b)) (h _ (weekHeader a) (weekHeader b))
  (h _ (yearSuffix a) (yearSuffix b)) (h _ (firstDay a) (firstDay b)) (h _ (isRTL a) (isRTL b))
  (h _ (showMonthAfterYear a) (showMonthAfterYear b)) (h _ (showOn a) (showOn b))
  (h _ (appendText a) (appendText b)) (h _ (buttonText a) (buttonText b))
  (h _ (buttonImage a) (buttonImage b)) (h _ (buttonImageOnly a) (buttonImageOnly b))
  (h _ (showAnim a) (showAnim b)) (h _ (duration a) (duration b))
  (h _ (hideIfNoPrevNext a) (hideIfNoPrevNext b))
  (h _ (navigationAsDateFormat a) (navigationAsDateFormat b)) (h _ (gotoCurrent a) (gotoCurrent b))
  (h _ (changeMonth a) (changeMonth b)) (h _ (changeYear a) (changeYear b))
  (h _ (yearRange a) (yearRange b)) (h _ (showOtherMonths a) (showOtherMonths b))
  (h _ (selectOtherMonths a) (selectOtherMonths b)) (h _ (showWeek a) (showWeek b))
  (h _ (calculateWeek a) (calculateWeek b)) (h _ (beforeShowDay a) (beforeShowDay b))
  (h _ (beforeShow a) (beforeShow b)) (h _ (onSelect a) (onSelect b))
  (h _ (onChangeMonthYear a) (onChangeMonthYear b)) (h _ (onClose a) (onClose b))
  (h _ (numberOfMonths a) (numberOfMonths b)) (h _ (showCurrentAtPos a) (showCurrentAtPos b))
  (h _ (stepMonths a) (stepMonths b)) (h _ (stepBigMonths a) (stepBigMonths b))
  (h _ (altField a) (altField b)) (h _ (altFormat a) (altFormat b))
  (h _ (constrainInput a) (constrainInput b)) (h _ (showButtonPanel a) (showButtonPanel b))
  (h _ (autoSize a) (autoSize b)) (h _ (disabled a) (disabled b)).

(** One of the bounds replaced. *)
Definition set_minDate {F : Type -> Type} (x : F dateArg) (o : opts F) : opts F := Opts
  (dateFormat o) (defaultDate o) x (maxDate o) (o_shortYearCutoff o) (o_dayNames o) (o_dayNamesShort o)
  (dayNamesMin o) (o_monthNames o) (o_monthNamesShort o) (closeText o) (prevText o) (nextText o)
  (currentText o) (weekHeader o) (yearSuffix o) (firstDay o) (isRTL o) (showMonthAfterYear o)
  (showOn o) (appendText o) (buttonText o) (buttonImage o) (buttonImageOnly o) (showAnim o)
  (duration o) (hideIfNoPrevNext o) (navigationAsDateFormat o) (gotoCurrent o) (changeMonth o)
  (changeYear o) (yearRange o) (showOtherMonths o) (selectOtherMonths o) (showWeek o) (calculateWeek o)
  (beforeShowDay o) (beforeShow o) (onSelect o) (onChangeMonthYear o) (onClose o) (numberOfMonths o)
  (showCurrentAtPos o) (stepMonths o) (stepBigMonths o) (altField o) (altFormat o) (constrainInput o)
  (showButtonPanel o) (autoSize o) (disabled o).
Definition set_maxDate {F : Type -> Type} (x : F dateArg) (o : opts F) : opts F := Opts
  (dateFormat o) (defaultDate o) (minDate o) x (o_shortYearCutoff o) (o_dayNames o) (o_dayNamesShort o)
  (dayNamesMin o) (o_monthNames o) (o_monthNamesShort o) (closeText o) (prevText o) (nextText o)
  (currentText o) (weekHeader o) (yearSuffix o) (firstDay o) (isRTL o) (showMonthAfterYear o)
  (showOn o) (appendText o) (buttonText o) (buttonImage o) (buttonImageOnly o) (showAnim o)
  (duration o) (hideIfNoPrevNext o) (navigationAsDateFormat o) (gotoCurrent o) (changeMonth o)
  (changeYear o) (yearRange o) (showOtherMonths o) (selectOtherMonths o) (showWeek o) (calculateWeek o)
  (beforeShowDay o) (beforeShow o) (onSelect o) (onChangeMonthYear o) (onClose o) (numberOfMonths o)
  (showCurrentAtPos o) (stepMonths o) (stepBigMonths o) (altField o) (altFormat o) (constrainInput o)
  (showButtonPanel o) (autoSize o) (disabled o).

(** The settings that a call passes: a property may be absent, or present and
    [undefined]. *)
Inductive upd (A : Type) := Absent | Undef | Given (a : A).
Arguments Absent {A}.
Arguments Undef {A}.
Arguments Given {A} _.

(** [$.extend(target, props)] on a property skips [undefined];
    [datepicker_extendRemove] then copies what is [null] or [undefined]. *)
Definition extend_one {A} (target : option A) (prop : upd A) : option A :=
  match prop with Given a => Some a | _ => target end.

Definition extendRemove_one (A : Type) (target : option A) (prop : upd A) : option A :=
  match prop with Undef => None | _ => extend_one target prop end.

Definition datepicker_extendRemove (target : opts option) (props : opts upd) : opts option :=
  opts_zip extendRemove_one target props.

Definition no_settings : opts option := opts_all (fun A => @None A).
Definition no_props : opts upd := opts_all (fun A => @Absent A).

(** ** Instances, elements and the manager *)

(** A day: a number, or the text of the link of a cell. *)
Inductive dayval := DayNum (n : num) | DayText (s : jstr).

(** The presentation division: its content, the step that its handlers were
    attached with, its classes, and whether it is shown. *)
Record div := Div {
  d_html : jstr;
  d_step : num;
  d_cols : Z;
  d_multi : bool;
  d_rtl : bool;
  d_dialog : bool;
  d_shown : bool
}.

Definition set_d_html (x : jstr) (r : div) : div := Div
  x (d_step r) (d_cols r) (d_multi r) (d_rtl r) (d_dialog r) (d_shown r).
Definition set_d_step (x : num) (r : div) : div := Div
  (d_html r) x (d_cols r) (d_multi r) (d_rtl r) (d_dialog r) (d_shown r).
Definition set_d_cols (x : Z) (r : div) : div := Div
  (d_html r) (d_step r) x (d_multi r) (d_rtl r) (d_dialog r) (d_shown r).
Definition set_d_multi (x : bool) (r : div) : div := Div
  (d_html r) (d_step r) (d_cols r) x (d_rtl r) (d_dialog r) (d_shown r).
Definition set_d_rtl (x : bool) (r : div) : div := Div
  (d_html r) (d_step r) (d_cols r) (d_multi r) x (d_dialog r) (d_shown r).
Definition set_d_dialog (x : bool) (r : div) : div := Div
  (d_html r) (d_step r) (d_cols r) (d_multi r) (d_rtl r) x (d_shown r).
Definition set_d_shown (x : bool) (r : div) : div := Div
  (d_html r) (d_step r) (d_cols r) (d_multi r) (d_rtl r) (d_dialog r) x.

Definition empty_div : div := Div [] NaN 1 false false false false.

(** The element that opens the picker: an image, or a button with a text or an
    image. *)
Inductive trigger_elem := TImg (src alt : jstr) | TText (html : jstr) | TButton (src alt : jstr).

(** An instance; [target] is the element of [inst.input], and [dpDiv] its own
    division when it is inline; [append] and [i_trigger] are what was put next to the
    input, before it or not. *)
Record inst := Inst {
  settings : opts option;
  selectedDay : dayval;
  selectedMonth : num;
  selectedYear : num;
  drawMonth : num;
  drawYear : num;
  currentDay : dayval;
  currentMonth : num;
  currentYear : num;
  inline : bool;
  target : nat;
  lastVal : option jstr;
  _keyEvent : bool;
  yearshtml : option jstr;
  inlineDiv : div;
  append : option (bool * jstr);
  i_trigger : option (bool * trigger_elem)
}.

Definition set_settings (x : opts option) (r : inst) : inst := Inst
  x (selectedDay r) (selectedMonth r) (selectedYear r) (drawMonth r) (drawYear r) (currentDay r)
  (currentMonth r) (currentYear r) (inline r) (target r) (lastVal r) (_keyEvent r) (yearshtml r)
  (inlineDiv r) (append r) (i_trigger r).
Definition set_selectedDay (x : dayval) (r : inst) : inst := Inst
  (settings r) x (selectedMonth r) (selectedYear r) (drawMonth r) (drawYear r) (currentDay r)
  (currentMonth r) (currentYear r) (inline r) (target r) (lastVal r) (_keyEvent r) (yearshtml r)
  (inlineDiv r) (append r) (i_trigger r).
Definition set_selectedMonth (x : num) (r : inst) : inst := Inst
  (settings r) (selectedDay r) x (selectedYear r) (drawMonth r) (drawYear r) (currentDay r)
  (currentMonth r) (currentYear r) (inline r) (target r) (lastVal r) (_keyEvent r) (yearshtml r)
  (inlineDiv r) (append r) (i_trigger r).
Definition set_selectedYear (x : num) (r : inst) : inst := Inst
  (settings r) (selectedDay r) (selectedMonth r) x (drawMonth r) (drawYear r) (currentDay r)
  (currentMonth r) (currentYear r) (inline r) (target r) (lastVal r) (_keyEvent r) (yearshtml r)
  (inlineDiv r) (append r) (i_trigger r).
Definition set_drawMonth (x : num) (r : inst) : inst := Inst
  (settings r) (selectedDay r) (selectedMonth r) (selectedYear r) x (drawYear r) (currentDay r)
  (currentMonth r) (currentYear r) (inline r) (target r) (lastVal r) (_keyEvent r) (yearshtml r)
  (inlineDiv r) (append r) (i_trigger r).
Definition set_drawYear (x : num) (r : inst) : inst := Inst
  (settings r) (selectedDay r) (selectedMonth r) (selectedYear r) (drawMonth r) x (currentDay r)
  (currentMonth r) (currentYear r) (inline r) (target r) (lastVal r) (_keyEvent r) (yearshtml r)
  (inlineDiv r) (append r) (i_trigger r).
Definition set_currentDay (x : dayval) (r : inst) : inst := Inst
  (settings r) (selectedDay r) (selectedMonth r) (selectedYear r) (drawMonth r) (drawYear r) x
  (currentMonth r) (currentYear r) (inline r) (target r) (lastVal r) (_keyEvent r) (yearshtml r)
  (inlineDiv r) (append r) (i_trigger r).
Definition set_currentMonth (x : num) (r : inst) : inst := Inst
  (settings r) (selectedDay r) (selectedMonth r) (selectedYear r) (drawMonth r) (drawYear r)
  (currentDay r) x (currentYear r) (inline r) (target r) (lastVal r) (_keyEvent r) (yearshtml r)
  (inlineDiv r) (append r) (i_trigger r).
Definition set_currentYear (x : num) (r : inst) : inst := Inst
  (settings r) (selectedDay r) (selectedMonth r) (selectedYear r) (drawMonth r) (drawYear r)
  (currentDay r) (currentMonth r) x (inline r) (target r) (lastVal r) (_keyEvent r) (yearshtml r)
  (inlineDiv r) (append r) (i_trigger r).
Definition set_inline (x : bool) (r : inst) : inst := Inst
  (settings r) (selectedDay r) (selectedMonth r) (selectedYear r) (drawMonth r) (drawYear r)
  (currentDay r) (currentMonth r) (currentYear r) x (target r) (lastVal r) (_keyEvent r) (yearshtml r)
  (inlineDiv r) (append r) (i_trigger r).
Definition set_target (x : nat) (r : inst) : inst := Inst
  (settings r) (selectedDay r) (selectedMonth r) (selectedYear r) (drawMonth r) (drawYear r)
  (currentDay r) (currentMonth r) (currentYear r) (inline r) x (lastVal r) (_keyEvent r) (yearshtml r)
  (inlineDiv r) (append r) (i_trigger r).
Definition set_lastVal (x : option jstr) (r : inst) : inst := Inst
  (settings r) (selectedDay r) (selectedMonth r) (selectedYear r) (drawMonth r) (drawYear r)
  (currentDay r) (currentMonth r) (currentYear r) (inline r) (target r) x (_keyEvent r) (yearshtml r)
  (inlineDiv r) (append r) (i_trigger r).
Definition set_keyEvent (x : bool) (r : inst) : inst := Inst
  (settings r) (selectedDay r) (selectedMonth r) (selectedYear r) (drawMonth r) (drawYear r)
  (currentDay r) (currentMonth r) (currentYear r) (inline r) (target r) (lastVal r) x (yearshtml r)
  (inlineDiv r) (append r) (i_trigger r).
Definition set_yearshtml (x : option jstr) (r : inst) : inst := Inst
  (settings r) (selectedDay r) (selectedMonth r) (selectedYear r) (drawMonth r) (drawYear r)
  (currentDay r) (currentMonth r) (currentYear r) (inline r) (target r) (lastVal r) (_keyEvent r) x
  (inlineDiv r) (append r) (i_trigger r).
Definition set_inlineDiv (x : div) (r : inst) : inst := Inst
  (settings r) (selectedDay r) (selectedMonth r) (selectedYear r) (drawMonth r) (drawYear r)
  (currentDay r) (currentMonth r) (currentYear r) (inline r) (target r) (lastVal r) (_keyEvent r)
  (yearshtml r) x (append r) (i_trigger r).
Definition set_append (x : option (bool * jstr)) (r : inst) : inst := Inst
  (settings r) (selectedDay r) (selectedMonth r) (selectedYear r) (drawMonth r) (drawYear r)
  (currentDay r) (currentMonth r) (currentYear r) (inline r) (target r) (lastVal r) (_keyEvent r)
  (yearshtml r) (inlineDiv r) x (i_trigger r).
Definition set_i_trigger (x : option (bool * trigger_elem)) (r : inst) : inst := Inst
  (settings r) (selectedDay r) (selectedMonth r) (selectedYear r) (drawMonth r) (drawYear r)
  (currentDay r) (currentMonth r) (currentYear r) (inline r) (target r) (lastVal r) (_keyEvent r)
  (yearshtml r) (inlineDiv r) (append r) x.

Inductive kind := KInput | KDiv | KSpan | KOther.

(** An element: its kind, the class [hasDatepicker], its properties [disabled],
    [value] and [size], whether a focus event shows the picker, and what the
    selectors [:visible] and [:focus] say. *)
Record elem := Elem {
  nodeName : kind;
  marked : bool;
  e_disabled : bool;
  value : jstr;
  e_size : option nat;
  opens : bool;
  visible : bool;
  focused : bool
}.

Definition set_marked (x : bool) (r : elem) : elem := Elem
  (nodeName r) x (e_disabled r) (value r) (e_size r) (opens r) (visible r) (focused r).
Definition set_e_disabled (x : bool) (r : elem) : elem := Elem
  (nodeName r) (marked r) x (value r) (e_size r) (opens r) (visible r) (focused r).
Definition set_value (x : jstr) (r : elem) : elem := Elem
  (nodeName r) (marked r) (e_disabled r) x (e_size r) (opens r) (visible r) (focused r).
Definition set_e_size (x : option nat) (r : elem) : elem := Elem
  (nodeName r) (marked r) (e_disabled r) (value r) x (opens r) (visible r) (focused r).
Definition set_opens (x : bool) (r : elem) : elem := Elem
  (nodeName r) (marked r) (e_disabled r) (value r) (e_size r) x (visible r) (focused r).

(** The manager [$.datepicker] and the page: [instances] is the heap, [data] the
    instances that are the data of elements, [clock] the time of day; [timers] are
    the pending calls of [setTimeout], [alternates] the values of the alternate
    fields, by selector. *)
Record dp := Dp {
  _defaults : opts (fun A => A);
  instances : gmap nat inst;
  next : nat;
  data : gmap nat nat;
  elements : gmap nat elem;
  _curInst : option nat;
  _datepickerShowing : bool;
  _disabledInputs : list nat;
  _lastInput : option nat;
  _inDialog : bool;
  dpDiv : div;
  alternates : gmap jstr jstr;
  maxRows : num;
  instActive : option nat;
  clock : date;
  timers : list (nat * jstr)
}.

Definition set_defaults (x : opts (fun A => A)) (r : dp) : dp := Dp
  x (instances r) (next r) (data r) (elements r) (_curInst r) (_datepickerShowing r)
  (_disabledInputs r) (_lastInput r) (_inDialog r) (dpDiv r) (alternates r) (maxRows r) (instActive r)
  (clock r) (timers r).
Definition set_instances (x : gmap nat inst) (r : dp) : dp := Dp
  (_defaults r) x (next r) (data r) (elements r) (_curInst r) (_datepickerShowing r)
  (_disabledInputs r) (_lastInput r) (_inDialog r) (dpDiv r) (alternates r) (maxRows r) (instActive r)
  (clock r) (timers r).
Definition set_next (x : nat) (r : dp) : dp := Dp
  (_defaults r) (instances r) x (data r) (elements r) (_curInst r) (_datepickerShowing r)
  (_disabledInputs r) (_lastInput r) (_inDialog r) (dpDiv r) (alternates r) (maxRows r) (instActive r)
  (clock r) (timers r).
Definition set_data (x : gmap nat nat) (r : dp) : dp := Dp
  (_defaults r) (instances r) (next r) x (elements r) (_curInst r) (_datepickerShowing r)
  (_disabledInputs r) (_lastInput r) (_inDialog r) (dpDiv r) (alternates r) (maxRows r) (instActive r)
  (clock r) (timers r).
Definition set_elements (x : gmap nat elem) (r : dp) : dp := Dp
  (_defaults r) (instances r) (next r) (data r) x (_curInst r) (_datepickerShowing r)
  (_disabledInputs r) (_lastInput r) (_inDialog r) (dpDiv r) (alternates r) (maxRows r) (instActive r)
  (clock r) (timers r).
Definition set_curInst (x : option nat) (r : dp) : dp := Dp
  (_defaults r) (instances r) (next r) (data r) (elements r) x (_datepickerShowing r)
  (_disabledInputs r) (_lastInput r) (_inDialog r) (dpDiv r) (alternates r) (maxRows r) (instActive r)
  (clock r) (timers r).
Definition set_datepickerShowing (x : bool) (r : dp) : dp := Dp
  (_defaults r) (instances r) (next r) (data r) (elements r) (_curInst r) x (_disabledInputs r)
  (_lastInput r) (_inDialog r) (dpDiv r) (alternates r) (maxRows r) (instActive r) (clock r) (timers r).
Definition set_disabledInputs (x : list nat) (r : dp) : dp := Dp
  (_defaults r) (instances r) (next r) (data r) (elements r) (_curInst r) (_datepickerShowing r) x
  (_lastInput r) (_inDialog r) (dpDiv r) (alternates r) (maxRows r) (instActive r) (clock r) (timers r).
Definition set_lastInput (x : option nat) (r : dp) : dp := Dp
  (_defaults r) (instances r) (next r) (data r) (elements r) (_curInst r) (_datepickerShowing r)
  (_disabledInputs r) x (_inDialog r) (dpDiv r) (alternates r) (maxRows r) (instActive r) (clock r)
  (timers r).
Definition set_inDialog (x : bool) (r : dp) : dp := Dp
  (_defaults r) (instances r) (next r) (data r) (elements r) (_curInst r) (_datepickerShowing r)
  (_disabledInputs r) (_lastInput r) x (dpDiv r) (alternates r) (maxRows r) (instActive r) (clock r)
  (timers r).
Definition set_dpDiv (x : div) (r : dp) : dp := Dp
  (_defaults r) (instances r) (next r) (data r) (elements r) (_curInst r) (_datepickerShowing r)
  (_disabledInputs r) (_lastInput r) (_inDialog r) x (alternates r) (maxRows r) (instActive r)
  (clock r) (timers r).
Definition set_alternates (x : gmap jstr jstr) (r : dp) : dp := Dp
  (_defaults r) (instances r) (next r) (data r) (elements r) (_curInst r) (_datepickerShowing r)
  (_disabledInputs r) (_lastInput r) (_inDialog r) (dpDiv r) x (maxRows r) (instActive r) (clock r)
  (timers r).
Definition set_maxRows (x : num) (r : dp) : dp := Dp
  (_defaults r) (instances r) (next r) (data r) (elements r) (_curInst r) (_datepickerShowing r)
  (_disabledInputs r) (_lastInput r) (_inDialog r) (dpDiv r) (alternates r) x (instActive r) (clock r)
  (timers r).
Definition set_instActive (x : option nat) (r : dp) : dp := Dp
  (_defaults r) (instances r) (next r) (data r) (elements r) (_curInst r) (_datepickerShowing r)
  (_disabledInputs r) (_lastInput r) (_inDialog r) (dpDiv r) (alternates r) (maxRows r) x (clock r)
  (timers r).
Definition set_clock (x : date) (r : dp) : dp := Dp
  (_defaults r) (instances r) (next r) (data r) (elements r) (_curInst r) (_datepickerShowing r)
  (_disabledInputs r) (_lastInput r) (_inDialog r) (dpDiv r) (alternates r) (maxRows r) (instActive r)
  x (timers r).
Definition set_timers (x : list (nat * jstr)) (r : dp) : dp := Dp
  (_defaults r) (instances r) (next r) (data r) (elements r) (_curInst r) (_datepickerShowing r)
  (_disabledInputs r) (_lastInput r) (_inDialog r) (dpDiv r) (alternates r) (maxRows r) (instActive r)
  (clock r) x.

(** ** The page *)

(** What the picker passes to the functions of the page, and what it looks at in
    their results. *)
Inductive harg := HText (s : jstr) | HNum (n : num) | HInst (r : nat) | HTarget (t : nat).
Inductive hret := HUndefined | HFalse | HSettings (props : opts upd).

(** The events the picker triggers on an element. *)
Inductive pevent := EChange | EFocus.

(** The functions of the page and of the host: the lower case of the characters
    beyond ASCII, [ToNumber] of a string, a call of a handler on an element, the
    handlers of an event, an animation of a division (the method [show], [hide] or
    the one named, and the callback of [hide]). *)
Class Page := {
  unicode_lower : N -> jstr;
  text_number : jstr -> num;
  call_handler : handler -> nat -> list harg -> SM dp hret;
  trigger : pevent -> nat -> SM dp unit;
  animate : bool -> jstr -> jstr -> nat -> SM dp unit
}.

Section instances.
Context `{TimeZone} `{Page}.

(** [regional[""]] and the other defaults. *)
Definition _defaults0 : opts (fun A => A) := {|
  dateFormat := str "mm/dd/yy";
  defaultDate := ANull;
  minDate := ANull;
  maxDate := ANull;
  o_shortYearCutoff := CutStr (str "+10");
  o_dayNames := DateFormat.dayNames regional_en;
  o_dayNamesShort := DateFormat.dayNamesShort regional_en;
  dayNamesMin := List.map str ["Su"; "Mo"; "Tu"; "We"; "Th"; "Fr"; "Sa"];
  o_monthNames := DateFormat.monthNames regional_en;
  o_monthNamesShort := DateFormat.monthNamesShort regional_en;
  closeText := str "Done";
  prevText := str "Prev";
  nextText := str "Next";
  currentText := str "Today";
  weekHeader := str "Wk";
  yearSuffix := [];
  firstDay := Fin 0;
  isRTL := false;
  showMonthAfterYear := false;
  showOn := str "focus";
  appendText := [];
  buttonText := str "...";
  buttonImage := [];
  buttonImageOnly := false;
  showAnim := str "fadeIn";
  duration := str "fast";
  hideIfNoPrevNext := false;
  navigationAsDateFormat := false;
  gotoCurrent := false;
  changeMonth := false;
  changeYear := false;
  yearRange := str "c-10:c+10";
  showOtherMonths := false;
  selectOtherMonths := false;
  showWeek := false;
  calculateWeek := iso8601Week;
  beforeShowDay := None;
  beforeShow := None;
  onSelect := None;
  onChangeMonthYear := None;
  onClose := None;
  numberOfMonths := MNum 1;
  showCurrentAtPos := Fin 0;
  stepMonths := Fin 1;
  stepBigMonths := Fin 12;
  altField := [];
  altFormat := [];
  constrainInput := true;
  showButtonPanel := false;
  autoSize := false;
  disabled := false
|}.

(** ** Reading instances *)

(** The object that a reference stands for, and the value of an element. *)
Definition inst0 : inst :=
  Inst no_settings (DayNum (Fin 0)) (Fin 0) (Fin 0) (Fin 0) (Fin 0) (DayNum NaN) NaN NaN
    false 0 None false None empty_div None None.
Definition inst_at (st : dp) (r : nat) : inst := default inst0 (instances st !! r).
Definition elem0 : elem := Elem KOther false false [] None false false false.
Definition elem_at (st : dp) (t : nat) : elem := default elem0 (elements st !! t).
Definition upd_inst (r : nat) (f : inst -> inst) : SM dp unit :=
  sm_mod (fun st => set_instances (<[r := f (inst_at st r)]> (instances st)) st).
Definition upd_elem (t : nat) (f : elem -> elem) : SM dp unit :=
  sm_mod (fun st => set_elements (<[t := f (elem_at st t)]> (elements st)) st).

(** [inst.input.val()]. *)
Definition input_val (st : dp) (i : inst) : jstr := value (elem_at st (target i)).

(** [ToNumber] and [ToBoolean] of a day. *)
Definition day_num (d : dayval) : num := match d with DayNum n => n | DayText s => text_number s end.
Definition day_truthy (d : dayval) : bool :=
  match d with DayNum n => Num.truthy n | DayText s => bool_decide (s <> []) end.

Definition _get {A} (st : dp) (i : inst) (field : forall F, opts F -> F A) : A :=
  match field option (settings i) with
  | Some a => a
  | None => field (fun A => A) (_defaults st)
  end.

(** Provide the configuration settings for formatting and parsing. *)
Definition _getFormatConfig (st : dp) (i : inst) : format_settings :=
  let shortYearCutoff :=
    match _get st i (@o_shortYearCutoff) with
    | CutNum n => n
    | CutStr s => Num.add (Num.rem (getFullYear (clock st)) (Fin 100)) (parseInt10 s)
    end in
  FormatSettings (Some (CutNum shortYearCutoff))
    (Some (_get st i (@o_dayNamesShort))) (Some (_get st i (@o_dayNames)))
    (Some (_get st i (@o_monthNamesShort))) (Some (_get st i (@o_monthNames))).

(** [this.formatDate] and [this.parseDate], which look the names that are missing
    up in [_defaults]. *)
Definition default_names (st : dp) : format_names :=
  let d := _defaults st in
  FormatNames (o_shortYearCutoff d) (o_dayNamesShort d) (o_dayNames d) (o_monthNamesShort d) (o_monthNames d).

Definition dp_formatDate (st : dp) (format : jstr) (d : option date) (settings : format_settings) : jstr :=
  formatDate (default_names st) format d (Some settings).

Definition dp_parseDate (st : dp) (format value : jstr) (settings : format_settings) : res (option date) :=
  parseDate unicode_lower (clock st) (default_names st) (Some format) (Some value) (Some settings).

(** Retrieve the date directly. *)
Definition _getDate (st : dp) (i : inst) : option date :=
  if negb (Num.truthy (currentYear i)) || bool_decide (input_val st i = []) then None
  else Some (_daylightSavingAdjust (new_Date (currentYear i) (currentMonth i) (day_num (currentDay i)))).

(** ** The dates that settings denote *)

(** The inner function [offsetNumeric]. *)
Definition offsetNumeric (st : dp) (offset : num) : date :=
  setDate (clock st) (Num.add (getDate (clock st)) offset).

(** [[+\-]?[0-9]+] at the start of a text, and what follows it. *)
Definition match_number (s : jstr) : option (jstr * jstr) :=
  let '(sg, rest) :=
    match s with
    | c :: s' => if (c =? chr "+")%N || (c =? chr "-")%N then ([c], s') else ([], s)
    | [] => ([], s)
    end in
  match digits_prefix is_digit rest with
  | [] => None
  | ds => Some (sg ++ ds, drop (length ds) rest)
  end.

(** [\s*(d|D|w|W|m|M|y|Y)?]: the unit, and what follows it. *)
Definition match_unit (s : jstr) : option N * jstr :=
  match drop_space s with
  | c :: s' => if bool_decide (c ∈ str "dDwWmMyY") then (Some c, s') else (None, c :: s')
  | [] => (None, [])
  end.

(** [pattern.exec(offset)] from the place that the text [s] is the rest of. *)
Fixpoint pattern_exec (s : jstr) : option (jstr * option N * jstr) :=
  match match_number s with
  | Some (n, rest) => let '(u, rest) := match_unit rest in Some (n, u, rest)
  | None => match s with [] => None | _ :: s' => pattern_exec s' end
  end.

(** The [switch] of [offsetString]: the year, the month and the day moved by [n]. *)
Definition offset_step (n : num) (unit : N) (ymd : num * num * num) : num * num * num :=
  let '(year, month, day) := ymd in
  if bool_decide (unit ∈ str "dD") then (year, month, Num.add day n)
  else if bool_decide (unit ∈ str "wW") then (year, month, Num.add day (Num.mul n (Fin 7)))
  else if bool_decide (unit ∈ str "mM") then
    let month := Num.add month n in (year, month, Num.min day (_getDaysInMonth year month))
  else
    let year := Num.add year n in (year, month, Num.min day (_getDaysInMonth year month)).

(** The loop over the matches; each of them consumes a digit. *)
Fixpoint offset_loop (fuel : nat) (s : jstr) (ymd : num * num * num) : num * num * num :=
  match fuel with
  | O => ymd
  | S n =>
      match pattern_exec s with
      | Some (m1, m2, rest) => offset_loop n rest (offset_step (parseInt10 m1) (default (chr "d") m2) ymd)
      | None => ymd
      end
  end.

(** The inner function [offsetString]. *)
Definition offsetString (st : dp) (i : inst) (offset : jstr) : res (option date) :=
  match dp_parseDate st (_get st i (@dateFormat)) offset (_getFormatConfig st i) with
  | Ok d => Ok d
  | NoFuel => NoFuel
  | Throw _ =>
      let date :=
        match (if bool_decide (head (toLowerCase unicode_lower offset) = Some (chr "c")) then _getDate st i else None) with
        | Some d => d
        | None => clock st
        end in
      let '(y, m, d) := offset_loop (length offset) offset (getFullYear date, getMonth date, getDate date) in
      Ok (Some (new_Date y m d))
  end.

(** The end of [_determineDate]: the time of the date is cleared. *)
Definition start_of_day (newDate : option date) : option date :=
  match newDate with
  | Some d => Some (_daylightSavingAdjust
                (setMilliseconds (setSeconds (setMinutes (setHours d (Fin 0)) (Fin 0)) (Fin 0)) (Fin 0)))
  | None => None
  end.

(** A date may be specified as an exact value or a relative one; [None] is
    [null]. *)
Definition _determineDate (st : dp) (i : inst) (arg : dateArg) (defaultDate : option date) : res (option date) :=
  newDate ← match arg with
            | ANull => Ok defaultDate
            | AText [] => Ok defaultDate
            | AText s => offsetString st i s
            | ANum n => Ok (if decide (n = NaN) then defaultDate else Some (offsetNumeric st n))
            | ADate d => Ok (Some (date_of_time (getTime d)))
            end;
  Ok (start_of_day (match newDate with Some None => defaultDate | d => d end)).

(** Determine the current minimum or maximum date. *)
Definition _getMinMaxDate (st : dp) (i : inst) (minMax : forall F, opts F -> F dateArg) : res (option date) :=
  _determineDate st i (_get st i minMax) None.

(** [a < b] on dates or [null]. *)
Definition time_of (d : option date) : num := match d with Some d => getTime d | None => Fin 0 end.
Definition before (a b : option date) : bool := Num.lt (time_of a) (time_of b).

(** Ensure a date is within any min/max bounds. *)
Definition _restrictMinMax (st : dp) (i : inst) (d : option date) : res (option date) :=
  lo ← _getMinMaxDate st i (@minDate);
  hi ← _getMinMaxDate st i (@maxDate);
  let newDate := if bool_decide (is_Some lo) && before d lo then lo else d in
  Ok (if bool_decide (is_Some hi) && before hi newDate then hi else newDate).

(** Retrieve the default date shown on opening. *)
Definition _getDefaultDate (st : dp) (i : inst) : res (option date) :=
  d ← _determineDate st i (_get st i (@defaultDate)) (Some (clock st));
  _restrictMinMax st i d.

(** Determine the number of months to show: rows and columns. *)
Definition _getNumberOfMonths (st : dp) (i : inst) : Z * Z :=
  match _get st i (@numberOfMonths) with
  | MNull => (1, 1)
  | MNum n => (1, n)
  | MArr r c => (r, c)
  end.

(** [String.prototype.split(":")]. *)
Fixpoint split_colon (cur s : jstr) : list jstr :=
  match s with
  | [] => [rev cur]
  | c :: s' => if (c =? chr ":")%N then rev cur :: split_colon [] s' else split_colon (c :: cur) s'
  end.

(** A match of [/[+\-].*/]. *)
Definition has_sign (s : jstr) : bool := existsb (fun c => (c =? chr "+") || (c =? chr "-"))%N s.

(** The bounds of [yearRange], [NaN] where there is none. *)
Definition year_bounds (st : dp) (years : jstr) : res (num * num) :=
  if decide (years = []) then Ok (NaN, NaN) else
  match split_colon [] years with
  | a :: b :: _ =>
      let year s := if has_sign s then Num.add (parseInt10 s) (getFullYear (clock st)) else parseInt10 s in
      Ok (year a, year b)
  | _ => Throw (str "TypeError")
  end.

(** Is the given date in the accepted range? *)
Definition _isInRange (st : dp) (i : inst) (d : date) : res bool :=
  lo ← _getMinMaxDate st i (@minDate);
  hi ← _getMinMaxDate st i (@maxDate);
  '(minYear, maxYear) ← year_bounds st (_get st i (@yearRange));
  Ok (match lo with Some lo => Num.le (getTime lo) (getTime d) | None => true end
      && match hi with Some hi => Num.le (getTime d) (getTime hi) | None => true end
      && (negb (Num.truthy minYear) || Num.le minYear (getFullYear d))
      && (negb (Num.truthy maxYear) || Num.le (getFullYear d) maxYear)).

(** Determines if we should allow a next or previous month. *)
Definition _canAdjustMonth (st : dp) (i : inst) (offset : Z) (curYear curMonth : num) : res bool :=
  let '(rows, cols) := _getNumberOfMonths st i in
  let d := _daylightSavingAdjust (new_Date curYear
             (Num.add curMonth (Fin (if offset <? 0 then offset else rows * cols))) (Fin 1)) in
  _isInRange st i
    (if offset <? 0 then setDate d (_getDaysInMonth (getFullYear d) (getMonth d)) else d).

(** ** Changing instances *)

(** A reader of the state and an instance, in the monad. *)
Definition ask {A} (r : nat) (f : dp -> inst -> A) : SM dp A := sm_get (fun st => f st (inst_at st r)).
Definition ask_res {A} (r : nat) (f : dp -> inst -> res A) : SM dp A := fun st => (f st (inst_at st r), st).
Definition setting {A} (r : nat) (field : forall F, opts F -> F A) : SM dp A := ask r (fun st i => _get st i field).

(** A method of a date that may be [null]. *)
Definition a_date (d : option date) : res date :=
  match d with Some d => Ok d | None => Throw (str "TypeError") end.

Definition select (day : dayval) (month year : num) (i : inst) : inst :=
  set_selectedYear year (set_drawYear year (set_selectedMonth month (set_drawMonth month (set_selectedDay day i)))).
Definition set_current (day : dayval) (month year : num) (i : inst) : inst :=
  set_currentYear year (set_currentMonth month (set_currentDay day i)).
Definition select_date (d : date) : inst -> inst := select (DayNum (getDate d)) (getMonth d) (getFullYear d).

(** Notify change of month/year. *)
Definition _notifyChange (r : nat) : SM dp unit :=
  onChange ← setting r (@onChangeMonthYear);
  match onChange with
  | Some f =>
      i ← ask r (fun _ i => i);
      call_handler f (target i) [HNum (selectedYear i); HNum (Num.add (selectedMonth i) (Fin 1)); HInst r] ;;
      mret tt
  | None => mret tt
  end.

(** The argument [period]; a missing one is [None]. *)
Inductive period := PY | PM | PD.
#[export] Instance period_eq_dec : EqDecision period.
Proof. solve_decision. Defined.

(** The date that [_adjustInstDate] computes from the fields. *)
Definition adjusted (st : dp) (i : inst) (offset : num) (p : option period) : res date :=
  let at_period q := if decide (p = Some q) then offset else Fin 0 in
  let year := Num.add (selectedYear i) (at_period PY) in
  let month := Num.add (selectedMonth i) (at_period PM) in
  let day := Num.add (Num.min (day_num (selectedDay i)) (_getDaysInMonth year month)) (at_period PD) in
  d ← _restrictMinMax st i (Some (_daylightSavingAdjust (new_Date year month day)));
  a_date d.

(** Adjust one of the date sub-fields. *)
Definition _adjustInstDate (r : nat) (offset : num) (p : option period) : SM dp unit :=
  d ← ask_res r (fun st i => adjusted st i offset p);
  upd_inst r (select_date d) ;;
  sm_when (bool_decide (p = Some PM \/ p = Some PY)) (_notifyChange r).

(** The day, the month and the year that [_formatDate] is called with, or a date
    object, or nothing. *)
Inductive fdarg := FNone | FDate (d : date) | FDay (day : dayval) (month year : num).

(** Format the given date for display. *)
Definition _formatDate (r : nat) (arg : fdarg) : SM dp jstr :=
  let format (d : date) : SM dp jstr :=
    ask r (fun st i => dp_formatDate st (_get st i (@dateFormat)) (Some d) (_getFormatConfig st i)) in
  let current : SM dp jstr :=
    upd_inst r (fun i => set_current (selectedDay i) (selectedMonth i) (selectedYear i) i) ;;
    i ← ask r (fun _ i => i);
    format (_daylightSavingAdjust (new_Date (currentYear i) (currentMonth i) (day_num (currentDay i)))) in
  match arg with
  | FNone => current
  | FDate d => format d
  | FDay day month year =>
      if day_truthy day then format (_daylightSavingAdjust (new_Date year month (day_num day))) else current
  end.

(** Parse existing date and initialise date picker. *)
Definition _setDateFromField (r : nat) (noDefault : bool) : SM dp unit :=
  val ← ask r input_val;
  last ← ask r (fun _ i => lastVal i);
  if decide (last = Some val) then mret tt else
  upd_inst r (set_lastVal (Some val)) ;;
  defaultDate ← ask_res r _getDefaultDate;
  '(dates, d) ← (fun st =>
    let i := inst_at st r in
    match dp_parseDate st (_get st i (@dateFormat)) val (_getFormatConfig st i) with
    | Ok (Some d) => (Ok (val, Some d), st)
    | Ok None => (Ok (val, defaultDate), st)
    | Throw _ => (Ok (if noDefault then [] else val, defaultDate), st)
    | NoFuel => (NoFuel, st)
    end);
  d ← sm_lift (a_date d);
  upd_inst r (select_date d) ;;
  upd_inst r (if decide (dates = []) then set_current (DayNum (Fin 0)) (Fin 0) (Fin 0)
              else set_current (DayNum (getDate d)) (getMonth d) (getFullYear d)) ;;
  _adjustInstDate r NaN None.

(** [!date] on an argument. *)
Definition arg_falsy (arg : dateArg) : bool :=
  match arg with
  | ANull => true
  | ADate _ => false
  | AText s => bool_decide (s = [])
  | ANum n => negb (Num.truthy n)
  end.

(** Set the date directly. *)
Definition _setDate (r : nat) (arg : dateArg) (noChange : bool) : SM dp unit :=
  '(origMonth, origYear) ← ask r (fun _ i => (selectedMonth i, selectedYear i));
  d ← ask_res r (fun st i => d ← _determineDate st i arg (Some (clock st)); _restrictMinMax st i d);
  d ← sm_lift (a_date d);
  upd_inst r (fun i => select_date d (set_current (DayNum (getDate d)) (getMonth d) (getFullYear d) i)) ;;
  i ← ask r (fun _ i => i);
  sm_when ((negb (Num.eqb origMonth (selectedMonth i)) || negb (Num.eqb origYear (selectedYear i))) && negb noChange)
    (_notifyChange r) ;;
  _adjustInstDate r NaN None ;;
  text ← (if arg_falsy arg then mret [] else _formatDate r FNone);
  t ← ask r (fun _ i => target i);
  upd_elem t (set_value text).

(** Update any alternate field to synchronise with the main field. *)
Definition _updateAlternate (r : nat) : SM dp unit :=
  altField ← setting r (@altField);
  if decide (altField = []) then mret tt else
  altFormat ← setting r (@altFormat);
  dateFormat ← setting r (@dateFormat);
  dateStr ← ask r (fun st i =>
    dp_formatDate st (if decide (altFormat = []) then dateFormat else altFormat) (_getDate st i) (_getFormatConfig st i));
  sm_mod (fun st => set_alternates (<[altField := dateStr]> (alternates st)) st).

(** [_getInst] and the use of its result: an element without an instance gives
    [undefined], whose members throw. *)
Definition _getInst (t : nat) : SM dp (option nat) := sm_get (fun st => data st !! t).
Definition the_inst (t : nat) : SM dp nat :=
  r ← _getInst t; sm_lift (match r with Some r => Ok r | None => Throw (str "TypeError") end).

(** Get the date for an element. *)
Definition _getDateDatepicker (t : nat) (noDefault : bool) : SM dp (option date) :=
  r ← _getInst t;
  match r with
  | None => mret None
  | Some r =>
      i ← ask r (fun _ i => i);
      sm_when (negb (inline i)) (_setDateFromField r noDefault) ;;
      ask r _getDate
  end.

(** ** Disabled elements *)

Definition _isDisabledDatepicker (t : nat) : SM dp bool :=
  sm_get (fun st => bool_decide (t ∈ _disabledInputs st)).

(** [$.map(this._disabledInputs, ...)] without the entry of the element. *)
Definition delete_entry (t : nat) (st : dp) : dp :=
  set_disabledInputs (List.filter (fun v => negb (v =? t)%nat) (_disabledInputs st)) st.

Definition set_disabled_property (t : nat) (b : bool) : SM dp unit :=
  k ← sm_get (fun st => nodeName (elem_at st t));
  match k with KInput => upd_elem t (set_e_disabled b) | _ => mret tt end.

Definition _enableDatepicker (t : nat) : SM dp unit :=
  m ← sm_get (fun st => marked (elem_at st t));
  if negb m then mret tt else
  set_disabled_property t false ;; sm_mod (delete_entry t).

Definition _disableDatepicker (t : nat) : SM dp unit :=
  m ← sm_get (fun st => marked (elem_at st t));
  if negb m then mret tt else
  set_disabled_property t true ;; sm_mod (delete_entry t) ;;
  sm_mod (fun st => set_disabledInputs (_disabledInputs st ++ [t]) st).

(** ** Defaults and settings *)

Definition extend_default (A : Type) (target : A) (prop : upd A) : A :=
  match prop with Given a => a | _ => target end.

(** [setDefaults(settings)], with settings that are not [undefined]. *)
Definition setDefaults (props : opts upd) : SM dp unit :=
  sm_mod (fun st => set_defaults (opts_zip extend_default (_defaults st) props) st).

Definition extend_settings (r : nat) (props : opts upd) : SM dp unit :=
  upd_inst r (fun i => set_settings (datepicker_extendRemove (settings i) props) i).
End instances.
