(* ===== verification/DatepickerHtml.v ===== *)
(** * The date picker of jquery-ui.js: the calendar it draws

    [_generateHTML] and [_generateMonthYearHeader]: the text of the calendar, with
    the changes they make to the instance.  The functions of the months, rows and
    cells are the bodies of the nested loops. *)

From S2P Require Import Prelude JsNum JsDate DateFormat Datepicker.

(** [a ? x : ""] and text pieces. *)
Definition text_if (b : bool) (s : jstr) : jstr := if b then s else [].



(** [s.replace(/'/g, "&#39;")]. *)
Definition escape_quote (s : jstr) : jstr :=
  flat_map (fun c => if (c =? ch_quote)%N then str "&#39;" else [c]) s.

(** A match of [/c[+\-].*/]. *)
Fixpoint has_c_sign (s : jstr) : bool :=
  match s with
  | c :: s' => (c =? chr "c")%N && match s' with x :: _ => (x =? chr "+")%N || (x =? chr "-")%N | [] => false end
               || has_c_sign s'
  | [] => false
  end.

Section html.
Context `{TimeZone} `{Page}.

(** ** The month and the year of a calendar *)

(** The [option] elements of the months that are in range. *)
Definition month_options (names : list jstr) (drawMonth drawYear : num) (lo hi : option date) : jstr :=
  let inMinYear := match lo with Some d => Num.eqb (getFullYear d) drawYear | None => false end in
  let inMaxYear := match hi with Some d => Num.eqb (getFullYear d) drawYear | None => false end in
  flat_map (fun k : nat =>
    let month := Fin (Z.of_nat k) in
    if (negb inMinYear || Num.le (match lo with Some d => getMonth d | None => NaN end) month)
       && (negb inMaxYear || Num.le month (match hi with Some d => getMonth d | None => NaN end))
    then str "<option value='" ++ num_to_str month ++ str "'"
           ++ text_if (Num.eqb month drawMonth) (str " selected='selected'")
           ++ str ">" ++ name_at names month ++ str "</option>"
    else []) (seq 0 12).

(** The inner function [determineYear]. *)
Definition determineYear (drawYear thisYear : num) (value : jstr) : num :=
  let year :=
    if has_c_sign value then Num.add drawYear (parseInt10 (tail value))
    else if has_sign value then Num.add thisYear (parseInt10 value)
    else parseInt10 value in
  if decide (year = NaN) then thisYear else year.

(** The first and the last year of the [select] element. *)
Definition year_limits (st : dp) (i : inst) (drawYear : num) (lo hi : option date) : num * num :=
  let years := split_colon [] (_get st i (@yearRange)) in
  let thisYear := getFullYear (clock st) in
  let year := determineYear drawYear thisYear (default [] (years !! 0%nat)) in
  let endYear := Num.max year (determineYear drawYear thisYear (default [] (years !! 1%nat))) in
  (match lo with Some d => Num.max year (getFullYear d) | None => year end,
   match hi with Some d => Num.min endYear (getFullYear d) | None => endYear end).

(** The loop over the years; its bounds are numbers or [NaN]. *)
Definition year_options (drawYear year endYear : num) : jstr :=
  match year, endYear with
  | Fin a, Fin b =>
      flat_map (fun k : nat =>
        let y := Fin (a + Z.of_nat k) in
        str "<option value='" ++ num_to_str y ++ str "'" ++ text_if (Num.eqb y drawYear) (str " selected='selected'")
          ++ str ">" ++ num_to_str y ++ str "</option>") (seq 0 (Z.to_nat (b - a + 1)))
  | _, _ => []
  end.

Definition year_select (st : dp) (i : inst) (drawYear : num) (lo hi : option date) : jstr :=
  let '(year, endYear) := year_limits st i drawYear lo hi in
  str "<select class='ui-datepicker-year' data-handler='selectYear' data-event='change'>"
    ++ year_options drawYear year endYear ++ str "</select>".

(** Generate the month and year header. *)
Definition _generateMonthYearHeader (r : nat) (drawMonth drawYear : num) (lo hi : option date) (secondary : bool)
    (monthNames monthNamesShort : list jstr) : SM dp jstr := fun st =>
  let i := inst_at st r in
  let changeMonth := _get st i (@changeMonth) in
  let changeYear := _get st i (@changeYear) in
  let showMonthAfterYear := _get st i (@showMonthAfterYear) in
  let monthHtml :=
    if secondary || negb changeMonth then
      str "<span class='ui-datepicker-month'>" ++ name_at monthNames drawMonth ++ str "</span>"
    else str "<select class='ui-datepicker-month' data-handler='selectMonth' data-event='change'>"
           ++ month_options monthNamesShort drawMonth drawYear lo hi ++ str "</select>" in
  let gap := text_if (secondary || negb (changeMonth && changeYear)) (str "&#xa0;") in
  let '(yearHtml, yearshtml') :=
    match yearshtml i with
    | Some (_ :: _) => ([], yearshtml i)
    | _ =>
        if secondary || negb changeYear then
          (str "<span class='ui-datepicker-year'>" ++ num_to_str drawYear ++ str "</span>", Some [])
        else (year_select st i drawYear lo hi, None)
    end in
  let html :=
    str "<div class='ui-datepicker-title'>" ++ text_if (negb showMonthAfterYear) (monthHtml ++ gap)
      ++ yearHtml ++ _get st i (@yearSuffix) ++ text_if showMonthAfterYear (gap ++ monthHtml) ++ str "</div>" in
  (upd_inst r (set_yearshtml yearshtml') ;; mret html) st.

(** ** The months that are drawn *)

(** The loop that moves the drawn month back to [maxDraw]; the fuel counts the
    months between them. *)
Definition draw_fuel (drawYear drawMonth : num) (maxDraw : date) : nat :=
  match drawYear, drawMonth, getFullYear maxDraw with
  | Fin y, Fin m, Fin y' => Z.to_nat (12 * (y - y') + m + 13)
  | _, _, _ => O
  end.

Fixpoint clamp_draw (fuel : nat) (maxDraw : date) (drawYear drawMonth : num) : res (num * num) :=
  if date_lt maxDraw (_daylightSavingAdjust (new_Date drawYear drawMonth (Fin 1))) then
    match fuel with
    | O => NoFuel
    | S n =>
        let drawMonth := Num.sub drawMonth (Fin 1) in
        if Num.lt drawMonth (Fin 0) then clamp_draw n maxDraw (Num.sub drawYear (Fin 1)) (Fin 11)
        else clamp_draw n maxDraw drawYear drawMonth
    end
  else Ok (drawYear, drawMonth).

(** The year and the month that are drawn first. *)
Definition draw_start (st : dp) (i : inst) (lo hi : option date) : res (num * num) :=
  let '(rows, cols) := _getNumberOfMonths st i in
  let drawMonth := Num.sub (drawMonth i) (_get st i (@showCurrentAtPos)) in
  let '(drawYear, drawMonth) :=
    if Num.lt drawMonth (Fin 0) then (Num.sub (drawYear i) (Fin 1), Num.add drawMonth (Fin 12))
    else (drawYear i, drawMonth) in
  match hi with
  | None => Ok (drawYear, drawMonth)
  | Some hi =>
      let maxDraw := _daylightSavingAdjust (new_Date (getFullYear hi)
                       (Num.add (Num.sub (getMonth hi) (Fin (rows * cols))) (Fin 1)) (getDate hi)) in
      let maxDraw := match lo with Some lo => if date_lt maxDraw lo then lo else maxDraw | None => maxDraw end in
      clamp_draw (draw_fuel drawYear drawMonth maxDraw) maxDraw drawYear drawMonth
  end.

(** ** The links and the button panel *)

(** A text that is formatted with a date if [navigationAsDateFormat] is set. *)
Definition nav_text (st : dp) (i : inst) (text : jstr) (d : date) : jstr :=
  if _get st i (@navigationAsDateFormat) then dp_formatDate st text (Some d) (_getFormatConfig st i) else text.

(** The link to the previous or next month; [name] is [prev] or [next], [icon] a
    letter of the direction. *)
Definition nav_link (st : dp) (i : inst) (name icon text : jstr) (enabled : bool) : jstr :=
  let inner := str " title='" ++ text ++ str "'><span class='ui-icon ui-icon-circle-triangle-" ++ icon ++ str "'>"
                 ++ text ++ str "</span></a>" in
  if enabled then
    str "<a class='ui-datepicker-" ++ name ++ str " ui-corner-all' data-handler='" ++ name ++ str "' data-event='click'" ++ inner
  else if _get st i (@hideIfNoPrevNext) then []
  else str "<a class='ui-datepicker-" ++ name ++ str " ui-corner-all ui-state-disabled'" ++ inner.

Definition prev_link (st : dp) (i : inst) (drawYear drawMonth : num) : res jstr :=
  let text := nav_text st i (_get st i (@prevText))
    (_daylightSavingAdjust (new_Date drawYear (Num.sub drawMonth (_get st i (@stepMonths))) (Fin 1))) in
  ok ← _canAdjustMonth st i (-1) drawYear drawMonth;
  Ok (nav_link st i (str "prev") (if _get st i (@isRTL) then str "e" else str "w") text ok).

Definition next_link (st : dp) (i : inst) (drawYear drawMonth : num) : res jstr :=
  let text := nav_text st i (_get st i (@nextText))
    (_daylightSavingAdjust (new_Date drawYear (Num.add drawMonth (_get st i (@stepMonths))) (Fin 1))) in
  ok ← _canAdjustMonth st i 1 drawYear drawMonth;
  Ok (nav_link st i (str "next") (if _get st i (@isRTL) then str "w" else str "e") text ok).

Definition button_panel (st : dp) (i : inst) (today currentDate : date) : res jstr :=
  let rtl := _get st i (@isRTL) in
  let gotoDate := if _get st i (@gotoCurrent) && day_truthy (currentDay i) then currentDate else today in
  let currentText := nav_text st i (_get st i (@currentText)) gotoDate in
  let controls :=
    if inline i then []
    else str "<button type='button' class='ui-datepicker-close ui-state-default ui-priority-primary ui-corner-all' data-handler='hide' data-event='click'>"
           ++ _get st i (@closeText) ++ str "</button>" in
  if negb (_get st i (@showButtonPanel)) then Ok [] else
  ok ← _isInRange st i gotoDate;
  Ok (str "<div class='ui-datepicker-buttonpane ui-widget-content'>" ++ text_if rtl controls
        ++ text_if ok (str "<button type='button' class='ui-datepicker-current ui-state-default ui-priority-secondary ui-corner-all' data-handler='today' data-event='click'>"
                         ++ currentText ++ str "</button>")
        ++ text_if (negb rtl) controls ++ str "</div>").

(** ** The days *)

(** What the cells of a calendar share: the dates they are compared with, the month
    and the settings. *)
Record grid := Grid {
  g_today : date;
  g_current : date;
  g_selected : date;
  g_default : date;
  g_min : option date;
  g_max : option date;
  g_month : num;
  g_firstDay : num;
  g_state : dp;
  g_inst : inst
}.

Definition same_time (a b : date) : bool := Num.eqb (getTime a) (getTime b).

Definition weekend (g : grid) (dow : nat) : bool :=
  Num.le (Fin 5) (Num.rem (Num.add (Num.add (Fin (Z.of_nat dow)) (g_firstDay g)) (Fin 6)) (Fin 7)).

Definition day_setting (g : grid) (printDate : date) : day_settings :=
  match _get (g_state g) (g_inst g) (@beforeShowDay) with
  | Some f => f printDate
  | None => DaySettings true [] None
  end.

Definition other_month (g : grid) (printDate : date) : bool := negb (Num.eqb (getMonth printDate) (g_month g)).

Definition unselectable (g : grid) (printDate : date) : bool :=
  other_month g printDate && negb (_get (g_state g) (g_inst g) (@selectOtherMonths))
  || negb (ds_ok (day_setting g printDate))
  || match g_min g with Some lo => date_lt printDate lo | None => false end
  || match g_max g with Some hi => date_lt hi printDate | None => false end.

(** The highlight of the selected day. *)
Definition day_over (g : grid) (printDate : date) : bool :=
  same_time printDate (g_selected g) && Num.eqb (g_month g) (selectedMonth (g_inst g)) && _keyEvent (g_inst g)
  || same_time (g_default g) printDate && same_time (g_default g) (g_selected g).

(** The [td] element of a day: its classes, its title, what makes a click on it select the
    day, and its content. *)
Definition blank (g : grid) (printDate : date) : bool :=
  other_month g printDate && negb (_get (g_state g) (g_inst g) (@showOtherMonths)).

Definition cell_classes (g : grid) (dow : nat) (printDate : date) : jstr :=
  text_if (weekend g dow) (str " ui-datepicker-week-end")
    ++ text_if (other_month g printDate) (str " ui-datepicker-other-month")
    ++ text_if (day_over g printDate) (str " ui-datepicker-days-cell-over")
    ++ text_if (unselectable g printDate) (str " ui-datepicker-unselectable ui-state-disabled")
    ++ text_if (negb (blank g printDate)) (str " " ++ ds_class (day_setting g printDate)
         ++ text_if (same_time printDate (g_current g)) (str " ui-datepicker-current-day")
         ++ text_if (same_time printDate (g_today g)) (str " ui-datepicker-today")).

Definition cell_title (g : grid) (printDate : date) : jstr :=
  match ds_title (day_setting g printDate) with
  | Some ((_ :: _) as title) => text_if (negb (blank g printDate)) (str " title='" ++ escape_quote title ++ str "'")
  | _ => []
  end.

Definition click_handler (printDate : date) : jstr :=
  str " data-handler='selectDay' data-event='click' data-month='"
    ++ num_to_str (getMonth printDate) ++ str "' data-year='" ++ num_to_str (getFullYear printDate) ++ str "'".

Definition cell_content (g : grid) (printDate : date) : jstr :=
  let day := num_to_str (getDate printDate) in
  if blank g printDate then str "&#xa0;"
  else if unselectable g printDate then str "<span class='ui-state-default'>" ++ day ++ str "</span>"
  else str "<a class='ui-state-default"
         ++ text_if (same_time printDate (g_today g)) (str " ui-state-highlight")
         ++ text_if (same_time printDate (g_current g)) (str " ui-state-active")
         ++ text_if (other_month g printDate) (str " ui-priority-secondary")
         ++ str "' href='#'>" ++ day ++ str "</a>".

Definition cell (g : grid) (dow : nat) (printDate : date) : jstr :=
  str "<td class='" ++ cell_classes g dow printDate ++ str "'" ++ cell_title g printDate
    ++ text_if (negb (unselectable g printDate)) (click_handler printDate)
    ++ str ">" ++ cell_content g printDate ++ str "</td>".

(** The next day. *)
Definition next_day (printDate : date) : date :=
  _daylightSavingAdjust (setDate printDate (Num.add (getDate printDate) (Fin 1))).

(** The days from [dow] on in a row: [n] of them. *)
Fixpoint row_cells (n : nat) (g : grid) (dow : nat) (printDate : date) : jstr * date :=
  match n with
  | O => ([], printDate)
  | S n =>
      let '(rest, last) := row_cells n g (S dow) (next_day printDate) in
      (cell g dow printDate ++ rest, last)
  end.

(** A row: a week. *)
Definition grid_row (g : grid) (printDate : date) : jstr * date :=
  let week := text_if (_get (g_state g) (g_inst g) (@showWeek))
                (str "<td class='ui-datepicker-week-col'>"
                   ++ num_to_str (_get (g_state g) (g_inst g) (@calculateWeek) printDate) ++ str "</td>") in
  let '(cells, next) := row_cells 7 g 0 printDate in
  (str "<tr>" ++ week ++ cells ++ str "</tr>", next).

Fixpoint grid_rows (n : nat) (g : grid) (printDate : date) : jstr :=
  match n with
  | O => []
  | S n => let '(row, next) := grid_row g printDate in row ++ grid_rows n g next
  end.

(** The row of the names of the days. *)
Definition day_heads (st : dp) (i : inst) (firstDay : num) : jstr :=
  text_if (_get st i (@showWeek)) (str "<th class='ui-datepicker-week-col'>" ++ _get st i (@weekHeader) ++ str "</th>")
  ++ flat_map (fun dow : nat =>
       let n := Num.add (Fin (Z.of_nat dow)) firstDay in
       let day := Num.rem n (Fin 7) in
       str "<th scope='col'"
         ++ text_if (Num.le (Fin 5) (Num.rem (Num.add n (Fin 6)) (Fin 7))) (str " class='ui-datepicker-week-end'")
         ++ str "><span title='" ++ name_at (_get st i (@o_dayNames)) day ++ str "'>"
         ++ name_at (_get st i (@dayNamesMin)) day ++ str "</span></th>") (seq 0 7).

(** The number of days of the previous month before the first of the month. *)
Definition lead_days (drawYear drawMonth firstDay : num) : num :=
  Num.rem (Num.add (Num.sub (_getFirstDayOfMonth drawYear drawMonth) firstDay) (Fin 7)) (Fin 7).

(** The rows that the days of a month need. *)
Definition cur_rows (drawYear drawMonth firstDay : num) : num :=
  Num.ceil_div (Num.add (lead_days drawYear drawMonth firstDay) (_getDaysInMonth drawYear drawMonth)) (Fin 7).

Definition num_nat (n : num) : nat := match n with Fin z => Z.to_nat z | _ => O end.

(** The table of a month; [maxRows] is the larger number of rows so far. *)
Definition month_table (g : grid) (drawYear drawMonth : num) (numRows : num) : jstr :=
  let st := g_state g in
  str "<table class='ui-datepicker-calendar'><thead><tr>" ++ day_heads st (g_inst g) (g_firstDay g)
    ++ str "</tr></thead><tbody>"
    ++ grid_rows (num_nat numRows) g
         (_daylightSavingAdjust (new_Date drawYear drawMonth (Num.sub (Fin 1) (lead_days drawYear drawMonth (g_firstDay g)))))
    ++ str "</tbody></table>".

(** The corners of a month that are rounded, and their class. *)
Inductive corner := CAll | CLeft | CRight | CNone.

Definition corner_class (c : corner) : jstr :=
  match c with
  | CAll => str " ui-corner-all"
  | CLeft => str " ui-corner-left"
  | CRight => str " ui-corner-right"
  | CNone => []
  end.

(** The class and the corners of the column [col] of several months. *)
Definition group_class (rtl : bool) (cols col : Z) : jstr * corner :=
  if 1 <? cols then
    if col =? 0 then (str " ui-datepicker-group-first", if rtl then CRight else CLeft)
    else if col =? cols - 1 then (str " ui-datepicker-group-last", if rtl then CLeft else CRight)
    else (str " ui-datepicker-group-middle", CNone)
  else ([], CAll).

(** What a call of [_generateHTML] computes once. *)
Record calendar := Calendar {
  cal_prev : jstr;
  cal_next : jstr;
  cal_today : date;
  cal_current : date;
  cal_default : date;
  cal_min : option date;
  cal_max : option date;
  cal_firstDay : num
}.

(** One turn of the loop over the columns: a month, its text and the month after
    it. *)
Definition draw_month (r : nat) (c : calendar) (row col : Z) (drawYear drawMonth : num) : SM dp (jstr * num * num) := fun st =>
  let i := inst_at st r in
  let '(rows, cols) := _getNumberOfMonths st i in
  let isMultiMonth := negb (rows =? 1) || negb (cols =? 1) in
  let rtl := _get st i (@isRTL) in
  let selectedDate := _daylightSavingAdjust (new_Date drawYear drawMonth (day_num (selectedDay i))) in
  let '(groupClass, cornerClass) := if isMultiMonth then group_class rtl cols col else ([], CAll) in
  let left_ := match cornerClass with CAll | CLeft => true | _ => false end in
  let right_ := match cornerClass with CAll | CRight => true | _ => false end in
  (header ← _generateMonthYearHeader r drawMonth drawYear (cal_min c) (cal_max c) ((0 <? row) || (0 <? col))
     (_get st i (@o_monthNames)) (_get st i (@o_monthNamesShort));
   let daysInMonth := _getDaysInMonth drawYear drawMonth in
   sm_when (Num.eqb drawYear (selectedYear i) && Num.eqb drawMonth (selectedMonth i))
     (upd_inst r (set_selectedDay (DayNum (Num.min (day_num (selectedDay i)) daysInMonth)))) ;;
   maxRows ← sm_get maxRows;
   let curRows := cur_rows drawYear drawMonth (cal_firstDay c) in
   let numRows := if isMultiMonth && Num.gt maxRows curRows then maxRows else curRows in
   sm_mod (set_maxRows numRows) ;;
   let g := Grid (cal_today c) (cal_current c) selectedDate (cal_default c) (cal_min c) (cal_max c) drawMonth (cal_firstDay c) st i in
   let html :=
     text_if isMultiMonth (str "<div class='ui-datepicker-group" ++ groupClass ++ str "'>")
       ++ str "<div class='ui-datepicker-header ui-widget-header ui-helper-clearfix" ++ corner_class cornerClass ++ str "'>"
       ++ text_if (left_ && (row =? 0)) (if rtl then cal_next c else cal_prev c)
       ++ text_if (right_ && (row =? 0)) (if rtl then cal_prev c else cal_next c)
       ++ header ++ str "</div>" ++ month_table g drawYear drawMonth numRows
       ++ text_if isMultiMonth (str "</div>" ++ text_if ((0 <? rows) && (col =? cols - 1))
                                               (str "<div class='ui-datepicker-row-break'></div>")) in
   let drawMonth := Num.add drawMonth (Fin 1) in
   mret (if Num.gt drawMonth (Fin 11) then (html, Num.add drawYear (Fin 1), Fin 0) else (html, drawYear, drawMonth))) st.

(** The loops over the columns and the rows, from [col] and [row] on. *)
Fixpoint draw_cols (n : nat) (r : nat) (c : calendar) (row col : Z) (drawYear drawMonth : num) : SM dp (jstr * num * num) :=
  match n with
  | O => mret ([], drawYear, drawMonth)
  | S n =>
      '(month, drawYear, drawMonth) ← draw_month r c row col drawYear drawMonth;
      '(rest, drawYear, drawMonth) ← draw_cols n r c row (col + 1) drawYear drawMonth;
      mret (month ++ rest, drawYear, drawMonth)
  end.

Fixpoint draw_rows (n : nat) (r : nat) (c : calendar) (row cols : Z) (drawYear drawMonth : num) : SM dp jstr :=
  match n with
  | O => mret []
  | S n =>
      sm_mod (set_maxRows (Fin 4)) ;;
      '(group, drawYear, drawMonth) ← draw_cols (Z.to_nat cols) r c row 0 drawYear drawMonth;
      rest ← draw_rows n r c (row + 1) cols drawYear drawMonth;
      mret (group ++ rest)
  end.

(** Generate the HTML for the current state of the date picker. *)
Definition _generateHTML (r : nat) : SM dp jstr :=
  today ← sm_get (fun st => let t := clock st in _daylightSavingAdjust (new_Date (getFullYear t) (getMonth t) (getDate t)));
  i ← ask r (fun _ i => i);
  let currentDate := _daylightSavingAdjust
    (if day_truthy (currentDay i) then new_Date (currentYear i) (currentMonth i) (day_num (currentDay i))
     else new_Date (Fin 9999) (Fin 9) (Fin 9)) in
  lo ← ask_res r (fun st i => _getMinMaxDate st i (@minDate));
  hi ← ask_res r (fun st i => _getMinMaxDate st i (@maxDate));
  '(drawYear, drawMonth) ← ask_res r (fun st i => draw_start st i lo hi);
  upd_inst r (fun i => set_drawYear drawYear (set_drawMonth drawMonth i)) ;;
  prev ← ask_res r (fun st i => prev_link st i drawYear drawMonth);
  next ← ask_res r (fun st i => next_link st i drawYear drawMonth);
  buttonPanel ← ask_res r (fun st i => button_panel st i today currentDate);
  firstDay ← setting r (@firstDay);
  defaultDate ← ask_res r (fun st i => d ← _getDefaultDate st i; a_date d);
  '(rows, cols) ← ask r _getNumberOfMonths;
  let c := Calendar prev next today currentDate defaultDate lo hi (if decide (firstDay = NaN) then Fin 0 else firstDay) in
  html ← draw_rows (Z.to_nat rows) r c 0 cols drawYear drawMonth;
  upd_inst r (set_keyEvent false) ;;
  mret (html ++ buttonPanel).
End html.
