(* ===== verification/DatepickerUi.v ===== *)
(** * The date picker of jquery-ui.js: attaching, drawing, showing, events

    The methods that draw an instance, show and hide it, and answer the events of
    the page. *)

From S2P Require Import Prelude JsNum JsDate DateFormat Datepicker DatepickerHtml.

Section ui.
Context `{TimeZone} `{Page}.

(** ** Drawing *)

(** [inst.dpDiv]: the division of the manager, or the instance's own. *)
Definition div_of (st : dp) (i : inst) : div := if inline i then inlineDiv i else dpDiv st.

Definition upd_div (r : nat) (f : div -> div) : SM dp unit :=
  i ← ask r (fun _ i => i);
  if inline i then upd_inst r (set_inlineDiv (f (inlineDiv i)))
  else sm_mod (fun st => set_dpDiv (f (dpDiv st)) st).

(** #6694 - don't focus the input if it's already focused. *)
Definition _shouldFocusInput (st : dp) (i : inst) : bool :=
  let e := elem_at st (target i) in visible e && negb (e_disabled e) && negb (focused e).

(** Attach the handlers: they keep the step of the moment. *)
Definition _attachHandlers (r : nat) : SM dp unit :=
  stepMonths ← setting r (@stepMonths);
  upd_div r (set_d_step stepMonths).

(** The deferred replacement of the years. *)
Definition defer_years (r : nat) : SM dp unit :=
  i ← ask r (fun _ i => i);
  match yearshtml i with
  | Some ((_ :: _) as y) => sm_mod (fun st => set_timers (timers st ++ [(r, y)]) st)
  | _ => mret tt
  end.

(** Generate the date picker content. *)
Definition _updateDatepicker (r : nat) : SM dp unit :=
  sm_mod (set_maxRows (Fin 4)) ;;
  sm_mod (set_instActive (Some r)) ;;
  upd_div r (set_d_html []) ;;
  html ← _generateHTML r;
  upd_div r (set_d_html html) ;;
  _attachHandlers r ;;
  '(rows, cols) ← ask r _getNumberOfMonths;
  upd_div r (set_d_cols (if 1 <? cols then cols else 1)) ;;
  upd_div r (set_d_multi (negb (rows =? 1) || negb (cols =? 1))) ;;
  isRTL ← setting r (@isRTL);
  upd_div r (set_d_rtl isRTL) ;;
  focus ← ask r (fun st i => bool_decide (_curInst st = Some r) && _datepickerShowing st && _shouldFocusInput st i);
  i ← ask r (fun _ i => i);
  sm_when focus (trigger EFocus (target i)) ;;
  defer_years r.

(** ** Showing and hiding *)

(** Tidy up after a dialog display. *)
Definition _tidyDialog (r : nat) : SM dp unit := upd_div r (set_d_dialog false).

(** Hide the date picker from view; the argument is the input, if one is given. *)
Definition _hideDatepicker (input : option nat) : SM dp unit :=
  cur ← sm_get _curInst;
  match cur with
  | None => mret tt
  | Some r =>
      mine ← sm_get (fun st => match input with Some t => bool_decide (data st !! t = Some r) | None => true end);
      showing ← sm_get _datepickerShowing;
      if negb mine || negb showing then mret tt else
      showAnim ← setting r (@showAnim);
      duration ← setting r (@duration);
      animate false showAnim duration r ;;
      upd_div r (set_d_shown false) ;;
      sm_when (bool_decide (showAnim = [])) (_tidyDialog r) ;;
      sm_mod (set_datepickerShowing false) ;;
      onClose ← setting r (@onClose);
      match onClose with
      | Some f =>
          i ← ask r (fun _ i => i);
          val ← ask r input_val;
          call_handler f (target i) [HText val; HInst r] ;; mret tt
      | None => mret tt
      end ;;
      sm_mod (set_lastInput None) ;;
      sm_mod (set_inDialog false)
  end.

(** Another picker that is shown is hidden first. *)
Definition hide_other (inst : option nat) : SM dp unit :=
  cur ← sm_get _curInst;
  match cur with
  | Some c =>
      if decide (inst = Some c) then mret tt else
      showing ← sm_get _datepickerShowing;
      i ← ask c (fun _ i => i);
      sm_when (bool_decide (is_Some inst) && showing) (_hideDatepicker (Some (target i)))
  | None => mret tt
  end.

(** What [beforeShow] answers. *)
Definition before_show (t r : nat) : SM dp hret :=
  beforeShow ← setting r (@beforeShow);
  match beforeShow with
  | Some f => call_handler f t [HTarget t; HInst r]
  | None => mret (HSettings no_props)
  end.

(** Pop-up the date picker for a given input field. *)
Definition _showDatepicker (t : nat) : SM dp unit :=
  off ← _isDisabledDatepicker t;
  last ← sm_get _lastInput;
  if off || bool_decide (last = Some t) then mret tt else
  inst ← _getInst t;
  hide_other inst ;;
  r ← sm_lift (match inst with Some r => Ok r | None => Throw (str "TypeError") end);
  beforeShowSettings ← before_show t r;
  match beforeShowSettings with
  | HFalse => mret tt
  | _ =>
      extend_settings r (match beforeShowSettings with HSettings p => p | _ => no_props end) ;;
      upd_inst r (set_lastVal None) ;;
      sm_mod (set_lastInput (Some t)) ;;
      _setDateFromField r false ;;
      inDialog ← sm_get _inDialog;
      sm_when inDialog (upd_elem t (set_value [])) ;;
      upd_div r (set_d_html []) ;;
      _updateDatepicker r ;;
      i ← ask r (fun _ i => i);
      if inline i then mret tt else
      showAnim ← setting r (@showAnim);
      duration ← setting r (@duration);
      sm_mod (set_datepickerShowing true) ;;
      animate true showAnim duration r ;;
      upd_div r (set_d_shown true) ;;
      focus ← ask r _shouldFocusInput;
      sm_when focus (trigger EFocus (target i)) ;;
      sm_mod (set_curInst (Some r))
  end.

(** Close date picker if clicked elsewhere: [elsewhere] says that the target of the
    click is neither in the main division nor a trigger. *)
Definition _checkExternalClick (t : nat) (elsewhere : bool) : SM dp unit :=
  cur ← sm_get _curInst;
  match cur with
  | None => mret tt
  | Some c =>
      inst ← _getInst t;
      m ← sm_get (fun st => marked (elem_at st t));
      showing ← sm_get _datepickerShowing;
      sm_when (elsewhere && negb m && showing || m && bool_decide (inst <> Some c)) (_hideDatepicker None)
  end.

(** ** Moving and selecting *)

(** Adjust one of the date sub-fields. *)
Definition _adjustDate (t : nat) (offset : num) (p : option period) : SM dp unit :=
  off ← _isDisabledDatepicker t;
  if off : bool then mret tt else
  r ← the_inst t;
  pos ← (if decide (p = Some PM) then setting r (@showCurrentAtPos) else mret (Fin 0));
  _adjustInstDate r (Num.add offset pos) p ;;
  _updateDatepicker r.

(** Action for current link. *)
Definition _gotoToday (t : nat) : SM dp unit :=
  r ← the_inst t;
  gotoCurrent ← setting r (@gotoCurrent);
  i ← ask r (fun _ i => i);
  (if gotoCurrent && day_truthy (currentDay i)
   then upd_inst r (select (currentDay i) (currentMonth i) (currentYear i))
   else now ← sm_get clock; upd_inst r (select_date now)) ;;
  _notifyChange r ;;
  _adjustDate t NaN None.

(** Action for selecting a new month or year: [v] is the value of the option. *)
Definition _selectMonthYear (t : nat) (v : jstr) (p : period) : SM dp unit :=
  r ← the_inst t;
  let n := parseInt10 v in
  upd_inst r (fun i => if decide (p = PM) then set_selectedMonth n (set_drawMonth n i)
                       else set_selectedYear n (set_drawYear n i)) ;;
  _notifyChange r ;;
  _adjustDate t NaN None.

(** Update the input field with the selected date. *)
Definition _selectDate (t : nat) (dateStr : option jstr) : SM dp unit :=
  r ← the_inst t;
  dateStr ← match dateStr with Some s => mret s | None => _formatDate r FNone end;
  i ← ask r (fun _ i => i);
  upd_elem (target i) (set_value dateStr) ;;
  _updateAlternate r ;;
  onSelect ← setting r (@onSelect);
  match onSelect with
  | Some f => call_handler f (target i) [HText dateStr; HInst r] ;; mret tt
  | None => trigger EChange (target i)
  end ;;
  i ← ask r (fun _ i => i);
  if inline i then _updateDatepicker r
  else
    _hideDatepicker None ;;
    sm_mod (set_lastInput (Some (target i))) ;;
    sm_mod (set_lastInput None).

(** A cell: whether it has the class of those that cannot be selected, and the text
    of its link. *)
Record td := Td { td_unselectable : bool; td_text : jstr }.

(** Action for selecting a day. *)
Definition _selectDay (t : nat) (month year : num) (c : td) : SM dp unit :=
  off ← _isDisabledDatepicker t;
  if td_unselectable c || off then mret tt else
  r ← the_inst t;
  let day := DayText (td_text c) in
  upd_inst r (fun i =>
    set_selectedYear year (set_selectedMonth month (set_selectedDay day (set_current day month year i)))) ;;
  text ← _formatDate r (FDay day month year);
  _selectDate t (Some text).

(** Erase the input field and hide the date picker. *)
Definition _clearDate (t : nat) : SM dp unit := _selectDate t (Some []).

(** The elements with a [data-handler], and what the handlers that
    [_attachHandlers] attaches do. *)
Inductive click :=
  | CPrev | CNext | CHide | CToday
  | CDay (month year : num) (c : td)
  | CMonth (v : jstr)
  | CYear (v : jstr).

Definition on_click (r : nat) (c : click) : SM dp unit :=
  i ← ask r (fun _ i => i);
  step ← ask r (fun st i => d_step (div_of st i));
  let id := target i in
  match c with
  | CPrev => _adjustDate id (Num.opp step) (Some PM)
  | CNext => _adjustDate id step (Some PM)
  | CHide => _hideDatepicker None
  | CToday => _gotoToday id
  | CDay month year c => _selectDay id month year c
  | CMonth v => _selectMonthYear id v PM
  | CYear v => _selectMonthYear id v PY
  end.

(** ** Keys *)

(** A key event; [overCell] is the highlighted cell that is not the current day. *)
Record key_event := KeyEvent {
  keyCode : Z;
  ctrlKey : bool;
  metaKey : bool;
  altKey : bool;
  overCell : option td
}.

(** [return false], a handled event, an event left to the browser. *)
Inductive key_result := KFalse | KHandled | KIgnored.

(** The moves by months, big ones with the control key. *)
Definition key_months (t r : nat) (e : key_event) (back : bool) : SM dp unit :=
  step ← (if ctrlKey e then setting r (@stepBigMonths) else setting r (@stepMonths));
  _adjustDate t (if back then Num.opp step else step) (Some PM).

(** The keys while the picker is shown. *)
Definition key_shown (t r : nat) (e : key_event) (isRTL : bool) : SM dp key_result :=
  let command := ctrlKey e || metaKey e in
  let handled (b : bool) : SM dp key_result := mret (if b then KHandled else KIgnored) in
  match keyCode e with
  | 9 => _hideDatepicker None ;; handled false
  | 13 =>
      i ← ask r (fun _ i => i);
      match overCell e with
      | Some c => _selectDay t (selectedMonth i) (selectedYear i) c
      | None => mret tt
      end ;;
      onSelect ← setting r (@onSelect);
      match onSelect with
      | Some f =>
          dateStr ← _formatDate r FNone;
          call_handler f (target i) [HText dateStr; HInst r] ;; mret tt
      | None => _hideDatepicker None
      end ;;
      mret KFalse
  | 27 => _hideDatepicker None ;; handled true
  | 33 => key_months t r e true ;; handled true
  | 34 => key_months t r e false ;; handled true
  | 35 => sm_when command (_clearDate t) ;; handled command
  | 36 => sm_when command (_gotoToday t) ;; handled command
  | 37 =>
      sm_when command (_adjustDate t (Fin (if isRTL then 1 else -1)) (Some PD)) ;;
      sm_when (altKey e) (key_months t r e true) ;;
      handled command
  | 38 => sm_when command (_adjustDate t (Fin (-7)) (Some PD)) ;; handled command
  | 39 =>
      sm_when command (_adjustDate t (Fin (if isRTL then -1 else 1)) (Some PD)) ;;
      sm_when (altKey e) (key_months t r e false) ;;
      handled command
  | 40 => sm_when command (_adjustDate t (Fin 7) (Some PD)) ;; handled command
  | _ => handled false
  end.

(** Handle keystrokes. *)
Definition _doKeyDown (t : nat) (e : key_event) : SM dp key_result :=
  r ← the_inst t;
  isRTL ← ask r (fun st i => d_rtl (div_of st i));
  upd_inst r (set_keyEvent true) ;;
  showing ← sm_get _datepickerShowing;
  if showing : bool then key_shown t r e isRTL
  else if (keyCode e =? 36) && ctrlKey e then _showDatepicker t ;; mret KHandled
  else mret KIgnored.

(** Filter entered characters - based on date format; [None] is no answer. *)
Definition _doKeyPress (t : nat) (chr_ : N) (ctrl meta : bool) : SM dp (option bool) :=
  r ← the_inst t;
  constrainInput ← setting r (@constrainInput);
  if negb constrainInput then mret None else
  dateFormat ← setting r (@dateFormat);
  let allowed := match _possibleChars dateFormat with
                 | None | Some [] => true
                 | Some chars => bool_decide (chr_ ∈ chars)
                 end in
  mret (Some (ctrl || meta || ((chr_ <? 32)%N || allowed))).

(** [try { m } catch ( err ) { }]. *)
Definition ignoring_errors (m : SM dp unit) : SM dp unit := fun st =>
  match m st with (Throw _, st') => (Ok tt, st') | r => r end.

(** Synchronise manual entry and field/alternate field. *)
Definition _doKeyUp (t : nat) : SM dp bool :=
  r ← the_inst t;
  i ← ask r (fun _ i => i);
  val ← ask r input_val;
  sm_when (bool_decide (lastVal i <> Some val)) (ignoring_errors (
    date ← ask_res r (fun st i => dp_parseDate st (_get st i (@dateFormat)) val (_getFormatConfig st i));
    match date with
    | Some _ => _setDateFromField r false ;; _updateAlternate r ;; _updateDatepicker r
    | None => mret tt
    end)) ;;
  mret true.
End ui.
