(* ===== verification/DatepickerApi.v ===== *)
(** * The date picker of jquery-ui.js: attaching, options and the plugin

    Creating and removing instances, the methods behind the commands of
    [$.fn.datepicker], and the plugin itself. *)

From S2P Require Import Prelude JsNum JsDate DateFormat Datepicker DatepickerHtml DatepickerUi.

(** [dateFormat.match(/XX/)]. *)
Fixpoint has_pair (c : N) (s : jstr) : bool :=
  match s with
  | x :: s' => (x =? c)%N && match s' with y :: _ => (y =? c)%N | [] => false end || has_pair c s'
  | [] => false
  end.

(** The inner function [findMax]: the index of the first longest name. *)
Fixpoint findMax_go (i max maxI : nat) (names : list jstr) : nat :=
  match names with
  | [] => maxI
  | n :: names' => if (max <? length n)%nat then findMax_go (S i) (length n) i names' else findMax_go (S i) max maxI names'
  end.
Definition findMax (names : list jstr) : num := Fin (Z.of_nat (findMax_go 0 0 0 names)).

Section api.
Context `{TimeZone} `{Page}.

(** ** Creating instances *)

(** The date whose text is the longest. *)
Definition longest_date (st : dp) (i : inst) : date :=
  let dateFormat := _get st i (@dateFormat) in
  let d := new_Date (Fin 2009) (Fin 11) (Fin 20) in
  if existsb (fun c => (c =? chr "D") || (c =? chr "M"))%N dateFormat then
    let d := setMonth d (findMax (if has_pair (chr "M") dateFormat then _get st i (@o_monthNames) else _get st i (@o_monthNamesShort))) in
    setDate d (Num.sub (Num.add (findMax (if has_pair (chr "D") dateFormat then _get st i (@o_dayNames) else _get st i (@o_dayNamesShort)))
                          (Fin 20)) (getDay d))
  else d.

(** Apply the maximum length for the date format. *)
Definition _autoSize (r : nat) : SM dp unit :=
  autoSize ← setting r (@autoSize);
  i ← ask r (fun _ i => i);
  if autoSize && negb (inline i) then
    d ← ask r longest_date;
    text ← _formatDate r (FDate d);
    upd_elem (target i) (set_e_size (Some (length text)))
  else mret tt.

(** Create a new instance object, with its settings. *)
Definition _newInst (t : nat) (inline : bool) (props : opts upd) : SM dp nat :=
  r ← sm_get next;
  sm_mod (set_next (S r)) ;;
  upd_inst r (fun _ => Inst (opts_zip (fun A => extend_one) no_settings props) (DayNum (Fin 0)) (Fin 0) (Fin 0) (Fin 0) (Fin 0)
                         (DayNum NaN) NaN NaN inline t None false None empty_div None None) ;;
  mret r.

Definition is_disabled_setting (r : nat) : SM dp bool :=
  ask r (fun _ i => default false (disabled (settings i))).

(** The element of the trigger, as the settings say. *)
Definition make_trigger (st : dp) (i : inst) : trigger_elem :=
  let buttonText := _get st i (@buttonText) in
  let buttonImage := _get st i (@buttonImage) in
  if _get st i (@buttonImageOnly) then TImg buttonImage buttonText
  else if decide (buttonImage = []) then TText buttonText else TButton buttonImage buttonText.

(** Make attachments based on settings. *)
Definition _attachments (t r : nat) : SM dp unit :=
  appendText ← setting r (@appendText);
  isRTL ← setting r (@isRTL);
  upd_inst r (set_append (if decide (appendText = []) then None else Some (isRTL, appendText))) ;;
  upd_elem t (set_opens false) ;;
  upd_inst r (set_i_trigger None) ;;
  showOn ← setting r (@showOn);
  sm_when (bool_decide (showOn = str "focus") || bool_decide (showOn = str "both")) (upd_elem t (set_opens true)) ;;
  sm_when (bool_decide (showOn = str "button") || bool_decide (showOn = str "both"))
    (trigger ← ask r make_trigger; upd_inst r (set_i_trigger (Some (isRTL, trigger)))).

(** A click on the trigger of an element, and its focus event. *)
Definition trigger_click (t : nat) : SM dp unit :=
  showing ← sm_get _datepickerShowing;
  last ← sm_get _lastInput;
  if showing && bool_decide (last = Some t) then _hideDatepicker None
  else if (showing : bool) then _hideDatepicker None ;; _showDatepicker t
  else _showDatepicker t.

Definition on_focus (t : nat) : SM dp unit :=
  opens ← sm_get (fun st => opens (elem_at st t));
  sm_when opens (_showDatepicker t).

(** Attach the date picker to an input field. *)
Definition _connectDatepicker (t r : nat) : SM dp unit :=
  m ← sm_get (fun st => marked (elem_at st t));
  if m : bool then mret tt else
  _attachments t r ;;
  upd_elem t (set_marked true) ;;
  _autoSize r ;;
  sm_mod (fun st => set_data (<[t := r]> (data st)) st) ;;
  off ← is_disabled_setting r;
  sm_when off (_disableDatepicker t).

(** Attach an inline date picker to a div. *)
Definition _inlineDatepicker (t r : nat) : SM dp unit :=
  m ← sm_get (fun st => marked (elem_at st t));
  if m : bool then mret tt else
  upd_elem t (set_marked true) ;;
  sm_mod (fun st => set_data (<[t := r]> (data st)) st) ;;
  d ← ask_res r _getDefaultDate;
  _setDate r (match d with Some d => ADate d | None => ANull end) true ;;
  _updateDatepicker r ;;
  _updateAlternate r ;;
  off ← is_disabled_setting r;
  sm_when off (_disableDatepicker t) ;;
  upd_div r (set_d_shown true).

(** Attach the date picker to an element. *)
Definition _attachDatepicker (t : nat) (props : opts upd) : SM dp unit :=
  k ← sm_get (fun st => nodeName (elem_at st t));
  let inline := match k with KDiv | KSpan => true | _ => false end in
  r ← _newInst t inline props;
  match k with
  | KInput => _connectDatepicker t r
  | KDiv | KSpan => _inlineDatepicker t r
  | KOther => mret tt
  end.

(** Detach a datepicker from its control. *)
Definition _destroyDatepicker (t : nat) : SM dp unit :=
  inst ← _getInst t;
  m ← sm_get (fun st => marked (elem_at st t));
  if negb m then mret tt else
  sm_mod (fun st => set_data (delete t (data st)) st) ;;
  k ← sm_get (fun st => nodeName (elem_at st t));
  match k with
  | KInput =>
      match inst with
      | Some r => upd_inst r (fun i => set_append None (set_i_trigger None i))
      | None => sm_throw (str "TypeError")
      end ;;
      upd_elem t (fun e => set_marked false (set_opens false e))
  | KDiv | KSpan => upd_elem t (set_marked false)
  | KOther => mret tt
  end ;;
  sm_mod (fun st => if decide (instActive st = inst) then set_instActive None st else st).

(** ** The commands *)

(** Redraw the date picker attached to an element. *)
Definition _refreshDatepicker (t : nat) : SM dp unit :=
  r ← _getInst t;
  match r with Some r => _updateDatepicker r | None => mret tt end.

(** Set the date of an element. *)
Definition _setDateDatepicker (t : nat) (arg : dateArg) : SM dp unit :=
  r ← _getInst t;
  match r with
  | Some r => _setDate r arg false ;; _updateDatepicker r ;; _updateAlternate r
  | None => mret tt
  end.

(** [_optionDatepicker(target, name)] with the name of a setting. *)
Definition option_get {A} (t : nat) (field : forall F, opts F -> F A) : SM dp (option A) :=
  r ← _getInst t;
  match r with
  | Some r => a ← setting r field; mret (Some a)
  | None => mret None
  end.

Definition given {A} (u : upd A) : bool := match u with Given _ => true | _ => false end.

(** A bound is formatted again when only the format changes. *)
Definition reformat_bound (r : nat) (props : opts upd) (old : option date) (provided : bool)
    (set : option dateArg -> opts option -> opts option) : SM dp unit :=
  match old with
  | Some d =>
      if given (dateFormat props) && negb provided then
        text ← _formatDate r (FDate d);
        upd_inst r (fun i => set_settings (set (Some (AText text)) (settings i)) i)
      else mret tt
  | None => mret tt
  end.

(** Update the settings of the date picker attached to an element. *)
Definition _optionDatepicker (t : nat) (props : opts upd) : SM dp unit :=
  inst ← _getInst t;
  match inst with
  | None => mret tt
  | Some r =>
      cur ← sm_get _curInst;
      sm_when (bool_decide (cur = Some r)) (_hideDatepicker None) ;;
      date ← _getDateDatepicker t true;
      lo ← ask_res r (fun st i => _getMinMaxDate st i (@minDate));
      hi ← ask_res r (fun st i => _getMinMaxDate st i (@maxDate));
      extend_settings r props ;;
      reformat_bound r props lo (given (minDate props)) set_minDate ;;
      reformat_bound r props hi (given (maxDate props)) set_maxDate ;;
      match disabled props with
      | Absent => mret tt
      | Given true => _disableDatepicker t
      | _ => _enableDatepicker t
      end ;;
      _attachments t r ;;
      _autoSize r ;;
      _setDate r (match date with Some d => ADate d | None => ANull end) false ;;
      _updateAlternate r ;;
      _updateDatepicker r
  end.

(** ** The plugin *)

(** The calls [$( ... ).datepicker( ... )]: a command and its arguments, or the
    settings of new instances. *)
Inductive command :=
  | CmdIsDisabled
  | CmdGetDate (noDefault : bool)
  | CmdWidget
  | CmdOption (props : opts upd)
  | CmdSetDate (arg : dateArg)
  | CmdRefresh
  | CmdEnable
  | CmdDisable
  | CmdHide
  | CmdShow
  | CmdDestroy
  | CmdAttach (props : opts upd)
  | CmdUnknown.

(** What a call returns: the set it was called on, or the answer of a command. *)
Inductive answer :=
  | RSelf
  | RBool (b : bool)
  | RDate (d : option date)
  | RDiv (d : div).

(** A command on one element. *)
Definition run_command (c : command) (t : nat) : SM dp unit :=
  match c with
  | CmdOption props => _optionDatepicker t props
  | CmdSetDate arg => _setDateDatepicker t arg
  | CmdRefresh => _refreshDatepicker t
  | CmdEnable => _enableDatepicker t
  | CmdDisable => _disableDatepicker t
  | CmdHide => _hideDatepicker (Some t)
  | CmdShow => _showDatepicker t
  | CmdDestroy => _destroyDatepicker t
  | CmdAttach props => _attachDatepicker t props
  | CmdIsDisabled | CmdGetDate _ | CmdWidget => mret tt
  | CmdUnknown => sm_throw (str "TypeError")
  end.

(** Invoke the datepicker functionality on a set of elements. *)
Definition fn_datepicker (set : list nat) (c : command) : SM dp answer :=
  match set with
  | [] => mret RSelf
  | t :: _ =>
      match c with
      | CmdIsDisabled => b ← _isDisabledDatepicker t; mret (RBool b)
      | CmdGetDate noDefault => d ← _getDateDatepicker t noDefault; mret (RDate d)
      | CmdWidget => d ← sm_get dpDiv; mret (RDiv d)
      | _ => sm_each (run_command c) set ;; mret RSelf
      end
  end.
End api.
