(* ===== verification/DatepickerFacts.v ===== *)
(** * The dates of the picker are days

    In a time zone whose clocks move by whole hours, and in which the host moves a
    local time that is skipped forward, as the language prescribes, every date that
    the picker computes is the start of a day.  The lemmas here turn its methods
    into arithmetic on days. *)

From S2P Require Import Prelude JsNum JsDate DateFormat DateFacts Datepicker DatepickerHtml.

(** Whole hours, forward. *)
Class HourZone `{TimeZone} : Prop := {
  hour_laws :: TimeZoneLaws;
  tz_hour : forall l, LocalTime (tz_utc l) = l \/ LocalTime (tz_utc l) = l + msPerHour
}.

(** A zone whose clocks go forward by an hour at the local midnight that starts the
    day [n]; the local times that are skipped are moved forward. *)
Definition spring_zone (n : Z) : TimeZone := {|
  tz_offset t := if t <? n * msPerDay then 0 else msPerHour;
  tz_utc l := if l <? n * msPerDay + msPerHour then l else l - msPerHour
|}.

Lemma spring_zone_ok n : @HourZone (spring_zone n).
Proof.
  split; [constructor|]; unfold LocalTime; cbn; unfold msPerHour, msPerDay; intros; repeat case_match; bool_hyps; lia.
Qed.

(** The start of a day. *)
Definition midnight `{TimeZone} (D : Z) : date := Some (tz_utc (D * msPerDay)).

Section days.
Context `{HourZone}.

(** ** Times of a day *)

(** The local time of [t] is [k] hours and [x] milliseconds after the start of the
    day [D]. *)
Definition at_time (D k x t : Z) : Prop :=
  0 <= k < 24 /\ 0 <= x < msPerHour /\ LocalTime t = D * msPerDay + k * msPerHour + x.

Lemma time_fields D k x t : at_time D k x t ->
  Day (LocalTime t) = D /\ HourFromTime (LocalTime t) = k /\ MinFromTime (LocalTime t) = x / 60000
  /\ SecFromTime (LocalTime t) = (x / 1000) mod 60 /\ msFromTime (LocalTime t) = x mod 1000.
Proof.
  intros (Hk & Hx & ->). unfold Day, HourFromTime, MinFromTime, SecFromTime, msFromTime, msPerDay, msPerHour in *.
  split_and!; dlia.
Qed.

(** A setter whose new local time is that of [k] hours and [x] milliseconds. *)
Lemma set_at D k x : day_in_range D -> 0 <= k < 20 -> 0 <= x < msPerHour ->
  exists t k', TimeClip (tz_utc (D * msPerDay + k * msPerHour + x)) = Some t /\ at_time D k' x t /\ k <= k' <= k + 1.
Proof.
  intros HD Hk Hx. unfold day_in_range in HD. set (l := D * msPerDay + k * msPerHour + x).
  assert (TimeClip (tz_utc l) = Some (tz_utc l)) as -> by (apply clip_utc; unfold l, msPerDay, msPerHour in *; lia).
  exists (tz_utc l). unfold at_time. destruct (tz_hour l) as [E|E]; rewrite E; unfold l.
  - exists k. split; [done|]. lia.
  - exists (k + 1). split; [done|]. lia.
Qed.

Lemma midnight_at D : exists t k, midnight D = Some t /\ at_time D k 0 t /\ 0 <= k <= 1.
Proof.
  exists (tz_utc (D * msPerDay)). unfold at_time. destruct (tz_hour (D * msPerDay)) as [E|E]; rewrite E.
  - exists 0. split; [done|]. unfold msPerHour. lia.
  - exists 1. split; [done|]. unfold msPerHour. lia.
Qed.

Lemma at_local_day D k x t : at_time D k x t -> local_day t = D.
Proof. intros Ht. by apply time_fields in Ht as [? _]. Qed.

(** ** The adjustment *)

Lemma adjust_at D k t : day_in_range D -> at_time D k 0 t -> k <= 12 -> _daylightSavingAdjust (Some t) = midnight D.
Proof.
  intros HD Ht Hk. apply time_fields in Ht as (Hday & Hh & Hm & Hs & Hms).
  unfold _daylightSavingAdjust. cbn [getHours local_field]. rewrite Hh.
  replace (Num.gt (Fin k) (Fin 12)) with false by (symmetry; apply Z.ltb_ge; lia).
  unfold setHours, setter, set_local. rewrite Hday, Hm, Hs, Hms. unfold MakeDate, MakeTime, midnight.
  change (0 / 60000) with 0. change ((0 / 1000) mod 60) with 0. change (0 mod 1000) with 0.
  rewrite !Z.mul_0_l, !Z.add_0_r. apply clip_utc. unfold day_in_range, msPerDay, msPerHour in *. lia.
Qed.

Lemma adjust_midnight_id D : day_in_range D -> _daylightSavingAdjust (midnight D) = midnight D.
Proof.
  intros HD. destruct (midnight_at D) as (t & k & E & Ht & Hk). rewrite E at 1. by apply (adjust_at _ k); [| |lia].
Qed.

Lemma adjust_new_Date y m dt : 100 <= y -> day_in_range (MakeDay y m dt) ->
  _daylightSavingAdjust (new_Date (Fin y) (Fin m) (Fin dt)) = midnight (MakeDay y m dt).
Proof.
  intros Hy Hd. rewrite new_Date_Some by (by rewrite MakeFullYear_id). rewrite MakeFullYear_id by done.
  by apply adjust_midnight_id.
Qed.

(** A setter keeps the day and moves within it. *)
Lemma set_step f D k x t k0 y : day_in_range D -> at_time D k x t -> 0 <= k0 < 20 -> 0 <= y < msPerHour ->
  f (LocalTime t) = D * msPerDay + k0 * msPerHour + y ->
  exists t' k', set_local f (Some t) = Some t' /\ at_time D k' y t' /\ k0 <= k' <= k0 + 1.
Proof. intros HD Ht Hk Hy E. unfold set_local. rewrite E. by apply set_at. Qed.

(** The four setters of [_determineDate] and the adjustment. *)
Lemma clear_time t : day_in_range (local_day t) ->
  _daylightSavingAdjust (setMilliseconds (setSeconds (setMinutes (setHours (Some t) (Fin 0)) (Fin 0)) (Fin 0)) (Fin 0))
  = midnight (local_day t).
Proof.
  set (D := local_day t). intros HD.
  assert (exists k x, at_time D k x t) as (k & x & Ht).
  { exists (HourFromTime (LocalTime t)), (LocalTime t mod msPerHour). unfold at_time, D, local_day, Day, HourFromTime, msPerDay, msPerHour.
    clear. split_and!; dlia. }
  pose proof (time_fields _ _ _ _ Ht) as (Hd & Hh & Hm & Hs & Hms). pose proof Ht as (_ & Hx & _).
  destruct (set_step (fun l => MakeDate (Day l) (MakeTime 0 (MinFromTime l) (SecFromTime l) (msFromTime l))) D k x t 0 x)
    as (t1 & k1 & E1 & Ht1 & Hk1); [done|done|lia|done| |].
  { rewrite Hd, Hm, Hs, Hms. unfold MakeDate, MakeTime, msPerHour in *. clear - Hx. dlia. }
  unfold setHours, setter. rewrite E1. clear E1 Ht Hd Hh Hm Hs Hms.
  pose proof (time_fields _ _ _ _ Ht1) as (Hd & Hh & Hm & Hs & Hms).
  destruct (set_step (fun l => MakeDate (Day l) (MakeTime (HourFromTime l) 0 (SecFromTime l) (msFromTime l))) D k1 x t1 k1 (x mod 60000))
    as (t2 & k2 & E2 & Ht2 & Hk2); [done|done|lia|unfold msPerHour; clear; dlia| |].
  { rewrite Hd, Hh, Hs, Hms. unfold MakeDate, MakeTime, msPerHour in *. clear - Hx. dlia. }
  unfold setMinutes, setter. rewrite E2. clear E2 Hd Hh Hm Hs Hms.
  pose proof (time_fields _ _ _ _ Ht2) as (Hd & Hh & Hm & Hs & Hms).
  destruct (set_step (fun l => MakeDate (Day l) (MakeTime (HourFromTime l) (MinFromTime l) 0 (msFromTime l))) D k2 (x mod 60000) t2 k2 (x mod 1000))
    as (t3 & k3 & E3 & Ht3 & Hk3); [done|done|lia|unfold msPerHour; clear; dlia| |].
  { rewrite Hd, Hh, Hm, Hms. unfold MakeDate, MakeTime, msPerHour in *. clear - Hx. dlia. }
  unfold setSeconds, setter. rewrite E3. clear E3 Hd Hh Hm Hs Hms.
  pose proof (time_fields _ _ _ _ Ht3) as (Hd & Hh & Hm & Hs & Hms).
  destruct (set_step (fun l => MakeDate (Day l) (MakeTime (HourFromTime l) (MinFromTime l) (SecFromTime l) 0)) D k3 (x mod 1000) t3 k3 0)
    as (t4 & k4 & E4 & Ht4 & Hk4); [done|done|lia|unfold msPerHour; lia| |].
  { rewrite Hd, Hh, Hm, Hs. unfold MakeDate, MakeTime, msPerHour in *. clear - Hx. dlia. }
  unfold setMilliseconds, setter. rewrite E4. by apply (adjust_at _ k4); [| |lia].
Qed.

(** ** Fields, order and successors *)

Lemma midnight_fields D : getFullYear (midnight D) = Fin (YearFromDay D)
  /\ getMonth (midnight D) = Fin (MonthFromDay D) /\ getDate (midnight D) = Fin (DateFromDay D)
  /\ getDay (midnight D) = Fin (WeekDay D).
Proof.
  destruct (midnight_at D) as (t & k & -> & Ht & _). apply at_local_day in Ht. unfold getDay.
  cbn [getFullYear getMonth getDate local_field]. fold (local_day t). by rewrite Ht.
Qed.

Lemma midnight_lt D D' : D < D' -> tz_utc (D * msPerDay) < tz_utc (D' * msPerDay).
Proof.
  intros HD. pose proof (tz_spread (tz_utc (D' * msPerDay)) (tz_utc (D * msPerDay))).
  destruct (tz_hour (D * msPerDay)) as [E|E], (tz_hour (D' * msPerDay)) as [E'|E'];
    unfold LocalTime, msPerDay, msPerHour in *; lia.
Qed.

Lemma date_lt_midnight D D' : date_lt (midnight D) (midnight D') = (D <? D').
Proof.
  cbn. destruct (Z.lt_trichotomy D D') as [Hlt|[->|Hgt]].
  - rewrite (proj2 (Z.ltb_lt D D')) by done. by apply Z.ltb_lt, midnight_lt.
  - by rewrite !Z.ltb_irrefl.
  - rewrite (proj2 (Z.ltb_ge D D')) by lia. apply midnight_lt in Hgt. apply Z.ltb_ge. lia.
Qed.

Lemma same_time_midnight D D' : same_time (midnight D) (midnight D') = (D =? D').
Proof.
  cbn. destruct (Z.lt_trichotomy D D') as [Hlt|[->|Hgt]].
  - rewrite (proj2 (Z.eqb_neq D D')) by lia. apply midnight_lt in Hlt. apply Z.eqb_neq. lia.
  - by rewrite !Z.eqb_refl.
  - rewrite (proj2 (Z.eqb_neq D D')) by lia. apply midnight_lt in Hgt. apply Z.eqb_neq. lia.
Qed.

Lemma setDate_midnight D n : day_in_range (D - DateFromDay D + n) -> exists t k,
  setDate (midnight D) (Fin n) = Some t /\ at_time (D - DateFromDay D + n) k 0 t /\ 0 <= k <= 2.
Proof.
  intros HD. destruct (midnight_at D) as (t & k & -> & Ht & Hk). destruct (date_of_fields D) as [_ E].
  pose proof (time_fields _ _ _ _ Ht) as (Hd & _).
  assert (MakeDay (YearFromDay D) (MonthFromDay D) n = D - DateFromDay D + n) as Hn.
  { rewrite <-E at 3. replace n with (DateFromDay D + (n - DateFromDay D)) at 1 by lia. rewrite MakeDay_add. lia. }
  unfold setDate, setter, set_local. rewrite Hd, Hn. unfold MakeDate.
  assert (TimeWithinDay (LocalTime t) = k * msPerHour + 0) as ->.
  { destruct Ht as (? & ? & ->). unfold TimeWithinDay, msPerDay, msPerHour. dlia. }
  rewrite Z.add_assoc. destruct (set_at (D - DateFromDay D + n) k 0) as (t' & k' & -> & Ht' & Hk');
    [done|lia|unfold msPerHour; lia|]. exists t', k'. split_and!; [done|done|lia|lia].
Qed.

Lemma next_day_midnight D : day_in_range (D + 1) -> next_day (midnight D) = midnight (D + 1).
Proof.
  intros HD. unfold next_day. destruct (midnight_fields D) as (_ & _ & -> & _). cbn [Num.add].
  destruct (setDate_midnight D (DateFromDay D + 1)) as (t & k & -> & Ht & Hk).
  - by replace (D - DateFromDay D + (DateFromDay D + 1)) with (D + 1) by lia.
  - replace (D - DateFromDay D + (DateFromDay D + 1)) with (D + 1) in Ht by lia. by apply (adjust_at _ k); [| |lia].
Qed.

Lemma first_day y m : 100 <= y -> day_in_range (MakeDay y m 1) ->
  _getFirstDayOfMonth (Fin y) (Fin m) = Fin (WeekDay (MakeDay y m 1)).
Proof.
  intros Hy Hd. unfold _getFirstDayOfMonth. rewrite new_Date_Some by (by rewrite MakeFullYear_id).
  rewrite MakeFullYear_id by done. apply (midnight_fields (MakeDay y m 1)).
Qed.
End days.

(** ** Steps of the methods *)

Lemma ask_bind {A B} r (f : dp -> inst -> A) (k : A -> SM dp B) s : (ask r f ≫= k) s = k (f s (inst_at s r)) s.
Proof. done. Qed.

Lemma ask_res_bind {A B} r (f : dp -> inst -> res A) (k : A -> SM dp B) s a :
  f s (inst_at s r) = Ok a -> (ask_res r f ≫= k) s = k a s.
Proof. intros E. unfold mbind, sm_bind, ask_res. by rewrite E. Qed.

Lemma upd_inst_bind {B} r f (k : unit -> SM dp B) s :
  (upd_inst r f ≫= k) s = k tt (set_instances (<[r := f (inst_at s r)]> (instances s)) s).
Proof. done. Qed.

(** ** What settings denote *)

(** The day, if any, that an argument denotes at the time [now]; relative texts are
    left out. *)
Definition denotes `{TimeZone} (now : date) (arg : dateArg) (o : option Z) : Prop :=
  match arg with
  | ANull | AText [] => o = None
  | ADate (Some t) => o = Some (local_day t) /\ day_in_range (local_day t)
  | ANum (Fin n) =>
      exists c, now = Some c /\ TimeWithinDay (LocalTime c) < 23 * msPerHour /\ o = Some (local_day c + n)
        /\ day_in_range (local_day c) /\ day_in_range (local_day c + n)
  | _ => False
  end.

(** The nearest day between the bounds; the upper bound is applied last. *)
Definition clamp (lo hi : option Z) (D : Z) : Z :=
  let D := match lo with Some l => Z.max l D | None => D end in
  match hi with Some h => Z.min h D | None => D end.

Lemma clamp_bounds lo hi D : (forall l h, lo = Some l -> hi = Some h -> l <= h) ->
  (forall l, lo = Some l -> l <= clamp lo hi D) /\ (forall h, hi = Some h -> clamp lo hi D <= h).
Proof.
  intros Hlh. unfold clamp. destruct lo as [l|], hi as [h|]; split; intros ? [=]; subst; try lia.
  specialize (Hlh _ _ eq_refl eq_refl). lia.
Qed.

(** The day [D] between the bounds is itself. *)
Lemma clamp_id lo hi D : (forall l, lo = Some l -> l <= D) -> (forall h, hi = Some h -> D <= h) -> clamp lo hi D = D.
Proof.
  intros Hl Hh. unfold clamp. destruct lo as [l|]; [specialize (Hl l eq_refl); rewrite Z.max_r by done|];
    (destruct hi as [h|]; [specialize (Hh h eq_refl); by rewrite Z.min_r|done]).
Qed.

Lemma clamp_idem lo hi D : (forall l h, lo = Some l -> hi = Some h -> l <= h) -> clamp lo hi (clamp lo hi D) = clamp lo hi D.
Proof. intros Hlh. destruct (clamp_bounds lo hi D Hlh). by apply clamp_id. Qed.

Section dates.
Context `{HourZone} `{Page}.

Lemma clip_day t : day_in_range (local_day t) -> TimeClip t = Some t.
Proof.
  intros Ht. unfold TimeClip. rewrite (proj2 (Z.leb_le _ _)); [done|]. pose proof (tz_bound t).
  unfold day_in_range, local_day, Day, LocalTime, msPerDay in *. revert Ht. dlia.
Qed.

Lemma offsetNumeric_day st c n : clock st = Some c -> TimeWithinDay (LocalTime c) < 23 * msPerHour ->
  day_in_range (local_day c + n) -> exists t, offsetNumeric st (Fin n) = Some t /\ local_day t = local_day c + n.
Proof.
  intros Hc Htod HD. unfold offsetNumeric. rewrite Hc. set (x := LocalTime c) in *. set (D := local_day c) in *.
  cbn [getDate local_field Num.add]. fold x. change (Day x) with D.
  unfold setDate, setter, set_local. fold x. change (Day x) with D.
  destruct (date_of_fields D) as [_ E]. rewrite MakeDay_add, E. unfold MakeDate.
  pose proof (Z.mod_pos_bound x msPerDay ltac:(done)) as Hx. fold (TimeWithinDay x) in Hx.
  set (y := TimeWithinDay x) in *.
  assert (exists k z, y = k * msPerHour + z /\ 0 <= k < 23 /\ 0 <= z < msPerHour) as (k & z & -> & Hk & Hz).
  { exists (y / msPerHour), (y mod msPerHour). unfold msPerHour in *. clear - Hx Htod. dlia. }
  set (l := (D + n) * msPerDay + (k * msPerHour + z)).
  assert (TimeClip (tz_utc l) = Some (tz_utc l)) as ->
    by (apply clip_utc; unfold l, day_in_range, msPerDay, msPerHour in *; lia).
  exists (tz_utc l). split; [done|]. apply Day_near. unfold l.
  destruct (tz_hour ((D + n) * msPerDay + (k * msPerHour + z))) as [-> | ->]; unfold msPerDay, msPerHour in *; lia.
Qed.

(** [_determineDate] on an argument that denotes a day, or nothing. *)
Lemma determine_denotes st i arg o d0 : denotes (clock st) arg o ->
  (forall t, d0 = Some t -> day_in_range (local_day t)) ->
  _determineDate st i arg (Some <$> d0) = Ok (match o with Some D => Some (midnight D) | None => (fun t => midnight (local_day t)) <$> d0 end).
Proof.
  intros Harg Hd0. unfold _determineDate.
  assert (forall t, day_in_range (local_day t) -> start_of_day (Some (Some t)) = Some (midnight (local_day t))) as Hclear
    by (intros t Ht; unfold start_of_day; by rewrite clear_time).
  destruct arg as [|[t|]|[|]|[n| | |]]; cbn [denotes] in Harg; try done.
  - subst o. cbn [mbind res_bind]. f_equal. destruct d0 as [t|]; [|done]. by apply Hclear, Hd0.
  - destruct Harg as [-> Ht]. cbn [getTime date_of_time mbind res_bind]. rewrite clip_day by done. f_equal. by apply Hclear.
  - subst o. cbn [mbind res_bind]. f_equal. destruct d0 as [t|]; [|done]. by apply Hclear, Hd0.
  - destruct Harg as (c & Hc & Htod & -> & _ & Hn). rewrite decide_False by done. cbn [mbind res_bind].
    destruct (offsetNumeric_day st c n Hc Htod Hn) as (t & -> & Et). rewrite <-Et in Hn |- *. f_equal. by apply Hclear.
Qed.

(** ** Bounds *)

Definition bounds_are (st : dp) (i : inst) (lo hi : option Z) : Prop :=
  denotes (clock st) (_get st i (@minDate)) lo /\ denotes (clock st) (_get st i (@maxDate)) hi.

Lemma min_max_ok st i field o : denotes (clock st) (_get st i field) o ->
  _getMinMaxDate st i field = Ok (midnight <$> o).
Proof.
  intros Ho. unfold _getMinMaxDate. pose proof (determine_denotes st i _ o None Ho ltac:(done)) as E.
  cbn [fmap option_fmap option_map] in E. rewrite E. by destruct o.
Qed.

Lemma restrict_ok st i lo hi D : bounds_are st i lo hi ->
  _restrictMinMax st i (Some (midnight D)) = Ok (Some (midnight (clamp lo hi D))).
Proof.
  intros [Hlo Hhi]. unfold _restrictMinMax. rewrite (min_max_ok _ _ _ _ Hlo), (min_max_ok _ _ _ _ Hhi).
  cbn [mbind res_bind]. f_equal.
  assert (forall a b : Z, before (Some (midnight a)) (Some (midnight b)) = (a <? b)) as Hb
    by (intros a b; apply date_lt_midnight).
  assert ((if bool_decide (is_Some (midnight <$> lo)) && before (Some (midnight D)) (midnight <$> lo)
           then midnight <$> lo else Some (midnight D)) = Some (midnight (clamp lo None D))) as ->.
  { destruct lo as [l|]; cbn [fmap option_fmap option_map clamp]; [|done]. rewrite bool_decide_eq_true_2 by done.
    rewrite Hb. destruct (D <? l) eqn:E; bool_hyps; cbn [andb]; do 2 f_equal; lia. }
  destruct hi as [h|]; cbn [fmap option_fmap option_map]; [|done]. rewrite bool_decide_eq_true_2 by done.
  rewrite Hb. unfold clamp. destruct (h <? _) eqn:E; bool_hyps; cbn [andb]; do 2 f_equal; lia.
Qed.

(** ** The selected day *)

Definition selects (i : inst) (y m dt : Z) : Prop :=
  selectedYear i = Fin y /\ selectedMonth i = Fin m /\ day_num (selectedDay i) = Fin dt.

Definition select_day (D : Z) : inst -> inst :=
  select (DayNum (Fin (DateFromDay D))) (Fin (MonthFromDay D)) (Fin (YearFromDay D)).

Lemma select_midnight D i : select_date (midnight D) i = select_day D i.
Proof. unfold select_date, select_day. by destruct (midnight_fields D) as (-> & -> & -> & _). Qed.

(** The day that a move leads to, before the bounds. *)
Definition moved_day (p : option period) (n y m dt : Z) : Z :=
  let at_period q := if decide (p = Some q) then n else 0 in
  let y := y + at_period PY in
  let m := m + at_period PM in
  MakeDay y m (Z.min dt (days_in_month (y + m / 12) (m mod 12)) + at_period PD).

Definition move_ok (p : option period) (n y m dt : Z) : Prop :=
  100 <= y <= 100000 /\ -100 <= m <= 100 /\ -1000 <= dt <= 1000 /\
  match p with
  | None => True
  | Some PY => 100 <= y + n <= 100000
  | Some PM => -800 <= n <= 800
  | Some PD => -10000 <= n <= 10000
  end.

Lemma adjusted_ok st i lo hi off p n y m dt : bounds_are st i lo hi -> selects i y m dt ->
  (p <> None -> off = Fin n) -> move_ok p n y m dt ->
  adjusted st i off p = Ok (midnight (clamp lo hi (moved_day p n y m dt))).
Proof.
  intros Hb (Hy & Hm & Hdt) Hoff (Ry & Rm & Rdt & Rp). unfold adjusted. rewrite Hy, Hm, Hdt.
  assert (forall q, (if decide (p = Some q) then off else Fin 0) = Fin (if decide (p = Some q) then n else 0)) as E.
  { intros q. case_decide as Hq; [|done]. by apply Hoff; rewrite Hq. }
  rewrite !E. unfold moved_day. cbn [Num.add].
  set (oy := if decide (p = Some PY) then n else 0). set (om := if decide (p = Some PM) then n else 0).
  set (od := if decide (p = Some PD) then n else 0).
  assert (100 <= y + oy <= 100000 /\ -900 <= m + om <= 900 /\ -10000 <= od <= 10000) as (Ry' & Rm' & Rd')
    by (unfold oy, om, od; destruct p as [[]|]; repeat (case_decide; try congruence); lia).
  rewrite getDaysInMonth_eq by lia.
  pose proof (days_in_month_bounds (y + oy + (m + om) / 12) ((m + om) mod 12) ltac:(by apply Z.mod_pos_bound)).
  set (dim := days_in_month _ _) in *.
  assert (Num.add (Num.min (Fin dt) (Fin dim)) (Fin od) = Fin (Z.min dt dim + od)) as ->.
  { unfold Num.min. cbn [Num.lt]. destruct (dim <? dt) eqn:Ed; bool_hyps; cbn [Num.add]; f_equal; lia. }
  rewrite adjust_new_Date; [|lia|apply MakeDay_range; lia]. by rewrite (restrict_ok _ _ lo hi).
Qed.

(** Selecting the day that is selected. *)
Lemma moved_same D : moved_day None 0 (YearFromDay D) (MonthFromDay D) (DateFromDay D) = D.
Proof.
  destruct (date_of_fields D) as [[Hm Hd] E]. unfold moved_day. rewrite !decide_False by done. rewrite !Z.add_0_r.
  rewrite Z.div_small, Z.mod_small, Z.add_0_r by done. by rewrite Z.min_l by lia.
Qed.
End dates.
