(* ===== verification/DatepickerCalendar.v ===== *)
(** * The calendar that the picker draws

    The cells of a month, the month that is drawn first, and the drawing as a
    whole: [_generateHTML] completes and changes nothing but what is drawn. *)

From S2P Require Import Prelude JsNum JsDate DateFormat DateFacts Datepicker DatepickerHtml DatepickerFacts.

(** ** Months in a row *)

(** The first of the month number [k], counted from the year 0. *)
Definition month_day (k : Z) : Z := MakeDay 0 k 1.

Lemma month_day_eq y m : MakeDay y m 1 = month_day (12 * y + m).
Proof.
  unfold month_day, MakeDay. assert ((12 * y + m) / 12 = y + m / 12) as -> by dlia.
  assert ((12 * y + m) mod 12 = m mod 12) as -> by dlia. by rewrite Z.add_0_l.
Qed.

Lemma month_day_succ k : month_day k + 28 <= month_day (k + 1) <= month_day k + 31.
Proof.
  unfold month_day. rewrite month_succ. pose proof (days_in_month_bounds (0 + k / 12) (k mod 12)) as Hd.
  specialize (Hd ltac:(by apply Z.mod_pos_bound)). lia.
Qed.

Lemma month_day_mono k n : 0 <= n -> month_day k + 28 * n <= month_day (k + n).
Proof.
  revert n. apply (natlike_ind (fun n => month_day k + 28 * n <= month_day (k + n))); [rewrite !Z.add_0_r; lia|].
  intros j Hj IH. pose proof (month_day_succ (k + j)). replace (k + Z.succ j) with (k + j + 1) by lia. lia.
Qed.

(** The number of the month of a day. *)
Definition month_index (D : Z) : Z := 12 * YearFromDay D + MonthFromDay D.

Lemma month_index_spec D : month_day (month_index D) <= D < month_day (month_index D + 1).
Proof.
  destruct (date_of_fields D) as [[Hm Hd] E]. unfold month_index. rewrite <-Z.add_assoc, <-!month_day_eq, <-next_month by done.
  assert (MakeDay (YearFromDay D) (MonthFromDay D) 1 + (DateFromDay D - 1) = D) as E'.
  { rewrite <-MakeDay_add. by replace (1 + (DateFromDay D - 1)) with (DateFromDay D) by lia. }
  lia.
Qed.

Lemma month_day_le k D : month_day k <= D <-> k <= month_index D.
Proof.
  pose proof (month_index_spec D). split; intros Hk.
  - destruct (Z.le_gt_cases k (month_index D)) as [|Hgt]; [done|].
    pose proof (month_day_mono (month_index D + 1) (k - (month_index D + 1)) ltac:(lia)) as Hm.
    replace (month_index D + 1 + (k - (month_index D + 1))) with k in Hm by lia. lia.
  - pose proof (month_day_mono k (month_index D - k) ltac:(lia)) as Hm.
    replace (k + (month_index D - k)) with (month_index D) in Hm by lia. lia.
Qed.

Lemma week_day_range D : 0 <= WeekDay D < 7.
Proof. unfold WeekDay. by apply Z.mod_pos_bound. Qed.

Lemma rem_mod a : 0 <= a -> Num.rem (Fin a) (Fin 7) = Fin (a mod 7).
Proof. intros Ha. cbn. by rewrite Z.rem_mod_nonneg. Qed.

Section calendar.
Context `{HourZone} `{Page}.

(** ** The cells of a month *)

Lemma row_cells_eq g n dow D : (forall k, 0 <= k <= Z.of_nat n -> day_in_range (D + k)) ->
  row_cells n g dow (midnight D)
  = (concat (List.map (fun k => cell g (dow + k) (midnight (D + Z.of_nat k))) (seq 0 n)), midnight (D + Z.of_nat n)).
Proof.
  revert dow D. induction n as [|n IH]; intros dow D HD; [by rewrite Z.add_0_r|]. cbn [row_cells].
  rewrite next_day_midnight by (apply HD; lia). rewrite IH.
  2: { intros k Hk. replace (D + 1 + k) with (D + (1 + k)) by lia. apply HD. lia. }
  cbn [seq List.map concat]. rewrite <-seq_shift, List.map_map, Z.add_0_r, Nat.add_0_r. f_equal; [f_equal; f_equal|f_equal; lia].
  apply List.map_ext. intros k. f_equal; [lia|f_equal; lia].
Qed.

(** The row of the week that starts on [D]. *)
Definition week_row (g : grid) (D : Z) : jstr :=
  str "<tr>"
  ++ text_if (_get (g_state g) (g_inst g) (@showWeek))
       (str "<td class='ui-datepicker-week-col'>"
          ++ num_to_str (_get (g_state g) (g_inst g) (@calculateWeek) (midnight D)) ++ str "</td>")
  ++ concat (List.map (fun k => cell g k (midnight (D + Z.of_nat k))) (seq 0 7)) ++ str "</tr>".

Lemma grid_rows_eq g n D : (forall k, 0 <= k <= 7 * Z.of_nat n -> day_in_range (D + k)) ->
  grid_rows n g (midnight D) = concat (List.map (fun w => week_row g (D + 7 * Z.of_nat w)) (seq 0 n)).
Proof.
  revert D. induction n as [|n IH]; intros D HD; [done|]. cbn [grid_rows]. unfold grid_row.
  rewrite row_cells_eq by (intros k Hk; apply HD; lia). rewrite IH.
  2: { intros k Hk. rewrite <-Z.add_assoc. apply HD. lia. }
  rewrite <-(cons_seq n 0), <-(seq_shift n 0). cbn [List.map concat]. rewrite List.map_map, Z.mul_0_r, Z.add_0_r. f_equal.
  f_equal. apply List.map_ext. intros k. f_equal. lia.
Qed.

(** The first day of the calendar of a month, and its number of rows. *)
Definition grid_start (y m fd : Z) : Z := MakeDay y m 1 - (WeekDay (MakeDay y m 1) - fd + 7) mod 7.
Definition grid_size (y m fd : Z) : Z :=
  - ((- ((WeekDay (MakeDay y m 1) - fd + 7) mod 7 + days_in_month (y + m / 12) (m mod 12))) / 7).

Definition month_ok (y m : Z) : Prop := 100 <= y <= 190000 /\ -100 <= m <= 100.

Lemma month_range y m k : month_ok y m -> -1000 <= k <= 1000 -> day_in_range (MakeDay y m 1 + k).
Proof. intros [Hy Hm] Hk. rewrite <-MakeDay_add. apply MakeDay_range; lia. Qed.

Lemma lead_days_eq y m fd : month_ok y m -> 0 <= fd <= 6 ->
  lead_days (Fin y) (Fin m) (Fin fd) = Fin (MakeDay y m 1 - grid_start y m fd).
Proof.
  intros Hok Hfd. unfold lead_days. rewrite first_day.
  2: { destruct Hok. lia. }
  2: { rewrite <-(Z.add_0_r (MakeDay y m 1)). apply month_range; [done|lia]. }
  pose proof (week_day_range (MakeDay y m 1)). cbn [Num.sub Num.opp Num.add]. rewrite Z.add_opp_r, rem_mod by lia.
  f_equal. unfold grid_start. lia.
Qed.

Lemma cur_rows_eq y m fd : month_ok y m -> 0 <= fd <= 6 -> cur_rows (Fin y) (Fin m) (Fin fd) = Fin (grid_size y m fd).
Proof.
  intros Hok Hfd. unfold cur_rows. rewrite lead_days_eq by done. destruct Hok as [Hy Hm].
  rewrite getDaysInMonth_eq by lia. cbn [Num.add Num.ceil_div]. change (7 =? 0) with false. cbv iota.
  unfold grid_size, grid_start. f_equal. f_equal. f_equal. lia.
Qed.

(** The grid starts on the first day of the week, in the week of the first of the
    month, and ends in the week of its last day. *)
Lemma grid_spec y m fd : 0 <= fd <= 6 ->
  let first := MakeDay y m 1 in
  let last := first + days_in_month (y + m / 12) (m mod 12) - 1 in
  let D := grid_start y m fd in
  let n := grid_size y m fd in
  WeekDay D = fd /\ D <= first < D + 7 /\ D + 7 * (n - 1) <= last < D + 7 * n /\ 4 <= n <= 6.
Proof.
  intros Hfd first last D n. unfold last, D, n, grid_start, grid_size. fold first.
  pose proof (week_day_range first) as Hw.
  pose proof (days_in_month_bounds (y + m / 12) (m mod 12) ltac:(by apply Z.mod_pos_bound)) as Hd.
  set (dim := days_in_month _ _) in *. clearbody first dim. unfold WeekDay in *.
  split_and!; dlia.
Qed.

Lemma month_table_eq g y m fd n : month_ok y m -> 0 <= fd <= 6 -> 0 <= n <= 100 -> g_firstDay g = Fin fd ->
  month_table g (Fin y) (Fin m) (Fin n) =
  str "<table class='ui-datepicker-calendar'><thead><tr>" ++ day_heads (g_state g) (g_inst g) (Fin fd)
    ++ str "</tr></thead><tbody>"
    ++ concat (List.map (fun w => week_row g (grid_start y m fd + 7 * Z.of_nat w)) (seq 0 (Z.to_nat n)))
    ++ str "</tbody></table>".
Proof.
  intros Hok Hfd Hn Hg. unfold month_table. rewrite Hg, lead_days_eq by done. cbn [Num.sub Num.opp Num.add num_nat].
  pose proof (grid_spec y m fd Hfd) as (_ & Hs & _). cbv zeta in Hs.
  assert (MakeDay y m (1 + - (MakeDay y m 1 - grid_start y m fd)) = grid_start y m fd) as E by (rewrite MakeDay_add; lia).
  assert (forall k, 0 <= k <= 700 -> day_in_range (grid_start y m fd + k)) as Hr.
  { intros k Hk. replace (grid_start y m fd + k) with (MakeDay y m 1 + (grid_start y m fd - MakeDay y m 1 + k)) by lia.
    apply month_range; [done|lia]. }
  rewrite adjust_new_Date; rewrite ?E.
  - rewrite grid_rows_eq; [done|]. intros k Hk. apply Hr. lia.
  - destruct Hok. lia.
  - rewrite <-(Z.add_0_r (grid_start y m fd)). apply Hr. lia.
Qed.

(** The cells with a link. *)
Lemma selectable_iff g D lo hi m : g_min g = midnight <$> lo -> g_max g = midnight <$> hi -> g_month g = Fin m ->
  unselectable g (midnight D) = false <->
  (MonthFromDay D = m \/ _get (g_state g) (g_inst g) (@selectOtherMonths) = true)
  /\ ds_ok (day_setting g (midnight D)) = true
  /\ (forall l, lo = Some l -> l <= D) /\ (forall h, hi = Some h -> D <= h).
Proof.
  intros Hlo Hhi Hm. unfold unselectable, other_month. rewrite Hlo, Hhi, Hm.
  destruct (midnight_fields D) as (_ & -> & _ & _). cbn [Num.eqb].
  rewrite !orb_false_iff, andb_false_iff, !negb_false_iff, Z.eqb_eq.
  assert (match midnight <$> lo with Some d => date_lt (midnight D) d | None => false end = false
    <-> forall l, lo = Some l -> l <= D) as ->.
  { destruct lo as [l|]; cbn [fmap option_fmap option_map]; [|split; [by intros _ ? [=]|done]].
    rewrite date_lt_midnight, Z.ltb_ge. split; [by intros ? ? [= <-]|intros Hl; by apply Hl]. }
  assert (match midnight <$> hi with Some d => date_lt d (midnight D) | None => false end = false
    <-> forall h, hi = Some h -> D <= h) as ->.
  { destruct hi as [h|]; cbn [fmap option_fmap option_map]; [|split; [by intros _ ? [=]|done]].
    rewrite date_lt_midnight, Z.ltb_ge. split; [by intros ? ? [= <-]|intros Hh; by apply Hh]. }
  tauto.
Qed.

(** The link to a day is in its cell exactly where it can be selected. *)
Lemma cell_handler g dow D : cell g dow (midnight D) =
  str "<td class='" ++ cell_classes g dow (midnight D) ++ str "'" ++ cell_title g (midnight D)
    ++ text_if (negb (unselectable g (midnight D)))
         (str " data-handler='selectDay' data-event='click' data-month='" ++ num_to_str (Fin (MonthFromDay D))
            ++ str "' data-year='" ++ num_to_str (Fin (YearFromDay D)) ++ str "'")
    ++ str ">" ++ cell_content g (midnight D) ++ str "</td>".
Proof. unfold cell, click_handler. by destruct (midnight_fields D) as (-> & -> & _). Qed.
End calendar.

(** ** What drawing changes *)

(** The instance and the state without what drawing changes; two states that agree
    on it show the same dates. *)
Definition undrawn_inst `{Page} (i : inst) : inst :=
  set_drawMonth (Fin 0) (set_drawYear (Fin 0) (set_yearshtml None (set_keyEvent false
    (set_inlineDiv empty_div (set_selectedDay (DayNum (day_num (selectedDay i))) i))))).

Definition undrawn `{Page} (st : dp) : dp :=
  set_maxRows (Fin 0) (set_instActive None (set_dpDiv empty_div (set_timers []
    (set_instances (undrawn_inst <$> instances st) st)))).

Section undrawn.
Context `{HourZone} `{Page}.

Lemma inst_undrawn st r : inst_at (undrawn st) r = undrawn_inst (inst_at st r).
Proof. unfold inst_at. cbn. rewrite lookup_fmap. by destruct (instances st !! r). Qed.

Lemma get_undrawn {A} st r (field : forall F, opts F -> F A) :
  _get (undrawn st) (inst_at (undrawn st) r) field = _get st (inst_at st r) field.
Proof. by rewrite inst_undrawn. Qed.

(** States that agree: [undrawn st] is [X]. *)
Definition shows (X : dp) (st : dp) : Prop := undrawn st = X.

Lemma shows_get {A} X st r (field : forall F, opts F -> F A) : shows X st ->
  _get st (inst_at st r) field = _get X (inst_at X r) field.
Proof. intros <-. by rewrite get_undrawn. Qed.

Lemma shows_inst X st r : shows X st -> inst_at X r = undrawn_inst (inst_at st r).
Proof. intros <-. by rewrite inst_undrawn. Qed.

Lemma shows_clock X st : shows X st -> clock st = clock X.
Proof. by intros <-. Qed.

Lemma shows_bounds X st r lo hi : shows X st -> bounds_are X (inst_at X r) lo hi -> bounds_are st (inst_at st r) lo hi.
Proof. intros Hs. unfold bounds_are. by rewrite !(shows_get X st) by done; rewrite (shows_clock X st). Qed.

Lemma shows_selects X st r y m dt : shows X st -> selects (inst_at X r) y m dt -> selects (inst_at st r) y m dt.
Proof. intros Hs. rewrite (shows_inst X st) by done. done. Qed.

(** A change of the instance that cannot be seen. *)
Lemma shows_upd X r f st : is_Some (instances X !! r) -> shows X st ->
  undrawn_inst (f (inst_at st r)) = undrawn_inst (inst_at st r) ->
  shows X (set_instances (<[r := f (inst_at st r)]> (instances st)) st).
Proof.
  unfold shows. intros Hr HX Hf. rewrite <-HX.
  assert (undrawn_inst <$> <[r := f (inst_at st r)]> (instances st) = undrawn_inst <$> instances st) as E.
  { rewrite fmap_insert, Hf. apply insert_id. rewrite lookup_fmap. subst X. cbn in Hr. rewrite lookup_fmap in Hr.
    unfold inst_at. destruct (instances st !! r); [done|by destruct Hr]. }
  unfold undrawn. cbn [instances set_instances]. by rewrite E.
Qed.

Lemma runs_upd_inst X r f : is_Some (instances X !! r) ->
  (forall i, undrawn_inst (f i) = undrawn_inst i) -> sm_runs (shows X) (upd_inst r f) (fun _ => True).
Proof. intros Hr Hf. apply runs_mod. intros s Hs. by apply shows_upd. Qed.

Lemma runs_ask X {A} r (f : dp -> inst -> A) Q : (forall s, shows X s -> Q (f s (inst_at s r))) ->
  sm_runs (shows X) (ask r f) Q.
Proof. intros Hf. by apply runs_get. Qed.

Lemma runs_ask_res X {A} r (f : dp -> inst -> res A) (Q : A -> Prop) :
  (forall s, shows X s -> exists a, f s (inst_at s r) = Ok a /\ Q a) -> sm_runs (shows X) (ask_res r f) Q.
Proof. intros Hf s Hs. destruct (Hf s Hs) as (a & E & Ha). exists a, s. unfold ask_res. by rewrite E. Qed.
End undrawn.

(** ** The month that is drawn first *)

Section start.
Context `{HourZone} `{Page}.

Lemma clamp_draw_ok fuel M y m : 0 <= m < 12 -> 100 <= y <= 190000 -> 1200 <= month_index M ->
  12 * y + m - month_index M <= Z.of_nat fuel ->
  let k := Z.min (12 * y + m) (month_index M) in
  clamp_draw fuel (midnight M) (Fin y) (Fin m) = Ok (Fin (k / 12), Fin (k mod 12)).
Proof.
  revert y m. induction fuel as [|fuel IH]; intros y m Hm Hy HM Hf k; cbn [clamp_draw];
    (rewrite adjust_new_Date; [|lia|apply MakeDay_range; lia]);
    rewrite date_lt_midnight, month_day_eq; destruct (M <? month_day (12 * y + m)) eqn:E; bool_hyps.
  - exfalso. assert (~ month_day (12 * y + m) <= M) as Hn by lia. rewrite month_day_le in Hn. lia.
  - apply month_day_le in E. unfold k. rewrite Z.min_l by done. do 2 f_equal; f_equal; dlia.
  - assert (~ month_day (12 * y + m) <= M) as Hn by lia. rewrite month_day_le in Hn.
    cbn [Num.sub Num.opp Num.add Num.lt]. unfold k. rewrite Z.min_r by lia.
    destruct (m + - (1) <? 0) eqn:Em; bool_hyps.
    + rewrite IH; [|lia|lia|done|lia]. by rewrite Z.min_r by lia.
    + rewrite IH; [|lia|lia|done|lia]. by rewrite Z.min_r by lia.
  - apply month_day_le in E. unfold k. rewrite Z.min_l by done. do 2 f_equal; f_equal; dlia.
Qed.

(** The era in which the picker draws. *)
Definition era (D : Z) : Prop := 300 <= YearFromDay D <= 100000.

Lemma era_index D : era D -> 3600 <= month_index D <= 1200011.
Proof. unfold era, month_index. destruct (date_of_fields D) as [[Hm _] _]. lia. Qed.

Lemma era_range D : era D -> day_in_range D.
Proof.
  unfold era. intros HD. destruct (date_of_fields D) as [[Hm Hd] E]. rewrite <-E.
  pose proof (days_in_month_bounds (YearFromDay D) _ Hm). apply MakeDay_range; lia.
Qed.

Lemma draw_start_ok st i lo hi pos y m rows cols :
  _get st i (@showCurrentAtPos) = Fin pos -> 0 <= pos <= 12 -> _getNumberOfMonths st i = (rows, cols) ->
  0 <= rows * cols <= 1000 -> drawYear i = Fin y -> drawMonth i = Fin m -> 0 <= m < 12 -> 300 <= y <= 100000 ->
  (forall l, lo = Some l -> era l) -> (forall h, hi = Some h -> era h) ->
  exists y' m', draw_start st i (midnight <$> lo) (midnight <$> hi) = Ok (Fin y', Fin m') /\ 0 <= m' < 12 /\ 100 <= y' <= 100000.
Proof.
  intros Hpos Rpos Hn Rn Hy Hm Rm Ry Hlo Hhi. unfold draw_start. rewrite Hn, Hy, Hm, Hpos. cbn [Num.sub Num.opp Num.add Num.lt].
  assert (exists y1 m1, (if m + - pos <? 0 then (Fin (y + - (1)), Fin (m + - pos + 12)) else (Fin y, Fin (m + - pos)))
    = (Fin y1, Fin m1) /\ 0 <= m1 < 12 /\ 299 <= y1 <= 100000) as (y1 & m1 & -> & Rm1 & Ry1).
  { destruct (m + - pos <? 0) eqn:E; bool_hyps; do 2 eexists; (split; [reflexivity|lia]). }
  destruct hi as [h|]; [|exists y1, m1; cbn; split; [done|lia]]. cbn [fmap option_fmap option_map].
  specialize (Hhi h eq_refl). destruct (date_of_fields h) as [[Hmh Hdh] Eh].
  pose proof (days_in_month_bounds (YearFromDay h) _ Hmh). unfold era in Hhi.
  destruct (midnight_fields h) as (-> & -> & -> & _). cbn [Num.sub Num.opp Num.add].
  set (M0 := MakeDay (YearFromDay h) (MonthFromDay h + - (rows * cols) + 1) (DateFromDay h)).
  rewrite adjust_new_Date; [|lia|apply MakeDay_range; lia]. fold M0.
  assert (1200 <= month_index M0) as HM0.
  { apply month_day_le. unfold M0. replace (DateFromDay h) with (1 + (DateFromDay h - 1)) by lia.
    rewrite MakeDay_add, month_day_eq. pose proof (month_day_mono 1200 (12 * YearFromDay h + (MonthFromDay h + - (rows * cols) + 1) - 1200) ltac:(lia)) as Hmono.
    replace (1200 + _) with (12 * YearFromDay h + (MonthFromDay h + - (rows * cols) + 1)) in Hmono by lia. lia. }
  assert (exists M, (match midnight <$> lo with Some l => if date_lt (midnight M0) l then l else midnight M0 | None => midnight M0 end)
    = midnight M /\ 1200 <= month_index M) as (M & EM & HM).
  { destruct lo as [l|]; cbn [fmap option_fmap option_map]; [|by exists M0]. rewrite date_lt_midnight.
    destruct (M0 <? l); [|by exists M0]. exists l. split; [done|]. specialize (Hlo l eq_refl). apply era_index in Hlo. lia. }
  cbn [fmap option_fmap option_map] in EM. rewrite EM.
  pose proof (clamp_draw_ok (draw_fuel (Fin y1) (Fin m1) (midnight M)) M y1 m1) as Hc. cbv zeta in Hc. rewrite Hc; [|lia|lia|done|].
  - eexists _, _. split; [done|]. split; [by apply Z.mod_pos_bound|].
    set (k := Z.min (12 * y1 + m1) (month_index M)). assert (1200 <= k <= 1200011) as Hk by lia. clearbody k. dlia.
  - unfold draw_fuel. destruct (midnight_fields M) as (-> & _). unfold month_index.
    destruct (date_of_fields M) as [[HmM _] _]. lia.
Qed.
End start.

(** ** Drawing completes *)

(** An instance that can be drawn: the settings denote days, and the ranges of the
    numbers. *)
Record ready `{TimeZone} `{Page} (X : dp) (r : nat) (lo hi : option Z) : Prop := {
  ready_here : is_Some (instances X !! r);
  ready_clock : exists c, clock X = Some c /\ era (local_day c);
  ready_bounds : bounds_are X (inst_at X r) lo hi;
  ready_order : forall l h, lo = Some l -> hi = Some h -> l <= h;
  ready_lo : forall l, lo = Some l -> era l;
  ready_hi : forall h, hi = Some h -> era h;
  ready_default : exists o, denotes (clock X) (_get X (inst_at X r) (@defaultDate)) o;
  ready_years : is_ok (year_bounds X (_get X (inst_at X r) (@yearRange))) = true;
  ready_pos : exists pos, _get X (inst_at X r) (@showCurrentAtPos) = Fin pos /\ 0 <= pos <= 12;
  ready_months : 0 <= (_getNumberOfMonths X (inst_at X r)).1 * (_getNumberOfMonths X (inst_at X r)).2 <= 1000
}.

(** The day [D] is selected; the month that is drawn is in the era. *)
Definition selected `{Page} (i : inst) (D : Z) : Prop := selects i (YearFromDay D) (MonthFromDay D) (DateFromDay D).
Definition drawable (i : inst) : Prop :=
  exists y m, drawYear i = Fin y /\ drawMonth i = Fin m /\ 0 <= m < 12 /\ 300 <= y <= 100000.

Section drawing.
Context `{HourZone} `{Page} (X : dp) (r : nat) (lo hi : option Z).
Context (Hready : ready X r lo hi) (D : Z) (HD : era D) (Hsel : selected (inst_at X r) D).

Lemma ready_determine s arg o : shows X s -> denotes (clock X) arg o ->
  exists E, _determineDate s (inst_at s r) arg (Some (clock s)) = Ok (Some (midnight E)).
Proof.
  intros Hs Ho. destruct (ready_clock _ _ _ _ Hready) as (c & Hc & Hera). rewrite <-(shows_clock X s Hs) in Ho, Hc.
  pose proof (determine_denotes s (inst_at s r) arg o (Some c) Ho) as E. cbn [fmap option_fmap option_map] in E.
  rewrite Hc. rewrite E; [destruct o; by eexists|]. intros t [= ->]. by apply era_range.
Qed.

Lemma ready_in_range s d : shows X s -> exists b, _isInRange s (inst_at s r) d = Ok b.
Proof.
  intros Hs. unfold _isInRange. pose proof (shows_bounds X s r lo hi Hs (ready_bounds _ _ _ _ Hready)) as [Hlo Hhi].
  rewrite (min_max_ok _ _ _ _ Hlo), (min_max_ok _ _ _ _ Hhi). cbn [mbind res_bind].
  rewrite (shows_get X s) by done. pose proof (ready_years _ _ _ _ Hready) as Hy.
  assert (year_bounds s = year_bounds X) as -> by (unfold year_bounds; by rewrite (shows_clock X s)).
  destruct (year_bounds X _) as [[a b]|e|]; [|done..]. cbn. by eexists.
Qed.

Lemma ready_can_adjust s off y m : shows X s -> exists b, _canAdjustMonth s (inst_at s r) off y m = Ok b.
Proof.
  intros Hs. unfold _canAdjustMonth. destruct (_getNumberOfMonths s (inst_at s r)). by apply ready_in_range.
Qed.

Lemma ready_default_date s : shows X s -> exists d, (d ← _getDefaultDate s (inst_at s r); a_date d) = Ok d.
Proof.
  intros Hs. destruct (ready_default _ _ _ _ Hready) as (o & Ho). unfold _getDefaultDate. rewrite (shows_get X s) by done.
  destruct (ready_determine s _ o Hs Ho) as (E & ->). cbn [mbind res_bind].
  rewrite (restrict_ok _ _ lo hi); [by eexists|]. apply (shows_bounds X s r); [done|]. apply Hready.
Qed.

Lemma runs_header drawMonth drawYear lo' hi' secondary names short :
  sm_runs (shows X) (_generateMonthYearHeader r drawMonth drawYear lo' hi' secondary names short) (fun _ => True).
Proof.
  intros s Hs. unfold _generateMonthYearHeader. cbv zeta. destruct (match yearshtml (inst_at s r) with Some (_ :: _) => _ | _ => _ end) as [yh y'].
  runs_here Hs. eapply runs_bind; [by apply runs_upd_inst; [apply Hready|]|]. intros _ _. by apply runs_ret.
Qed.

(** The day is at most the length of its month. *)
Lemma runs_shorten y m : sm_runs (shows X)
  (sm_when (Num.eqb y (Fin (YearFromDay D)) && Num.eqb m (Fin (MonthFromDay D)))
    (upd_inst r (set_selectedDay (DayNum (Num.min (Fin (DateFromDay D)) (_getDaysInMonth y m)))))) (fun _ => True).
Proof.
  intros s Hs. destruct (shows_selects X s r _ _ _ Hs Hsel) as (Ey & Em & Ed).
  destruct (Num.eqb y (Fin (YearFromDay D)) && Num.eqb m (Fin (MonthFromDay D))) eqn:E; cbn [sm_when].
  2: { by exists tt, s. }
  apply andb_true_iff in E as [E1 E2]. destruct y as [y| | |], m as [m| | |]; try done. cbn in E1, E2. bool_hyps. subst y m.
  destruct (date_of_fields D) as [[Hm Hd] _]. unfold era in HD.
  rewrite getDaysInMonth_eq by lia. rewrite Z.div_small, Z.mod_small, Z.add_0_r by lia.
  assert (Num.min (Fin (DateFromDay D)) (Fin (days_in_month (YearFromDay D) (MonthFromDay D))) = Fin (DateFromDay D)) as ->.
  { unfold Num.min. cbn [Num.lt]. by rewrite (proj2 (Z.ltb_ge _ _)) by lia. }
  eexists tt, _. split; [reflexivity|]. split; [done|]. apply shows_upd; [apply Hready|done|].
  unfold undrawn_inst. cbn. by rewrite Ed.
Qed.

Lemma runs_draw_month c row col y m : sm_runs (shows X) (draw_month r c row col y m) (fun _ => True).
Proof.
  intros s Hs. unfold draw_month. cbv zeta. destruct (_getNumberOfMonths s (inst_at s r)) as [rows cols].
  destruct (if negb (rows =? 1) || negb (cols =? 1) then _ else _) as [gc cc].
  runs_here Hs. eapply runs_bind; [apply runs_header|]. intros header _. cbv zeta.
  destruct (shows_selects X s r _ _ _ Hs Hsel) as (-> & -> & ->).
  eapply runs_bind; [apply runs_shorten|].
  intros _ _. eapply runs_bind; [apply runs_read|]. intros mr _. eapply runs_bind.
  { apply runs_mod. intros s' Hs'. exact Hs'. }
  intros _ _. by apply runs_ret.
Qed.

Lemma runs_draw_cols n c row col y m : sm_runs (shows X) (draw_cols n r c row col y m) (fun _ => True).
Proof.
  revert col y m. induction n as [|n IH]; intros col y m; [by apply runs_ret|]. cbn [draw_cols].
  eapply runs_bind; [apply runs_draw_month|]. intros [[h y'] m'] _. eapply runs_bind; [apply IH|].
  intros [[h' y''] m''] _. by apply runs_ret.
Qed.

Lemma runs_draw_rows n c row cols y m : sm_runs (shows X) (draw_rows n r c row cols y m) (fun _ => True).
Proof.
  revert row y m. induction n as [|n IH]; intros row y m; [by apply runs_ret|]. cbn [draw_rows].
  eapply runs_bind; [apply runs_mod; intros s' Hs'; exact Hs'|]. intros _ _.
  eapply runs_bind; [apply runs_draw_cols|]. intros [[h y'] m'] _. eapply runs_bind; [apply IH|].
  intros h' _. by apply runs_ret.
Qed.

Lemma generateHTML_runs s : shows X s -> drawable (inst_at s r) ->
  exists html s', _generateHTML r s = (Ok html, s') /\ shows X s'.
Proof.
  intros Hs (y & m & Hy & Hm & Rm & Ry). pose proof (shows_bounds X s r lo hi Hs (ready_bounds _ _ _ _ Hready)) as [Hlo Hhi].
  unfold _generateHTML. rewrite sm_get_bind, ask_bind. cbv zeta.
  rewrite (ask_res_bind _ _ _ s _ (min_max_ok _ _ _ _ Hlo)), (ask_res_bind _ _ _ s _ (min_max_ok _ _ _ _ Hhi)).
  destruct (ready_pos _ _ _ _ Hready) as (pos & Hpos & Rpos). rewrite <-(shows_get X s) in Hpos by done.
  pose proof (ready_months _ _ _ _ Hready) as Rn.
  assert (_getNumberOfMonths s (inst_at s r) = _getNumberOfMonths X (inst_at X r)) as EN
    by (unfold _getNumberOfMonths; by rewrite (shows_get X s)).
  destruct (_getNumberOfMonths X (inst_at X r)) as [rows cols].
  destruct (draw_start_ok s (inst_at s r) lo hi pos y m rows cols) as (y' & m' & E & _); try done; [apply Hready..|].
  rewrite (ask_res_bind _ _ _ s _ E).
  match goal with |- exists html s', ?k s = _ /\ _ => assert (sm_runs (shows X) k (fun _ => True)) as R end.
  2: { destruct (R s Hs) as (html & s' & E' & _ & Hs'). by exists html, s'. }
  eapply runs_bind; [apply (runs_upd_inst X r); [apply Hready|done]|]. intros _ _.
  eapply runs_bind.
  { apply (runs_ask_res X r _ (fun _ => True)). intros s1 Hs1. unfold prev_link. destruct (ready_can_adjust s1 (-1) (Fin y') (Fin m') Hs1) as (b & ->). by eexists. }
  intros prev _. eapply runs_bind.
  { apply (runs_ask_res X r _ (fun _ => True)). intros s1 Hs1. unfold next_link. destruct (ready_can_adjust s1 1 (Fin y') (Fin m') Hs1) as (b & ->). by eexists. }
  intros next _. eapply runs_bind.
  { apply (runs_ask_res X r _ (fun _ => True)). intros s1 Hs1. unfold button_panel. case_match; [by eexists|].
    edestruct (ready_in_range s1) as (b & Eb); [done|]. rewrite Eb. by eexists. }
  intros panel _. eapply runs_bind; [apply runs_read|]. intros fd _.
  eapply runs_bind.
  { apply (runs_ask_res X r _ (fun _ => True)). intros s1 Hs1. destruct (ready_default_date s1 Hs1) as (d & Ed). by exists d. }
  intros dd _. eapply runs_bind; [apply runs_read|]. intros [rows' cols'] _.
  eapply runs_bind; [apply runs_draw_rows|]. intros html _.
  eapply runs_bind; [apply (runs_upd_inst X r); [apply Hready|done]|]. intros _ _. by apply runs_ret.
Qed.
End drawing.
