(* ===== verification/DatepickerMoves.v ===== *)
(** * Selecting and moving the date of a picker

    What the methods that change the selected date do to the state, exactly, and
    that drawing afterwards completes and changes no date. *)

From S2P Require Import Prelude JsNum JsDate DateFormat DateFacts Datepicker DatepickerHtml DatepickerUi DatepickerApi DateTokens DateFields DateProps.
From S2P Require Import DatepickerFacts DatepickerCalendar.

(** The state with another instance [r], or another value of an input. *)
Definition put (r : nat) (i : inst) (s : dp) : dp := set_instances (<[r := i]> (instances s)) s.
Definition put_value (t : nat) (v : jstr) (s : dp) : dp :=
  set_elements (<[t := set_value v (elem_at s t)]> (elements s)) s.

Lemma inst_put `{Page} r i s : inst_at (put r i s) r = i.
Proof. unfold inst_at. cbn. by rewrite lookup_insert_eq. Qed.

Lemma put_put r i j s : put r i (put r j s) = put r i s.
Proof. unfold put. cbn. by rewrite insert_insert_eq. Qed.

Lemma put_same `{Page} r s : is_Some (instances s !! r) -> put r (inst_at s r) s = s.
Proof.
  intros [i Hi]. unfold put, inst_at. rewrite Hi. cbn. rewrite insert_id by done. by destruct s.
Qed.

Section moves.
Context `{HourZone} `{Page}.

Lemma upd_inst_eq r f s : upd_inst r f s = (Ok tt, put r (f (inst_at s r)) s).
Proof. done. Qed.

Lemma get_put {A} s r i (field : forall F, opts F -> F A) : _get (put r i s) i field = _get s i field.
Proof. done. Qed.

(** What is ready depends on the settings and the clock. *)
Lemma ready_ext s s' r lo hi : clock s' = clock s -> _defaults s' = _defaults s ->
  settings (inst_at s' r) = settings (inst_at s r) -> is_Some (instances s' !! r) -> ready s r lo hi -> ready s' r lo hi.
Proof.
  intros Ec Ed Es Hr [_ Hc Hb Ho Hl Hh Hd Hy Hp Hm].
  assert (forall A (field : forall F, opts F -> F A), _get s' (inst_at s' r) field = _get s (inst_at s r) field) as Eg
    by (intros A field; unfold _get; by rewrite Es, Ed).
  assert (year_bounds s' = year_bounds s) as Ey by (unfold year_bounds; by rewrite Ec).
  assert (_getNumberOfMonths s' (inst_at s' r) = _getNumberOfMonths s (inst_at s r)) as En
    by (unfold _getNumberOfMonths; by rewrite Eg).
  constructor; unfold bounds_are; rewrite ?Eg, ?Ec, ?Ey, ?En; done.
Qed.

Lemma ready_here_undrawn s r : is_Some (instances s !! r) -> is_Some (instances (undrawn s) !! r).
Proof. intros [i Hi]. cbn. rewrite lookup_fmap, Hi. by eexists. Qed.

Lemma ready_undrawn s r lo hi : ready s r lo hi -> ready (undrawn s) r lo hi.
Proof.
  intros Hr. apply (ready_ext s); try done; [by rewrite inst_undrawn|]. apply ready_here_undrawn, Hr.
Qed.

Lemma ready_put s r i lo hi : settings i = settings (inst_at s r) -> ready s r lo hi -> ready (put r i s) r lo hi.
Proof.
  intros Ei Hr. apply (ready_ext s); try done; [by rewrite inst_put|]. cbn. rewrite lookup_insert_eq. by eexists.
Qed.

(** ** The state after a selection *)

(** The day [D] selected and current. *)
Definition set_day (D : Z) (i : inst) : inst :=
  select_day D (set_current (DayNum (Fin (DateFromDay D))) (Fin (MonthFromDay D)) (Fin (YearFromDay D)) i).

Lemma selected_day D i : selected (select_day D i) D.
Proof. done. Qed.

Lemma drawable_day D i : era D -> drawable (select_day D i).
Proof.
  intros HD. exists (YearFromDay D), (MonthFromDay D). destruct (date_of_fields D) as [[Hm _] _]. unfold era in HD.
  split_and!; try done; lia.
Qed.

Lemma move_selected D : era D -> move_ok None 0 (YearFromDay D) (MonthFromDay D) (DateFromDay D).
Proof.
  intros HD. destruct (date_of_fields D) as [[Hm Hd] _]. pose proof (days_in_month_bounds (YearFromDay D) _ Hm).
  unfold era in HD. unfold move_ok. lia.
Qed.

(** [_adjustInstDate], with a silent [onChangeMonthYear] where it is called. *)
Definition silent (s : dp) (r : nat) : Prop := _get s (inst_at s r) (@onChangeMonthYear) = None.

Lemma notify_silent s r : silent s r -> _notifyChange r s = (Ok tt, s).
Proof. intros Hn. unfold _notifyChange, setting. rewrite ask_bind. by rewrite Hn. Qed.

Lemma adjust_exact s r lo hi off p n D : bounds_are s (inst_at s r) lo hi -> selected (inst_at s r) D ->
  (p <> None -> off = Fin n) -> move_ok p n (YearFromDay D) (MonthFromDay D) (DateFromDay D) ->
  (p = Some PM \/ p = Some PY -> silent s r) ->
  _adjustInstDate r off p s =
    (Ok tt, put r (select_day (clamp lo hi (moved_day p n (YearFromDay D) (MonthFromDay D) (DateFromDay D))) (inst_at s r)) s).
Proof.
  intros Hb Hsel Hoff Hok Hsil. unfold _adjustInstDate.
  rewrite (ask_res_bind _ _ _ s _ (adjusted_ok s (inst_at s r) lo hi off p n _ _ _ Hb Hsel Hoff Hok)).
  rewrite upd_inst_bind, select_midnight. case_bool_decide as Hp; cbn [sm_when]; [|done].
  apply notify_silent. specialize (Hsil Hp). unfold silent in *. fold (put r (select_day (clamp lo hi (moved_day p n (YearFromDay D) (MonthFromDay D) (DateFromDay D))) (inst_at s r)) s).
  by rewrite inst_put, get_put.
Qed.

(** The adjustment of a day that is selected and in range changes nothing. *)
Lemma adjust_fixed s r lo hi D : ready s r lo hi -> selected (inst_at s r) D -> era D -> clamp lo hi D = D ->
  _adjustInstDate r NaN None s = (Ok tt, put r (select_day D (inst_at s r)) s).
Proof.
  intros Hr Hsel HD Hc.
  rewrite (adjust_exact s r lo hi NaN None 0 D); [|apply Hr|done|done|by apply move_selected|by intros [|]].
  by rewrite moved_same, Hc.
Qed.

Lemma clamp_era s r lo hi D : ready s r lo hi -> era D -> era (clamp lo hi D).
Proof.
  intros Hr HD. unfold clamp. pose proof (ready_lo _ _ _ _ Hr) as Hl. pose proof (ready_hi _ _ _ _ Hr) as Hh.
  destruct lo as [l|], hi as [h|]; try specialize (Hl _ eq_refl); try specialize (Hh _ eq_refl);
    repeat (destruct (Z.max_spec l D) as [[_ ->]|[_ ->]] || destruct (Z.min_spec h D) as [[_ ->]|[_ ->]]
            || destruct (Z.min_spec h l) as [[_ ->]|[_ ->]]); done.
Qed.

(** ** Setting a date *)

(** The text of the input for the day [D]. *)
Definition day_text (s : dp) (r : nat) (D : Z) : jstr :=
  dp_formatDate s (_get s (inst_at s r) (@dateFormat)) (Some (midnight D)) (_getFormatConfig s (inst_at s r)).

(** The day that an argument sets. *)
Definition arg_day (s : dp) (lo hi o : option Z) : Z :=
  clamp lo hi (match o with Some D => D | None => match clock s with Some c => local_day c | None => 0 end end).

Lemma adjust_day D : era D -> _daylightSavingAdjust (new_Date (Fin (YearFromDay D)) (Fin (MonthFromDay D)) (Fin (DateFromDay D))) = midnight D.
Proof.
  intros HD. destruct (date_of_fields D) as [_ E]. unfold era in HD. rewrite adjust_new_Date; rewrite ?E; [done|lia|].
  by apply era_range.
Qed.

Lemma format_current s r D : era D -> selected (inst_at s r) D -> selectedDay (inst_at s r) = DayNum (Fin (DateFromDay D)) ->
  _formatDate r FNone s = (Ok (day_text s r D),
    put r (set_current (DayNum (Fin (DateFromDay D))) (Fin (MonthFromDay D)) (Fin (YearFromDay D)) (inst_at s r)) s).
Proof.
  intros HD (Ey & Em & _) Ed. unfold _formatDate. rewrite upd_inst_bind, ask_bind. rewrite Ey, Em, Ed.
  set (i := set_current _ _ _ _). fold (put r i s). rewrite inst_put. unfold ask, sm_get. rewrite inst_put.
  change (currentYear i) with (Fin (YearFromDay D)). change (currentMonth i) with (Fin (MonthFromDay D)).
  change (day_num (currentDay i)) with (Fin (DateFromDay D)).
  by rewrite adjust_day.
Qed.

Lemma determine_arg s r lo hi arg o : ready s r lo hi -> denotes (clock s) arg o ->
  (d ← _determineDate s (inst_at s r) arg (Some (clock s)); _restrictMinMax s (inst_at s r) d)
  = Ok (Some (midnight (arg_day s lo hi o))).
Proof.
  intros Hr Ho. destruct (ready_clock _ _ _ _ Hr) as (c & Hc & Hera). unfold arg_day. rewrite Hc in Ho |- *.
  pose proof (determine_denotes s (inst_at s r) arg o (Some c)) as E. rewrite Hc in E. specialize (E Ho).
  cbn [fmap option_fmap option_map] in E. rewrite E by (intros t [= ->]; by apply era_range).
  cbn [mbind res_bind]. destruct o as [D|]; cbn; apply restrict_ok, Hr.
Qed.

Lemma setDate_exact s r lo hi arg o noChange : ready s r lo hi -> denotes (clock s) arg o -> silent s r ->
  let D := arg_day s lo hi o in era D ->
  _setDate r arg noChange s =
    (Ok tt, put_value (target (inst_at s r)) (if arg_falsy arg then [] else day_text s r D)
              (put r (set_day D (inst_at s r)) s)).
Proof.
  intros Hr Ho Hsil D HD. unfold _setDate. rewrite ask_bind.
  rewrite (ask_res_bind _ _ _ s _ (determine_arg s r lo hi arg o Hr Ho)). fold D. cbn [a_date].
  rewrite sm_lift_bind, upd_inst_bind, select_midnight. destruct (midnight_fields D) as (-> & -> & -> & _).
  fold (set_day D (inst_at s r)). fold (put r (set_day D (inst_at s r)) s). set (s1 := put r (set_day D (inst_at s r)) s).
  assert (inst_at s1 r = set_day D (inst_at s r)) as E1 by apply inst_put.
  assert (ready s1 r lo hi) as Hr1 by (by apply ready_put).
  rewrite ask_bind. rewrite (sm_bind_eq _ _ s1 (Ok tt) s1).
  2: { match goal with |- sm_when ?b _ _ = _ => destruct b end; cbn [sm_when]; [|done]. apply notify_silent. unfold silent in *. by rewrite E1. }
  assert (clamp lo hi D = D) as Hfix by (apply clamp_idem, Hr).
  rewrite (sm_bind_eq _ _ s1 _ _ (adjust_fixed s1 r lo hi D Hr1 ltac:(by rewrite E1) HD Hfix)).
  assert (put r (select_day D (inst_at s1 r)) s1 = s1) as ->.
  { rewrite E1. unfold s1. rewrite put_put. done. }
  destruct (arg_falsy arg).
  - rewrite sm_ret_bind, ask_bind, E1. done.
  - rewrite (sm_bind_eq _ _ s1 _ _ (format_current s1 r D HD ltac:(by rewrite E1) ltac:(by rewrite E1))).
    rewrite ask_bind. assert (put r (set_current (DayNum (Fin (DateFromDay D))) (Fin (MonthFromDay D)) (Fin (YearFromDay D)) (inst_at s1 r)) s1 = s1) as ->.
    { rewrite E1. unfold s1. rewrite put_put. done. }
    rewrite E1. unfold day_text. by rewrite E1.
Qed.
End moves.

(** ** A concrete picker

    A page with one input, whose picker is shown, in a zone whose clocks go forward
    at midnight of the 31st of March 2024; the theorems on the picker are applied
    to it. *)

(** The 31st of March 2024. *)
Definition demo_day : Z := 19813.
Definition picker_zone : TimeZone := spring_zone demo_day.
Definition picker_hours : @HourZone picker_zone := spring_zone_ok demo_day.

(** Handlers that do nothing. *)
Definition picker_page : Page := {|
  unicode_lower := demo_lower;
  text_number := parseInt10;
  call_handler _ _ _ := mret HUndefined;
  trigger _ _ := mret tt;
  animate _ _ _ _ := mret tt
|}.

#[local] Existing Instance picker_zone.
#[local] Existing Instance picker_hours.
#[local] Existing Instance picker_page.

(** The picker of the element 0: the 29th of February 2024 is selected, dates from
    the year 2024 on can be, and it is noon of the 20th of March. *)
Definition picker_settings : opts option := set_minDate (Some (ADate (Some (19723 * msPerDay)))) no_settings.
Definition picker_inst : inst :=
  Inst picker_settings (DayNum (Fin 29)) (Fin 1) (Fin 2024) (Fin 1) (Fin 2024) (DayNum (Fin 29)) (Fin 1) (Fin 2024)
    false 0 None false None empty_div None None.
Definition picker_state : dp :=
  Dp _defaults0 {[0%nat := picker_inst]} 1 {[0%nat := 0%nat]} {[0%nat := Elem KInput true false (str "02/29/2024") None true true true]}
    (Some 0%nat) true [] (Some 0%nat) false empty_div ∅ (Fin 4) None (Some (19802 * msPerDay + 43200000)) [].

Lemma picker_ready : ready picker_state 0 (Some 19723) None.
Proof.
  constructor.
  - by eexists.
  - eexists. split; [reflexivity|]. vm_compute. split; discriminate.
  - split; [|reflexivity]. split; [reflexivity|]. vm_compute. discriminate.
  - discriminate.
  - intros l [= <-]. vm_compute. split; discriminate.
  - discriminate.
  - exists None. reflexivity.
  - vm_compute. reflexivity.
  - exists 0. split; [reflexivity|lia].
  - vm_compute. split; discriminate.
Qed.

Lemma picker_readable D : writable (tz_utc (D * msPerDay)) (tokens (str "mm/dd/yy")) ->
  settings_ok demo_lower (with_defaults (default_names picker_state) (Some (_getFormatConfig picker_state picker_inst)))
  /\ separated (tokens (str "mm/dd/yy")) = true /\ complete (tokens (str "mm/dd/yy")) = true
  /\ writable (tz_utc (D * msPerDay)) (tokens (str "mm/dd/yy")).
Proof.
  intros Hw. split_and!; [|vm_compute; reflexivity..|done].
  split; intros doubled; destruct doubled; (split; [done|]); apply names_okb_sound; vm_compute; reflexivity.
Qed.
