(* ===== verification/DatepickerProps.v ===== *)
(** * What the date picker guarantees

    Properties of the picker as its users see it: the calendar, the date that is
    set and read back, moves, clicks, typed text and disabled elements. *)

From S2P Require Import Prelude JsNum JsDate DateFormat DateFacts DateTokens DateFields DateProps.
From S2P Require Import Datepicker DatepickerHtml DatepickerUi DatepickerApi DatepickerFacts DatepickerCalendar DatepickerMoves.

Section updates.
Context `{HourZone} `{Page}.

(** The handlers of focus events change no date. *)
Definition quiet_focus : Prop := forall X t, sm_runs (shows X) (trigger EFocus t) (fun _ => True).

Lemma runs_upd_div X r f : is_Some (instances X !! r) -> sm_runs (shows X) (upd_div r f) (fun _ => True).
Proof.
  intros Hr s Hs. unfold upd_div. rewrite ask_bind. destruct (inline (inst_at s r)).
  - runs_here Hs. by apply runs_upd_inst.
  - runs_here Hs. apply runs_mod. by intros s' <-.
Qed.

(** Drawing completes and changes no date. *)
Lemma update_runs X r lo hi D s : quiet_focus -> ready X r lo hi -> era D -> selected (inst_at X r) D ->
  shows X s -> drawable (inst_at s r) -> exists s', _updateDatepicker r s = (Ok tt, s') /\ shows X s'.
Proof.
  intros Hq Hr HD Hsel Hs Hdr. pose proof (ready_here _ _ _ _ Hr) as Hhere. unfold _updateDatepicker. rewrite !sm_mod_bind.
  set (s1 := set_instActive _ _). assert (shows X s1 /\ drawable (inst_at s1 r)) as [Hs1 Hd1] by (by rewrite <-Hs).
  clearbody s1. clear Hs Hdr s.
  assert (exists s2, upd_div r (set_d_html []) s1 = (Ok tt, s2) /\ shows X s2 /\ drawable (inst_at s2 r)) as (s2 & E2 & Hs2 & Hd2).
  { destruct (runs_upd_div X r (set_d_html []) Hhere s1 Hs1) as ([] & s2 & E & _ & Hs2). exists s2. split_and!; [done|done|].
    unfold upd_div in E. rewrite ask_bind in E. destruct (inline (inst_at s1 r)).
    - rewrite upd_inst_eq in E. simplify_eq. rewrite inst_put. exact Hd1.
    - unfold sm_mod in E. simplify_eq. exact Hd1. }
  rewrite (sm_bind_eq _ _ s1 _ _ E2).
  destruct (generateHTML_runs X r lo hi Hr D HD Hsel s2 Hs2 Hd2) as (html & s3 & E3 & Hs3).
  rewrite (sm_bind_eq _ _ s2 _ _ E3).
  match goal with |- exists s', ?m s3 = _ /\ _ => enough (sm_runs (shows X) m (fun _ => True)) as R end.
  { destruct (R s3 Hs3) as ([] & s' & E & _ & Hs'). by exists s'. }
  eapply runs_bind; [by apply runs_upd_div|]. intros _ _. eapply runs_bind.
  { unfold _attachHandlers. eapply runs_bind; [apply runs_read|]. intros n _. by apply runs_upd_div. }
  intros _ _. eapply runs_bind; [apply runs_read|]. intros [rows cols] _.
  eapply runs_bind; [by apply runs_upd_div|]. intros _ _. eapply runs_bind; [by apply runs_upd_div|]. intros _ _.
  eapply runs_bind; [apply runs_read|]. intros rtl _. eapply runs_bind; [by apply runs_upd_div|]. intros _ _.
  eapply runs_bind; [apply runs_read|]. intros focus _. eapply runs_bind; [apply runs_read|]. intros i _.
  eapply runs_bind; [apply runs_when, Hq|]. intros _ _. unfold defer_years.
  eapply runs_bind; [apply runs_read|]. intros i' _.
  destruct (yearshtml i') as [[|c y]|]; [by apply runs_ret| |by apply runs_ret]. apply runs_mod. by intros s' <-.
Qed.

(** An update after the day [D] was selected. *)
Lemma update_selected s r lo hi D : quiet_focus -> ready s r lo hi -> era D -> selected (inst_at s r) D -> drawable (inst_at s r) ->
  exists s', _updateDatepicker r s = (Ok tt, s') /\ undrawn s' = undrawn s.
Proof.
  intros Hq Hr HD Hsel Hdr. apply (update_runs (undrawn s) r lo hi D s Hq); try done; [by apply ready_undrawn|].
  by rewrite inst_undrawn.
Qed.

(** ** Setting and getting *)

(** The format of the picker determines the day, and its names can be told apart. *)
Definition readable (s : dp) (r : nat) (D : Z) : Prop :=
  let ts := tokens (_get s (inst_at s r) (@dateFormat)) in
  settings_ok unicode_lower (with_defaults (default_names s) (Some (_getFormatConfig s (inst_at s r))))
  /\ separated ts = true /\ complete ts = true /\ writable (tz_utc (D * msPerDay)) ts.

Lemma read_back s r D : readable s r D -> era D ->
  day_text s r D <> [] /\ exists tm, dp_parseDate s (_get s (inst_at s r) (@dateFormat)) (day_text s r D) (_getFormatConfig s (inst_at s r))
    = Ok (Some (Some tm)) /\ local_day tm = D.
Proof.
  intros (Hn & Hsep & Hc & Hw) HD. unfold day_text, dp_formatDate, dp_parseDate. split.
  - unfold midnight. cbn [formatDate]. rewrite format_loop_tok. by apply complete_text.
  - destruct (parse_formatted_aux unicode_lower (clock s) (default_names s) (Some (_getFormatConfig s (inst_at s r)))
      (_get s (inst_at s r) (@dateFormat)) (tz_utc (D * msPerDay)) Hn Hsep Hc Hw) as (tm & E & Htm).
    exists tm. split; [exact E|]. rewrite Htm. destruct (midnight_at D) as (t & k & [= <-] & Ht & _). by apply at_local_day in Ht.
Qed.

(** The current day of an instance, and its text in the input. *)
Definition current (i : inst) (D : Z) : Prop :=
  currentYear i = Fin (YearFromDay D) /\ currentMonth i = Fin (MonthFromDay D) /\ day_num (currentDay i) = Fin (DateFromDay D).

Lemma getDate_current s i D : era D -> current i D -> input_val s i <> [] -> _getDate s i = Some (midnight D).
Proof.
  intros HD (Ey & Em & Ed) Hv. unfold _getDate. rewrite Ey, Em, Ed, bool_decide_eq_false_2 by done.
  unfold era in HD. cbn [Num.truthy negb orb]. rewrite (proj2 (Z.eqb_neq _ _)) by lia. cbn [negb orb]. by rewrite adjust_day.
Qed.

Lemma getDefault_ok s r lo hi : ready s r lo hi -> exists d, _getDefaultDate s (inst_at s r) = Ok (Some d).
Proof.
  intros Hr. destruct (ready_default _ _ _ _ Hr) as (o & Ho). unfold _getDefaultDate.
  rewrite (determine_arg s r lo hi _ o Hr Ho). by eexists.
Qed.

(** Reading the field when its text is that of the day [D]. *)
Lemma setDateFromField_day s r lo hi D noDefault : ready s r lo hi -> readable s r D -> era D -> clamp lo hi D = D ->
  input_val s (inst_at s r) = day_text s r D -> lastVal (inst_at s r) <> Some (day_text s r D) ->
  exists s', _setDateFromField r noDefault s = (Ok tt, s') /\ current (inst_at s' r) D
    /\ input_val s' (inst_at s' r) = day_text s r D.
Proof.
  intros Hr Hread HD Hc Hval Hlast. destruct (read_back s r D Hread HD) as (Hne & tm & Hparse & Htm).
  destruct (getDefault_ok s r lo hi Hr) as (d & Hd). unfold _setDateFromField. rewrite !ask_bind, Hval.
  rewrite decide_False by done. rewrite upd_inst_bind. set (i1 := set_lastVal _ _). fold (put r i1 s). set (s1 := put r i1 s).
  assert (inst_at s1 r = i1) as E1 by apply inst_put.
  rewrite (ask_res_bind _ _ _ s1 (Some d)) by (rewrite E1; exact Hd).
  rewrite (sm_bind_eq _ _ s1 (Ok (day_text s r D, Some (Some tm))) s1).
  2: { rewrite E1. change (dp_parseDate s1 ?a ?b ?c) with (dp_parseDate s a b c). cbv zeta.
       change (_get s1 i1 (@dateFormat)) with (_get s (inst_at s r) (@dateFormat)).
       change (_getFormatConfig s1 i1) with (_getFormatConfig s (inst_at s r)). by rewrite Hparse. }
  cbn [a_date]. rewrite sm_lift_bind, upd_inst_bind.
  assert (select_date (Some tm) (inst_at s1 r) = select_day D i1) as ->.
  { unfold select_date, select_day. rewrite E1, getFullYear_Some, getMonth_Some, getDate_Some. by rewrite Htm. }
  fold (put r (select_day D i1) s1). rewrite upd_inst_bind, decide_False by done. rewrite inst_put.
  rewrite getFullYear_Some, getMonth_Some, getDate_Some, Htm. set (i2 := set_current _ _ _ _).
  fold (put r i2 (put r (select_day D i1) s1)). unfold s1. rewrite !put_put. set (s2 := put r i2 s).
  assert (inst_at s2 r = i2) as E2 by apply inst_put.
  rewrite (adjust_fixed s2 r lo hi D); [|by apply ready_put|by rewrite E2|done|done].
  eexists. split; [reflexivity|]. rewrite inst_put, E2. split; [done|exact Hval].
Qed.
(** The same settings at the same time. *)
Definition same_settings (s s' : dp) (r : nat) : Prop :=
  clock s' = clock s /\ _defaults s' = _defaults s /\ settings (inst_at s' r) = settings (inst_at s r).

Lemma day_text_ext s s' r D : same_settings s s' r -> day_text s' r D = day_text s r D.
Proof.
  intros (Ec & Ed & Es). unfold day_text, dp_formatDate, default_names, _getFormatConfig, _get. by rewrite Ec, Ed, Es.
Qed.

Lemma readable_ext s s' r D : same_settings s s' r -> readable s r D -> readable s' r D.
Proof.
  intros (Ec & Ed & Es). unfold readable, default_names, _getFormatConfig, _get. by rewrite Ec, Ed, Es.
Qed.

(** What two states with the same dates share. *)
Lemma undrawn_same s s' r : undrawn s' = undrawn s -> is_Some (instances s !! r) ->
  same_settings s s' r /\ is_Some (instances s' !! r) /\ elements s' = elements s /\ data s' = data s
  /\ undrawn_inst (inst_at s' r) = undrawn_inst (inst_at s r).
Proof.
  intros E Hr. assert (undrawn_inst (inst_at s' r) = undrawn_inst (inst_at s r)) as Ei by (rewrite <-!inst_undrawn; by rewrite E).
  unfold same_settings. split_and!.
  - exact (f_equal clock E).
  - exact (f_equal _defaults E).
  - exact (f_equal settings Ei).
  - assert (is_Some ((undrawn_inst <$> instances s) !! r)) as Hs by (rewrite lookup_fmap; destruct Hr as [i ->]; by eexists).
    change (undrawn_inst <$> instances s) with (instances (undrawn s)) in Hs. rewrite <-E in Hs. cbn in Hs.
    rewrite lookup_fmap in Hs. destruct (instances s' !! r); [by eexists|by destruct Hs].
  - exact (f_equal elements E).
  - exact (f_equal data E).
  - done.
Qed.

Lemma updateAlternate_ok r s : exists a, _updateAlternate r s = (Ok tt, set_alternates a s).
Proof.
  unfold _updateAlternate, setting. rewrite ask_bind. case_decide; [|by eexists].
  exists (alternates s). by destruct s.
Qed.

(** The date of an element whose instance has the current day [D]. *)
Lemma getDateDatepicker_ok s t r lo hi D noDefault : data s !! t = Some r -> ready s r lo hi -> readable s r D -> era D ->
  clamp lo hi D = D -> current (inst_at s r) D -> input_val s (inst_at s r) = day_text s r D ->
  exists s', _getDateDatepicker t noDefault s = (Ok (Some (midnight D)), s').
Proof.
  intros Ht Hr Hread HD Hc Hcur Hval. destruct (read_back s r D Hread HD) as [Hne _].
  unfold _getDateDatepicker, _getInst. rewrite sm_get_bind, Ht, ask_bind.
  assert (forall s', current (inst_at s' r) D -> input_val s' (inst_at s' r) = day_text s r D ->
    ask r _getDate s' = (Ok (Some (midnight D)), s')) as Hget.
  { intros s' Hcur' Hval'. unfold ask, sm_get. rewrite (getDate_current s' _ D); [done|done|done|by rewrite Hval']. }
  destruct (inline (inst_at s r)); cbn [negb sm_when].
  - exists s. rewrite sm_ret_bind. by apply Hget.
  - destruct (decide (lastVal (inst_at s r) = Some (day_text s r D))) as [El|Hne'].
    + exists s. rewrite (sm_bind_eq _ _ s (Ok tt) s); [by apply Hget|].
      unfold _setDateFromField. rewrite !ask_bind, Hval. by rewrite decide_True.
    + destruct (setDateFromField_day s r lo hi D noDefault Hr Hread HD Hc Hval Hne') as (s' & E & Hcur' & Hval').
      exists s'. rewrite (sm_bind_eq _ _ s _ _ E). by apply Hget.
Qed.

(** C34: A date that is set is read back: for an attached picker, [setDate] with a date writes
    the day, moved to the nearest bound if it is out of range, to the input in the format of
    the picker, and [getDate] then answers the start of that day, whatever the time of the
    day was; the input is parsed again on the way.  The format determines the day, of a year
    of four digits, and its names can be told apart ([readable]); the settings of the picker
    denote days in order and can be drawn, with years from 300 to 100000 ([ready], [era]);
    there is no [onChangeMonthYear] ([silent]) and the page's handlers of the focus change
    no picker ([quiet_focus]).  The clocks of the time zone change by exactly an hour, and
    local times that are skipped are moved forward ([HourZone]). *)
Theorem setDate_getDate s t r lo hi tm noDefault :
  quiet_focus -> data s !! t = Some r -> target (inst_at s r) = t -> ready s r lo hi -> silent s r ->
  day_in_range (local_day tm) -> let D := clamp lo hi (local_day tm) in era D -> readable s r D ->
  exists s1 s2, fn_datepicker [t] (CmdSetDate (ADate (Some tm))) s = (Ok RSelf, s1)
    /\ value (elem_at s1 t) = day_text s r D
    /\ fn_datepicker [t] (CmdGetDate noDefault) s1 = (Ok (RDate (Some (midnight D))), s2).
Proof.
  intros Hq Ht Htar Hr Hsil Htm D HD Hread. set (i := inst_at s r) in *.
  pose proof (setDate_exact s r lo hi (ADate (Some tm)) (Some (local_day tm)) false Hr) as Eset.
  cbv zeta in Eset. unfold arg_day in Eset. fold D in Eset. specialize (Eset ltac:(done) Hsil HD). cbn [arg_falsy] in Eset.
  fold i in Eset. rewrite Htar in Eset. set (sa := put_value t (day_text s r D) (put r (set_day D i) s)) in *.
  assert (inst_at sa r = set_day D i) as Ea by (by unfold sa; apply inst_put).
  assert (ready sa r lo hi) as Hra by (apply (ready_ext (put r (set_day D i) s)); [done..|by rewrite Ea, inst_put|by cbn; rewrite lookup_insert_eq; eexists|by apply ready_put]).
  destruct (update_selected sa r lo hi D Hq Hra HD) as (sb & Eb & Hub);
    [by rewrite Ea; apply selected_day|by rewrite Ea; apply drawable_day|].
  destruct (undrawn_same sa sb r Hub (ready_here _ _ _ _ Hra)) as (Hsame & Hhere & Hel & Hdat & Hui).
  destruct (updateAlternate_ok r sb) as (alt & Ealt). set (s1 := set_alternates alt sb).
  assert (same_settings s s1 r) as Hss.
  { destruct Hsame as (Hc & Hd & Hs). split_and!; [exact Hc|exact Hd|]. change (inst_at s1 r) with (inst_at sb r). rewrite Hs, Ea. done. }
  assert (value (elem_at s1 t) = day_text s r D) as Hval.
  { change (elem_at s1 t) with (elem_at sb t). unfold elem_at. rewrite Hel. unfold sa. cbn. by rewrite lookup_insert_eq. }
  assert (inst_at s1 r = inst_at sb r) as E1 by done.
  assert (ready s1 r lo hi) as Hr1 by (destruct Hss as (? & ? & ?); by apply (ready_ext s)).
  destruct (getDateDatepicker_ok s1 t r lo hi D noDefault) as (s2 & E2).
  - change (data s1) with (data sb). by rewrite Hdat.
  - done.
  - by apply (readable_ext s).
  - done.
  - by apply clamp_idem, Hr.
  - rewrite E1. rewrite Ea in Hui. unfold current. split_and!.
    + exact (f_equal currentYear Hui).
    + exact (f_equal currentMonth Hui).
    + exact (f_equal (fun j => day_num (currentDay j)) Hui).
  - rewrite E1. rewrite Ea in Hui. unfold input_val. assert (target (inst_at sb r) = t) as -> by (rewrite <-Htar; exact (f_equal target Hui)).
    rewrite Hval. by rewrite (day_text_ext s s1).
  - exists s1, s2. split_and!; [|done|].
    + cbn [fn_datepicker sm_each run_command]. unfold _setDateDatepicker, _getInst.
      rewrite (sm_bind_eq _ _ s (Ok tt) s1); [done|]. rewrite (sm_bind_eq _ _ s (Ok tt) s1); [done|].
      rewrite sm_get_bind, Ht. rewrite (sm_bind_eq _ _ s _ _ Eset), (sm_bind_eq _ _ sa _ _ Eb). exact Ealt.
    + cbn [fn_datepicker]. by rewrite (sm_bind_eq _ _ s1 _ _ E2).
Qed.
(** Drawing ends: for a ready instance whose selected day is in the era, and
    whatever month is drawn, the loop that looks for a month before the maximum
    date ends and [_updateDatepicker] completes without an exception; the new
    content is in the picker's division, and no date, setting, input or data has
    changed. *)
Theorem drawing_completes s r lo hi D : quiet_focus -> ready s r lo hi -> era D -> selected (inst_at s r) D ->
  drawable (inst_at s r) ->
  exists s', _updateDatepicker r s = (Ok tt, s') /\ undrawn s' = undrawn s.
Proof. apply update_selected. Qed.

(** C35: The calendar of a month, for months in the years from 100 to 190000 and any first day
    of the week: the rows are whole weeks that start on that day; the first row is the one
    of the first of the month, the last row the one of its last day; the cells show
    consecutive days; and a cell has the attributes by which a click selects its day, with
    the month and the year of that day, exactly if the day is of the month (or other months
    can be selected), is between the bounds, which are starts of days, and is allowed by
    [beforeShowDay].  This holds across changes of the clocks, in time zones whose clocks
    change by exactly an hour and in which local times that are skipped are moved forward
    ([HourZone]), so not where a whole day was skipped. *)
Theorem calendar_grid g y m fd lo hi : month_ok y m -> 0 <= fd <= 6 -> g_firstDay g = Fin fd -> g_month g = Fin m ->
  g_min g = midnight <$> lo -> g_max g = midnight <$> hi ->
  exists start n, cur_rows (Fin y) (Fin m) (Fin fd) = Fin n
    /\ WeekDay start = fd
    /\ start <= MakeDay y m 1 < start + 7
    /\ start + 7 * (n - 1) < MakeDay y (m + 1) 1 <= start + 7 * n
    /\ month_table g (Fin y) (Fin m) (Fin n) =
         str "<table class='ui-datepicker-calendar'><thead><tr>" ++ day_heads (g_state g) (g_inst g) (Fin fd)
           ++ str "</tr></thead><tbody>"
           ++ concat (List.map (fun w => week_row g (start + 7 * Z.of_nat w)) (seq 0 (Z.to_nat n))) ++ str "</tbody></table>"
    /\ forall D, exists clickable : bool,
         (forall dow, cell g dow (midnight D) =
            str "<td class='" ++ cell_classes g dow (midnight D) ++ str "'" ++ cell_title g (midnight D)
              ++ text_if clickable (str " data-handler='selectDay' data-event='click' data-month='" ++ num_to_str (Fin (MonthFromDay D))
                   ++ str "' data-year='" ++ num_to_str (Fin (YearFromDay D)) ++ str "'")
              ++ str ">" ++ cell_content g (midnight D) ++ str "</td>")
         /\ (clickable = true <-> (MonthFromDay D = m \/ _get (g_state g) (g_inst g) (@selectOtherMonths) = true)
         /\ ds_ok (day_setting g (midnight D)) = true
         /\ (forall l, lo = Some l -> l <= D) /\ (forall h, hi = Some h -> D <= h)).
Proof.
  intros Hok Hfd Hg Hm Hlo Hhi. exists (grid_start y m fd), (grid_size y m fd).
  pose proof (grid_spec y m fd Hfd) as (Hw & Hs & He & Hn). cbv zeta in *. rewrite month_succ. split_and!; try lia.
  - by apply cur_rows_eq.
  - by apply month_table_eq; [| |lia|].
  - intros D. exists (negb (unselectable g (midnight D))). split; [intros dow; apply cell_handler|].
    rewrite negb_true_iff. by apply selectable_iff.
Qed.
End updates.

(** ** A concrete picker *)

#[local] Existing Instance picker_zone.
#[local] Existing Instance picker_hours.
#[local] Existing Instance picker_page.

Lemma demo_quiet_focus : quiet_focus.
Proof. intros X t. by apply runs_ret. Qed.

(** Three in the afternoon of the day on which the clocks went forward. *)
Definition afternoon : Z := demo_day * msPerDay + 50400000.

Example setDate_getDate_witness : exists s1 s2,
  fn_datepicker [0%nat] (CmdSetDate (ADate (Some afternoon))) picker_state = (Ok RSelf, s1)
  /\ value (elem_at s1 0) = str "03/31/2024"
  /\ fn_datepicker [0%nat] (CmdGetDate false) s1 = (Ok (RDate (Some (midnight demo_day))), s2).
Proof.
  destruct (setDate_getDate picker_state 0 0 (Some 19723) None afternoon false) as (s1 & s2 & E1 & Ev & E2).
  - apply demo_quiet_focus.
  - reflexivity.
  - reflexivity.
  - apply picker_ready.
  - reflexivity.
  - vm_compute. discriminate.
  - vm_compute. split; discriminate.
  - apply picker_readable. split; [vm_compute; split; discriminate|]. split; [|intros Hin]; vm_compute in *;
      [intros Hin|]; repeat (apply elem_of_cons in Hin as [Hin|Hin]; [discriminate|]); by apply elem_of_nil in Hin.
  - exists s1, s2. split; [exact E1|]. split; [|exact E2]. rewrite Ev. vm_compute. reflexivity.
Defined.

Example drawing_completes_witness : exists s',
  _updateDatepicker 0 picker_state = (Ok tt, s') /\ undrawn s' = undrawn picker_state.
Proof.
  apply (drawing_completes picker_state 0 (Some 19723) None 19782).
  - apply demo_quiet_focus.
  - apply picker_ready.
  - vm_compute. split; discriminate.
  - vm_compute. split; [reflexivity|split; reflexivity].
  - exists 2024, 1. split; [reflexivity|]. split; [reflexivity|]. lia.
Defined.

(** March 2024 with Monday as the first day, from the 5th on. *)
Definition demo_grid : grid :=
  Grid (midnight 19802) (midnight 19802) (midnight 19802) (midnight 19802) (Some (midnight 19787)) None (Fin 2) (Fin 1)
    picker_state picker_inst.

Example calendar_grid_witness : exists start, WeekDay start = 1
  /\ concat (List.map (fun w => week_row demo_grid (start + 7 * Z.of_nat w)) (seq 0 5)) <> []
  /\ start = 19779 /\ exists a b, cell demo_grid 1 (midnight 19787) = a ++ str " data-handler='selectDay' data-event='click' data-month='2' data-year='2024'>" ++ b.
Proof.
  destruct (calendar_grid demo_grid 2024 2 1 (Some 19787) None) as (start & n & En & Hw & Hs & He & Ht & Hsel).
  - unfold month_ok. lia.
  - lia.
  - reflexivity.
  - reflexivity.
  - reflexivity.
  - reflexivity.
  - assert (start = 19779) as ->.
    { vm_compute in Hs. destruct Hs as [Hs1 Hs2]. revert Hw. unfold WeekDay. intros Hw. change (MakeDay 2024 2 1) with 19783 in *.
      assert (start <= 19783 /\ 19783 < start + 7) by (split; [exact Hs1|exact Hs2]). dlia. }
    exists 19779. split; [exact Hw|]. split; [vm_compute; discriminate|]. split; [reflexivity|].
    destruct (Hsel 19787) as (clickable & Hcell & Hc). rewrite (Hcell 1%nat).
    assert (clickable = true) as ->.
    { apply Hc. split; [left; vm_compute; reflexivity|]. split; [reflexivity|]. split; intros ? [=]; lia. }
    eexists (str "<td class='" ++ cell_classes demo_grid 1 (midnight 19787) ++ str "'" ++ cell_title demo_grid (midnight 19787)), _.
    rewrite <- !app_assoc. vm_compute. reflexivity.
Defined.
