(* ===== verification/DatepickerEvents.v ===== *)
(** * The date picker and the events of its users

    Keys that move the selected day, text that is typed, and elements that are
    disabled. *)

From S2P Require Import Prelude JsNum JsDate DateFormat DateFacts Datepicker DatepickerHtml DatepickerUi DatepickerApi.
From S2P Require Import DatepickerFacts DatepickerCalendar DatepickerMoves DatepickerProps.

Section events.
Context `{HourZone} `{Page}.

(** ** Moves *)

Lemma moved_days n D : moved_day (Some PD) n (YearFromDay D) (MonthFromDay D) (DateFromDay D) = D + n.
Proof.
  destruct (date_of_fields D) as [[Hm Hd] E]. unfold moved_day. rewrite !decide_False, decide_True by done.
  rewrite !Z.add_0_r. rewrite Z.div_small, Z.mod_small, Z.add_0_r by done. rewrite Z.min_l by lia. by rewrite MakeDay_add, E.
Qed.

(** The day that a move leads to, with the position of the current month. *)
Definition target_day (s : dp) (r : nat) (lo hi : option Z) (p : period) (n D : Z) : Z :=
  let pos := match p, _get s (inst_at s r) (@showCurrentAtPos) with PM, Fin pos => pos | _, _ => 0 end in
  clamp lo hi (moved_day (Some p) (n + pos) (YearFromDay D) (MonthFromDay D) (DateFromDay D)).

(** What a move asks of its size. *)
Definition small_move (p : period) (n : Z) : Prop :=
  match p with PM => -700 <= n <= 700 | PD => -10000 <= n <= 10000 | PY => False end.

Lemma adjustDate_ok s t r lo hi p n D : quiet_focus -> data s !! t = Some r -> t ∉ _disabledInputs s ->
  ready s r lo hi -> silent s r -> era D -> selected (inst_at s r) D -> small_move p n ->
  let D' := target_day s r lo hi p n D in era D' ->
  exists s', _adjustDate t (Fin n) (Some p) s = (Ok tt, s')
    /\ undrawn s' = undrawn (put r (select_day D' (inst_at s r)) s).
Proof.
  intros Hq Ht Hoff Hr Hsil HD Hsel Hn D' HD'. unfold _adjustDate, _isDisabledDatepicker. rewrite sm_get_bind.
  rewrite bool_decide_eq_false_2 by done. unfold the_inst, _getInst.
  rewrite (sm_bind_eq _ _ s (Ok r) s) by (rewrite sm_get_bind; by rewrite Ht).
  destruct (ready_pos _ _ _ _ Hr) as (pos & Hpos & Rpos).
  set (k := match p with PM => pos | _ => 0 end).
  rewrite (sm_bind_eq _ _ s (Ok (Fin k)) s).
  2: { unfold k. destruct p; [by rewrite decide_False| |by rewrite decide_False]. rewrite decide_True by done.
       unfold setting, ask, sm_get. by rewrite Hpos. }
  cbn [Num.add]. destruct (date_of_fields D) as [[Hm Hd] _]. pose proof (days_in_month_bounds (YearFromDay D) _ Hm).
  assert (D' = clamp lo hi (moved_day (Some p) (n + k) (YearFromDay D) (MonthFromDay D) (DateFromDay D))) as ED'.
  { unfold D', target_day, k. rewrite Hpos. by destruct p. }
  rewrite (sm_bind_eq _ _ s _ _ (adjust_exact s r lo hi (Fin (n + k)) (Some p) (n + k) D (ready_bounds _ _ _ _ Hr) Hsel
    ltac:(done) ltac:(unfold move_ok, small_move, era, k in *; destruct p; lia) ltac:(done))).
  rewrite <-ED'. set (s1 := put r (select_day D' (inst_at s r)) s).
  assert (inst_at s1 r = select_day D' (inst_at s r)) as E1 by apply inst_put.
  apply (update_selected s1 r lo hi D'); rewrite ?E1; [done|by apply ready_put|done|apply selected_day|by apply drawable_day].
Qed.

(** ** Keys *)

(** The moves of the keys: arrows with the control or command key, page up and
    down. *)
Definition key_move (e : key_event) (rtl : bool) (step big : Z) : option (period * Z) :=
  let months := if ctrlKey e then big else step in
  match keyCode e with
  | 33 => Some (PM, - months)
  | 34 => Some (PM, months)
  | 37 => if (ctrlKey e || metaKey e) && negb (altKey e) then Some (PD, if rtl then 1 else -1) else None
  | 38 => if ctrlKey e || metaKey e then Some (PD, -7) else None
  | 39 => if (ctrlKey e || metaKey e) && negb (altKey e) then Some (PD, if rtl then -1 else 1) else None
  | 40 => if ctrlKey e || metaKey e then Some (PD, 7) else None
  | _ => None
  end.

Lemma key_adjust e rtl step big p n s t r : key_move e rtl step big = Some (p, n) ->
  _get s (inst_at s r) (@stepMonths) = Fin step -> _get s (inst_at s r) (@stepBigMonths) = Fin big ->
  forall s', _adjustDate t (Fin n) (Some p) s = (Ok tt, s') -> key_shown t r e rtl s = (Ok KHandled, s').
Proof.
  unfold key_move, key_shown, key_months. intros Hk Hs Hb s' E.
  assert (forall back, (step0 ← (if ctrlKey e then setting r (@stepBigMonths) else setting r (@stepMonths));
    _adjustDate t (if back : bool then Num.opp step0 else step0) (Some PM)) s
    = _adjustDate t (Fin (if back then - (if ctrlKey e then big else step) else (if ctrlKey e then big else step))) (Some PM) s) as Em.
  { intros back. destruct (ctrlKey e); unfold setting; rewrite ask_bind, ?Hs, ?Hb; by destruct back. }
  destruct (keyCode e) as [|c|c]; try done.
  repeat (destruct c as [c|c|]; try done).
  - destruct ((ctrlKey e || metaKey e) && negb (altKey e)) eqn:Ec; [|done]. apply andb_true_iff in Ec as [-> Ea].
    apply negb_true_iff in Ea as ->. simplify_eq. cbn [sm_when]. rewrite (sm_bind_eq _ _ s _ _ E). by rewrite sm_ret_bind.
  - destruct ((ctrlKey e || metaKey e) && negb (altKey e)) eqn:Ec; [|done]. apply andb_true_iff in Ec as [-> Ea].
    apply negb_true_iff in Ea as ->. simplify_eq. cbn [sm_when]. rewrite (sm_bind_eq _ _ s _ _ E). by rewrite sm_ret_bind.
  - simplify_eq. rewrite (sm_bind_eq _ _ s (Ok tt) s'); [done|]. by rewrite (Em true).
  - destruct (ctrlKey e || metaKey e) eqn:Ec; [|done]. simplify_eq. cbn [sm_when]. by rewrite (sm_bind_eq _ _ s _ _ E).
  - simplify_eq. rewrite (sm_bind_eq _ _ s (Ok tt) s'); [done|]. by rewrite (Em false).
  - destruct (ctrlKey e || metaKey e) eqn:Ec; [|done]. simplify_eq. cbn [sm_when]. by rewrite (sm_bind_eq _ _ s _ _ E).
Qed.
Lemma undrawn_put s r i j : undrawn_inst i = undrawn_inst j -> undrawn (put r i s) = undrawn (put r j s).
Proof. intros E. unfold undrawn, put. cbn [instances set_instances]. by rewrite !fmap_insert, E. Qed.

(** While the picker is shown, the arrow keys with the control or command key
    move the selected day by a day or a week, and page up and page down move it by
    the step in months (the big step with control) to the same day of the month or
    the last one: the new day is the old one moved, cut to the bounds; the key is
    handled, the picker is drawn again and nothing else of the state changes. *)
Theorem keys_move_day s t r e lo hi step big p n D :
  quiet_focus -> data s !! t = Some r -> t ∉ _disabledInputs s -> ready s r lo hi -> silent s r ->
  _datepickerShowing s = true -> era D -> selected (inst_at s r) D ->
  _get s (inst_at s r) (@stepMonths) = Fin step -> _get s (inst_at s r) (@stepBigMonths) = Fin big ->
  key_move e (d_rtl (div_of s (inst_at s r))) step big = Some (p, n) -> small_move p n ->
  let D' := target_day s r lo hi p n D in era D' ->
  exists s', _doKeyDown t e s = (Ok KHandled, s')
    /\ undrawn s' = undrawn (put r (select_day D' (inst_at s r)) s)
    /\ (p = PD -> D' = clamp lo hi (D + n)).
Proof.
  intros Hq Ht Hoff Hr Hsil Hshow HD Hsel Hstep Hbig Hkey Hn D' HD'. set (i := inst_at s r) in *.
  set (s1 := put r (set_keyEvent true i) s). assert (inst_at s1 r = set_keyEvent true i) as E1 by apply inst_put.
  destruct (adjustDate_ok s1 t r lo hi p n D Hq Ht Hoff) as (s' & E & Hu); try done.
  - by apply ready_put.
  - unfold silent. by rewrite E1.
  - by rewrite E1.
  - unfold target_day. by rewrite E1.
  - exists s'. split_and!.
    + unfold _doKeyDown, the_inst, _getInst. rewrite (sm_bind_eq _ _ s (Ok r) s) by (rewrite sm_get_bind; by rewrite Ht).
      rewrite ask_bind, upd_inst_bind, sm_get_bind. cbn [_datepickerShowing set_instances]. rewrite Hshow.
      apply (key_adjust e _ step big p n s1 t r); [done|by rewrite E1|by rewrite E1|done].
    + rewrite Hu. assert (target_day s1 r lo hi p n D = D') as -> by (unfold target_day; by rewrite E1).
      rewrite E1. unfold s1. rewrite put_put. by apply undrawn_put.
    + intros ->. unfold D', target_day. rewrite moved_days. by rewrite Z.add_0_r.
Qed.

(** ** Disabled elements *)

(** An element that was disabled stays as it is: after [disable] on an element
    with a picker, moves, clicks on days and attempts to show the picker change
    nothing at all, until [enable]; the other elements keep their state, and no
    element is listed twice. *)
Theorem disabled_inert s t : marked (elem_at s t) = true -> NoDup (_disabledInputs s) ->
  exists s1 s2, fn_datepicker [t] CmdDisable s = (Ok RSelf, s1)
    /\ NoDup (_disabledInputs s1)
    /\ (forall t', t' ∈ _disabledInputs s1 <-> t' = t \/ t' ∈ _disabledInputs s)
    /\ (forall offset p, _adjustDate t offset p s1 = (Ok tt, s1))
    /\ (forall month year c, _selectDay t month year c s1 = (Ok tt, s1))
    /\ _showDatepicker t s1 = (Ok tt, s1)
    /\ fn_datepicker [t] CmdEnable s1 = (Ok RSelf, s2)
    /\ (forall t', t' ∈ _disabledInputs s2 <-> t' <> t /\ t' ∈ _disabledInputs s).
Proof.
  intros Hm Hnd. set (rest := List.filter (fun v => negb (v =? t)%nat) (_disabledInputs s)).
  assert (forall t', t' ∈ rest <-> t' <> t /\ t' ∈ _disabledInputs s) as Hrest.
  { intros t'. unfold rest. rewrite !list_elem_of_In, filter_In, negb_true_iff, Nat.eqb_neq. tauto. }
  assert (NoDup rest) as Hnd' by (unfold rest; apply NoDup_ListNoDup, List.NoDup_filter; by apply NoDup_ListNoDup).
  assert (exists e, set_disabled_property t true s = (Ok tt, set_elements e s) /\ marked (default elem0 (e !! t)) = true) as (e1 & E1 & Hm1).
  { unfold set_disabled_property. rewrite sm_get_bind. destruct (nodeName (elem_at s t));
      try (exists (elements s); by destruct s). eexists. split; [reflexivity|]. by rewrite lookup_insert_eq. }
  set (s1 := set_disabledInputs (rest ++ [t]) (set_elements e1 s)).
  assert (t ∈ _disabledInputs s1) as Hin by (apply elem_of_app; right; by left).
  assert (exists e, set_disabled_property t false s1 = (Ok tt, set_elements e s1)) as (e2 & E2).
  { unfold set_disabled_property. rewrite sm_get_bind. destruct (nodeName (elem_at s1 t)); by eexists. }
  exists s1, (set_disabledInputs rest (set_elements e2 s1)). split_and!.
  - cbn [fn_datepicker sm_each run_command]. unfold _disableDatepicker.
    rewrite (sm_bind_eq _ _ s (Ok tt) s1); [done|]. rewrite (sm_bind_eq _ _ s (Ok tt) s1); [done|].
    rewrite sm_get_bind, Hm. cbn [negb]. rewrite (sm_bind_eq _ _ s _ _ E1). done.
  - apply NoDup_app. split_and!; [done| |by apply NoDup_singleton].
    intros x Hx Hx'. apply list_elem_of_singleton in Hx'. apply Hrest in Hx. tauto.
  - intros t'. cbn [_disabledInputs s1 set_disabledInputs]. unfold s1. cbn [_disabledInputs set_disabledInputs].
    rewrite elem_of_app, Hrest, list_elem_of_singleton. destruct (decide (t' = t)); tauto.
  - intros offset p. unfold _adjustDate, _isDisabledDatepicker. rewrite sm_get_bind. by rewrite bool_decide_eq_true_2.
  - intros month year c. unfold _selectDay, _isDisabledDatepicker. rewrite sm_get_bind. by rewrite bool_decide_eq_true_2, orb_true_r.
  - unfold _showDatepicker, _isDisabledDatepicker. rewrite !sm_get_bind. by rewrite bool_decide_eq_true_2.
  - cbn [fn_datepicker sm_each run_command]. unfold _enableDatepicker.
    rewrite (sm_bind_eq _ _ s1 (Ok tt) (set_disabledInputs rest (set_elements e2 s1))); [done|].
    rewrite (sm_bind_eq _ _ s1 (Ok tt) (set_disabledInputs rest (set_elements e2 s1))); [done|].
    rewrite sm_get_bind. change (marked (elem_at s1 t)) with (marked (default elem0 (e1 !! t))). rewrite Hm1. cbn [negb].
    rewrite (sm_bind_eq _ _ s1 _ _ E2). unfold sm_mod. do 2 f_equal. unfold delete_entry. cbn [_disabledInputs set_elements].
    unfold s1 at 1. cbn [_disabledInputs set_disabledInputs]. rewrite List.filter_app. cbn [List.filter]. rewrite Nat.eqb_refl. cbn [negb].
    rewrite app_nil_r. f_equal. unfold rest. clear. induction (_disabledInputs s) as [|x l IH]; [done|]. cbn [List.filter].
    destruct (negb (x =? t)%nat) eqn:E; [|done]. cbn [List.filter]. by rewrite E, IH.
  - intros t'. apply Hrest.
Qed.

(** ** Text that is typed *)

(** Text that is no date: when the text of the input has changed and cannot be
    parsed, no exception escapes; the default date, moved to the bounds, is
    selected, and it becomes the current date too unless the text is ignored, in
    which case there is no current date. *)
Theorem field_fallback s r lo hi o noDefault e : ready s r lo hi -> denotes (clock s) (_get s (inst_at s r) (@defaultDate)) o ->
  let i := inst_at s r in let v := input_val s i in
  lastVal i <> Some v -> v <> [] ->
  dp_parseDate s (_get s i (@dateFormat)) v (_getFormatConfig s i) = Throw e ->
  let D := arg_day s lo hi o in era D ->
  _setDateFromField r noDefault s =
    (Ok tt, put r (set_lastVal (Some v)
              (if noDefault then select_day D (set_current (DayNum (Fin 0)) (Fin 0) (Fin 0) i) else set_day D i)) s).
Proof.
  intros Hr Ho i v Hlast Hv Hparse D HD. unfold _setDateFromField. rewrite !ask_bind. fold i v. rewrite decide_False by done.
  rewrite upd_inst_bind. fold i. set (i1 := set_lastVal (Some v) i). fold (put r i1 s). set (s1 := put r i1 s).
  assert (inst_at s1 r = i1) as E1 by apply inst_put.
  assert (ready s1 r lo hi) as Hr1 by (by apply ready_put).
  rewrite (ask_res_bind _ _ _ s1 (Some (midnight D))).
  2: { unfold _getDefaultDate. apply (determine_arg s1 r lo hi _ o Hr1). rewrite E1. exact Ho. }
  rewrite (sm_bind_eq _ _ s1 (Ok (if noDefault then [] else v, Some (midnight D))) s1).
  2: { rewrite E1. change (dp_parseDate s1 ?a ?b ?c) with (dp_parseDate s a b c). cbv zeta.
       change (_get s1 i1 (@dateFormat)) with (_get s i (@dateFormat)).
       change (_getFormatConfig s1 i1) with (_getFormatConfig s i). by rewrite Hparse. }
  cbn [a_date]. rewrite sm_lift_bind, upd_inst_bind, select_midnight, E1. fold (put r (select_day D i1) s1).
  rewrite upd_inst_bind, inst_put. destruct (midnight_fields D) as (-> & -> & -> & _).
  assert (clamp lo hi D = D) as Hfix by (apply clamp_idem, Hr).
  destruct noDefault.
  - rewrite decide_True by done. set (i2 := set_current _ _ _ _). fold (put r i2 (put r (select_day D i1) s1)). unfold s1.
    rewrite !put_put. rewrite (adjust_fixed (put r i2 s) r lo hi D); [|by apply ready_put|by rewrite inst_put|done|done].
    rewrite inst_put, put_put. done.
  - rewrite decide_False by done. set (i2 := set_current _ _ _ _). fold (put r i2 (put r (select_day D i1) s1)). unfold s1.
    rewrite !put_put. rewrite (adjust_fixed (put r i2 s) r lo hi D); [|by apply ready_put|by rewrite inst_put|done|done].
    rewrite inst_put, put_put. done.
Qed.
End events.

(** ** The picker of the demonstration *)

#[local] Existing Instance picker_zone.
#[local] Existing Instance picker_hours.
#[local] Existing Instance picker_page.

(** Page down on the 29th of February 2024 goes to the 29th of March; command and up
    to the 22nd of February. *)
Example keys_move_day_witness :
  (exists s', _doKeyDown 0 (KeyEvent 34 false false false None) picker_state = (Ok KHandled, s')
    /\ undrawn s' = undrawn (put 0 (select_day 19811 picker_inst) picker_state))
  /\ exists s', _doKeyDown 0 (KeyEvent 38 false true false None) picker_state = (Ok KHandled, s')
    /\ undrawn s' = undrawn (put 0 (select_day 19775 picker_inst) picker_state).
Proof.
  split.
  - destruct (keys_move_day picker_state 0 0 (KeyEvent 34 false false false None) (Some 19723) None 1 12 PM 1 19782)
      as (s' & E & Hu & _).
    + apply demo_quiet_focus.
    + reflexivity.
    + apply not_elem_of_nil.
    + apply picker_ready.
    + reflexivity.
    + reflexivity.
    + vm_compute. split; discriminate.
    + vm_compute. split; [reflexivity|split; reflexivity].
    + reflexivity.
    + reflexivity.
    + reflexivity.
    + vm_compute. split; discriminate.
    + vm_compute. split; discriminate.
    + exists s'. split; [exact E|exact Hu].
  - destruct (keys_move_day picker_state 0 0 (KeyEvent 38 false true false None) (Some 19723) None 1 12 PD (-7) 19782)
      as (s' & E & Hu & _).
    + apply demo_quiet_focus.
    + reflexivity.
    + apply not_elem_of_nil.
    + apply picker_ready.
    + reflexivity.
    + reflexivity.
    + vm_compute. split; discriminate.
    + vm_compute. split; [reflexivity|split; reflexivity].
    + reflexivity.
    + reflexivity.
    + reflexivity.
    + vm_compute. split; discriminate.
    + vm_compute. split; discriminate.
    + exists s'. split; [exact E|exact Hu].
Defined.

Example disabled_inert_witness : exists s1 s2,
  fn_datepicker [0%nat] CmdDisable picker_state = (Ok RSelf, s1) /\ _showDatepicker 0 s1 = (Ok tt, s1)
  /\ fn_datepicker [0%nat] CmdEnable s1 = (Ok RSelf, s2).
Proof.
  destruct (disabled_inert picker_state 0) as (s1 & s2 & E1 & _ & _ & _ & _ & E2 & E3 & _).
  - reflexivity.
  - constructor.
  - exists s1, s2. split; [exact E1|]. split; [exact E2|exact E3].
Defined.

(** The picker with a text that is no date. *)
Definition typo_state : dp := put_value 0 (str "31/12/2024") picker_state.

Example field_fallback_witness : exists s',
  _setDateFromField 0 false typo_state = (Ok tt, s')
  /\ selected (inst_at s' 0) 19802 /\ lastVal (inst_at s' 0) = Some (str "31/12/2024").
Proof.
  eexists. split.
  - apply (field_fallback typo_state 0 (Some 19723) None None false (str "Invalid date")).
    + apply (ready_ext picker_state); [reflexivity|reflexivity|reflexivity|by eexists|apply picker_ready].
    + reflexivity.
    + discriminate.
    + discriminate.
    + vm_compute. reflexivity.
    + vm_compute. split; discriminate.
  - split; [|reflexivity]. vm_compute. split; [reflexivity|split; reflexivity].
Defined.
