(* ===== verification/DatepickerOffsets.v ===== *)
(** * Relative dates of the picker

    Settings such as [+1m -7d] denote a date relative to today: the text is taken
    apart by a regular expression, and each part moves the date. *)

From S2P Require Import Prelude JsNum JsDate DateFormat DateFacts DateTokens Datepicker DatepickerHtml DatepickerFacts DatepickerCalendar DatepickerMoves.

(** A part of a relative date: a number with its sign, and a unit. *)
Definition offset_text (p : Z * N) : jstr :=
  (if p.1 <? 0 then chr "-" else chr "+") :: N_to_str (Z.to_N (Z.abs p.1)) ++ [p.2; chr " "].

Definition offsets_text (l : list (Z * N)) : jstr := concat (List.map offset_text l).

Definition is_unit (u : N) : Prop := u ∈ str "dDwWmMyY".

(** What a part does to a year, a month and a day. *)
Definition relative_step (ymd : Z * Z * Z) (p : Z * N) : Z * Z * Z :=
  let '(y, m, d) := ymd in
  let '(n, u) := p in
  let clip y m := Z.min d (days_in_month (y + m / 12) (m mod 12)) in
  if bool_decide (u ∈ str "dD") then (y, m, d + n)
  else if bool_decide (u ∈ str "wW") then (y, m, d + 7 * n)
  else if bool_decide (u ∈ str "mM") then (y, m + n, clip y (m + n))
  else (y + n, m, clip (y + n) m).

Definition relative (l : list (Z * N)) (ymd : Z * Z * Z) : Z * Z * Z := fold_left relative_step l ymd.

(** The size of a relative date. *)
Definition total_size (l : list (Z * N)) : Z := fold_right (fun p a => Z.abs p.1 + a) 0 l.

Definition fin3 (ymd : Z * Z * Z) : num * num * num := let '(y, m, d) := ymd in (Fin y, Fin m, Fin d).

Lemma unit_not_digit u : is_unit u -> is_digit u = false /\ is_space u = false.
Proof.
  unfold is_unit. intros Hu. unfold str in Hu. cbn in Hu.
  repeat (apply elem_of_cons in Hu as [->|Hu]; [by split|]). by apply elem_of_nil in Hu.
Qed.

Lemma match_offset n u rest : is_unit u ->
  pattern_exec (offset_text (n, u) ++ rest)
  = Some ((if n <? 0 then chr "-" else chr "+") :: N_to_str (Z.to_N (Z.abs n)), Some u, chr " " :: rest).
Proof.
  intros Hu. destruct (unit_not_digit u Hu) as [Hd Hs]. unfold offset_text. cbn [fst snd].
  set (sg := if n <? 0 then chr "-" else chr "+"). set (ds := N_to_str _).
  cbn [pattern_exec app]. unfold match_number.
  assert (((sg =? chr "+")%N || (sg =? chr "-")%N) = true) as -> by (unfold sg; by destruct (n <? 0)).
  rewrite <-app_assoc, digits_prefix_app by (apply N_to_str_digits || by cbn; rewrite Hd).
  destruct ds as [|c ds'] eqn:Eds; [by apply N_to_str_nonempty in Eds|]. rewrite <-Eds. cbn [app].
  rewrite drop_app_length. unfold match_unit. cbn [drop_space]. rewrite Hs. rewrite bool_decide_eq_true_2 by done. done.
Qed.

Lemma skip_space s : pattern_exec (chr " " :: s) = pattern_exec s.
Proof. done. Qed.

Lemma parse_offset n : parseInt10 ((if n <? 0 then chr "-" else chr "+") :: N_to_str (Z.to_N (Z.abs n))) = Fin n.
Proof.
  unfold parseInt10. assert (forall b : bool, drop_space ((if b then chr "-" else chr "+") :: N_to_str (Z.to_N (Z.abs n)))
    = (if b then chr "-" else chr "+") :: N_to_str (Z.to_N (Z.abs n))) as -> by (by intros []).
  assert (digits_prefix is_digit (N_to_str (Z.to_N (Z.abs n))) = N_to_str (Z.to_N (Z.abs n))) as E.
  { rewrite <-(app_nil_r (N_to_str _)) at 1. apply digits_prefix_app; [apply N_to_str_digits|done]. }
  destruct (N_to_str (Z.to_N (Z.abs n))) as [|c ds] eqn:Eds; [by apply N_to_str_nonempty in Eds|].
  destruct (n <? 0) eqn:En; bool_hyps; cbn [sign]; [change (chr "-" =? chr "-")%N with true|
    change (chr "+" =? chr "-")%N with false; change (chr "+" =? chr "+")%N with true]; cbv iota;
    rewrite E, <-Eds, parse_N_to_str; f_equal; lia.
Qed.

Section offsets.
Context `{HourZone} `{Page}.

(** The numbers that a relative date of size [k] can reach from today. *)
Definition in_reach (k : Z) (ymd : Z * Z * Z) : Prop :=
  let '(y, m, d) := ymd in 1000 - k <= y <= 90000 + k /\ - k <= m <= 11 + k /\ -400 - 7 * k <= d <= 31 + 7 * k.

Lemma offset_step_eq k n u ymd : is_unit u -> in_reach k ymd -> 0 <= k -> k + Z.abs n <= 500 ->
  offset_step (Fin n) u (fin3 ymd) = fin3 (relative_step ymd (n, u)) /\ in_reach (k + Z.abs n) (relative_step ymd (n, u)).
Proof.
  intros Hu Hr Hk Hn. destruct ymd as [[y m] d]. unfold in_reach in Hr. unfold offset_step, relative_step, fin3.
  assert (forall y' m', 400 <= y' <= 91000 -> -600 <= m' <= 600 ->
    Num.min (Fin d) (_getDaysInMonth (Fin y') (Fin m')) = Fin (Z.min d (days_in_month (y' + m' / 12) (m' mod 12)))
    /\ 28 <= days_in_month (y' + m' / 12) (m' mod 12) <= 31) as Hmin.
  { intros y' m' Hy' Hm'. rewrite getDaysInMonth_eq by lia. split; [|by apply days_in_month_bounds, Z.mod_pos_bound].
    set (dim := days_in_month _ _). unfold Num.min. cbn [Num.lt]. destruct (dim <? d) eqn:E; bool_hyps; f_equal; lia. }
  destruct (bool_decide (u ∈ str "dD")); [|destruct (bool_decide (u ∈ str "wW")); [|destruct (bool_decide (u ∈ str "mM"))]];
    cbn [Num.add Num.mul].
  - split; [done|]. unfold in_reach. lia.
  - split; [by rewrite Z.mul_comm|]. unfold in_reach. lia.
  - destruct (Hmin y (m + n)) as [-> ?]; [lia|lia|]. split; [done|]. unfold in_reach. lia.
  - destruct (Hmin (y + n) m) as [-> ?]; [lia|lia|]. split; [done|]. unfold in_reach. lia.
Qed.

Lemma offset_loop_eq fuel l k ymd : Forall (fun p => is_unit p.2) l -> (length l < fuel)%nat -> in_reach k ymd -> 0 <= k ->
  k + total_size l <= 500 ->
  (forall sp, sp = [] \/ sp = [chr " "] -> offset_loop fuel (sp ++ offsets_text l) (fin3 ymd) = fin3 (relative l ymd))
  /\ in_reach (k + total_size l) (relative l ymd).
Proof.
  intros Hu. revert fuel k ymd. induction Hu as [|[n u] l Hnu Hu IH]; intros fuel k ymd Hf Hr Hk Ht.
  - split; [|by rewrite Z.add_0_r]. intros sp [->| ->]; destruct fuel; done.
  - cbn [total_size fold_right fst] in Ht. fold (total_size l) in Ht. cbn in Hnu, Hf.
    assert (0 <= total_size l) by (clear; unfold total_size; induction l; cbn; lia).
    destruct fuel as [|fuel]; [lia|]. destruct (offset_step_eq k n u ymd Hnu Hr Hk ltac:(lia)) as [Estep Hr'].
    destruct (IH fuel (k + Z.abs n) (relative_step ymd (n, u))) as [Eloop Hend]; [lia|done|lia|lia|].
    split.
    + intros sp Hsp.
      assert (pattern_exec (sp ++ offsets_text ((n, u) :: l)) = pattern_exec (offset_text (n, u) ++ offsets_text l)) as E
        by (by destruct Hsp as [->| ->]).
      cbn [offset_loop]. rewrite E, match_offset by done. rewrite parse_offset. change (default (chr "d") (Some u)) with u.
      rewrite Estep. apply (Eloop [chr " "]). by right.
    + cbn [total_size fold_right fst]. fold (total_size l). rewrite Z.add_assoc. exact Hend.
Qed.

(** C37: A relative date means what its parts say: for a setting such as [+1m -7d] that is no
    date in the format of the picker, the date is today moved by the parts in order, where
    moving by months or years goes to the same day of the month or to its last one, and
    moving by days or weeks crosses months; the result is the start of a day.  The setting
    is a sequence of parts, each a sign, digits, a letter of [dwmy] in either case and a
    space ([offsets_text]), whose numbers add up to at most 500, and today is in the years
    1000 to 90000.  The clocks of the time zone change by exactly an hour, and local times
    that are skipped are moved forward ([HourZone]). *)
Theorem relative_date s i l c e dflt y m d :
  Forall (fun p => is_unit p.2) l -> l <> [] -> total_size l <= 500 ->
  clock s = Some c -> 1000 <= YearFromDay (local_day c) <= 90000 ->
  dp_parseDate s (_get s i (@dateFormat)) (offsets_text l) (_getFormatConfig s i) = Throw e ->
  relative l (YearFromDay (local_day c), MonthFromDay (local_day c), DateFromDay (local_day c)) = (y, m, d) ->
  _determineDate s i (AText (offsets_text l)) dflt = Ok (Some (midnight (MakeDay y m d))).
Proof.
  intros Hu Hl Ht Hc Hy Hparse Hrel. set (D := local_day c) in *. destruct (date_of_fields D) as [[Hm Hd] _].
  pose proof (days_in_month_bounds (YearFromDay D) _ Hm).
  assert (exists ch s', offsets_text l = ch :: s' /\ (ch = chr "+" \/ ch = chr "-")) as (ch & s' & Etext & Hch).
  { destruct l as [|[n u] l]; [done|]. unfold offsets_text. cbn. eexists _, _. split; [reflexivity|]. destruct (n <? 0); auto. }
  assert (length l < length (offsets_text l))%nat as Hfuel'.
  { clear - Hl. assert (forall l, length l <= length (offsets_text l))%nat as Hle.
    { clear. unfold offsets_text. induction l as [|p l IH]; cbn; [lia|]. rewrite length_app. lia. }
    destruct l as [|p l]; [done|]. specialize (Hle l). unfold offsets_text in *. cbn. rewrite !length_app. cbn. lia. }
  destruct (offset_loop_eq (length (offsets_text l)) l 0 (YearFromDay D, MonthFromDay D, DateFromDay D) Hu Hfuel')
    as [Eloop Hr]; [unfold in_reach; lia|done|lia|].
  specialize (Eloop [] (or_introl eq_refl)). cbn [app] in Eloop.
  rewrite Hrel in Eloop, Hr. unfold _determineDate. rewrite Etext. rewrite <-Etext.
  assert (offsetString s i (offsets_text l) = Ok (Some (new_Date (Fin y) (Fin m) (Fin d)))) as ->.
  { unfold offsetString. rewrite Hparse. rewrite bool_decide_eq_false_2.
    2: { rewrite Etext. by destruct Hch as [->| ->]. }
    rewrite Hc, getFullYear_Some, getMonth_Some, getDate_Some. fold D. cbn [fin3] in Eloop. by rewrite Eloop. }
  cbn [mbind res_bind]. unfold in_reach in Hr.
  assert (day_in_range (MakeDay y m d)) as Hrange by (apply MakeDay_range; lia).
  rewrite new_Date_Some by (rewrite MakeFullYear_id by lia; done). rewrite MakeFullYear_id by lia.
  fold (midnight (MakeDay y m d)). destruct (midnight_at (MakeDay y m d)) as (t & k & Emid & Hat & _). rewrite Emid at 1.
  cbn [start_of_day]. apply at_local_day in Hat. rewrite clear_time by (by rewrite Hat). by rewrite Hat.
Qed.
End offsets.

(** ** A relative date *)

#[local] Existing Instance picker_zone.
#[local] Existing Instance picker_hours.
#[local] Existing Instance picker_page.

(** Ten days and a month after the 20th of March 2024, that is the 30th of April. *)
Example relative_date_witness :
  offsets_text [(10, chr "d"); (1, chr "M")] = str "+10d +1M "
  /\ _determineDate picker_state picker_inst (AText (offsets_text [(10, chr "d"); (1, chr "M")])) None
     = Ok (Some (midnight (MakeDay 2024 3 30))).
Proof.
  split; [vm_compute; reflexivity|].
  apply (relative_date picker_state picker_inst [(10, chr "d"); (1, chr "M")] (19802 * msPerDay + 43200000)
    (str "Missing number at position 0") None 2024 3 30).
  - repeat constructor; apply (bool_decide_unpack _); vm_compute; exact I.
  - discriminate.
  - vm_compute. discriminate.
  - reflexivity.
  - vm_compute. split; discriminate.
  - vm_compute. reflexivity.
  - vm_compute. reflexivity.
Defined.
