(* ===== verification/DatepickerClicks.v ===== *)
(** * A click on a day

    From the cell of the calendar to the text of the input, and back to the date. *)

From S2P Require Import Prelude JsNum JsDate DateFormat DateFacts DateTokens DateFields DateProps Datepicker DatepickerHtml DatepickerUi DatepickerApi.
From S2P Require Import DatepickerFacts DatepickerCalendar DatepickerMoves DatepickerProps.

(** The state without what drawing, showing and hiding change, and without the
    alternate fields. *)
Definition calm `{Page} (st : dp) : dp :=
  set_alternates ∅ (set_lastInput None (set_datepickerShowing false (set_inDialog false (undrawn st)))).

Section clicks.
Context `{HourZone} `{Page}.

(** Events and animations change no date. *)
Definition quiet_page : Prop :=
  (forall X e t, sm_runs (fun s => calm s = X) (trigger e t) (fun _ => True))
  /\ (forall X b a d r, sm_runs (fun s => calm s = X) (animate b a d r) (fun _ => True)).

Lemma calm_undrawn s s' : undrawn s' = undrawn s -> calm s' = calm s.
Proof. intros E. unfold calm. by rewrite E. Qed.

(** What two states share that differ in what is shown. *)
Lemma calm_same s s' r : calm s' = calm s -> is_Some (instances s !! r) ->
  same_settings s s' r /\ is_Some (instances s' !! r) /\ elements s' = elements s /\ data s' = data s
  /\ undrawn_inst (inst_at s' r) = undrawn_inst (inst_at s r) /\ _curInst s' = _curInst s.
Proof.
  intros E Hr. set (q s := set_alternates ∅ (set_lastInput None (set_datepickerShowing false (set_inDialog false s)))).
  assert (undrawn (q s') = undrawn (q s)) as E' by exact E.
  destruct (undrawn_same (q s) (q s') r E' Hr) as (Hs & Hh & He & Hd & Hi). split_and!; try done.
  exact (f_equal _curInst E).
Qed.

Lemma runs_calm_div X r f : is_Some (instances X !! r) -> sm_runs (fun s => calm s = X) (upd_div r f) (fun _ => True).
Proof.
  intros Hr s Hs.
  assert (is_Some (instances s !! r)) as Hr'.
  { rewrite <-Hs in Hr. cbn in Hr. rewrite lookup_fmap in Hr. destruct (instances s !! r); [by eexists|by destruct Hr]. }
  destruct (runs_upd_div (undrawn s) r f (ready_here_undrawn s r Hr') s eq_refl) as (a & s' & E & Ha & Hs').
  exists a, s'. split_and!; [done|done|]. rewrite <-Hs. by apply calm_undrawn.
Qed.

(** Hiding completes, without a handler for it. *)
Lemma hide_runs s r : quiet_page -> is_Some (instances s !! r) -> (forall c, _curInst s = Some c -> is_Some (instances s !! c)
    /\ _get s (inst_at s c) (@onClose) = None) ->
  exists s', _hideDatepicker None s = (Ok tt, s') /\ calm s' = calm s /\ (is_Some (_curInst s) -> _datepickerShowing s' = false).
Proof.
  intros [_ Hanim] Hr Hcur. unfold _hideDatepicker. rewrite sm_get_bind. destruct (_curInst s) as [c|] eqn:Ec; [|exists s; split_and!; [done|done|by intros []]].
  destruct (Hcur c eq_refl) as [Hc Hclose]. rewrite !sm_get_bind. destruct (_datepickerShowing s) eqn:Eshow; [|by exists s].
  cbn [negb orb]. unfold setting. rewrite !ask_bind.
  destruct (Hanim (calm s) false (_get s (inst_at s c) (@showAnim)) (_get s (inst_at s c) (@duration)) c s eq_refl) as (a & s1 & E1 & _ & C1).
  rewrite (sm_bind_eq _ _ s _ _ E1).
  destruct (calm_same s s1 c C1 Hc) as (_ & Hc1 & _).
  assert (is_Some (instances (calm s) !! c)) as Hcc by exact (ready_here_undrawn s c Hc).
  pose proof (runs_calm_div (calm s) c (set_d_shown false) Hcc s1 C1) as (b & s2 & E2 & _ & C2). rewrite (sm_bind_eq _ _ s1 _ _ E2).
  assert (exists s3, sm_when (bool_decide (_get s (inst_at s c) (@showAnim) = [])) (_tidyDialog c) s2 = (Ok tt, s3) /\ calm s3 = calm s) as (s3 & E3 & C3).
  { case_bool_decide; cbn [sm_when]; [|by exists s2].
    pose proof (runs_calm_div (calm s) c (set_d_dialog false) Hcc s2 C2) as ([] & s3 & E3 & _ & C3). by exists s3. }
  rewrite (sm_bind_eq _ _ s2 _ _ E3). rewrite sm_mod_bind.
  set (s4 := set_datepickerShowing false s3). assert (calm s4 = calm s) as C4 by exact C3.
  destruct (calm_same s s4 c C4 Hc) as ((_ & Hd & Hs) & _).
  rewrite ask_bind. assert (_get s4 (inst_at s4 c) (@onClose) = None) as ->.
  { rewrite <-Hclose. unfold _get. by rewrite Hs, Hd. }
  rewrite sm_ret_bind, sm_mod_bind. eexists. split_and!; [reflexivity|exact C4|done].
Qed.
Lemma selectDate_runs s t r : quiet_page -> data s !! t = Some r -> is_Some (instances s !! r) -> inline (inst_at s r) = false ->
  _curInst s = Some r -> _get s (inst_at s r) (@onSelect) = None -> _get s (inst_at s r) (@onClose) = None ->
  forall text, exists s', _selectDate t (Some text) s = (Ok tt, s') /\ calm s' = calm (put_value (target (inst_at s r)) text s)
    /\ _datepickerShowing s' = false.
Proof.
  intros Hq Ht Hr Hin Hcur Hsel Hclose text. unfold _selectDate, the_inst, _getInst.
  rewrite (sm_bind_eq _ _ s (Ok r) s) by (rewrite sm_get_bind; by rewrite Ht).
  rewrite sm_ret_bind, ask_bind. rewrite (sm_bind_eq _ _ s (Ok tt) (put_value (target (inst_at s r)) text s)) by done.
  set (s1 := put_value _ text s). destruct (updateAlternate_ok r s1) as (alt & E1). rewrite (sm_bind_eq _ _ s1 _ _ E1).
  set (s2 := set_alternates alt s1). assert (calm s2 = calm s1) as C2 by done. unfold setting. rewrite ask_bind.
  change (_get s2 (inst_at s2 r) (@onSelect)) with (_get s (inst_at s r) (@onSelect)). rewrite Hsel.
  destruct Hq as [Htrig Hanim]. destruct (Htrig (calm s2) EChange (target (inst_at s r)) s2 eq_refl) as ([] & s3 & E3 & _ & C3).
  rewrite (sm_bind_eq _ _ s2 _ _ E3), ask_bind.
  destruct (calm_same s2 s3 r C3 Hr) as ((_ & Hd3 & Hs3) & Hr3 & _ & _ & Hi3 & Hc3).
  assert (inline (inst_at s3 r) = false) as -> by (rewrite <-Hin; exact (f_equal inline Hi3)).
  destruct (hide_runs s3 r) as (s4 & E4 & C4 & Hshow); [done|done| |].
  { intros c Hc. rewrite Hc3 in Hc. change (_curInst s2) with (_curInst s) in Hc. rewrite Hcur in Hc. injection Hc as <-.
    split; [done|]. rewrite <-Hclose. unfold _get. rewrite Hs3, Hd3. done. }
  rewrite (sm_bind_eq _ _ s3 _ _ E4), sm_mod_bind. eexists. split; [reflexivity|]. split.
  - transitivity (calm s4); [done|]. rewrite C4, C3. exact C2.
  - cbn. apply Hshow. rewrite Hc3. change (_curInst s2) with (_curInst s). rewrite Hcur. by eexists.
Qed.

(** C36: A click on a day takes: for an attached, enabled picker with an input that is open, a
    click on the cell of a day that is in the bounds writes the day to the input in the
    format of the picker, makes it the selected and the current day, hides the picker, and
    [getDate] then answers the start of that day.  The format determines the day, of a year
    of four digits, and its names can be told apart ([readable]); the settings denote days
    in order and can be drawn ([ready], [era]); there is no [onSelect], which would be
    called instead of a change of the input, and no [onClose]; the page's events and
    animations complete and change no picker ([quiet_page]).  The clocks of the time zone
    change by exactly an hour, and local times that are skipped are moved forward
    ([HourZone]). *)
Theorem click_takes s t r lo hi D c :
  quiet_page -> data s !! t = Some r -> target (inst_at s r) = t -> inline (inst_at s r) = false -> t ∉ _disabledInputs s ->
  _curInst s = Some r -> ready s r lo hi -> era D -> clamp lo hi D = D -> readable s r D ->
  _get s (inst_at s r) (@onSelect) = None -> _get s (inst_at s r) (@onClose) = None ->
  td_unselectable c = false -> td_text c <> [] -> text_number (td_text c) = Fin (DateFromDay D) ->
  exists s' s'', on_click r (CDay (Fin (MonthFromDay D)) (Fin (YearFromDay D)) c) s = (Ok tt, s')
    /\ value (elem_at s' t) = day_text s r D /\ selected (inst_at s' r) D /\ current (inst_at s' r) D
    /\ _datepickerShowing s' = false
    /\ _getDateDatepicker t false s' = (Ok (Some (midnight D)), s'').
Proof.
  intros Hq Ht Htar Hin Hoff Hcur Hr HD Hc Hread Hsel Hclose Hun Hne Hnum.
  set (i1 := set_selectedYear (Fin (YearFromDay D)) (set_selectedMonth (Fin (MonthFromDay D))
              (set_selectedDay (DayText (td_text c))
                 (set_current (DayText (td_text c)) (Fin (MonthFromDay D)) (Fin (YearFromDay D)) (inst_at s r))))).
  set (s1 := put r i1 s). assert (inst_at s1 r = i1) as E1 by apply inst_put.
  assert (ready s1 r lo hi) as Hr1 by (by apply ready_put).
  destruct (selectDate_runs s1 t r Hq) with (text := day_text s r D) as (s' & Es & Cs & Hshow);
    [done|apply Hr1|by rewrite E1|done|by rewrite E1|by rewrite E1|].
  rewrite E1 in Cs. change (target i1) with (target (inst_at s r)) in Cs. rewrite Htar in Cs.
  destruct (calm_same (put_value t (day_text s r D) s1) s' r Cs (ready_here _ _ _ _ Hr1)) as (Hsame & Hr' & He & Hd & Hi & _).
  change (inst_at (put_value t (day_text s r D) s1) r) with (inst_at s1 r) in Hi. rewrite E1 in Hi.
  assert (same_settings s s' r) as Hss.
  { destruct Hsame as (Hc1 & Hd1 & Hs1). split_and!; [exact Hc1|exact Hd1|]. rewrite Hs1.
    change (inst_at (put_value t (day_text s r D) s1) r) with (inst_at s1 r). by rewrite E1. }
  assert (value (elem_at s' t) = day_text s r D) as Hval.
  { unfold elem_at. rewrite He. cbn. by rewrite lookup_insert_eq. }
  assert (target (inst_at s' r) = t) as Htar' by (rewrite <-Htar; exact (f_equal target Hi)).
  assert (current (inst_at s' r) D) as Hcur'.
  { split_and!; [exact (f_equal currentYear Hi)|exact (f_equal currentMonth Hi)|].
    pose proof (f_equal currentDay Hi) as Ecd. change (currentDay (inst_at s' r) = DayText (td_text c)) in Ecd. by rewrite Ecd. }
  destruct (getDateDatepicker_ok s' t r lo hi D false) as (s'' & E2).
  - by rewrite Hd.
  - destruct Hss as (? & ? & ?). by apply (ready_ext s).
  - by apply (readable_ext s).
  - done.
  - done.
  - done.
  - unfold input_val. rewrite Htar', Hval. by rewrite (day_text_ext s s').
  - exists s', s''. split_and!; [|done| |done|done|done].
    + unfold on_click. rewrite !ask_bind, Htar. unfold _selectDay, _isDisabledDatepicker. rewrite sm_get_bind, Hun.
      rewrite bool_decide_eq_false_2 by done. cbn [orb]. unfold the_inst, _getInst.
      rewrite (sm_bind_eq _ _ s (Ok r) s) by (rewrite sm_get_bind; by rewrite Ht). cbv zeta. rewrite upd_inst_bind.
      fold i1. fold (put r i1 s). fold s1. rewrite (sm_bind_eq _ _ s1 (Ok (day_text s r D)) s1); [exact Es|].
      unfold _formatDate. cbn [day_truthy day_num]. rewrite bool_decide_eq_true_2 by done. rewrite Hnum, adjust_day by done.
      unfold ask, sm_get. rewrite E1. done.
    + split_and!; [exact (f_equal selectedYear Hi)|exact (f_equal selectedMonth Hi)|].
      pose proof (f_equal (fun j => day_num (selectedDay j)) Hi) as Esd.
      change (day_num (selectedDay (inst_at s' r)) = text_number (td_text c)) in Esd. by rewrite Esd.
Qed.
End clicks.

(** ** A click on the 31st of March 2024 *)

#[local] Existing Instance picker_zone.
#[local] Existing Instance picker_hours.
#[local] Existing Instance picker_page.

Example click_takes_witness : exists s' s'',
  on_click 0 (CDay (Fin 2) (Fin 2024) (Td false (str "31"))) picker_state = (Ok tt, s')
  /\ value (elem_at s' 0) = str "03/31/2024" /\ _datepickerShowing s' = false
  /\ _getDateDatepicker 0 false s' = (Ok (Some (midnight demo_day)), s'').
Proof.
  destruct (click_takes picker_state 0 0 (Some 19723) None demo_day (Td false (str "31"))) as (s' & s'' & E & Ev & _ & _ & Es & E2).
  - split; [intros X e t; by apply runs_ret|intros X b a d r; by apply runs_ret].
  - reflexivity.
  - reflexivity.
  - reflexivity.
  - apply not_elem_of_nil.
  - reflexivity.
  - apply picker_ready.
  - vm_compute. split; discriminate.
  - reflexivity.
  - apply picker_readable. split; [vm_compute; split; discriminate|]. split; [|intros Hin]; vm_compute in *;
      [intros Hin|]; repeat (apply elem_of_cons in Hin as [Hin|Hin]; [discriminate|]); by apply elem_of_nil in Hin.
  - reflexivity.
  - reflexivity.
  - reflexivity.
  - discriminate.
  - vm_compute. reflexivity.
  - exists s', s''. split; [exact E|]. split; [|split; [exact Es|exact E2]]. rewrite Ev. vm_compute. reflexivity.
Defined.
