(* ===== verification/Position.v ===== *)
(** * Positions relative to an element: $.fn.position of jQuery UI

    The text of the options, the arithmetic of the position, and the collision
    functions [fit], [flip] and [flipfit].  Measures of the browser are arguments;
    they are rational numbers, with exact arithmetic.  What [elem.offset] does with a
    position, which is the document's affair, is not modelled.  The code for the two
    directions is the same up to names, so a direction is an argument here. *)

From Stdlib Require Export QArith Lqa.
From S2P Require Import Prelude JsNum JsVal Callbacks Text.

#[local] Open Scope Q_scope.

(** ** Numbers *)

Definition q_lt (a b : Q) : bool := negb (Qle_bool b a).
Definition q_max (a b : Q) : Q := if Qle_bool a b then b else a.
Definition q_abs (a : Q) : Q := if q_lt a 0 then - a else a.

(** ** Texts of the options *)

Inductive dir := DLeft | DTop.

(** The positions of a direction: its start, its end. *)
Definition start_name (d : dir) : jstr := match d with DLeft => str "left" | DTop => str "top" end.
Definition end_name (d : dir) : jstr := match d with DLeft => str "right" | DTop => str "bottom" end.
Definition center : jstr := str "center".

(** [rhorizontal] and [rvertical]. *)
Definition names_dir (d : dir) (s : jstr) : bool := contains (start_name d) s || contains center s || contains (end_name d) s.

(** An offset: a sign, digits, a fraction, and whether it is a percentage. *)
Record offset := Offset { of_value : Q; of_percent : bool }.
Definition no_offset : offset := Offset 0 false.

Fixpoint digits_of (s : jstr) : jstr * jstr :=
  match s with c :: s' => if is_digit c then let '(d, r) := digits_of s' in (c :: d, r) else ([], s) | [] => ([], []) end.

Definition decimal (neg : bool) (int frac : jstr) : Q :=
  let v := inject_Z (Z.of_N (parse_digits int)) + (Z.of_N (parse_digits frac) # Pos.of_nat (Nat.pow 10 (length frac))) in
  if neg then - v else v.

(** A match of [roffset] at the beginning of a text, with what [parseFloat] makes of it. *)
Definition offset_here (s : jstr) : option offset :=
  match s with
  | c :: s' =>
      if ((c =? chr "+") || (c =? chr "-"))%N then
        let '(int, r) := digits_of s' in
        match int with
        | [] => None
        | _ =>
            let '(frac, r) := match r with
                              | p :: r' => if (p =? chr ".")%N then match digits_of r' with ([], _) => ([], r) | fr => fr end else ([], r)
                              | [] => ([], [])
                              end in
            Some (Offset (decimal (c =? chr "-")%N int frac) match r with p :: _ => (p =? chr "%")%N | [] => false end)
        end
      else None
  | [] => None
  end.

Fixpoint find_offset (s : jstr) : option offset :=
  match offset_here s with
  | Some o => Some o
  | None => match s with [] => None | _ :: s' => find_offset s' end
  end.

(** The class [\w]. *)
Definition is_word (c : N) : bool :=
  (is_digit c || (65 <=? c) && (c <=? 90) || (97 <=? c) && (c <=? 122) || (c =? 95))%N.

(** [rposition.exec( s )[ 0 ]]. *)
Definition position_word (s : jstr) : res jstr :=
  match digits_prefix is_word s with [] => Throw (str "TypeError") | w => Ok w end.

(** One of the options [my] and [at]: positions and offsets of both directions. *)
Record spot := Spot { sp_name : dir -> jstr; sp_offset : dir -> offset }.

Definition by_dir {A} (l t : A) (d : dir) : A := match d with DLeft => l | DTop => t end.

Definition parse_spot (s : jstr) : res spot :=
  let '(h, v) := match split_on (chr " ") [] s with
                 | [p] => if names_dir DLeft p then (p, center) else if names_dir DTop p then (center, p) else (center, center)
                 | h :: v :: _ => (h, v)
                 | [] => (center, center)
                 end in
  let h := if names_dir DLeft h then h else center in
  let v := if names_dir DTop v then v else center in
  hn ← position_word h;
  vn ← position_word v;
  Ok (Spot (by_dir hn vn) (by_dir (default no_offset (find_offset h)) (default no_offset (find_offset v)))).

(** [getOffsets], in one direction. *)
Definition getOffset (o : offset) (size : Q) : Q := of_value o * (if of_percent o then size / 100 else 1).

(** ** Measures *)

(** What the browser says of an element: a place and a size in each direction. *)
Record box := Box { b_offset : dir -> Q; b_size : dir -> Q }.

(** The raw target: a document, a window with its scrolling, an event with its place, or
    an element. *)
Inductive target :=
  | TDocument (size : dir -> Q)
  | TWindow (size scroll : dir -> Q)
  | TEvent (page : dir -> Q)
  | TElement (b : box).

Definition getDimensions (t : target) : box :=
  match t with
  | TDocument size => Box (fun _ => 0) size
  | TWindow size scroll => Box scroll size
  | TEvent page => Box page (fun _ => 0)
  | TElement b => b
  end.

(** The container [within]: a window, a document, or an element with its overflow in each
    direction and the size of what it scrolls over. *)
Inductive overflow := OScroll | OAuto | OOther.
Record within_info := Within {
  w_isWindow : bool;
  w_isDocument : bool;
  w_offset : dir -> Q;
  w_scroll : dir -> Q;
  w_size : dir -> Q;
  w_overflow : dir -> overflow;
  w_scrollSize : dir -> Q
}.

(** [getWithinInfo]: windows and documents have no offset. *)
Definition getWithinInfo (isWindow isDocument : bool) (place scroll size : dir -> Q) (ov : dir -> overflow) (scrollSize : dir -> Q) : within_info :=
  Within isWindow isDocument (if negb isWindow && negb isDocument then place else fun _ => 0) scroll size ov scrollSize.

(** [getScrollInfo]: the width that a scroll bar takes from the other direction. *)
Definition other (d : dir) : dir := match d with DLeft => DTop | DTop => DLeft end.

Definition has_overflow (w : within_info) (d : dir) : bool :=
  if w_isWindow w || w_isDocument w then false
  else match w_overflow w d with
       | OScroll => true
       | OAuto => q_lt (w_size w d) (w_scrollSize w d)
       | OOther => false
       end.

Definition getScrollInfo (scrollbarWidth : Q) (w : within_info) (d : dir) : Q := if has_overflow w (other d) then scrollbarWidth else 0.

(** ** Collisions *)

Record collision_data := Data {
  cd_target : Q;
  cd_elem : Q;
  cd_margin : Q;
  cd_collision : Q;
  cd_offset : Q;
  cd_my : jstr;
  cd_at : jstr;
  cd_within : within_info
}.

(** [$.ui.position.fit.left] and [.top]. *)
Definition fit (d : dir) (data : collision_data) (position : Q) : Q :=
  let within := cd_within data in
  let withinOffset := if w_isWindow within then w_scroll within d else w_offset within d in
  let outer := w_size within d in
  let collisionPos := position - cd_margin data in
  let overStart := withinOffset - collisionPos in
  let overEnd := collisionPos + cd_collision data - outer - withinOffset in
  if q_lt outer (cd_collision data) then
    if q_lt 0 overStart && Qle_bool overEnd 0 then
      let newOverEnd := position + overStart + cd_collision data - outer - withinOffset in
      position + (overStart - newOverEnd)
    else if q_lt 0 overEnd && Qle_bool overStart 0 then withinOffset
    else if q_lt overEnd overStart then withinOffset + outer - cd_collision data
    else withinOffset
  else if q_lt 0 overStart then position + overStart
  else if q_lt 0 overEnd then position - overEnd
  else q_max (position - collisionPos) position.

(** How far [flip] moves the element: to the other side, of the element and of the
    target. *)
Definition flip_shift (d : dir) (data : collision_data) : Q :=
  let myOffset := if decide (cd_my data = start_name d) then - cd_elem data
                  else if decide (cd_my data = end_name d) then cd_elem data else 0 in
  let atOffset := if decide (cd_at data = start_name d) then cd_target data
                  else if decide (cd_at data = end_name d) then - cd_target data else 0 in
  myOffset + atOffset + -2 * cd_offset data.

(** [$.ui.position.flip.left] and [.top]. *)
Definition flip (d : dir) (data : collision_data) (position : Q) : Q :=
  let within := cd_within data in
  let withinOffset := w_offset within d + w_scroll within d in
  let outer := w_size within d in
  let offsetStart := if w_isWindow within then w_scroll within d else w_offset within d in
  let collisionPos := position - cd_margin data in
  let overStart := collisionPos - offsetStart in
  let overEnd := collisionPos + cd_collision data - outer - offsetStart in
  let shift := flip_shift d data in
  if q_lt overStart 0 then
    let newOverEnd := position + shift + cd_collision data - outer - withinOffset in
    if q_lt newOverEnd 0 || q_lt newOverEnd (q_abs overStart) then position + shift else position
  else if q_lt 0 overEnd then
    let newOverStart := position - cd_margin data + shift - offsetStart in
    if q_lt 0 newOverStart || q_lt (q_abs newOverStart) overEnd then position + shift else position
  else position.

Definition flipfit (d : dir) (data : collision_data) (position : Q) : Q := fit d data (flip d data position).

(** [$.ui.position[ name ][ dir ]]; a name of a member of every object finds a value
    without such a function. *)
Definition collide (name : jstr) (d : dir) (data : collision_data) (position : Q) : res Q :=
  if decide (name = str "fit") then Ok (fit d data position)
  else if decide (name = str "flip") then Ok (flip d data position)
  else if decide (name = str "flipfit") then Ok (flipfit d data position)
  else if bool_decide (is_Some (object_member name)) then Throw (str "TypeError")
  else Ok position.

(** ** $.fn.position *)

Record pos_options := PosOptions { po_my : jstr; po_at : jstr; po_collision : jstr }.

(** The collision names of both directions. *)
Definition collision_names (s : jstr) : dir -> jstr :=
  match split_on (chr " ") [] (if decide (s = []) then str "flip" else s) with
  | [c] => by_dir c c
  | h :: v :: _ => by_dir h v
  | [] => by_dir [] []
  end.

(** The place of a spot from the start of something of a size. *)
Definition at_place (d : dir) (name : jstr) (size : Q) : Q :=
  if decide (name = end_name d) then size else if decide (name = center) then size / 2 else 0.

(** The place on the target, with its offset. *)
Definition base_position (d : dir) (at_ : spot) (dim : box) : Q :=
  b_offset dim d + at_place d (sp_name at_ d) (b_size dim d) + getOffset (sp_offset at_ d) (b_size dim d).

(** An element to be placed, with its margins before and after. *)
Record elem_info := Elem { e_size : dir -> Q; e_before : dir -> Q; e_after : dir -> Q }.

(** The position before collisions. *)
Definition start_position (d : dir) (my at_ : spot) (dim : box) (e : elem_info) : Q :=
  base_position d at_ dim - at_place d (sp_name my d) (e_size e d) + getOffset (sp_offset my d) (e_size e d).

Definition collision_data_of (d : dir) (my at_ : spot) (dim : box) (w : within_info) (bar : Q) (e : elem_info) : collision_data :=
  Data (b_size dim d) (e_size e d) (e_before e d) (e_size e d + e_before e d + e_after e d + getScrollInfo bar w d)
    (getOffset (sp_offset at_ d) (b_size dim d) + getOffset (sp_offset my d) (e_size e d))
    (sp_name my d) (sp_name at_ d) w.

(** The feedback for the option [using]: where the target is, seen from the element. *)
Inductive important := IHorizontal | IVertical.
Record feedback := Feedback { fb_horizontal : jstr; fb_vertical : jstr; fb_important : important }.

Definition feedback_of (dim : box) (e : elem_info) (position : dir -> Q) : feedback :=
  let near d := b_offset dim d - position d in
  let far d := near d + b_size dim d - e_size e d in
  let side d first middle last :=
    if q_lt (b_size dim d) (e_size e d) && q_lt (q_abs (near d + far d)) (b_size dim d) then middle
    else if q_lt (far d) 0 then first else if q_lt 0 (near d) then last else middle in
  Feedback (side DLeft (str "left") center (str "right")) (side DTop (str "top") (str "middle") (str "bottom"))
    (if q_lt (q_max (q_abs (near DTop)) (q_abs (far DTop))) (q_max (q_abs (near DLeft)) (q_abs (far DLeft))) then IHorizontal else IVertical).

(** The loop over the elements, for one of them. *)
Definition place_element (my at_ : spot) (names : dir -> jstr) (dim : box) (w : within_info) (bar : Q) (e : elem_info) : res ((dir -> Q) * feedback) :=
  l ← collide (names DLeft) DLeft (collision_data_of DLeft my at_ dim w bar e) (start_position DLeft my at_ dim e);
  t ← collide (names DTop) DTop (collision_data_of DTop my at_ dim w bar e) (start_position DTop my at_ dim e);
  Ok (by_dir l t, feedback_of dim e (by_dir l t)).

(** [position] up to its last call: the positions and the feedback for each of the elements,
    which the code hands to [elem.offset] and to [using]. *)
Definition position (o : pos_options) (t : target) (w : within_info) (bar : Q) (elems : list elem_info) : res (list ((dir -> Q) * feedback)) :=
  my ← parse_spot (po_my o);
  at_ ← parse_spot (match t with TEvent _ => str "left top" | _ => po_at o end);
  mapM (place_element my at_ (collision_names (po_collision o)) (getDimensions t) w bar) elems.
