(* ===== verification/PositionProps.v ===== *)
(** * The properties of positions *)

From S2P Require Import Prelude JsNum JsVal Callbacks Text Position.

#[local] Open Scope Q_scope.

(** ** Comparisons *)

Lemma q_lt_spec a b : BoolSpec (a < b) (b <= a) (q_lt a b).
Proof.
  unfold q_lt. destruct (Qle_bool b a) eqn:E; constructor; [by apply Qle_bool_iff|].
  apply Qnot_le_lt. intros H%Qle_bool_iff. congruence.
Qed.

Lemma q_le_spec a b : BoolSpec (a <= b) (b < a) (Qle_bool a b).
Proof.
  destruct (Qle_bool a b) eqn:E; constructor; [by apply Qle_bool_iff|].
  apply Qnot_le_lt. intros H%Qle_bool_iff. congruence.
Qed.

Lemma q_max_spec a b : (a <= b /\ q_max a b = b) \/ (b < a /\ q_max a b = a).
Proof. unfold q_max. destruct (q_le_spec a b); auto. Qed.

Lemma q_abs_spec a : (a < 0 /\ q_abs a = - a) \/ (0 <= a /\ q_abs a = a).
Proof. unfold q_abs. destruct (q_lt_spec a 0); auto. Qed.

(** [q_cases] decides the comparisons in the goal. *)
Ltac q_cases :=
  repeat (match goal with
          | |- context [q_max ?a ?b] =>
              lazymatch a with context [q_max _ _] => fail | _ => lazymatch b with context [q_max _ _] => fail | _ => idtac end end;
              let E := fresh in destruct (q_max_spec a b) as [[? E]|[? E]]; rewrite !E; clear E
          | |- context [q_abs ?a] => let E := fresh in destruct (q_abs_spec a) as [[? E]|[? E]]; rewrite !E; clear E
          | |- context [q_lt ?a ?b] => destruct (q_lt_spec a b)
          | |- context [Qle_bool ?a ?b] => destruct (q_le_spec a b)
          end; cbn [andb orb]).

(** ** fit *)

(** The start of the container, and how far a position sticks out at its start and at its
    end; a position is inside if it does not. *)
Definition within_start (d : dir) (w : within_info) : Q := if w_isWindow w then w_scroll w d else w_offset w d.
Definition out_start (d : dir) (data : collision_data) (p : Q) : Q := within_start d (cd_within data) - (p - cd_margin data).
Definition out_end (d : dir) (data : collision_data) (p : Q) : Q :=
  p - cd_margin data + cd_collision data - (within_start d (cd_within data) + w_size (cd_within data) d).
Definition inside (d : dir) (data : collision_data) (p : Q) : Prop := out_start d data p <= 0 /\ out_end d data p <= 0.

Lemma fit_inside d data p : cd_collision data <= w_size (cd_within data) d -> 0 <= within_start d (cd_within data) ->
  inside d data (fit d data p).
Proof.
  unfold inside, out_start, out_end, fit, within_start. intros Hs Hw.
  destruct (w_isWindow (cd_within data)); q_cases; lra.
Qed.

Lemma fit_keeps d data p : inside d data p -> cd_collision data <= w_size (cd_within data) d -> 0 <= within_start d (cd_within data) ->
  fit d data p == p.
Proof.
  unfold inside, out_start, out_end, fit, within_start. intros Hi Hs Hw.
  destruct (w_isWindow (cd_within data)); q_cases; lra.
Qed.

(** Something larger than the container is put at its start or at its end. *)
Lemma fit_large d data p : w_size (cd_within data) d < cd_collision data ->
  fit d data p == within_start d (cd_within data)
  \/ fit d data p == within_start d (cd_within data) + w_size (cd_within data) d - cd_collision data.
Proof.
  unfold fit, within_start. intros Hs. destruct (w_isWindow (cd_within data)); q_cases; try (left; lra); right; lra.
Qed.

(** ** flip *)

Definition mirror_name (d : dir) (name : jstr) : jstr :=
  if decide (name = start_name d) then end_name d else if decide (name = end_name d) then start_name d else name.
Definition mirror_offset (o : offset) : offset := Offset (- of_value o) (of_percent o).
Definition mirror (s : spot) : spot := Spot (fun d => mirror_name d (sp_name s d)) (fun d => mirror_offset (sp_offset s d)).

(** The names that the regular expressions leave. *)
Definition spot_ok (s : spot) : Prop := forall d, sp_name s d ∈ [start_name d; center; end_name d].

Lemma getOffset_mirror o size : getOffset (mirror_offset o) size == - getOffset o size.
Proof. unfold getOffset, mirror_offset. cbn. destruct (of_percent o); lra. Qed.

Lemma name_cases d (P : jstr -> Prop) : P (start_name d) -> P center -> P (end_name d) -> forall name, name ∈ [start_name d; center; end_name d] -> P name.
Proof. intros H1 H2 H3 name Hn. rewrite !elem_of_cons in Hn. destruct Hn as [->|[->|[->|Hn%elem_of_nil]]]; done. Qed.

Lemma mirror_start d : mirror_name d (start_name d) = end_name d.
Proof. by destruct d. Qed.
Lemma mirror_end d : mirror_name d (end_name d) = start_name d.
Proof. by destruct d. Qed.
Lemma mirror_center d : mirror_name d center = center.
Proof. by destruct d. Qed.
Lemma place_start d size : at_place d (start_name d) size = 0.
Proof. by destruct d. Qed.
Lemma place_end d size : at_place d (end_name d) size = size.
Proof. by destruct d. Qed.
Lemma place_center d size : at_place d center size = size / 2.
Proof. by destruct d. Qed.

(** The shift that a name of the code asks for, negated for [at]. *)
Definition name_shift (d : dir) (name : jstr) (size : Q) : Q :=
  if decide (name = start_name d) then - size else if decide (name = end_name d) then size else 0.
Lemma name_shift_start d size : name_shift d (start_name d) size = - size.
Proof. by destruct d. Qed.
Lemma name_shift_end d size : name_shift d (end_name d) size = size.
Proof. by destruct d. Qed.
Lemma name_shift_center d size : name_shift d center size = 0.
Proof. by destruct d. Qed.

Lemma name_shift_spec d name size : name ∈ [start_name d; center; end_name d] ->
  name_shift d name size == at_place d name size - at_place d (mirror_name d name) size.
Proof.
  revert name. apply name_cases.
  - rewrite name_shift_start, mirror_start, place_start, place_end. lra.
  - rewrite name_shift_center, mirror_center. lra.
  - rewrite name_shift_end, mirror_end, place_start, place_end. lra.
Qed.

Lemma flip_shift_names d data : flip_shift d data == name_shift d (cd_my data) (cd_elem data) - name_shift d (cd_at data) (cd_target data) - 2 * cd_offset data.
Proof. unfold flip_shift, name_shift. repeat case_decide; try congruence; lra. Qed.

Lemma flip_shift_mirror d my at_ dim w bar e : spot_ok my -> spot_ok at_ ->
  start_position d my at_ dim e + flip_shift d (collision_data_of d my at_ dim w bar e) == start_position d (mirror my) (mirror at_) dim e.
Proof.
  intros Hm Ha. rewrite flip_shift_names. unfold start_position, base_position, collision_data_of, mirror.
  cbn [cd_my cd_at cd_elem cd_target cd_offset sp_name sp_offset].
  rewrite !getOffset_mirror, (name_shift_spec _ _ _ (Hm d)), (name_shift_spec _ _ _ (Ha d)). lra.
Qed.

(** [flip] stays or takes the mirrored position. *)
Lemma flip_cases d data p : flip d data p = p \/ flip d data p = p + flip_shift d data.
Proof. unfold flip. repeat case_match; auto. Qed.

(** How far a position sticks out. *)
Definition sticks_out (d : dir) (data : collision_data) (p : Q) : Q := q_max 0 (q_max (out_start d data p) (out_end d data p)).

(** The container does not scroll, or is a window. *)
Definition plain_container (d : dir) (w : within_info) : Prop := if w_isWindow w then w_offset w d == 0 else w_scroll w d == 0.

(** The mirrored position is on the other side. *)
Definition turns_away (d : dir) (data : collision_data) (p : Q) : Prop :=
  (0 < out_start d data p -> 0 <= flip_shift d data) /\ (out_start d data p <= 0 -> flip_shift d data <= 0).

Lemma flip_no_worse d data p : plain_container d (cd_within data) -> 0 <= cd_margin data -> turns_away d data p ->
  sticks_out d data (flip d data p) <= sticks_out d data p.
Proof.
  unfold plain_container, turns_away, sticks_out, out_start, out_end, flip, within_start. intros Hw Hm [Ht1 Ht2].
  destruct (w_isWindow (cd_within data)); cbn zeta; set (sh := flip_shift d data) in *; q_cases; try lra.
  all: try (assert (0 <= sh) by (apply Ht1; lra); lra). all: try (assert (sh <= 0) by (apply Ht2; lra); lra).
Qed.

(** ** $.fn.position *)

Lemma mapM_ok {A B} (f : A -> res B) (P : A -> B -> Prop) l :
  Forall (fun x => exists y, f x = Ok y /\ P x y) l -> exists k, mapM f l = Ok k /\ Forall2 P l k.
Proof.
  induction 1 as [|x l (y & E & Hy) _ (k & Ek & Hk)]; [by exists []|].
  exists (y :: k). cbn [mapM]. rewrite E. cbn. rewrite Ek. split; [done|by constructor].
Qed.

(** The names of the collision functions that are in the code, and one for none. *)
Definition collision_of (name : jstr) (d : dir) (data : collision_data) (p : Q) : Q :=
  if decide (name = str "fit") then fit d data p
  else if decide (name = str "flip") then flip d data p
  else if decide (name = str "flipfit") then flipfit d data p else p.

Definition known_collision (name : jstr) : Prop := object_member name = None.

Lemma collide_known name d data p : known_collision name -> collide name d data p = Ok (collision_of name d data p).
Proof.
  unfold known_collision, collide, collision_of. intros E. rewrite E. repeat case_decide; try done.
Qed.

(** The position of an element in one direction. *)
Definition placed_at (names : dir -> jstr) (my at_ : spot) (dim : box) (w : within_info) (bar : Q) (e : elem_info) (d : dir) : Q :=
  collision_of (names d) d (collision_data_of d my at_ dim w bar e) (start_position d my at_ dim e).

Lemma place_known names my at_ dim w bar e : (forall d, known_collision (names d)) ->
  exists pl, place_element my at_ names dim w bar e = Ok pl /\ forall d, pl.1 d = placed_at names my at_ dim w bar e d.
Proof.
  intros Hn. unfold place_element. rewrite !collide_known by done. eexists. split; [done|]. by intros [].
Qed.

(** What [position] places with known collision functions. *)
Lemma position_places o t w bar elems my at_ :
  parse_spot (po_my o) = Ok my -> parse_spot (match t with TEvent _ => str "left top" | _ => po_at o end) = Ok at_ ->
  (forall d, known_collision (collision_names (po_collision o) d)) ->
  exists placed, position o t w bar elems = Ok placed
    /\ Forall2 (fun e pl => forall d, pl.1 d = placed_at (collision_names (po_collision o)) my at_ (getDimensions t) w bar e d) elems placed.
Proof.
  intros Em Ea Hn. unfold position. rewrite Em. cbn. rewrite Ea. cbn. apply mapM_ok, Forall_forall.
  intros e _. by apply place_known.
Qed.

(** An element with its margins, and the room for a scroll bar. *)
Definition room (d : dir) (w : within_info) (bar : Q) (e : elem_info) : Q := e_size e d + e_before e d + e_after e d + getScrollInfo bar w d.

(** An element is within the container in a direction, its margins too. *)
Definition contained (d : dir) (w : within_info) (bar : Q) (e : elem_info) (p : Q) : Prop :=
  within_start d w <= p - e_before e d /\ p - e_before e d + room d w bar e <= within_start d w + w_size w d.

Lemma contained_inside d my at_ dim w bar e p : contained d w bar e p <-> inside d (collision_data_of d my at_ dim w bar e) p.
Proof.
  unfold contained, inside, out_start, out_end, room, collision_data_of. cbn [cd_within cd_margin cd_collision]. split; intros []; split; lra.
Qed.

(** C39: With the collision functions [fit] and [flipfit], and options [my] and [at] that can be
    read ([parse_spot]), [position] completes and places every element, with its margins and
    the room for a scroll bar, in the container, in each direction in which it is not larger
    than the container, provided the container does not start at a negative place.  Whether
    the document, an element or an event is the target, and where, is of no concern.  An
    option in which an offset has no name before it, such as [+5left], cannot be read:
    [position] then throws ([leading_offset_throws]). *)
Theorem position_in_container o t w bar elems my at_ :
  parse_spot (po_my o) = Ok my -> parse_spot (match t with TEvent _ => str "left top" | _ => po_at o end) = Ok at_ ->
  (forall d, collision_names (po_collision o) d ∈ [str "fit"; str "flipfit"]) ->
  exists placed, position o t w bar elems = Ok placed
    /\ Forall2 (fun e pl => forall d, room d w bar e <= w_size w d -> 0 <= within_start d w -> contained d w bar e (pl.1 d)) elems placed.
Proof.
  intros Em Ea Hn.
  assert (forall d, known_collision (collision_names (po_collision o) d)) as Hk.
  { intros d. specialize (Hn d). rewrite !elem_of_cons in Hn. by destruct Hn as [->|[->|Hn%elem_of_nil]]. }
  destruct (position_places o t w bar elems my at_ Em Ea Hk) as (placed & E & Hp). exists placed. split; [done|].
  eapply Forall2_impl; [exact Hp|]. intros e pl Hpl d Hr Hw. rewrite Hpl. apply (contained_inside d my at_ (getDimensions t)).
  unfold placed_at. specialize (Hn d). rewrite !elem_of_cons in Hn.
  destruct Hn as [->|[->|Hn%elem_of_nil]]; [| |done]; cbn; apply fit_inside; done.
Qed.

(** The option [collision] of the example has both functions. *)
Lemma position_in_container_witness :
  let w := getWithinInfo true false (fun _ => 0) (by_dir 0 300) (by_dir 1000 600) (fun _ => OOther) (fun _ => 0) in
  let o := PosOptions (str "left top") (str "right+10 bottom") (str "fit flipfit") in
  let t := TElement (Box (by_dir 900 880) (by_dir 80 20)) in
  exists placed, position o t w 0 [Elem (by_dir 200 100) (fun _ => 5) (fun _ => 5)] = Ok placed
    /\ Forall2 (fun e pl => forall d, room d w 0 e <= w_size w d -> 0 <= within_start d w -> contained d w 0 e (pl.1 d))
         [Elem (by_dir 200 100) (fun _ => 5) (fun _ => 5)] placed.
Proof.
  cbn zeta. eapply (position_in_container _ _ _ _ _ _ _); [vm_compute; reflexivity|vm_compute; reflexivity|].
  intros []; rewrite !elem_of_cons; vm_compute; auto.
Defined.

(** An offset without a name before it: the word passes [rhorizontal], and then
    [rposition.exec] finds nothing. *)
Example leading_offset_throws : parse_spot (str "+5left top") = Throw (str "TypeError").
Proof. vm_compute. reflexivity. Qed.

(** How far an element sticks out of the container. *)
Definition excess (d : dir) (w : within_info) (bar : Q) (e : elem_info) (p : Q) : Q :=
  q_max 0 (q_max (within_start d w - (p - e_before e d)) (p - e_before e d + room d w bar e - (within_start d w + w_size w d))).

Lemma flip_contained d data p : inside d data p -> flip d data p = p.
Proof.
  unfold inside, out_start, out_end, flip, within_start. intros [H1 H2].
  destruct (w_isWindow (cd_within data)); q_cases; try done; lra.
Qed.

Lemma flip_rescues d data p : plain_container d (cd_within data) -> cd_margin data == 0 ->
  inside d data (p + flip_shift d data) -> ~ inside d data p -> flip d data p = p + flip_shift d data.
Proof.
  unfold plain_container, inside, out_start, out_end, flip, within_start. intros Hw Hm [H1 H2] Hp.
  destruct (w_isWindow (cd_within data)); cbn zeta; set (sh := flip_shift d data) in *; q_cases; try done; exfalso; try lra; apply Hp; split; lra.
Qed.

(** The position of an element that is not in the container, and its mirror image. *)
Record flips (d : dir) (my at_ : spot) (dim : box) (w : within_info) (bar : Q) (e : elem_info) (p : Q) : Prop := Flips {
  flips_one : p == start_position d my at_ dim e \/ p == start_position d (mirror my) (mirror at_) dim e;
  flips_stays : contained d w bar e (start_position d my at_ dim e) -> p == start_position d my at_ dim e;
  flips_rescues : plain_container d w -> e_before e d == 0 ->
    ~ contained d w bar e (start_position d my at_ dim e) ->
    contained d w bar e (start_position d (mirror my) (mirror at_) dim e) -> p == start_position d (mirror my) (mirror at_) dim e;
  flips_no_worse : plain_container d w -> 0 <= e_before e d ->
    turns_away d (collision_data_of d my at_ dim w bar e) (start_position d my at_ dim e) ->
    excess d w bar e p <= excess d w bar e (start_position d my at_ dim e)
}.

Lemma excess_sticks d my at_ dim w bar e p : excess d w bar e p == sticks_out d (collision_data_of d my at_ dim w bar e) p.
Proof.
  unfold excess, sticks_out, out_start, out_end, room, collision_data_of. cbn [cd_within cd_margin cd_collision]. q_cases; lra.
Qed.

Lemma flip_flips d my at_ dim w bar e : spot_ok my -> spot_ok at_ ->
  flips d my at_ dim w bar e (flip d (collision_data_of d my at_ dim w bar e) (start_position d my at_ dim e)).
Proof.
  intros Hm Ha. pose proof (flip_shift_mirror d my at_ dim w bar e Hm Ha) as Es. constructor.
  - rewrite <- Es. destruct (flip_cases d (collision_data_of d my at_ dim w bar e) (start_position d my at_ dim e)) as [->| ->]; [by left|by right].
  - intros Hc. rewrite flip_contained; [done|]. by apply contained_inside.
  - intros Hw Hb Hn Hc. rewrite flip_rescues; [done|done|done| |].
    + apply contained_inside. unfold contained in *. split; lra.
    + intros Hi. apply Hn. by apply contained_inside in Hi.
  - intros Hw Hb Ht. rewrite !(excess_sticks d my at_ dim). by apply flip_no_worse.
Qed.

(** C40: With the collision function [flip], which is the default, and options [my] and [at]
    that can be read ([parse_spot]) and whose names are [left], [center], [right] or [top],
    [center], [bottom] ([spot_ok]; the code takes words such as [lefty], too), [position]
    completes, and every element has in each direction the place that was asked for or its
    mirror image, with the names exchanged and the offsets negated.  It is the place asked
    for if that is in the container.  If it is not, but its mirror image is, the latter is
    chosen, in a container that does not scroll itself and for an element without a margin.
    If the mirror image is on the other side of the target as seen from where the element
    sticks out, the element then sticks out no more than before, in a container that does
    not scroll itself and for an element whose margin is not negative. *)
Theorem position_flips o t w bar elems my at_ :
  parse_spot (po_my o) = Ok my -> parse_spot (match t with TEvent _ => str "left top" | _ => po_at o end) = Ok at_ ->
  spot_ok my -> spot_ok at_ -> (forall d, collision_names (po_collision o) d = str "flip") ->
  exists placed, position o t w bar elems = Ok placed
    /\ Forall2 (fun e pl => forall d, flips d my at_ (getDimensions t) w bar e (pl.1 d)) elems placed.
Proof.
  intros Em Ea Hm Ha Hn.
  assert (forall d, known_collision (collision_names (po_collision o) d)) as Hk by (intros d; by rewrite Hn).
  destruct (position_places o t w bar elems my at_ Em Ea Hk) as (placed & E & Hp). exists placed. split; [done|].
  eapply Forall2_impl; [exact Hp|]. intros e pl Hpl d. rewrite Hpl. unfold placed_at. rewrite Hn. by apply flip_flips.
Qed.

Lemma position_flips_witness :
  let w := getWithinInfo false false (fun _ => 0) (fun _ => 0) (by_dir 1000 600) (fun _ => OAuto) (by_dir 1000 800) in
  let o := PosOptions (str "left top") (str "left bottom+5") [] in
  let t := TElement (Box (by_dir 900 500) (by_dir 150 20)) in
  let es := [Elem (by_dir 150 100) (fun _ => 0) (fun _ => 0)] in
  exists my at_ placed, position o t w 15 es = Ok placed
    /\ Forall2 (fun e pl => forall d, flips d my at_ (getDimensions t) w 15 e (pl.1 d)) es placed.
Proof.
  cbn zeta. eexists _, _. eapply (position_flips _ _ _ _ _); [vm_compute; reflexivity|vm_compute; reflexivity| | |].
  - intros []; rewrite !elem_of_cons; vm_compute; auto.
  - intros []; rewrite !elem_of_cons; vm_compute; auto.
  - intros []; vm_compute; reflexivity.
Defined.

(** The dropdown of the example goes above its target. *)
Example flips_above :
  let w := getWithinInfo true false (fun _ => 0) (fun _ => 0) (by_dir 1000 600) (fun _ => OOther) (fun _ => 0) in
  (fun l => List.map (fun pl => (Qred (pl.1 DLeft), Qred (pl.1 DTop))) l)
    <$> position (PosOptions (str "left top") (str "left bottom+5") []) (TElement (Box (by_dir 100 550) (by_dir 150 20))) w 0
          [Elem (by_dir 150 100) (fun _ => 0) (fun _ => 0)]
  = Ok [(100, 445)].
Proof. vm_compute. reflexivity. Qed.

(** ** Where the code goes wrong *)

(** In a container that starts at a negative place, an element that [fit] has nothing to
    correct is moved out of it. *)
Lemma fit_pushes_out :
  let w := Within false false (fun _ => -100) (fun _ => 0) (fun _ => 50) (fun _ => OOther) (fun _ => 0) in
  let data := Data 10 20 0 20 0 (str "left") (str "left") w in
  inside DLeft data (-90) /\ ~ inside DLeft data (fit DLeft data (-90)) /\ fit DLeft data (-90) == 0.
Proof.
  cbn zeta. split; [split; vm_compute; discriminate|]. split; [|reflexivity].
  intros [_ H]. vm_compute in H. by apply H.
Qed.

(** An element after its target that sticks out at the start of the container is turned
    to the other side of its target, and sticks out more. *)
Lemma flip_further_out :
  let w := Within true false (fun _ => 0) (fun _ => 0) (fun _ => 1000) (fun _ => OOther) (fun _ => 0) in
  let data := Data 50 100 0 100 0 (str "left") (str "right") w in
  sticks_out DLeft data (-30) == 30 /\ sticks_out DLeft data (flip DLeft data (-30)) == 180.
Proof. cbn zeta. split; vm_compute; reflexivity. Qed.
