(* ===== verification/Classes.v ===== *)
(** * Classes of elements: addClass, removeClass, toggleClass, hasClass

    The methods on jQuery objects, which are lists of elements here.  The state is the
    attribute [class] of the elements of the document and the store [dataPriv], where
    [toggleClass] keeps the classes it takes away as a whole. *)

From S2P Require Import Prelude JsNum JsVal Callbacks Text ElemData.

(** The document: kinds of nodes, and which of them have [getAttribute] and
    [setAttribute]. *)
Class ClassHost := {
  ch_owners :: Owners;
  has_attributes : nat -> bool
}.

Record cstate := CState { class_attr : gmap nat jstr; class_priv : dstore jsval }.

(** The argument [value]: a string, an array of strings, a function of the page, a
    truth value, [undefined], or something else. *)
Inductive cvalue (F : Type) := CStr (s : jstr) | CArr (l : list jstr) | CFun (f : F) | CBool (b : bool) | CUndef | COther.
Arguments CStr {F}. Arguments CArr {F}. Arguments CFun {F}. Arguments CBool {F}. Arguments CUndef {F}. Arguments COther {F}.

Definition stripAndCollapse (value : jstr) : jstr := join_spaces (words value).

Section classes.
Context `{ClassHost} `{JsEnv} {F : Type}.

(** What a function of the page does when it is called for an element, with the index
    of the element and its classes. *)
Variable call : F -> nat -> nat -> jstr -> SM cstate (cvalue F).

Definition isElement (elem : nat) : bool := Num.eqb (nodeType elem) (Fin 1).

(** [elem.getAttribute( "class" )] and [elem.setAttribute( "class", value )]. *)
Definition class_of (elem : nat) (s : cstate) : option jstr := class_attr s !! elem.

Definition set_class (elem : nat) (value : jstr) : SM cstate unit :=
  if has_attributes elem then sm_mod (fun s => CState (<[elem := value]> (class_attr s)) (class_priv s))
  else sm_throw (str "TypeError").

Definition priv {A} (m : SM (dstore jsval) A) : SM cstate A := fun s =>
  let '(r, p) := m (class_priv s) in (r, CState (class_attr s) p).

Definition getClass (elem : nat) (s : cstate) : jstr :=
  if has_attributes elem then default [] (class_of elem s) else [].

Definition classesToArray (value : cvalue F) : list jstr :=
  match value with CArr l => l | CStr s => words s | _ => [] end.

(** The loop [while ( ( clazz = classes[ j++ ] ) )] ends at an empty string. *)
Fixpoint truthy_names (l : list jstr) : list jstr :=
  match l with [] => [] | [] :: _ => [] | t :: l' => t :: truthy_names l' end.

(** [" " + clazz + " "]. *)
Definition spaced_name (clazz : jstr) : jstr := chr " " :: clazz ++ [chr " "].

Definition add_name (cur clazz : jstr) : jstr :=
  if contains (spaced_name clazz) cur then cur else cur ++ clazz ++ [chr " "].

(** [while ( cur.indexOf( ... ) > -1 ) cur = cur.replace( ... )]; every turn shortens
    the text. *)
Fixpoint remove_all (n : nat) (cur clazz : jstr) : jstr :=
  match n with
  | O => cur
  | S n => if contains (spaced_name clazz) cur then remove_all n (replace_first (spaced_name clazz) [chr " "] cur) clazz else cur
  end.

Definition remove_name (cur clazz : jstr) : jstr := remove_all (length cur) cur clazz.

(** The loop body of [addClass] and of [removeClass], which differ in [change]. *)
Definition change_class (change : jstr -> jstr -> jstr) (classes : list jstr) (elem : nat) : SM cstate unit :=
  curValue ← sm_get (getClass elem);
  if isElement elem then
    let cur := fold_left change (truthy_names classes) (spaced_name (stripAndCollapse curValue)) in
    let finalValue := stripAndCollapse cur in
    sm_when (bool_decide (curValue <> finalValue)) (set_class elem finalValue)
  else mret tt.

Definition change_classes (change : jstr -> jstr -> jstr) (value : cvalue F) (this : list nat) : SM cstate unit :=
  sm_when (bool_decide (classesToArray value <> [])) (sm_each (change_class change (classesToArray value)) this).

(** [this.each( function( j ) { jQuery( this ).method( value.call( this, j, ... ) ) } )].
    [toggleClass] hands its [stateVal] on as well, the same to all calls. *)
Fixpoint each_call (f : F) (method : cvalue F -> list nat -> SM cstate unit) (j : nat) (this : list nat) : SM cstate unit :=
  match this with
  | [] => mret tt
  | elem :: this' =>
      c ← sm_get (getClass elem);
      v ← call f elem j c;
      method v [elem] ;;
      each_call f method (S j) this'
  end.

(** A function may answer a function; [n] bounds how often. *)
Fixpoint addClass (n : nat) (value : cvalue F) (this : list nat) : SM cstate unit :=
  match n with
  | O => sm_lift NoFuel
  | S n => match value with
           | CFun f => each_call f (addClass n) 0 this
           | _ => change_classes add_name value this
           end
  end.

Fixpoint removeClass (n : nat) (value : cvalue F) (this : list nat) : SM cstate unit :=
  match n with
  | O => sm_lift NoFuel
  | S n => match value with
           | CFun f => each_call f (removeClass n) 0 this
           | _ => change_classes remove_name value this
           end
  end.

(** [removeClass()]: [jQuery.attr] does nothing on text, comment and attribute nodes;
    on other nodes without attributes it tries [jQuery.prop]. *)
Definition no_attr_node (elem : nat) : bool := existsb (fun k => Num.eqb (nodeType elem) (Fin k)) [2; 3; 8].

Definition removeClass_none (this : list nat) : SM cstate unit :=
  sm_each (fun elem => if no_attr_node elem || negb (has_attributes elem) then mret tt else set_class elem []) this.

Fixpoint hasClass_loop (selector : jstr) (this : list nat) (s : cstate) : bool :=
  match this with
  | [] => false
  | elem :: this' =>
      (isElement elem && contains (spaced_name selector) (spaced_name (stripAndCollapse (getClass elem s)))) || hasClass_loop selector this' s
  end.

Definition hasClass (selector : jstr) (this : list nat) : SM cstate bool := sm_get (hasClass_loop selector this).

(** Part of [toggleClass]: one of the names given. *)
Definition toggle_name (elem : nat) (className : jstr) : SM cstate unit :=
  has ← hasClass className [elem];
  if (has : bool) then removeClass 1 (CStr className) [elem] else addClass 1 (CStr className) [elem].

(** Part of [toggleClass]: all classes of an element. *)
Definition toggle_whole (value : cvalue F) (elem : nat) : SM cstate unit :=
  className ← sm_get (getClass elem);
  sm_when (bool_decide (className <> [])) (priv (set elem (KStr (str "__className__")) (VStr className)) ;; mret tt) ;;
  if has_attributes elem then
    if bool_decide (className <> []) || match value with CBool false => true | _ => false end then set_class elem []
    else v ← priv (get elem (str "__className__")); set_class elem (if truthy v then to_string v else [])
  else mret tt.

Definition is_valid (value : cvalue F) : bool := match value with CStr _ | CArr _ => true | _ => false end.

(** [stateVal] is [None] if it is not a truth value. *)
Fixpoint toggleClass (n : nat) (value : cvalue F) (stateVal : option bool) (this : list nat) : SM cstate unit :=
  match n with
  | O => sm_lift NoFuel
  | S n =>
      match value, stateVal with
      | CStr _, Some b | CArr _, Some b => if b then addClass 1 value this else removeClass 1 value this
      | CFun f, _ => each_call f (fun v => toggleClass n v stateVal) 0 this
      | _, _ =>
          sm_each (fun elem =>
            if is_valid value then sm_each (toggle_name elem) (truthy_names (classesToArray value))
            else match value with CUndef | CBool _ => toggle_whole value elem | _ => mret tt end) this
      end
  end.

End classes.
