(* ===== verification/ClassesProps.v ===== *)
(** * The properties of class methods *)

From S2P Require Import Prelude JsNum JsVal Callbacks Text ElemData ElemDataFacts Classes.

(** ** Texts of classes between spaces *)

(** A text that starts and ends with a space and has no other separators. *)
Definition spaced (cur : jstr) : Prop :=
  (exists m, cur = chr " " :: m) /\ (exists m, cur = m ++ [chr " "]) /\ Forall (fun c => is_html_white c = true -> c = chr " ") cur.

Lemma token_plain t : token t -> Forall (fun c => is_html_white c = true -> c = chr " ") t.
Proof. intros [_ Ht]. eapply Forall_impl; [exact Ht|]. cbn. congruence. Qed.

Lemma join_plain l : Forall token l -> Forall (fun c => is_html_white c = true -> c = chr " ") (join_spaces l).
Proof.
  induction 1 as [|t l Ht Hl IH]; [constructor|]. destruct l as [|u l]; [by apply token_plain|].
  change (join_spaces (t :: u :: l)) with (t ++ chr " " :: join_spaces (u :: l)).
  apply Forall_app. split; [by apply token_plain|]. by constructor.
Qed.

Lemma spaced_start s : spaced (spaced_name (stripAndCollapse s)).
Proof.
  unfold spaced_name. split; [by eexists|]. split; [by exists (chr " " :: stripAndCollapse s)|].
  constructor; [done|]. apply Forall_app. split; [apply join_plain, words_tokens|]. by repeat constructor.
Qed.

Lemma words_spaced_name t : words (spaced_name t) = words t.
Proof. unfold spaced_name. change (chr " " :: t ++ [chr " "]) with ([] ++ chr " " :: (t ++ chr " " :: [])). rewrite !words_space. apply app_nil_r. Qed.

Lemma words_start s : words (spaced_name (stripAndCollapse s)) = words s.
Proof. rewrite words_spaced_name. apply words_join, words_tokens. Qed.

Lemma spaced_occurs cur t : spaced cur -> token t -> t ∈ words cur -> exists a b, cur = a ++ spaced_name t ++ b.
Proof.
  intros ((m & Es) & (m' & Ee) & Hs) Ht Hin. destruct (words_in t cur Hin) as (a & b & E & Ha & Hb).
  rewrite E in Hs. apply Forall_app in Hs as [Ha' Hs]. apply Forall_app in Hs as [_ Hb'].
  destruct Ht as [Hn Hw].
  destruct Ha as [->|(a' & w & -> & Hwa)].
  { destruct t as [|c t]; [done|]. rewrite E in Es. injection Es as -> _. by apply Forall_cons_1 in Hw as [Hw _]. }
  destruct Hb as [->|(w' & b' & -> & Hwb)].
  { exfalso. rewrite E, app_nil_r in Ee. destruct t as [|c t] using rev_ind; [done|]. rewrite app_assoc in Ee.
    apply app_inj_tail in Ee as [_ ->]. by apply Forall_app in Hw as [_ [Hw _]%Forall_cons_1]. }
  apply Forall_app in Ha' as [_ [Ha' _]%Forall_cons_1]. apply Forall_cons_1 in Hb' as [Hb' _].
  rewrite (Ha' Hwa), (Hb' Hwb) in E. exists a', b'. rewrite E. unfold spaced_name. cbn [app]. rewrite <- !app_assoc. done.
Qed.

Lemma words_occurs a t b : token t -> words (a ++ spaced_name t ++ b) = words a ++ t :: words b.
Proof.
  intros Ht. change (a ++ spaced_name t ++ b) with (a ++ chr " " :: ((t ++ [chr " "]) ++ b)).
  rewrite words_space, <- app_assoc. cbn [app].
  rewrite words_space, (words_token t) by done. done.
Qed.

Lemma contains_name cur t : spaced cur -> token t -> contains (spaced_name t) cur = bool_decide (t ∈ words cur).
Proof.
  intros Hs Ht. apply eq_true_iff_eq. rewrite contains_spec, bool_decide_eq_true. split.
  - intros (a & b & ->). rewrite words_occurs by done. set_solver.
  - by apply spaced_occurs.
Qed.

(** ** Adding and removing a name *)

Definition add_token (ts : list jstr) (t : jstr) : list jstr := if decide (t ∈ ts) then ts else ts ++ [t].
Definition remove_token (ts : list jstr) (t : jstr) : list jstr := filter (fun u => u <> t) ts.
Definition toggle_token (ts : list jstr) (t : jstr) : list jstr := if decide (t ∈ ts) then remove_token ts t else ts ++ [t].

Lemma remove_absent ts t : t ∉ ts -> remove_token ts t = ts.
Proof.
  unfold remove_token. induction ts as [|u ts IH]; intros Hn; [done|].
  rewrite filter_cons_True by set_solver. f_equal. apply IH. set_solver.
Qed.

(** [change] does to the words of a text what [tok] does to a list of names. *)
Definition changes (change : jstr -> jstr -> jstr) (tok : list jstr -> jstr -> list jstr) : Prop :=
  forall cur t, spaced cur -> token t -> spaced (change cur t) /\ words (change cur t) = tok (words cur) t.

Lemma add_changes : changes add_name add_token.
Proof.
  intros cur t Hs Ht. unfold add_name, add_token. rewrite contains_name by done. case_bool_decide as E.
  { by rewrite decide_True. }
  rewrite decide_False by done. destruct Hs as ((m & Es) & (m' & Ee) & Hp). split.
  - split; [exists (m ++ t ++ [chr " "]); by rewrite Es|]. split; [exists (cur ++ t); by rewrite app_assoc|].
    apply Forall_app. split; [done|]. apply Forall_app. split; [by apply token_plain|]. by repeat constructor.
  - rewrite Ee, <- app_assoc. cbn [app]. rewrite !words_space, (words_token t), !app_nil_r by done. done.
Qed.

Lemma replace_spaced cur t : spaced cur -> token t -> t ∈ words cur ->
  let cur' := replace_first (spaced_name t) [chr " "] cur in
  spaced cur' /\ remove_token (words cur') t = remove_token (words cur) t /\ (length cur' < length cur)%nat.
Proof.
  intros Hs Ht Hin. cbn zeta. unfold replace_first. destruct (find_sub (spaced_name t) cur) as [[a b]|] eqn:E.
  - apply find_sub_some in E. destruct Hs as ((m & Es) & (m' & Ee) & Hp). cbn [app]. split; [split; [|split]|split].
    + destruct a as [|c a]; [by eexists|]. rewrite E in Es. injection Es as -> _. by eexists.
    + destruct b as [|c b] using rev_ind; [by exists a|]. rewrite E, !app_assoc in Ee.
      apply app_inj_tail in Ee as [_ ->]. exists (a ++ chr " " :: b). by rewrite <- app_assoc.
    + rewrite E in Hp. apply Forall_app in Hp as [Ha [_ Hb]%Forall_app]. apply Forall_app. split; [done|]. by constructor.
    + rewrite E, words_occurs, words_space by done. unfold remove_token. rewrite !filter_app.
      rewrite filter_cons_False by (intros H; by apply H). done.
    + rewrite E. unfold spaced_name. rewrite !length_app. cbn. rewrite length_app. cbn. lia.
  - destruct (spaced_occurs cur t Hs Ht Hin) as (a & b & H). by apply (find_sub_none _ _ E) in H.
Qed.

Lemma remove_all_spec n cur t : spaced cur -> token t -> (length cur <= n)%nat ->
  spaced (remove_all n cur t) /\ words (remove_all n cur t) = remove_token (words cur) t.
Proof.
  intros Hs Ht. revert cur Hs. induction n as [|n IH]; intros cur Hs Hn.
  - destruct Hs as ((m & ->) & _). cbn in Hn. lia.
  - cbn [remove_all]. rewrite contains_name by done. case_bool_decide as E.
    + destruct (replace_spaced cur t Hs Ht E) as (Hs' & Ew & Hl). rewrite <- Ew. apply IH; [done|lia].
    + split; [done|]. by rewrite remove_absent.
Qed.

Lemma remove_changes : changes remove_name remove_token.
Proof. intros cur t Hs Ht. by apply remove_all_spec. Qed.

Lemma changes_fold change tok cs cur : changes change tok -> Forall token cs -> spaced cur ->
  words (fold_left change cs cur) = fold_left tok cs (words cur).
Proof.
  intros Hc Hcs. revert cur. induction Hcs as [|t cs Ht _ IH]; intros cur Hs; [done|].
  destruct (Hc cur t Hs Ht) as [Hs' E]. cbn [fold_left]. by rewrite IH, E.
Qed.

Lemma truthy_tokens l : Forall token l -> truthy_names l = l.
Proof. induction 1 as [|t l [Ht _] _ IH]; [done|]. destruct t; [done|]. cbn. by rewrite IH. Qed.

(** ** On elements *)

(** The methods of attributes are those of elements. *)
Class ClassHostLaws `{ClassHost} : Prop := { attributes_of_elements e : has_attributes e = isElement e }.

(** The names of the classes of a node. *)
Definition names `{ClassHost} (e : nat) (s : cstate) : list jstr := words (getClass e s).

(** A change of one element, by what it does to a list of names. *)
Definition at_elem `{ClassHost} (e : nat) (f : list jstr -> list jstr) (e' : nat) (ts : list jstr) : list jstr :=
  if bool_decide (e' = e) && isElement e then f ts else ts.

(** A change of the elements of a set, one after the other. *)
Definition at_each `{ClassHost} (this : list nat) (f : list jstr -> list jstr) (e : nat) (ts : list jstr) : list jstr :=
  fold_left (fun ts e' => at_elem e' f e ts) this ts.

(** ** Programs and their specification *)

Inductive class_op (F : Type) :=
  | OAdd (value : cvalue F) (this : list nat)
  | ORemove (value : cvalue F) (this : list nat)
  | ORemoveAll (this : list nat)
  | OToggle (value : cvalue F) (stateVal : option bool) (this : list nat)
  | OHas (name : jstr) (this : list nat).
Arguments OAdd {F}. Arguments ORemove {F}. Arguments ORemoveAll {F}. Arguments OToggle {F}. Arguments OHas {F}.

(** What an operation does to the names of a node, and what it answers. *)
Definition class_effect `{ClassHost} {F} (op : class_op F) : nat -> list jstr -> list jstr :=
  match op with
  | OAdd v this | OToggle v (Some true) this => at_each this (fun ts => fold_left add_token (classesToArray v) ts)
  | ORemove v this | OToggle v (Some false) this => at_each this (fun ts => fold_left remove_token (classesToArray v) ts)
  | ORemoveAll this => at_each this (fun _ => [])
  | OToggle v None this => at_each this (fun ts => fold_left toggle_token (classesToArray v) ts)
  | OHas _ _ => fun _ ts => ts
  end.

Definition class_answer `{ClassHost} {F} (op : class_op F) (v : nat -> list jstr) : list bool :=
  match op with OHas t this => [existsb (fun e => isElement e && bool_decide (t ∈ v e)) this] | _ => [] end.

Fixpoint class_spec `{ClassHost} {F} (ops : list (class_op F)) (v : nat -> list jstr) : list bool * (nat -> list jstr) :=
  match ops with
  | [] => ([], v)
  | op :: ops => let '(answers, v') := class_spec ops (fun e => class_effect op e (v e)) in (class_answer op v ++ answers, v')
  end.

(** The same with the methods. *)
Definition run_class_op `{ClassHost} `{JsEnv} {F} (call : F -> nat -> nat -> jstr -> SM cstate (cvalue F)) (n : nat) (op : class_op F) : SM cstate (list bool) :=
  match op with
  | OAdd v this => addClass call n v this ;; mret []
  | ORemove v this => removeClass call n v this ;; mret []
  | ORemoveAll this => removeClass_none this ;; mret []
  | OToggle v st this => toggleClass call n v st this ;; mret []
  | OHas t this => b ← hasClass t this; mret [b]
  end.

Fixpoint run_class_ops `{ClassHost} `{JsEnv} {F} (call : F -> nat -> nat -> jstr -> SM cstate (cvalue F)) (n : nat) (ops : list (class_op F)) : SM cstate (list bool) :=
  match ops with
  | [] => mret []
  | op :: ops => a ← run_class_op call n op; l ← run_class_ops call n ops; mret (a ++ l)
  end.

(** Values with names: a string, or an array of class names. *)
Definition valid_value {F} (v : cvalue F) : Prop :=
  match v with CStr _ => True | CArr l => Forall token l | _ => False end.

Definition valid_op {F} (op : class_op F) : Prop :=
  match op with OAdd v _ | ORemove v _ | OToggle v _ _ => valid_value v | ORemoveAll _ => True | OHas t _ => token t end.

Section state.
Context `{ClassHostLaws} `{JsEnv} {F : Type}.
Variable call : F -> nat -> nat -> jstr -> SM cstate (cvalue F).

Lemma names_node e s : isElement e = false -> names e s = [].
Proof. intros E. unfold names, getClass. by rewrite attributes_of_elements, E. Qed.

(** [m] completes, and changes the names of each node by [f]. *)
Definition does {A} (m : SM cstate A) (a : A) (f : nat -> list jstr -> list jstr) : Prop :=
  forall s, exists s', m s = (Ok a, s') /\ forall e, names e s' = f e (names e s).

Lemma does_ret {A} (a : A) : does (mret a) a (fun _ ts => ts).
Proof. intros s. by exists s. Qed.

Lemma does_bind {A B} (m : SM cstate A) (k : A -> SM cstate B) a b f g : does m a f -> does (k a) b g -> does (m ≫= k) b (fun e ts => g e (f e ts)).
Proof.
  intros Hm Hk s. destruct (Hm s) as (s1 & E1 & Hn1). destruct (Hk s1) as (s2 & E2 & Hn2). exists s2.
  rewrite (sm_bind_eq _ _ _ _ _ E1). split; [done|]. intros e. by rewrite Hn2, Hn1.
Qed.

Lemma does_ext {A} (m : SM cstate A) a f g : does m a f -> (forall e ts, (isElement e = false -> ts = []) -> f e ts = g e ts) -> does m a g.
Proof.
  intros Hm Hf s. destruct (Hm s) as (s' & E & H'). exists s'. split; [done|]. intros e. rewrite H', Hf; [done|]. apply names_node.
Qed.

Lemma does_each (f : list jstr -> list jstr) (m : nat -> SM cstate unit) this :
  (forall e, does (m e) tt (at_elem e f)) -> does (sm_each m this) tt (at_each this f).
Proof.
  intros Hm. induction this as [|e this IH]; [apply does_ret|].
  apply (does_bind _ _ tt tt (at_elem e f) (at_each this f)); [apply Hm|exact IH].
Qed.

Lemma does_fold {X} (f : X -> list jstr -> list jstr) (m : X -> SM cstate unit) xs e :
  (forall x, x ∈ xs -> does (m x) tt (at_elem e (f x))) -> does (sm_each m xs) tt (at_elem e (fun ts => fold_left (fun ts x => f x ts) xs ts)).
Proof.
  induction xs as [|x xs IH]; intros Hm.
  - eapply does_ext; [apply does_ret|]. intros e' ts _. unfold at_elem. by destruct (_ && _).
  - eapply does_ext; [eapply does_bind; [apply Hm; left|apply IH; intros y Hy; apply Hm; by right]|].
    intros e' ts _. unfold at_elem. by destruct (_ && _).
Qed.

Lemma getClass_insert e e' v s : getClass e' (CState (<[e := v]> (class_attr s)) (class_priv s)) =
  if bool_decide (e' = e) && isElement e then v else getClass e' s.
Proof.
  unfold getClass, class_of. cbn. rewrite attributes_of_elements. case_bool_decide as Ee; [subst|by rewrite lookup_insert_ne].
  rewrite lookup_insert_eq. by destruct (isElement e).
Qed.

Lemma set_class_does e v : isElement e = true -> does (set_class e v) tt (at_elem e (fun _ => words v)).
Proof.
  intros He s. unfold set_class. rewrite attributes_of_elements, He. eexists. split; [done|]. intros e'. unfold names, at_elem.
  rewrite getClass_insert. by destruct (_ && _).
Qed.

Lemma change_does change tok cs e : changes change tok -> Forall token cs -> does (change_class change cs e) tt (at_elem e (fun ts => fold_left tok cs ts)).
Proof.
  intros Hc Hcs s. unfold change_class. rewrite sm_get_bind. destruct (isElement e) eqn:He.
  2:{ exists s. split; [done|]. intros e'. unfold at_elem. by rewrite He, andb_false_r. }
  set (cur := fold_left _ _ _).
  assert (words cur = fold_left tok cs (names e s)) as Ew.
  { unfold cur. rewrite truthy_tokens by done. rewrite (changes_fold change tok) by (done || apply spaced_start). by rewrite words_start. }
  assert (words (stripAndCollapse cur) = fold_left tok cs (names e s)) as Ef.
  { unfold stripAndCollapse. rewrite words_join by apply words_tokens. exact Ew. }
  case_bool_decide as E; cbn [sm_when].
  - destruct (set_class_does e (stripAndCollapse cur) He s) as (s' & Es & Hs). exists s'. split; [done|]. intros e'. rewrite Hs.
    unfold at_elem. case_bool_decide; [subst|done]. by destruct (isElement e).
  - exists s. split; [done|]. intros e'. unfold at_elem. case_bool_decide; [subst e'|done]. rewrite He. cbn.
    rewrite <- Ef. unfold names at 1. by rewrite E.
Qed.

(** ** The methods *)

Lemma valid_tokens (v : cvalue F) : valid_value v -> Forall token (classesToArray v).
Proof. destruct v; try done. intros _. apply words_tokens. Qed.

Lemma change_classes_does change tok (v : cvalue F) this : changes change tok -> valid_value v ->
  does (change_classes change v this) tt (at_each this (fun ts => fold_left tok (classesToArray v) ts)).
Proof.
  intros Hc Hv. unfold change_classes. case_bool_decide as E; cbn [sm_when].
  - apply does_each. intros e. apply change_does; [done|by apply valid_tokens].
  - eapply does_ext; [apply does_ret|]. intros e ts _. rewrite E. unfold at_each. cbn [fold_left].
    induction this as [|e' this IH]; [done|]. cbn [fold_left]. unfold at_elem at 2. by destruct (_ && _).
Qed.

Lemma addClass_does n v this : valid_value v -> does (addClass call (S n) v this) tt (at_each this (fun ts => fold_left add_token (classesToArray v) ts)).
Proof. intros Hv. destruct v; try done; by apply change_classes_does; [apply add_changes|]. Qed.

Lemma removeClass_does n v this : valid_value v -> does (removeClass call (S n) v this) tt (at_each this (fun ts => fold_left remove_token (classesToArray v) ts)).
Proof. intros Hv. destruct v; try done; by apply change_classes_does; [apply remove_changes|]. Qed.

Lemma removeClass_none_does this : does (removeClass_none this) tt (at_each this (fun _ => [])).
Proof.
  apply does_each. intros e. rewrite attributes_of_elements. destruct (isElement e) eqn:He.
  - unfold no_attr_node. unfold isElement in He. cbn [negb orb].
    replace (existsb _ _) with false; [by apply (set_class_does e [])|]. unfold Num.eqb in *.
    destruct (nodeType e); try done. cbn. apply Z.eqb_eq in He as ->. done.
  - rewrite orb_true_r. eapply does_ext; [apply does_ret|]. intros e' ts _. unfold at_elem. by rewrite He, andb_false_r.
Qed.

Lemma hasClass_loop_spec t this s : token t ->
  hasClass_loop t this s = existsb (fun e => isElement e && bool_decide (t ∈ names e s)) this.
Proof.
  intros Ht. induction this as [|e this IH]; [done|]. cbn [hasClass_loop existsb]. rewrite IH.
  rewrite contains_name by (done || apply spaced_start). by rewrite words_start.
Qed.

Lemma toggle_name_does e t : token t -> does (toggle_name call e t) tt (at_elem e (fun ts => toggle_token ts t)).
Proof.
  intros Ht s. unfold toggle_name, hasClass. rewrite sm_get_bind, hasClass_loop_spec by done. cbn [existsb]. rewrite orb_false_r.
  assert (words t = [t]) as Ew by by apply words_token.
  assert (forall (m : SM cstate unit) tok, (forall ts, fold_left tok (words t) ts = tok ts t) ->
    does m tt (at_each [e] (fun ts => fold_left tok (words t) ts)) -> isElement e = true -> (tok (names e s) t = toggle_token (names e s) t) ->
    exists s', m s = (Ok tt, s') /\ forall e', names e' s' = at_elem e (fun ts => toggle_token ts t) e' (names e' s)) as Hw.
  { intros m tok Htok Hm He Hn. destruct (Hm s) as (s' & E & Hs). exists s'. split; [done|]. intros e'. rewrite Hs. cbn.
    unfold at_elem. rewrite He, Htok. case_bool_decide; [subst|done]. cbn. by rewrite Hn. }
  destruct (isElement e) eqn:He; cbn [andb].
  - case_bool_decide as Hin.
    + eapply (Hw _ remove_token); [by rewrite Ew|by apply (removeClass_does 0 (CStr t))|done|]. unfold toggle_token. by rewrite decide_True.
    + eapply (Hw _ add_token); [by rewrite Ew|by apply (addClass_does 0 (CStr t))|done|]. unfold toggle_token, add_token. by rewrite !decide_False.
  - destruct (addClass_does 0 (CStr t) [e] I s) as (s' & E & Hs). exists s'. split; [done|]. intros e'. rewrite Hs. cbn.
    unfold at_elem. by rewrite He, andb_false_r.
Qed.

Lemma toggleClass_does n v st this : valid_value v -> does (toggleClass call (S n) v st this) tt (class_effect (OToggle v st this)).
Proof.
  intros Hv. destruct st as [[]|].
  - destruct v; try done; by apply addClass_does.
  - destruct v; try done; by apply removeClass_does.
  - assert (does (sm_each (fun elem => sm_each (toggle_name call elem) (truthy_names (classesToArray v))) this) tt (class_effect (OToggle v None this))) as Hd;
      [|by destruct v].
    apply does_each. intros e. rewrite truthy_tokens by (by apply valid_tokens). apply (does_fold (fun t ts => toggle_token ts t)).
    intros t Ht. apply toggle_name_does. pose proof (valid_tokens v Hv) as Hf. rewrite Forall_forall in Hf. by apply Hf.
Qed.

Lemma class_op_runs n op s : valid_op op -> exists s', run_class_op call (S n) op s = (Ok (class_answer op (fun e => names e s)), s')
  /\ forall e, names e s' = class_effect op e (names e s).
Proof.
  assert (forall (m : SM cstate unit) (f : nat -> list jstr -> list jstr), does m tt f ->
    exists s', (m ;; mret []) s = (Ok ([] : list bool), s') /\ forall e, names e s' = f e (names e s)) as Hd.
  { intros m f Hm. destruct (Hm s) as (s' & E & Hs). exists s'. by rewrite (sm_bind_eq _ _ _ _ _ E). }
  intros Hv. destruct op as [v this|v this|this|v st this|t this]; cbn [valid_op] in Hv.
  - by apply Hd, addClass_does.
  - by apply Hd, removeClass_does.
  - by apply Hd, removeClass_none_does.
  - by apply Hd, toggleClass_does.
  - exists s. split; [|done]. cbn [run_class_op class_answer]. unfold hasClass. rewrite sm_get_bind. by rewrite hasClass_loop_spec.
Qed.

Lemma class_spec_ext ops (v w : nat -> list jstr) : (forall e, v e = w e) ->
  (@class_spec _ F ops v).1 = (class_spec ops w).1 /\ forall e, (class_spec ops v).2 e = (class_spec ops w).2 e.
Proof.
  revert v w. induction ops as [|op ops IH]; intros v w Hvw; [done|]. cbn [class_spec].
  assert (class_answer op v = class_answer op w) as ->.
  { destruct op; try done. cbn. f_equal. induction this as [|e this IHt]; [done|]. cbn. by rewrite IHt, Hvw. }
  destruct (IH (fun e => class_effect op e (v e)) (fun e => class_effect op e (w e))) as [E1 E2]; [intros e; by rewrite Hvw|].
  destruct (class_spec ops (fun e => class_effect op e (v e))), (class_spec ops (fun e => class_effect op e (w e))). cbn in *. by rewrite E1.
Qed.

(** C27: Every program of calls of [addClass], [removeClass], [toggleClass] and
    [hasClass] on sets of nodes, with strings or arrays of class names as values,
    completes.  The classes of each node, as the attribute has them between separators,
    are those of a specification in which an element has a list of names: a name is
    added at the end unless it is there, all its occurrences are removed, and a set of
    nodes is treated one by one; nodes that are not elements have no classes. *)
Theorem class_programs_refine n ops s : Forall valid_op ops ->
  exists s', run_class_ops call (S n) ops s = (Ok (class_spec ops (fun e => names e s)).1, s')
    /\ forall e, names e s' = (class_spec ops (fun e => names e s)).2 e.
Proof.
  intros Hv. revert s. induction Hv as [|op ops Hop _ IH]; intros s; [by exists s|].
  destruct (class_op_runs n op s Hop) as (s1 & E1 & Hn1). destruct (IH s1) as (s2 & E2 & Hn2). exists s2. cbn [run_class_ops class_spec].
  rewrite (sm_bind_eq _ _ _ _ _ E1), (sm_bind_eq _ _ _ _ _ E2).
  destruct (class_spec_ext ops (fun e => names e s1) (fun e => class_effect op e (names e s)) Hn1) as [F1 F2].
  rewrite F1. destruct (class_spec ops (fun e => class_effect op e (names e s))) as [answers v']. cbn in *. split; [done|].
  intros e. by rewrite Hn2.
Qed.

(** The attribute is rewritten with single spaces by a change. *)
Lemma change_normal change tok cs e s : changes change tok -> Forall token cs -> isElement e = true ->
  getClass e (change_class change cs e s).2 = join_spaces (fold_left tok cs (names e s)).
Proof.
  intros Hc Hcs He. unfold change_class. rewrite sm_get_bind, He.
  set (cur := fold_left _ _ _).
  assert (words cur = fold_left tok cs (names e s)) as <-.
  { unfold cur. rewrite truthy_tokens by done. rewrite (changes_fold change tok) by (done || apply spaced_start). by rewrite words_start. }
  case_bool_decide as E; cbn [sm_when]; [|exact E].
  unfold set_class. rewrite attributes_of_elements, He. cbn. rewrite getClass_insert, bool_decide_eq_true_2, He by done. done.
Qed.

(** ** All classes at once *)

Definition saved (e : nat) (s : cstate) : jsval := look (class_priv s) e (str "__className__").

(** What [toggleClass()] can change of other nodes: nothing. *)
Definition same_node (s s' : cstate) (e : nat) : Prop := getClass e s' = getClass e s /\ saved e s' = saved e s.

Lemma element_accepts e : isElement e = true -> acceptData e = true.
Proof. unfold isElement, acceptData. by intros ->. Qed.

Lemma set_class_eq e c s : isElement e = true -> set_class e c s = (Ok tt, CState (<[e := c]> (class_attr s)) (class_priv s)).
Proof. intros He. unfold set_class. by rewrite attributes_of_elements, He. Qed.

Lemma whole_off e s : store_ok (class_priv s) -> isElement e = true -> getClass e s <> [] ->
  exists s', toggle_whole (F := F) CUndef e s = (Ok tt, s') /\ store_ok (class_priv s')
    /\ getClass e s' = [] /\ saved e s' = VStr (getClass e s) /\ forall e', e' <> e -> same_node s s' e'.
Proof.
  intros Hst He Hc. destruct (set_spec e (str "__className__") (VStr (getClass e s)) _ Hst (element_accepts e He) ltac:(done))
    as (c & p & E & Hp & _ & Hl & Hl' & _).
  unfold toggle_whole. rewrite sm_get_bind, bool_decide_eq_true_2 by done. cbn [sm_when].
  assert (forall m : SM (dstore jsval) nat, m (class_priv s) = (Ok c, p) -> priv m s = (Ok c, CState (class_attr s) p)) as Hpr.
  { intros m Em. unfold priv. by rewrite Em. }
  rewrite (sm_bind_eq (priv _ ;; mret tt) _ s (Ok tt) (CState (class_attr s) p)) by (by rewrite (sm_bind_eq _ _ _ _ _ (Hpr _ E))).
  rewrite attributes_of_elements, He. cbn [orb]. rewrite set_class_eq by done. eexists. split; [done|]. split; [done|].
  split; [|split].
  - change (getClass e (CState (<[e := []]> (class_attr s)) (class_priv s)) = []). by rewrite getClass_insert, bool_decide_eq_true_2, He.
  - unfold saved. cbn [class_priv]. rewrite Hl. by rewrite decide_True.
  - intros e' Hne. split; [|unfold saved; cbn [class_priv]; by apply Hl'].
    change (getClass e' (CState (<[e := []]> (class_attr s)) (class_priv s)) = getClass e' s). by rewrite getClass_insert, bool_decide_eq_false_2.
Qed.

Lemma whole_on e c s : isElement e = true -> getClass e s = [] -> saved e s = VStr c ->
  exists s', toggle_whole (F := F) CUndef e s = (Ok tt, s') /\ getClass e s' = c /\ forall e', e' <> e -> same_node s s' e'.
Proof.
  intros He Hc Hs. unfold toggle_whole. rewrite sm_get_bind, bool_decide_eq_false_2 by (rewrite Hc; auto). cbn [sm_when].
  rewrite sm_ret_bind, attributes_of_elements, He. cbn [orb].
  assert (priv (get e (str "__className__")) s = (Ok (VStr c), s)) as E.
  { unfold priv. rewrite get_look. unfold saved in Hs. rewrite Hs. by destruct s. }
  rewrite (sm_bind_eq _ _ _ _ _ E), set_class_eq by done. eexists. split; [done|]. split.
  - rewrite getClass_insert, bool_decide_eq_true_2, He by done. cbn. by destruct c.
  - intros e' Hne. split; [by rewrite getClass_insert, bool_decide_eq_false_2|done].
Qed.

Lemma whole_off_all this s : NoDup this -> store_ok (class_priv s) -> (forall e, e ∈ this -> isElement e = true /\ getClass e s <> []) ->
  exists s', sm_each (toggle_whole (F := F) CUndef) this s = (Ok tt, s')
    /\ (forall e, e ∈ this -> getClass e s' = [] /\ saved e s' = VStr (getClass e s)) /\ forall e, e ∉ this -> same_node s s' e.
Proof.
  intros Hn. revert s. induction Hn as [|e this Hin _ IH]; intros s Hst Ht.
  { exists s. split; [done|]. split; [by intros e He%elem_of_nil|done]. }
  destruct (Ht e ltac:(left)) as [He Hc]. destruct (whole_off e s Hst He Hc) as (s1 & E1 & Hst1 & Hc1 & Hs1 & Ho1).
  assert (forall e', e' ∈ this -> e' <> e) as Hne by (by intros e' He' ->).
  destruct (IH s1 Hst1) as (s2 & E2 & H2 & Ho2).
  { intros e' He'. destruct (Ho1 e' (Hne e' He')) as [-> _]. apply Ht. by right. }
  exists s2. cbn [sm_each]. rewrite (sm_bind_eq _ _ _ _ _ E1). split; [done|]. split.
  - intros e' [->|He']%elem_of_cons; [destruct (Ho2 e Hin) as [-> ->]; done|].
    destruct (H2 e' He') as [-> ->]. by destruct (Ho1 e' (Hne e' He')) as [-> _].
  - intros e' [Hne' Hni]%not_elem_of_cons. destruct (Ho1 e' Hne') as [Ha Hb]. destruct (Ho2 e' Hni) as [Ha2 Hb2]. split; congruence.
Qed.

Lemma whole_on_all this s (old : nat -> jstr) : NoDup this ->
  (forall e, e ∈ this -> isElement e = true /\ getClass e s = [] /\ saved e s = VStr (old e)) ->
  exists s', sm_each (toggle_whole (F := F) CUndef) this s = (Ok tt, s')
    /\ (forall e, e ∈ this -> getClass e s' = old e) /\ forall e, e ∉ this -> same_node s s' e.
Proof.
  intros Hn. revert s. induction Hn as [|e this Hin _ IH]; intros s Ht.
  { exists s. split; [done|]. split; [by intros e He%elem_of_nil|done]. }
  destruct (Ht e ltac:(left)) as (He & Hc & Hs). destruct (whole_on e (old e) s He Hc Hs) as (s1 & E1 & Hc1 & Ho1).
  assert (forall e', e' ∈ this -> e' <> e) as Hne by (by intros e' He' ->).
  destruct (IH s1) as (s2 & E2 & H2 & Ho2).
  { intros e' He'. destruct (Ho1 e' (Hne e' He')) as [-> ->]. apply Ht. by right. }
  exists s2. cbn [sm_each]. rewrite (sm_bind_eq _ _ _ _ _ E1). split; [done|]. split.
  - intros e' [->|He']%elem_of_cons; [by destruct (Ho2 e Hin) as [-> _]|by apply H2].
  - intros e' [Hne' Hni]%not_elem_of_cons. destruct (Ho1 e' Hne') as [Ha Hb]. destruct (Ho2 e' Hni) as [Ha2 Hb2]. split; congruence.
Qed.

(** [toggleClass()] on distinct elements that have classes empties their class
    attributes, a second call brings the texts of the attributes back, as they were,
    and the classes of all other nodes stay. *)
Theorem toggle_whole_restores this s : store_ok (class_priv s) -> NoDup this ->
  (forall e, e ∈ this -> isElement e = true /\ getClass e s <> []) ->
  exists s1 s2, toggleClass call 1 CUndef None this s = (Ok tt, s1) /\ (forall e, e ∈ this -> getClass e s1 = [])
    /\ toggleClass call 1 CUndef None this s1 = (Ok tt, s2) /\ forall e, getClass e s2 = getClass e s.
Proof.
  intros Hst Hn Ht. destruct (whole_off_all this s Hn Hst Ht) as (s1 & E1 & H1' & Ho1).
  destruct (whole_on_all this s1 (fun e => getClass e s) Hn) as (s2 & E2 & H2' & Ho2).
  { intros e He. destruct (H1' e He). split; [by apply Ht|done]. }
  exists s1, s2. split; [exact E1|]. split; [by apply H1'|]. split; [exact E2|].
  intros e. destruct (decide (e ∈ this)) as [He|He]; [by apply H2'|].
  destruct (Ho2 e He) as [-> _]. by destruct (Ho1 e He) as [-> _].
Qed.
End state.

(** ** A document *)

(** Nodes 0 to 9 are elements, the others text. *)
#[local] Instance demo_doc : ClassHost := {| ch_owners := {| nodeType := fun e => if (e <? 10)%nat then Fin 1 else Fin 3 |}; has_attributes := fun e => (e <? 10)%nat |}.
#[local] Instance demo_laws : ClassHostLaws.
Proof. constructor. intros e. unfold isElement. cbn. by destruct (e <=? 9)%nat. Qed.
#[local] Instance demo_env : JsEnv := {| call_fn := fun _ _ => Ok VUndef; section_fn := fun _ _ _ => LRet VUndef; fun_prop := fun _ _ => None; fun_source := fun _ => [] |}.
Definition no_call (f : Empty_set) (e i : nat) (c : jstr) : SM cstate (cvalue Empty_set) := mret CUndef.

Definition demo_state : cstate := CState {[ 0%nat := str "a  b a"; 1%nat := str "b" ]} Data_new.

Definition demo_ops : list (class_op Empty_set) :=
  [OAdd (CStr (str "c b")) [0; 1; 12]; ORemove (CArr [str "a"]) [0]; OToggle (CStr (str "b d")) None [1; 0]; OHas (str "d") [1; 2]; OHas (str "a") [0; 1]]%nat.

Lemma class_programs_refine_witness :
  exists s', run_class_ops no_call 1 demo_ops demo_state = (Ok (class_spec demo_ops (fun e => names e demo_state)).1, s')
    /\ forall e, names e s' = (class_spec demo_ops (fun e => names e demo_state)).2 e.
Proof.
  apply (class_programs_refine no_call 0 demo_ops demo_state). repeat (constructor; [cbn|]); try done; try apply _; apply bool_decide_eq_true_1; vm_compute; reflexivity.
Defined.

Example demo_run : (fun r => (r.1, getClass 0 r.2, getClass 1 r.2)) (run_class_ops no_call 1 demo_ops demo_state)
  = (Ok [true; false], str "c d", str "c d").
Proof. vm_compute. reflexivity. Qed.

Lemma toggle_whole_restores_witness :
  exists s1 s2, toggleClass no_call 1 CUndef None [0; 1]%nat demo_state = (Ok tt, s1) /\ (forall e, e ∈ [0; 1]%nat -> getClass e s1 = [])
    /\ toggleClass no_call 1 CUndef None [0; 1]%nat s1 = (Ok tt, s2) /\ forall e, getClass e s2 = getClass e demo_state.
Proof.
  apply (toggle_whole_restores no_call [0; 1]%nat demo_state).
  - apply store_ok_new.
  - apply NoDup_cons. split; [by intros E%list_elem_of_singleton|apply NoDup_singleton].
  - intros e [->|[->|H%elem_of_nil]%elem_of_cons]%elem_of_cons; [split; [reflexivity|vm_compute; discriminate]..|done].
Defined.

(** An empty string in the array ends the loop: the names after it stay. *)
Example empty_name_ends :
  getClass 0 (removeClass no_call 1 (CArr [str "a"; []; str "b"]) [0%nat] demo_state).2 = str "b".
Proof. vm_compute. reflexivity. Qed.
