(* ===== verification/Widget.v ===== *)
(** * The widget factory: $.widget

    Constructors, prototypes, instances and options are objects of the heap of [Core];
    what function objects do is a table of the closures of the code.  Functions of the
    page are arbitrary programs on the state, which may call any function.  Methods of
    widgets and of jQuery objects that work on the document ([_on], [_trigger],
    [_setOptionClasses], [off], ...) are recorded with their arguments, in order. *)

From S2P Require Import Prelude JsNum JsVal Callbacks Text ElemData Core.

(** ** State *)

(** The closures.  [prop] is a name of a method. *)
Inductive wfn :=
  | FUser (k : N)
  | FCtor
  | FProxy (base : nat) (prop : jstr) (value sup superApply : cval)
  | FSuper (base : nat) (prop : jstr)
  | FSuperApply (base : nat) (prop : jstr)
  | FBridge (name fullName : jstr) (object : cval)
  | FPseudo (fullName : jstr)
  | FRemove (element : cval) (instance : nat)
  | FMethod (name : jstr)
  | FDoc (name : jstr)
  | FNoop.

Record wstate := WState {
  ws_heap : heap;
  ws_fns : gmap nat wfn;
  ws_uuid : Z;
  ws_data : dstore cval;
  ws_log : list (jstr * cval * list cval)
}.

Definition on_heap {A} (m : SM heap A) : SM wstate A := fun s =>
  let '(r, h) := m (ws_heap s) in (r, WState h (ws_fns s) (ws_uuid s) (ws_data s) (ws_log s)).
Definition on_data {A} (m : SM (dstore cval) A) : SM wstate A := fun s =>
  let '(r, d) := m (ws_data s) in (r, WState (ws_heap s) (ws_fns s) (ws_uuid s) d (ws_log s)).
Definition record (name : jstr) (this : cval) (args : list cval) : SM wstate unit :=
  sm_mod (fun s => WState (ws_heap s) (ws_fns s) (ws_uuid s) (ws_data s) (ws_log s ++ [(name, this, args)])).

(** The page: the objects [$], [$.fn], [$.expr[ ":" ]], [$.Widget], the built-in
    [hasOwnProperty], kinds of nodes, members of [Object.prototype], what [$( v )]
    selects or makes, the text of an object, and lower case beyond ASCII. *)
Class WidgetHost := {
  wh_jquery : nat;
  wh_fn : nat;
  wh_pseudos : nat;
  wh_widget : nat;
  wh_hasOwn : nat;
  wh_owners :: Owners;
  wh_member : jstr -> cval;
  wh_select : cval -> SM heap (list cval);
  wh_text : nat -> jstr;
  wh_lower : N -> jstr
}.

#[export] Instance cval_data `{WidgetHost} : DataVal cval := {|
  d_undef := CUndef;
  d_is_undef v := match v with CUndef => true | _ => false end;
  d_host := wh_member
|}.

(** ** Properties *)

(** The object that a prototype setter of [Object.prototype] would be found at. *)
Fixpoint inherits_object (fuel : nat) (h : heap) (o : nat) : bool :=
  match fuel with
  | O => false
  | S n => if decide (o = object_prototype) then true
           else match h !! o with Some ob => match o_proto ob with Some p => inherits_object n h p | None => false end | None => false end
  end.

Definition has_proto (h : heap) (o : nat) : bool := inherits_object (S (length h)) h o.

(** [v[name]], with the accessor [__proto__]. *)
Definition prop_of (h : heap) (v : cval) (name : jstr) : cval :=
  match v with
  | CRef o =>
      if bool_decide (name = proto_name) && negb (has_member h o name) && has_proto h o
      then match h !! o with Some ob => match o_proto ob with Some p => CRef p | None => CNull end | None => CUndef end
      else get_member h o name
  | _ => get_value h v name
  end.

Definition getp (v : cval) (name : jstr) : SM wstate cval :=
  match v with
  | CUndef | CNull => sm_throw (str "TypeError")
  | _ => s ← sm_get ws_heap; mret (prop_of s v name)
  end.

Definition set_proto (o : nat) (p : option nat) : SM heap unit :=
  sm_mod (fun h => match h !! o with Some ob => <[o := Object (o_kind ob) p (o_props ob) (o_hidden ob)]> h | None => h end).

Definition setp (v : cval) (name : jstr) (w : cval) : SM wstate unit :=
  match v with
  | CUndef | CNull => sm_throw (str "TypeError")
  | CRef o =>
      h ← sm_get ws_heap;
      if bool_decide (name = proto_name) && negb (has_member h o name) && has_proto h o
      then match w with CRef p => on_heap (set_proto o (Some p)) | CNull => on_heap (set_proto o None) | _ => mret tt end
      else on_heap (put o name w)
  | _ => mret tt
  end.

Definition new_obj (props : props) : SM wstate nat := on_heap (new_object (Object KObject (Some object_prototype) props [])).
Definition new_arr (l : list cval) : SM wstate nat := on_heap (new_object (array_of l)).

(** A function object, with an object of its own as [prototype]. *)
Definition new_fn (f : wfn) : SM wstate nat :=
  n ← sm_get (fun s => length (ws_heap s));
  p ← on_heap (new_object (Object KObject (Some object_prototype) [] [(str "constructor", CRef (S n))]));
  o ← on_heap (new_object (Object (KFun []) (Some object_prototype) [] [(str "prototype", CRef p)]));
  sm_mod (fun s => WState (ws_heap s) (<[o := f]> (ws_fns s)) (ws_uuid s) (ws_data s) (ws_log s)) ;;
  mret o.

(** [name in] loops. *)
Definition names_in (v : cval) : SM wstate (list jstr) := sm_get (fun s => for_in (ws_heap s) v).
Definition comes_to (v : cval) (name : jstr) : SM wstate bool := sm_get (fun s => visited (ws_heap s) v name).

Definition text (v : cval) `{WidgetHost} : jstr :=
  match v with
  | CUndef => str "undefined"
  | CNull => str "null"
  | CBool b => if b then str "true" else str "false"
  | CNum n => num_to_str n
  | CStr s => s
  | CRef o => wh_text o
  end.

Definition or_value (a b : cval) : cval := if c_truthy a then a else b.

(** The own property that [hasOwnProperty] tells; of strings the indices and the
    length. *)
Definition has_own (h : heap) (v : cval) (name : jstr) : bool :=
  match v with
  | CRef o => match h !! o with Some ob => bool_decide (is_Some (own ob name)) | None => false end
  | CStr s => bool_decide (name = length_name) || match index_key name with Some i => (i <? N.of_nat (length s))%N | None => false end
  | _ => false
  end.

Section factory.
Context `{WidgetHost}.

(** [$( v )] as a new jQuery object. *)
Definition jquery_of (l : list cval) : object :=
  Object KObject (Some wh_fn) (zip (List.map index_name (seq 0 (length l))) l ++ [(length_name, c_index (length l))]) [].
Definition jquery (v : cval) : SM wstate nat := l ← on_heap (wh_select v); on_heap (new_object (jquery_of l)).

(** The value [input[ key ]] if the input has the property itself: [hasOwnProperty] is
    a member of the input; another function in its place is not modelled. *)
Definition own_value (input : cval) (key : jstr) : SM wstate (option cval) :=
  value ← getp input key;
  h ← sm_get ws_heap;
  match input with
  | CRef o => if decide (get_member h o (str "hasOwnProperty") = CRef wh_hasOwn)
              then mret (if has_own h input key then Some value else None) else sm_throw (str "TypeError")
  | _ => mret (if has_own h input key then Some value else None)
  end.

(** [$.widget.extend], with the depth of the objects bounded. *)
Fixpoint widget_extend (fuel : nat) (target : cval) (inputs : list cval) : SM wstate cval :=
  match fuel with
  | O => sm_lift NoFuel
  | S n =>
      sm_each (fun input =>
        keys ← names_in input;
        sm_each (fun key =>
          here ← comes_to input key;
          sm_when here
            (value ← own_value input key;
             match value with
             | None | Some CUndef => mret tt
             | Some value =>
                 h ← sm_get ws_heap;
                 if isPlainObject h value then
                   old ← getp target key;
                   h ← sm_get ws_heap;
                   c ← new_obj [];
                   v ← widget_extend n (CRef c) (if isPlainObject h old then [old; value] else [value]);
                   setp target key v
                 else setp target key value
             end)) keys) inputs ;;
      mret target
  end.

(** ** Calls *)

(** [fuel] bounds the depth of objects in the copies; [call] calls a function. *)
Variable fuel : nat.
Variable call : cval -> cval -> list cval -> SM wstate cval.

(** [this.name( args )]. *)
Definition invoke (this : cval) (name : jstr) (args : list cval) : SM wstate cval := f ← getp this name; call f this args.

(** [new c( args )]. *)
Definition construct (c : cval) (args : list cval) : SM wstate cval :=
  p ← getp c (str "prototype");
  o ← on_heap (new_object (Object KObject (Some match p with CRef p => p | _ => object_prototype end) [] []));
  r ← call c (CRef o) args;
  mret match r with CRef _ => r | _ => CRef o end.

(** [arguments[ i ]]. *)
Definition arg (args : list cval) (i : nat) : cval := default CUndef (args !! i).

(** A constructor that [$.widget] makes. *)
Definition run_ctor (constructor this : cval) (args : list cval) : SM wstate cval :=
  create ← getp this (str "_createWidget");
  if negb (c_truthy create) then construct constructor [arg args 0; arg args 1]
  else if decide (args = []) then mret CUndef
  else invoke this (str "_createWidget") [arg args 0; arg args 1] ;; mret CUndef.

(** A method that [$.widget] wraps, [_super] and [_superApply]. *)
Definition run_proxy (value sup superApply this : cval) (args : list cval) : SM wstate cval :=
  oldSuper ← getp this (str "_super");
  oldSuperApply ← getp this (str "_superApply");
  setp this (str "_super") sup ;;
  setp this (str "_superApply") superApply ;;
  returnValue ← call value this args;
  setp this (str "_super") oldSuper ;;
  setp this (str "_superApply") oldSuperApply ;;
  mret returnValue.

Definition run_super (base : nat) (prop : jstr) (this : cval) (args : list cval) : SM wstate cval :=
  p ← getp (CRef base) (str "prototype");
  f ← getp p prop;
  call f this args.

(** The arguments that [apply] takes from an object. *)
Definition apply_args (v : cval) : SM wstate (list cval) :=
  match v with
  | CUndef | CNull => mret []
  | CRef o => sm_get (fun s => elements (ws_heap s) o)
  | _ => sm_throw (str "TypeError")
  end.

(** ** Methods of widgets *)

Definition undefined_null (v : cval) : cval := match v with CUndef => CNull | _ => v end.

(** The walk of [option] to the last object of a key with dots. *)
Fixpoint walk_parts (curOption : cval) (parts : list jstr) : SM wstate (cval * jstr) :=
  match parts with
  | [] => mret (curOption, [])
  | [key] => mret (curOption, key)
  | part :: parts' =>
      v ← getp curOption part;
      (if c_truthy v then setp curOption part v else o ← new_obj []; setp curOption part (CRef o)) ;;
      next ← getp curOption part;
      walk_parts next parts'
  end.

Definition option_ (this : cval) (args : list cval) : SM wstate cval :=
  match args with
  | [] => cur ← getp this (str "options"); o ← new_obj []; widget_extend fuel (CRef o) [cur]
  | CStr key :: rest =>
      o ← new_obj [];
      match split_dots key with
      | key :: (_ :: _) as parts =>
          all ← getp this (str "options");
          cur ← getp all key;
          c ← new_obj [];
          curOption ← widget_extend fuel (CRef c) [cur];
          setp (CRef o) key curOption ;;
          '(last, name) ← walk_parts curOption (tail parts);
          match rest with
          | [] => v ← getp last name; mret (undefined_null v)
          | value :: _ => setp last name value ;; invoke this (str "_setOptions") [CRef o] ;; mret this
          end
      | parts =>
          let key := default [] (head parts) in
          match rest with
          | [] => all ← getp this (str "options"); v ← getp all key; mret (undefined_null v)
          | value :: _ => setp (CRef o) key value ;; invoke this (str "_setOptions") [CRef o] ;; mret this
          end
      end
  | options :: _ => invoke this (str "_setOptions") [options] ;; mret this
  end.

Definition _setOptions (this options : cval) : SM wstate cval :=
  keys ← names_in options;
  sm_each (fun key =>
    here ← comes_to options key;
    sm_when here (value ← getp options key; invoke this (str "_setOption") [CStr key; value] ;; mret tt)) keys ;;
  mret this.

Definition _setOption (this key value : cval) : SM wstate cval :=
  sm_when (bool_decide (key = CStr (str "classes"))) (invoke this (str "_setOptionClasses") [value] ;; mret tt) ;;
  all ← getp this (str "options");
  setp all (text key) value ;;
  sm_when (bool_decide (key = CStr (str "disabled"))) (invoke this (str "_setOptionDisabled") [value] ;; mret tt) ;;
  mret this.

(** [enable] and [disable]. *)
Definition set_disabled (this : cval) (b : bool) : SM wstate cval :=
  o ← new_obj [(str "disabled", CBool b)]; invoke this (str "_setOptions") [CRef o].

(** [$.data( element, fullName, value )]. *)
Definition node_of (v : cval) : SM wstate nat := match v with CRef o => mret o | _ => sm_throw (str "TypeError") end.
Definition set_data (element : cval) (fullName : jstr) (v : cval) : SM wstate unit :=
  e ← node_of element; on_data (access e (KStr fullName) v) ;; mret tt.
Definition get_data (element : cval) (fullName : jstr) : SM wstate cval :=
  e ← node_of element;
  r ← on_data (access e (KStr fullName) CUndef);
  mret match r with RValue v => v | _ => CUndef end.

(** Part of [_createWidget]: the data and events of an element, its document and its
    window. *)
Definition bind_element (this element : cval) (instance : nat) : SM wstate unit :=
  full ← getp this (str "widgetFullName");
  set_data element (text full) this ;;
  set ← getp this (str "element");
  f ← new_fn (FRemove element instance);
  handlers ← new_obj [(str "remove", CRef f)];
  invoke this (str "_on") [CBool true; set; CRef handlers] ;;
  style ← getp element (str "style");
  doc ← (if c_truthy style then getp element (str "ownerDocument")
         else d ← getp element (str "document"); mret (or_value d element));
  d ← jquery doc;
  setp this (str "document") (CRef d) ;;
  first ← getp (CRef d) (str "0");
  view ← getp first (str "defaultView");
  window ← (if c_truthy view then mret view else getp first (str "parentWindow"));
  w ← jquery window;
  setp this (str "window") (CRef w).

Definition take_uuid : SM wstate Z := fun s => (Ok (ws_uuid s), WState (ws_heap s) (ws_fns s) (ws_uuid s + 1) (ws_data s) (ws_log s)).

Definition _createWidget (this options element : cval) : SM wstate cval :=
  default_ ← getp this (str "defaultElement");
  found ← jquery (or_value element (or_value default_ this));
  element ← getp (CRef found) (str "0");
  set ← jquery element;
  setp this (str "element") (CRef set) ;;
  uuid ← take_uuid;
  setp this (str "uuid") (CNum (Fin uuid)) ;;
  name ← getp this (str "widgetName");
  setp this (str "eventNamespace") (CStr (chr "." :: text name ++ Z_to_str uuid)) ;;
  sm_each (fun p => o ← on_heap (new_object (jquery_of [])); setp this p (CRef o)) [str "bindings"; str "hoverable"; str "focusable"] ;;
  lookup ← new_obj [];
  setp this (str "classesElementLookup") (CRef lookup) ;;
  sm_when (bool_decide (element <> this)) (i ← node_of this; bind_element this element i) ;;
  o ← new_obj [];
  defaults ← getp this (str "options");
  create ← invoke this (str "_getCreateOptions") [];
  all ← widget_extend fuel (CRef o) [defaults; create; options];
  setp this (str "options") all ;;
  invoke this (str "_create") [] ;;
  all ← getp this (str "options");
  disabled ← getp all (str "disabled");
  sm_when (c_truthy disabled) (invoke this (str "_setOptionDisabled") [disabled] ;; mret tt) ;;
  data ← invoke this (str "_getCreateEventData") [];
  invoke this (str "_trigger") [CStr (str "create"); CNull; data] ;;
  invoke this (str "_init") [] ;;
  mret CUndef.

(** [event.target === element]. *)
Definition run_remove (element : cval) (instance : nat) (args : list cval) : SM wstate cval :=
  target ← getp (arg args 0) (str "target");
  (if decide (target = element) then invoke (CRef instance) (str "destroy") [] ;; mret tt else mret tt) ;;
  mret CUndef.

Definition destroy (this : cval) : SM wstate cval :=
  invoke this (str "_destroy") [] ;;
  lookup ← getp this (str "classesElementLookup");
  each ws_heap (fun key value => invoke this (str "_removeClass") [value; key] ;; mret CUndef) lookup ;;
  set ← getp this (str "element");
  ns ← getp this (str "eventNamespace");
  set ← invoke set (str "off") [ns];
  full ← getp this (str "widgetFullName");
  invoke set (str "removeData") [full] ;;
  w ← invoke this (str "widget") [];
  w ← invoke w (str "off") [ns];
  invoke w (str "removeAttr") [CStr (str "aria-disabled")] ;;
  bindings ← getp this (str "bindings");
  invoke bindings (str "off") [ns] ;;
  mret CUndef.

(** [$.fn.removeData] with a key. *)
Definition fn_removeData (this key : cval) : SM wstate cval :=
  h ← sm_get ws_heap;
  match this with
  | CRef o => sm_each (fun e => n ← node_of e; on_data (remove (D := cval) n (RemStr (text key)))) (elements h o) ;; mret this
  | _ => sm_throw (str "TypeError")
  end.

(** The methods of [$.Widget.prototype] and of [$.fn] that are modelled. *)
Definition run_method (name : jstr) (this : cval) (args : list cval) : SM wstate cval :=
  if decide (name = str "option") then option_ this args
  else if decide (name = str "_setOptions") then _setOptions this (arg args 0)
  else if decide (name = str "_setOption") then _setOption this (arg args 0) (arg args 1)
  else if decide (name = str "enable") then set_disabled this false
  else if decide (name = str "disable") then set_disabled this true
  else if decide (name = str "_createWidget") then _createWidget this (arg args 0) (arg args 1)
  else if decide (name = str "_getCreateOptions") then o ← new_obj []; mret (CRef o)
  else if decide (name = str "destroy") then destroy this
  else if decide (name = str "widget") then getp this (str "element")
  else if decide (name = str "removeData") then fn_removeData this (arg args 0)
  else mret CUndef.

(** What the recorded methods answer: the events of a page do not veto anything. *)
Definition doc_answer (name : jstr) (this : cval) : cval :=
  if decide (name = str "_trigger") then CBool true
  else if decide (name ∈ [str "_on"; str "_off"; str "_setOptionClasses"; str "_setOptionDisabled"]) then CUndef
  else this.

(** ** $.widget.bridge *)

(** The loop [this.each] of the plugin: [body] answers whether to go on, and what the
    plugin answers so far. *)
Fixpoint each_element {A} (body : cval -> A -> SM wstate (bool * A)) (set : cval) (todo i : nat) (acc : A) : SM wstate A :=
  match todo with
  | O => mret acc
  | S n =>
      element ← sm_get (fun s => item (ws_heap s) set i);
      r ← body element acc;
      if (r.1 : bool) then each_element body set n (S i) r.2 else mret r.2
  end.

Definition set_length (set : cval) : SM wstate nat := sm_get (fun s => length_of (ws_heap s) set).

Definition not_initialized (name options : jstr) : jstr :=
  str "cannot call methods on " ++ name ++ str " prior to initialization; attempted to call method '" ++ options ++ str "'".
Definition no_such_method (name options : jstr) : jstr :=
  str "no such method '" ++ options ++ str "' for " ++ name ++ str " widget instance".

(** A method of the instance of one element; [returnValue] is what the plugin is to
    answer. *)
Definition method_element (name fullName options : jstr) (args : list cval) (element returnValue : cval) : SM wstate (bool * cval) :=
  instance ← get_data element fullName;
  if decide (options = str "instance") then mret (false, instance)
  else if negb (c_truthy instance) then sm_throw (not_initialized name options)
  else
    f ← getp instance options;
    h ← sm_get ws_heap;
    if negb (isFunction h f) || bool_decide (head options = Some (chr "_")) then sm_throw (no_such_method name options)
    else
      methodValue ← call f instance args;
      if decide (methodValue = instance \/ methodValue = CUndef) then mret (true, returnValue)
      else
        h ← sm_get ws_heap;
        match methodValue with
        | CRef m =>
            if c_truthy (get_value h methodValue (str "jquery")) then
              l ← on_heap (toArray m);
              match returnValue with
              | CRef r => p ← on_heap (pushStack wh_fn r (CRef l)); mret (false, CRef p)
              | _ => sm_throw (str "TypeError")
              end
            else mret (false, methodValue)
        | _ => mret (false, methodValue)
        end.

(** The instance of one element gets options, or is made. *)
Definition init_element (fullName : jstr) (object options element : cval) : SM wstate unit :=
  instance ← get_data element fullName;
  if c_truthy instance then
    o ← (if c_truthy options then mret options else o ← new_obj []; mret (CRef o));
    invoke instance (str "option") [o] ;;
    init ← getp instance (str "_init");
    sm_when (c_truthy init) (invoke instance (str "_init") [] ;; mret tt)
  else
    new ← construct object [options; element];
    set_data element fullName new.

Definition run_bridge (name fullName : jstr) (object this : cval) (args : list cval) : SM wstate cval :=
  let rest := tail args in
  n ← set_length this;
  match arg args 0 with
  | CStr options =>
      if bool_decide (n = 0%nat) && bool_decide (options = str "instance") then mret CUndef
      else each_element (method_element name fullName options rest) this n 0 this
  | options =>
      options ← (if decide (rest = []) then mret options else widget_extend fuel options rest);
      each_element (fun element _ => init_element fullName object options element ;; mret (true, tt)) this n 0 tt ;;
      mret this
  end.

Definition bridge (name : jstr) (object : cval) : SM wstate unit :=
  p ← getp object (str "prototype");
  full ← getp p (str "widgetFullName");
  f ← new_fn (FBridge name (if c_truthy full then text full else name) object);
  setp (CRef wh_fn) name (CRef f).

(** ** $.widget *)

(** [$.extend]. *)
Definition jq_extend (args : list cval) : SM wstate nat := on_heap (extend fuel wh_jquery args).

(** A property of the prototype as it is proxied. *)
Definition proxy_property (base proxied : nat) (prop : jstr) (value : cval) : SM wstate unit :=
  h ← sm_get ws_heap;
  if isFunction h value then
    sup ← new_fn (FSuper base prop);
    superApply ← new_fn (FSuperApply base prop);
    f ← new_fn (FProxy base prop value (CRef sup) (CRef superApply));
    setp (CRef proxied) prop (CRef f)
  else setp (CRef proxied) prop value.

(** The new constructor in its name space, with the properties of the existing one. *)
Definition new_constructor (space name existing prototype : cval) : SM wstate nat :=
  constructor ← new_fn FCtor;
  setp space (text name) (CRef constructor) ;;
  version ← getp prototype (str "version");
  p ← new_obj [];
  proto ← jq_extend [CRef p; prototype];
  children ← new_arr [];
  info ← new_obj [(str "version", version); (str "_proto", CRef proto); (str "_childConstructors", CRef children)];
  jq_extend [CRef constructor; existing; CRef info] ;;
  mret constructor.

(** The prototype of the new constructor. *)
Definition new_prototype (namespace : jstr) (name existing prototype : cval) (base constructor : nat) (fullName : jstr) : SM wstate cval :=
  proxied ← new_obj [];
  basePrototype ← construct (CRef base) [];
  baseOptions ← getp basePrototype (str "options");
  o ← new_obj [];
  options ← widget_extend fuel (CRef o) [baseOptions];
  setp basePrototype (str "options") options ;;
  each ws_heap (fun prop value => proxy_property base proxied (text prop) value ;; mret CUndef) prototype ;;
  prefix ← (if c_truthy existing then v ← getp basePrototype (str "widgetEventPrefix"); mret (or_value v name) else mret name);
  o1 ← new_obj [(str "widgetEventPrefix", prefix)];
  o2 ← new_obj [(str "constructor", CRef constructor); (str "namespace", CStr namespace); (str "widgetName", name); (str "widgetFullName", CStr fullName)];
  widget_extend fuel basePrototype [CRef o1; CRef proxied; CRef o2].

(** A function of the code that [$.widget] needs as an object. *)
Definition ref_of (v : cval) : SM wstate nat := match v with CRef o => mret o | _ => sm_throw (str "TypeError") end.

(** [$.widget], with the redefinition of the widgets that inherit from one that is
    defined again; [n] bounds their depth. *)
Fixpoint define (n : nat) (fullText : jstr) (base prototype : cval) : SM wstate cval :=
  match n with
  | O => sm_lift NoFuel
  | S n =>
      let parts := split_dots fullText in
      let namespace := default [] (head parts) in
      let name := match parts with _ :: w :: _ => CStr w | _ => CUndef end in
      let fullName := namespace ++ chr "-" :: text name in
      '(base, prototype) ← (if c_truthy prototype then mret (base, prototype) else w ← getp (CRef wh_jquery) (str "Widget"); mret (w, base));
      h ← sm_get ws_heap;
      prototype ← (if is_array h prototype then o ← new_obj []; p ← jq_extend (CRef o :: array_items h prototype); mret (CRef p) else mret prototype);
      pseudo ← new_fn (FPseudo fullName);
      setp (CRef wh_pseudos) (toLowerCase wh_lower fullName) (CRef pseudo) ;;
      space ← getp (CRef wh_jquery) namespace;
      space ← (if c_truthy space then mret space else o ← new_obj []; mret (CRef o));
      setp (CRef wh_jquery) namespace space ;;
      existing ← getp space (text name);
      constructor ← new_constructor space name existing prototype;
      base ← ref_of base;
      p ← new_prototype namespace name existing prototype base constructor fullName;
      setp (CRef constructor) (str "prototype") p ;;
      (if c_truthy existing then
         children ← getp existing (str "_childConstructors");
         each ws_heap (fun _ child =>
           p ← getp child (str "prototype");
           ns ← getp p (str "namespace");
           w ← getp p (str "widgetName");
           own ← getp child (str "_proto");
           define n (text ns ++ chr "." :: text w) (CRef constructor) own) children ;;
         e ← ref_of existing;
         on_heap (sm_mod (fun h => match h !! e with
                                   | Some ob => <[e := set_props (List.filter (fun p => negb (bool_decide (p.1 = str "_childConstructors"))) (o_props ob)) ob]> h
                                   | None => h end))
       else
         children ← getp (CRef base) (str "_childConstructors");
         a ← ref_of children;
         on_heap (push_new a (CRef constructor))) ;;
      bridge (text name) (CRef constructor) ;;
      mret (CRef constructor)
  end.

(** [$.widget( name, base, prototype )] with the arguments as they are given. *)
Definition widget (n : nat) (args : list cval) : SM wstate cval := define n (text (arg args 0)) (arg args 1) (arg args 2).

End factory.

(** ** Functions *)

(** What a function does; [user] are the functions of the page, which call others. *)
Section calls.
Context `{WidgetHost}.
Variable fuel : nat.
Variable user : N -> (cval -> cval -> list cval -> SM wstate cval) -> cval -> list cval -> SM wstate cval.

Fixpoint call (n : nat) (f this : cval) (args : list cval) : SM wstate cval :=
  match n with
  | O => sm_lift NoFuel
  | S n =>
      s ← sm_get (fun s => s);
      match (match f with CRef o => ws_fns s !! o | _ => None end) with
      | None => sm_throw (str "TypeError")
      | Some (FUser k) => user k (call n) this args
      | Some FCtor => run_ctor (call n) f this args
      | Some (FProxy base prop value sup superApply) => run_proxy (call n) value sup superApply this args
      | Some (FSuper base prop) => run_super (call n) base prop this args
      | Some (FSuperApply base prop) => l ← apply_args (arg args 0); run_super (call n) base prop this l
      | Some (FBridge name fullName object) => run_bridge fuel (call n) name fullName object this args
      | Some (FPseudo fullName) => v ← get_data (arg args 0) fullName; mret (CBool (c_truthy v))
      | Some (FRemove element instance) => run_remove (call n) element instance args
      | Some (FMethod name) => run_method fuel (call n) name this args
      | Some (FDoc name) => record name this args ;; mret (doc_answer name this)
      | Some FNoop => mret CUndef
      end
  end.
End calls.

(** ** $.Widget *)

(** The methods of [$.Widget.prototype]: what is modelled, what is [$.noop], and what is
    recorded. *)
Definition widget_methods : list (jstr * wfn) :=
  List.map (fun n => (n, FMethod n)) [str "_createWidget"; str "_getCreateOptions"; str "destroy"; str "widget"; str "option"; str "_setOptions"; str "_setOption"; str "enable"; str "disable"]
  ++ List.map (fun n => (n, FNoop)) [str "_getCreateEventData"; str "_create"; str "_init"; str "_destroy"]
  ++ List.map (fun n => (n, FDoc n)) [str "_setOptionClasses"; str "_setOptionDisabled"; str "_classes"; str "_untrackClassesElement"; str "_removeClass"; str "_addClass"; str "_toggleClass";
       str "_on"; str "_off"; str "_delay"; str "_hoverable"; str "_focusable"; str "_trigger"; str "_show"; str "_hide"].

(** [$.Widget] with its prototype, which takes the place of the one that the function
    object [widget] has. *)
Definition setup_widget `{WidgetHost} : SM wstate unit :=
  setp (CRef wh_jquery) (str "Widget") (CRef wh_widget) ;;
  children ← new_arr [];
  setp (CRef wh_widget) (str "_childConstructors") (CRef children) ;;
  classes ← new_obj [];
  options ← new_obj [(str "classes", CRef classes); (str "disabled", CBool false); (str "create", CNull)];
  p ← new_obj [(str "widgetName", CStr (str "widget")); (str "widgetEventPrefix", CStr []); (str "defaultElement", CStr (str "<div>")); (str "options", CRef options)];
  sm_each (fun m => f ← new_fn m.2; setp (CRef p) m.1 (CRef f)) widget_methods ;;
  setp (CRef wh_widget) (str "prototype") (CRef p).

(** ** A page with widgets

    The objects of a page, for the examples of the widget factory. *)

(** Object.prototype, Array.prototype, Object, hasOwnProperty, $, $.fn, $.expr[ ":" ],
    $.Widget and its first prototype, two elements, their style, the document and the
    window. *)
Definition page_heap : heap :=
  [Object KObject None [] [(str "constructor", CRef 2); (str "hasOwnProperty", CRef 3)];
   Object (KArray 0) (Some object_prototype) [] [];
   Object (KFun ObjectFunctionString) (Some object_prototype) [] [(str "prototype", CRef 0)];
   Object (KFun []) (Some object_prototype) [] [];
   Object (KFun []) (Some object_prototype) [(str "fn", CRef 5)] [];
   Object KObject (Some object_prototype) [(str "jquery", CStr (str "3.5.1")); (length_name, CNum (Fin 0))] [];
   Object KObject (Some object_prototype) [] [];
   Object (KFun []) (Some object_prototype) [] [(str "prototype", CRef 8)];
   Object KObject (Some object_prototype) [] [(str "constructor", CRef 7)];
   Object (KTag (str "HTMLDivElement")) (Some object_prototype) [(str "style", CRef 11); (str "ownerDocument", CRef 12); (str "nodeType", CNum (Fin 1))] [];
   Object (KTag (str "HTMLDivElement")) (Some object_prototype) [(str "style", CRef 11); (str "ownerDocument", CRef 12); (str "nodeType", CNum (Fin 1))] [];
   Object (KTag (str "CSSStyleDeclaration")) (Some object_prototype) [] [];
   Object (KTag (str "HTMLDocument")) (Some object_prototype) [(str "defaultView", CRef 13)] [];
   Object (KTag (str "Window")) (Some object_prototype) [] []].

#[export] Instance page_host : WidgetHost := {|
  wh_jquery := 4; wh_fn := 5; wh_pseudos := 6; wh_widget := 7; wh_hasOwn := 3;
  wh_owners := {| nodeType := fun _ => Fin 1 |};
  wh_member := fun _ => CUndef;
  wh_select v := mret match v with CRef o => [CRef o] | _ => [] end;
  wh_text _ := str "[object Object]";
  wh_lower c := [c]
|}.

Definition page_start : wstate := WState page_heap {[ 7%nat := FNoop ]} 0 Data_new [].

Definition fn_methods : list (jstr * wfn) :=
  [(str "off", FDoc (str "off")); (str "removeAttr", FDoc (str "removeAttr")); (str "removeData", FMethod (str "removeData"))].

Definition page_setup : SM wstate unit :=
  sm_each (fun m => f ← new_fn m.2; setp (CRef wh_fn) m.1 (CRef f)) fn_methods ;; setup_widget.

Definition page : wstate := (page_setup page_start).2.

(** A function of the page as an object, and an object literal. *)
Definition page_function (k : N) : SM wstate cval := f ← new_fn (FUser k); mret (CRef f).
Definition literal_of (l : list (jstr * cval)) : SM wstate cval := o ← new_obj l; mret (CRef o).
