(* ===== verification/WidgetMethods.v ===== *)
(** * Methods of widgets and what they inherit

    A widget is a list of levels, the most derived first, each with the methods that it
    defines; [_super] is the next definition of the same method further down.  The code
    keeps the functions [_super] and [_superApply] in fields of the instance while a
    method runs.  The refinement here is for programs as methods of pages are: they
    read and write fields, call other methods and what they override, and throw. *)

From S2P Require Import Prelude JsNum JsVal Callbacks Text ElemData Core ExtendFacts Widget ElemDataFacts.

(** ** Programs *)

Inductive wprog :=
  | PRet (v : cval)
  | PThrow (e : jstr)
  | PLog (name : jstr) (args : list cval) (next : wprog)
  | PGet (name : jstr) (next : cval -> wprog)
  | PSet (name : jstr) (v : cval) (next : wprog)
  | PSuper (args : list cval) (next : cval -> wprog)
  | PSuperApply (args : list cval) (next : cval -> wprog)
  | PMethod (name : jstr) (args : list cval) (next : cval -> wprog).

Definition super_name : jstr := str "_super".
Definition apply_name : jstr := str "_superApply".

(** What such a program does in the code. *)
Fixpoint run_prog (callf : cval -> cval -> list cval -> SM wstate cval) (this : cval) (p : wprog) : SM wstate cval :=
  match p with
  | PRet v => mret v
  | PThrow e => sm_throw e
  | PLog name args next => record name this args ;; run_prog callf this next
  | PGet name next => v ← getp this name; run_prog callf this (next v)
  | PSet name v next => setp this name v ;; run_prog callf this next
  | PSuper args next => f ← getp this super_name; v ← callf f this args; run_prog callf this (next v)
  | PSuperApply args next =>
      a ← new_arr args; f ← getp this apply_name; v ← callf f this [CRef a]; run_prog callf this (next v)
  | PMethod name args next => v ← invoke callf this name args; run_prog callf this (next v)
  end.

(** ** The specification *)

(** A method of a level: code of the page, or the empty function. *)
Inductive mcode := MCode (k : N) | MNoop.
Record level := Level { lv_ctor : nat; lv_proto : nat; lv_methods : list (jstr * mcode) }.

Fixpoint resolve (ls : list level) (prop : jstr) : option (mcode * list level) :=
  match ls with
  | [] => None
  | l :: rest => match assoc (lv_methods l) prop with Some m => Some (m, rest) | None => resolve rest prop end
  end.

(** The fields of the instance and the log. *)
Record fstate := FState { fs_get : jstr -> cval; fs_log : list (jstr * cval * list cval) }.

Definition is_field (M : list jstr) (name : jstr) : bool :=
  negb (bool_decide (name ∈ super_name :: apply_name :: proto_name :: M)).

Section spec.
Context (M : list jstr) (code : N -> list cval -> wprog) (this : cval) (all : list level).

Fixpoint sp_prog (method : list level -> jstr -> list cval -> SM fstate cval) (prop : jstr) (rest : list level) (p : wprog) : SM fstate cval :=
  match p with
  | PRet v => mret v
  | PThrow e => sm_throw e
  | PLog name args next => sm_mod (fun s => FState (fs_get s) (fs_log s ++ [(name, this, args)])) ;; sp_prog method prop rest next
  | PGet name next =>
      if is_field M name then v ← sm_get (fun s => fs_get s name); sp_prog method prop rest (next v) else sm_lift NoFuel
  | PSet name v next =>
      if is_field M name then
        sm_mod (fun s => FState (fun k => if decide (k = name) then v else fs_get s k) (fs_log s)) ;; sp_prog method prop rest next
      else sm_lift NoFuel
  | PSuper args next | PSuperApply args next => v ← method rest prop args; sp_prog method prop rest (next v)
  | PMethod name args next => v ← method all name args; sp_prog method prop rest (next v)
  end.

(** A method from some levels on, with its depth of calls bounded; names other than [M]
    and fields of other names are outside of what the specification covers. *)
Fixpoint sp_method (n : nat) (from : list level) (prop : jstr) (args : list cval) : SM fstate cval :=
  match n with
  | O => sm_lift NoFuel
  | S n =>
      if bool_decide (prop ∈ M) then
        match resolve from prop with
        | None => sm_throw (str "TypeError")
        | Some (MNoop, _) => mret CUndef
        | Some (MCode k, rest) => sp_prog (sp_method n) prop rest (code k args)
        end
      else sm_lift NoFuel
  end.
End spec.

(** ** Levels in a heap *)

(** A chain of prototypes ends, and does not come to the instance. *)
Fixpoint chain_ends (this : nat) (n : nat) (h : heap) (o : nat) : bool :=
  match n with
  | O => false
  | S n => negb (bool_decide (o = this)) && match h !! o with
                                              | Some ob => match o_proto ob with Some p => chain_ends this n h p | None => true end
                                              | None => false
                                              end
  end.

Definition is_fn (fns : gmap nat wfn) (v : cval) (ok : wfn -> bool) : bool :=
  match v with CRef f => match fns !! f with Some fn => ok fn | None => false end | _ => false end.

(** The function that a level has for a method. *)
Definition mcode_ok (fns : gmap nat wfn) (m : mcode) (prop : jstr) (rest : list level) (f : cval) : bool :=
  match m with
  | MNoop => is_fn fns f (fun fn => match fn with FNoop => true | _ => false end)
  | MCode k =>
      match rest with
      | [] => false
      | l :: _ => is_fn fns f (fun fn => match fn with
          | FProxy base p value sup superApply =>
              bool_decide (base = lv_ctor l) && bool_decide (p = prop)
              && is_fn fns value (fun fn => match fn with FUser k' => (k' =? k)%N | _ => false end)
              && is_fn fns sup (fun fn => match fn with FSuper b p => bool_decide (b = lv_ctor l) && bool_decide (p = prop) | _ => false end)
              && is_fn fns superApply (fun fn => match fn with FSuperApply b p => bool_decide (b = lv_ctor l) && bool_decide (p = prop) | _ => false end)
          | _ => false
          end)
      end
  end.

Definition level_ok (M : list jstr) (this : nat) (h : heap) (fns : gmap nat wfn) (l : level) (rest : list level) : bool :=
  match h !! lv_ctor l, h !! lv_proto l with
  | Some cob, Some pob =>
      negb (bool_decide (lv_ctor l = this)) && bool_decide (own cob (str "prototype") = Some (CRef (lv_proto l)))
      && chain_ends this (length h) h (lv_proto l)
      && forallb (fun prop => match assoc (lv_methods l) prop, own pob prop with
                              | Some m, Some f => mcode_ok fns m prop rest f
                              | None, None => match rest, o_proto pob with
                                              | l' :: _, Some p => bool_decide (p = lv_proto l')
                                              | [], Some p => bool_decide (chain_get (length h) h p prop = None)
                                              | [], None => true
                                              | _, None => false
                                              end
                              | _, _ => false
                              end) M
  | _, _ => false
  end.

Fixpoint levels_ok (M : list jstr) (this : nat) (h : heap) (fns : gmap nat wfn) (ls : list level) : bool :=
  match ls with [] => true | l :: rest => level_ok M this h fns l rest && levels_ok M this h fns rest end.

(** The instance: an object with the prototype of the first level and without methods of
    its own. *)
Definition instance_ok (M : list jstr) (this : nat) (h : heap) (ls : list level) : bool :=
  match h !! this, ls with
  | Some ob, l :: _ => match o_kind ob with KObject => true | _ => false end && match o_hidden ob with [] => true | _ => false end && bool_decide (o_proto ob = Some (lv_proto l))
                       && forallb (fun name => bool_decide (assoc (o_props ob) name = None)) M
  | _, _ => false
  end.

(** ** Lookups *)

Lemma chain_stable this n h0 h o name : chain_ends this n h0 o = true ->
  (forall o', o' <> this -> (o' < length h0)%nat -> h !! o' = h0 !! o') ->
  forall m m', (n <= m)%nat -> (n <= m')%nat -> chain_get m h o name = chain_get m' h0 o name.
Proof.
  revert o. induction n as [|n IH]; intros o Hc Hh m m' Hm Hm'; [done|].
  destruct m as [|m]; [lia|]. destruct m' as [|m']; [lia|]. cbn [chain_ends chain_get] in *.
  apply andb_true_iff in Hc as [Ho Hc]. apply negb_true_iff, bool_decide_eq_false_1 in Ho.
  destruct (h0 !! o) as [ob|] eqn:E; [|done]. rewrite Hh, E by (done || by eapply lookup_lt_Some).
  destruct (own ob name); [done|]. destruct (o_proto ob) as [p|]; [|done]. apply IH; [done|done|lia|lia].
Qed.

Lemma get_member_eq h o name ob : h !! o = Some ob ->
  get_member h o name = match own ob name with
                        | Some v => v
                        | None => match o_proto ob with Some p => default CUndef (chain_get (length h) h p name) | None => CUndef end
                        end.
Proof. intros E. unfold get_member. cbn [chain_get]. rewrite E. destruct (own ob name); [done|]. by destruct (o_proto ob). Qed.

(** ** Arrays *)

Lemma index_name_inj i j : index_name i = index_name j -> i = j.
Proof. intros E. apply (f_equal parse_digits) in E. unfold index_name in E. rewrite !parse_N_to_str in E. lia. Qed.

Lemma index_name_length i : index_name i <> length_name.
Proof.
  intros E. pose proof (N_to_str_digits (N.of_nat i)) as Hd. fold (index_name i) in Hd. rewrite E in Hd.
  apply Forall_cons_1 in Hd as [Hd _]. by vm_compute in Hd.
Qed.

Lemma assoc_indices (l : list cval) n i : (n <= i)%nat ->
  assoc (zip (List.map index_name (seq n (length l))) l) (index_name i) = l !! (i - n)%nat.
Proof.
  revert n. induction l as [|v l IH]; intros n Hi; [done|].
  change (assoc ((index_name n, v) :: zip (List.map index_name (seq (S n) (length l))) l) (index_name i) = (v :: l) !! (i - n)%nat).
  cbn [assoc]. case_decide as E.
  - apply index_name_inj in E as ->. by replace (i - i)%nat with 0%nat by lia.
  - assert (n <> i) by (by intros ->). rewrite IH by lia.
    by replace (i - n)%nat with (S (i - S n)) by lia.
Qed.

Lemma elements_array h a l : h !! a = Some (array_of l) -> elements h a = l.
Proof.
  intros E. unfold elements, length_of. cbn [get_value]. rewrite (get_member_eq _ _ _ _ E). unfold own at 1. cbn [o_kind array_of].
  rewrite decide_True by done. cbn [loop_length]. replace (Z.to_nat (Z.of_N (N.of_nat (length l)))) with (length l) by lia.
  apply list_eq. intros i. change (@List.map nat cval) with (@fmap list _ nat cval). rewrite list_lookup_fmap.
  destruct (decide (i < length l)%nat) as [Hi|Hi].
  - rewrite lookup_seq_lt by done. cbn [fmap option_fmap option_map]. rewrite Nat.add_0_l. unfold item. cbn [get_value]. rewrite (get_member_eq _ _ _ _ E). unfold own. cbn [o_kind o_props array_of].
    rewrite decide_False by apply index_name_length. rewrite (assoc_indices l 0 i) by lia. rewrite Nat.sub_0_r.
    destruct (l !! i) eqn:El; [done|]. apply lookup_ge_None in El. lia.
  - rewrite lookup_seq_ge by lia. symmetry. apply lookup_ge_None. lia.
Qed.

Section refinement.
Context `{WidgetHost} (M : list jstr) (code : N -> list cval -> wprog) (fuel : nat).

(** The functions of the page. *)
Definition prog_user (k : N) (callf : cval -> cval -> list cval -> SM wstate cval) (this : cval) (args : list cval) : SM wstate cval :=
  run_prog callf this (code k args).

Context (h0 : heap) (fns0 : gmap nat wfn) (this : nat) (top : level) (below : list level).
Hypothesis Hlevels : levels_ok M this h0 fns0 (top :: below) = true.
Hypothesis Hnames : super_name ∉ M /\ apply_name ∉ M /\ proto_name ∉ M.

(** What the instance inherits. *)
Definition inherited_field (name : jstr) : cval := get_member h0 (lv_proto top) name.

(** A state of the code and one of the specification. *)
Record related (s : wstate) (fs : fstate) : Prop := Related {
  rel_fns : ws_fns s = fns0;
  rel_len : (length h0 <= length (ws_heap s))%nat;
  rel_old o : o <> this -> (o < length h0)%nat -> ws_heap s !! o = h0 !! o;
  rel_this : exists p, ws_heap s !! this = Some (Object KObject (Some (lv_proto top)) p [])
    /\ (forall name, name ∈ M -> assoc p name = None)
    /\ forall name, is_field M name = true -> default (inherited_field name) (assoc p name) = fs_get fs name;
  rel_log : ws_log s = fs_log fs
}.

(** The functions that [_super] and [_superApply] of the instance are. *)
Definition supers (s : wstate) : cval * cval := (get_member (ws_heap s) this super_name, get_member (ws_heap s) this apply_name).

Lemma level_parts M' h fns l rest : level_ok M' this h fns l rest = true ->
  exists cob pob, h !! lv_ctor l = Some cob /\ h !! lv_proto l = Some pob /\ lv_ctor l <> this
    /\ own cob (str "prototype") = Some (CRef (lv_proto l)) /\ chain_ends this (length h) h (lv_proto l) = true
    /\ forall prop, prop ∈ M' -> match assoc (lv_methods l) prop, own pob prop with
                              | Some m, Some f => mcode_ok fns m prop rest f = true
                              | None, None => match rest, o_proto pob with
                                              | l' :: _, Some p => p = lv_proto l'
                                              | [], Some p => chain_get (length h) h p prop = None
                                              | [], None => True
                                              | _, None => False
                                              end
                              | _, _ => False
                              end.
Proof.
  unfold level_ok. destruct (h !! lv_ctor l) as [cob|]; [|done]. destruct (h !! lv_proto l) as [pob|]; [|done].
  rewrite !andb_true_iff, negb_true_iff, bool_decide_eq_false, bool_decide_eq_true. intros [[[H1 H2] H3] H4].
  exists cob, pob. split_and!; try done. intros prop Hin. rewrite forallb_forall in H4.
  specialize (H4 prop (proj1 (list_elem_of_In _ _) Hin)). destruct (assoc (lv_methods l) prop), (own pob prop); try done.
  destruct rest as [|l' rest], (o_proto pob) as [p|]; try done; by apply bool_decide_eq_true in H4.
Qed.

(** A function is the one that a method resolves to. *)
Definition resolves (f : cval) (ls : list level) (prop : jstr) : Prop :=
  match resolve ls prop with Some (m, rest) => mcode_ok fns0 m prop rest f = true | None => f = CUndef end.

Lemma levels_cons l rest : levels_ok M this h0 fns0 (l :: rest) = true -> level_ok M this h0 fns0 l rest = true /\ levels_ok M this h0 fns0 rest = true.
Proof. cbn [levels_ok]. by rewrite andb_true_iff. Qed.

Lemma lookup_resolves l rest prop : levels_ok M this h0 fns0 (l :: rest) = true -> prop ∈ M ->
  resolves (get_member h0 (lv_proto l) prop) (l :: rest) prop.
Proof.
  revert l. induction rest as [|l' rest IH]; intros l Hl Hin; apply levels_cons in Hl as [Hl Hr];
    apply level_parts in Hl as (cob & pob & _ & Ep & _ & _ & Hc & Hm); specialize (Hm prop Hin);
    rewrite (get_member_eq h0 _ prop pob Ep); unfold resolves; cbn [resolve];
    destruct (assoc (lv_methods l) prop) as [m|]; destruct (own pob prop) as [f|]; try done.
  - destruct (o_proto pob) as [p|]; [by rewrite Hm|done].
  - destruct (o_proto pob) as [p|]; [|done]. subst p. specialize (IH l' Hr Hin). unfold resolves, get_member in IH.
    replace (chain_get (length h0) h0 (lv_proto l') prop) with (chain_get (S (length h0)) h0 (lv_proto l') prop); [exact IH|].
    apply levels_cons in Hr as [Hl' _]. apply level_parts in Hl' as (_ & _ & _ & _ & _ & _ & Hc' & _).
    apply (chain_stable this (length h0) h0 h0 _ prop Hc'); [done|lia|done].
Qed.

(** ** The instance *)

Lemma top_chain : chain_ends this (length h0) h0 (lv_proto top) = true.
Proof. apply levels_cons in Hlevels as [Hl _]. by apply level_parts in Hl as (_ & _ & _ & _ & _ & _ & Hc & _). Qed.

Lemma chain_above s fs l rest name : related s fs -> levels_ok M this h0 fns0 (l :: rest) = true ->
  forall m, (length h0 <= m)%nat -> chain_get m (ws_heap s) (lv_proto l) name = chain_get (S (length h0)) h0 (lv_proto l) name.
Proof.
  intros Hr Hl m Hm. apply levels_cons in Hl as [Hl _]. apply level_parts in Hl as (_ & _ & _ & _ & _ & _ & Hc & _).
  apply (chain_stable this (length h0)); [done|apply (rel_old _ _ Hr)|done|lia].
Qed.

(** The members of the instance. *)
Lemma this_member s fs p name : related s fs -> ws_heap s !! this = Some (Object KObject (Some (lv_proto top)) p []) ->
  get_member (ws_heap s) this name = default (inherited_field name) (assoc p name).
Proof.
  intros Hr E. rewrite (get_member_eq _ _ _ _ E). unfold own. cbn [o_kind o_props o_hidden o_proto assoc].
  destruct (assoc p name) as [v|]; [done|]. cbn [default]. unfold inherited_field, get_member.
  by rewrite (chain_above s fs top below) by (done || apply (rel_len _ _ Hr)).
Qed.

Lemma getp_ref s o name : name <> proto_name -> getp (CRef o) name s = (Ok (get_member (ws_heap s) o name), s).
Proof. intros Hn. unfold getp. rewrite sm_get_bind. unfold prop_of. by rewrite bool_decide_eq_false_2. Qed.

Definition with_heap (h : heap) (s : wstate) : wstate := WState h (ws_fns s) (ws_uuid s) (ws_data s) (ws_log s).

Lemma setp_this s o ob name v : name <> proto_name -> ws_heap s !! o = Some ob -> o_kind ob = KObject -> o_hidden ob = [] ->
  setp (CRef o) name v s = (Ok tt, with_heap (<[o := set_props (put_key name v (o_props ob)) ob]> (ws_heap s)) s).
Proof.
  intros Hn E Hk Hh. unfold setp. rewrite sm_get_bind, bool_decide_eq_false_2 by done. cbn [andb]. unfold on_heap, put. rewrite E.
  unfold put_member. by rewrite Hk, Hh.
Qed.

(** Writing a property of the instance that is no method. *)
Lemma set_this s fs p name v : related s fs -> ws_heap s !! this = Some (Object KObject (Some (lv_proto top)) p []) ->
  name ∉ M -> name <> proto_name ->
  exists s', setp (CRef this) name v s = (Ok tt, s')
    /\ related s' (if is_field M name then FState (fun k => if decide (k = name) then v else fs_get fs k) (fs_log fs) else fs)
    /\ forall k, get_member (ws_heap s') this k = if decide (k = name) then v else get_member (ws_heap s) this k.
Proof.
  intros Hr E Hm Hn. eexists. split; [by apply (setp_this _ _ _ _ _ Hn E)|]. unfold set_props. cbn [o_kind o_proto o_hidden o_props].
  set (s' := with_heap _ s). assert (Hlt := lookup_lt_Some _ _ _ E).
  assert (ws_heap s' !! this = Some (Object KObject (Some (lv_proto top)) (put_key name v p) [])) as E' by (apply list_lookup_insert_eq; done).
  assert (related s' (if is_field M name then FState (fun k => if decide (k = name) then v else fs_get fs k) (fs_log fs) else fs)) as Hr'.
  { destruct (rel_this _ _ Hr) as (p' & E1 & Hp & Hf). rewrite E in E1. injection E1 as <-.
    constructor.
    - apply (rel_fns _ _ Hr).
    - unfold s', with_heap. cbn. rewrite length_insert. apply (rel_len _ _ Hr).
    - intros o Ho Hlo. unfold s', with_heap. cbn. rewrite list_lookup_insert_ne by done. by apply (rel_old _ _ Hr).
    - exists (put_key name v p). split; [done|]. split.
      + intros k Hk. rewrite assoc_put_key. rewrite decide_False by (by intros ->). by apply Hp.
      + intros k Hk. rewrite assoc_put_key. destruct (decide (name = k)) as [<-|Hne].
        * rewrite Hk. cbn. by rewrite decide_True.
        * rewrite Hf by done. destruct (is_field M name); [|done]. cbn. by rewrite decide_False.
    - destruct (is_field M name); apply (rel_log _ _ Hr). }
  split; [done|]. intros k. rewrite (this_member _ _ _ _ Hr' E'), (this_member _ _ _ _ Hr E), assoc_put_key.
  repeat case_decide; try congruence; done.
Qed.

(** ** Refinement *)

(** [m] does what [sp] does, while the fields [_super] and [_superApply] hold [x]. *)
Definition refines {A} (x : cval * cval) (m : SM wstate A) (sp : SM fstate A) : Prop :=
  forall s fs r fs', related s fs -> supers s = x -> sp fs = (r, fs') -> r <> NoFuel ->
  exists s', m s = (r, s') /\ related s' fs' /\ (is_ok r = true -> supers s' = x).

Lemma refines_value {A} x (a : A) : refines x (mret a) (mret a).
Proof. intros s fs r fs' Hr Hx [= <- <-] _. by exists s. Qed.

Lemma refines_throw {A} x e : refines x (sm_throw e : SM wstate A) (sm_throw e).
Proof. intros s fs r fs' Hr Hx [= <- <-] _. by exists s. Qed.

Lemma refines_fuel {A} x (m : SM wstate A) : refines x m (sm_lift NoFuel).
Proof. intros s fs r fs' Hr Hx [= <- <-] Hn. done. Qed.

Lemma refines_seq {A B} x (m : SM wstate A) (sp : SM fstate A) (k : A -> SM wstate B) (k' : A -> SM fstate B) :
  refines x m sp -> (forall a, refines x (k a) (k' a)) -> refines x (m ≫= k) (sp ≫= k').
Proof.
  intros Hm Hk s fs r fs' Hr Hx E Hn. destruct (sp fs) as [r1 fs1] eqn:E1. rewrite (sm_bind_eq _ _ _ _ _ E1) in E.
  destruct (Hm s fs r1 fs1 Hr Hx E1) as (s1 & Em & Hr1 & Hs1). { intros ->. by injection E as <-. }
  rewrite (sm_bind_eq _ _ _ _ _ Em). destruct r1 as [a|e|].
  - by apply (Hk a s1 fs1 r fs' Hr1 (Hs1 eq_refl)).
  - injection E as <- <-. by exists s1.
  - by injection E as <- <-.
Qed.

(** A step of the code that leaves the relation. *)
Lemma refines_step {A B} x (m : SM wstate A) (k : A -> SM wstate B) (sp : SM fstate B) :
  (forall s fs, related s fs -> supers s = x -> exists a s', m s = (Ok a, s') /\ related s' fs /\ supers s' = x /\ refines x (k a) sp) ->
  refines x (m ≫= k) sp.
Proof.
  intros Hm s fs r fs' Hr Hx E Hn. destruct (Hm s fs Hr Hx) as (a & s1 & E1 & Hr1 & Hx1 & Hk).
  rewrite (sm_bind_eq _ _ _ _ _ E1). by apply (Hk s1 fs).
Qed.

Lemma refines_get {B} x name (k : cval -> SM wstate B) (k' : cval -> SM fstate B) :
  is_field M name = true -> (forall v, refines x (k v) (k' v)) ->
  refines x (getp (CRef this) name ≫= k) (sm_get (fun s => fs_get s name) ≫= k').
Proof.
  intros Hf Hk. apply refines_seq; [|done]. intros s fs r fs' Hr Hx [= <- <-] _. exists s.
  destruct (rel_this _ _ Hr) as (p & E & _ & Hp). split; [|done].
  rewrite getp_ref by (intros ->; unfold is_field in Hf; rewrite bool_decide_eq_true_2 in Hf; [done|set_solver]).
  by rewrite (this_member _ _ _ _ Hr E), Hp.
Qed.

Lemma field_not name : is_field M name = true -> name ∉ M /\ name <> proto_name /\ name <> super_name /\ name <> apply_name.
Proof. unfold is_field. rewrite negb_true_iff, bool_decide_eq_false. set_solver. Qed.

Lemma refines_set x name v : is_field M name = true ->
  refines x (setp (CRef this) name v) (sm_mod (fun s => FState (fun k => if decide (k = name) then v else fs_get s k) (fs_log s))).
Proof.
  intros Hf s fs r fs' Hr Hx [= <- <-] _. destruct (rel_this _ _ Hr) as (p & E & _ & _).
  destruct (field_not name Hf) as (Hm & Hp & Hs & Ha).
  destruct (set_this s fs p name v Hr E Hm Hp) as (s' & Es & Hr' & Hg). rewrite Hf in Hr'. exists s'. split_and!; [done|done|].
  intros _. unfold supers. rewrite !Hg, !decide_False by done. done.
Qed.

Lemma refines_record x name args : refines x (record name (CRef this) args) (sm_mod (fun s => FState (fs_get s) (fs_log s ++ [(name, CRef this, args)]))).
Proof.
  intros s fs r fs' Hr Hx [= <- <-] _. eexists. split; [done|]. split; [|done].
  destruct Hr as [H1 H2 H3 H4 H5]. constructor; try done. cbn. by rewrite H5.
Qed.

(** [_super] of the instance. *)
Lemma refines_super {B} a b name (k : cval -> SM wstate B) (sp : SM fstate B) v :
  (name = super_name /\ v = a) \/ (name = apply_name /\ v = b) ->
  refines (a, b) (k v) sp -> refines (a, b) (getp (CRef this) name ≫= k) sp.
Proof.
  intros Hn Hk. apply refines_step. intros s fs Hr Hx. exists v, s. injection Hx as Ha Hb.
  split_and!; [|done|unfold supers; by rewrite Ha, Hb|done].
  rewrite getp_ref by (destruct Hn as [[-> _]|[-> _]]; discriminate). by destruct Hn as [[-> ->]|[-> ->]]; rewrite ?Ha, ?Hb.
Qed.

(** A proxied method: the fields are set for [value] and put back. *)
Lemma refines_proxy x callf value sup superApply args (sp : SM fstate cval) :
  super_name ∉ M -> apply_name ∉ M ->
  refines (sup, superApply) (callf value (CRef this) args) sp ->
  refines x (run_proxy callf value sup superApply (CRef this) args) sp.
Proof.
  intros Hsm Ham Hv s fs r fs' Hr Hx E Hn. unfold run_proxy.
  assert (is_field M super_name = false) as Fs by (unfold is_field; rewrite bool_decide_eq_true_2; [done|set_solver]).
  assert (is_field M apply_name = false) as Fa by (unfold is_field; rewrite bool_decide_eq_true_2; [done|set_solver]).
  rewrite (sm_bind_eq _ _ _ _ _ (getp_ref s this super_name ltac:(done))), (sm_bind_eq _ _ _ _ _ (getp_ref s this apply_name ltac:(done))).
  destruct (rel_this _ _ Hr) as (p & Ep & _ & _).
  destruct (set_this s fs p super_name sup Hr Ep Hsm ltac:(done)) as (s1 & E1 & Hr1 & Hg1). rewrite Fs in Hr1.
  destruct (rel_this _ _ Hr1) as (p1 & Ep1 & _ & _).
  destruct (set_this s1 fs p1 apply_name superApply Hr1 Ep1 Ham ltac:(done)) as (s2 & E2 & Hr2 & Hg2). rewrite Fa in Hr2.
  rewrite (sm_bind_eq _ _ _ _ _ E1), (sm_bind_eq _ _ _ _ _ E2).
  assert (supers s2 = (sup, superApply)) as Hx2 by (unfold supers; by rewrite !Hg2, !Hg1).
  destruct (Hv s2 fs r fs' Hr2 Hx2 E Hn) as (s3 & E3 & Hr3 & _). rewrite (sm_bind_eq _ _ _ _ _ E3).
  destruct r as [a|e|]; [|by exists s3|done]. destruct (rel_this _ _ Hr3) as (p3 & Ep3 & _ & _).
  destruct (set_this s3 fs' p3 super_name (get_member (ws_heap s) this super_name) Hr3 Ep3 Hsm ltac:(done)) as (s4 & E4 & Hr4 & Hg4). rewrite Fs in Hr4.
  destruct (rel_this _ _ Hr4) as (p4 & Ep4 & _ & _).
  destruct (set_this s4 fs' p4 apply_name (get_member (ws_heap s) this apply_name) Hr4 Ep4 Ham ltac:(done)) as (s5 & E5 & Hr5 & Hg5). rewrite Fa in Hr5.
  rewrite (sm_bind_eq _ _ _ _ _ E4), (sm_bind_eq _ _ _ _ _ E5). exists s5. split_and!; [done|done|].
  intros _. rewrite <- Hx. unfold supers. by rewrite !Hg5, !Hg4.
Qed.


(** The same in states with an extra property. *)
Definition refines_in {A} (Q : wstate -> Prop) (x : cval * cval) (m : SM wstate A) (sp : SM fstate A) : Prop :=
  forall s fs r fs', Q s -> related s fs -> supers s = x -> sp fs = (r, fs') -> r <> NoFuel ->
  exists s', m s = (r, s') /\ related s' fs' /\ (is_ok r = true -> supers s' = x).

Lemma new_array_related s fs args : related s fs ->
  exists s', new_arr args s = (Ok (length (ws_heap s)), s') /\ related s' fs /\ supers s' = supers s
    /\ elements (ws_heap s') (length (ws_heap s)) = args.
Proof.
  intros Hr. exists (with_heap (ws_heap s ++ [array_of args]) s). split; [done|].
  destruct (rel_this _ _ Hr) as (p & E & Hp & Hf).
  assert (ws_heap (with_heap (ws_heap s ++ [array_of args]) s) !! this = Some (Object KObject (Some (lv_proto top)) p [])) as E'.
  { cbn. rewrite lookup_app_l; [done|by eapply lookup_lt_Some]. }
  assert (related (with_heap (ws_heap s ++ [array_of args]) s) fs) as Hr'.
  { destruct Hr as [H1 H2 H3 H4 H5]. constructor; [done|cbn; rewrite length_app; lia| |by exists p|done].
    intros o Ho Hlo. cbn. rewrite lookup_app_l by lia. by apply H3. }
  split; [done|]. split.
  - unfold supers. by rewrite !(this_member _ _ _ _ Hr' E'), !(this_member _ _ _ _ Hr E).
  - apply elements_array. cbn. by rewrite list_lookup_middle.
Qed.

Lemma call_eq user n f v args s fn : ws_fns s !! f = Some fn ->
  call fuel user (S n) (CRef f) v args s
  = match fn with
    | FUser k => user k (call fuel user n) v args
    | FProxy base prop value sup superApply => run_proxy (call fuel user n) value sup superApply v args
    | FSuper base prop => run_super (call fuel user n) base prop v args
    | FSuperApply base prop => l ← apply_args (arg args 0); run_super (call fuel user n) base prop v l
    | FNoop => mret CUndef
    | _ => call fuel user (S n) (CRef f) v args
    end s.
Proof. intros E. destruct fn; try done; cbn [call]; by rewrite sm_get_bind, E. Qed.

Lemma is_fn_inv fns v ok : is_fn fns v ok = true -> exists f fn, v = CRef f /\ fns !! f = Some fn /\ ok fn = true.
Proof. unfold is_fn. destruct v as [| | | | |f]; try done. destruct (fns !! f) as [fn|] eqn:E; [|done]. intros Ho. by exists f, fn. Qed.

(** The functions of a method that code of the page defines. *)
Lemma proxy_parts k prop rest f : mcode_ok fns0 (MCode k) prop rest f = true ->
  exists l rest' i value sup superApply u s sa, rest = l :: rest' /\ f = CRef i /\ value = CRef u /\ sup = CRef s /\ superApply = CRef sa
    /\ fns0 !! i = Some (FProxy (lv_ctor l) prop value sup superApply) /\ fns0 !! u = Some (FUser k)
    /\ fns0 !! s = Some (FSuper (lv_ctor l) prop) /\ fns0 !! sa = Some (FSuperApply (lv_ctor l) prop).
Proof.
  unfold mcode_ok. destruct rest as [|l rest']; [done|]. intros (i & fn & -> & Ei & Ho)%is_fn_inv.
  destruct fn as [| |base p value sup superApply| | | | | | | |]; try done. rewrite !andb_true_iff, !bool_decide_eq_true in Ho.
  destruct Ho as [[[[-> ->] Hu] Hs] Ha].
  apply is_fn_inv in Hu as (u & fu & -> & Eu & Hu). destruct fu as [k'| | | | | | | | | |]; try done. apply N.eqb_eq in Hu as ->.
  apply is_fn_inv in Hs as (s & fs & -> & Es & Hs). destruct fs; try done. rewrite andb_true_iff, !bool_decide_eq_true in Hs. destruct Hs as [-> ->].
  apply is_fn_inv in Ha as (sa & fa & -> & Ea & Ha). destruct fa; try done. rewrite andb_true_iff, !bool_decide_eq_true in Ha. destruct Ha as [-> ->].
  by exists l, rest', i, (CRef u), (CRef s), (CRef sa), u, s, sa.
Qed.

(** The prototype of the constructor of a level, and its methods. *)
Lemma level_prototype s fs l rest : related s fs -> levels_ok M this h0 fns0 (l :: rest) = true ->
  getp (CRef (lv_ctor l)) (str "prototype") s = (Ok (CRef (lv_proto l)), s).
Proof.
  intros Hr Hl. apply levels_cons in Hl as [Hl _]. apply level_parts in Hl as (cob & pob & Ec & _ & Hne & Hp & _ & _).
  rewrite getp_ref by done. assert (ws_heap s !! lv_ctor l = Some cob) as E.
  { rewrite (rel_old _ _ Hr); [done|done|by eapply lookup_lt_Some]. }
  by rewrite (get_member_eq _ _ _ _ E), Hp.
Qed.

Lemma level_method s fs l rest prop : related s fs -> levels_ok M this h0 fns0 (l :: rest) = true -> prop <> proto_name ->
  getp (CRef (lv_proto l)) prop s = (Ok (get_member h0 (lv_proto l) prop), s).
Proof.
  intros Hr Hl Hn. rewrite getp_ref by done. unfold get_member at 1. rewrite (chain_above s fs l rest) by (done || (pose proof (rel_len _ _ Hr); lia)). done.
Qed.

Lemma resolve_levels ls prop m rest : levels_ok M this h0 fns0 ls = true -> resolve ls prop = Some (m, rest) -> levels_ok M this h0 fns0 rest = true.
Proof.
  induction ls as [|l ls IH]; [done|]. intros [_ Hl]%levels_cons. cbn [resolve]. destruct (assoc (lv_methods l) prop).
  - by intros [= _ <-].
  - by apply IH.
Qed.

Abbreviation sp_call := (sp_method M code (CRef this) (top :: below)).

(** The induction hypothesis: a function that a method resolves to does the method. *)
Definition methods_done (n : nat) : Prop := forall from prop args m f x, levels_ok M this h0 fns0 from = true -> prop ∈ M ->
  resolves f from prop -> (3 * n <= m)%nat -> refines x (call fuel prog_user m f (CRef this) args) (sp_call n from prop args).

Lemma run_super_done n m l rest prop args x : methods_done n -> levels_ok M this h0 fns0 (l :: rest) = true -> prop ∈ M -> (3 * n <= m)%nat ->
  refines x (run_super (call fuel prog_user m) (lv_ctor l) prop (CRef this) args) (sp_call n (l :: rest) prop args).
Proof.
  intros IH Hl Hin Hm s fs r fs' Hr Hx E Hn. unfold run_super.
  assert (prop <> proto_name) as Hp by (intros ->; tauto).
  rewrite (sm_bind_eq _ _ _ _ _ (level_prototype s fs l rest Hr Hl)), (sm_bind_eq _ _ _ _ _ (level_method s fs l rest prop Hr Hl Hp)).
  eapply (IH (l :: rest)); try done. by apply lookup_resolves.
Qed.

Lemma super_done n m s l rest prop args x : methods_done n -> levels_ok M this h0 fns0 (l :: rest) = true -> prop ∈ M -> (3 * n <= m)%nat ->
  fns0 !! s = Some (FSuper (lv_ctor l) prop) ->
  refines x (call fuel prog_user (S m) (CRef s) (CRef this) args) (sp_call n (l :: rest) prop args).
Proof.
  intros IH Hl Hin Hm Es st fs r fs' Hr. rewrite (call_eq _ _ _ _ _ _ (FSuper (lv_ctor l) prop)) by (by rewrite (rel_fns _ _ Hr)).
  by apply run_super_done.
Qed.

Lemma apply_done n m sa a l rest prop args x : methods_done n -> levels_ok M this h0 fns0 (l :: rest) = true -> prop ∈ M -> (3 * n <= m)%nat ->
  fns0 !! sa = Some (FSuperApply (lv_ctor l) prop) ->
  refines_in (fun s => elements (ws_heap s) a = args) x (call fuel prog_user (S m) (CRef sa) (CRef this) [CRef a]) (sp_call n (l :: rest) prop args).
Proof.
  intros IH Hl Hin Hm Es st fs r fs' Ha Hr. rewrite (call_eq _ _ _ _ _ _ (FSuperApply (lv_ctor l) prop)) by (by rewrite (rel_fns _ _ Hr)).
  cbn [arg lookup list_lookup default apply_args]. unfold arg. cbn. rewrite sm_get_bind, Ha. by apply run_super_done.
Qed.

(** Code of the page, while [_super] and [_superApply] are the functions of its method. *)
Lemma prog_done n m prop l rest s sa p : methods_done n -> levels_ok M this h0 fns0 (l :: rest) = true -> prop ∈ M -> (3 * n <= m)%nat ->
  fns0 !! s = Some (FSuper (lv_ctor l) prop) -> fns0 !! sa = Some (FSuperApply (lv_ctor l) prop) ->
  refines (CRef s, CRef sa) (run_prog (call fuel prog_user (S m)) (CRef this) p)
    (sp_prog M (CRef this) (top :: below) (sp_call n) prop (l :: rest) p).
Proof.
  intros IH Hl Hin Hm Es Ea. induction p as [v|e|name args p IHp|name k IHk|name v p IHp|args k IHk|args k IHk|name args k IHk]; cbn [run_prog sp_prog].
  - apply refines_value.
  - apply refines_throw.
  - apply refines_seq; [apply refines_record|done].
  - destruct (is_field M name) eqn:Hf; [by apply refines_get|apply refines_fuel].
  - destruct (is_field M name) eqn:Hf; [|apply refines_fuel]. apply refines_seq; [by apply refines_set|done].
  - eapply refines_super; [by left|]. apply refines_seq; [by apply super_done|done].
  - intros st fs r fs' Hr Hx E Hn. destruct (new_array_related st fs args Hr) as (s1 & E1 & Hr1 & Hx1 & Hargs).
    rewrite (sm_bind_eq _ _ _ _ _ E1). rewrite Hx in Hx1. injection Hx1 as Hx1 Hx2.
    rewrite (sm_bind_eq _ _ _ _ _ (getp_ref s1 this apply_name ltac:(done))). rewrite Hx2.
    destruct (sp_call n (l :: rest) prop args fs) as [r1 fs1] eqn:E2. rewrite (sm_bind_eq _ _ _ _ _ E2) in E.
    destruct (apply_done n m sa (length (ws_heap st)) l rest prop args (CRef s, CRef sa) IH Hl Hin Hm Ea s1 fs r1 fs1 Hargs Hr1) as (s2 & E3 & Hr2 & Hx3); [|done| |].
    { unfold supers. by rewrite Hx1, Hx2. }
    { intros ->. by injection E as <-. }
    rewrite (sm_bind_eq _ _ _ _ _ E3). destruct r1 as [v|e|]; [|injection E as <- <-; by exists s2|by injection E as <- <-].
    by apply (IHk v s2 fs1 r fs' Hr2 (Hx3 eq_refl)).
  - apply refines_seq; [|done]. destruct n as [|n]; [apply refines_fuel|]. intros st fs r fs' Hr Hx E Hn.
    assert (name ∈ M) as Hm'. { cbn in E. case_bool_decide; [done|]. by injection E as <- <-. }
    assert (name <> proto_name) as Hp by (intros ->; tauto). unfold invoke.
    rewrite (sm_bind_eq _ _ _ _ _ (getp_ref st this name Hp)). eapply (IH (top :: below)); try done; [|lia].
    destruct (rel_this _ _ Hr) as (p & Et & Hp' & _). rewrite (this_member _ _ _ _ Hr Et), Hp' by done. by apply lookup_resolves.
Qed.

Lemma all_done n : methods_done n.
Proof.
  induction n as [|n IH]; intros from prop args m f x Hl Hin Hf Hm; [apply refines_fuel|].
  destruct m as [|[|[|m]]]; [lia..|]. cbn [sp_method]. rewrite bool_decide_eq_true_2 by done. unfold resolves in Hf.
  destruct (resolve from prop) as [[[k|] rest]|] eqn:Er.
  - apply proxy_parts in Hf as (l & rest' & i & value & sup & superApply & u & s & sa & -> & -> & -> & -> & -> & Ei & Eu & Es & Ea).
    intros st fs r fs' Hr. rewrite (call_eq _ _ i _ _ _ (FProxy (lv_ctor l) prop (CRef u) (CRef s) (CRef sa))) by (by rewrite (rel_fns _ _ Hr)).
    apply refines_proxy; [tauto|tauto| |done]. clear st fs r fs' Hr. intros st fs r fs' Hr.
    rewrite (call_eq _ _ u _ _ _ (FUser k)) by (by rewrite (rel_fns _ _ Hr)). unfold prog_user at 1.
    apply prog_done; try done; [|lia]. by eapply resolve_levels.
  - cbn in Hf. apply is_fn_inv in Hf as (i & fn & -> & Ei & Ho). destruct fn; try done.
    intros st fs r fs' Hr. rewrite (call_eq _ _ i _ _ _ FNoop) by (by rewrite (rel_fns _ _ Hr)). by apply refines_value.
  - subst f. intros st fs r fs' Hr Hx [= <- <-] _. by exists st.
Qed.

(** C38: Overriding and [_super]: for widgets of any number of levels, with methods that
    are programs on the instance (they read and write its fields, call its methods,
    [_super] and [_superApply], any number of times and as their results tell, and
    throw), calling a method of the instance does what the specification says, in which
    [_super] is the next definition of the method further down: the same answer or
    exception, fields, and calls in the same order.  When it returns, the fields
    [_super] and [_superApply] are what they were before. *)
Theorem methods_refine n m prop args s fs r fs' : related s fs ->
  sp_call n (top :: below) prop args fs = (r, fs') -> r <> NoFuel -> (3 * n <= m)%nat ->
  exists s', invoke (call fuel prog_user m) (CRef this) prop args s = (r, s') /\ related s' fs' /\ (is_ok r = true -> supers s' = supers s).
Proof.
  intros Hr E Hn Hm. destruct n as [|n]; [by injection E as <- <-|].
  assert (prop ∈ M) as Hin. { cbn in E. case_bool_decide; [done|]. by injection E as <- <-. }
  assert (prop <> proto_name) as Hp by (intros ->; tauto). unfold invoke.
  rewrite (sm_bind_eq _ _ _ _ _ (getp_ref s this prop Hp)).
  eapply (all_done (S n) (top :: below)); try done.
  destruct (rel_this _ _ Hr) as (p & Et & Hp' & _). rewrite (this_member _ _ _ _ Hr Et), Hp' by done. by apply lookup_resolves.
Qed.
End refinement.

(** A state with an instance is related to its fields. *)
Lemma related_start `{WidgetHost} M this top below s : levels_ok M this (ws_heap s) (ws_fns s) (top :: below) = true ->
  instance_ok M this (ws_heap s) (top :: below) = true ->
  related M (ws_heap s) (ws_fns s) this top s (FState (get_member (ws_heap s) this) (ws_log s)).
Proof.
  intros Hl Hi. unfold instance_ok in Hi. destruct (ws_heap s !! this) as [ob|] eqn:E; [|done].
  rewrite !andb_true_iff, bool_decide_eq_true in Hi. destruct Hi as [[[Hk Hh] Hp] Hm].
  destruct ob as [k pr p hid]. cbn in *. destruct k; try done. destruct hid; [|done]. subst pr.
  constructor; try done. exists p. split; [done|]. split.
  - intros name Hin. rewrite forallb_forall in Hm. apply (bool_decide_eq_true_1 _ (Hm name (proj1 (list_elem_of_In _ _) Hin))).
  - intros name Hf. cbn [fs_get]. rewrite (get_member_eq _ _ _ _ E). unfold own. cbn [o_kind o_props o_hidden o_proto assoc].
    destruct (assoc p name); [done|]. cbn [default]. unfold inherited_field, get_member.
    apply andb_true_iff in Hl as [Hl _]. unfold level_ok in Hl. destruct (ws_heap s !! lv_ctor top); [|done]. destruct (ws_heap s !! lv_proto top); [|done].
    rewrite !andb_true_iff in Hl. destruct Hl as [[_ Hc] _].
    by rewrite (chain_stable this (length (ws_heap s)) (ws_heap s) (ws_heap s) (lv_proto top) name Hc ltac:(done) (length (ws_heap s)) (S (length (ws_heap s)))) by lia.
Qed.

(** ** Three widgets *)

Definition demo_code (k : N) (args : list cval) : wprog :=
  match k with
  | 1%N => PLog (str "a.m") args (PRet (arg args 0))
  | 2%N => PLog (str "b.m") args (PMethod (str "n") [] (fun _ => PSuperApply args (fun v => PGet (str "x") (fun x => PSet (str "y") v (PRet x)))))
  | 3%N => PLog (str "b.n") args (PMethod (str "_init") [] PRet)
  | 4%N => PLog (str "c.m") args (PSuper args (fun _ => PSuper [CStr (str "again")] PRet))
  | _ => PLog (str "c.n") args (PThrow (str "refused"))
  end.

Definition demo_call := call 10 (prog_user demo_code).

(** The widgets [ui.a], [ui.b] and [ui.c], each derived from the one before, and an
    instance of the last one; the answer is its constructors and the instance. *)
Definition demo_build : SM wstate (list cval) :=
  m1 ← page_function 1; m2 ← page_function 2; m3 ← page_function 3; m4 ← page_function 4; m5 ← page_function 5;
  pa ← literal_of [(str "m", m1); (str "x", CNum (Fin 7))];
  pb ← literal_of [(str "m", m2); (str "n", m3)];
  pc ← literal_of [(str "m", m4)];
  a ← widget 10 (demo_call 9) 5 [CStr (str "ui.a"); pa];
  b ← widget 10 (demo_call 9) 5 [CStr (str "ui.b"); a; pb];
  c ← widget 10 (demo_call 9) 5 [CStr (str "ui.c"); b; pc];
  set ← jquery (CRef 9);
  f ← getp (CRef set) (str "c");
  demo_call 9 f (CRef set) [] ;;
  i ← get_data (CRef 9) (str "ui-c");
  mret [a; b; c; i].

Definition demo_built : res (list cval) * wstate := demo_build page.
Definition demo_ref (i : nat) : nat := match demo_built.1 with Ok l => match arg l i with CRef o => o | _ => 0 end | _ => 0 end.
Definition demo_level (ctor : nat) (methods : list (jstr * mcode)) : level :=
  Level ctor (match get_member (ws_heap demo_built.2) ctor (str "prototype") with CRef p => p | _ => 0 end) methods.
Definition demo_names : list jstr := [str "m"; str "n"; str "_create"; str "_init"].
Definition demo_levels : list level :=
  [demo_level (demo_ref 1) [(str "m", MCode 2); (str "n", MCode 3)]; demo_level (demo_ref 0) [(str "m", MCode 1)];
   demo_level 7 [(str "_create", MNoop); (str "_init", MNoop)]].
Definition demo_top : level := demo_level (demo_ref 2) [(str "m", MCode 4)].
Definition demo_args : list cval := [CNum (Fin 3); CNull].

Definition demo_state : wstate := WState (ws_heap demo_built.2) (ws_fns demo_built.2) (ws_uuid demo_built.2) (ws_data demo_built.2) [].

Definition demo_fields : fstate := FState (get_member (ws_heap demo_state) (demo_ref 3)) (ws_log demo_state).

(** The call of the example logs the methods in this order. *)
Definition demo_log : list (jstr * cval * list cval) :=
  let this := CRef (demo_ref 3) in
  [(str "c.m", this, demo_args); (str "b.m", this, demo_args); (str "b.n", this, []); (str "a.m", this, demo_args);
   (str "b.m", this, [CStr (str "again")]); (str "b.n", this, []); (str "a.m", this, [CStr (str "again")])].

Lemma demo_names_free : super_name ∉ demo_names /\ apply_name ∉ demo_names /\ proto_name ∉ demo_names.
Proof. split_and!; (eapply (bool_decide_eq_false_1 (_ ∈ demo_names)); vm_compute; reflexivity). Qed.

Lemma methods_refine_witness : exists s', invoke (demo_call 15) (CRef (demo_ref 3)) (str "m") demo_args demo_state = (Ok (CNum (Fin 7)), s')
  /\ ws_log s' = demo_log /\ get_member (ws_heap s') (demo_ref 3) (str "y") = CStr (str "again").
Proof.
  unfold demo_call.
  assert (levels_ok demo_names (demo_ref 3) (ws_heap demo_state) (ws_fns demo_state) (demo_top :: demo_levels) = true) as Hl by (vm_compute; reflexivity).
  assert (instance_ok demo_names (demo_ref 3) (ws_heap demo_state) (demo_top :: demo_levels) = true) as Hi by (vm_compute; reflexivity).
  destruct (sp_method demo_names demo_code (CRef (demo_ref 3)) (demo_top :: demo_levels) 5 (demo_top :: demo_levels) (str "m") demo_args demo_fields) as [r fs'] eqn:E.
  assert (r = Ok (CNum (Fin 7))) as -> by (change r with (r, fs').1; rewrite <- E; vm_compute; reflexivity).
  destruct (methods_refine demo_names demo_code 10 (ws_heap demo_state) (ws_fns demo_state) (demo_ref 3) demo_top demo_levels Hl
    demo_names_free 5 15 (str "m") demo_args demo_state demo_fields _ _
    (related_start _ _ _ _ _ Hl Hi) E ltac:(discriminate) ltac:(lia)) as (s' & E' & Hr & _).
  exists s'. split; [exact E'|]. split.
  - rewrite (rel_log _ _ _ _ _ _ _ Hr). change fs' with (Ok (CNum (Fin 7)) : res cval, fs').2. rewrite <- E. vm_compute. reflexivity.
  - destruct (rel_this _ _ _ _ _ _ _ Hr) as (p & Ep & _ & Hf).
    rewrite (this_member _ _ _ _ _ _ Hl _ _ _ _ Hr Ep), (Hf (str "y") ltac:(vm_compute; reflexivity)).
    change fs' with (Ok (CNum (Fin 7)) : res cval, fs').2. rewrite <- E. vm_compute. reflexivity.
Defined.

(** ** Where the code goes wrong *)

(** [ui.a], and [ui.b] derived from it, whose method throws. *)
Definition throwing : SM wstate cval :=
  m1 ← page_function 1; m5 ← page_function 5;
  pa ← literal_of [(str "m", m1)];
  pb ← literal_of [(str "m", m5)];
  a ← widget 10 (demo_call 9) 5 [CStr (str "ui.a"); pa];
  widget 10 (demo_call 9) 5 [CStr (str "ui.b"); a; pb] ;;
  set ← jquery (CRef 9);
  f ← getp (CRef set) (str "b");
  demo_call 9 f (CRef set) [] ;;
  demo_call 9 f (CRef set) [CStr (str "m")].

(** What [_super] of the instance is: a function of the code. *)
Definition super_of_instance : SM wstate bool :=
  i ← get_data (CRef 9) (str "ui-b"); f ← getp i (str "_super"); sm_get (fun s => is_fn (ws_fns s) f (fun fn => match fn with FSuper _ _ => true | _ => false end)).

(** A method that throws leaves [_super] in the instance. *)
Example super_after_throw :
  let r := throwing page in r.1 = Throw (str "refused") /\ (super_of_instance r.2).1 = Ok true.
Proof. vm_compute. split; reflexivity. Qed.

(** [ui.a] with a method [m] and [ui.b] derived from it; then [ui.a] is defined again, a
    number of times, with other functions.  The answer is the function that the
    prototype of [ui.b] has for [m]. *)
Definition proto_m (k : N) : SM wstate cval := m ← page_function k; literal_of [(str "m", m)].

Definition code_of (f : cval) : SM wstate (option N) :=
  sm_get (fun s => match f with
                   | CRef o => match ws_fns s !! o with
                               | Some (FProxy _ _ (CRef u) _ _) => match ws_fns s !! u with Some (FUser k) => Some k | _ => None end
                               | _ => None
                               end
                   | _ => None
                   end).

Definition redefined (again : list N) : SM wstate (option N) :=
  p1 ← proto_m 1;
  a ← widget 10 (demo_call 9) 5 [CStr (str "ui.a"); p1];
  n ← page_function 3;
  pb ← literal_of [(str "n", n)];
  widget 10 (demo_call 9) 5 [CStr (str "ui.b"); a; pb] ;;
  sm_each (fun k => p ← proto_m k; widget 10 (demo_call 9) 5 [CStr (str "ui.a"); p] ;; mret tt) again ;;
  ui ← getp (CRef wh_jquery) (str "ui");
  b ← getp ui (str "b");
  pb ← getp b (str "prototype");
  m ← getp pb (str "m");
  code_of m.

(** The first redefinition reaches the derived widget, the second one does not. *)
Example redefined_twice : (redefined [] page).1 = Ok (Some 1%N) /\ (redefined [5%N] page).1 = Ok (Some 5%N) /\ (redefined [5%N; 4%N] page).1 = Ok (Some 5%N).
Proof. vm_compute. split_and!; reflexivity. Qed.

(** Options with a name [__proto__], as [JSON.parse] makes them, change the prototype of
    the target. *)
Definition extend_proto : SM wstate cval :=
  evil ← literal_of [(str "admin", CBool true)];
  o ← literal_of [(str "__proto__", evil)];
  t ← new_obj [];
  widget_extend 5 (CRef t) [o] ;;
  getp (CRef t) (str "admin").

Example extend_changes_prototype : (extend_proto page).1 = Ok (CBool true).
Proof. vm_compute. reflexivity. Qed.
