(* ===== verification/Regex.v ===== *)
(** * Regular expressions with groups

    The language's backtracking matcher for expressions with stars of any expression and
    capturing groups: a matcher takes what is left of the input, the captures so far and
    a continuation. *)

From S2P Require Import Prelude JsNum.

(** What the groups have captured, the last first. *)
Abbreviation caps := (list (nat * jstr)).

Inductive rx : Type :=
  | XEps
  | XCls (p : N -> bool)
  | XSeq (a b : rx)
  | XAlt (a b : rx)
  | XStar (r : rx)
  | XGroup (n : nat) (r : rx).

(** The groups of an expression, which a turn of a star forgets. *)
Fixpoint groups_of (r : rx) : list nat :=
  match r with
  | XEps | XCls _ => []
  | XSeq a b | XAlt a b => groups_of a ++ groups_of b
  | XStar r => groups_of r
  | XGroup n r => n :: groups_of r
  end.

Definition forget (ns : list nat) (c : caps) : caps := List.filter (fun e => negb (bool_decide (e.1 ∈ ns))) c.

Fixpoint capture (c : caps) (n : nat) : option jstr :=
  match c with [] => None | (m, t) :: c' => if (m =? n)%nat then Some t else capture c' n end.

(** The text between two points of the input. *)
Definition between (s rest : jstr) : jstr := take (length s - length rest) s.

(** A star takes turns while they consume something. *)
Fixpoint xstar (turn : (jstr -> caps -> option (jstr * caps)) -> jstr -> caps -> option (jstr * caps))
    (k : jstr -> caps -> option (jstr * caps)) (n : nat) (s : jstr) (c : caps) : option (jstr * caps) :=
  match n with
  | O => k s c
  | S n =>
      match turn (fun s' c' => if (length s' <? length s)%nat then xstar turn k n s' c' else None) s c with
      | Some x => Some x
      | None => k s c
      end
  end.

Fixpoint xmatch (r : rx) (k : jstr -> caps -> option (jstr * caps)) (s : jstr) (c : caps) : option (jstr * caps) :=
  match r with
  | XEps => k s c
  | XCls p => match s with x :: s' => if p x then k s' c else None | [] => None end
  | XSeq a b => xmatch a (xmatch b k) s c
  | XAlt a b => match xmatch a k s c with Some x => Some x | None => xmatch b k s c end
  | XStar r => xstar (fun k s c => xmatch r k s (forget (groups_of r) c)) k (length s) s c
  | XGroup n r => xmatch r (fun s' c' => k s' ((n, between s s') :: c')) s c
  end.

(** [exec] of an expression that begins with [^]: the text that is left, and the captures,
    with the whole match as number 0. *)
Definition xexec (r : rx) (s : jstr) : option (jstr * caps) := xmatch (XGroup 0 r) (fun s c => Some (s, c)) s [].

(** [test] of an expression that may match anywhere. *)
Fixpoint xtest (r : rx) (s : jstr) : bool :=
  bool_decide (is_Some (xexec r s)) || match s with [] => false | _ :: s' => xtest r s' end.

(** ** Building expressions *)

Definition XChr (c : N) : rx := XCls (N.eqb c).
Definition XOpt (r : rx) : rx := XAlt r XEps.
Definition XPlus (r : rx) : rx := XSeq r (XStar r).
Fixpoint XSeqs (l : list rx) : rx := match l with [] => XEps | [r] => r | r :: l' => XSeq r (XSeqs l') end.
Fixpoint XAlts (l : list rx) : rx := match l with [] => XCls (fun _ => false) | [r] => r | r :: l' => XAlt r (XAlts l') end.
(** At least one and at most [n + 1] times. *)
Fixpoint XUpTo (n : nat) (r : rx) : rx := match n with O => r | S n => XSeq r (XOpt (XUpTo n r)) end.
Definition XOneOf (cs : jstr) : rx := XCls (fun c => bool_decide (c ∈ cs)).
Definition XNotOf (cs : jstr) : rx := XCls (fun c => negb (bool_decide (c ∈ cs))).

(** A letter of either case. *)
Definition letter_cases (c : N) : N -> bool := fun d => ((d =? c) || ((97 <=? c) && (c <=? 122) && (d =? c - 32)))%N.
Fixpoint XLitI (s : jstr) : rx := match s with [] => XEps | c :: s' => XSeq (XCls (letter_cases c)) (XLitI s') end.

(** ** What a match consumes *)

(** A matcher leaves a suffix of its input. *)
Definition suffixes (m : jstr -> caps -> option (jstr * caps)) : Prop := forall s c r c', m s c = Some (r, c') -> r `suffix_of` s.

Lemma xstar_suffix turn k n : (forall k, suffixes k -> suffixes (turn k)) -> suffixes k -> suffixes (xstar turn k n).
Proof.
  intros Ht Hk. induction n as [|n IH]; intros s c r c'; cbn [xstar]; [apply Hk|].
  destruct (turn _ s c) as [x|] eqn:E; [|apply Hk]. intros [= ->].
  refine (Ht _ _ s c r c' E). intros s' c1 r' c2. destruct (length s' <? length s)%nat; [apply IH|done].
Qed.

Lemma xmatch_suffix r k : suffixes k -> suffixes (xmatch r k).
Proof.
  revert k. induction r as [|p|a IHa b IHb|a IHa b IHb|r IH|n r IH]; intros k Hk s c rest c'; cbn [xmatch].
  - apply Hk.
  - destruct s as [|x s]; [done|]. destruct (p x); [|done]. intros E. apply suffix_cons_r. by eapply Hk.
  - apply IHa, IHb, Hk.
  - destruct (xmatch a k s c) as [x|] eqn:E; [intros [= ->]; by eapply IHa|by apply IHb].
  - apply xstar_suffix; [|done]. intros k' Hk' s1 c1 r1 c2. by apply IH.
  - apply IH. intros s1 c1 r1 c2. apply Hk.
Qed.

(** The continuation runs on a suffix. *)
Lemma xstar_cont turn k n s c x :
  (forall k s c x, turn k s c = Some x -> exists s' c', s' `suffix_of` s /\ k s' c' = Some x) ->
  xstar turn k n s c = Some x -> exists s' c', s' `suffix_of` s /\ k s' c' = Some x.
Proof.
  intros Ht. revert s c. induction n as [|n IH]; intros s c; cbn [xstar]; [by exists s, c|].
  destruct (turn _ s c) as [y|] eqn:E; [|by exists s, c]. intros [= ->].
  apply Ht in E as (s1 & c1 & Hs & E). destruct (length s1 <? length s)%nat; [|done].
  apply IH in E as (s2 & c2 & Hs2 & E). exists s2, c2. split; [by etrans|done].
Qed.

Lemma xmatch_cont r k s c x : xmatch r k s c = Some x -> exists s' c', s' `suffix_of` s /\ k s' c' = Some x.
Proof.
  revert k s c x. induction r as [|p|a IHa b IHb|a IHa b IHb|r IH|n r IH]; intros k s c x; cbn [xmatch].
  - by exists s, c.
  - destruct s as [|y s]; [done|]. destruct (p y); [|done]. exists s, c. split; [by apply suffix_cons_r|done].
  - intros (s1 & c1 & H1 & E)%IHa. apply IHb in E as (s2 & c2 & H2 & E). exists s2, c2. split; [by etrans|done].
  - destruct (xmatch a k s c) as [y|] eqn:E; [intros [= ->]; by eapply IHa|apply IHb].
  - apply xstar_cont. intros k' s' c' x'. apply IH.
  - intros (s1 & c1 & H1 & E)%IH. by exists s1, ((n, between s s1) :: c1).
Qed.

Lemma between_app t rest : between (t ++ rest) rest = t.
Proof. unfold between. rewrite length_app, Nat.add_sub. by rewrite take_app_length. Qed.

(** What [exec] finds is a prefix of the text, which capture 0 holds. *)
Lemma xexec_split r s rest c : xexec r s = Some (rest, c) -> exists t, s = t ++ rest /\ capture c 0 = Some t.
Proof.
  unfold xexec. cbn [xmatch]. intros E. assert (rest `suffix_of` s) as [t ->].
  { revert E. apply (xmatch_suffix r). intros s1 c1 r1 c2 [= -> _]. done. }
  apply xmatch_cont in E as (s1 & c1 & _ & [= -> <-]). exists t. split; [done|]. cbn. by rewrite between_app.
Qed.

(** Expressions that match no empty text. *)
Fixpoint consumes (r : rx) : bool :=
  match r with
  | XEps | XStar _ => false
  | XCls _ => true
  | XSeq a b => consumes a || consumes b
  | XAlt a b => consumes a && consumes b
  | XGroup _ r => consumes r
  end.

(** What the continuation of a match gets: less of the input, and new captures for the
    groups of the expression only. *)
Definition continues (r : rx) (s : jstr) (c : caps) (s' : jstr) (c' : caps) : Prop :=
  s' `suffix_of` s /\ (consumes r = true -> length s' < length s)%nat
  /\ forall m, m ∉ groups_of r -> capture c' m = capture c m.

Lemma capture_forget ns c m : m ∉ ns -> capture (forget ns c) m = capture c m.
Proof.
  intros Hm. induction c as [|[n t] c IH]; [done|]. unfold forget. cbn [List.filter fst]. rewrite bool_decide_decide.
  destruct (decide (n ∈ ns)); cbn [negb capture].
  - destruct (n =? m)%nat eqn:E; [apply Nat.eqb_eq in E; congruence|done].
  - by destruct (n =? m)%nat.
Qed.

Lemma xstar_continues turn k n s c x (ns : list nat) :
  (forall k s c x, turn k s c = Some x ->
     exists s' c', s' `suffix_of` s /\ (forall m, m ∉ ns -> capture c' m = capture c m) /\ k s' c' = Some x) ->
  xstar turn k n s c = Some x ->
  exists s' c', s' `suffix_of` s /\ (forall m, m ∉ ns -> capture c' m = capture c m) /\ k s' c' = Some x.
Proof.
  intros Ht. revert s c. induction n as [|n IH]; intros s c; cbn [xstar]; [by exists s, c|].
  destruct (turn _ s c) as [y|] eqn:E; [|by exists s, c]. intros [= ->].
  apply Ht in E as (s1 & c1 & Hs & Hc & E). destruct (length s1 <? length s)%nat; [|done].
  apply IH in E as (s2 & c2 & Hs2 & Hc2 & E). exists s2, c2.
  split_and!; [by etrans| |done]. intros m Hm. by rewrite Hc2, Hc.
Qed.

Lemma xmatch_continues r k s c x : xmatch r k s c = Some x -> exists s' c', continues r s c s' c' /\ k s' c' = Some x.
Proof.
  unfold continues. revert k s c x.
  induction r as [|p|a IHa b IHb|a IHa b IHb|r IH|n r IH]; intros k s c x; cbn [xmatch consumes groups_of].
  - intros E. by exists s, c.
  - destruct s as [|y s]; [done|]. destruct (p y); [|done]. intros E. exists s, c. split_and!; [by apply suffix_cons_r|cbn; lia|done..].
  - intros (s1 & c1 & (H1 & L1 & C1) & E)%IHa. apply IHb in E as (s2 & c2 & (H2 & L2 & C2) & E). exists s2, c2.
    pose proof (suffix_length _ _ H1). pose proof (suffix_length _ _ H2). split_and!; [by etrans| | |done].
    + rewrite orb_true_iff. intros [H'|H']; [apply L1 in H'|apply L2 in H']; lia.
    + intros m. rewrite elem_of_app. intros Hm. rewrite C2, C1 by tauto. done.
  - destruct (xmatch a k s c) as [y|] eqn:E; [intros [= ->]; apply IHa in E|intros E'; apply IHb in E'; clear E; rename E' into E];
      destruct E as (s1 & c1 & (H1 & L1 & C1) & E); exists s1, c1; (split_and!; [done| | |done]).
    2,4: intros m; rewrite elem_of_app; intros Hm; apply C1; tauto.
    all: intros [? ?]%andb_true_iff; auto.
  - intros E. apply (xstar_continues _ _ _ _ _ _ (groups_of r)) in E as (s1 & c1 & Hs & Hc & E).
    + by exists s1, c1.
    + clear -IH. intros k' s' c' x (s1 & c1 & (H1 & L1 & C1) & E)%IH. exists s1, c1. split_and!; [done| |done].
      intros m Hm. rewrite C1 by done. by apply capture_forget.
  - intros (s1 & c1 & (H1 & L1 & C1) & E)%IH. exists s1, ((n, between s s1) :: c1). split_and!; [done..| |done].
    intros m. rewrite not_elem_of_cons. intros [Hn Hm]. cbn [capture]. destruct (n =? m)%nat eqn:En; [apply Nat.eqb_eq in En; congruence|by apply C1].
Qed.

(** [exec] of an expression that matches no empty text. *)
Lemma xexec_consumes r s rest c : consumes r = true -> xexec r s = Some (rest, c) -> (length rest < length s)%nat.
Proof.
  intros Hr E. apply (xmatch_continues (XGroup 0 r)) in E as (s' & c' & (_ & L & _) & [= -> _]). by apply L.
Qed.

(** ** Characters *)

(** The characters that an expression reads. *)
Fixpoint uses (r : rx) (x : N) : bool :=
  match r with
  | XEps => false
  | XCls p => p x
  | XSeq a b | XAlt a b => uses a x || uses b x
  | XStar r | XGroup _ r => uses r x
  end.

Lemma xstar_uses turn k n s c x (P : N -> Prop) :
  (forall k s c x, turn k s c = Some x -> exists t s' c', s = t ++ s' /\ Forall P t /\ k s' c' = Some x) ->
  xstar turn k n s c = Some x -> exists t s' c', s = t ++ s' /\ Forall P t /\ k s' c' = Some x.
Proof.
  intros Ht. revert s c. induction n as [|n IH]; intros s c; cbn [xstar]; [by exists [], s, c|].
  destruct (turn _ s c) as [y|] eqn:E; [|by exists [], s, c]. intros [= ->].
  apply Ht in E as (t1 & s1 & c1 & -> & H1 & E). destruct (length s1 <? _)%nat; [|done].
  apply IH in E as (t2 & s2 & c2 & -> & H2 & E). exists (t1 ++ t2), s2, c2.
  split_and!; [by rewrite app_assoc|by apply Forall_app|done].
Qed.

Lemma xmatch_uses r k s c x : xmatch r k s c = Some x ->
  exists t s' c', s = t ++ s' /\ Forall (fun y => uses r y = true) t /\ k s' c' = Some x.
Proof.
  revert k s c x. induction r as [|p|a IHa b IHb|a IHa b IHb|r IH|n r IH]; intros k s c x; cbn [xmatch uses].
  - by exists [], s, c.
  - destruct s as [|y s]; [done|]. destruct (p y) eqn:Ep; [|done]. exists [y], s, c. split_and!; [done| |done]. by repeat constructor.
  - intros (t1 & s1 & c1 & -> & H1 & E)%IHa. apply IHb in E as (t2 & s2 & c2 & -> & H2 & E). exists (t1 ++ t2), s2, c2.
    split_and!; [by rewrite app_assoc| |done]. apply Forall_app. split; eapply Forall_impl; eauto; intros ? H; cbn; rewrite H; auto using orb_true_r.
  - destruct (xmatch a k s c) as [y|] eqn:E; [intros [= ->]; apply IHa in E|intros E'; apply IHb in E'; clear E; rename E' into E];
      destruct E as (t1 & s1 & c1 & -> & H1 & E); exists t1, s1, c1; (split_and!; [done| |done]);
      (eapply Forall_impl; [exact H1|]; intros ? H; cbn; rewrite H; auto using orb_true_r).
  - apply xstar_uses. intros k' s' c' x'. apply IH.
  - intros (t1 & s1 & c1 & -> & H1 & E)%IH. by exists t1, s1, ((n, between (t1 ++ s1) s1) :: c1).
Qed.

(** The characters with which a match of an expression may begin. *)
Fixpoint firsts (r : rx) (x : N) : bool :=
  match r with
  | XEps => false
  | XCls p => p x
  | XSeq a b => firsts a x || (negb (consumes a) && firsts b x)
  | XAlt a b => firsts a x || firsts b x
  | XStar r | XGroup _ r => firsts r x
  end.

Lemma xmatch_firsts r k y s c x : firsts r y = false -> xmatch r k (y :: s) c = Some x ->
  consumes r = false /\ exists c', k (y :: s) c' = Some x.
Proof.
  revert k c x. induction r as [|p|a IHa b IHb|a IHa b IHb|r IH|n r IH]; intros k c x; cbn [xmatch firsts consumes].
  - intros _ E. split; [done|by exists c].
  - by intros ->.
  - intros [Ha Hb]%orb_false_iff (Ca & c1 & E)%IHa; [|done]. rewrite Ca in Hb |- *. cbn in Hb. by apply IHb in E.
  - intros [Ha Hb]%orb_false_iff. destruct (xmatch a k _ c) as [z|] eqn:E.
    + intros [= ->]. apply IHa in E as [-> E]; [|done]. by split.
    + intros E'. apply IHb in E' as [-> E']; [|done]. split; [apply andb_false_r|done].
  - intros Hr. cbn [length xstar]. destruct (xmatch r _ _ _) as [z|] eqn:E; [|by eauto].
    apply IH in E as (_ & c1 & E); [|done]. by rewrite Nat.ltb_irrefl in E.
  - intros Hr (Cr & c1 & E)%IH; [|done]. split; [done|]. by eexists.
Qed.

Lemma xexec_firsts r y s : firsts r y = false -> consumes r = true -> xexec r (y :: s) = None.
Proof.
  intros Hf Hc. destruct (xexec r (y :: s)) as [x|] eqn:E; [|done].
  apply (xmatch_firsts (XGroup 0 r)) in E as [E _]; [|done]. cbn in E. congruence.
Qed.

(** ** Stars of characters *)

Lemma forget_nil c : forget [] c = c.
Proof. unfold forget. induction c as [|e c IH]; [done|]. cbn [List.filter]. rewrite bool_decide_eq_false_2 by (by intros ?%elem_of_nil). cbn. by rewrite IH. Qed.

Definition stops (p : N -> bool) (s : jstr) : Prop := match s with y :: _ => p y = false | [] => True end.

(** A star of characters reads as many as it can, if the rest of the expression matches there. *)
Lemma star_greedy p k a rest c x : Forall (fun y => p y = true) a -> stops p rest -> k rest c = Some x ->
  xmatch (XStar (XCls p)) k (a ++ rest) c = Some x.
Proof.
  intros Ha Hr Hk. cbn [xmatch]. enough (forall n, (length a <= n)%nat ->
    xstar (fun k s c => xmatch (XCls p) k s (forget (groups_of (XCls p)) c)) k n (a ++ rest) c = Some x) as H.
  { apply H. rewrite length_app. lia. }
  induction Ha as [|y a Hy Ha IH]; intros n Hn.
  - destruct n as [|n]; [done|]. cbn [xstar xmatch app groups_of]. destruct rest as [|z rest]; [done|].
    cbn in Hr. by rewrite Hr.
  - destruct n as [|n]; [cbn in Hn; lia|]. cbn [xstar xmatch app groups_of length]. rewrite Hy, forget_nil.
    destruct (_ <? _)%nat eqn:E; [|apply Nat.ltb_ge in E; lia]. cbn in Hn. by rewrite IH by lia.
Qed.

(** ** Stars of pieces *)

Lemma xmatch_nil r k c : consumes r = true -> xmatch r k [] c = None.
Proof.
  intros Hr. destruct (xmatch r k [] c) as [x|] eqn:E; [|done].
  apply xmatch_continues in E as (s' & c' & (_ & L & _) & _). specialize (L Hr). cbn in L. lia.
Qed.

(** A text that an expression always takes whole, whatever follows. *)
Definition takes_whole (r : rx) (p : jstr) : Prop :=
  p <> [] /\ forall k rest c x, k rest c = Some x -> xmatch r k (p ++ rest) c = Some x.

Lemma xmatch_refuses r k s c : consumes r = true -> stops (firsts r) s -> xmatch r k s c = None.
Proof.
  intros Hr Hs. destruct s as [|y s]; [by apply xmatch_nil|]. destruct (xmatch r k (y :: s) c) as [x|] eqn:E; [|done].
  apply xmatch_firsts in E as [E _]; [|done]. congruence.
Qed.

(** A star takes all pieces, if it cannot go on after them and the rest matches there. *)
Lemma star_pieces r k ps rest c x : consumes r = true -> groups_of r = [] -> Forall (takes_whole r) ps ->
  stops (firsts r) rest -> k rest c = Some x -> xmatch (XStar r) k (List.concat ps ++ rest) c = Some x.
Proof.
  intros Hr Hg Hps Hs Hk. cbn [xmatch]. rewrite Hg. enough (forall n, (length (List.concat ps) <= n)%nat ->
    xstar (fun k s c => xmatch r k s (forget [] c)) k n (List.concat ps ++ rest) c = Some x) as H.
  { apply H. rewrite length_app. lia. }
  induction Hps as [|p ps [Hn Hp] Hps IH]; intros n Hl; cbn [List.concat app] in *.
  - destruct n as [|n]; [done|]. cbn [xstar]. by rewrite xmatch_refuses.
  - rewrite length_app in Hl. destruct p as [|y p]; [done|]. destruct n as [|n]; [cbn in Hl; lia|]. cbn [xstar]. rewrite <- app_assoc.
    erewrite Hp; [done|]. rewrite forget_nil. cbn [length] in *. destruct (_ <? _)%nat eqn:E.
    + apply IH. lia.
    + apply Nat.ltb_ge in E. cbn [app length] in E. rewrite !length_app in E. lia.
Qed.
