(* ===== verification/Sizzle.v ===== *)
(** * The selector engine: reading selectors

    The expressions of Sizzle, the filters that check and normalise what they match,
    [tokenize] with its cache, and the escapes of names.  Matching elements works on the
    document and is not here. *)

From S2P Require Import Prelude JsNum JsVal Callbacks Text Regex.

(** ** Characters *)

Definition is_hex (c : N) : bool := (is_digit c || (65 <=? c) && (c <=? 70) || (97 <=? c) && (c <=? 102))%N.
Definition is_letter (c : N) : bool := ((65 <=? c) && (c <=? 90) || (97 <=? c) && (c <=? 122))%N.
(** [[\w-]]. *)
Definition is_word_dash (c : N) : bool := (is_digit c || is_letter c || (c =? 95) || (c =? 45))%N.
(** [[^\0-\x7f]]. *)
Definition beyond_ascii (c : N) : bool := (128 <=? c)%N.
(** [[^\r\n\f]]. *)
Definition not_newline (c : N) : bool := negb ((c =? 13) || (c =? 10) || (c =? 12))%N.
(** A dot: no line terminator. *)
Definition is_dot (c : N) : bool := negb ((c =? 10) || (c =? 13) || (c =? 8232) || (c =? 8233))%N.

(** ** Expressions *)

Definition whitespace : rx := XCls is_html_white.
Definition spaces : rx := XStar whitespace.
Definition backslash : N := chr "\".

(** One piece of an identifier. *)
Definition ident_piece : rx :=
  XAlts [XSeqs [XChr backslash; XUpTo 5 (XCls is_hex); XOpt whitespace];
         XSeq (XChr backslash) (XCls not_newline);
         XCls is_word_dash;
         XCls beyond_ascii].
Definition identifier : rx := XPlus ident_piece.

(** The inside of a string between quotes. *)
Definition quoted (q : N) : rx := XStar (XAlt (XSeq (XChr backslash) (XCls is_dot)) (XNotOf [backslash; q])).
Definition between_quotes (q : N) (n : nat) : rx := XSeqs [XChr q; XGroup n (quoted q); XChr q].

Definition quote1 : N := 39.
Definition quote2 : N := 34.

(** An attribute selector whose groups are numbered from [n] on. *)
Definition attributes (n : nat) : rx :=
  XSeqs [XChr (chr "["); spaces; XGroup n identifier;
         XOpt (XSeqs [spaces; XGroup (n + 1) (XSeq (XOpt (XOneOf (str "*^$|!~"))) (XChr (chr "="))); spaces;
                      XAlts [between_quotes quote1 (n + 2); between_quotes quote2 (n + 3); XGroup (n + 4) identifier]]);
         spaces; XChr (chr "]")].

Definition pseudos : rx :=
  XSeqs [XChr (chr ":"); XGroup 1 identifier;
         XOpt (XSeqs [XChr (chr "(");
           XGroup 2 (XAlts [XGroup 3 (XAlt (between_quotes quote1 4) (between_quotes quote2 5));
                            XGroup 6 (XStar (XAlts [XSeq (XChr backslash) (XCls is_dot); XNotOf (str "\()[]"); attributes 7]));
                            XStar (XCls is_dot)]);
           XChr (chr ")")])].

Definition rcomma : rx := XSeqs [spaces; XChr (chr ","); spaces].
Definition rcombinators : rx := XSeqs [spaces; XGroup 1 (XAlt (XOneOf (str ">+~")) whitespace); spaces].

(** Digits, and a sign or nothing. *)
Definition digits : rx := XStar (XCls is_digit).
Definition sign : rx := XOpt (XOneOf (str "+-")).

Definition child : rx :=
  XSeqs [XChr (chr ":"); XGroup 1 (XAlts (List.map XLitI [str "only"; str "first"; str "last"; str "nth"; str "nth-last"]));
         XChr (chr "-"); XGroup 2 (XAlts (List.map XLitI [str "child"; str "of-type"]));
         XOpt (XSeqs [XChr (chr "("); spaces;
           XGroup 3 (XAlts [XLitI (str "even"); XLitI (str "odd");
             XSeqs [XGroup 4 (XOpt (XSeqs [XGroup 5 sign; XGroup 6 digits; XLitI (str "n")])); spaces;
                    XOpt (XSeqs [XGroup 7 sign; spaces; XGroup 8 (XPlus (XCls is_digit))])]]);
           spaces; XChr (chr ")")])].

(** The types of filters in the order of [Expr.filter], and their expressions. *)
Inductive ftype := TAG | CLASS | ATTR | CHILD | PSEUDO | ID.
Definition filter_types : list ftype := [TAG; CLASS; ATTR; CHILD; PSEUDO; ID].

#[export] Instance ftype_eq_dec : EqDecision ftype.
Proof. solve_decision. Defined.

Definition matchExpr (t : ftype) : rx :=
  match t with
  | TAG => XGroup 1 (XAlt identifier (XChr (chr "*")))
  | CLASS => XSeq (XChr (chr ".")) (XGroup 1 identifier)
  | ATTR => attributes 1
  | CHILD => child
  | PSEUDO => pseudos
  | ID => XSeq (XChr (chr "#")) (XGroup 1 identifier)
  end.

(** ** Escapes *)

Fixpoint take_hex (n : nat) (s : jstr) : jstr * jstr :=
  match n, s with
  | S n, c :: s' => if is_hex c then let '(h, r) := take_hex n s' in (c :: h, r) else ([], s)
  | _, _ => ([], s)
  end.

Definition hex_value (c : N) : N := if is_digit c then (c - 48)%N else if (97 <=? c)%N then (c - 87)%N else (c - 55)%N.
Definition parse_hex (s : jstr) : N := fold_left (fun v c => v * 16 + hex_value c)%N s 0%N.

(** [funescape] of a hexadecimal escape: a code unit, or a surrogate pair. *)
Definition from_code (v : N) : jstr :=
  if (v <? 65536)%N then [v]
  else let high := (v - 65536)%N in
       [N.modulo (N.lor (N.shiftr high 10) 55296) 65536; N.modulo (N.lor (N.land high 1023) 56320) 65536].

(** [s.replace( runescape, funescape )]; every step reads a character or more. *)
Fixpoint unescape (n : nat) (s : jstr) : jstr :=
  match n with
  | O => []
  | S n =>
      match s with
      | [] => []
      | c :: s' =>
          if (c =? backslash)%N then
            match take_hex 6 s' with
            | ([], _) => match s' with
                         | d :: s'' => if not_newline d then d :: unescape n s'' else c :: unescape n s'
                         | [] => [c]
                         end
            | (h, r) => from_code (parse_hex h) ++ unescape n match r with w :: r' => if is_html_white w then r' else r | [] => [] end
            end
          else c :: unescape n s'
      end
  end.

Definition runescape (s : jstr) : jstr := unescape (length s) s.

(** [fcssescape]: a code point, or a backslash before the character. *)
Definition hex_digit (v : N) : N := if (v <? 10)%N then (v + 48)%N else (v + 87)%N.
Definition hex_escape (c : N) : jstr := backslash :: (if (c <? 16)%N then [hex_digit c] else [hex_digit (c / 16); hex_digit (c mod 16)]) ++ [chr " "].

Definition is_control (c : N) : bool := ((c <? 32) || (c =? 127))%N.

Definition escape_char (c : N) : jstr :=
  if (c =? 0)%N then [65533%N]
  else if is_control c then hex_escape c
  else if is_word_dash c || beyond_ascii c then [c]
  else [backslash; c].

(** [Sizzle.escape]: digits are escaped at the beginning, also after a dash, and a dash
    that is alone. *)
Definition escape (s : jstr) : jstr :=
  match s with
  | [c] => if (c =? 45)%N then [backslash; c] else if is_digit c then hex_escape c else escape_char c
  | c :: d :: s' =>
      if is_digit c then hex_escape c ++ flat_map escape_char (d :: s')
      else if (c =? 45)%N && is_digit d then c :: hex_escape d ++ flat_map escape_char s'
      else flat_map escape_char s
  | [] => []
  end.

(** ** Filters *)

(** A value of a match: a string, [undefined], or a number. *)
Inductive mval := MUndef | MStr (s : jstr) | MNum (z : Z).

#[export] Instance mval_eq_dec : EqDecision mval.
Proof. solve_decision. Defined.

Definition sizzle_error (msg : jstr) {A} : res A := Throw (str "Syntax error, unrecognized expression: " ++ msg).

Definition group (c : caps) (n : nat) : mval := match capture c n with Some s => MStr s | None => MUndef end.
Definition text_of (v : mval) : jstr := match v with MStr s => s | _ => [] end.
Definition m_truthy (v : mval) : bool := match v with MStr [] | MUndef => false | MStr _ => true | MNum z => negb (z =? 0) end.

Definition lower_ascii (s : jstr) : jstr := toLowerCase (fun c => [c]) s.

(** The groups from 1 to [n] of a match. *)
Definition groups (c : caps) (n : nat) : list mval := List.map (group c) (seq 1 n).
Definition matched_text (c : caps) : jstr := text_of (group c 0).

(** The first of some groups that is not empty. *)
Fixpoint first_truthy (c : caps) (ns : list nat) : jstr :=
  match ns with [] => [] | n :: ns' => if m_truthy (group c n) then text_of (group c n) else first_truthy c ns' end.

(** What a filter of matches answers: the text and the captures that it keeps. *)
Abbreviation filtered := (jstr * list mval)%type.

Definition preFilter_ATTR (c : caps) : filtered :=
  let value := runescape (first_truthy c [3; 4; 5]%nat) in
  let value := if decide (group c 2 = MStr (str "~=")) then chr " " :: value ++ [chr " "] else value in
  (matched_text c, [MStr (runescape (text_of (group c 1))); group c 2; MStr value]).

(** A number from a sign and digits; no digits are [1] where [one] holds. *)
Definition signed (one : bool) (sg ds : jstr) : Z :=
  let v := if one && bool_decide (ds = []) then 1 else Z.of_N (parse_digits ds) in
  if decide (sg = str "-") then - v else v.

(** The filter of positions among siblings: the coefficients of [xn+y] as numbers. *)
Definition preFilter_CHILD (c : caps) : res filtered :=
  let type := lower_ascii (text_of (group c 1)) in
  if decide (take 3 type = str "nth") then
    if m_truthy (group c 3) then
      let says t := bool_decide (group c 3 = MStr (str t)) in
      let x := if m_truthy (group c 4) then signed true (text_of (group c 5)) (text_of (group c 6))
               else if says "even" || says "odd" then 2 else 0 in
      let y := match group c 8 with MStr ds => signed false (text_of (group c 7)) ds
                                  | _ => if says "odd" then 1 else 0 end in
      Ok (matched_text c, [MStr type; group c 2; group c 3; MNum x; MNum y; group c 6; group c 7; group c 8])
    else sizzle_error (matched_text c)
  else if m_truthy (group c 3) then sizzle_error (matched_text c)
  else Ok (matched_text c, MStr type :: List.map (group c) (seq 2 7)).

(** [s.slice( 0, e )] for a negative [e]. *)
Definition slice_to (s : jstr) (e : Z) : jstr := take (Z.to_nat (Z.of_nat (length s) + e)) s.

(** [s.indexOf( ")", from )]. *)
Definition index_paren (s : jstr) (from : nat) : Z :=
  match find_sub [chr ")"] (drop from s) with Some (a, _) => Z.of_nat (from + length a) | None => -1 end.

(** The filter of pseudo classes; [parse] is the length that [tokenize] leaves of a text. *)
Definition preFilter_PSEUDO (parse : jstr -> res nat) (c : caps) : res (option filtered) :=
  let unquoted := if m_truthy (group c 6) then MUndef else group c 2 in
  if bool_decide (is_Some (xexec child (matched_text c))) then mret None
  else if m_truthy (group c 3) then mret (Some (matched_text c, [group c 1; MStr (first_truthy c [4; 5]%nat)]))
  else
    let keep := (matched_text c, [group c 1; group c 2]) in
    if m_truthy unquoted && xtest pseudos (text_of unquoted) then
      let u := text_of unquoted in
      excess ← parse u;
      if (excess =? 0)%nat then mret (Some keep)
      else let e := index_paren u (length u - excess) - Z.of_nat (length u) in
           mret (Some (slice_to (matched_text c) e, [group c 1; MStr (slice_to u e)]))
    else mret (Some keep).

(** ** Tokens *)

(** The type of a combinator is one character. *)
Inductive ttype := TComb (c : jstr) | TFilter (t : ftype).
Record token := Token { t_value : jstr; t_type : ttype; t_matches : list mval }.

(** [createCache]: the keys by age, and the values that they have. *)
Record scache (V : Type) := SCache { c_keys : list jstr; c_map : gmap jstr V }.
Arguments SCache {V} _ _.
Arguments c_keys {V} _.
Arguments c_map {V} _.
Definition cacheLength : nat := 50.

(** [cache( key, value )]. *)
Definition cache_add {V} (key : jstr) (value : V) : SM (scache V) V := fun s =>
  let keys := c_keys s ++ [key] in
  let '(keys, m) := if (cacheLength <? length keys)%nat
                    then match keys with k :: keys' => (keys', delete k (c_map s)) | [] => (keys, c_map s) end
                    else (keys, c_map s) in
  (Ok value, SCache keys (<[key := value]> m)).

(** [tokenCache]. *)
Abbreviation tcache := (scache (list (list token))).

(** The type of a combinator: [match[ 0 ].replace( rtrim, " " )]; the text is one character. *)
Definition combinator_type (s : jstr) : jstr :=
  match s with [c] => if is_html_white c then str " " else s | _ => s end.

(** The filter of a type, if it has one. *)
Definition preFilter (parse : jstr -> res nat) (t : ftype) (c : caps) : res (option filtered) :=
  match t with
  | ATTR => mret (Some (preFilter_ATTR c))
  | CHILD => Some <$> preFilter_CHILD c
  | PSEUDO => preFilter_PSEUDO parse c
  | TAG | CLASS | ID => mret (Some (matched_text c, groups c 1))
  end.

(** What a turn of the loop carries: [soFar], the tokens of this group, [matched]. *)
Abbreviation turn := (jstr * list token * bool)%type.

Definition filter_type (parse : jstr -> res nat) (t : ftype) (st : turn) : res turn :=
  let '(soFar, tokens, matched) := st in
  match xexec (matchExpr t) soFar with
  | None => mret st
  | Some (_, c) =>
      m ← preFilter parse t c;
      mret match m with
           | None => st
           | Some (text, rest) => (drop (length text) soFar, tokens ++ [Token text (TFilter t) rest], negb (bool_decide (text = [])))
           end
  end.

Fixpoint filter_each (parse : jstr -> res nat) (ts : list ftype) (st : turn) : res turn :=
  match ts with [] => mret st | t :: ts' => st ← filter_type parse t st; filter_each parse ts' st end.

Definition combinator (soFar : jstr) (tokens : list token) : turn :=
  match xexec rcombinators soFar with
  | None => (soFar, tokens, false)
  | Some (rest, c) => (rest, tokens ++ [Token (matched_text c) (TComb (combinator_type (text_of (group c 1)))) []], true)
  end.

(** The loop: the groups that are complete, the group that grows ([None] at first), and
    what is left of the selector. *)
Fixpoint tok_loop (parse : jstr -> res nat) (n : nat) (soFar : jstr) (done : list (list token)) (cur : option (list token))
    : res (jstr * list (list token)) :=
  let close := done ++ match cur with Some ts => [ts] | None => [] end in
  match soFar with
  | [] => mret ([], close)
  | _ =>
      match n with
      | O => NoFuel
      | S n =>
          let '(soFar, done, tokens) :=
            match cur with
            | None => (soFar, [], [])
            | Some ts =>
                match xexec rcomma soFar with
                | Some ([], _) => (soFar, close, [])
                | Some (rest, _) => (rest, close, [])
                | None => (soFar, done, ts)
                end
            end in
          st ← filter_each parse filter_types (combinator soFar tokens);
          let '(soFar, tokens, matched) := (st : turn) in
          if (matched : bool) then tok_loop parse n soFar done (Some tokens) else mret (soFar, done ++ [tokens])
      end
  end.

(** The loop of [tokenize]; calls of its own are on shorter texts and only ask for the
    length that is left. *)
Fixpoint tok_parse (m : gmap jstr (list (list token))) (depth : nat) (selector : jstr) : res (jstr * list (list token)) :=
  match depth with
  | O => NoFuel
  | S depth =>
      let parse u := match m !! u with Some _ => mret 0%nat | None => (fun r => length r.1) <$> tok_parse m depth u end in
      tok_loop parse (S (length selector)) selector [] None
  end.

Definition tokenize_fuel (selector : jstr) : nat := S (length selector).

(** [tokenize( selector, true )]. *)
Definition tokenize_rest (selector : jstr) : SM tcache nat := fun s =>
  (match c_map s !! selector with
   | Some _ => mret 0%nat
   | None => (fun r => length r.1) <$> tok_parse (c_map s) (tokenize_fuel selector) selector
   end, s).

(** [tokenize( selector )]. *)
Definition tokenize (selector : jstr) : SM tcache (list (list token)) :=
  m ← sm_get c_map;
  match m !! selector with
  | Some g => mret g
  | None =>
      r ← sm_lift (tok_parse m (tokenize_fuel selector) selector);
      match r with
      | ([], g) => cache_add selector g
      | _ => sm_lift (sizzle_error selector)
      end
  end.

Definition toSelector (tokens : list token) : jstr := List.concat (List.map t_value tokens).

(** A cache that is new. *)
Definition no_cache {V} : scache V := SCache [] ∅.
