(* ===== verification/SizzleFacts.v ===== *)
(** * Reading selectors: termination, what is read, and the cache *)

From S2P Require Import Prelude JsNum JsVal Callbacks Text Regex Sizzle.

(** ** What expressions consume *)

Lemma matchExpr_consumes t : consumes (matchExpr t) = true.
Proof. by destruct t. Qed.

Lemma matched_split r s rest c : xexec r s = Some (rest, c) -> s = matched_text c ++ rest.
Proof. intros (t & -> & E)%xexec_split. unfold matched_text, group. by rewrite E. Qed.

Lemma matched_nonempty r s rest c : consumes r = true -> xexec r s = Some (rest, c) -> matched_text c <> [].
Proof.
  intros Hr E. pose proof (xexec_consumes _ _ _ _ Hr E) as L. apply matched_split in E. intros H. rewrite H in E. cbn in E. subst. lia.
Qed.

Lemma length_between s rest : rest `suffix_of` s -> length (between s rest) = (length s - length rest)%nat.
Proof. intros [t ->]. rewrite between_app, length_app. lia. Qed.

(** The argument between the parentheses of a pseudo class. *)
Lemma argument_shorter a b d r1 r2 s rest c u : 2%nat ∉ groups_of r1 ->
  xexec (XSeqs [XChr a; XGroup 1 r1; XOpt (XSeqs [XChr b; XGroup 2 r2; XChr d])]) s = Some (rest, c) ->
  capture c 2 = Some u -> (length u + 3 <= length (matched_text c))%nat.
Proof.
  intros Hr. unfold xexec. cbn [xmatch XSeqs XOpt XChr]. destruct s as [|x s]; [done|]. destruct (a =? x)%N; [|done].
  intros (s1 & c1 & (H1 & _ & C1) & E)%xmatch_continues Hu.
  assert (forall y, match y with Some z => Some z | None => Some (s1, (0%nat, between (x :: s) s1) :: (1%nat, between s s1) :: c1) end
    = Some (rest, c) -> y = Some (rest, c)) as Hy.
  { intros [y|]; [done|]. intros [= <- <-]. cbn in Hu. rewrite C1 in Hu by done. done. }
  apply Hy in E. clear Hy. destruct s1 as [|x1 s1]; [done|]. destruct (b =? x1)%N; [|done].
  apply xmatch_continues in E as (s2 & c2 & (H2 & _ & _) & E). destruct s2 as [|x2 s2]; [done|]. destruct (d =? x2)%N; [|done].
  injection E as <- <-. cbn in Hu. injection Hu as <-. unfold matched_text, group. cbn [capture Nat.eqb text_of].
  assert (s2 `suffix_of` s) by (etrans; [by apply suffix_cons_r|]; etrans; [exact H2|]; etrans; [|exact H1]; by apply suffix_cons_r).
  rewrite !length_between by (done || by apply suffix_cons_r).
  pose proof (suffix_length _ _ H1). pose proof (suffix_length _ _ H2). cbn [length] in *. lia.
Qed.

Lemma pseudo_argument s rest c u : xexec pseudos s = Some (rest, c) -> capture c 2 = Some u ->
  (length u + 3 <= length (matched_text c))%nat.
Proof. apply argument_shorter. vm_compute. by intros ?%elem_of_nil. Qed.

(** ** What a turn reads *)

Lemma toSelector_app a b : toSelector (a ++ b) = toSelector a ++ toSelector b.
Proof. unfold toSelector. by rewrite List.map_app, List.concat_app. Qed.

(** A token has a text; a combinator is one of the four, and a filter has what the expression
    of its type captures. *)
Definition good_token (t : token) : Prop :=
  t_value t <> [] /\
  match t_type t with
  | TComb c => c ∈ List.map str [">"; " "; "+"; "~"]%string
  | TFilter ft => exists parse s rest c, xexec (matchExpr ft) s = Some (rest, c) /\ preFilter parse ft c = Ok (Some (t_value t, t_matches t))
  end.

(** A turn reads some tokens. *)
Definition reads (s : jstr) (ts : list token) (st : turn) : Prop :=
  exists new, st.1.2 = ts ++ new /\ s = toSelector new ++ st.1.1 /\ Forall good_token new
    /\ (st.2 = true <-> new <> []).

Lemma reads_none s ts : reads s ts (s, ts, false).
Proof. exists []. rewrite app_nil_r. by split_and!. Qed.

Lemma reads_step s ts s1 ts1 b tok s2 : reads s ts (s1, ts1, b) -> good_token tok -> s1 = t_value tok ++ s2 ->
  reads s ts (s2, ts1 ++ [tok], true).
Proof.
  intros (new & E1 & E2 & Hn & _) Ht ->. cbn [fst snd] in *. subst. exists (new ++ [tok]). cbn [fst snd].
  split_and!; [by rewrite app_assoc| |by apply Forall_app; auto|split; [|done]; by destruct new].
  rewrite toSelector_app, <- !app_assoc. unfold toSelector at 2. cbn. by rewrite app_nil_r.
Qed.

Lemma combinator_char s rest c : xexec rcombinators s = Some (rest, c) ->
  combinator_type (text_of (group c 1)) ∈ List.map str [">"; " "; "+"; "~"]%string.
Proof.
  unfold xexec, rcombinators. intros E. cbn [xmatch XSeqs] in E.
  apply (xmatch_continues spaces) in E as (s1 & c1 & _ & E).
  assert (exists y s2, s1 = y :: s2 /\ (y ∈ str ">+~" \/ is_html_white y = true) /\
    xmatch spaces (fun s' c' => Some (s', (0%nat, between s s') :: c')) s2 ((1%nat, [y]) :: c1) = Some (rest, c)) as (y & s2 & -> & Hy & E').
  { destruct s1 as [|y s2]; [done|]. exists y, s2. cbn [xmatch XOneOf whitespace] in E.
    assert (between (y :: s2) s2 = [y]) as Hb by (apply (between_app [y])). rewrite !Hb in E. split; [done|].
    destruct (bool_decide (y ∈ str ">+~")) eqn:E1; [apply bool_decide_eq_true in E1|]; destruct (xmatch spaces _ _ _) as [x|] eqn:E2.
    - injection E as ->. auto.
    - destruct (is_html_white y); [congruence|done].
    - destruct (is_html_white y) eqn:E3; [auto|done].
    - destruct (is_html_white y); [congruence|done]. }
  apply (xmatch_continues spaces) in E' as (s3 & c3 & (_ & _ & Hc) & [= <- <-]).
  unfold group. cbn [capture Nat.eqb]. rewrite Hc by (vm_compute; by intros ?%elem_of_nil). cbn [capture Nat.eqb text_of combinator_type].
  destruct (is_html_white y) eqn:Ew; [right; left|]. destruct Hy as [Hy|Hy]; [|done].
  change (str ">+~") with [chr ">"; chr "+"; chr "~"] in Hy. rewrite !elem_of_cons in Hy. destruct Hy as [->|[->|[->|?%elem_of_nil]]]; [left|do 2 right; left|do 3 right; left|done].
Qed.

Lemma combinator_reads s ts : reads s ts (combinator s ts).
Proof.
  unfold combinator. destruct (xexec rcombinators s) as [[rest c]|] eqn:E; [|apply reads_none].
  eapply (reads_step _ _ s ts false); [apply reads_none| |by apply matched_split in E].
  split; cbn [t_value t_type]; [by apply (matched_nonempty rcombinators s rest)|by eapply combinator_char].
Qed.

Section parse.
Context (parse : jstr -> res nat).

Lemma slice_prefix s e : slice_to s e `prefix_of` s.
Proof. apply prefix_take. Qed.

Lemma index_paren_ge s n : -1 <= index_paren s n.
Proof. unfold index_paren. destruct (find_sub _ _) as [[a b]|]; lia. Qed.

Lemma capture_of c n u : group c n = MStr u -> capture c n = Some u.
Proof. unfold group. destruct (capture c n); by intros [= ->]. Qed.

(** The text that a filter keeps is a beginning of what was matched. *)
Lemma preFilter_text t s rest c text ms : xexec (matchExpr t) s = Some (rest, c) ->
  preFilter parse t c = Ok (Some (text, ms)) -> text <> [] /\ text `prefix_of` matched_text c.
Proof.
  intros E. pose proof (matched_nonempty _ _ _ _ (matchExpr_consumes t) E) as Hm.
  destruct t; cbn [preFilter matchExpr] in *; try (by intros [= <- _]).
  - unfold preFilter_CHILD. repeat case_match; cbn; by intros [= <- _].
  - unfold preFilter_PSEUDO. destruct (bool_decide _); [done|]. destruct (m_truthy (group c 3)); [by intros [= <- _]|].
    destruct (m_truthy (group c 6)); [by intros [= <- _]|]. destruct (m_truthy (group c 2) && _) eqn:Eu; [|by intros [= <- _]].
    apply andb_true_iff in Eu as [Eu _]. destruct (group c 2) as [|u|] eqn:E2; [done| |by unfold group in E2; case_match].
    apply capture_of in E2. pose proof (pseudo_argument _ _ _ _ E E2) as L.
    intros (n & _ & Hn)%bind_Ok_inv. cbn [text_of] in Hn. destruct (n =? 0)%nat; injection Hn as <- _; [done|].
    pose proof (index_paren_ge u (length u - n)). split; [|apply slice_prefix].
    intros Hs%(f_equal length). unfold slice_to in Hs. rewrite length_take in Hs. cbn [length] in Hs. lia.
Qed.

Lemma filter_type_reads t s ts st st' : reads s ts st -> filter_type parse t st = Ok st' -> reads s ts st'.
Proof.
  destruct st as [[s1 ts1] b]. intros H. cbn [filter_type]. destruct (xexec (matchExpr t) s1) as [[rest c]|] eqn:E; [|by intros [= <-]].
  intros (m & Hm & [= <-])%bind_Ok_inv. destruct m as [[text ms]|]; [|done].
  destruct (preFilter_text _ _ _ _ _ _ E Hm) as [Ht [rest' Hr]]. rewrite bool_decide_eq_false_2 by done.
  eapply reads_step; [exact H|split; [done|by exists parse, s1, rest, c]|]. apply matched_split in E. cbn [t_value]. subst s1. rewrite Hr, <- app_assoc. by rewrite drop_app_length.
Qed.

Lemma filter_each_reads l s ts st st' : reads s ts st -> filter_each parse l st = Ok st' -> reads s ts st'.
Proof.
  revert st. induction l as [|t l IH]; intros st H; cbn [filter_each]; [by intros [= <-]|].
  intros (st1 & E & E')%bind_Ok_inv. eapply IH; [|done]. by eapply filter_type_reads.
Qed.

(** ** Termination *)

(** An answer, or the exception of [Sizzle.error]. *)
Definition syntax_error (e : jstr) : Prop := exists m, e = str "Syntax error, unrecognized expression: " ++ m.
Definition ends {A} (r : res A) : Prop := match r with Ok _ => True | Throw e => syntax_error e | NoFuel => False end.

Lemma error_ends {A} m : ends (sizzle_error m : res A).
Proof. by exists m. Qed.

Lemma bind_ends {A B} (m : res A) (f : A -> res B) : ends m -> (forall a, m = Ok a -> ends (f a)) -> ends (m ≫= f).
Proof. intros Hm Hf. destruct m as [a|e|]; [by apply Hf|done..]. Qed.

(** [parse] answers for the arguments of pseudo classes in a text. *)
Definition parses (s : jstr) : Prop := forall u, (length u < length s)%nat -> ends (parse u).

Lemma parses_suffix s s' : s' `suffix_of` s -> parses s -> parses s'.
Proof. intros Hs%suffix_length H u Hu. apply H. lia. Qed.

Lemma preFilter_ends t s rest c : parses s -> xexec (matchExpr t) s = Some (rest, c) -> ends (preFilter parse t c).
Proof.
  intros Hp E. destruct t; cbn [preFilter matchExpr] in *; try done.
  - unfold preFilter_CHILD. repeat case_match; (done || apply error_ends).
  - unfold preFilter_PSEUDO. destruct (bool_decide _); [done|]. destruct (m_truthy (group c 3)); [done|].
    destruct (m_truthy (group c 6)); [done|]. destruct (m_truthy (group c 2) && _) eqn:Eu; [|done].
    apply andb_true_iff in Eu as [Eu _]. destruct (group c 2) as [|u|] eqn:E2; [done| |by unfold group in E2; case_match].
    apply capture_of in E2. pose proof (pseudo_argument _ _ _ _ E E2) as L. apply matched_split in E.
    apply bind_ends; [|by intros n _; case_match]. apply Hp. cbn [text_of]. rewrite E, length_app. lia.
Qed.

Lemma filter_each_ends l s ts st : reads s ts st -> parses s -> ends (filter_each parse l st).
Proof.
  intros H Hp. revert st H. induction l as [|t l IH]; intros st H; cbn [filter_each]; [done|].
  apply bind_ends.
  - destruct st as [[s1 ts1] b]. cbn [filter_type]. destruct (xexec (matchExpr t) s1) as [[rest c]|] eqn:E; [|done].
    apply bind_ends; [|done]. eapply preFilter_ends; [|exact E]. destruct H as (new & _ & -> & _). eapply parses_suffix; [|exact Hp]. by eexists.
  - intros st1 E1. apply IH. by eapply filter_type_reads.
Qed.
End parse.

(** ** Commas *)

Abbreviation white a := (Forall (fun c => is_html_white c = true) a).

(** A comma with white space around it. *)
Definition comma_text (w : jstr) : Prop := exists a b, w = a ++ chr "," :: b /\ white a /\ white b.

Lemma rcomma_reads s rest c : xexec rcomma s = Some (rest, c) -> exists w, s = w ++ rest /\ comma_text w.
Proof.
  unfold xexec, rcomma. intros E. cbn [xmatch XSeqs] in E.
  apply (xmatch_uses spaces) in E as (a & s1 & c1 & -> & Ha & E). cbn [XChr xmatch] in E.
  destruct s1 as [|y s1]; [done|]. destruct (chr "," =? y)%N eqn:Ey; [|done]. apply N.eqb_eq in Ey as <-.
  apply (xmatch_uses spaces) in E as (b & s2 & c2 & -> & Hb & [= -> _]). exists (a ++ chr "," :: b). split; [by rewrite <- app_assoc|by exists a, b].
Qed.

Lemma rcomma_all w : comma_text w -> exists c, xexec rcomma w = Some ([], c).
Proof.
  intros (a & b & -> & Ha & Hb). unfold xexec, rcomma. cbn [xmatch XSeqs]. eexists.
  apply star_greedy; [done..|]. cbn [XChr xmatch]. rewrite N.eqb_refl. rewrite <- (app_nil_r b) at 1. by apply star_greedy.
Qed.

Lemma comma_text_nonempty w : comma_text w -> w <> [].
Proof. intros (a & b & -> & _). by destruct a. Qed.

(** No filter begins with white space or a comma. *)
Lemma filter_starts t y : is_html_white y = true \/ y = chr "," -> firsts (matchExpr t) y = false.
Proof.
  intros [Hy| ->]; [|by destruct t].
  assert (y = 32 \/ y = 9 \/ y = 10 \/ y = 12 \/ y = 13)%N as Hy'.
  { unfold is_html_white in Hy. rewrite !orb_true_iff, !N.eqb_eq in Hy. tauto. }
  destruct Hy' as [->|[->|[->|[->| ->]]]]; by destruct t.
Qed.

Lemma comma_text_filters parse l w ts b : comma_text w -> filter_each parse l (w, ts, b) = Ok (w, ts, b).
Proof.
  intros (a & b' & -> & Ha & _). induction l as [|t l IH]; [done|]. cbn [filter_each filter_type].
  assert (xexec (matchExpr t) (a ++ chr "," :: b') = None) as ->; [|exact IH].
  destruct Ha as [|y a Hy Ha]; cbn [app]; apply xexec_firsts; auto using filter_starts, matchExpr_consumes.
Qed.

Lemma comma_text_combinator w ts : comma_text w -> exists w' ts' b, combinator w ts = (w', ts', b) /\ comma_text w'.
Proof.
  intros Hw. unfold combinator. destruct (xexec rcombinators w) as [[rest c]|] eqn:E; [|by eauto].
  do 3 eexists. split; [done|]. apply (xmatch_uses (XGroup 0 rcombinators)) in E as (t & s' & c' & Hs & Ht & [= -> _]).
  destruct Hw as (a & b & -> & Ha & Hb). apply app_eq_inv in Hs as [(k & -> & ->)|(k & -> & Hk)].
  - apply Forall_app in Ha as [_ Ha]. by exists k, b.
  - destruct k as [|y k]; [rewrite app_nil_l in Hk; subst; by exists [], b|]. injection Hk as <- ->.
    apply Forall_app in Ht as [_ Ht]. by apply Forall_cons in Ht as [Ht _].
Qed.

(** ** The loop *)

(** A selector as the texts of its groups with commas between them. *)
Inductive joined : list (list token) -> jstr -> Prop :=
  | joined_one g : joined [g] (toSelector g)
  | joined_more g gs w t : comma_text w -> joined gs t -> joined (g :: gs) (toSelector g ++ w ++ t).

Definition group_ok (g : list token) : Prop := g <> [] /\ Forall good_token g.

(** One turn of the loop after the comma. *)
Definition one_turn (parse : jstr -> res nat) (s : jstr) (ts : list token) : res turn := filter_each parse filter_types (combinator s ts).

Lemma one_turn_reads parse s ts st : one_turn parse s ts = Ok st -> reads s ts st.
Proof. apply filter_each_reads, combinator_reads. Qed.

Lemma tok_loop_first parse n x s :
  tok_loop parse (S n) (x :: s) [] None =
  one_turn parse (x :: s) [] ≫= fun st => if st.2 : bool then tok_loop parse n st.1.1 [] (Some st.1.2) else mret (st.1.1, [st.1.2]).
Proof. cbn [tok_loop]. fold (one_turn parse (x :: s) []). by destruct (one_turn _ _ _) as [[[? ?] ?]|?|]. Qed.

(** A later turn: where it begins and what is complete then. *)
Definition after_comma (s : jstr) (prev : list (list token)) (ts : list token) : jstr * list (list token) * list token :=
  match xexec rcomma s with
  | Some ([], _) => (s, prev ++ [ts], [])
  | Some (rest, _) => (rest, prev ++ [ts], [])
  | None => (s, prev, ts)
  end.

Lemma tok_loop_next parse n x s prev ts :
  tok_loop parse (S n) (x :: s) prev (Some ts) =
  let '(s1, prev1, ts1) := after_comma (x :: s) prev ts in
  one_turn parse s1 ts1 ≫= fun st => if st.2 : bool then tok_loop parse n st.1.1 prev1 (Some st.1.2) else mret (st.1.1, prev1 ++ [st.1.2]).
Proof.
  cbn [tok_loop]. fold (after_comma (x :: s) prev ts). destruct (after_comma (x :: s) prev ts) as [[s1 prev1] ts1].
  fold (one_turn parse s1 ts1). by destruct (one_turn parse s1 ts1) as [[[? ?] ?]|?|].
Qed.

(** A comma at the end of a selector is never consumed. *)
Lemma comma_text_stays parse n w prev ts r : comma_text w -> tok_loop parse n w prev (Some ts) = Ok r -> r.1 <> [].
Proof.
  revert w prev ts. induction n as [|n IH]; intros w prev ts Hw; pose proof (comma_text_nonempty w Hw) as Hn;
    destruct w as [|x w]; [congruence|done|congruence|].
  rewrite tok_loop_next. unfold after_comma. destruct (rcomma_all _ Hw) as [c ->]. unfold one_turn.
  destruct (comma_text_combinator _ [] Hw) as (w' & ts' & b & -> & Hw'). rewrite comma_text_filters by done. cbn [mbind res_bind fst snd].
  destruct b; [by apply IH|]. intros [= <-]. by apply comma_text_nonempty.
Qed.

Lemma reads_group s ts st : reads s ts st -> st.2 = true -> Forall good_token ts -> group_ok st.1.2.
Proof.
  intros (new & E & _ & Hn & Hb) Hm Ht. apply Hb in Hm. rewrite E. split; [by destruct ts, new|by apply Forall_app].
Qed.

Lemma reads_nothing s ts st : reads s ts st -> st.2 = false -> st.1 = (s, ts).
Proof.
  destruct st as [[s' ts'] b]. intros (new & E & E' & _ & Hb) Hm. cbn in *. destruct new as [|t new].
  - rewrite app_nil_r in E. by subst.
  - rewrite Hm in Hb. by destruct Hb as [_ Hb]; discriminate Hb.
Qed.

Lemma reads_shrinks s ts st : reads s ts st -> st.2 = true -> (length st.1.1 < length s)%nat.
Proof.
  intros (new & _ & -> & Hn & Hb) Hm. apply Hb in Hm. destruct Hn as [|t new [Ht _] _]; [done|].
  unfold toSelector. cbn. rewrite !length_app. destruct (t_value t); [done|]. cbn. lia.
Qed.

(** The groups of a selector that is read to its end. *)
Lemma tok_loop_joined parse n s prev ts gs : group_ok ts -> tok_loop parse n s prev (Some ts) = Ok ([], gs) ->
  exists gs', gs = prev ++ gs' /\ joined gs' (toSelector ts ++ s) /\ Forall group_ok gs'.
Proof.
  revert s prev ts. induction n as [|n IH]; intros s prev ts Hts; destruct s as [|x s].
  1,3: intros [= <-]; exists [ts]; rewrite app_nil_r; split_and!; [done|apply joined_one|by apply Forall_singleton].
  { done. }
  destruct (xexec rcomma (x :: s)) as [[[|y rest] c]|] eqn:Ec.
  - apply rcomma_reads in Ec as (w & Ew & Hw). rewrite app_nil_r in Ew. rewrite Ew. intros E. by apply comma_text_stays in E.
  - rewrite tok_loop_next. unfold after_comma. rewrite Ec. apply rcomma_reads in Ec as (w & -> & Hw).
    intros (st & Hst%one_turn_reads & E)%bind_Ok_inv. destruct (st.2 : bool) eqn:Em.
    + apply IH in E as (gs' & -> & Hj & Ho); [|by apply (reads_group _ _ _ Hst)]. exists (ts :: gs').
      destruct Hst as (new & E1 & E2 & _). cbn in E1. rewrite <- E1, E1 in *. rewrite E2, <- app_assoc.
      split_and!; [done|by constructor|by constructor].
    + apply reads_nothing in Hst; [|done]. rewrite Hst in E. done.
  - rewrite tok_loop_next. unfold after_comma. rewrite Ec.
    intros (st & Hst%one_turn_reads & E)%bind_Ok_inv. destruct (st.2 : bool) eqn:Em.
    + apply IH in E as (gs' & -> & Hj & Ho); [|apply (reads_group _ _ _ Hst); [done|apply Hts]]. exists gs'. split_and!; [done| |done].
      destruct Hst as (new & E1 & E2 & _). rewrite E2, app_assoc, <- toSelector_app, <- E1. done.
    + apply reads_nothing in Hst; [|done]. rewrite Hst in E. done.
Qed.

(** ** Termination of the loop *)

Lemma after_comma_suffix s prev ts : (after_comma s prev ts).1.1 `suffix_of` s.
Proof.
  unfold after_comma. destruct (xexec rcomma s) as [[[|y rest] c]|] eqn:E; try done.
  apply rcomma_reads in E as (w & -> & _). by eexists.
Qed.

Lemma one_turn_ends parse s ts : parses parse s -> ends (one_turn parse s ts).
Proof. apply (filter_each_ends _ _ _ ts), combinator_reads. Qed.

Lemma tok_loop_ends parse n s prev cur : parses parse s -> (length s < n)%nat ->
  match cur with None => prev = [] | Some _ => True end -> ends (tok_loop parse n s prev cur).
Proof.
  revert s prev cur. induction n as [|n IH]; intros s prev cur Hp Hn Hc; [lia|]. destruct s as [|x s]; [done|].
  destruct cur as [ts|].
  - rewrite tok_loop_next. pose proof (after_comma_suffix (x :: s) prev ts) as Hs.
    destruct (after_comma _ _ _) as [[s1 prev1] ts1]. cbn in Hs.
    pose proof (parses_suffix _ _ _ Hs Hp) as Hp1. pose proof (suffix_length _ _ Hs).
    apply bind_ends; [by apply one_turn_ends|]. intros st Hst%one_turn_reads. destruct (st.2 : bool) eqn:Em; [|done].
    pose proof (reads_shrinks _ _ _ Hst Em). apply IH; [|lia|done]. intros u Hu. apply Hp1. lia.
  - subst. rewrite tok_loop_first. apply bind_ends; [by apply one_turn_ends|]. intros st Hst%one_turn_reads.
    destruct (st.2 : bool) eqn:Em; [|done]. pose proof (reads_shrinks _ _ _ Hst Em). apply IH; [|lia|done]. intros u Hu. apply Hp. lia.
Qed.

Lemma tok_parse_ends m depth s : (length s < depth)%nat -> ends (tok_parse m depth s).
Proof.
  revert s. induction depth as [|depth IH]; intros s Hd; [lia|]. cbn [tok_parse]. apply tok_loop_ends; [|lia|done].
  intros u Hu. destruct (m !! u); [done|]. assert (ends (tok_parse m depth u)) by (apply IH; lia).
  by destruct (tok_parse m depth u).
Qed.

(** ** Calls of [tokenize] inside *)

Section agree.
Context (parse parse' : jstr -> res nat).

Definition agrees (s : jstr) : Prop := forall u, (length u < length s)%nat -> parse u = parse' u.

Lemma agrees_suffix s s' : s' `suffix_of` s -> agrees s -> agrees s'.
Proof. intros Hs%suffix_length H u Hu. apply H. lia. Qed.

Lemma preFilter_agrees t s rest c : agrees s -> xexec (matchExpr t) s = Some (rest, c) -> preFilter parse t c = preFilter parse' t c.
Proof.
  intros Hp E. destruct t; cbn [preFilter matchExpr] in *; try done.
  unfold preFilter_PSEUDO. destruct (bool_decide _); [done|]. destruct (m_truthy (group c 3)); [done|].
  destruct (m_truthy (group c 6)); [done|]. destruct (m_truthy (group c 2) && _) eqn:Eu; [|done].
  apply andb_true_iff in Eu as [Eu _]. destruct (group c 2) as [|u|] eqn:E2; [done| |by unfold group in E2; case_match].
  apply capture_of in E2. pose proof (pseudo_argument _ _ _ _ E E2) as L. apply matched_split in E.
  cbn [text_of]. rewrite Hp; [done|]. rewrite E, length_app. lia.
Qed.

Lemma filter_each_agrees l s ts st : reads s ts st -> agrees s -> filter_each parse l st = filter_each parse' l st.
Proof.
  intros H Hp. revert st H. induction l as [|t l IH]; intros st H; cbn [filter_each]; [done|].
  assert (filter_type parse t st = filter_type parse' t st) as E.
  { destruct st as [[s1 ts1] b]. cbn [filter_type]. destruct (xexec (matchExpr t) s1) as [[rest c]|] eqn:E; [|done].
    erewrite preFilter_agrees; [done| |exact E]. destruct H as (new & _ & -> & _). eapply agrees_suffix; [|exact Hp]. by eexists. }
  rewrite <- E. destruct (filter_type parse t st) as [st1|e|] eqn:E1; [|done..]. apply IH. by eapply filter_type_reads.
Qed.

Lemma one_turn_agrees s ts : agrees s -> one_turn parse s ts = one_turn parse' s ts.
Proof. apply (filter_each_agrees _ _ ts), combinator_reads. Qed.

Lemma tok_loop_agrees n s prev cur : agrees s -> match cur with None => prev = [] | Some _ => True end ->
  tok_loop parse n s prev cur = tok_loop parse' n s prev cur.
Proof.
  revert s prev cur. induction n as [|n IH]; intros s prev cur Hp Hc; (destruct s as [|x s]; [done|]); [done|].
  destruct cur as [ts|].
  - rewrite !tok_loop_next. pose proof (after_comma_suffix (x :: s) prev ts) as Hs.
    destruct (after_comma _ _ _) as [[s1 prev1] ts1]. cbn in Hs. pose proof (agrees_suffix _ _ Hs Hp) as Hp1.
    rewrite <- one_turn_agrees by done. destruct (one_turn parse s1 ts1) as [st|e|] eqn:E; [|done..].
    cbn [mbind res_bind]. destruct (st.2 : bool) eqn:Em; [|done]. apply one_turn_reads in E. pose proof (reads_shrinks _ _ _ E Em).
    apply IH; [|done]. intros u Hu. apply Hp1. lia.
  - subst. rewrite !tok_loop_first. rewrite <- one_turn_agrees by done. destruct (one_turn parse _ _) as [st|e|] eqn:E; [|done..].
    cbn [mbind res_bind]. destruct (st.2 : bool) eqn:Em; [|done]. apply one_turn_reads in E. pose proof (reads_shrinks _ _ _ E Em).
    apply IH; [|done]. intros u Hu. apply Hp. lia.
Qed.
End agree.

(** What a selector is without a cache. *)
Definition parsed (s : jstr) : res (jstr * list (list token)) := tok_parse ∅ (tokenize_fuel s) s.

(** The cache has what the selectors are, each once, and not too many of them. *)
Definition cache_ok (c : tcache) : Prop :=
  NoDup (c_keys c) /\ (forall k, is_Some (c_map c !! k) <-> k ∈ c_keys c) /\ (length (c_keys c) <= cacheLength)%nat
  /\ forall k g, c_map c !! k = Some g -> parsed k = Ok ([], g).

Lemma tok_parse_cached m d s : (forall k g, m !! k = Some g -> parsed k = Ok ([], g)) -> (length s < d)%nat ->
  tok_parse m d s = parsed s.
Proof.
  intros Hm. enough (forall d d' s, (length s < d)%nat -> (length s < d')%nat -> tok_parse m d s = tok_parse ∅ d' s) as H.
  { intros Hd. apply H; [done|]. unfold tokenize_fuel. lia. }
  clear d s. induction d as [|d IH]; intros d' s Hd Hd'; [lia|]. destruct d' as [|d']; [lia|]. cbn [tok_parse].
  apply tok_loop_agrees; [|done]. intros u Hu. rewrite lookup_empty, (IH d' u) by lia.
  destruct (m !! u) as [g|] eqn:E; [|done]. apply Hm in E. unfold parsed in E. rewrite <- (IH (tokenize_fuel u) u) in E by (unfold tokenize_fuel; lia).
  by rewrite (IH d' u) in E by lia; rewrite E.
Qed.

(** ** [tokenize] with its cache, after any calls *)

(** The caches after any calls of [tokenize]; calls that throw may be caught. *)
Inductive cache_reach : tcache -> Prop :=
  | reach_start : cache_reach no_cache
  | reach_tokenize c s : cache_reach c -> cache_reach (tokenize s c).2
  | reach_rest c s : cache_reach c -> cache_reach (tokenize_rest s c).2.

Lemma no_cache_ok : cache_ok no_cache.
Proof.
  split_and!; cbn; [constructor| |unfold cacheLength; lia|].
  - intros k. rewrite lookup_empty, elem_of_nil. split; [by intros [? ?]|done].
  - intros k g. by rewrite lookup_empty.
Qed.

Lemma tokenize_unfold s c : cache_ok c ->
  tokenize s c = match c_map c !! s with
                 | Some g => (Ok g, c)
                 | None => match parsed s with
                           | Ok ([], g) => cache_add s g c
                           | Ok _ => (sizzle_error s, c)
                           | Throw e => (Throw e, c)
                           | NoFuel => (NoFuel, c)
                           end
                 end.
Proof.
  intros (_ & _ & _ & Hm). unfold tokenize. rewrite sm_get_bind. destruct (c_map c !! s); [done|].
  rewrite (tok_parse_cached _ _ _ Hm) by (unfold tokenize_fuel; lia). unfold mbind, sm_bind, sm_lift.
  destruct (parsed s) as [[[|x r] g]|e|]; [|done..]. done.
Qed.

Lemma cache_add_answer {V} k (g : V) c : (cache_add k g c).1 = Ok g.
Proof. unfold cache_add. by repeat case_match. Qed.

Lemma cache_add_ok k g (c : tcache) : cache_ok c -> c_map c !! k = None -> parsed k = Ok ([], g) -> cache_ok (cache_add k g c).2.
Proof.
  intros (Hd & Hk & Hl & Hm) Hn Hp. assert (k ∉ c_keys c) as Hk' by (rewrite <- Hk, Hn; by intros [? ?]).
  assert (NoDup (c_keys c ++ [k])) as Hd' by (apply NoDup_app; split_and!; [done| |apply NoDup_singleton]; by intros x Hx ->%list_elem_of_singleton).
  assert (forall k', is_Some (<[k:=g]> (c_map c) !! k') <-> k' ∈ c_keys c ++ [k]) as Hi.
  { intros k'. rewrite lookup_insert_is_Some, elem_of_app, list_elem_of_singleton, Hk. destruct (decide (k = k')) as [->|]; naive_solver. }
  assert (forall k' g', <[k:=g]> (c_map c) !! k' = Some g' -> parsed k' = Ok ([], g')) as Hp'.
  { intros k' g' [[<- <-]|[_ E]]%lookup_insert_Some; [done|by apply Hm]. }
  unfold cache_add. destruct (cacheLength <? _)%nat eqn:E; [|apply Nat.ltb_ge in E; by split_and!].
  destruct (c_keys c) as [|k0 ks] eqn:Ek; [by cbn in E|]. cbn [app] in *. apply NoDup_cons in Hd' as [Hn0 Hd'].
  assert (k <> k0) by (intros ->; apply Hn0, elem_of_app; right; by apply list_elem_of_singleton).
  split_and!; cbn [c_keys c_map snd]; [done| |rewrite length_app; cbn in *; lia|].
  - intros k'. rewrite <- delete_insert_ne by done. destruct (decide (k' = k0)) as [->|Hne].
    + rewrite lookup_delete_eq. split; [by intros [? ?]|done].
    + rewrite lookup_delete_ne by done. rewrite Hi, elem_of_cons. naive_solver.
  - intros k' g'. rewrite <- delete_insert_ne by done. intros [_ E']%lookup_delete_Some. by apply Hp'.
Qed.

Lemma tokenize_keeps_ok s c : cache_ok c -> cache_ok (tokenize s c).2.
Proof.
  intros Hc. rewrite tokenize_unfold by done. destruct (c_map c !! s) eqn:E; [done|].
  destruct (parsed s) as [[[|x r] g]|e|] eqn:Ep; [by apply cache_add_ok|done..].
Qed.

Lemma reach_ok c : cache_reach c -> cache_ok c.
Proof. induction 1; [apply no_cache_ok|by apply tokenize_keeps_ok|done]. Qed.

(** What a cache answers does not depend on what it holds. *)
Lemma tokenize_same c s : cache_ok c -> (tokenize s c).1 = (tokenize s no_cache).1.
Proof.
  intros Hr. pose proof Hr as (_ & _ & _ & Hm). rewrite !tokenize_unfold by auto using no_cache_ok. cbn [no_cache c_map]. rewrite lookup_empty.
  destruct (c_map c !! s) as [g|] eqn:E; [by rewrite (Hm s g E), cache_add_answer|].
  destruct (parsed s) as [[[|x r] g]|e|]; [by rewrite !cache_add_answer|done..].
Qed.

(** The cache of selectors does not show: after any calls of [tokenize], it answers for
    every selector, and for every text of which only the length that is left is asked, what
    it answers at the beginning; exceptions too.  It never holds more than 50 selectors. *)
Theorem tokenize_cache c s : cache_reach c ->
  (tokenize s c).1 = (tokenize s no_cache).1 /\ (tokenize_rest s c).1 = (tokenize_rest s no_cache).1
  /\ (size (c_map c) <= 50)%nat.
Proof.
  intros Hr%reach_ok. pose proof Hr as (Hd & Hk & Hl & Hm).
  assert (forall g, c_map c !! s = Some g -> parsed s = Ok ([], g)) as Hs by (intros g; apply Hm). split_and!.
  - by apply tokenize_same.
  - unfold tokenize_rest. cbn [fst no_cache c_map]. rewrite lookup_empty. fold (parsed s).
    destruct (c_map c !! s) as [g|] eqn:E; [by rewrite (Hs g eq_refl)|]. by rewrite (tok_parse_cached _ _ _ Hm) by (unfold tokenize_fuel; lia).
  - rewrite <- size_dom. replace (dom (c_map c)) with (list_to_set (C:=gset jstr) (c_keys c)).
    + by rewrite size_list_to_set.
    + apply leibniz_equiv. intros k. by rewrite elem_of_list_to_set, elem_of_dom, Hk.
Qed.

Lemma tokenize_cache_witness :
  cache_reach (tokenize (str "a, b") no_cache).2 /\
  (tokenize (str ":not(a, b)") (tokenize (str "a, b") no_cache).2).1 = (tokenize (str ":not(a, b)") no_cache).1.
Proof.
  split; [apply reach_tokenize, reach_start|].
  apply (tokenize_cache (tokenize (str "a, b") no_cache).2 (str ":not(a, b)")). apply reach_tokenize, reach_start.
Defined.

Lemma parsed_joined s gs : parsed s = Ok ([], gs) -> (s = [] /\ gs = []) \/ joined gs s /\ Forall group_ok gs.
Proof.
  unfold parsed, tokenize_fuel. cbn [tok_parse]. destruct s as [|x s]; [intros [= <-]; by left|].
  rewrite tok_loop_first. intros (st & Hst%one_turn_reads & E)%bind_Ok_inv. right. destruct (st.2 : bool) eqn:Em.
  - pose proof (reads_group _ _ _ Hst Em (Forall_nil_2 _)) as Hg. apply tok_loop_joined in E as (gs' & -> & Hj & Ho); [|done].
    destruct Hst as (new & E1 & E2 & _). cbn [app] in *. rewrite E2, <- E1. done.
  - apply reads_nothing in Hst; [|done]. rewrite Hst in E. done.
Qed.

(** C30: [tokenize] answers or throws for every selector, whatever the cache holds.  The groups
    that it answers are the whole selector: the texts of their tokens, none of which is
    empty, and between two groups a comma with white space; no character is skipped or read
    twice, also where the argument of a pseudo class was too long and is cut.  A selector
    that is not readable throws and does not enter the cache. *)
Theorem tokenize_covers c s : cache_reach c ->
  match tokenize s c with
  | (Ok gs, _) => (s = [] /\ gs = []) \/ joined gs s /\ Forall group_ok gs
  | (Throw e, c') => c' = c /\ syntax_error e
  | (NoFuel, _) => False
  end.
Proof.
  intros Hr%reach_ok. pose proof Hr as (Hd & Hk & Hl & Hm). rewrite tokenize_unfold by done.
  destruct (c_map c !! s) as [g|] eqn:E; [apply Hm in E; by apply parsed_joined|].
  assert (ends (parsed s)) as He by (apply tok_parse_ends; unfold tokenize_fuel; lia).
  destruct (parsed s) as [[[|x r] g]|e|] eqn:Ep; [|by split; [|exists s]|done..].
  pose proof (cache_add_answer s g c) as Ea. destruct (cache_add s g c) as [r c']. cbn in Ea. subst. by apply parsed_joined.
Qed.

Lemma tokenize_covers_witness : cache_reach no_cache /\
  exists gs, (tokenize (str "ul > li, :not(a, b)") no_cache).1 = Ok gs /\ joined gs (str "ul > li, :not(a, b)").
Proof.
  split; [apply reach_start|]. pose proof (tokenize_covers no_cache (str "ul > li, :not(a, b)") reach_start) as H.
  destruct (tokenize _ _) as [[gs|e|] c'] eqn:E.
  - exists gs. split; [done|]. destruct H as [[H _]|[H _]]; [discriminate H|exact H].
  - exfalso. by vm_compute in E.
  - destruct H.
Defined.
