(* ===== verification/SizzleEscape.v ===== *)
(** * Escapes of names, and selectors that are written with them *)

From Stdlib Require Import ZifyBool ZifyN.
From S2P Require Import Prelude JsNum JsVal Callbacks Text Regex Sizzle SizzleFacts.

(** ** The pieces of an escaped name *)

Definition plain_char (c : N) : bool := is_word_dash c || beyond_ascii c.

(** What [escape] writes for a character. *)
Inductive piece_of (c : N) : jstr -> Prop :=
  | piece_plain : plain_char c = true -> piece_of c [c]
  | piece_hex : (0 < c < 128)%N -> piece_of c (hex_escape c)
  | piece_back : (0 < c < 128)%N -> is_hex c = false -> not_newline c = true -> piece_of c [backslash; c].

Definition pieces_of (s t : jstr) : Prop := exists ps, Forall2 piece_of s ps /\ t = List.concat ps.

Lemma pieces_nil : pieces_of [] [].
Proof. by exists []. Qed.

Lemma pieces_cons c s p t : piece_of c p -> pieces_of s t -> pieces_of (c :: s) (p ++ t).
Proof. intros Hp (ps & Hs & ->). exists (p :: ps). split; [by constructor|done]. Qed.

Lemma digit_small c : is_digit c = true -> (48 <= c <= 57)%N.
Proof. by intros ?%is_digit_iff. Qed.

Lemma escape_char_piece c : (0 < c)%N -> piece_of c (escape_char c).
Proof.
  intros Hc. unfold escape_char. destruct (c =? 0)%N eqn:E0; [apply N.eqb_eq in E0; lia|].
  destruct (is_control c) eqn:Ec.
  - apply piece_hex. unfold is_control in Ec. lia.
  - destruct (is_word_dash c || beyond_ascii c) eqn:Ep; [by apply piece_plain|].
    apply orb_false_iff in Ep as [Ew Eb]. unfold beyond_ascii, is_control in *. apply piece_back; [lia| |unfold not_newline; lia].
    unfold is_word_dash, is_letter in Ew. unfold is_hex. rewrite !orb_false_iff in Ew. destruct Ew as (((Ed & El) & _) & _).
    rewrite Ed. cbn. lia.
Qed.

Lemma escape_chars_pieces s : Forall (fun c => 0 < c)%N s -> pieces_of s (flat_map escape_char s).
Proof. induction 1; cbn; [apply pieces_nil|]. apply pieces_cons; [by apply escape_char_piece|done]. Qed.

Lemma digit_piece c : is_digit c = true -> piece_of c (hex_escape c).
Proof. intros Hd%digit_small. apply piece_hex. lia. Qed.

Lemma dash_plain c : (c =? 45)%N = true -> piece_of c [c].
Proof. intros ->%N.eqb_eq. by apply piece_plain. Qed.

(** [escape] writes a piece for each character, if there is no NUL. *)
Lemma escape_pieces s : Forall (fun c => 0 < c)%N s -> pieces_of s (escape s).
Proof.
  intros Hs. pose proof (escape_chars_pieces s Hs) as Ha. destruct s as [|c [|d s]]; cbn [escape].
  - apply pieces_nil.
  - destruct (c =? 45)%N eqn:E1; [|destruct (is_digit c) eqn:E2].
    + apply N.eqb_eq in E1 as ->. rewrite <- (app_nil_r [_; _]). apply pieces_cons; [by apply piece_back|apply pieces_nil].
    + rewrite <- (app_nil_r (hex_escape c)). apply pieces_cons; [by apply digit_piece|apply pieces_nil].
    + cbn in Ha. by rewrite app_nil_r in Ha.
  - apply Forall_cons in Hs as [_ Hs]. destruct (is_digit c) eqn:E1; [|destruct ((c =? 45)%N && is_digit d) eqn:E2; [|done]].
    + apply pieces_cons; [by apply digit_piece|by apply escape_chars_pieces].
    + apply andb_true_iff in E2 as [E2 E3]. apply (pieces_cons c _ [c]); [by apply dash_plain|].
      apply pieces_cons; [by apply digit_piece|]. apply Forall_cons in Hs as [_ Hs]. by apply escape_chars_pieces.
Qed.

(** ** The inside of a hexadecimal escape *)

Definition small_codes : list N := List.map N.of_nat (seq 1 127).

Lemma small_code (P : N -> bool) c : forallb P small_codes = true -> (0 < c < 128)%N -> P c = true.
Proof.
  intros H Hc. rewrite forallb_forall in H. apply H, in_map_iff. exists (N.to_nat c). split; [lia|]. apply in_seq. lia.
Qed.

Definition hex_digits (c : N) : jstr := if (c <? 16)%N then [hex_digit c] else [hex_digit (c / 16); hex_digit (c mod 16)].

Lemma hex_escape_eq c : hex_escape c = backslash :: hex_digits c ++ [chr " "].
Proof. done. Qed.

Lemma hex_digits_hex c : (0 < c < 128)%N -> forallb is_hex (hex_digits c) = true.
Proof. apply (small_code (fun c => forallb is_hex (hex_digits c))). by vm_compute. Qed.

Lemma hex_digits_value c : (0 < c < 128)%N -> parse_hex (hex_digits c) = c.
Proof. intros Hc. apply N.eqb_eq. revert Hc. apply (small_code (fun c => parse_hex (hex_digits c) =? c)%N). by vm_compute. Qed.

Lemma hex_digits_cases c : exists a, hex_digits c = [a] \/ exists b, hex_digits c = [a; b].
Proof. unfold hex_digits. destruct (c <? 16)%N; eauto. Qed.

(** ** Reading an escaped name as an identifier *)

Lemma piece_taken c p : piece_of c p -> takes_whole ident_piece p.
Proof.
  intros Hp. split; [by destruct Hp|]. intros k rest cs x Hk. destruct Hp as [Hp|Hc|Hc Hh Hn].
  - unfold ident_piece. cbn [XAlts xmatch app XSeqs XChr]. destruct (backslash =? c)%N eqn:E.
    + apply N.eqb_eq in E as <-. done.
    + unfold plain_char in Hp. destruct (is_word_dash c); [by rewrite Hk|]. cbn in Hp. by rewrite Hp.
  - unfold ident_piece. rewrite hex_escape_eq. pose proof (hex_digits_hex c Hc) as Hh.
    cbn [XAlts xmatch app XSeqs XChr XUpTo XOpt]. rewrite N.eqb_refl.
    destruct (hex_digits_cases c) as [a [E|[b E]]]; rewrite E in *; cbn [forallb] in Hh; rewrite ?andb_true_r in Hh.
    + cbn [app]. rewrite Hh. replace (is_hex (chr " ")) with false by done. cbn [whitespace xmatch].
      replace (is_html_white (chr " ")) with true by done. by rewrite Hk.
    + apply andb_true_iff in Hh as [Ha Hb]. cbn [app]. rewrite Ha, Hb. replace (is_hex (chr " ")) with false by done. cbn [whitespace xmatch].
      replace (is_html_white (chr " ")) with true by done. by rewrite Hk.
  - unfold ident_piece. cbn [XAlts xmatch app XSeqs XChr XUpTo XOpt]. rewrite N.eqb_refl, Hh, Hn. by rewrite Hk.
Qed.

Lemma identifier_taken s t k rest c x : s <> [] -> pieces_of s t -> stops (firsts ident_piece) rest -> k rest c = Some x ->
  xmatch identifier k (t ++ rest) c = Some x.
Proof.
  intros Hs (ps & Hps & ->) Hr Hk. unfold identifier, XPlus. cbn [xmatch].
  assert (Forall (takes_whole ident_piece) ps) as Ht.
  { clear -Hps. induction Hps; constructor; [by eapply piece_taken|done]. }
  destruct Ht as [|p ps [_ Hp] Ht]; [by inversion Hps; subst|]. cbn [List.concat]. rewrite <- app_assoc.
  apply Hp. by apply (star_pieces ident_piece).
Qed.

(** ** Reading an escaped text between quotes *)

Definition quoted_piece (q : N) : rx := XAlt (XSeq (XChr backslash) (XCls is_dot)) (XNotOf [backslash; q]).

Lemma plain_taken q c : c <> backslash -> c <> q -> takes_whole (quoted_piece q) [c].
Proof.
  intros Hb Hq. split; [done|]. intros k rest cs x Hk. unfold quoted_piece. cbn [xmatch XChr app XNotOf].
  destruct (backslash =? c)%N eqn:E; [by apply N.eqb_eq in E as <-|].
  rewrite bool_decide_eq_false_2; [by rewrite Hk|]. rewrite elem_of_cons, list_elem_of_singleton. tauto.
Qed.

Lemma escaped_taken q c : is_dot c = true -> takes_whole (quoted_piece q) [backslash; c].
Proof.
  intros Hd. split; [done|]. intros k rest cs x Hk. unfold quoted_piece. cbn [xmatch XChr app XNotOf].
  by rewrite N.eqb_refl, Hd, Hk.
Qed.

Lemma hex_char_plain q a : is_hex a = true -> q = quote2 -> a <> backslash /\ a <> q /\ is_dot a = true.
Proof.
  intros Ha ->. unfold is_hex, is_digit, is_dot, backslash, quote2 in *. change (chr "\") with 92%N. lia.
Qed.

Definition wholes (r : rx) (p : jstr) : Prop := exists ts, Forall (takes_whole r) ts /\ p = List.concat ts.

Lemma piece_quoted c p : piece_of c p -> wholes (quoted_piece quote2) p.
Proof.
  intros [Hp|Hc|Hc Hh Hn].
  - exists [[c]]. split; [|done]. repeat constructor; try done; apply plain_taken; intros ->; by vm_compute in Hp.
  - pose proof (hex_digits_hex c Hc) as Hh. rewrite hex_escape_eq.
    assert (takes_whole (quoted_piece quote2) [chr " "]) as Hsp by (by apply plain_taken).
    destruct (hex_digits_cases c) as [a [E|[b E]]]; rewrite E in *; cbn [forallb] in Hh; rewrite ?andb_true_r in Hh.
    + exists [[backslash; a]; [chr " "]]. split; [|done]. destruct (hex_char_plain quote2 a) as (_ & _ & Hd); [done..|].
      repeat constructor; try apply Hsp; by apply escaped_taken.
    + apply andb_true_iff in Hh as [Ha Hb]. exists [[backslash; a]; [b]; [chr " "]]. split; [|done].
      destruct (hex_char_plain quote2 a) as (_ & _ & Hd); [done..|]. destruct (hex_char_plain quote2 b) as (Hb1 & Hb2 & _); [done..|].
      apply Forall_cons; split; [by apply escaped_taken|]. apply Forall_cons; split; [by apply plain_taken|]. by apply Forall_singleton.
  - exists [[backslash; c]]. split; [|done]. apply Forall_singleton, escaped_taken. unfold not_newline, is_dot in *. lia.
Qed.

Lemma quoted_taken s t k rest c x : pieces_of s t -> k (quote2 :: rest) c = Some x ->
  xmatch (quoted quote2) k (t ++ quote2 :: rest) c = Some x.
Proof.
  intros (ps & Hps & ->) Hk. assert (wholes (quoted_piece quote2) (List.concat ps)) as (ts & Ht & ->).
  { induction Hps as [|d p s ps Hp _ (ts & Ht & IH)]; [by exists []|]. apply piece_quoted in Hp as (ts' & Ht' & ->).
    cbn. exists (ts' ++ ts). rewrite IH, List.concat_app. split; [by apply Forall_app|done]. }
  by apply (star_pieces (quoted_piece quote2)).
Qed.

(** ** Removing escapes *)

Lemma take_hex_digits ds n rest : forallb is_hex ds = true -> (length ds < n)%nat -> take_hex n (ds ++ chr " " :: rest) = (ds, chr " " :: rest).
Proof.
  revert n. induction ds as [|d ds IH]; intros n Hd Hn; destruct n as [|n]; try (cbn in Hn; lia); [done|].
  cbn [forallb] in Hd. apply andb_true_iff in Hd as [Hd Hds]. cbn [app take_hex]. rewrite Hd, IH by (done || (cbn in Hn; lia)). done.
Qed.

Lemma unescape_piece c p n rest : piece_of c p -> (length p <= n)%nat ->
  exists m, (n - length p <= m)%nat /\ unescape n (p ++ rest) = c :: unescape m rest.
Proof.
  intros [Hp|Hc|Hc Hh Hn] Hl; destruct n as [|n]; try (cbn in Hl; lia).
  - exists n. split; [cbn; lia|]. cbn [app unescape]. destruct (c =? backslash)%N eqn:E; [|done].
    apply N.eqb_eq in E as ->. by vm_compute in Hp.
  - exists n. split; [cbn; lia|]. rewrite hex_escape_eq. cbn [app unescape]. rewrite N.eqb_refl, <- app_assoc. cbn [app].
    rewrite take_hex_digits; [|by apply hex_digits_hex|destruct (hex_digits_cases c) as [a [->|[b ->]]]; cbn; lia].
    pose proof (hex_digits_value c Hc) as Hv. destruct (hex_digits c) as [|a ds] eqn:E; [cbn in Hv; lia|]. rewrite Hv.
    unfold from_code. destruct (c <? 65536)%N eqn:E'; [done|lia].
  - exists n. split; [cbn; lia|]. cbn [app unescape]. rewrite N.eqb_refl. cbn [take_hex]. by rewrite Hh, Hn.
Qed.

Lemma unescape_pieces s t n : pieces_of s t -> (length t <= n)%nat -> unescape n t = s.
Proof.
  intros (ps & Hps & ->). revert n. induction Hps as [|c p s ps Hp Hps IH]; intros n Hn; [by destruct n|].
  cbn [List.concat] in *. rewrite length_app in Hn. destruct (unescape_piece c p n (List.concat ps) Hp) as (m & Hm & ->); [lia|].
  rewrite IH; [done|lia].
Qed.

Lemma runescape_pieces s t : pieces_of s t -> runescape t = s.
Proof. intros H. by apply unescape_pieces. Qed.

Lemma runescape_escape s : Forall (fun c => 0 < c)%N s -> runescape (escape s) = s.
Proof. intros Hs. by apply runescape_pieces, escape_pieces. Qed.

(** ** Selectors as data, and their texts

    What a selector means to say, the text that says it with every name escaped, and what
    [tokenize] makes of that text. *)

(** ** Selectors *)

Inductive aop := OEqual | OWord | OPrefix | OSuffix | OInside | ODash | OOther.

(** An attribute may be tested with an operator and a value; a pseudo class may have an argument. *)
Inductive simple :=
  | STag (n : jstr)
  | SAny
  | SClass (n : jstr)
  | SId (n : jstr)
  | SAttr (n : jstr) (v : option (aop * jstr))
  | SPseudo (n : jstr) (arg : option jstr).

Inductive comb := Descendant | ChildOf | NextTo | After.

(** A selector in the order of its text. *)
Inductive item := ISimple (s : simple) | IComb (c : comb) | IComma.

Definition op_text (o : aop) : jstr :=
  match o with
  | OEqual => str "=" | OWord => str "~=" | OPrefix => str "^=" | OSuffix => str "$=" | OInside => str "*=" | ODash => str "|=" | OOther => str "!="
  end.

Definition quote_text (v : jstr) : jstr := quote2 :: escape v ++ [quote2].

Definition simple_text (s : simple) : jstr :=
  match s with
  | STag n => escape n
  | SAny => str "*"
  | SClass n => chr "." :: escape n
  | SId n => chr "#" :: escape n
  | SAttr n None => chr "[" :: escape n ++ [chr "]"]
  | SAttr n (Some (o, v)) => chr "[" :: escape n ++ op_text o ++ quote_text v ++ [chr "]"]
  | SPseudo n None => chr ":" :: escape n
  | SPseudo n (Some a) => chr ":" :: escape n ++ chr "(" :: quote_text a ++ [chr ")"]
  end.

Definition comb_char (c : comb) : jstr := match c with Descendant => str " " | ChildOf => str ">" | NextTo => str "+" | After => str "~" end.
Definition comb_text (c : comb) : jstr := match c with Descendant => str " " | _ => chr " " :: comb_char c ++ str " " end.

Definition item_text (i : item) : jstr := match i with ISimple s => simple_text s | IComb c => comb_text c | IComma => str ", " end.
Definition selector_text (l : list item) : jstr := flat_map item_text l.

(** ** Tokens of a selector *)

Definition simple_type (s : simple) : ftype :=
  match s with STag _ | SAny => TAG | SClass _ => CLASS | SId _ => ID | SAttr _ _ => ATTR | SPseudo _ _ => PSEUDO end.

(** Names of attributes and values come without escapes; the value of [~=] has spaces around it. *)
Definition simple_matches (s : simple) : list mval :=
  match s with
  | STag n | SClass n | SId n => [MStr (escape n)]
  | SAny => [MStr (str "*")]
  | SAttr n None => [MStr n; MUndef; MStr []]
  | SAttr n (Some (o, v)) => [MStr n; MStr (op_text o); MStr match o with OWord => chr " " :: v ++ [chr " "] | _ => v end]
  | SPseudo n None => [MStr (escape n); MUndef]
  | SPseudo n (Some a) => [MStr (escape n); MStr (escape a)]
  end.

Definition simple_token (s : simple) : token := Token (simple_text s) (TFilter (simple_type s)) (simple_matches s).
Definition comb_token (c : comb) : token := Token (comb_text c) (TComb (comb_char c)) [].

(** The groups, after the tokens [cur] of the group that is being read. *)
Fixpoint item_groups (cur : list token) (l : list item) : list (list token) :=
  match l with
  | [] => [cur]
  | ISimple s :: l' => item_groups (cur ++ [simple_token s]) l'
  | IComb c :: l' => item_groups (cur ++ [comb_token c]) l'
  | IComma :: l' => cur :: item_groups [] l'
  end.

(** ** Selectors that have a text *)

(** A name that begins as a class of the form of [:first-child], which [CHILD] reads. *)
Definition child_names : list jstr :=
  flat_map (fun a => List.map (fun b => a ++ chr "-" :: b) [str "child"; str "of-type"])
    [str "only"; str "first"; str "last"; str "nth"; str "nth-last"].
Definition child_like (t : jstr) : bool := existsb (fun p => is_prefix p (lower_ascii t)) child_names.

Definition good_name (n : jstr) : bool := negb (bool_decide (n = [])) && forallb (fun c => 0 <? c)%N n.
Definition good_text (v : jstr) : bool := forallb (fun c => 0 <? c)%N v.

Definition good_simple (s : simple) : bool :=
  match s with
  | STag n | SClass n | SId n => good_name n
  | SAny => true
  | SAttr n v => good_name n && match v with Some (_, v) => good_text v | None => true end
  | SPseudo n a => good_name n && negb (child_like (escape n)) && match a with Some a => good_text a | None => true end
  end.

(** Where a part of a selector stands: at the beginning of a compound or after some part of it. *)
Fixpoint good_items (first : bool) (l : list item) : bool :=
  match l with
  | [] => negb first
  | ISimple s :: l' => good_simple s && (first || negb (bool_decide (simple_type s = TAG))) && good_items false l'
  | IComb _ :: l' | IComma :: l' => negb first && good_items true l'
  end.

(** ** Reading one part *)

Definition delimited (rest : jstr) : Prop := stops (fun c => firsts ident_piece c || (c =? chr "(")%N) rest.

Lemma delimited_ident rest : delimited rest -> stops (firsts ident_piece) rest.
Proof. destruct rest as [|y rest]; [done|]. cbn [delimited stops]. by intros [H _]%orb_false_iff. Qed.

Lemma good_text_spec v : good_text v = true -> Forall (fun c => 0 < c)%N v.
Proof. unfold good_text. rewrite forallb_forall, Forall_forall. intros H c Hc. apply list_elem_of_In in Hc. specialize (H c Hc). lia. Qed.

Lemma good_name_spec n : good_name n = true -> n <> [] /\ pieces_of n (escape n).
Proof.
  unfold good_name. intros [Hn Ht]%andb_true_iff. apply negb_true_iff, bool_decide_eq_false in Hn. split; [done|].
  by apply escape_pieces, good_text_spec.
Qed.

Lemma xalt_left a b k s c x : xmatch a k s c = Some x -> xmatch (XAlt a b) k s c = Some x.
Proof. intros H. cbn [xmatch]. by rewrite H. Qed.

Lemma xalt_right a b k s c x : xmatch a k s c = None -> xmatch b k s c = Some x -> xmatch (XAlt a b) k s c = Some x.
Proof. intros H H'. cbn [xmatch]. by rewrite H. Qed.

Lemma xcls_step p k y s c x : p y = true -> k s c = Some x -> xmatch (XCls p) k (y :: s) c = Some x.
Proof. intros H H'. cbn [xmatch]. by rewrite H. Qed.

Lemma no_spaces k s c x : stops is_html_white s -> k s c = Some x -> xmatch spaces k s c = Some x.
Proof. intros Hs Hk. by apply (star_greedy _ _ []). Qed.

(** What the filters without a step of their own read. *)
Definition captured (t : ftype) (text rest : jstr) (gs : list (nat * jstr)) : Prop :=
  exists c, xexec (matchExpr t) (text ++ rest) = Some (rest, c) /\ capture c 0 = Some text
    /\ forall n, n <> 0%nat -> capture c n = capture gs n.

Lemma between_eq s t rest : s = t ++ rest -> between s rest = t.
Proof. intros ->. apply between_app. Qed.

(** The captures at the end of a match. *)
Ltac captured_texts := repeat f_equal; apply between_eq; repeat (progress (cbn [app]; rewrite <- ?app_assoc)); done.

Lemma prefixed_captured t ch n rest : (t = CLASS /\ ch = chr ".") \/ (t = ID /\ ch = chr "#") -> good_name n = true -> delimited rest ->
  captured t (ch :: escape n) rest [(1%nat, escape n)].
Proof.
  intros Ht [Hn Hp]%good_name_spec Hr%delimited_ident. exists [(0%nat, ch :: escape n); (1%nat, escape n)].
  split_and!; [|done|by intros [|[|m]]].
  destruct Ht as [[-> ->]|[-> ->]]; unfold xexec; cbn [matchExpr xmatch XChr app]; rewrite N.eqb_refl;
    (apply (identifier_taken n); [done..|captured_texts]).
Qed.

Lemma tag_captured n rest : good_name n = true -> delimited rest -> captured TAG (escape n) rest [(1%nat, escape n)].
Proof.
  intros [Hn Hp]%good_name_spec Hr%delimited_ident. exists [(0%nat, escape n); (1%nat, escape n)].
  split_and!; [|done|by intros [|[|m]]]. unfold xexec. cbn [matchExpr].
  change (xmatch (XAlt identifier (XChr (chr "*"))) (fun s' c' => Some (s', (0%nat, between (escape n ++ rest) s') :: (1%nat, between (escape n ++ rest) s') :: c'))
    (escape n ++ rest) [] = Some (rest, [(0%nat, escape n); (1%nat, escape n)])).
  apply xalt_left, (identifier_taken n); [done..|captured_texts].
Qed.

Lemma any_captured rest : captured TAG (str "*") rest [(1%nat, str "*")].
Proof.
  exists [(0%nat, str "*"); (1%nat, str "*")]. split_and!; [|done|by intros [|[|m]]].
  unfold xexec. cbn [matchExpr].
  change (xmatch (XAlt identifier (XChr (chr "*"))) (fun s' c' => Some (s', (0%nat, between (chr "*" :: rest) s') :: (1%nat, between (chr "*" :: rest) s') :: c'))
    (chr "*" :: rest) [] = Some (rest, [(0%nat, str "*"); (1%nat, str "*")])).
  apply xalt_right; [by apply xmatch_refuses|]. apply xcls_step; [done|captured_texts].
Qed.

Lemma escape_not_white n rest : n <> [] -> pieces_of n (escape n) -> stops is_html_white (escape n ++ rest).
Proof.
  intros Hn (ps & Hps & ->). destruct Hps as [|c p s ps Hc _]; [done|]. destruct Hc as [Hc|Hc|Hc _ _]; [|done..].
  cbn. unfold plain_char, is_word_dash, is_letter, beyond_ascii, is_digit, is_html_white in *. lia.
Qed.

Lemma attr_bare_captured n rest : good_name n = true -> captured ATTR (simple_text (SAttr n None)) rest [(1%nat, escape n)].
Proof.
  intros [Hn Hp]%good_name_spec. exists [(0%nat, simple_text (SAttr n None)); (1%nat, escape n)].
  split_and!; [|done|by intros [|[|m]]]. cbn [simple_text app]. rewrite <- app_assoc. unfold xexec, matchExpr, attributes. cbn [XSeqs].
  cbn [xmatch]. apply xcls_step; [done|]. apply no_spaces; [by apply escape_not_white|].
  apply (identifier_taken n); [done..|]. apply xalt_right; [by apply xmatch_refuses|]. apply no_spaces; [done|].
  apply xcls_step; [done|]. captured_texts.
Qed.

Lemma op_taken o k rest c x : k rest c = Some x -> xmatch (XSeq (XOpt (XOneOf (str "*^$|!~"))) (XChr (chr "="))) k (op_text o ++ rest) c = Some x.
Proof.
  intros Hk. destruct o; cbn [xmatch]; [apply xalt_right; [done|]; by apply xcls_step|..];
    apply xalt_left; apply xcls_step; [done| |done| |done| |done| |done| |done|]; by apply xcls_step.
Qed.

(** A quoted text, with the capture of its inside. *)
Lemma quote_taken v n k rest c x : pieces_of v (escape v) -> k rest ((n, escape v) :: c) = Some x ->
  xmatch (between_quotes quote2 n) k (quote_text v ++ rest) c = Some x.
Proof.
  intros Hp Hk. unfold between_quotes, quote_text. cbn [XSeqs app]. rewrite <- app_assoc. cbn [xmatch]. apply xcls_step; [done|].
  apply (quoted_taken v); [done|]. cbn [app]. apply xcls_step; [done|].
  rewrite (between_eq _ (escape v)) by done. done.
Qed.

Lemma attr_value_captured n o v rest : good_name n = true -> good_text v = true ->
  captured ATTR (simple_text (SAttr n (Some (o, v)))) rest [(4%nat, escape v); (2%nat, op_text o); (1%nat, escape n)].
Proof.
  intros [Hn Hp]%good_name_spec Hv%good_text_spec%escape_pieces.
  exists [(0%nat, simple_text (SAttr n (Some (o, v)))); (4%nat, escape v); (2%nat, op_text o); (1%nat, escape n)].
  split_and!; [|done|by intros [|[|[|[|[|m]]]]]]. unfold xexec, matchExpr, attributes. cbn [XSeqs Nat.add].
  cbn [simple_text app]. rewrite <- !app_assoc. cbn [xmatch]. apply xcls_step; [done|]. apply no_spaces; [by apply escape_not_white|].
  apply (identifier_taken n); [done..|by destruct o|]. apply xalt_left. cbn [xmatch].
  apply no_spaces; [by destruct o|]. apply op_taken. apply no_spaces; [done|]. cbn [XAlts].
  apply xalt_right; [by apply xmatch_refuses|]. apply xalt_left. apply quote_taken; [done|]. apply no_spaces; [done|].
  apply xcls_step; [done|]. captured_texts.
Qed.

(** ** Pseudo classes *)

Lemma delimited_paren rest : delimited rest -> stops (fun c => c =? chr "(")%N rest.
Proof. destruct rest as [|y rest]; [done|]. cbn [delimited stops]. by intros [_ H]%orb_false_iff. Qed.

Lemma pseudo_bare_captured n rest : good_name n = true -> delimited rest ->
  captured PSEUDO (simple_text (SPseudo n None)) rest [(1%nat, escape n)].
Proof.
  intros [Hn Hp]%good_name_spec Hr. exists [(0%nat, simple_text (SPseudo n None)); (1%nat, escape n)].
  split_and!; [|done|by intros [|[|m]]]. unfold xexec, matchExpr, pseudos. cbn [XSeqs simple_text app]. cbn [xmatch]. apply xcls_step; [done|].
  apply (identifier_taken n); [done|done|by apply delimited_ident|]. apply xalt_right; [|cbn [xmatch]; captured_texts].
  apply xmatch_refuses; [done|]. apply delimited_paren in Hr. destruct rest as [|y rest]; [done|]. cbn in *. rewrite N.eqb_sym, Hr. done.
Qed.

Lemma pseudo_quoted_captured n a rest : good_name n = true -> good_text a = true ->
  captured PSEUDO (simple_text (SPseudo n (Some a))) rest
    [(2%nat, quote_text a); (3%nat, quote_text a); (5%nat, escape a); (1%nat, escape n)].
Proof.
  intros [Hn Hp]%good_name_spec Ha%good_text_spec%escape_pieces.
  exists [(0%nat, simple_text (SPseudo n (Some a))); (2%nat, quote_text a); (3%nat, quote_text a); (5%nat, escape a); (1%nat, escape n)].
  split_and!; [|done|by intros [|[|[|[|[|[|m]]]]]]]. unfold xexec, matchExpr, pseudos. cbn [XSeqs].
  cbn [simple_text app]. rewrite <- !app_assoc. cbn [app]. rewrite <- !app_assoc. cbn [xmatch]. apply xcls_step; [done|].
  apply (identifier_taken n); [done..|]. apply xalt_left. cbn [xmatch]. apply xcls_step; [done|]. cbn [XAlts].
  apply xalt_left. cbn [xmatch]. apply xalt_right; [by apply xmatch_refuses|]. apply quote_taken; [done|].
  apply xcls_step; [done|]. captured_texts.
Qed.

(** ** What the other expressions refuse *)

Lemma litI_inv p k s c x : forallb (fun c => negb ((65 <=? c) && (c <=? 90)) && (c <? 128))%N p = true -> xmatch (XLitI p) k s c = Some x ->
  exists u s', s = u ++ s' /\ lower_ascii u = p /\ k s' c = Some x.
Proof.
  revert s. induction p as [|d p IH]; intros s Hp; cbn [XLitI xmatch]; [by exists [], s|].
  cbn [forallb] in Hp. apply andb_true_iff in Hp as [Hd Hp]. destruct s as [|y s]; [done|].
  destruct (letter_cases d y) eqn:E; [|done]. intros (u & s' & -> & Hu & Hk)%IH; [|done]. exists (y :: u), s'. split_and!; [done| |done].
  unfold lower_ascii, toLowerCase in *. cbn [flat_map]. rewrite Hu. unfold lower_char, letter_cases in *.
  destruct (y <? 128)%N eqn:E1; [|lia]. destruct ((65 <=? y) && (y <=? 90))%N eqn:E2; cbn; f_equal; lia.
Qed.

Lemma alts_inv l k s c x : xmatch (XAlts l) k s c = Some x -> exists r, r ∈ l /\ xmatch r k s c = Some x.
Proof.
  induction l as [|r l IH]; [by destruct s|]. destruct l as [|r' l].
  - intros H. exists r. split; [by left|done].
  - cbn [XAlts xmatch]. destruct (xmatch r k s c) as [y|] eqn:E.
    + intros [= ->]. exists r. split; [by left|done].
    + intros (r1 & Hr & H)%IH. exists r1. split; [by right|done].
Qed.

Lemma words_inv l k s c x : forallb (forallb (fun c => negb ((65 <=? c) && (c <=? 90)) && (c <? 128))%N) l = true ->
  xmatch (XAlts (List.map XLitI l)) k s c = Some x -> exists p u s', p ∈ l /\ s = u ++ s' /\ lower_ascii u = p /\ k s' c = Some x.
Proof.
  intros Hl (r & Hr & H)%alts_inv. apply list_elem_of_In, in_map_iff in Hr as (p & <- & Hp).
  rewrite forallb_forall in Hl. apply Hl in Hp as Hp'. apply litI_inv in H as (u & s' & H); [|done].
  exists p, u, s'. split; [by apply list_elem_of_In|done].
Qed.

Lemma lower_ascii_app a b : lower_ascii (a ++ b) = lower_ascii a ++ lower_ascii b.
Proof. unfold lower_ascii, toLowerCase. apply flat_map_app. Qed.

Lemma child_exec t x : xexec child (chr ":" :: t) = Some x -> child_like t = true.
Proof.
  unfold xexec, child. cbn [XSeqs]. generalize (XOpt (XSeqs [XChr (chr "("); spaces;
           XGroup 3 (XAlts [XLitI (str "even"); XLitI (str "odd");
             XSeqs [XGroup 4 (XOpt (XSeqs [XGroup 5 sign; XGroup 6 digits; XLitI (str "n")])); spaces;
                    XOpt (XSeqs [XGroup 7 sign; spaces; XGroup 8 (XPlus (XCls is_digit))])]]);
           spaces; XChr (chr ")")])). intros r. cbn [xmatch XChr]. rewrite N.eqb_refl.
  intros (p & u & s1 & Hp & -> & Hu & H)%words_inv; [|done]. destruct s1 as [|y s1]; [done|].
  destruct (chr "-" =? y)%N eqn:Ey; [|done]. apply N.eqb_eq in Ey as <-.
  apply words_inv in H as (q & w & s2 & Hq & -> & Hw & _); [|done].
  apply existsb_exists. exists (p ++ chr "-" :: q). split.
  - apply in_flat_map. exists p. split; [by apply list_elem_of_In|].
    apply in_map_iff. exists q. split; [done|by apply list_elem_of_In].
  - apply is_prefix_spec. exists (lower_ascii s2). rewrite lower_ascii_app, Hu. change (chr "-" :: w ++ s2) with ([chr "-"] ++ w ++ s2).
    rewrite !lower_ascii_app, Hw. by rewrite <- app_assoc.
Qed.

(** The names end before any other part. *)
Lemma prefix_before q p a rest : forallb q p = true -> stops q rest -> is_prefix p (a ++ rest) = true -> is_prefix p a = true.
Proof.
  intros Hp Hr. revert a. induction p as [|c p IH]; intros a; [done|]. cbn [forallb] in Hp. apply andb_true_iff in Hp as [Hc Hp].
  destruct a as [|d a]; cbn [app is_prefix].
  - destruct rest as [|y rest]; [done|]. intros [->%N.eqb_eq _]%andb_true_iff. cbn in Hr. congruence.
  - rewrite !andb_true_iff. intros [Hd H]. split; [done|]. by apply IH.
Qed.

Definition lower_dash (c : N) : bool := ((97 <=? c) && (c <=? 122) || (c =? 45))%N.

Lemma child_like_app a rest : stops (firsts ident_piece) rest -> child_like (a ++ rest) = true -> child_like a = true.
Proof.
  intros Hr (p & Hp & H)%existsb_exists. apply existsb_exists. exists p. split; [done|].
  rewrite lower_ascii_app in H. apply (prefix_before lower_dash) in H; [done| |].
  - assert (forallb (forallb lower_dash) child_names = true) as Ha by done. rewrite forallb_forall in Ha. by apply Ha.
  - destruct rest as [|y rest]; [done|]. cbn [stops] in *. unfold lower_ascii, toLowerCase. cbn [flat_map].
    unfold lower_char. destruct (y <? 128)%N eqn:E; cbn [app stops].
    + cbn in Hr. unfold is_word_dash, is_letter, lower_dash in *. destruct ((65 <=? y) && (y <=? 90))%N eqn:E2; [lia|lia].
    + unfold lower_dash. lia.
Qed.

(** The first character of a part. *)
Definition starts_with (s : simple) (y : N) : Prop :=
  match s with
  | STag _ => firsts ident_piece y = true
  | SAny => y = chr "*" | SClass _ => y = chr "." | SId _ => y = chr "#" | SAttr _ _ => y = chr "[" | SPseudo _ _ => y = chr ":"
  end.

Lemma piece_starts c p : piece_of c p -> exists y t, p = y :: t /\ firsts ident_piece y = true.
Proof.
  intros [Hc|Hc|Hc _ _]; do 2 eexists; (split; [done|]); [|done..]. cbn. unfold plain_char in Hc.
  rewrite !orb_true_iff in *. tauto.
Qed.

Lemma simple_starts s : good_simple s = true -> exists y t, simple_text s = y :: t /\ starts_with s y.
Proof.
  destruct s as [n| |n|n|n [[o v]|]|n [a|]]; cbn [good_simple simple_text starts_with]; try (by do 2 eexists).
  intros [Hn (ps & Hps & ->)]%good_name_spec. destruct Hps as [|c p s ps Hc _]; [done|].
  apply piece_starts in Hc as (y & t & -> & Hy). exists y. cbn. by eexists.
Qed.

Lemma ident_first_cases y : firsts ident_piece y = true -> y = backslash \/ plain_char y = true.
Proof. cbn. unfold plain_char. rewrite !orb_true_iff, !N.eqb_eq. intros [[<-|]|[[<-|]|H]]; by auto. Qed.

Lemma starts_refuse s y t : starts_with s y -> t <> simple_type s -> (t = CHILD -> simple_type s <> PSEUDO) -> firsts (matchExpr t) y = false.
Proof.
  intros Hs Ht Hc. destruct s; cbn [starts_with simple_type] in *.
  2-6: subst y; destruct t; try done; by destruct Hc.
  apply ident_first_cases in Hs as [->|Hs]; [by destruct t|].
  assert (y <> chr "." /\ y <> chr "#" /\ y <> chr "[" /\ y <> chr ":") as (H1 & H2 & H3 & H4).
  { split_and!; intros ->; by vm_compute in Hs. }
  destruct t; [done|..]; cbn; rewrite ?orb_false_r; by apply N.eqb_neq.
Qed.

Lemma other_refuses s rest t : good_simple s = true -> delimited rest -> t <> simple_type s -> xexec (matchExpr t) (simple_text s ++ rest) = None.
Proof.
  intros Hs Hr Ht. destruct (decide (t = CHILD /\ simple_type s = PSEUDO)) as [[-> Hp]|Hn].
  - destruct s as [| | | | |n a]; try done. cbn [good_simple] in Hs. rewrite !andb_true_iff, negb_true_iff in Hs. destruct Hs as [[_ Hl] _].
    match goal with |- ?e = None => destruct e as [x|] eqn:E; [exfalso|done] end. destruct a as [a|]; cbn [simple_text app] in E; rewrite <- ?app_assoc in E; apply child_exec, child_like_app in E; try congruence; [done|by apply delimited_ident].
  - destruct (simple_starts s Hs) as (y & t' & -> & Hy). cbn [app]. apply xexec_firsts; [|apply matchExpr_consumes].
    apply (starts_refuse s); [done..|]. intros -> Hp. by apply Hn.
Qed.

(** ** The filters *)

Lemma captured_groups t text rest gs : captured t text rest gs -> exists c, xexec (matchExpr t) (text ++ rest) = Some (rest, c) /\
  matched_text c = text /\ forall n, n <> 0%nat -> group c n = match capture gs n with Some u => MStr u | None => MUndef end.
Proof.
  intros (c & E & H0 & Hc). exists c. split_and!; [done| |].
  - unfold matched_text, group. by rewrite H0.
  - intros n Hn. unfold group. by rewrite Hc.
Qed.

(** What is read for a part, and what its filter makes of it. *)
Definition read_as (parse : jstr -> res nat) (s : simple) (rest : jstr) : Prop :=
  exists c, xexec (matchExpr (simple_type s)) (simple_text s ++ rest) = Some (rest, c)
    /\ preFilter parse (simple_type s) c = Ok (Some (simple_text s, simple_matches s)).

Lemma plain_read parse s rest n : simple_type s = TAG \/ simple_type s = CLASS \/ simple_type s = ID -> simple_matches s = [MStr n] ->
  captured (simple_type s) (simple_text s) rest [(1%nat, n)] -> read_as parse s rest.
Proof.
  intros Ht Hm (c & E & H0 & Hc)%captured_groups. exists c. split; [done|]. rewrite Hm.
  destruct Ht as [->|[->| ->]]; cbn [preFilter]; unfold groups; cbn [List.map seq]; rewrite H0, Hc; done.
Qed.

Lemma attr_read parse n v rest : good_simple (SAttr n v) = true -> read_as parse (SAttr n v) rest.
Proof.
  cbn [good_simple]. intros [Hn Hv]%andb_true_iff. pose proof (good_name_spec n Hn) as [_ Hp].
  destruct v as [[o v]|].
  - destruct (captured_groups _ _ _ _ (attr_value_captured n o v rest Hn Hv)) as (c & E & H0 & Hc). exists c. split; [done|].
    cbn [simple_type preFilter]. unfold preFilter_ATTR. rewrite H0. cbn [first_truthy]. rewrite !Hc by done. cbn [capture Nat.eqb text_of m_truthy].
    apply good_text_spec, escape_pieces, runescape_pieces in Hv as Hv'. rewrite (runescape_pieces _ _ Hp).
    destruct (escape v) as [|y t] eqn:Ev; cbn [m_truthy text_of]; rewrite Hv'; by destruct o.
  - destruct (captured_groups _ _ _ _ (attr_bare_captured n rest Hn)) as (c & E & H0 & Hc). exists c. split; [done|].
    cbn [simple_type preFilter]. unfold preFilter_ATTR. rewrite H0. cbn [first_truthy]. rewrite !Hc by done. cbn [capture Nat.eqb text_of m_truthy].
    by rewrite (runescape_pieces _ _ Hp).
Qed.

Lemma pseudo_not_child n a : good_simple (SPseudo n a) = true -> xexec child (simple_text (SPseudo n a)) = None.
Proof. intros H. rewrite <- (app_nil_r (simple_text _)). by apply (other_refuses _ [] CHILD). Qed.

Lemma pseudo_read parse n a rest : good_simple (SPseudo n a) = true -> delimited rest -> read_as parse (SPseudo n a) rest.
Proof.
  intros Hg Hr. pose proof (pseudo_not_child _ _ Hg) as Hx. cbn [good_simple] in Hg. rewrite !andb_true_iff in Hg. destruct Hg as [[Hn _] Ha].
  destruct a as [a|].
  - destruct (captured_groups _ _ _ _ (pseudo_quoted_captured n a rest Hn Ha)) as (c & E & H0 & Hc). exists c. split; [done|].
    cbn [simple_type preFilter]. unfold preFilter_PSEUDO. rewrite H0, Hx. cbn [first_truthy]. rewrite !Hc by done. cbn. by destruct (escape a).
  - destruct (captured_groups _ _ _ _ (pseudo_bare_captured n rest Hn Hr)) as (c & E & H0 & Hc). exists c. split; [done|].
    cbn [simple_type preFilter]. unfold preFilter_PSEUDO. rewrite H0, Hx. cbn [first_truthy]. by rewrite !Hc by done.
Qed.

Lemma simple_read parse s rest : good_simple s = true -> delimited rest -> read_as parse s rest.
Proof.
  intros Hg Hr. destruct s as [n| |n|n|n v|n a].
  - apply (plain_read _ _ _ (escape n)); [by left|done|by apply tag_captured].
  - apply (plain_read _ _ _ (str "*")); [by left|done|apply any_captured].
  - apply (plain_read _ _ _ (escape n)); [by auto|done|apply prefixed_captured; [by left|done..]].
  - apply (plain_read _ _ _ (escape n)); [by auto|done|apply prefixed_captured; [by right|done..]].
  - by apply attr_read.
  - by apply pseudo_read.
Qed.

(** ** Combinators and commas *)

Lemma starts_solid s y : starts_with s y -> is_html_white y = false /\ firsts rcombinators y = false /\ firsts rcomma y = false.
Proof.
  destruct s; cbn [starts_with]; try (by intros ->). intros [->|Hp]%ident_first_cases; [done|].
  assert (is_html_white y = false) as Hw. { unfold plain_char, is_word_dash, is_letter, beyond_ascii, is_digit, is_html_white in *. lia. }
  assert (y <> chr ">" /\ y <> chr "+" /\ y <> chr "~" /\ y <> chr ",") as (H1 & H2 & H3 & H4) by (split_and!; intros ->; by vm_compute in Hp).
  split; [done|]. unfold rcombinators, rcomma. cbn [XSeqs firsts spaces whitespace consumes negb andb XOneOf XChr]. rewrite Hw. cbn [orb].
  rewrite !orb_false_r. split; [|by apply N.eqb_neq]. apply bool_decide_eq_false. change (str ">+~") with [chr ">"; chr "+"; chr "~"]. rewrite !elem_of_cons, elem_of_nil. tauto.
Qed.

(** A text that begins with a simple part. *)
Definition solid (s : jstr) : Prop := exists y t, s = y :: t /\ is_html_white y = false /\ firsts rcombinators y = false /\ firsts rcomma y = false.

Lemma simple_solid s rest : good_simple s = true -> solid (simple_text s ++ rest).
Proof. intros (y & t & -> & Hy)%simple_starts. exists y, (t ++ rest). split; [done|]. by apply (starts_solid s). Qed.

Lemma items_solid l : good_items true l = true -> solid (selector_text l).
Proof.
  destruct l as [|[s|c|] l]; try done. cbn [good_items selector_text flat_map item_text]. intros [[H _]%andb_true_iff _]%andb_true_iff. by apply simple_solid.
Qed.

Lemma solid_no_comb s ts : solid s -> combinator s ts = (s, ts, false).
Proof. intros (y & t & -> & _ & H & _). unfold combinator. by rewrite xexec_firsts. Qed.

Lemma solid_no_comma s : solid s -> xexec rcomma s = None.
Proof. intros (y & t & -> & _ & _ & H). by rewrite xexec_firsts. Qed.

Lemma solid_stops s : solid s -> stops is_html_white s.
Proof. by intros (y & t & -> & H & _ & _). Qed.

Lemma comma_read s : solid s -> exists c, xexec rcomma (str ", " ++ s) = Some (s, c).
Proof.
  intros Hs. unfold xexec, rcomma. cbn [XSeqs xmatch]. eexists. apply no_spaces; [done|]. apply xcls_step; [done|].
  apply (star_greedy _ _ (str " ")); [by repeat constructor|by apply solid_stops|done].
Qed.

Lemma first_solid a w x z b t : white a -> white w -> is_html_white x = false -> is_html_white z = false ->
  a ++ x :: b = w ++ z :: t -> x = z.
Proof.
  intros Ha Hw Hx Hz. revert w Hw. induction Ha as [|y a Hy Ha IH]; intros [|y' w] Hw E; cbn in E; injection E as E1 E2.
  - done.
  - apply Forall_cons in Hw as [Hw _]. congruence.
  - congruence.
  - apply Forall_cons in Hw as [_ Hw]. by apply (IH w).
Qed.

Lemma comb_no_comma c s : solid s -> xexec rcomma (comb_text c ++ s) = None.
Proof.
  intros (y & t & -> & Hw & _ & Hc). destruct (xexec rcomma _) as [[rest cs]|] eqn:E; [|done]. exfalso.
  apply rcomma_reads in E as (w & E & a & b & -> & Ha & _). rewrite <- app_assoc in E. cbn [app] in E.
  assert (exists z u, comb_text c ++ y :: t = str " " ++ z :: u /\ is_html_white z = false /\ z <> chr ",") as (z & u & E' & Hz & Hn).
  { destruct c; [exists y, t|by do 2 eexists..]. split_and!; [done..|]. intros ->. by vm_compute in Hc. }
  rewrite E' in E. symmetry in E. apply first_solid in E; [congruence|done|by repeat constructor|done..].
Qed.

Lemma xstar_one p k y s c x : p y = true -> stops p s -> k s c = None -> k (y :: s) c = Some x -> xmatch (XStar (XCls p)) k (y :: s) c = Some x.
Proof.
  intros Hy Hs Hn Hk. cbn [xmatch length xstar groups_of]. rewrite Hy, forget_nil.
  destruct (_ <? _)%nat; [|done]. destruct s as [|z s]; cbn [length xstar].
  - by rewrite Hn.
  - cbn in Hs. by rewrite Hs, Hn.
Qed.

Lemma comb_read c s ts : solid s -> combinator (comb_text c ++ s) ts = (s, ts ++ [comb_token c], true).
Proof.
  intros Hs. assert (exists cs, xexec rcombinators (comb_text c ++ s) = Some (s, cs) /\ capture cs 0 = Some (comb_text c) /\ capture cs 1 = Some (comb_char c))
    as (cs & E & H0 & H1).
  { exists [(0%nat, comb_text c); (1%nat, comb_char c)]. split; [|done]. unfold xexec, rcombinators. cbn [XSeqs].
    pose proof (solid_stops _ Hs) as Hw. destruct c; cbn [comb_text comb_char].
    1: { cbn [xmatch]. apply xstar_one; [done..| |].
         - destruct Hs as (y & t & -> & Hy & Hc & _). unfold rcombinators in Hc. cbn [XSeqs firsts spaces whitespace consumes negb andb XOneOf] in Hc.
           rewrite Hy in Hc. cbn [orb] in Hc. rewrite !orb_false_r in Hc. cbn [xmatch XOneOf whitespace]. by rewrite Hc, Hy.
         - apply xalt_right; [done|]. apply xcls_step; [done|]. apply no_spaces; [done|]. captured_texts. }
    all: cbn [xmatch]; apply (star_greedy _ _ (str " ")); [by repeat constructor|done|]; apply xalt_left, xcls_step; [done|];
      apply (star_greedy _ _ (str " ")); [by repeat constructor|done|]; captured_texts. }
  unfold combinator. rewrite E. unfold comb_token, matched_text, group. rewrite H0, H1. by destruct c.
Qed.

(** ** A turn and the loop *)

Lemma items_delimited l : good_items false l = true -> delimited (selector_text l).
Proof.
  destruct l as [|[s|c|] l]; [done| |by destruct c|done]. cbn [good_items]. rewrite !andb_true_iff. intros [[_ H] _].
  cbn in H. apply negb_true_iff, bool_decide_eq_false in H. destruct s as [| |n|n|n [[o v]|]|n [a|]]; done.
Qed.

Lemma simple_text_nonempty s : good_simple s = true -> simple_text s <> [].
Proof. intros (y & t & -> & _)%simple_starts. done. Qed.

Lemma filter_type_reads_simple parse s rest ts b : good_simple s = true -> delimited rest ->
  filter_type parse (simple_type s) (simple_text s ++ rest, ts, b) = Ok (rest, ts ++ [simple_token s], true).
Proof.
  intros Hg Hr. destruct (simple_read parse s rest Hg Hr) as (c & E & Ef). cbn [filter_type]. rewrite E, Ef.
  cbn [mbind res_bind mret res_ret]. rewrite drop_app_length, bool_decide_eq_false_2; [done|by apply simple_text_nonempty].
Qed.

Lemma filter_type_none parse t s ts b : xexec (matchExpr t) s = None -> filter_type parse t (s, ts, b) = Ok (s, ts, b).
Proof. intros E. cbn [filter_type]. by rewrite E. Qed.

Lemma other_part_refuses t l : match l with ISimple _ :: _ => False | _ => True end -> xexec (matchExpr t) (selector_text l) = None.
Proof.
  intros Hl. destruct l as [|[s|c|] l]; [|done|..].
  - apply (xmatch_nil (XGroup 0 (matchExpr t))), matchExpr_consumes.
  - destruct c; apply xexec_firsts; auto using matchExpr_consumes, filter_starts.
  - apply xexec_firsts; auto using matchExpr_consumes, filter_starts.
Qed.

(** The filters of a turn read some of the simple parts that come first. *)
Lemma filters_read parse types first l ts b : good_items first l = true ->
  exists ss rest, l = List.map ISimple ss ++ rest /\ good_items (first && bool_decide (ss = [])) rest = true
    /\ filter_each parse types (selector_text l, ts, b) = Ok (selector_text rest, ts ++ List.map simple_token ss, b || negb (bool_decide (ss = [])))
    /\ match l with ISimple s :: _ => simple_type s ∈ types -> ss <> [] | _ => True end.
Proof.
  revert first l ts b. induction types as [|t types IH]; intros first l ts b Hl.
  { exists [], l. rewrite app_nil_r, orb_false_r, andb_true_r. split_and!; [done..|]. destruct l as [|[s|c|] l]; [done| |done..]. by intros ?%elem_of_nil. }
  cbn [filter_each]. destruct l as [|[s|c|] l].
  2: destruct (decide (t = simple_type s)) as [->|Ht].
  2: { cbn [good_items] in Hl. rewrite !andb_true_iff in Hl. destruct Hl as [[Hs _] Hl]. cbn [selector_text flat_map item_text].
       rewrite filter_type_reads_simple by (done || by apply items_delimited). cbn [mbind res_bind].
       destruct (IH false l (ts ++ [simple_token s]) true Hl) as (ss & rest & -> & Hg & E & _). exists (s :: ss), rest.
       fold (selector_text (List.map ISimple ss ++ rest)). rewrite E, <- app_assoc, andb_false_r, orb_true_r. by split_and!. }
  2: { assert (good_simple s = true /\ delimited (selector_text l)) as [Hs Hd].
       { cbn [good_items] in Hl. rewrite !andb_true_iff in Hl. destruct Hl as [[Hs _] Hl]. split; [done|by apply items_delimited]. }
       rewrite filter_type_none by (by apply other_refuses). cbn [mbind res_bind].
       destruct (IH first (ISimple s :: l) ts b Hl) as (ss & rest & E1 & Hg & E & Hn). exists ss, rest. split_and!; [done..|].
       rewrite elem_of_cons. intros [Es|?]; [by destruct Ht|by apply Hn]. }
  all: rewrite filter_type_none by (by apply other_part_refuses); cbn [mbind res_bind]; by apply IH.
Qed.

Lemma item_groups_simple ss ts rest : item_groups ts (List.map ISimple ss ++ rest) = item_groups (ts ++ List.map simple_token ss) rest.
Proof. revert ts. induction ss as [|s ss IH]; intros ts; cbn; [by rewrite app_nil_r|]. by rewrite IH, <- app_assoc. Qed.

Lemma turn_reads parse l ts s0 ts0 b : good_items true l = true -> combinator s0 ts0 = (selector_text l, ts, b) ->
  exists ss rest, l = List.map ISimple ss ++ rest /\ good_items false rest = true
    /\ one_turn parse s0 ts0 = Ok (selector_text rest, ts ++ List.map simple_token ss, true).
Proof.
  intros Hl E. destruct (filters_read parse filter_types true l ts b Hl) as (ss & rest & -> & Hg & Ef & Hn). exists ss, rest.
  destruct ss as [|s ss].
  - exfalso. destruct rest as [|[s|c|] rest]; try done. apply Hn; [|done]. unfold filter_types. rewrite !elem_of_cons. destruct s; cbn; tauto.
  - split_and!; [done..|]. unfold one_turn. rewrite E, Ef. by rewrite orb_true_r.
Qed.

Lemma tok_loop_more parse n s prev ts : s <> [] ->
  tok_loop parse (S n) s prev (Some ts) =
  let '(s1, prev1, ts1) := after_comma s prev ts in
  one_turn parse s1 ts1 ≫= fun st => if st.2 : bool then tok_loop parse n st.1.1 prev1 (Some st.1.2) else mret (st.1.1, prev1 ++ [st.1.2]).
Proof. destruct s as [|x s]; [done|]. intros _. apply tok_loop_next. Qed.

(** What a turn begins with, after its comma and its combinator. *)
Definition turn_start (i : item) (l : list item) (ts : list token) : list item * list token :=
  match i with ISimple s => (ISimple s :: l, ts) | IComb c => (l, ts ++ [comb_token c]) | IComma => (l, []) end.

Lemma turn_starts i l prev ts : good_items false (i :: l) = true ->
  good_items true (turn_start i l ts).1 = true /\ exists s1 ts1 b,
  after_comma (selector_text (i :: l)) prev ts = (s1, (match i with IComma => prev ++ [ts] | _ => prev end), ts1)
  /\ combinator s1 ts1 = (selector_text (turn_start i l ts).1, (turn_start i l ts).2, b).
Proof.
  intros Hg. destruct i as [s|c|]; cbn [good_items turn_start fst snd] in *; unfold after_comma.
  - rewrite !andb_true_iff in Hg. destruct Hg as [[Hs _] Hl]. rewrite Hs, Hl. split; [done|].
    assert (solid (selector_text (ISimple s :: l))) as H by (by apply simple_solid).
    rewrite solid_no_comma by done. exists (selector_text (ISimple s :: l)), ts, false. split; [done|by apply solid_no_comb].
  - split; [done|]. pose proof (items_solid l Hg) as H. cbn [selector_text flat_map item_text]. rewrite comb_no_comma by done.
    exists (comb_text c ++ selector_text l), ts, true. split; [done|by apply comb_read].
  - split; [done|]. pose proof (items_solid l Hg) as H. cbn [selector_text flat_map item_text]. destruct (comma_read _ H) as [cs E].
    fold (selector_text l). rewrite E. pose proof H as (y & t & Ey & _). rewrite Ey. exists (y :: t), [], false. split; [done|]. rewrite <- Ey. by apply solid_no_comb.
Qed.

Lemma item_groups_start i l prev ts : prev ++ item_groups ts (i :: l) =
  match i with IComma => prev ++ [ts] | _ => prev end ++ item_groups (turn_start i l ts).2 (turn_start i l ts).1.
Proof. destruct i; cbn; [done..|]. by rewrite <- app_assoc. Qed.

Lemma items_text_nonempty i l : good_items false (i :: l) = true -> selector_text (i :: l) <> [].
Proof.
  destruct i as [s|c|]; cbn [good_items selector_text flat_map item_text]; [|by destruct c|done].
  rewrite !andb_true_iff. intros [[Hs%simple_text_nonempty _] _]. by destruct (simple_text s).
Qed.

(** The loop reads all that is left, from the end of a part on. *)
Lemma tok_loop_items parse n l prev ts : good_items false l = true -> (length (selector_text l) < n)%nat ->
  tok_loop parse n (selector_text l) prev (Some ts) = Ok ([], prev ++ item_groups ts l).
Proof.
  revert l prev ts. induction n as [|n IH]; intros l prev ts Hg Hn; [lia|]. destruct l as [|i l]; [done|].
  destruct (turn_starts i l prev ts Hg) as (Hg1 & s1 & ts1 & b & Ea & Ec).
  rewrite tok_loop_more by (by apply items_text_nonempty). rewrite Ea.
  destruct (turn_reads parse _ _ _ _ _ Hg1 Ec) as (ss & rest & El & Hr & Et). rewrite Et. cbn [mbind res_bind fst snd].
  rewrite IH; [|done|].
  - rewrite item_groups_start, El, item_groups_simple. done.
  - apply one_turn_reads in Et. apply reads_shrinks in Et; [|done]. cbn in Et.
    pose proof (after_comma_suffix (selector_text (i :: l)) prev ts) as Hs. rewrite Ea in Hs. apply suffix_length in Hs. cbn [fst] in Hs. lia.
Qed.

Lemma parsed_items l : good_items true l = true -> parsed (selector_text l) = Ok ([], item_groups [] l).
Proof.
  intros Hg. unfold parsed, tokenize_fuel. cbn [tok_parse]. pose proof (items_solid l Hg) as Hs.
  destruct (turn_reads (fun u => match (∅ : gmap jstr (list (list token))) !! u with Some _ => mret 0%nat
    | None => (fun r => length r.1) <$> tok_parse ∅ (length (selector_text l)) u end) l [] _ [] false Hg (solid_no_comb _ [] Hs)) as (ss & rest & El & Hr & Et).
  pose proof Hs as (y & t & Ey & _). rewrite Ey in *. rewrite tok_loop_first, Et. cbn [mbind res_bind fst snd].
  rewrite tok_loop_items; [by rewrite El, item_groups_simple|done|].
  apply one_turn_reads in Et. apply reads_shrinks in Et; [|done]. done.
Qed.

(** C28: A selector that is written with every name and value escaped is read as what it says:
    [tokenize] answers, whatever its cache holds, one group for each part between commas and
    in it one token for each simple selector and combinator, with the type that was meant;
    and the escapes that it leaves in the matches are undone by [runescape].  Names are any
    texts that are not empty, values any texts, without NUL; only the name of a pseudo class
    must not begin, in any case of letters, like those of the child filters ([first-child],
    [nth-of-type] and so on), for then the code reads a child filter and the rest of the
    name after it ([child_prefix_read]). *)
Theorem tokenize_reads_back c l : cache_reach c -> good_items true l = true ->
  (tokenize (selector_text l) c).1 = Ok (item_groups [] l) /\ (forall n, good_name n = true -> runescape (escape n) = n).
Proof.
  intros Hc%reach_ok Hg. split.
  - rewrite tokenize_unfold by done. destruct (c_map c !! selector_text l) as [g|] eqn:E.
    + apply Hc in E. rewrite parsed_items in E by done. by injection E as <-.
    + rewrite parsed_items by done. apply cache_add_answer.
  - intros n Hn. by apply runescape_pieces, good_name_spec.
Qed.

(** A list of the class [list] and what is in it, with an attribute whose value has a quote. *)
Definition demo_selector : list item :=
  [ISimple (STag (str "ul")); ISimple (SClass (str "list")); IComb ChildOf; ISimple (STag (str "li")); ISimple (SId (str "a.b"));
   ISimple (SAttr (str "title") (Some (OWord, [chr "x"; quote2; chr "y"]))); ISimple (SPseudo (str "hover") None); IComma; ISimple SAny].

Lemma tokenize_reads_back_witness : good_items true demo_selector = true /\ (tokenize (selector_text demo_selector) no_cache).1 = Ok (item_groups [] demo_selector).
Proof. split; [by vm_compute|]. apply (tokenize_reads_back no_cache demo_selector); [apply reach_start|by vm_compute]. Defined.

(** ** Where the code goes wrong *)

(** A pseudo class whose name begins like a child filter is read as that filter, and the
    rest of its name as a tag that follows it: [:first-childish] is [:first-child] and
    then [ish], so [tokenize] reads what no element can match and does not throw. *)
Example child_prefix_read :
  match (tokenize (str ":first-childish") no_cache).1 with
  | Ok gs => List.map (List.map (fun t => (t_type t, t_value t))) gs = [[(TFilter CHILD, str ":first-child"); (TFilter TAG, str "ish")]]
  | _ => False
  end.
Proof. vm_compute. reflexivity. Qed.

(** The argument of [:nth-child] may be written in any case, but only [even] and [odd] in
    small letters have their meaning: [:nth-child(EVEN)] is [:nth-child(0n+0)]. *)
Example nth_child_upper_case :
  let numbers s := List.map (List.map (fun t => take 2 (drop 3 (t_matches t)))) <$> (tokenize s no_cache).1 in
  numbers (str ":nth-child(even)") = Ok [[[MNum 2; MNum 0]]] /\ numbers (str ":nth-child(EVEN)") = Ok [[[MNum 0; MNum 0]]].
Proof. vm_compute. split; reflexivity. Qed.

(** [:x(:b [c=")"]] has no closing parenthesis, but is read: the search for the next closing
    one in the argument finds none, and the pseudo class is cut after the opening one. *)
Example open_parenthesis_read :
  let texts s := List.map (List.map t_value) <$> (tokenize s no_cache).1 in
  let rest := str ":b" ++ str " " ++ str "[c=" ++ quote2 :: str ")" ++ quote2 :: str "]" in
  texts (str ":x(" ++ rest) = Ok [[str ":x("; str ":b"; str " "; str "[c=" ++ quote2 :: str ")" ++ quote2 :: str "]"]].
Proof. vm_compute. reflexivity. Qed.
