(* ===== verification/SizzleMatch.v ===== *)
(** * The selector engine: matching elements

    The filters of Sizzle, the combinators with what they remember on elements, the
    matchers that are made of the tokens of a selector, and their runs on given elements.
    The document is what the browser shows of it; it does not change while matchers run.
    Pseudo classes that work on sets of elements ([:first], [:eq] and the like) or with
    selectors of their own ([:not], [:has]) and those that ask for the state of the browser
    or are added by other parts are not modelled: [None] is a matcher that has one. *)

From S2P Require Import Prelude JsNum JsVal Callbacks Text Regex Sizzle.

(** ** Documents *)

(** [className] is [elem.className] where that is a string, [textContent] that text or else
    what [getText] answers; [height] bounds the number of nodes above. *)
Record dom := Dom {
  parentNode : nat -> option nat;
  childNodes : nat -> list nat;
  nodeType : nat -> Z;
  nodeName : nat -> jstr;
  getAttribute : nat -> jstr -> option jstr;
  className : nat -> option jstr;
  elem_type : nat -> jstr;
  elem_checked : nat -> bool;
  elem_selected : nat -> bool;
  textContent : nat -> jstr;
  document : nat;
  docElem : nat;
  documentIsHTML : bool;
  height : nat -> nat
}.

(** The nodes before a node in a list, the last first, and those after it. *)
Fixpoint before (e : nat) (acc l : list nat) : list nat :=
  match l with [] => [] | x :: l' => if (x =? e)%nat then acc else before e (x :: acc) l' end.
Fixpoint after (e : nat) (l : list nat) : list nat :=
  match l with [] => [] | x :: l' => if (x =? e)%nat then l' else after e l' end.

Inductive dir := DParent | DPrev | DNext.

Definition siblings (d : dom) (e : nat) : list nat := match parentNode d e with Some p => childNodes d p | None => [] end.

(** [elem[ dir ]]. *)
Definition step (d : dom) (r : dir) (e : nat) : option nat :=
  match r with
  | DParent => parentNode d e
  | DPrev => head (before e [] (siblings d e))
  | DNext => head (after e (siblings d e))
  end.

(** The nodes that [while ( ( elem = elem[ dir ] ) )] goes through. *)
Fixpoint chain (d : dom) (r : dir) (n : nat) (e : nat) : list nat :=
  match n with
  | O => []
  | S n => match step d r e with Some e' => e' :: chain d r n e' | None => [] end
  end.

Definition walk (d : dom) (r : dir) (e : nat) : list nat :=
  chain d r (match r with DParent => height d e | _ => length (siblings d e) end) e.

(** What the document promises: a node is among the children of its parent, once, and
    below it. *)
Class DomLaws (d : dom) : Prop := {
  child_of_parent e p : parentNode d e = Some p <-> e ∈ childNodes d p;
  children_once p : NoDup (childNodes d p);
  parent_higher e p : parentNode d e = Some p -> (height d p < height d e)%nat
}.

(** ** State *)

(** What [elem[ expando ]] keeps for a key: an array that runs of a combinator share, or the
    index of an element among its siblings. *)
Inductive uentry :=
  | UCell (c : nat)
  | UIndex (run nodeIndex diff : Z)
  | ULast (run diff : Z).

(** The array [newCache]: [dirruns], [doneName] and the result, if there is one. *)
Record cell := Cell { c_run : Z; c_name : nat; c_result : option bool }.

(** [outermostContext]. *)
Inductive ocontext := OTrue | ONode (e : nat).

Record mstate := MState {
  ms_cells : list cell;
  ms_unique : gmap (nat * jstr) uentry;
  ms_dirruns : Z;
  ms_done : nat;
  ms_outermost : option ocontext
}.

Definition set_cells (f : list cell -> list cell) (s : mstate) : mstate :=
  MState (f (ms_cells s)) (ms_unique s) (ms_dirruns s) (ms_done s) (ms_outermost s).
Definition set_unique (e : nat) (key : jstr) (u : uentry) (s : mstate) : mstate :=
  MState (ms_cells s) (<[(e, key) := u]> (ms_unique s)) (ms_dirruns s) (ms_done s) (ms_outermost s).
Definition set_dirruns (z : Z) (s : mstate) : mstate := MState (ms_cells s) (ms_unique s) z (ms_done s) (ms_outermost s).
Definition set_done (n : nat) (s : mstate) : mstate := MState (ms_cells s) (ms_unique s) (ms_dirruns s) n (ms_outermost s).
Definition set_outermost (o : option ocontext) (s : mstate) : mstate := MState (ms_cells s) (ms_unique s) (ms_dirruns s) (ms_done s) o.

(** ** Filters *)

Inductive pseudo :=
  | PContains (text : jstr) | PRoot | PEmpty | PParent | PHeader | PInput | PButton | PText
  | PInputType (type : jstr) | PButtonType (type : jstr) | PChecked | PSelected
  | PObject.

Inductive efilter :=
  | FTag (any : bool) (name : jstr)
  | FClass (name : jstr)
  | FAttr (name : jstr) (operator : mval) (check : jstr)
  | FId (id : jstr)
  | FChild (type what : jstr) (first last : mval)
  | FPseudo (p : pseudo).

Definition simple_pseudos : list (jstr * pseudo) :=
  [(str "root", PRoot); (str "empty", PEmpty); (str "parent", PParent); (str "header", PHeader); (str "input", PInput);
   (str "button", PButton); (str "text", PText); (str "checked", PChecked); (str "selected", PSelected);
   (str "radio", PInputType (str "radio")); (str "checkbox", PInputType (str "checkbox")); (str "file", PInputType (str "file"));
   (str "password", PInputType (str "password")); (str "image", PInputType (str "image"));
   (str "submit", PButtonType (str "submit")); (str "reset", PButtonType (str "reset"))].

(** The pseudo classes of the tables that are not modelled; the last ones are added by jQuery
    and jQuery UI. *)
Definition other_pseudos : list jstr :=
  List.map str ["not"; "has"; "lang"; "target"; "focus"; "enabled"; "disabled"; "first"; "last"; "eq"; "even"; "odd"; "lt"; "gt"; "nth";
    "hidden"; "visible"; "animated"; "data"; "focusable"; "tabbable"]%string.

Fixpoint assoc {V} (name : jstr) (l : list (jstr * V)) : option V :=
  match l with [] => None | (n, v) :: l' => if decide (n = name) then Some v else assoc name l' end.

Section filters.
Context (unicode_lower : N -> jstr).

Definition low (s : jstr) : jstr := toLowerCase unicode_lower s.

(** [Expr.pseudos[ name ]], with the members that every object has: [constructor] is a
    function that answers an object for every element.  The outer option is whether there
    is one, the inner one whether it is modelled. *)
Definition pseudo_named (name : jstr) (argument : mval) : option (res (option pseudo)) :=
  if decide (name = str "contains") then
    Some match argument with MStr s => Ok (Some (PContains (runescape s))) | _ => Throw (str "TypeError") end
  else match assoc name simple_pseudos with
       | Some p => Some (Ok (Some p))
       | None => if decide (name ∈ other_pseudos) then Some (Ok None)
                 else if decide (name = str "constructor") then Some (Ok (Some PObject))
                 else if decide (is_Some (object_member name)) then Some (Ok None) else None
       end.

Definition filter_PSEUDO (name : jstr) (argument : mval) : res (option efilter) :=
  match pseudo_named name argument with
  | Some r => option_map FPseudo <$> r
  | None => match pseudo_named (low name) argument with
            | Some r => option_map FPseudo <$> r
            | None => sizzle_error (str "unsupported pseudo: " ++ name)
            end
  end.

Definition is_alnum (c : N) : bool := is_digit c || is_letter c.

(** The text that the expression of a class name matches.  A name goes into the expression
    as it is written: a backslash before another character than a letter or a digit
    stands for that character; before those it means something else, which is not
    modelled. *)
Fixpoint class_pattern (s : jstr) : option jstr :=
  match s with
  | [] => Some []
  | c :: s' =>
      if (c =? backslash)%N then
        match s' with
        | d :: s'' => if is_alnum d then None else cons d <$> class_pattern s''
        | [] => None
        end
      else cons c <$> class_pattern s'
  end.

(** [Expr.filter[ type ].apply( null, matches )]. *)
Definition make_filter (t : ftype) (matches : list mval) : res (option efilter) :=
  match t, matches with
  | TAG, [MStr sel] => Ok (Some (FTag (bool_decide (sel = str "*")) (low (runescape sel))))
  | CLASS, [MStr n] => Ok (FClass <$> class_pattern n)
  | ID, [MStr n] => Ok (Some (FId (runescape n)))
  | ATTR, [MStr name; operator; MStr check] => Ok (Some (FAttr name operator check))
  | CHILD, MStr type :: MStr what :: _ :: first :: last :: _ => Ok (Some (FChild type what first last))
  | PSEUDO, [MStr name; argument] => filter_PSEUDO name argument
  | _, _ => Ok None
  end.

(** ** What filters ask *)

Context (d : dom).

(** [pattern.test( text )] for white space or an end on both sides of the name. *)
Fixpoint class_test (name s : jstr) (free : bool) : bool :=
  (free && is_prefix name s && match drop (length name) s with y :: _ => is_html_white y | [] => true end)
  || match s with y :: s' => class_test name s' (is_html_white y) | [] => false end.

Definition class_text (e : nat) : jstr :=
  match className d e with
  | Some (c :: t) => c :: t
  | _ => default [] (getAttribute d e (str "class"))
  end.

(** [result.replace( rwhitespace, " " )]. *)
Fixpoint collapse (white : bool) (s : jstr) : jstr :=
  match s with
  | [] => []
  | c :: s' => if is_html_white c then (if white then [] else [chr " "]) ++ collapse true s' else c :: collapse false s'
  end.

Definition attr_test (operator : mval) (check result : jstr) : bool :=
  let op t := bool_decide (operator = MStr (str t)) in
  if op "="%string then bool_decide (result = check)
  else if op "!="%string then bool_decide (result <> check)
  else if op "^="%string then bool_decide (check <> []) && is_prefix check result
  else if op "*="%string then bool_decide (check <> []) && contains check result
  else if op "$="%string then bool_decide (check <> []) && bool_decide (drop (length result - length check) result = check)
  else if op "~="%string then contains check (chr " " :: collapse false result ++ [chr " "])
  else if op "|="%string then bool_decide (result = check) || bool_decide (take (S (length check)) result = check ++ [chr "-"])
  else false.

Definition booleans : list jstr :=
  List.map str ["checked"; "selected"; "async"; "autofocus"; "autoplay"; "controls"; "defer"; "disabled"; "hidden"; "ismap"; "loop";
    "multiple"; "open"; "readonly"; "required"; "scoped"]%string.

(** [Sizzle.attr]: the handles that jQuery adds in documents of HTML answer the name of such
    an attribute. *)
Definition attr (e : nat) (name : jstr) : option jstr :=
  match getAttribute d e name with
  | Some v => Some (if documentIsHTML d && bool_decide (low name ∈ booleans) then low name else v)
  | None => None
  end.

Definition filter_ATTR (name : jstr) (operator : mval) (check : jstr) (e : nat) : bool :=
  match attr e name with
  | None => bool_decide (operator = MStr (str "!="))
  | Some result => if m_truthy operator then attr_test operator check result else true
  end.

Definition name_is (e : nat) (t : jstr) : bool := bool_decide (low (nodeName d e) = t).

(** [/^h\d$/i]. *)
Definition rheader (s : jstr) : bool := match s with [h; c] => ((h =? chr "h") || (h =? chr "H"))%N && is_digit c | _ => false end.
Definition rinputs (s : jstr) : bool :=
  existsb (fun w => bool_decide (is_Some (xmatch (XLitI w) (fun r _ => match r with [] => Some ([], []) | _ => None end) s [])))
    [str "input"; str "select"; str "textarea"; str "button"].

Definition pseudo_empty (e : nat) : bool := forallb (fun c => negb (nodeType d c <? 6)) (childNodes d e).

Definition filter_pseudo (p : pseudo) (e : nat) : bool :=
  match p with
  | PContains text => contains text (textContent d e)
  | PRoot => (e =? docElem d)%nat
  | PEmpty => pseudo_empty e
  | PParent => negb (pseudo_empty e)
  | PHeader => rheader (nodeName d e)
  | PInput => rinputs (nodeName d e)
  | PButton => name_is e (str "input") && bool_decide (elem_type d e = str "button") || name_is e (str "button")
  | PText => name_is e (str "input") && bool_decide (elem_type d e = str "text")
             && match getAttribute d e (str "type") with None => true | Some a => bool_decide (low a = str "text") end
  | PInputType t => name_is e (str "input") && bool_decide (elem_type d e = t)
  | PButtonType t => (name_is e (str "input") || name_is e (str "button")) && bool_decide (elem_type d e = t)
  | PChecked => name_is e (str "input") && elem_checked d e || name_is e (str "option") && elem_selected d e
  | PSelected => elem_selected d e
  | PObject => true
  end.

(** ** Positions among siblings *)

Definition is_element (e : nat) : bool := nodeType d e =? 1.
Definition same_kind (ofType : bool) (name : jstr) (e : nat) : bool := if ofType then name_is e name else is_element e.

(** [:first-child], [:last-of-type] and the like: no sibling of the kind in a direction. *)
Definition child_simple (type : jstr) (ofType : bool) (e : nat) : bool :=
  let name := low (nodeName d e) in
  let none r := forallb (fun n => negb (same_kind ofType name n)) (walk d r e) in
  let forward := negb (bool_decide (drop (length type - 4) type = str "last")) in
  none (if forward then DPrev else DNext) && (if decide (type = str "only") then none DNext else true).

Definition set_index (e : nat) (type : jstr) (u : uentry) : SM mstate unit := sm_mod (set_unique e type u).

(** The search of [e] in a list of nodes: its index and its number among the elements. *)
Fixpoint seek (e : nat) (l : list nat) (nodeIndex diff : Z) : option (Z * Z) :=
  match l with
  | [] => None
  | n :: l' => if is_element n
               then if (n =? e)%nat then Some (nodeIndex, diff + 1) else seek e l' (nodeIndex + 1) (diff + 1)
               else seek e l' (nodeIndex + 1) diff
  end.

(** The nodes from one end of the children on. *)
Definition from_first (p : nat) : list nat := match head (childNodes d p) with Some f => f :: walk d DNext f | None => [] end.
Definition from_last (p : nat) : list nat := match last (childNodes d p) with Some f => f :: walk d DPrev f | None => [] end.

(** [:nth-child]: the index that the parent remembers is where the search begins. *)
Definition index_forward (type : jstr) (parent e : nat) : SM mstate Z :=
  s ← sm_get id;
  let remembered := match ms_unique s !! (parent, type) with
                    | Some (UIndex run k diff) =>
                        if (run =? ms_dirruns s) && negb (k =? 0)
                        then match childNodes d parent !! Z.to_nat k with Some node => seek e (walk d DNext node) (k + 1) diff | None => None end
                        else None
                    | _ => None
                    end in
  match match remembered with Some r => Some r | None => seek e (from_first parent) 0 0 end with
  | Some (k, diff) => set_index parent type (UIndex (ms_dirruns s) k diff) ;; mret diff
  | None => mret 0
  end.

(** The loop that counts elements and remembers the count of each, until [e]. *)
Fixpoint mark (type : jstr) (e : nat) (l : list nat) (diff : Z) : SM mstate (option Z) :=
  match l with
  | [] => mret None
  | n :: l' =>
      if is_element n then
        run ← sm_get ms_dirruns;
        set_index n type (ULast run (diff + 1)) ;;
        if (n =? e)%nat then mret (Some (diff + 1)) else mark type e l' (diff + 1)
      else mark type e l' diff
  end.

(** [:nth-last-child].  [node] is still the element itself when the loop begins, so it
    first goes through the siblings before it, and only then from the last child on. *)
Definition index_last (type : jstr) (parent e : nat) : SM mstate Z :=
  s ← sm_get id;
  let remembered := match ms_unique s !! (e, type) with
                    | Some (ULast run diff) => if run =? ms_dirruns s then Some diff else None
                    | _ => None
                    end in
  match remembered with
  | Some diff => mret diff
  | None =>
      r ← mark type e (walk d DPrev e) 0;
      match r with
      | Some n => mret n
      | None => r ← mark type e (from_last parent) 0; mret (default 0 r)
      end
  end.

(** The same loop without memory. *)
Fixpoint count_to (same : nat -> bool) (e : nat) (l : list nat) (diff : Z) : Z :=
  match l with
  | [] => 0
  | n :: l' => if same n then if (n =? e)%nat then diff + 1 else count_to same e l' (diff + 1) else count_to same e l' diff
  end.

(** [diff -= last; diff === first || ( diff % first === 0 && diff / first >= 0 )]. *)
Definition nth_test (diff first last : Z) : bool :=
  let diff := diff - last in
  (diff =? first) || (negb (first =? 0) && (Z.rem diff first =? 0) && (0 <=? Z.quot diff first)).

Definition filter_CHILD (type what : jstr) (first last : mval) (xml : bool) (e : nat) : SM mstate bool :=
  if decide (first = MNum 1 /\ last = MNum 0) then mret (bool_decide (is_Some (parentNode d e)))
  else match parentNode d e with
       | None => mret false
       | Some parent =>
           let ofType := bool_decide (what = str "of-type") in
           if decide (take 3 type = str "nth") then
             let forward := negb (bool_decide (drop (length type - 4) type = str "last")) in
             let useCache := negb xml && negb ofType in
             diff ← (if forward && useCache then index_forward type parent e
                     else if useCache then index_last type parent e
                     else mret (count_to (same_kind ofType (low (nodeName d e))) e (if forward then from_first parent else from_last parent) 0));
             match first, last with
             | MNum a, MNum b => mret (nth_test diff a b)
             | _, _ => mret false
             end
           else mret (child_simple type ofType e)
       end.

Definition run_filter (f : efilter) (xml : bool) (e : nat) : SM mstate bool :=
  match f with
  | FTag any name => mret (any || bool_decide (nodeName d e <> []) && name_is e name)
  | FClass name => mret (class_test name (class_text e) true)
  | FAttr name operator check => mret (filter_ATTR name operator check e)
  | FId id => mret (bool_decide (getAttribute d e (str "id") = Some id))
  | FChild type what first last => filter_CHILD type what first last xml e
  | FPseudo p => mret (filter_pseudo p e)
  end.

End filters.

(** ** Combinators *)

Record relation := Rel { r_dir : dir; r_first : bool }.

(** [Expr.relative]. *)
Definition relative (c : jstr) : option relation :=
  if decide (c = str ">") then Some (Rel DParent true)
  else if decide (c = str " ") then Some (Rel DParent false)
  else if decide (c = str "+") then Some (Rel DPrev true)
  else if decide (c = str "~") then Some (Rel DPrev false)
  else None.

Definition dir_key (r : dir) : jstr := match r with DParent => str "parentNode" | DPrev => str "previousSibling" | DNext => str "nextSibling" end.

(** The functions that matching is made of.  [MComb] is a function of [addCombinator] with its
    [doneName]; [MIsContext] and [MLeading] are those of [matcherFromTokens]. *)
Inductive matcher :=
  | MFilter (f : efilter)
  | MAll (ms : list matcher)
  | MComb (m : matcher) (r : relation) (base : bool) (doneName : nat)
  | MIsContext
  | MLeading (leadingRelative : bool) (matchContext : matcher).

Section run.
Context (unicode_lower : N -> jstr) (d : dom) (xml : bool) (context : nat).

(** The test [elem.nodeType === 1 || checkNonElements]. *)
Definition passes (r : relation) (base : bool) (e : nat) : bool :=
  is_element d e || (base && match r_dir r with DParent => true | _ => false end).

(** The three loops of a combinator over the nodes in its direction. *)
Fixpoint closest (ok : nat -> bool) (k : nat -> SM mstate bool) (l : list nat) : SM mstate bool :=
  match l with
  | [] => mret false
  | e :: l' => if ok e then k e else closest ok k l'
  end.

Fixpoint any_of (ok : nat -> bool) (k : nat -> SM mstate bool) (l : list nat) : SM mstate bool :=
  match l with
  | [] => mret false
  | e :: l' => if ok e then b ← k e; if (b : bool) then mret true else any_of ok k l' else any_of ok k l'
  end.

(** What an element remembers of a combinator in this run. *)
Definition remembered (key : jstr) (name e : nat) (s : mstate) : option (option bool) :=
  match ms_unique s !! (e, key) with
  | Some (UCell c) => match ms_cells s !! c with
                      | Some cl => if (c_run cl =? ms_dirruns s) && (c_name cl =? name)%nat then Some (c_result cl) else None
                      | None => None
                      end
  | _ => None
  end.

Definition set_result (c : nat) (v : option bool) : SM mstate unit :=
  sm_mod (set_cells (alter (fun cl => Cell (c_run cl) (c_name cl) v) c)).

Fixpoint any_remembered (ok : nat -> bool) (k : nat -> SM mstate bool) (key : jstr) (name newCache : nat) (l : list nat) : SM mstate bool :=
  match l with
  | [] => mret false
  | e :: l' =>
      if ok e then
        old ← sm_get (remembered key name e);
        match old with
        | Some v => set_result newCache v ;; mret (bool_decide (v = Some true))
        | None =>
            sm_mod (set_unique e key (UCell newCache)) ;;
            b ← k e;
            set_result newCache (Some b) ;;
            if (b : bool) then mret true else any_remembered ok k key name newCache l'
        end
      else any_remembered ok k key name newCache l'
  end.

(** [newCache = [ dirruns, doneName ]]. *)
Definition new_cache (name : nat) : SM mstate nat := fun s =>
  (Ok (length (ms_cells s)), set_cells (fun l => l ++ [Cell (ms_dirruns s) name None]) s).

Fixpoint run (m : matcher) (e : nat) {struct m} : SM mstate bool :=
  match m with
  | MFilter f => run_filter unicode_lower d f xml e
  | MAll ms =>
      (fix all ms := match ms with
                     | [] => mret true
                     | m :: ms' => b ← all ms'; if (b : bool) then run m e else mret false
                     end) ms
  | MComb m r base name =>
      let nodes := walk d (r_dir r) e in
      if r_first r then closest (passes r base) (run m) nodes
      else if xml then any_of (passes r base) (run m) nodes
      else newCache ← new_cache name; any_remembered (passes r base) (run m) (dir_key (r_dir r)) name newCache nodes
  | MIsContext => mret (e =? context)%nat
  | MLeading leadingRelative matchContext =>
      o ← sm_get ms_outermost;
      if negb leadingRelative && (xml || negb match o with Some (ONode c) => (c =? context)%nat | _ => false end)
      then mret true else run matchContext e
  end.
End run.

(** ** Making matchers *)

Definition elementMatcher (ms : list matcher) : matcher := match ms with [m] => m | _ => MAll ms end.

Definition next_done : SM mstate nat := fun s => (Ok (ms_done s), set_done (S (ms_done s)) s).

Definition addCombinator (m : matcher) (r : relation) (base : bool) : SM mstate matcher :=
  doneName ← next_done; mret (MComb m r base doneName).

Section compile.
Context (unicode_lower : N -> jstr).

(** The loop over the tokens. *)
Fixpoint add_tokens (matchers : list matcher) (tokens : list token) : SM mstate (option matcher) :=
  match tokens with
  | [] => mret (Some (elementMatcher matchers))
  | t :: tokens' =>
      match t_type t with
      | TComb c =>
          match relative c with
          | Some r => m ← addCombinator (elementMatcher matchers) r false; add_tokens [m] tokens'
          | None => sm_throw (str "TypeError")
          end
      | TFilter ft =>
          f ← sm_lift (make_filter unicode_lower ft (t_matches t));
          match f with
          | None => mret None
          | Some f => add_tokens (matchers ++ [MFilter f]) tokens'
          end
      end
  end.

(** [matcherFromTokens] where the context is one node; the second matcher for contexts, which
    is for lists of them, is not used. *)
Definition matcherFromTokens (tokens : list token) : SM mstate (option matcher) :=
  match tokens with
  | [] => sm_throw (str "TypeError")
  | t :: tokens' =>
      let leadingRelative := match t_type t with TComb c => relative c | TFilter _ => None end in
      matchContext ← addCombinator MIsContext (default (Rel DParent false) leadingRelative) true;
      next_done ;;
      let base := MLeading (bool_decide (is_Some leadingRelative)) matchContext in
      add_tokens [base] (if bool_decide (is_Some leadingRelative) then tokens' else tokens)
  end.

(** The matchers of the groups, the last group first. *)
Fixpoint from_groups (groups : list (list token)) : SM mstate (option (list matcher)) :=
  match groups with
  | [] => mret (Some [])
  | g :: groups' =>
      m ← matcherFromTokens g;
      match m with
      | None => mret None
      | Some m => ms ← from_groups groups'; mret (cons m <$> ms)
      end
  end.

(** The state of the engine: [tokenCache], [compilerCache] and the rest. *)
Record sstate := SState { st_tokens : tcache; st_compiled : scache (list matcher); st_match : mstate }.

Definition on_tokens {A} (m : SM tcache A) : SM sstate A := fun s =>
  let '(r, c) := m (st_tokens s) in (r, SState c (st_compiled s) (st_match s)).
Definition on_compiled {A} (m : SM (scache (list matcher)) A) : SM sstate A := fun s =>
  let '(r, c) := m (st_compiled s) in (r, SState (st_tokens s) c (st_match s)).
Definition on_match {A} (m : SM mstate A) : SM sstate A := fun s =>
  let '(r, c) := m (st_match s) in (r, SState (st_tokens s) (st_compiled s) c).

Definition compile (selector : jstr) : SM sstate (option (list matcher)) :=
  cached ← sm_get (fun s => c_map (st_compiled s) !! selector);
  match cached with
  | Some ms => mret (Some ms)
  | None =>
      groups ← on_tokens (tokenize selector);
      ms ← on_match (from_groups (rev groups));
      match ms with
      | None => mret None
      | Some ms => on_compiled (cache_add selector ms) ;; mret (Some ms)
      end
  end.

(** ** Matching given elements *)

Fixpoint first_match (d : dom) (xml : bool) (context : nat) (ms : list matcher) (e : nat) : SM mstate bool :=
  match ms with
  | [] => mret false
  | m :: ms' => b ← run unicode_lower d xml context m e; if (b : bool) then mret true else first_match d xml context ms' e
  end.

Fixpoint match_each (d : dom) (xml : bool) (context : nat) (ms : list matcher) (dirrunsUnique : Z) (elems : list nat) : SM mstate (list nat) :=
  match elems with
  | [] => mret []
  | e :: elems' =>
      b ← first_match d xml context ms e;
      sm_mod (set_dirruns dirrunsUnique) ;;
      results ← match_each d xml context ms dirrunsUnique elems';
      mret (if (b : bool) then e :: results else results)
  end.

(** [superMatcher] of matchers for elements, called for given elements, from outside of any
    run ([outermostContext] is [null], so [dirruns] grows by 1), with a true [outermost]. *)
Definition superMatcher (d : dom) (ms : list matcher) (seed : list nat) (context : option nat) (xml : bool) : SM mstate (list nat) :=
  contextBackup ← sm_get ms_outermost;
  dirrunsUnique ← sm_get (fun s => ms_dirruns s + 1);
  sm_mod (set_dirruns dirrunsUnique) ;;
  sm_mod (set_outermost (Some match context with Some c => if (c =? document d)%nat then OTrue else ONode c | None => OTrue end)) ;;
  results ← match_each d xml (default (document d) context) ms dirrunsUnique seed;
  sm_mod (set_dirruns dirrunsUnique) ;;
  sm_mod (set_outermost contextBackup) ;;
  mret results.

(** [select( selector, context, [], seed )]. *)
Definition select (d : dom) (selector : jstr) (context : option nat) (seed : list nat) : SM sstate (option (list nat)) :=
  ms ← compile selector;
  match ms with
  | None => mret None
  | Some ms => results ← on_match (superMatcher d ms seed context (negb (documentIsHTML d))); mret (Some results)
  end.

(** [selector.replace( rtrim, "$1" )]: white space at the ends goes, but for a character of it
    that is escaped at the end. *)
Definition trim_tail (start : bool) : rx :=
  XSeq (XGroup 1 (XSeq (if start then XAlt XEps (XNotOf [backslash]) else XNotOf [backslash]) (XStar (XSeq (XChr backslash) (XCls is_dot))))) (XPlus whitespace).

Fixpoint trim_end (start : bool) (s : jstr) : jstr :=
  match xmatch (trim_tail start) (fun r c => match r with [] => Some ([], c) | _ => None end) s [] with
  | Some (_, c) => default [] (capture c 1)
  | None => match s with [] => [] | c :: s' => c :: trim_end false s' end
  end.

Definition rtrim (s : jstr) : jstr :=
  match xexec (XPlus whitespace) s with
  | Some (r, _) => trim_end false r
  | None => trim_end true s
  end.

(** [Sizzle( selector, context, [], seed )] for a selector that is a string. *)
Definition Sizzle (d : dom) (selector : jstr) (context : option nat) (seed : list nat) : SM sstate (option (list nat)) :=
  let type := match context with Some c => nodeType d c | None => 9 end in
  if bool_decide (selector = []) || negb ((type =? 1) || (type =? 9) || (type =? 11)) then mret (Some [])
  else select d (rtrim selector) context seed.

(** [Sizzle.matches( expr, elements )]. *)
Definition matches (d : dom) (expr : jstr) (elements : list nat) : SM sstate (option (list nat)) := Sizzle d expr None elements.

(** The loaded library: no selector is compiled, no run has been; [inDisabledFieldset] is a
    combinator already. *)
Definition sizzle_start : sstate := SState no_cache no_cache (MState [] ∅ 0 1 None).
End compile.
