(* ===== verification/SizzleMatchFacts.v ===== *)
(** * Matching elements: what the caches of a run hold

    The nodes in a direction, the positions of children, and the runs of matchers: each
    answers what its specification without caches says, and what it leaves on elements
    is right for the rest of the run. *)

From Stdlib Require Import ZifyBool.
From S2P Require Import Prelude JsNum JsVal Callbacks Text Regex Sizzle SizzleMatch.

(** ** Nodes in a direction *)

Lemma nodes_before e acc a b : e ∉ a -> before e acc (a ++ e :: b) = rev a ++ acc.
Proof.
  revert acc. induction a as [|x a IH]; intros acc; cbn [app before rev].
  - intros _. by rewrite Nat.eqb_refl.
  - intros [Hx Ha]%not_elem_of_cons. destruct (x =? e)%nat eqn:E; [apply Nat.eqb_eq in E; congruence|].
    rewrite IH by done. by rewrite <- app_assoc.
Qed.

Lemma after_app e a b : e ∉ a -> after e (a ++ e :: b) = b.
Proof.
  induction a as [|x a IH]; cbn [app after].
  - intros _. by rewrite Nat.eqb_refl.
  - intros [Hx Ha]%not_elem_of_cons. destruct (x =? e)%nat eqn:E; [apply Nat.eqb_eq in E; congruence|by apply IH].
Qed.

Section dom.
Context (d : dom) `{!DomLaws d}.

Lemma once_split (l a b : list nat) x : NoDup l -> l = a ++ x :: b -> x ∉ a /\ x ∉ b.
Proof.
  intros Hn ->. apply NoDup_app in Hn as (_ & Hd & [Hn _]%NoDup_cons). split; [|done]. intros Ha. apply (Hd x Ha). by left.
Qed.

(** The place of a node among the children of its parent. *)
Lemma place e p : parentNode d e = Some p -> exists a b, childNodes d p = a ++ e :: b /\ e ∉ a /\ e ∉ b.
Proof.
  intros H%child_of_parent. apply list_elem_of_split in H as (a & b & E). exists a, b. split; [done|].
  apply (once_split (childNodes d p)); [apply children_once|done].
Qed.

Lemma siblings_NoDup e : NoDup (siblings d e).
Proof. unfold siblings. destruct (parentNode d e); [apply children_once|constructor]. Qed.

Lemma siblings_same e x : x ∈ siblings d e -> siblings d x = siblings d e.
Proof.
  unfold siblings. destruct (parentNode d e) as [p|]; [|by intros ?%elem_of_nil]. by intros ->%child_of_parent.
Qed.

Lemma in_siblings r e e' : r <> DParent -> step d r e = Some e' -> exists a b, siblings d e = a ++ e :: b /\ e ∉ a.
Proof.
  intros Hr H. unfold siblings. destruct (parentNode d e) as [p|] eqn:Hp.
  - destruct (place e p Hp) as (a & b & E & Ha & _). by exists a, b.
  - destruct r; [done|..]; cbn [step] in H; unfold siblings in H; by rewrite Hp in H.
Qed.

Lemma step_prev e e' : step d DPrev e = Some e' -> exists a b, siblings d e = a ++ e' :: e :: b /\ siblings d e' = siblings d e
  /\ before e [] (siblings d e) = e' :: before e' [] (siblings d e').
Proof.
  intros H. destruct (in_siblings DPrev e e' ltac:(discriminate) H) as (a & b & E & Ha). cbn [step] in H.
  rewrite E, nodes_before, app_nil_r in H by done. destruct (rev a) as [|x a'] eqn:Er; [done|]. injection H as ->.
  apply (f_equal (@rev nat)) in Er. rewrite rev_involutive in Er. cbn in Er. subst a. rewrite <- app_assoc in E. cbn [app] in E.
  exists (rev a'), b. assert (siblings d e' = siblings d e) as Es by (apply siblings_same; rewrite E; set_solver).
  split_and!; [done|done|]. pose proof (siblings_NoDup e) as Hn. apply (once_split _ (rev a') (e :: b) e') in Hn as [Hn _]; [|done].
  rewrite Es, E. rewrite (nodes_before e') by done. change (rev a' ++ e' :: e :: b) with (rev a' ++ [e'] ++ e :: b). rewrite app_assoc.
  rewrite nodes_before by done. by rewrite rev_app_distr, !app_nil_r.
Qed.

Lemma step_next e e' : step d DNext e = Some e' -> exists a b, siblings d e = a ++ e :: e' :: b /\ siblings d e' = siblings d e
  /\ after e (siblings d e) = e' :: after e' (siblings d e').
Proof.
  intros H. destruct (in_siblings DNext e e' ltac:(discriminate) H) as (a & b & E & Ha). cbn [step] in H.
  rewrite E, after_app in H by done. destruct b as [|x b]; [done|]. injection H as ->.
  exists a, b. assert (siblings d e' = siblings d e) as Es by (apply siblings_same; rewrite E; set_solver).
  split_and!; [done|done|]. pose proof (siblings_NoDup e) as Hn. apply (once_split _ (a ++ [e]) b e') in Hn as [Hn _]; [|by rewrite <- app_assoc].
  rewrite Es, E, after_app by done. change (a ++ e :: e' :: b) with (a ++ [e] ++ e' :: b). rewrite app_assoc. by rewrite after_app.
Qed.

(** How far a walk may go. *)
Definition rank (r : dir) (e : nat) : nat :=
  match r with DParent => height d e | DPrev => length (before e [] (siblings d e)) | DNext => length (after e (siblings d e)) end.

Lemma step_rank r e e' : step d r e = Some e' -> (rank r e' < rank r e)%nat.
Proof.
  destruct r; intros H; cbn [rank].
  - by apply parent_higher in H.
  - apply step_prev in H as (a & b & _ & _ & ->). cbn. lia.
  - apply step_next in H as (a & b & _ & _ & ->). cbn. lia.
Qed.

Lemma chain_fuel r n n' e : (rank r e <= n)%nat -> (rank r e <= n')%nat -> chain d r n e = chain d r n' e.
Proof.
  revert n' e. induction n as [|n IH]; intros n' e Hn Hn'.
  - destruct n' as [|n']; [done|]. cbn. destruct (step d r e) as [e'|] eqn:E; [|done]. apply step_rank in E. lia.
  - destruct n' as [|n']; cbn; destruct (step d r e) as [e'|] eqn:E; try done; apply step_rank in E; [lia|].
    by rewrite (IH n') by lia.
Qed.

Lemma rank_siblings r e : r <> DParent -> (rank r e <= length (siblings d e))%nat.
Proof.
  intros Hr. unfold rank, siblings. destruct (parentNode d e) as [p|] eqn:Hp; [|by destruct r].
  destruct (place e p Hp) as (a & b & -> & Ha & Hb). destruct r; [done|..].
  - rewrite nodes_before, app_nil_r, length_rev, length_app by done. lia.
  - rewrite after_app, length_app by done. cbn. lia.
Qed.

(** A walk goes on from every node in it. *)
Lemma walk_step r e : walk d r e = match step d r e with Some e' => e' :: walk d r e' | None => [] end.
Proof.
  unfold walk. assert (forall e, (rank r e <= match r with DParent => height d e | _ => length (siblings d e) end)%nat) as Hr.
  { intros x. destruct r; [done|by apply rank_siblings..]. }
  rewrite (chain_fuel r _ (S (match r with DParent => height d e | _ => length (siblings d e) end)) e) by (pose proof (Hr e); lia).
  cbn [chain]. destruct (step d r e) as [e'|] eqn:E; [|done]. apply step_rank in E as L. f_equal.
  apply chain_fuel; [|apply Hr]. pose proof (Hr e). lia.
Qed.

Lemma walk_ind r (P : nat -> list nat -> Prop) :
  (forall e, step d r e = None -> P e []) -> (forall e e', step d r e = Some e' -> P e' (walk d r e') -> P e (e' :: walk d r e')) ->
  forall e, P e (walk d r e).
Proof.
  intros H0 H1 e. remember (rank r e) as n eqn:En. revert e En. induction n as [n IH] using lt_wf_ind. intros e ->.
  rewrite walk_step. destruct (step d r e) as [e'|] eqn:E; [|by apply H0]. apply H1; [done|]. eapply IH; [|done]. by apply step_rank.
Qed.

Lemma walk_suffix r e pre x l : walk d r e = pre ++ x :: l -> l = walk d r x.
Proof.
  revert e. induction pre as [|y pre IH]; intros e; rewrite walk_step; destruct (step d r e) as [e'|]; try done.
  - by intros [= -> <-].
  - intros [= -> E]. by apply (IH y).
Qed.

Lemma walk_rank r e x : x ∈ walk d r e -> (rank r x < rank r e)%nat.
Proof.
  apply (walk_ind r (fun e l => x ∈ l -> (rank r x < rank r e)%nat)); clear e.
  - by intros e _ ?%elem_of_nil.
  - intros e e' E IH [->|Hx]%elem_of_cons; apply step_rank in E; [done|]. apply IH in Hx. lia.
Qed.

Lemma walk_not_self r e : e ∉ walk d r e.
Proof. intros H%walk_rank. lia. Qed.

Lemma walk_NoDup r e : NoDup (walk d r e).
Proof. apply (walk_ind r (fun _ l => NoDup l)); intros; constructor; [apply walk_not_self|done]. Qed.

Lemma walk_prev e : walk d DPrev e = before e [] (siblings d e).
Proof.
  apply (walk_ind DPrev (fun e l => l = before e [] (siblings d e))); clear e.
  - intros e. cbn [step]. by destruct (before _ _ _).
  - intros e e' E ->. by apply step_prev in E as (a & b & _ & _ & ->).
Qed.

Lemma walk_next e : walk d DNext e = after e (siblings d e).
Proof.
  apply (walk_ind DNext (fun e l => l = after e (siblings d e))); clear e.
  - intros e. cbn [step]. by destruct (after _ _).
  - intros e e' E ->. by apply step_next in E as (a & b & _ & _ & ->).
Qed.
End dom.

(** ** Positions *)

Section positions.
Context (ul : N -> jstr) (d : dom) `{!DomLaws d}.

Definition elements (l : list nat) : Z := Z.of_nat (length (List.filter (is_element d) l)).

Lemma elements_app a b : elements (a ++ b) = elements a + elements b.
Proof. unfold elements. rewrite List.filter_app, length_app. lia. Qed.

Lemma elements_rev l : elements (rev l) = elements l.
Proof. induction l as [|x l IH]; [done|]. cbn [rev]. rewrite elements_app, IH. change (x :: l) with ([x] ++ l). rewrite elements_app. lia. Qed.

(** The number of a node among its siblings of the same kind, from one end. *)
Definition child_number (ofType forward : bool) (e : nat) : Z :=
  Z.of_nat (length (List.filter (same_kind ul d ofType (low ul (nodeName d e))) (if forward then before e [] (siblings d e) else after e (siblings d e)))) + 1.

Lemma seek_finds e pre post i n : is_element d e = true -> e ∉ pre ->
  seek d e (pre ++ e :: post) i n = Some (i + Z.of_nat (length pre), n + elements pre + 1).
Proof.
  intros He. revert i n. induction pre as [|x pre IH]; intros i n; cbn [app seek].
  - intros _. rewrite He, Nat.eqb_refl. cbn. f_equal. f_equal; unfold elements; cbn; lia.
  - intros [Hx Hp]%not_elem_of_cons. change (x :: pre) with ([x] ++ pre). rewrite elements_app, length_app. unfold elements at 1. cbn [List.filter].
    destruct (x =? e)%nat eqn:Ex; [apply Nat.eqb_eq in Ex; congruence|].
    destruct (is_element d x); rewrite IH by done; f_equal; f_equal; cbn [length]; lia.
Qed.

Lemma seek_fails e l i n : e ∉ l -> seek d e l i n = None.
Proof.
  revert i n. induction l as [|x l IH]; intros i n; cbn [seek]; [done|]. intros [Hx Hl]%not_elem_of_cons.
  destruct (x =? e)%nat eqn:Ex; [apply Nat.eqb_eq in Ex; congruence|]. destruct (is_element d x); by apply IH.
Qed.

Lemma count_finds same e pre post n : same e = true -> e ∉ pre ->
  count_to same e (pre ++ e :: post) n = n + Z.of_nat (length (List.filter same pre)) + 1.
Proof.
  intros He. revert n. induction pre as [|x pre IH]; intros n; cbn [app count_to List.filter].
  - intros _. rewrite He, Nat.eqb_refl. cbn. lia.
  - intros [Hx Hp]%not_elem_of_cons. destruct (x =? e)%nat eqn:Ex; [apply Nat.eqb_eq in Ex; congruence|].
    destruct (same x); rewrite IH by done; cbn [length]; lia.
Qed.

Lemma children_siblings p x : x ∈ childNodes d p -> siblings d x = childNodes d p.
Proof. intros H%child_of_parent. unfold siblings. by rewrite H. Qed.

Lemma from_first_children p : from_first d p = childNodes d p.
Proof.
  unfold from_first. destruct (childNodes d p) as [|f t] eqn:E; [done|]. cbn [head].
  rewrite (walk_next d), (children_siblings p) by (rewrite E; by left). rewrite E. cbn. by rewrite Nat.eqb_refl.
Qed.

Lemma from_last_children p : from_last d p = rev (childNodes d p).
Proof.
  unfold from_last. destruct (last (childNodes d p)) as [f|] eqn:E.
  - apply last_Some in E as [t E]. rewrite (walk_prev d), (children_siblings p) by (rewrite E; set_solver).
    pose proof (children_once p) as Hn. apply (once_split _ t [] f) in Hn as [Hn _]; [|done].
    rewrite E, rev_app_distr, nodes_before by done. by rewrite app_nil_r.
  - apply last_None in E. by rewrite E.
Qed.

(** The number that the loop without memory finds. *)
Lemma count_number (ofType forward : bool) e p : parentNode d e = Some p -> is_element d e = true ->
  count_to (same_kind ul d ofType (low ul (nodeName d e))) e (if forward then from_first d p else from_last d p) 0 = child_number ofType forward e.
Proof.
  intros Hp He. destruct (place d e p Hp) as (a & b & E & Ha & Hb). unfold child_number.
  assert (siblings d e = a ++ e :: b) as -> by (unfold siblings; by rewrite Hp).
  assert (same_kind ul d ofType (low ul (nodeName d e)) e = true) as Hs by (destruct ofType; cbn; [by apply bool_decide_eq_true|done]).
  destruct forward.
  - rewrite from_first_children, E, count_finds, nodes_before, app_nil_r by done. rewrite <- (rev_involutive a) at 1.
    assert (forall l, length (List.filter (same_kind ul d ofType (low ul (nodeName d e))) (rev l)) = length (List.filter (same_kind ul d ofType (low ul (nodeName d e))) l)) as Hr.
    { intros l. by rewrite List.filter_rev, length_rev. }
    rewrite Hr. lia.
  - rewrite from_last_children, E, rev_app_distr. cbn [rev]. rewrite <- app_assoc. cbn [app].
    rewrite count_finds; [|done|by rewrite list_elem_of_In, <- in_rev, <- list_elem_of_In]. rewrite List.filter_rev, length_rev, after_app by done. lia.
Qed.

(** What a parent remembers is the place of one of its elements. *)
Definition index_right (p : nat) (k diff : Z) : Prop :=
  0 <= k /\ exists pre x post, childNodes d p = pre ++ x :: post /\ is_element d x = true
  /\ Z.of_nat (length pre) = k /\ diff = elements pre + 1.

Definition index_ok (s : mstate) : Prop := forall p key k diff,
  ms_unique s !! (p, key) = Some (UIndex (ms_dirruns s) k diff) -> index_right p k diff.

Lemma number_elements e p pre post : parentNode d e = Some p -> childNodes d p = pre ++ e :: post -> child_number false true e = elements pre + 1.
Proof.
  intros Hp E. unfold child_number. assert (siblings d e = pre ++ e :: post) as -> by (unfold siblings; by rewrite Hp).
  pose proof (children_once p) as Hn. apply (once_split _ pre post e) in Hn as [Hn _]; [|done].
  rewrite nodes_before, app_nil_r by done. by rewrite <- (elements_rev pre).
Qed.
End positions.

(** ** What a step changes *)

(** An element holds, under a key, the array number [c], which is [cl]. *)
Definition holds (s : mstate) (key : jstr) (e c : nat) (cl : cell) : Prop :=
  ms_unique s !! (e, key) = Some (UCell c) /\ ms_cells s !! c = Some cl.

Definition refs_ok (s : mstate) : Prop := forall e key c, ms_unique s !! (e, key) = Some (UCell c) -> (c < length (ms_cells s))%nat.

(** A step of the combinators [N]: what others remember may be lost, but is not changed. *)
Record frame (N : list nat) (s s' : mstate) : Prop := {
  fr_run : ms_dirruns s' = ms_dirruns s;
  fr_outer : ms_outermost s' = ms_outermost s;
  fr_done : ms_done s' = ms_done s;
  fr_holds : forall key e c cl, c_name cl ∉ N -> holds s' key e c cl -> holds s key e c cl;
  fr_cells : forall c cl, c_name cl ∉ N -> ms_cells s !! c = Some cl -> ms_cells s' !! c = Some cl
}.

Lemma mframe_refl N s : frame N s s.
Proof. by split. Qed.

Lemma mframe_trans N s1 s2 s3 : frame N s1 s2 -> frame N s2 s3 -> frame N s1 s3.
Proof. intros [] []. split; try congruence; eauto. Qed.

Lemma frame_mono N N' s s' : N ⊆ N' -> frame N s s' -> frame N' s s'.
Proof. intros HN []. split; eauto; intros; set_solver. Qed.

Lemma frame_entry name s e key c cl : ms_cells s !! c = Some cl -> c_name cl = name -> frame [name] s (set_unique e key (UCell c) s).
Proof.
  intros Hc Hn. split; try done. intros key' e' c' cl' Hn' [Hu Hc']. split; [|done]. cbn in Hu.
  apply lookup_insert_Some in Hu as [[E [= ->]]|[_ Hu]]; [|done]. cbn in Hc'. rewrite Hc in Hc'. injection Hc' as <-. set_solver.
Qed.

Lemma frame_result name s c v cl : ms_cells s !! c = Some cl -> c_name cl = name ->
  frame [name] s (set_cells (alter (fun cl => Cell (c_run cl) (c_name cl) v) c) s).
Proof.
  intros Hc Hn. split; try done.
  - intros key e c' cl' Hn' [Hu Hc']. split; [done|]. cbn in Hc'. destruct (decide (c = c')) as [<-|Hne].
    + rewrite list_lookup_alter_eq, Hc in Hc'. injection Hc' as <-. cbn in Hn'. set_solver.
    + by rewrite list_lookup_alter_ne in Hc'.
  - intros c' cl' Hn' Hc'. cbn. rewrite list_lookup_alter_ne; [done|]. intros ->. rewrite Hc in Hc'. injection Hc' as <-. set_solver.
Qed.

Lemma frame_new name s cl : refs_ok s -> frame [name] s (set_cells (fun l => l ++ [cl]) s).
Proof.
  intros Hw. split; try done.
  - intros key e c cl' Hn [Hu Hc]. split; [done|]. cbn in *. apply Hw in Hu. by rewrite lookup_app_l in Hc.
  - intros c cl' Hn Hc. cbn. by apply lookup_app_l_Some.
Qed.

Lemma frame_index N s p key run k diff : frame N s (set_unique p key (UIndex run k diff) s).
Proof.
  split; try done. intros key' e' c' cl' _ [Hu Hc]. split; [|done]. cbn in Hu. by apply lookup_insert_Some in Hu as [[_ [=]]|[_ Hu]].
Qed.

(** ** What a state has to be for a run *)

Section runs.
Context (ul : N -> jstr) (d : dom) `{!DomLaws d} (xml : bool) (context : nat) (outer : option ocontext).

Definition good (s : mstate) : Prop := refs_ok s /\ index_ok d s /\ ms_outermost s = outer.

Lemma good_entry e key c s : (c < length (ms_cells s))%nat -> good s -> good (set_unique e key (UCell c) s).
Proof.
  intros Hc (Hw & Hi & Ho). split_and!; [| |done].
  - intros e' key' c' Hu. cbn in Hu |- *. apply lookup_insert_Some in Hu as [[_ [= ->]]|[_ Hu]]; [done|by eapply Hw].
  - intros p key' k diff Hu. cbn in Hu. apply lookup_insert_Some in Hu as [[_ [=]]|[_ Hu]]. by eapply Hi.
Qed.

Lemma good_result c v s : good s -> good (set_cells (alter (fun cl => Cell (c_run cl) (c_name cl) v) c) s).
Proof. intros (Hw & Hi & Ho). split_and!; [|done..]. intros e key c' Hu. cbn. rewrite length_alter. by eapply Hw. Qed.

Lemma good_new cl s : good s -> good (set_cells (fun l => l ++ [cl]) s).
Proof. intros (Hw & Hi & Ho). split_and!; [|done..]. intros e key c' Hu. cbn. rewrite length_app. apply Hw in Hu. cbn. lia. Qed.

Lemma good_index p key k diff s : index_right d p k diff -> good s -> good (set_unique p key (UIndex (ms_dirruns s) k diff) s).
Proof.
  intros Hr (Hw & Hi & Ho). split_and!; [| |done].
  - intros e' key' c' Hu. cbn in Hu. apply lookup_insert_Some in Hu as [[_ [=]]|[_ Hu]]. by eapply Hw.
  - intros p' key' k' diff' Hu. cbn in Hu. apply lookup_insert_Some in Hu as [[[= <- <-] [= <- <-]]|[_ Hu]]; [done|by eapply Hi].
Qed.

(** ** Filters *)

(** What a filter answers, without memory. *)
Definition child_answer (type what : jstr) (first last : mval) (e : nat) : bool :=
  if decide (first = MNum 1 /\ last = MNum 0) then bool_decide (is_Some (parentNode d e))
  else bool_decide (is_Some (parentNode d e)) &&
       let ofType := bool_decide (what = str "of-type") in
       if decide (take 3 type = str "nth") then
         match first, last with
         | MNum a, MNum b => nth_test (child_number ul d ofType (negb (bool_decide (drop (length type - 4) type = str "last"))) e) a b
         | _, _ => false
         end
       else child_simple ul d type ofType e.

Definition filter_answer (f : efilter) (e : nat) : bool :=
  match f with
  | FTag any name => any || bool_decide (nodeName d e <> []) && name_is ul d e name
  | FClass name => class_test name (class_text d e) true
  | FAttr name operator check => filter_ATTR ul d name operator check e
  | FId id => bool_decide (getAttribute d e (str "id") = Some id)
  | FChild type what first last => child_answer type what first last e
  | FPseudo p => filter_pseudo ul d p e
  end.

(** The form whose memory may be wrong: [:nth-last-child], in a document of HTML. *)
Definition counts_back (f : efilter) : bool :=
  match f with
  | FChild type what first last =>
      negb (bool_decide (first = MNum 1 /\ last = MNum 0)) && bool_decide (take 3 type = str "nth")
      && bool_decide (drop (length type - 4) type = str "last") && negb xml && negb (bool_decide (what = str "of-type"))
  | _ => false
  end.

Lemma index_forward_right type p e s : parentNode d e = Some p -> is_element d e = true -> good s ->
  exists k, index_forward d type p e s = (Ok (child_number ul d false true e), set_unique p type (UIndex (ms_dirruns s) k (child_number ul d false true e)) s)
    /\ index_right d p k (child_number ul d false true e).
Proof.
  intros Hp He (Hw & Hi & _).
  assert (forall a b, childNodes d p = a ++ e :: b -> index_right d p (Z.of_nat (length a)) (child_number ul d false true e)) as Hr.
  { intros a b E. split; [lia|]. exists a, e, b. split_and!; [done..|]. by apply (number_elements ul d e p a b). }
  unfold index_forward. rewrite sm_get_bind. unfold id.
  assert (exists k, seek d e (from_first d p) 0 0 = Some (k, child_number ul d false true e) /\ index_right d p k (child_number ul d false true e)) as (k & Hs & Hk).
  { destruct (place d e p Hp) as (a & b & E & Ha & Hb). exists (Z.of_nat (length a)). split; [|by apply (Hr a b)].
    rewrite from_first_children, E, seek_finds, (number_elements ul d e p a b) by done. done. }
  rewrite Hs. clear Hs.
  match goal with |- context [match ?m with Some r => Some r | None => _ end] =>
    assert (m = None \/ exists k, m = Some (k, child_number ul d false true e) /\ index_right d p k (child_number ul d false true e)) as Hm end.
  2: destruct Hm as [-> |(k' & -> & Hk')]; [by exists k|by exists k'].
  destruct (ms_unique s !! (p, type)) as [[c|run k0 diff|run diff]|] eqn:Eu; try (by left).
  destruct ((run =? ms_dirruns s) && negb (k0 =? 0)) eqn:Ek; [|by left]. apply andb_true_iff in Ek as [Er%Z.eqb_eq _]. subst run.
  destruct (Hi _ _ _ _ Eu) as (_ & pre & x & post & Ex & Hx & Hl & Hd). rewrite <- Hl, Nat2Z.id, Ex, list_lookup_middle by done.
  rewrite (walk_next d), (children_siblings d p x), Ex by (rewrite Ex; set_solver).
  pose proof (children_once p) as Hnd. pose proof (once_split _ pre post x Hnd Ex) as [Hx1 Hx2]. rewrite after_app by done.
  destruct (decide (e ∈ post)) as [Hin|Hin]; [|left; by apply seek_fails]. right.
  apply list_elem_of_split in Hin as (q & r & ->). assert (childNodes d p = (pre ++ x :: q) ++ e :: r) as E' by (by rewrite Ex, <- app_assoc).
  pose proof (once_split _ _ _ _ Hnd E') as [He' _]. exists (Z.of_nat (length (pre ++ x :: q))). split; [|by apply (Hr _ r)].
  rewrite seek_finds by (done || set_solver). rewrite (number_elements ul d e p _ _ Hp E'), elements_app. change (x :: q) with ([x] ++ q).
  rewrite elements_app, !length_app. unfold elements at 3. cbn [List.filter length]. rewrite Hx. cbn [length]. f_equal. f_equal; lia.
Qed.

(** A run that answers [b] and leaves a good state, in which only the combinators [N]
    remember more. *)
Definition answers (N : list nat) (m : SM mstate bool) (b : bool) (s : mstate) (Q : mstate -> Prop) : Prop :=
  exists s', m s = (Ok b, s') /\ good s' /\ frame N s s' /\ Q s'.

Lemma answers_ret N b s (Q : mstate -> Prop) : good s -> Q s -> answers N (mret b) b s Q.
Proof. intros Hs HQ. exists s. split_and!; [done..|apply mframe_refl|done]. Qed.

Lemma filter_answers N f e s : counts_back f = false -> is_element d e = true -> good s ->
  answers N (run_filter ul d f xml e) (filter_answer f e) s (fun _ => True).
Proof.
  intros Hc He Hs. destruct f as [any n|n|n o v|id|type what a b|p]; [by apply answers_ret..| |by apply answers_ret].
  cbn [run_filter filter_answer counts_back] in *. unfold filter_CHILD, child_answer.
  destruct (decide (a = MNum 1 /\ b = MNum 0)) as [H1|H1]; [by apply answers_ret|].
  destruct (parentNode d e) as [p|] eqn:Hp; [|by apply answers_ret]. rewrite (bool_decide_eq_true_2 (is_Some (Some p))) by eauto. cbn [andb].
  destruct (decide (take 3 type = str "nth")) as [Ht|Ht]; [|by apply answers_ret].
  rewrite (bool_decide_eq_false_2 _ H1), (bool_decide_eq_true_2 _ Ht) in Hc. cbn [negb andb] in Hc.
  set (forward := negb (bool_decide (drop (length type - 4) type = str "last"))) in *.
  set (ofType := bool_decide (what = str "of-type")) in *.
  assert (exists s', (if forward && (negb xml && negb ofType) then index_forward d type p e
    else if negb xml && negb ofType then index_last d type p e
    else mret (count_to (same_kind ul d ofType (low ul (nodeName d e))) e (if forward then from_first d p else from_last d p) 0)) s
    = (Ok (child_number ul d ofType forward e), s') /\ good s' /\ frame N s s') as (s' & E & Hg & Hf).
  { destruct (negb xml && negb ofType) eqn:Eu.
    - destruct forward eqn:Ef; cbn [andb].
      + apply andb_true_iff in Eu as [_ Eo]. apply negb_true_iff in Eo. rewrite Eo in *. clear Eo.
        destruct (index_forward_right type p e s Hp He Hs) as (k & E & Hk). rewrite E. eexists. split_and!; [done|by apply good_index|apply frame_index].
      + exfalso. subst forward ofType. apply negb_false_iff in Ef. rewrite Ef in Hc. cbn [andb] in Hc. congruence.
    - rewrite andb_false_r. rewrite (count_number ul d ofType forward e p) by done. exists s. split_and!; [done..|apply mframe_refl]. }
  unfold answers. rewrite (sm_bind_eq _ _ _ _ _ E). destruct a, b; exists s'; by split_and!.
Qed.

(** ** Matchers *)

(** The combinators of a matcher. *)
Fixpoint names (m : matcher) : list nat :=
  match m with
  | MComb m _ _ n => n :: names m
  | MAll ms => flat_map names ms
  | MLeading _ m => names m
  | MFilter _ | MIsContext => []
  end.

Definition candidates (r : relation) (base : bool) (e : nat) : list nat := List.filter (passes d r base) (walk d (r_dir r) e).

(** What a matcher answers, without memory. *)
Fixpoint answer (m : matcher) (e : nat) : bool :=
  match m with
  | MFilter f => filter_answer f e
  | MAll ms => forallb (fun m => answer m e) ms
  | MComb m r base _ =>
      if r_first r then match candidates r base e with x :: _ => answer m x | [] => false end
      else existsb (answer m) (candidates r base e)
  | MIsContext => (e =? context)%nat
  | MLeading leading m => (negb leading && (xml || negb match outer with Some (ONode c) => (c =? context)%nat | _ => false end)) || answer m e
  end.

(** The matchers that [matcherFromTokens] makes: names once, only the context is looked
    for among other nodes than elements. *)
Fixpoint shaped (m : matcher) : Prop :=
  match m with
  | MFilter f => counts_back f = false
  | MAll ms => (fix all ms := match ms with [] => True | m :: ms' => shaped m /\ all ms' end) ms
  | MComb m _ base _ => shaped m /\ (base = true -> m = MIsContext)
  | MIsContext => True
  | MLeading _ m => shaped m
  end.

(** What an element says for a combinator that looks at all nodes in its direction. *)
Definition from_here (m : matcher) (r : relation) (base : bool) (e : nat) : bool := answer m e || existsb (answer m) (candidates r base e).

Definition remembers (name : nat) (key : jstr) (g : nat -> bool) (s : mstate) : Prop :=
  forall e c cl, holds s key e c cl -> c_run cl = ms_dirruns s -> c_name cl = name -> c_result cl = Some (g e).

(** What is remembered of the combinators of a matcher in this run is right. *)
Fixpoint knows (m : matcher) (s : mstate) : Prop :=
  match m with
  | MComb m r base n => knows m s /\ (r_first r = false -> remembers n (dir_key (r_dir r)) (from_here m r base) s)
  | MAll ms => (fix all ms := match ms with [] => True | m :: ms' => knows m s /\ all ms' end) ms
  | MLeading _ m => knows m s
  | MFilter _ | MIsContext => True
  end.

Lemma remembers_frame N n key g s s' : n ∉ N -> frame N s s' -> remembers n key g s -> remembers n key g s'.
Proof.
  intros Hn Hf H e c cl Hh Hr Hc. apply (fr_holds _ _ _ Hf) in Hh; [|by rewrite Hc]. apply (H _ _ _ Hh); [|done].
  by rewrite Hr, (fr_run _ _ _ Hf).
Qed.

Lemma matcher_induction (P : matcher -> Prop) : (forall f, P (MFilter f)) -> (forall ms, Forall P ms -> P (MAll ms)) ->
  (forall m r base n, P m -> P (MComb m r base n)) -> P MIsContext -> (forall b m, P m -> P (MLeading b m)) -> forall m, P m.
Proof.
  intros H1 H2 H3 H4 H5. fix IH 1. intros [f|ms|m r base n| |b m]; [apply H1| |apply H3, IH|apply H4|apply H5, IH].
  apply H2. induction ms as [|m ms IHms]; [constructor|]. constructor; [apply IH|apply IHms].
Qed.

Lemma knows_frame N m s s' : (forall n, n ∈ names m -> n ∉ N) -> frame N s s' -> knows m s -> knows m s'.
Proof.
  intros Hn Hf. induction m as [f|ms IH|m r base n IH| |b m IH] using matcher_induction; cbn [knows names] in *; try done; [| |by apply IH].
  - induction IH as [|m ms Hm IH IHms]; [done|]. cbn [flat_map] in Hn. intros [H1 H2]. split.
    + apply Hm; [|done]. intros n Hi. apply Hn. set_solver.
    + apply IHms; [|done]. intros n Hi. apply Hn. set_solver.
  - intros [H1 H2]. split; [apply IH; [|done]; intros n' Hi; apply Hn; set_solver|]. intros Hr. eapply remembers_frame; [|done|by apply H2].
    apply Hn. set_solver.
Qed.

Lemma own_frame m name s s' : frame [name] s s' -> frame (name :: names m) s s'.
Proof. apply frame_mono. set_solver. Qed.

Lemma own_knows m name s s' : name ∉ names m -> frame [name] s s' -> knows m s -> knows m s'.
Proof. intros Hn Hf. eapply knows_frame; [|exact Hf]. intros n Hi. set_solver. Qed.

(** ** The loops of a combinator *)

Section loops.
Context (m : matcher) (ok : nat -> bool).
Context (k : nat -> SM mstate bool).
Hypothesis k_answers : forall e s, ok e = true -> good s -> knows m s -> answers (names m) (k e) (answer m e) s (knows m).

Lemma closest_answers l s : good s -> knows m s ->
  answers (names m) (closest ok k l) (match List.filter ok l with x :: _ => answer m x | [] => false end) s (knows m).
Proof.
  intros Hg Hk. induction l as [|e l IH]; cbn [closest List.filter]; [by apply answers_ret|].
  destruct (ok e) eqn:E; [by apply k_answers|done].
Qed.

Lemma any_of_answers l s : good s -> knows m s -> answers (names m) (any_of ok k l) (existsb (answer m) (List.filter ok l)) s (knows m).
Proof.
  revert s. induction l as [|e l IH]; intros s Hg Hk; cbn [any_of List.filter]; [by apply answers_ret|].
  destruct (ok e) eqn:E; [|by apply IH]. destruct (k_answers e s E Hg Hk) as (s1 & E1 & Hg1 & Hf1 & Hk1). cbn [existsb].
  unfold answers. rewrite (sm_bind_eq _ _ _ _ _ E1). destruct (answer m e); [by exists s1|].
  destruct (IH s1 Hg1 Hk1) as (s2 & E2 & Hg2 & Hf2 & Hk2). exists s2. split_and!; [done..|by eapply mframe_trans|done].
Qed.

(** The loop with memory.  The array [c], with the result [x], is held by the elements
    [visited]; what others hold of this combinator is right. *)
Context (key : jstr) (name c : nat) (g : nat -> bool).
Hypothesis name_new : name ∉ names m.

Definition held (visited : list nat) (x : option bool) (s : mstate) : Prop :=
  ms_cells s !! c = Some (Cell (ms_dirruns s) name x) /\
  forall e c' cl, holds s key e c' cl -> c_run cl = ms_dirruns s -> c_name cl = name ->
    (c' = c /\ e ∈ visited) \/ (c' <> c /\ c_result cl = Some (g e)).

Abbreviation with_result v s := (set_cells (alter (fun cl => Cell (c_run cl) (c_name cl) v) c) s).

Lemma held_result visited x v s : held visited x s -> held visited v (with_result v s) /\ frame [name] s (with_result v s).
Proof.
  intros [Hc Hh]. split; [split|by eapply frame_result].
  - cbn. by rewrite list_lookup_alter_eq, Hc.
  - intros e c' cl [Hu Hcl] Hr Hn. cbn in Hu, Hcl, Hr. destruct (decide (c' = c)) as [->|Hne].
    + destruct (Hh e c _ (conj Hu Hc)) as [[_ He]|[Hn' _]]; [done..|by left|congruence].
    + rewrite list_lookup_alter_ne in Hcl by done. by apply (Hh e c' cl).
Qed.

Lemma held_entry visited x e s : held visited x s -> held (e :: visited) x (set_unique e key (UCell c) s) /\ frame [name] s (set_unique e key (UCell c) s).
Proof.
  intros [Hc Hh]. split; [split; [done|]|by eapply frame_entry].
  intros e' c' cl [Hu Hcl] Hr Hn. cbn in Hu, Hcl, Hr. apply lookup_insert_Some in Hu as [[[= <-] [= <-]]|[_ Hu]].
  - left. split; [done|by left].
  - destruct (Hh e' c' cl (conj Hu Hcl)) as [[-> He]|?]; [done..|left; split; [done|by right]|by right].
Qed.

Lemma held_frame visited x s s' : frame (names m) s s' -> held visited x s -> held visited x s'.
Proof.
  intros Hf [Hc Hh]. split.
  - rewrite (fr_run _ _ _ Hf). by apply (fr_cells _ _ _ Hf).
  - intros e c' cl Hh' Hr Hn. apply (fr_holds _ _ _ Hf) in Hh'; [|by rewrite Hn]. apply (Hh e c' cl Hh'); [|done].
    by rewrite Hr, (fr_run _ _ _ Hf).
Qed.

Lemma held_remembers visited b s : held visited (Some b) s -> (forall e, e ∈ visited -> g e = b) -> remembers name key g s.
Proof.
  intros [Hc Hh] Hv e c' cl Hh' Hr Hn. destruct (Hh e c' cl Hh' Hr Hn) as [[-> He]|[_ E]]; [|done].
  destruct Hh' as [_ Hcl]. rewrite Hc in Hcl. injection Hcl as <-. cbn. by rewrite Hv.
Qed.

Lemma remembered_holds e s v : remembered key name e s = Some v ->
  exists c' cl, holds s key e c' cl /\ c_run cl = ms_dirruns s /\ c_name cl = name /\ c_result cl = v.
Proof.
  unfold remembered. destruct (ms_unique s !! (e, key)) as [[c'| |]|] eqn:Eu; try done. destruct (ms_cells s !! c') as [cl|] eqn:Ec; [|done].
  destruct ((c_run cl =? ms_dirruns s) && (c_name cl =? name)%nat) eqn:E; [|done]. apply andb_true_iff in E as [Hr%Z.eqb_eq Hn%Nat.eqb_eq].
  intros [= <-]. exists c', cl. by split_and!.
Qed.

Abbreviation all_right := (fun s => knows m s /\ remembers name key g s).

Lemma any_remembered_answers l visited x s : held visited x s -> good s -> knows m s -> NoDup l -> (forall e, e ∈ l -> e ∉ visited) ->
  (forall pre e l', l = pre ++ e :: l' -> g e = answer m e || existsb (answer m) (List.filter ok l')) ->
  (forall e, e ∈ visited -> g e = existsb (answer m) (List.filter ok l)) -> (visited = [] \/ x = Some false) ->
  answers (name :: names m) (any_remembered ok k key name c l) (existsb (answer m) (List.filter ok l)) s all_right.
Proof.
  revert visited x s. induction l as [|e l IH]; intros visited x s Hh Hg Hk Hnd Hl Hgl Hv Hx; cbn [any_remembered List.filter].
  { apply answers_ret; [done|]. split; [done|]. destruct Hx as [->| ->]; [|by eapply held_remembers].
    intros e c' cl Hh' Hr Hn. destruct Hh as [_ Hh]. destruct (Hh e c' cl Hh' Hr Hn) as [[_ ?%elem_of_nil]|[_ E]]; done. }
  apply NoDup_cons in Hnd as [He Hnd]. assert (forall pre e l', l = pre ++ e :: l' -> g e = answer m e || existsb (answer m) (List.filter ok l')) as Hgl'
    by (intros pre e0 l' ->; by apply (Hgl (e :: pre))).
  destruct (ok e) eqn:Eok; [|apply (IH visited x); try done; [intros e' He'; apply Hl; by right|by intros e' He'; rewrite (Hv e' He'); cbn [List.filter]; rewrite Eok]].
  pose proof (Hgl [] e l eq_refl) as Hge. cbn [existsb]. rewrite <- Hge. unfold answers. rewrite sm_get_bind.
  destruct (remembered key name e s) as [v|] eqn:Er.
  - apply remembered_holds in Er as (c' & cl & Hhe & Hr & Hn & <-). destruct (proj2 Hh e c' cl Hhe Hr Hn) as [[_ Hin]|[_ ->]]; [by destruct (Hl e (list_elem_of_here _ _))|].
    destruct (held_result visited x (Some (g e)) s Hh) as [Hh' Hf]. exists (with_result (Some (g e)) s).
    split_and!; [|by apply good_result|by apply own_frame|by eapply (own_knows m name)|].
    + unfold set_result. rewrite sm_mod_bind. unfold mret, sm_ret. do 2 f_equal. by destruct (g e).
    + eapply held_remembers; [exact Hh'|]. intros e' He'. rewrite (Hv e' He'). cbn [List.filter]. by rewrite Eok.
  - rewrite sm_mod_bind. destruct (held_entry visited x e s Hh) as [Hh1 Hf1].
    assert (good (set_unique e key (UCell c) s)) as Hg1 by (apply good_entry; [by eapply lookup_lt_Some, (proj1 Hh)|done]).
    destruct (k_answers e _ Eok Hg1 (own_knows m name _ _ name_new Hf1 Hk)) as (s2 & E2 & Hg2 & Hf2 & Hk2). rewrite (sm_bind_eq _ _ _ _ _ E2).
    pose proof (held_frame _ _ _ _ Hf2 Hh1) as Hh2. destruct (held_result _ x (Some (answer m e)) s2 Hh2) as [Hh3 Hf3].
    assert (frame (name :: names m) s (with_result (Some (answer m e)) s2)) as Hf.
    { eapply mframe_trans; [by apply own_frame|]. eapply mframe_trans; [|by apply own_frame]. eapply frame_mono; [|exact Hf2]. set_solver. }
    pose proof (good_result c (Some (answer m e)) s2 Hg2) as Hg3. pose proof (own_knows m name _ _ name_new Hf3 Hk2) as Hk3.
    unfold set_result at 1. rewrite sm_mod_bind. destruct (answer m e) eqn:Ea.
    + exists (with_result (Some true) s2). split_and!; [by rewrite Hge|done..|]. eapply held_remembers; [exact Hh3|].
      intros e' [->|He']%elem_of_cons; [by rewrite Hge|]. rewrite (Hv e' He'). cbn [List.filter]. rewrite Eok. cbn. by rewrite Ea.
    + destruct (IH (e :: visited) (Some false) _ Hh3 Hg3 Hk3 Hnd) as (s4 & E4 & Hg4 & Hf4 & Hk4); [set_solver|done| |by right|].
      * intros e' [->|He']%elem_of_cons; [by rewrite Hge|]. rewrite (Hv e' He'). cbn [List.filter]. rewrite Eok. cbn. by rewrite Ea.
      * exists s4. split_and!; [by rewrite E4, Hge, ?Ea|done|eapply mframe_trans; [exact Hf|exact Hf4]|apply Hk4..].
Qed.
End loops.

(** ** Runs *)

Lemma answers_mono N N' m b s (Q Q' : mstate -> Prop) : N ⊆ N' -> (forall s', frame N s s' -> Q s' -> Q' s') -> answers N m b s Q -> answers N' m b s Q'.
Proof.
  intros HN HQ (s' & E & Hg & Hf & H). exists s'. split_and!; [done..|by eapply frame_mono|by apply HQ].
Qed.

(** What is asked of the element that a matcher is run on. *)
Definition may_ask (m : matcher) (e : nat) : Prop := is_element d e = true \/ m = MIsContext.

Definition run_right (m : matcher) : Prop := shaped m -> NoDup (names m) -> forall e s, may_ask m e -> good s -> knows m s ->
  answers (names m) (run ul d xml context m e) (answer m e) s (knows m).

Lemma all_right ms : Forall run_right ms -> run_right (MAll ms).
Proof.
  intros Hms. unfold run_right. cbn [shaped names run answer knows]. intros Hs Hn e s [He|He] Hg Hk; [|done].
  revert s Hs Hn Hg Hk. induction Hms as [|m ms Hm _ IH]; intros s Hs Hn Hg Hk; [by apply answers_ret|].
  cbn [flat_map forallb] in *. destruct Hs as [Hs1 Hs2]. destruct Hk as [Hk1 Hk2].
  apply NoDup_app in Hn as (Hn1 & Hd & Hn2). destruct (IH s Hs2 Hn2 Hg Hk2) as (s1 & E1 & Hg1 & Hf1 & Hk1').
  assert (knows m s1) as Hkm by (eapply knows_frame; [|exact Hf1|done]; intros n Hi Hi'; by apply (Hd n)).
  unfold answers. rewrite (sm_bind_eq _ _ _ _ _ E1). destruct (forallb _ ms).
  - destruct (Hm Hs1 Hn1 e s1) as (s2 & E2 & Hg2 & Hf2 & Hk2'); [by left|done..|]. exists s2. rewrite andb_true_r. split_and!; [done..| |done|].
    + eapply mframe_trans; eapply frame_mono; [|exact Hf1| |exact Hf2]; set_solver.
    + apply (knows_frame (names m) (MAll ms) s1 s2); [|done..]. cbn [names]. intros n Hi Hi'. by apply (Hd n).
  - exists s1. rewrite andb_false_r. split_and!; [done|done|eapply frame_mono; [|exact Hf1]; set_solver|done|done].
Qed.

Lemma comb_right m r base n : run_right m -> run_right (MComb m r base n).
Proof.
  intros Hm. unfold run_right. cbn [shaped names run answer knows]. intros [Hs Hb] [Hn Hnd]%NoDup_cons e s He Hg [Hk Hr].
  assert (forall e s, passes d r base e = true -> good s -> knows m s -> answers (names m) (run ul d xml context m e) (answer m e) s (knows m)) as Hka.
  { intros e' s' Ho Hg' Hk'. apply Hm; try done. unfold passes in Ho. apply orb_true_iff in Ho as [Ho|[Ho _]%andb_true_iff]; [by left|right; by apply Hb]. }
  unfold candidates. destruct (r_first r) eqn:Ef; [|destruct xml eqn:Ex].
  - eapply answers_mono; [| |by apply (closest_answers m _ _ Hka)]; [set_solver|]. intros s' _ Hk'. by split.
  - eapply answers_mono; [| |by apply (any_of_answers m _ _ Hka)]; [set_solver|]. intros s' Hf Hk'. split; [done|]. intros _.
    eapply remembers_frame; [exact Hn|exact Hf|by apply Hr].
  - set (s0 := set_cells (fun l => l ++ [Cell (ms_dirruns s) n None]) s). pose proof Hg as (Hw & _ & _).
    pose proof (frame_new n s (Cell (ms_dirruns s) n None) Hw) as Hf0.
    assert (held (dir_key (r_dir r)) n (length (ms_cells s)) (from_here m r base) [] None s0) as Hh.
    { split; [cbn; by rewrite lookup_app_r, Nat.sub_diag by done|]. intros e' c' cl [Hu Hcl] Hrun Hname. right. cbn in Hu, Hcl, Hrun.
      pose proof (Hw _ _ _ Hu) as Hlt. rewrite lookup_app_l in Hcl by done. split; [lia|]. by apply (Hr eq_refl e' c' cl). }
    destruct (any_remembered_answers m _ _ Hka _ n _ (from_here m r base) Hn (walk d (r_dir r) e) [] None s0 Hh) as (s' & E & Hg' & Hf & Hk' & Hr').
    + by apply good_new.
    + eapply own_knows; [exact Hn|exact Hf0|done].
    + by apply walk_NoDup.
    + intros e' _. apply not_elem_of_nil.
    + intros pre y l' El. apply (walk_suffix d) in El. unfold from_here, candidates. by rewrite El.
    + by intros y ?%elem_of_nil.
    + by left.
    + exists s'. split_and!; [exact E|done| |done|by intros _]. eapply mframe_trans; [|exact Hf]. eapply frame_mono; [|exact Hf0]. set_solver.
Qed.

(** A run answers what the matcher says without memory. *)
Lemma run_answers m : run_right m.
Proof.
  induction m as [f|ms IH|m r base n IH| |b m IH] using matcher_induction.
  - intros Hs _ e s [He|He] Hg _; [|done]. by apply filter_answers.
  - by apply all_right.
  - by apply comb_right.
  - intros _ _ e s _ Hg _. by apply answers_ret.
  - intros Hs Hn e s [He|He] Hg Hk; [|done]. cbn [run answer]. unfold answers. rewrite sm_get_bind. pose proof Hg as (_ & _ & ->).
    destruct (negb b && _); cbn [orb]; [by apply answers_ret|]. apply IH; [done..|by left|done|done].
Qed.
End runs.
