(* ===== verification/SizzleMatchProps.v ===== *)
(** * What selectors match

    What a selector means on a document, and that the engine answers it: after any
    earlier calls, whatever the caches and the elements remember of them. *)

From S2P Require Import Prelude JsNum JsVal Callbacks Text Classes ClassesProps Regex Sizzle SizzleFacts SizzleEscape SizzleMatch SizzleMatchFacts.

(** ** States between and in runs *)

(** References and runs are those that there have been; [L] arrays exist. *)
Definition sound (R : Z) (o : option ocontext) (L : nat) (s : mstate) : Prop :=
  refs_ok s /\ Forall (fun cl => c_run cl <= R) (ms_cells s)
  /\ (forall e key run k diff, ms_unique s !! (e, key) = Some (UIndex run k diff) -> run <= R)
  /\ ms_dirruns s = R /\ ms_outermost s = o /\ (L <= length (ms_cells s))%nat.

Section sound.
Context (R : Z) (o : option ocontext).

Lemma sound_entry L e key c s : (c < L)%nat -> sound R o L s -> sound R o L (set_unique e key (UCell c) s).
Proof.
  intros Hc (Hw & Hr & Hi & Hd & Ho & Hl). split_and!; [|done| |done..].
  - intros e' key' c' Hu. cbn in Hu |- *. apply lookup_insert_Some in Hu as [[_ [= ->]]|[_ Hu]]; [lia|by eapply Hw].
  - intros e' key' run k diff Hu. cbn in Hu. apply lookup_insert_Some in Hu as [[_ [=]]|[_ Hu]]. by eapply Hi.
Qed.

Lemma sound_index L e key u s : match u with UCell _ => False | UIndex run _ _ | ULast run _ => run = R end -> sound R o L s -> sound R o L (set_unique e key u s).
Proof.
  intros Hu0 (Hw & Hr & Hi & Hd & Ho & Hl). split_and!; [|done| |done..].
  - intros e' key' c' Hu. cbn in Hu |- *. apply lookup_insert_Some in Hu as [[_ ->]|[_ Hu]]; [done|by eapply Hw].
  - intros e' key' run k diff Hu. cbn in Hu. apply lookup_insert_Some in Hu as [[_ ->]|[_ Hu]]; [lia|by eapply Hi].
Qed.

Lemma sound_result L c v s : sound R o L s -> sound R o L (set_cells (alter (fun cl => Cell (c_run cl) (c_name cl) v) c) s).
Proof.
  intros (Hw & Hr & Hi & Hd & Ho & Hl). split_and!; cbn; try done.
  - intros e key c' Hu. cbn. rewrite length_alter. by eapply Hw.
  - by apply Forall_alter.
  - by rewrite length_alter.
Qed.

Lemma sound_new L name s : sound R o L s -> sound R o (S (length (ms_cells s))) (set_cells (fun l => l ++ [Cell (ms_dirruns s) name None]) s).
Proof.
  intros (Hw & Hr & Hi & Hd & Ho & Hl). split_and!; cbn; try done.
  - intros e key c' Hu. cbn. rewrite length_app. apply Hw in Hu. cbn. lia.
  - apply Forall_app. split; [done|]. apply Forall_singleton. cbn. lia.
  - rewrite length_app. cbn. lia.
Qed.

Lemma sound_weaken L L' s : (L' <= L)%nat -> sound R o L s -> sound R o L' s.
Proof. intros HL (Hw & Hr & Hi & Hd & Ho & Hl). split_and!; [done..|lia]. Qed.

Section run.
Context (ul : N -> jstr) (d : dom) (xml : bool) (context : nat) (L : nat).

Abbreviation ends m := (sm_runs (sound R o L) m (fun _ => True)).

Lemma set_index_ends e key u : match u with UCell _ => False | UIndex run _ _ | ULast run _ => run = R end -> ends (set_index e key u).
Proof. intros Hu. apply runs_mod. intros s. by apply sound_index. Qed.

Lemma mark_ends type e l diff : ends (mark d type e l diff).
Proof.
  revert diff. induction l as [|n l IH]; intros diff; cbn [mark]; [by apply runs_ret|]. destruct (is_element d n); [|apply IH].
  eapply runs_bind; [apply (runs_get _ _ (fun r => r = R)); by intros s (_ & _ & _ & ? & _)|]. intros r ->.
  eapply runs_bind; [by apply set_index_ends|]. intros _ _. destruct (n =? e)%nat; [by apply runs_ret|apply IH].
Qed.

Lemma index_last_ends type p e : ends (index_last d type p e).
Proof.
  eapply runs_bind; [by apply runs_read|]. intros s _. destruct (match ms_unique s !! (e, type) with Some (ULast run diff) => _ | _ => None end); [by apply runs_ret|].
  eapply runs_bind; [apply mark_ends|]. intros [n|] _; [by apply runs_ret|]. eapply runs_bind; [apply mark_ends|]. intros r _. by apply runs_ret.
Qed.

Lemma index_forward_ends type p e : ends (index_forward d type p e).
Proof.
  eapply runs_bind; [apply (runs_get _ _ (fun s => ms_dirruns s = R)); by intros s (_ & _ & _ & ? & _)|]. intros s Hs.
  cbv zeta. match goal with |- context [match ?m with Some r => Some r | None => _ end] => destruct m as [[k diff]|] end.
  2: destruct (seek _ _ _ _ _) as [[k diff]|]; [|by apply runs_ret].
  all: eapply runs_bind; [by apply set_index_ends|]; intros _ _; by apply runs_ret.
Qed.

Lemma filter_ends f e : ends (run_filter ul d f xml e).
Proof.
  destruct f as [any n|n|n op v|id|type what a b|p]; try by apply runs_ret. cbn [run_filter]. unfold filter_CHILD.
  destruct (decide _); [by apply runs_ret|]. destruct (parentNode d e) as [p|]; [|by apply runs_ret]. destruct (decide _); [|by apply runs_ret].
  eapply runs_bind.
  - destruct (_ && _); [apply index_forward_ends|]. destruct (_ && _); [apply index_last_ends|by apply runs_ret].
  - intros nr _. destruct a, b; by apply runs_ret.
Qed.

Lemma closest_ends ok k l : (forall e, ends (k e)) -> ends (closest ok k l).
Proof. intros Hk. induction l as [|e l IH]; cbn [closest]; [by apply runs_ret|]. destruct (ok e); [apply Hk|apply IH]. Qed.

Lemma any_of_ends ok k l : (forall e, ends (k e)) -> ends (any_of ok k l).
Proof.
  intros Hk. induction l as [|e l IH]; cbn [any_of]; [by apply runs_ret|]. destruct (ok e); [|apply IH].
  eapply runs_bind; [apply Hk|]. intros [|] _; [by apply runs_ret|apply IH].
Qed.

Lemma any_remembered_ends ok k key name c l : (c < L)%nat -> (forall e, ends (k e)) -> ends (any_remembered ok k key name c l).
Proof.
  intros Hc Hk. assert (forall v, ends (set_result c v)) as Hr by (intros v; apply runs_mod; intros s; apply sound_result).
  induction l as [|e l IH]; cbn [any_remembered]; [by apply runs_ret|]. destruct (ok e); [|apply IH].
  eapply runs_bind; [apply runs_read|]. intros [v|] _.
  - eapply runs_bind; [apply Hr|]. intros _ _. by apply runs_ret.
  - eapply runs_bind; [apply runs_mod; intros s; by apply sound_entry|]. intros _ _. eapply runs_bind; [apply Hk|]. intros b _.
    eapply runs_bind; [apply Hr|]. intros _ _. destruct b; [by apply runs_ret|apply IH].
Qed.
End run.

(** Every run of a matcher answers, also those whose answers are not the right ones. *)
Lemma run_ends ul d xml context m L e : sm_runs (sound R o L) (run ul d xml context m e) (fun _ => True).
Proof.
  revert L e. induction m as [f|ms IH|m r base n IH| |b m IH] using matcher_induction; intros L e; cbn [run].
  - apply filter_ends.
  - induction IH as [|m ms Hm _ IHms]; [by apply runs_ret|]. eapply runs_bind; [apply IHms|]. intros [|] _; [apply Hm|by apply runs_ret].
  - destruct (r_first r); [by apply closest_ends|]. destruct xml; [by apply any_of_ends|].
    intros s Hs. pose proof (sound_new L n s Hs) as Hn. unfold mbind, sm_bind, new_cache.
    destruct (any_remembered_ends (S (length (ms_cells s))) (passes d r base) (run ul d false context m) (dir_key (r_dir r)) n (length (ms_cells s))
      (walk d (r_dir r) e) ltac:(lia) (IH _) _ Hn) as (b & s' & E & _ & Hs').
    exists b, s'. split_and!; [done..|]. eapply sound_weaken; [|exact Hs']. destruct Hs as (_ & _ & _ & _ & _ & Hl). lia.
  - by apply runs_ret.
  - eapply runs_bind; [apply runs_read|]. intros x _. destruct (_ && _); [by apply runs_ret|apply IH].
Qed.
End sound.

(** ** The run of a selector *)

Section super.
Context (ul : N -> jstr) (d : dom) (xml : bool) (root : nat) (oc : ocontext).

Abbreviation says m e := (answer ul d xml root (Some oc) m e).

Lemma set_dirruns_same s : set_dirruns (ms_dirruns s) s = s.
Proof. by destruct s. Qed.

Lemma first_match_ends R o L ms e : sm_runs (sound R o L) (first_match ul d xml root ms e) (fun _ => True).
Proof.
  induction ms as [|m ms IH]; cbn [first_match]; [by apply runs_ret|]. eapply runs_bind; [apply run_ends|].
  intros [|] _; [by apply runs_ret|apply IH].
Qed.

Lemma match_each_ends R o L ms seed : sm_runs (sound R o L) (match_each ul d xml root ms R seed) (fun _ => True).
Proof.
  induction seed as [|e seed IH]; cbn [match_each]; [by apply runs_ret|]. eapply runs_bind; [apply first_match_ends|]. intros b _.
  eapply runs_bind; [apply runs_mod|].
  { intros s Hs. pose proof Hs as (_ & _ & _ & Hd & _). replace (set_dirruns R s) with s; [done|]. rewrite <- Hd. by rewrite set_dirruns_same. }
  intros _ _. eapply runs_bind; [apply IH|]. intros l _. by apply runs_ret.
Qed.

Context `{!DomLaws d}.

Lemma first_match_answers ms e s : Forall (shaped xml) ms -> NoDup (flat_map names ms) -> is_element d e = true ->
  good d (Some oc) s -> knows ul d xml root (Some oc) (MAll ms) s ->
  answers d (Some oc) (flat_map names ms) (first_match ul d xml root ms e) (existsb (fun m => says m e) ms) s
    (knows ul d xml root (Some oc) (MAll ms)).
Proof.
  intros Hs. revert s. induction Hs as [|m ms Hm _ IH]; intros s Hn He Hg Hk; cbn [first_match existsb]; [by apply answers_ret|].
  cbn [flat_map] in Hn. apply NoDup_app in Hn as (Hn1 & Hd & Hn2). destruct Hk as [Hk1 Hk2].
  destruct (run_answers ul d xml root (Some oc) m Hm Hn1 e s) as (s1 & E1 & Hg1 & Hf1 & Hk1'); [by left|done..|].
  assert (knows ul d xml root (Some oc) (MAll ms) s1) as Hk2'.
  { eapply (knows_frame ul d xml _ _ (names m) (MAll ms)); [|exact Hf1|exact Hk2]. cbn [names]. intros n Hi Hi'. by apply (Hd n). }
  unfold answers. rewrite (sm_bind_eq _ _ _ _ _ E1). destruct (says m e); cbn [orb].
  - exists s1. split_and!; [done|done| |by split]. eapply frame_mono; [|exact Hf1]. cbn [flat_map]. set_solver.
  - destruct (IH s1 Hn2 He Hg1 Hk2') as (s2 & E2 & Hg2 & Hf2 & Hk2''). exists s2. split_and!; [done|done| |split; [|done]].
    + eapply mframe_trans; eapply frame_mono; [|exact Hf1| |exact Hf2]; cbn [flat_map]; set_solver.
    + apply (knows_frame ul d xml root (Some oc) (flat_map names ms) m s1 s2); [|exact Hf2|exact Hk1']. intros n Hi Hi'. by apply (Hd n).
Qed.

Lemma match_each_answers ms seed R s : Forall (shaped xml) ms -> NoDup (flat_map names ms) -> Forall (fun e => is_element d e = true) seed ->
  good d (Some oc) s -> knows ul d xml root (Some oc) (MAll ms) s -> ms_dirruns s = R ->
  (match_each ul d xml root ms R seed s).1 = Ok (List.filter (fun e => existsb (fun m => says m e) ms) seed).
Proof.
  intros Hs Hn He. revert s. induction He as [|e seed He _ IH]; intros s Hg Hk Hr; cbn [match_each List.filter]; [done|].
  destruct (first_match_answers ms e s Hs Hn He Hg Hk) as (s1 & E1 & Hg1 & Hf1 & Hk1). rewrite (sm_bind_eq _ _ _ _ _ E1), sm_mod_bind.
  assert (ms_dirruns s1 = R) as Hr1 by (by rewrite (fr_run _ _ _ Hf1)). pose proof (IH s1 Hg1 Hk1 Hr1) as E2.
  assert (set_dirruns R s1 = s1) as -> by (rewrite <- Hr1; apply set_dirruns_same).
  unfold mbind, sm_bind. destruct (match_each _ _ _ _ _ _ _ s1) as [r s2]. cbn [fst] in E2. subst r. by destruct (existsb _ ms).
Qed.

(** The state when a run begins: nothing that is remembered is of this run. *)
Lemma start_good R L s : sound R None L s -> good d (Some oc) (set_outermost (Some oc) (set_dirruns (R + 1) s))
  /\ sound (R + 1) (Some oc) L (set_outermost (Some oc) (set_dirruns (R + 1) s)).
Proof.
  intros (Hw & Hr & Hi & Hd & Ho & Hl). split.
  - split_and!; [done| |done]. intros p key k diff Hu. cbn in Hu. apply Hi in Hu. lia.
  - split_and!; try done; cbn.
    + eapply Forall_impl; [exact Hr|]. cbn. lia.
    + intros e key run k diff Hu. apply Hi in Hu. lia.
Qed.

Lemma start_knows R L m s : sound R None L s -> knows ul d xml root (Some oc) m (set_outermost (Some oc) (set_dirruns (R + 1) s)).
Proof.
  intros (_ & Hr & _). induction m as [f|ms IH|m r base n IH| |b m IH] using matcher_induction; cbn [knows]; try done.
  - induction IH as [|m ms Hm _ IHms]; [done|]. by split.
  - split; [done|]. intros _ e c cl [_ Hc] Hrun _. cbn in Hc, Hrun. rewrite Forall_forall in Hr. apply list_elem_of_lookup_2, Hr in Hc. lia.
Qed.

End super.

(** The node that a selector is matched from, and what is remembered of it as outermost. *)
Definition at_context (d : dom) (ctx : option nat) : nat := default (document d) ctx.
Definition outermost_of (d : dom) (ctx : option nat) : ocontext :=
  match ctx with Some c => if (c =? document d)%nat then OTrue else ONode c | None => OTrue end.

Section super_context.
Context (ul : N -> jstr) (d : dom) (xml : bool) (ctx : option nat).

Lemma super_ends R L ms seed s : sound R None L s ->
  exists l s', superMatcher ul d ms seed ctx xml s = (Ok l, s') /\ sound (R + 1) None L s'.
Proof.
  intros Hs. pose proof Hs as (_ & _ & _ & Hd & Ho & _). destruct (start_good d (outermost_of d ctx) R L s Hs) as [_ Hs1]. unfold superMatcher.
  rewrite !sm_get_bind, Hd, Ho, !sm_mod_bind. fold (at_context d ctx) (outermost_of d ctx).
  destruct (match_each_ends ul d xml (at_context d ctx) _ _ L ms seed _ Hs1) as (l & s' & E & _ & Hs').
  rewrite (sm_bind_eq _ _ _ _ _ E), !sm_mod_bind. exists l. eexists. split; [done|].
  destruct Hs' as (Hw & Hr & Hi & Hd' & Ho' & Hl). by split_and!.
Qed.

Lemma super_answers `{!DomLaws d} R L ms seed s : sound R None L s -> Forall (shaped xml) ms -> NoDup (flat_map names ms) ->
  Forall (fun e => is_element d e = true) seed ->
  (superMatcher ul d ms seed ctx xml s).1
  = Ok (List.filter (fun e => existsb (fun m => answer ul d xml (at_context d ctx) (Some (outermost_of d ctx)) m e) ms) seed).
Proof.
  intros Hs Hms Hn He. pose proof Hs as (_ & _ & _ & Hd & Ho & _). destruct (start_good d (outermost_of d ctx) R L s Hs) as [Hg _]. unfold superMatcher.
  rewrite !sm_get_bind, Hd, Ho, !sm_mod_bind. fold (at_context d ctx) (outermost_of d ctx).
  pose proof (match_each_answers ul d xml (at_context d ctx) (outermost_of d ctx) ms seed (R + 1) _ Hms Hn He Hg
    (start_knows ul d xml (at_context d ctx) (outermost_of d ctx) R L (MAll ms) s Hs) eq_refl) as E.
  unfold mbind, sm_bind. destruct (match_each _ _ _ _ _ _ _ _) as [r s']. cbn [fst] in E. by subst r.
Qed.
End super_context.

(** ** What a selector means *)

Section meaning.
Context (ul : N -> jstr) (d : dom).

(** The nodes above a node. *)
Inductive above : nat -> nat -> Prop :=
  | above_parent e p : parentNode d e = Some p -> above e p
  | above_more e p q : parentNode d e = Some p -> above p q -> above e q.

(** The nodes before a node, below the same parent. *)
Definition earlier (e e' : nat) : Prop := exists a b c, siblings d e = a ++ e' :: b ++ e :: c.

(** The nodes in the direction of a relation, from near to far. *)
Definition reaches (r : relation) : nat -> nat -> Prop := match r_dir r with DPrev => earlier | _ => above end.

(** The element that a combinator leads to: any in its direction, or the nearest one. *)
Definition related (r : relation) (e e' : nat) : Prop :=
  reaches r e e' /\ is_element d e' = true
  /\ (r_first r = true -> forall x, reaches r e x -> is_element d x = true -> x = e' \/ reaches r e' x).

(** A combinator at the beginning of a selector is from the context, which may be any node
    above. *)
Definition leading (r : relation) (ctx e : nat) : Prop :=
  match r_dir r with
  | DParent => if r_first r then parentNode d e = Some ctx else above e ctx
  | _ => related r e ctx
  end.

(** Positions: [:nth-child(an+b)] and the like hold of the numbers [a * k + b]. *)
Definition child_means (type what : jstr) (first last : mval) (e : nat) : Prop :=
  is_Some (parentNode d e) /\
  let ofType := bool_decide (what = str "of-type") in
  let alone r := forall x, x ∈ walk d r e -> same_kind ul d ofType (low ul (nodeName d e)) x = false in
  if decide (take 3 type = str "nth") then
    exists a b k, first = MNum a /\ last = MNum b /\ 0 <= k /\ child_number ul d ofType (bool_decide (type = str "nth")) e = a * k + b
  else if decide (type = str "first") then alone DPrev
  else if decide (type = str "last") then alone DNext
  else alone DPrev /\ alone DNext.

(** An operator between an attribute and a value. *)
Definition attr_means (operator : mval) (check : jstr) (value : option jstr) : Prop :=
  match value with
  | None => operator = MStr (str "!=")
  | Some v =>
      operator = MUndef
      \/ operator = MStr (str "=") /\ v = check
      \/ operator = MStr (str "!=") /\ v <> check
      \/ operator = MStr (str "^=") /\ check <> [] /\ (exists r, v = check ++ r)
      \/ operator = MStr (str "*=") /\ check <> [] /\ (exists l r, v = l ++ check ++ r)
      \/ operator = MStr (str "$=") /\ check <> [] /\ (exists l, v = l ++ check)
      \/ operator = MStr (str "~=") /\ (exists w, w ∈ words v /\ check = chr " " :: w ++ [chr " "])
      \/ operator = MStr (str "|=") /\ (v = check \/ exists r, v = check ++ chr "-" :: r)
  end.

Definition means (f : efilter) (e : nat) : Prop :=
  match f with
  | FTag any name => any = true \/ nodeName d e <> [] /\ low ul (nodeName d e) = name
  | FClass name => name ∈ words (class_text d e)
  | FAttr name operator check => attr_means operator check (attr ul d e name)
  | FId id => getAttribute d e (str "id") = Some id
  | FChild type what first last => child_means type what first last e
  | FPseudo p => filter_pseudo ul d p e = true
  end.

(** The filters whose meaning is this: names and values without white space, operators and
    positions as [tokenize] writes them. *)
Definition operators : list mval := MUndef :: List.map (fun t => MStr (str t)) ["="; "!="; "^="; "*="; "$="; "~="; "|="]%string.

Definition plain (f : efilter) : Prop :=
  match f with
  | FClass name => Text.token name
  | FAttr _ operator check => operator ∈ operators /\ (operator = MStr (str "~=") -> exists w, Text.token w /\ check = chr " " :: w ++ [chr " "])
  | FChild type what first last =>
      type ∈ List.map str ["only"; "first"; "last"; "nth"; "nth-last"]%string
      /\ (take 3 type = str "nth" -> exists a b, first = MNum a /\ last = MNum b)
      /\ (take 3 type <> str "nth" -> forall z, first <> MNum z)
  | _ => True
  end.

(** Names and words without white space. *)
Definition clean (f : efilter) : Prop :=
  match f with
  | FClass name => Text.token name
  | FAttr _ operator check => operator = MStr (str "~=") -> exists w, Text.token w /\ check = chr " " :: w ++ [chr " "]
  | _ => True
  end.

(** A token of a filter says this of an element. *)
Definition token_means (t : ftype) (matches : list mval) (e : nat) : Prop :=
  exists f, make_filter ul t matches = Ok (Some f) /\ means f e.

(** Where a selector is matched from: the document, or another node, below which the first
    elements are; only documents of HTML are so careful. *)
Context (ctx : option nat).

Definition inside (e : nat) : Prop :=
  match ctx with Some c => documentIsHTML d = false \/ c = document d \/ above e c | None => True end.

(** The tokens of a group from its end on. *)
Fixpoint selects (tokens : list token) (e : nat) : Prop :=
  match tokens with
  | [] => inside e
  | t :: tokens' =>
      match t_type t with
      | TFilter ft => token_means ft (t_matches t) e /\ selects tokens' e
      | TComb c => exists r, relative c = Some r /\
          match tokens' with [] => leading r (at_context d ctx) e | _ => exists e', related r e e' /\ selects tokens' e' end
      end
  end.

Definition group_selects (g : list token) (e : nat) : Prop := selects (rev g) e.
End meaning.

(** ** Filters and what they mean *)

Lemma class_test_spec name s free : class_test name s free = true <->
  exists a b, s = a ++ name ++ b /\ (a = [] /\ free = true \/ exists a' w, a = a' ++ [w] /\ is_html_white w = true)
    /\ (b = [] \/ exists w b', b = w :: b' /\ is_html_white w = true).
Proof.
  revert free. induction s as [|y s IH]; intros free; cbn [class_test]; rewrite orb_true_iff, !andb_true_iff, is_prefix_spec.
  - split.
    + intros [[[-> [b E]] _]|]; [|done]. symmetry in E. apply app_nil in E as [-> ->]. exists [], []. auto.
    + intros (a & b & E & Ha & Hb). symmetry in E. apply app_nil in E as [-> [-> ->]%app_nil]. left.
      destruct Ha as [[_ ->]|(a' & w & E & _)]; [|by destruct a']. split_and!; [done|by exists []|done].
  - rewrite IH. split.
    + intros [[[-> [b E]] Hb]|(a & b & -> & Ha & Hb)].
      * exists [], b. split; [done|]. split; [by left|]. rewrite E, drop_app_length in Hb. destruct b as [|w b]; [by left|]. right. by exists w, b.
      * exists (y :: a), b. split; [done|]. split; [|done]. right. destruct Ha as [[-> Hy]|(a' & w & -> & Hw)]; [by exists [], y|by exists (y :: a'), w].
    + intros (a & b & E & Ha & Hb). destruct a as [|x a].
      * left. destruct Ha as [[_ ->]|(a' & w & E' & _)]; [|by destruct a']. cbn [app] in E. split_and!; [done|by exists b|].
        rewrite E, drop_app_length. destruct Hb as [->|(w & b' & -> & Hw)]; done.
      * right. injection E as -> ->. exists a, b. split; [done|]. split; [|done]. destruct Ha as [[? _]|(a' & w & E' & Hw)]; [done|].
        destruct a' as [|z a']; injection E' as -> ->; [by left|right; by exists a', w].
Qed.

Lemma class_test_words name s : Text.token name -> class_test name s true = true <-> name ∈ words s.
Proof.
  intros Ht. rewrite class_test_spec. split.
  - intros (a & b & -> & Ha & Hb). assert (name ∈ words (name ++ b)) as Hn.
    { destruct Hb as [->|(w & b' & -> & Hw)]; [rewrite app_nil_r|rewrite (words_white name w b' Hw)]; rewrite words_token by done; set_solver. }
    destruct Ha as [[-> _]|(a' & w & -> & Hw)]; [done|]. rewrite <- app_assoc. cbn [app]. rewrite (words_white a' w _ Hw). set_solver.
  - intros (a & b & -> & Ha & Hb)%words_in. exists a, b. split; [done|]. split; [|done]. destruct Ha as [->|Ha]; [by left|by right].
Qed.

Lemma suffix_test (r c : jstr) : drop (length r - length c) r = c <-> exists l, r = l ++ c.
Proof.
  split.
  - intros E. exists (take (length r - length c) r). by rewrite <- E at 2; rewrite take_drop.
  - intros [l ->]. rewrite length_app, Nat.add_sub. by rewrite drop_app_length.
Qed.

Lemma dash_test (r c : jstr) : take (S (length c)) r = c ++ [chr "-"] <-> exists t, r = c ++ chr "-" :: t.
Proof.
  split.
  - intros E. exists (drop (S (length c)) r). rewrite <- (take_drop (S (length c)) r) at 1. rewrite E. by rewrite <- app_assoc.
  - intros [t ->]. change (c ++ chr "-" :: t) with (c ++ [chr "-"] ++ t). rewrite app_assoc.
    replace (S (length c)) with (length (c ++ [chr "-"])) by (rewrite length_app; cbn; lia). by rewrite take_app_length.
Qed.

Lemma words_collapse s : (forall cur, words_go cur (collapse false s) = words_go cur s) /\ words (collapse true s) = words s.
Proof.
  induction s as [|c s [IH1 IH2]]; [done|]. cbn [collapse]. unfold words in *. split.
  - intros cur. destruct (is_html_white c) eqn:E; cbn [app words_go].
    + rewrite E. change (is_html_white (chr " ")) with true. cbn. by rewrite IH2.
    + rewrite E. apply IH1.
  - destruct (is_html_white c) eqn:E; cbn [app words_go]; rewrite E; [by rewrite IH2|by rewrite IH1].
Qed.

Lemma collapse_spaces w s : Forall (fun c => is_html_white c = true -> c = chr " ") (collapse w s).
Proof.
  revert w. induction s as [|c s IH]; intros w; cbn [collapse]; [constructor|]. destruct (is_html_white c) eqn:E; [|constructor; [congruence|apply IH]].
  destruct w; [apply IH|]. constructor; [done|apply IH].
Qed.

Lemma word_test w v : Text.token w -> contains (chr " " :: w ++ [chr " "]) (chr " " :: collapse false v ++ [chr " "]) = true <-> w ∈ words v.
Proof.
  intros Hw. change (chr " " :: w ++ [chr " "]) with (spaced_name w). rewrite contains_name; [|split_and!|done].
  - rewrite bool_decide_eq_true. change (chr " " :: collapse false v ++ [chr " "]) with ([] ++ chr " " :: collapse false v ++ [chr " "]).
    rewrite words_space, words_space. unfold words at 2. rewrite (proj1 (words_collapse v)). set_solver.
  - by eexists.
  - by exists (chr " " :: collapse false v).
  - constructor; [done|]. apply Forall_app. split; [apply collapse_spaces|]. by repeat constructor.
Qed.

Lemma nth_test_spec x a b : nth_test x a b = true <-> exists k, 0 <= k /\ x = a * k + b.
Proof.
  unfold nth_test. rewrite orb_true_iff, !andb_true_iff, negb_true_iff, !Z.eqb_eq, Z.eqb_neq, Z.leb_le. split.
  - intros [E|[[Ha Hr] Hq]]; [exists 1; lia|]. exists (Z.quot (x - b) a). split; [done|]. pose proof (Z.quot_rem' (x - b) a). lia.
  - intros (k & Hk & ->). replace (a * k + b - b) with (k * a) by ring. destruct (decide (a = 0)) as [->|Ha]; [left; lia|]. right.
    rewrite Z.rem_mul, Z.quot_mul by done. done.
Qed.

Section filter_meaning.
Context (ul : N -> jstr) (d : dom).

(** Of the cases of [attr_means], the one of an operator. *)
Ltac only_operator :=
  split; [intros H; repeat (first [solve [split; [reflexivity|exact H]] | solve [left; split; [reflexivity|exact H]] | right])
         |intros H; repeat (destruct H as [H|H]; [first [discriminate H | destruct H as [E H]; first [exact H | discriminate E]]|]);
          destruct H as [E H]; first [exact H | discriminate E]].

Lemma attr_right n op check e : plain (FAttr n op check) -> filter_ATTR ul d n op check e = true <-> attr_means op check (attr ul d e n).
Proof.
  intros [Ho Hw]. unfold filter_ATTR, attr_means. destruct (attr ul d e n) as [v|]; [|apply bool_decide_eq_true].
  unfold operators in Ho. cbn [List.map] in Ho. rewrite !elem_of_cons in Ho.
  destruct Ho as [->|[->|[->|[->|[->|[->|[->|[->|?%elem_of_nil]]]]]]]]; [split; auto|..|done].
  all: match goal with |- (if ?b then ?x else _) = _ <-> _ => change (if b then x else true) with x end.
  - change (attr_test (MStr (str "=")) check v) with (bool_decide (v = check)). rewrite bool_decide_eq_true. only_operator.
  - change (attr_test (MStr (str "!=")) check v) with (bool_decide (v <> check)). rewrite bool_decide_eq_true. only_operator.
  - change (attr_test (MStr (str "^=")) check v) with (bool_decide (check <> []) && is_prefix check v).
    rewrite andb_true_iff, bool_decide_eq_true, is_prefix_spec. only_operator.
  - change (attr_test (MStr (str "*=")) check v) with (bool_decide (check <> []) && contains check v).
    rewrite andb_true_iff, bool_decide_eq_true, contains_spec. only_operator.
  - change (attr_test (MStr (str "$=")) check v) with (bool_decide (check <> []) && bool_decide (drop (length v - length check) v = check)).
    rewrite andb_true_iff, !bool_decide_eq_true, suffix_test. only_operator.
  - change (attr_test (MStr (str "~=")) check v) with (contains check (chr " " :: collapse false v ++ [chr " "])).
    destruct (Hw eq_refl) as (w & Ht & ->). rewrite (word_test w v Ht).
    trans (exists w', w' ∈ words v /\ chr " " :: w ++ [chr " "] = chr " " :: w' ++ [chr " "]); [|only_operator].
    split; [intros H; by exists w|]. intros (w' & H & E). injection E as E. by apply app_inj_tail in E as [-> _].
  - change (attr_test (MStr (str "|=")) check v) with (bool_decide (v = check) || bool_decide (take (S (length check)) v = check ++ [chr "-"])).
    rewrite orb_true_iff, !bool_decide_eq_true, dash_test. only_operator.
Qed.

Lemma child_number_positive ofType forward e : 1 <= child_number ul d ofType forward e.
Proof. unfold child_number. lia. Qed.

Lemma child_simple_alone type what e : type ∈ List.map str ["only"; "first"; "last"]%string ->
  child_simple ul d type (bool_decide (what = str "of-type")) e = true <->
  (let alone r := forall x, x ∈ walk d r e -> same_kind ul d (bool_decide (what = str "of-type")) (low ul (nodeName d e)) x = false in
   if decide (type = str "first") then alone DPrev else if decide (type = str "last") then alone DNext else alone DPrev /\ alone DNext).
Proof.
  intros Ht. cbv zeta. unfold child_simple. generalize (bool_decide (what = str "of-type")) as ofType. intros ofType.
  assert (forall r, forallb (fun n => negb (same_kind ul d ofType (low ul (nodeName d e)) n)) (walk d r e) = true <->
    forall x, x ∈ walk d r e -> same_kind ul d ofType (low ul (nodeName d e)) x = false) as Hr.
  { intros r. rewrite forallb_forall. setoid_rewrite <- list_elem_of_In. by setoid_rewrite negb_true_iff. }
  cbn [List.map] in Ht. rewrite !elem_of_cons in Ht. destruct Ht as [->|[->|[->|?%elem_of_nil]]]; [| | |done].
  - change (bool_decide (drop (length (str "only") - 4) (str "only") = str "last")) with false. cbn [negb].
    rewrite decide_True by done. rewrite andb_true_iff, !Hr. by rewrite !decide_False by done.
  - change (bool_decide (drop (length (str "first") - 4) (str "first") = str "last")) with false. cbn [negb].
    rewrite decide_False by done. rewrite andb_true_r, Hr. by rewrite decide_True by done.
  - change (bool_decide (drop (length (str "last") - 4) (str "last") = str "last")) with true. cbn [negb].
    rewrite decide_False by done. rewrite andb_true_r, Hr. by rewrite decide_False, decide_True by done.
Qed.

Lemma child_right type what a b e : plain (FChild type what a b) -> child_answer ul d type what a b e = true <-> child_means ul d type what a b e.
Proof.
  intros (Ht & Hn & Hs). unfold child_answer, child_means. destruct (decide (take 3 type = str "nth")) as [Hnth|Hnth].
  - destruct (Hn Hnth) as (x & y & -> & ->).
    assert (negb (bool_decide (drop (length type - 4) type = str "last")) = bool_decide (type = str "nth")) as ->.
    { cbn [List.map] in Ht. rewrite !elem_of_cons in Ht. destruct Ht as [->|[->|[->|[->|[->|?%elem_of_nil]]]]]; done. }
    destruct (decide (MNum x = MNum 1 /\ MNum y = MNum 0)) as [[[= ->] [= ->]]|_].
    + rewrite bool_decide_eq_true. split; [|by intros [? _]]. intros Hp. split; [done|].
      pose proof (child_number_positive (bool_decide (what = str "of-type")) (bool_decide (type = str "nth")) e).
      eexists _, _, _. split_and!; [done..| |]; [|symmetry; rewrite Z.add_0_r; apply Z.mul_1_l]. lia.
    + rewrite andb_true_iff, bool_decide_eq_true, nth_test_spec. split; intros [Hp H]; (split; [done|]).
      * destruct H as (k & Hk & E). exists x, y, k. by split_and!.
      * destruct H as (x' & y' & k & [= <-] & [= <-] & Hk & E). by exists k.
  - rewrite decide_False by (intros [H _]; by apply (Hs Hnth 1)). rewrite andb_true_iff, bool_decide_eq_true.
    assert (type ∈ List.map str ["only"; "first"; "last"]%string) as Ht'.
    { cbn [List.map] in *. rewrite !elem_of_cons in *. destruct Ht as [->|[->|[->|[->|[->|?%elem_of_nil]]]]]; auto; by destruct Hnth. }
    by rewrite (child_simple_alone type what e Ht').
Qed.

(** The filters answer what they mean. *)
Lemma filter_right f e : plain f -> filter_answer ul d f e = true <-> means ul d f e.
Proof.
  destruct f as [any n|n|n op v|id|type what a b|p]; intros Hp; cbn [filter_answer means].
  - rewrite orb_true_iff, andb_true_iff. unfold name_is. by rewrite !bool_decide_eq_true.
  - by apply class_test_words.
  - by apply attr_right.
  - apply bool_decide_eq_true.
  - by apply child_right.
  - done.
Qed.

(** ** Combinators and what they mean *)

Context `{!DomLaws d}.

Lemma above_walk e x : above d e x <-> x ∈ walk d DParent e.
Proof.
  split.
  - induction 1 as [e p H|e p q H _ IH]; rewrite (walk_step d); cbn [step]; rewrite H; [by left|by right].
  - apply (walk_ind d DParent (fun e l => x ∈ l -> above d e x)); clear e; [by intros e _ ?%elem_of_nil|].
    intros e p H IH [->|Hx]%elem_of_cons; [by apply above_parent|]. eapply above_more; [exact H|by apply IH].
Qed.

Lemma earlier_walk e x : earlier d e x <-> x ∈ walk d DPrev e.
Proof.
  rewrite (walk_prev d). pose proof (siblings_NoDup d e) as Hn. split.
  - intros (a & b & c & E). assert (siblings d e = (a ++ x :: b) ++ e :: c) as E' by (by rewrite E, <- app_assoc).
    pose proof (once_split _ _ _ _ Hn E') as [He _]. rewrite E', nodes_before, app_nil_r, list_elem_of_In, <- in_rev, <- list_elem_of_In by done. set_solver.
  - intros Hx. unfold siblings in *. destruct (parentNode d e) as [p|] eqn:Hp; [|by apply elem_of_nil in Hx].
    destruct (place d e p Hp) as (a & b & E & Ha & _). rewrite E in Hx. rewrite nodes_before, app_nil_r, list_elem_of_In, <- in_rev, <- list_elem_of_In in Hx by done.
    apply list_elem_of_split in Hx as (a1 & a2 & ->). exists a1, a2, b. unfold siblings. by rewrite Hp, E, <- app_assoc.
Qed.

Lemma reaches_walk r e x : r_dir r <> DNext -> reaches d r e x <-> x ∈ walk d (r_dir r) e.
Proof. unfold reaches. destruct (r_dir r); [intros _; apply above_walk|intros _; apply earlier_walk|done]. Qed.

Lemma head_filter (p : nat -> bool) l x t : List.filter p l = x :: t -> exists pre l', l = pre ++ x :: l' /\ p x = true /\ forall y, y ∈ pre -> p y = false.
Proof.
  induction l as [|y l IH]; cbn [List.filter]; [done|]. destruct (p y) eqn:E.
  - intros [= -> _]. exists [], l. split_and!; [done..|by intros y ?%elem_of_nil].
  - intros (pre & l' & -> & Hx & Hp)%IH. exists (y :: pre), l'. split_and!; [done..|]. intros z [->|Hz]%elem_of_cons; auto.
Qed.

Lemma nearest r e x : r_dir r <> DNext ->
  (exists t, List.filter (is_element d) (walk d (r_dir r) e) = x :: t) <->
  reaches d r e x /\ is_element d x = true /\ forall y, reaches d r e y -> is_element d y = true -> y = x \/ reaches d r x y.
Proof.
  intros Hd. rewrite (reaches_walk r e x Hd). split.
  - intros [t E]. destruct (head_filter _ _ _ _ E) as (pre & l' & El & Hx & Hp). pose proof (walk_suffix d _ _ _ _ _ El) as ->.
    split_and!; [rewrite El; set_solver|done|]. intros y Hy He. apply (reaches_walk r e y Hd) in Hy. rewrite El in Hy.
    apply elem_of_app in Hy as [Hy|[->|Hy]%elem_of_cons]; [by rewrite Hp in He|by left|right; by apply (reaches_walk r x y Hd)].
  - intros (Hx & He & Hy). apply list_elem_of_split in Hx as (pre & l' & El). pose proof (walk_suffix d _ _ _ _ _ El) as ->.
    destruct (List.filter (is_element d) (walk d (r_dir r) e)) as [|z t] eqn:Ef.
    + exfalso. rewrite El, List.filter_app in Ef. cbn [List.filter] in Ef. rewrite He in Ef. by apply app_nil in Ef as [_ ?].
    + destruct (head_filter _ _ _ _ Ef) as (pre' & l2 & El2 & Hz & Hp). exists t. f_equal.
      destruct (Hy z) as [->|Hzx]; [apply (reaches_walk r e z Hd); rewrite El2; set_solver|done|done|].
      exfalso. apply (reaches_walk r x z Hd) in Hzx. pose proof (walk_suffix d _ _ _ _ _ El2) as ->.
      assert (x ∈ pre' ++ z :: walk d (r_dir r) z) as Hx by (rewrite <- El2, El; set_solver).
      apply elem_of_app in Hx as [Hx|[->|Hx]%elem_of_cons]; [by rewrite Hp in He|by apply (walk_not_self d) in Hzx|].
      apply (walk_rank d) in Hx. apply (walk_rank d) in Hzx. lia.
Qed.
End filter_meaning.

(** ** Filters of tokens are plain *)

(** The first group of a match of [child] is one of the names. *)
Lemma child_type s rest c : xexec child s = Some (rest, c) ->
  lower_ascii (text_of (group c 1)) ∈ List.map str ["only"; "first"; "last"; "nth"; "nth-last"]%string.
Proof.
  unfold xexec, child. cbn [XSeqs]. set (tail := XSeq (XChr (chr "-")) _). assert (1%nat ∉ groups_of tail) as Ht by (apply (bool_decide_unpack _); by vm_compute).
  cbn [xmatch XChr]. destruct s as [|y s]; [done|]. destruct (chr ":" =? y)%N; [|done].
  intros (p & u & s1 & Hp & -> & Hu & H)%words_inv; [|done].
  apply (xmatch_continues tail) in H as (s2 & c2 & (_ & _ & Hc) & [= _ <-]). specialize (Hc 1%nat Ht).
  unfold group. cbn [capture Nat.eqb] in *. rewrite Hc, between_app. cbn [text_of]. by rewrite Hu.
Qed.

Lemma opt_inv r k s c x : xmatch (XOpt r) k s c = Some x -> xmatch r k s c = Some x \/ k s c = Some x.
Proof. cbn [xmatch XOpt]. destruct (xmatch r k s c); [left|right]; done. Qed.

Lemma cls_inv p k s c x : xmatch (XCls p) k s c = Some x -> exists y s', s = y :: s' /\ p y = true /\ k s' c = Some x.
Proof. cbn [xmatch]. destruct s as [|y s]; [done|]. destruct (p y) eqn:E; [|done]. intros H. by exists y, s. Qed.

(** The second group of a match of [attributes] is an operator or nothing. *)
Lemma operator_text k s c x : xmatch (XSeq (XOpt (XOneOf (str "*^$|!~"))) (XChr (chr "="))) k s c = Some x ->
  exists o s1, s = o ++ s1 /\ MStr o ∈ operators /\ k s1 c = Some x.
Proof.
  change (xmatch (XOpt (XOneOf (str "*^$|!~"))) (xmatch (XChr (chr "=")) k) s c = Some x -> exists o s1, s = o ++ s1 /\ MStr o ∈ operators /\ k s1 c = Some x).
  intros [(y & s' & -> & Hy & (z & s1 & -> & Hz & Hk)%cls_inv)%cls_inv|(z & s1 & -> & Hz & Hk)%cls_inv]%opt_inv; apply N.eqb_eq in Hz as <-.
  - exists [y; chr "="], s1. split_and!; [done| |done]. apply bool_decide_eq_true in Hy.
    change (str "*^$|!~") with [chr "*"; chr "^"; chr "$"; chr "|"; chr "!"; chr "~"] in Hy. rewrite !elem_of_cons in Hy.
    destruct Hy as [->|[->|[->|[->|[->|[->|?%elem_of_nil]]]]]]; [apply (bool_decide_unpack _); by vm_compute..|done].
  - exists [chr "="], s1. split_and!; [done| |done]. apply (bool_decide_unpack _). by vm_compute.
Qed.

Lemma attr_operator s rest c : xexec (matchExpr ATTR) s = Some (rest, c) -> group c 2 ∈ operators.
Proof.
  unfold xexec. cbn [matchExpr]. unfold attributes. cbn [Nat.add].
  set (op := XSeq (XOpt (XOneOf (str "*^$|!~"))) (XChr (chr "="))). set (value := XAlts _).
  set (close := XSeq spaces (XChr (chr "]"))).
  assert (2%nat ∉ groups_of close /\ 2%nat ∉ groups_of (XSeq spaces value)) as [Hc Hv] by (split; apply (bool_decide_unpack _); by vm_compute).
  assert (2%nat ∉ groups_of (XSeqs [XChr (chr "["); spaces; XGroup 1 identifier]) /\ 2%nat ∉ groups_of spaces) as [Hb Hs] by (split; apply (bool_decide_unpack _); by vm_compute).
  intros H. change (xmatch (XSeqs [XChr (chr "["); spaces; XGroup 1 identifier])
    (xmatch (XOpt (XSeqs [spaces; XGroup 2 op; spaces; value])) (xmatch close (fun s' c' => Some (s', (0%nat, between s s') :: c')))) s [] = Some (rest, c)) in H.
  apply xmatch_continues in H as (s1 & c1 & (_ & _ & H1) & [H|H]%opt_inv).
  - change (xmatch spaces (xmatch (XGroup 2 op) (xmatch (XSeq spaces value) (xmatch close (fun s' c' => Some (s', (0%nat, between s s') :: c'))))) s1 c1 = Some (rest, c)) in H.
    apply xmatch_continues in H as (s2 & c2 & (_ & _ & H2) & H). apply operator_text in H as (o & s3 & -> & Ho & H).
    apply xmatch_continues in H as (s4 & c4 & (_ & _ & H4) & H). apply xmatch_continues in H as (s5 & c5 & (_ & _ & H5) & [= _ <-]).
    unfold group. cbn [capture Nat.eqb]. rewrite (H5 _ Hc), (H4 _ Hv). cbn [capture Nat.eqb]. by rewrite between_app.
  - apply xmatch_continues in H as (s5 & c5 & (_ & _ & H5) & [= _ <-]). unfold group. cbn [capture Nat.eqb]. rewrite (H5 _ Hc), (H1 _ Hb). by left.
Qed.

Section tokens.
Context (ul : N -> jstr).

Lemma make_filter_kind ft l f : make_filter ul ft l = Ok (Some f) ->
  match f with
  | FAttr name o v => ft = ATTR /\ l = [MStr name; o; MStr v]
  | FChild type what a b => ft = CHILD /\ exists x y, l = MStr type :: MStr what :: x :: a :: b :: y
  | _ => True
  end.
Proof.
  assert (forall n v, filter_PSEUDO ul n v = Ok (Some f) -> exists p, f = FPseudo p) as Hp.
  { assert (forall r : res (option pseudo), option_map FPseudo <$> r = Ok (Some f) -> exists p, f = FPseudo p) as Hr by (intros [[p|]|e|] [= <-]; by exists p).
    intros n v. unfold filter_PSEUDO. destruct (pseudo_named n v); [apply Hr|]. destruct (pseudo_named (low ul n) v); [apply Hr|done]. }
  intros E. unfold make_filter in E.
  destruct ft; repeat match type of E with context [match ?x with _ => _ end] => destruct x; try discriminate E end.
  1,3,4,6: injection E as <-; eauto.
  - by destruct (class_pattern s) as [n|]; [injection E as <-|].
  - by apply Hp in E as [p ->].
Qed.

Lemma token_filter_plain t ft f : good_token t -> t_type t = TFilter ft -> make_filter ul ft (t_matches t) = Ok (Some f) -> clean f -> plain f.
Proof.
  intros [_ Hg] Et Ef Hc. rewrite Et in Hg. destruct Hg as (parse & s & rest & c & Em & Hm). pose proof (make_filter_kind _ _ _ Ef) as Hk.
  destruct f as [any n|n|n o v|id|type what a b|p]; try done.
  - destruct Hk as [-> El]. cbn [preFilter] in Hm. injection Hm as _ Hm. rewrite El in Hm. injection Hm as _ <- _.
    split; [by eapply attr_operator|exact Hc].
  - destruct Hk as [-> (x & y & El)]. cbn [preFilter] in Hm. pose proof (child_type _ _ _ Em) as Ht.
    revert Hm. rewrite El. unfold preFilter_CHILD. cbn [matchExpr] in Em.
    destruct (decide (take 3 (lower_ascii (text_of (group c 1))) = str "nth")) as [Hn|Hn].
    + destruct (m_truthy (group c 3)); [|done]. intros [= _ <- _ _ <- <- _]. split_and!; [done|intros _; by do 2 eexists|done].
    + destruct (m_truthy (group c 3)); [done|]. intros [= _ <- _ _ <- _ _]. split_and!; [done|done|].
      intros _ z. unfold group. by destruct (capture c 4).
Qed.
End tokens.

(** ** How making matchers ends *)

Section outcomes.
Context (ul : N -> jstr).

(** Matchers are made, or a filter of the tokens is not modelled or throws. *)
Definition outcome {A} (tokens : list token) (r : res (option A)) : Prop :=
  let found x := exists t ft, t ∈ tokens /\ t_type t = TFilter ft /\ make_filter ul ft (t_matches t) = x in
  match r with Ok (Some _) => True | Ok None => found (Ok None) | Throw e => found (Throw e) | NoFuel => False end.

Lemma outcome_more {A B} tokens tokens' (r : res (option A)) (r' : res (option B)) : (forall t, t ∈ tokens -> t ∈ tokens') ->
  match r, r' with Ok (Some _), Ok (Some _) => True | Ok None, Ok None => True | Throw e, Throw e' => e = e' | NoFuel, NoFuel => True | _, _ => False end ->
  outcome tokens r -> outcome tokens' r'.
Proof. intros Ht. destruct r as [[a|]|e|], r' as [[b|]|e'|]; try done; unfold outcome; intros Hr; subst; naive_solver. Qed.

(** Only the names that are taken change. *)
Definition ends_with {A} (tokens : list token) (m : SM mstate (option A)) (s : mstate) : Prop :=
  exists r n, m s = (r, set_done n s) /\ (ms_done s <= n)%nat /\ outcome tokens r.

Lemma make_filter_ends ft l : make_filter ul ft l <> NoFuel.
Proof.
  assert (forall name v, pseudo_named name v <> Some NoFuel) as Hp by (intros name v; unfold pseudo_named; repeat case_match; by intros [=]).
  assert (forall name v, filter_PSEUDO ul name v <> NoFuel) as Hf.
  { intros name v. unfold filter_PSEUDO. pose proof (Hp name v) as H1. pose proof (Hp (low ul name) v) as H2.
    destruct (pseudo_named name v) as [[?|?|]|]; try done. by destruct (pseudo_named (low ul name) v) as [[?|?|]|]. }
  unfold make_filter. destruct ft; repeat case_match; try done; apply Hf.
Qed.

Lemma add_tokens_ends ms tokens s : Forall good_token tokens -> ends_with tokens (add_tokens ul ms tokens) s.
Proof.
  intros Hg. revert ms s. induction Hg as [|t tokens [_ Ht] Hg IH]; intros ms s; cbn [add_tokens].
  - exists (Ok (Some (elementMatcher ms))), (ms_done s). by destruct s.
  - destruct (t_type t) as [c|ft] eqn:Et.
    + assert (exists r, relative c = Some r) as [r Er].
      { cbn [List.map] in Ht. rewrite !elem_of_cons in Ht. destruct Ht as [->|[->|[->|[->|?%elem_of_nil]]]]; [by eexists..|done]. }
      rewrite Er. destruct (IH [MComb (elementMatcher ms) r false (ms_done s)] (set_done (S (ms_done s)) s)) as (x & n & E & Hn & Ho).
      exists x, n. cbn in Hn. split_and!; [exact E|lia|]. eapply (outcome_more _ _ x x); [by intros t' H; right| |exact Ho]. by destruct x as [[]| |].
    + pose proof (make_filter_ends ft (t_matches t)) as Hf. destruct (make_filter ul ft (t_matches t)) as [[f|]|e|] eqn:Ef; [|..|done].
      * destruct (IH (ms ++ [MFilter f]) s) as (x & n & E & Hn & Ho). exists x, n. split_and!; [|done|].
        { unfold mbind, sm_bind, sm_lift. exact E. }
        eapply (outcome_more _ _ x x); [by intros t' H; right| |exact Ho]. by destruct x as [[]| |].
      * exists (Ok None), (ms_done s). split_and!; [by destruct s|done|]. exists t, ft. split_and!; [by left|done..].
      * exists (Throw e), (ms_done s). split_and!; [by destruct s|done|]. exists t, ft. split_and!; [by left|done..].
Qed.

Lemma matcher_ends g s : group_ok g -> ends_with g (matcherFromTokens ul g) s.
Proof.
  intros [Hn Hg]. destruct g as [|t g]; [done|]. unfold matcherFromTokens.
  set (r := default _ _). set (b := bool_decide _).
  destruct (add_tokens_ends [MLeading b (MComb MIsContext r true (ms_done s))] (if b then g else t :: g) (set_done (S (S (ms_done s))) s)) as (x & n & E & Hn' & Ho).
  { apply Forall_cons in Hg as [H1 H2]. destruct b; [done|by constructor]. }
  exists x, n. cbn in Hn'. split_and!; [exact E|lia|]. eapply (outcome_more _ _ x x); [|by destruct x as [[]| |]|exact Ho].
  destruct b; [|done]. intros t' H. by right.
Qed.

Lemma groups_ends gs s : Forall group_ok gs -> ends_with (List.concat gs) (from_groups ul gs) s.
Proof.
  intros Hg. revert s. induction Hg as [|g gs Hg _ IH]; intros s; cbn [from_groups List.concat].
  { exists (Ok (Some [])), (ms_done s). by destruct s. }
  destruct (matcher_ends g s Hg) as (x & n & E & Hn & Ho). unfold ends_with, mbind, sm_bind. rewrite E.
  destruct x as [[m|]|e|]; [| | |done].
  - destruct (IH (set_done n s)) as (y & n' & E' & Hn' & Ho'). rewrite E'. exists (fmap (M:=option) (cons m) <$> y), n'.
    cbn in Hn'. split_and!; [by destruct y|lia|]. eapply (outcome_more _ _ y); [|by destruct y as [[]| |]|exact Ho'].
    intros t Ht. apply elem_of_app. by right.
  - exists (Ok None), n. split_and!; [done..|]. eapply (outcome_more g _ _ _); [intros t Ht; apply elem_of_app; by left| |exact Ho]. done.
  - exists (Throw e), n. split_and!; [done..|]. eapply (outcome_more g _ _ _); [intros t Ht; apply elem_of_app; by left| |exact Ho]. done.
Qed.
End outcomes.

(** ** What matchers answer *)

Lemma relative_dir c r : relative c = Some r -> r_dir r <> DNext.
Proof. unfold relative. repeat (destruct (decide _); [by intros [= <-]|]). done. Qed.

Section answers.
Context (ul : N -> jstr) (d : dom) `{!DomLaws d} (ctx : option nat).

Definition xml_of : bool := negb (documentIsHTML d).

(** What a matcher answers for a selector on a document, from a context. *)
Definition says (m : matcher) (e : nat) : bool := answer ul d xml_of (at_context d ctx) (Some (outermost_of d ctx)) m e.

(** A combinator leads to the elements that are related. *)
Lemma comb_says m r base n e : r_dir r <> DNext -> (forall x, passes d r base x = is_element d x) ->
  says (MComb m r base n) e = true <-> exists e', related d r e e' /\ says m e' = true.
Proof.
  intros Hd Hp. unfold says. cbn [answer]. unfold candidates.
  replace (List.filter (passes d r base) (walk d (r_dir r) e)) with (List.filter (is_element d) (walk d (r_dir r) e))
    by (apply filter_ext; intros x; by rewrite Hp).
  fold (says m). unfold related. destruct (r_first r).
  - split.
    + destruct (List.filter _ _) as [|x t] eqn:E; [done|]. intros Hs. exists x. split; [|done].
      destruct (proj1 (nearest d r e x Hd)) as (H1 & H2 & H3); [by exists t|]. by split_and!.
    + intros (e' & (H1 & H2 & H3) & Hs). destruct (proj2 (nearest d r e e' Hd)) as [t ->]; [|done]. split_and!; [done..|by apply H3].
  - rewrite existsb_exists. split.
    + intros (x & [Hx He]%filter_In & Hs). exists x. split_and!; [|done..]. apply (reaches_walk d r e x Hd). by apply list_elem_of_In.
    + intros (x & (H1 & H2 & _) & Hs). exists x. split; [|done]. apply filter_In. split; [|done]. apply list_elem_of_In. by apply (reaches_walk d r e x Hd).
Qed.

Lemma leading_says r n e : r_dir r <> DNext -> says (MComb MIsContext r true n) e = true <-> leading d r (at_context d ctx) e.
Proof.
  intros Hd. unfold leading. destruct (r_dir r) eqn:Er; [| |done].
  - unfold says. cbn [answer]. unfold candidates. rewrite Er.
    replace (List.filter (passes d r true) (walk d DParent e)) with (walk d DParent e)
      by (symmetry; apply forallb_filter_id, forallb_forall; intros x _; unfold passes; rewrite Er; apply orb_true_r).
    destruct (r_first r).
    + rewrite (walk_step d). cbn [step]. destruct (parentNode d e) as [p|]; [|done]. cbn [answer]. rewrite Nat.eqb_eq. split; [by intros ->|by intros [= ->]].
    + rewrite existsb_exists, (above_walk d). split; [intros (x & Hx & E); cbn [answer] in E; apply Nat.eqb_eq in E; subst x; by apply list_elem_of_In|].
      intros Hx. exists (at_context d ctx). split; [by apply list_elem_of_In|]. cbn [answer]. apply Nat.eqb_refl.
  - rewrite comb_says; [|by rewrite Er|intros x; unfold passes; rewrite Er; cbn; apply orb_false_r].
    unfold says. cbn [answer]. split; [intros (e' & H & E%Nat.eqb_eq); by subst|]. intros H. exists (at_context d ctx). split; [done|]. apply Nat.eqb_refl.
Qed.

Lemma elementMatcher_says ms e : says (elementMatcher ms) e = forallb (fun m => says m e) ms.
Proof. destruct ms as [|m [|m' ms]]; [done| |done]. cbn [elementMatcher forallb]. by rewrite andb_true_r. Qed.

Lemma elementMatcher_names ms : names (elementMatcher ms) = flat_map names ms.
Proof. destruct ms as [|m [|m' ms]]; [done| |done]. cbn [elementMatcher flat_map]. by rewrite app_nil_r. Qed.

Lemma shaped_all xml ms : shaped xml (MAll ms) <-> Forall (shaped xml) ms.
Proof. induction ms as [|m ms IH]; cbn [shaped] in *; [by split|]. by rewrite IH, Forall_cons. Qed.

Lemma elementMatcher_shaped xml ms : shaped xml (elementMatcher ms) <-> Forall (shaped xml) ms.
Proof. destruct ms as [|m [|m' ms]]; [apply shaped_all| |apply shaped_all]. by rewrite Forall_singleton. Qed.

(** ** Matchers of tokens *)

(** Matchers with names from [lo] on and before [hi] that say what [P] says of elements. *)
Record made (lo hi : nat) (P : nat -> Prop) (ms : list matcher) : Prop := {
  made_shaped : Forall (shaped xml_of) ms;
  made_once : NoDup (flat_map names ms);
  made_names n : n ∈ flat_map names ms -> (lo <= n < hi)%nat;
  made_says e : is_element d e = true -> forallb (fun m => says m e) ms = true <-> P e
}.

Lemma made_one lo hi P ms : made lo hi P ms -> made lo hi P [elementMatcher ms].
Proof.
  intros [H1 H2 H3 H4]. split.
  - by apply Forall_singleton, elementMatcher_shaped.
  - cbn. by rewrite app_nil_r, elementMatcher_names.
  - cbn. by rewrite app_nil_r, elementMatcher_names.
  - intros e He. cbn [forallb]. rewrite andb_true_r, elementMatcher_says. by apply H4.
Qed.

Lemma made_comb lo hi P ms r n : r_dir r <> DNext -> made lo hi P ms -> (hi <= n)%nat -> (lo <= n)%nat ->
  made lo (S n) (fun e => exists e', related d r e e' /\ P e') [MComb (elementMatcher ms) r false n].
Proof.
  intros Hd [H1 H2 H3 H4] Hn Hl. split; cbn [flat_map names].
  - apply Forall_singleton. cbn [shaped]. split; [by apply elementMatcher_shaped|done].
  - rewrite app_nil_r, elementMatcher_names. apply NoDup_cons. split; [|done]. intros Hi%H3. lia.
  - rewrite app_nil_r, elementMatcher_names. intros n' [->|Hi%H3]%elem_of_cons; lia.
  - intros e He. cbn [forallb]. rewrite andb_true_r, comb_says; [|done|intros x; unfold passes; cbn; apply orb_false_r].
    split; intros (e' & Hr & Hs); exists e'; (split; [done|]); rewrite elementMatcher_says in *; apply H4; try done; by apply Hr.
Qed.

Lemma made_filter lo hi P ms f : plain f -> counts_back xml_of f = false -> made lo hi P ms -> made lo hi (fun e => means ul d f e /\ P e) (ms ++ [MFilter f]).
Proof.
  intros Hf Hc [H1 H2 H3 H4]. assert (flat_map names (ms ++ [MFilter f]) = flat_map names ms) as E by (by rewrite flat_map_app, app_nil_r).
  split; [apply Forall_app; split; [done|by apply Forall_singleton]|by rewrite E..|].
  intros e He. rewrite forallb_app, andb_true_iff, H4 by done. cbn [forallb]. rewrite andb_true_r. unfold says. cbn [answer].
  rewrite filter_right by done. tauto.
Qed.

Lemma made_ext lo hi P Q ms : made lo hi P ms -> (forall e, P e <-> Q e) -> made lo hi Q ms.
Proof. intros [H1 H2 H3 H4] HE. split; [done..|]. intros e He. rewrite H4 by done. apply HE. Qed.

Lemma made_wider lo hi lo' hi' P ms : (lo' <= lo)%nat -> (hi <= hi')%nat -> made lo hi P ms -> made lo' hi' P ms.
Proof. intros Hl Hh [H1 H2 H3 H4]. split; [done..| |done]. intros n Hn%H3. lia. Qed.

(** A token of which the meaning is known. *)
Definition token_plain (t : token) : Prop :=
  match t_type t with
  | TFilter ft => forall f, make_filter ul ft (t_matches t) = Ok (Some f) -> plain f /\ counts_back xml_of f = false
  | TComb _ => True
  end.

(** A token without white space in its names and words, which does not count backwards. *)
Definition token_clean (t : token) : Prop :=
  match t_type t with
  | TFilter ft => forall f, make_filter ul ft (t_matches t) = Ok (Some f) -> clean f /\ counts_back xml_of f = false
  | TComb _ => True
  end.

Lemma clean_plain g : Forall good_token g -> Forall token_clean g -> Forall token_plain g.
Proof.
  intros Hg Hc. induction Hg as [|t g Ht Hg IH]; [constructor|]. apply Forall_cons in Hc as [H1 H2]. constructor; [|by apply IH].
  unfold token_plain, token_clean in *. destruct (t_type t) as [|ft] eqn:Et; [done|]. intros f Ef. destruct (H1 f Ef) as [H3 H4].
  split; [by eapply token_filter_plain|done].
Qed.

Definition starts_with_filter (tokens : list token) : Prop := match tokens with t :: _ => exists ft, t_type t = TFilter ft | [] => True end.

Lemma selects_filter seen t ft f e : t_type t = TFilter ft -> make_filter ul ft (t_matches t) = Ok (Some f) ->
  (means ul d f e /\ selects ul d ctx seen e) <-> selects ul d ctx (t :: seen) e.
Proof.
  intros Et Ef. cbn [selects]. rewrite Et. unfold token_means. split; intros [H1 H2]; (split; [|done]).
  - by exists f.
  - destruct H1 as (f' & Ef' & Hf'). rewrite Ef in Ef'. by injection Ef' as <-.
Qed.

Lemma selects_comb seen t c r e : t_type t = TComb c -> relative c = Some r -> seen <> [] ->
  (exists e', related d r e e' /\ selects ul d ctx seen e') <-> selects ul d ctx (t :: seen) e.
Proof.
  intros Et Er Hs. cbn [selects]. rewrite Et. destruct seen as [|t' seen]; [done|]. split.
  - intros H. by exists r.
  - intros (r' & Er' & H). rewrite Er in Er'. by injection Er' as <-.
Qed.

Lemma add_tokens_made ms tokens seen lo s m s' : Forall token_plain tokens -> (seen = [] -> starts_with_filter tokens) ->
  (lo <= ms_done s)%nat -> made lo (ms_done s) (selects ul d ctx seen) ms ->
  add_tokens ul ms tokens s = (Ok (Some m), s') -> made lo (ms_done s') (selects ul d ctx (rev tokens ++ seen)) [m].
Proof.
  revert ms seen s. induction tokens as [|t tokens IH]; intros ms seen s Hp Hs Hl Hm; cbn [add_tokens].
  - intros [= <- <-]. by apply made_one.
  - apply Forall_cons in Hp as [Ht Hp]. cbn [rev]. rewrite <- app_assoc. cbn [app]. destruct (t_type t) as [c|ft] eqn:Et.
    + destruct (relative c) as [r|] eqn:Er; [|done]. pose proof (relative_dir _ _ Er) as Hd.
      change (add_tokens ul [MComb (elementMatcher ms) r false (ms_done s)] tokens (set_done (S (ms_done s)) s) = (Ok (Some m), s') ->
        made lo (ms_done s') (selects ul d ctx (rev tokens ++ t :: seen)) [m]).
      apply IH; [done..|cbn; lia|]. cbn [ms_done set_done]. eapply made_ext; [by apply (made_comb lo (ms_done s))|].
      intros e. apply (selects_comb seen t c); [done..|]. intros ->. destruct (Hs eq_refl) as [ft Hft]. by rewrite Et in Hft.
    + destruct (make_filter ul ft (t_matches t)) as [[f|]|e|] eqn:Ef; try done.
      change (add_tokens ul (ms ++ [MFilter f]) tokens s = (Ok (Some m), s') -> made lo (ms_done s') (selects ul d ctx (rev tokens ++ t :: seen)) [m]).
      unfold token_plain in Ht. rewrite Et in Ht. destruct (Ht f Ef) as [Hf Hc].
      apply IH; [done..|]. eapply made_ext; [by apply made_filter|]. intros e. by apply (selects_filter seen t ft).
Qed.

Lemma inside_says n e : says (MLeading false (MComb MIsContext (Rel DParent false) true n)) e = true <-> inside d ctx e.
Proof.
  change (says (MLeading false ?m) e) with ((xml_of || negb match outermost_of d ctx with ONode c => (c =? at_context d ctx)%nat | OTrue => false end) || says m e).
  rewrite orb_true_iff, leading_says by done. unfold leading, inside, outermost_of, at_context, xml_of. cbn [r_dir r_first].
  destruct ctx as [c|]; cbn [default]; [|rewrite orb_true_r; tauto]. destruct (c =? document d)%nat eqn:E.
  - apply Nat.eqb_eq in E. rewrite orb_true_r. tauto.
  - apply Nat.eqb_neq in E. rewrite Nat.eqb_refl, orb_false_r, negb_true_iff. tauto.
Qed.

Lemma made_leading_other n : made n (S n) (selects ul d ctx []) [MLeading false (MComb MIsContext (Rel DParent false) true n)].
Proof.
  split; cbn [flat_map names app]; [by repeat constructor|by repeat constructor; intros ?%elem_of_nil|intros n' ->%list_elem_of_singleton; lia|].
  intros e _. cbn [forallb]. rewrite andb_true_r. apply inside_says.
Qed.

Lemma made_leading n t c r : t_type t = TComb c -> relative c = Some r ->
  made n (S n) (selects ul d ctx [t]) [MLeading true (MComb MIsContext r true n)].
Proof.
  intros Et Er. split; cbn [flat_map names app]; [by repeat constructor|by repeat constructor; intros ?%elem_of_nil|intros n' ->%list_elem_of_singleton; lia|].
  intros e _. cbn [forallb]. rewrite andb_true_r. change (says (MComb MIsContext r true n) e = true <-> selects ul d ctx [t] e).
  rewrite leading_says by (by eapply relative_dir). cbn [selects]. rewrite Et. split; [intros H; by exists r|].
  intros (r' & Er' & H). rewrite Er in Er'. by injection Er' as <-.
Qed.

(** The matcher of a group says what the group selects. *)
Lemma matcher_made g s m s' : Forall token_plain g -> Forall good_token g -> matcherFromTokens ul g s = (Ok (Some m), s') ->
  made (ms_done s) (ms_done s') (group_selects ul d ctx g) [m].
Proof.
  unfold group_selects. destruct g as [|t g]; [done|]. intros Hp Hg. pose proof Hp as [_ Hp']%Forall_cons. unfold matcherFromTokens.
  assert (forall r b s0, (mm ← addCombinator MIsContext r true; next_done ;; add_tokens ul [MLeading b mm] (if b then g else t :: g)) s0
    = add_tokens ul [MLeading b (MComb MIsContext r true (ms_done s0))] (if b then g else t :: g) (set_done (S (S (ms_done s0))) s0)) as Hrun by done.
  rewrite Hrun. clear Hrun. destruct (match t_type t with TComb c => relative c | TFilter _ => None end) as [r|] eqn:El; cbn [default].
  - rewrite bool_decide_eq_true_2 by eauto. destruct (t_type t) as [c|] eqn:Et; [|done]. cbn [rev].
    apply add_tokens_made; [done|done|cbn; lia|]. eapply made_wider; [| |by eapply made_leading]; cbn; lia.
  - rewrite bool_decide_eq_false_2 by (by intros [? ?]). rewrite <- (app_nil_r (rev (t :: g))).
    apply add_tokens_made; [done| |cbn; lia|].
    + intros _. cbn. destruct (t_type t) as [c|ft] eqn:Et; [|by exists ft]. exfalso. apply Forall_cons in Hg as [[_ Hc] _]. rewrite Et in Hc.
      cbn [List.map] in Hc. rewrite !elem_of_cons in Hc. destruct Hc as [->|[->|[->|[->|?%elem_of_nil]]]]; by vm_compute in El.
    + eapply made_wider; [| |apply made_leading_other]; cbn; lia.
Qed.

Lemma names_grow g s r s' : matcherFromTokens ul g s = (Ok (Some r), s') -> group_ok g -> (ms_done s <= ms_done s')%nat.
Proof. intros E Hg. destruct (matcher_ends ul g s Hg) as (x & n & E' & Hn & _). rewrite E in E'. by injection E' as _ ->. Qed.

Lemma clean_groups gs : Forall group_ok gs -> Forall (Forall token_clean) gs -> Forall (Forall token_plain) gs.
Proof. rewrite !Forall_forall. intros Hg Hc g Hi. apply clean_plain; [by apply Hg|by apply Hc]. Qed.

Lemma groups_made gs s ms s' : Forall (Forall token_plain) gs -> Forall group_ok gs -> from_groups ul gs s = (Ok (Some ms), s') ->
  (ms_done s <= ms_done s')%nat /\ Forall (shaped xml_of) ms /\ NoDup (flat_map names ms)
  /\ (forall n, n ∈ flat_map names ms -> (ms_done s <= n < ms_done s')%nat)
  /\ (forall e, is_element d e = true -> existsb (fun m => says m e) ms = true <-> exists g, g ∈ gs /\ group_selects ul d ctx g e).
Proof.
  revert s ms. induction gs as [|g gs IH]; intros s ms Hp Hg; cbn [from_groups].
  { intros [= <- <-]. split_and!; [done|constructor|constructor|by intros n ?%elem_of_nil|]. intros e _. split; [done|by intros (g & ?%elem_of_nil & _)]. }
  apply Forall_cons in Hp as [Hp1 Hp]. apply Forall_cons in Hg as [Hg1 Hg].
  intros (om & s1 & E1 & E)%sm_bind_inv. destruct om as [m|]; [|done].
  apply sm_bind_inv in E as (oms & s2 & E2 & E). destruct oms as [ms'|]; [|done]. injection E as <- <-.
  pose proof (names_grow g s m s1 E1 Hg1) as L1. destruct (matcher_made g s m s1 Hp1 (proj2 Hg1) E1) as [M1 M2 M3 M4].
  destruct (IH s1 ms' Hp Hg E2) as (L2 & G1 & G2 & G3 & G4). cbn [flat_map] in *. rewrite app_nil_r in M2, M3. split_and!.
  - lia.
  - apply Forall_cons. split; [by apply Forall_cons in M1 as [M1 _]|done].
  - apply NoDup_app. split_and!; [done| |done]. intros n Hn%M3 Hn'%G3. lia.
  - intros n [Hn%M3|Hn%G3]%elem_of_app; lia.
  - intros e He. cbn [existsb]. rewrite orb_true_iff, G4 by done. pose proof (M4 e He) as M. cbn [forallb] in M. rewrite andb_true_r in M. rewrite M.
    split; [intros [H|(g' & Hi & H)]; eexists; (split; [|done]); [by left|by right]|]. intros (g' & [->|Hi]%elem_of_cons & H); [by left|right; by exists g'].
Qed.
End answers.

(** ** Calls *)

Section calls.
Context (ul : N -> jstr).

(** The states after any calls, on whatever the documents are then; calls that throw may be
    caught. *)
Inductive sizzle_reach : sstate -> Prop :=
  | reach_loaded : sizzle_reach sizzle_start
  | reach_Sizzle st d expr ctx elems : sizzle_reach st -> sizzle_reach (Sizzle ul d expr ctx elems st).2.

(** The groups of a selector. *)
Definition groups_of (s : jstr) : res (list (list token)) := (tokenize s no_cache).1.

Lemma groups_of_ok s gs : groups_of s = Ok gs -> Forall group_ok gs.
Proof.
  unfold groups_of. rewrite tokenize_unfold by apply no_cache_ok. cbn [no_cache c_map]. rewrite lookup_empty.
  destruct (parsed s) as [[[|x r] g]|e|] eqn:E; [|done..]. rewrite cache_add_answer. intros [= <-].
  apply parsed_joined in E as [[_ ->]|[_ H]]; [constructor|done].
Qed.

Lemma groups_of_ends s : groups_of s <> NoFuel.
Proof.
  unfold groups_of. rewrite tokenize_unfold by apply no_cache_ok. cbn [no_cache c_map]. rewrite lookup_empty.
  assert (ends (parsed s)) as He by (apply tok_parse_ends; unfold tokenize_fuel; lia).
  destruct (parsed s) as [[[|x r] g]|e|]; [by rewrite cache_add_answer|done..].
Qed.

(** Matchers are those of the groups, made in some state. *)
Definition from_selector (s : jstr) (r : res (option (list matcher))) : Prop :=
  exists gs s0, groups_of s = Ok gs /\ (from_groups ul (rev gs) s0).1 = r.

Definition state_ok (st : sstate) : Prop :=
  cache_ok (st_tokens st) /\ (forall k ms, c_map (st_compiled st) !! k = Some ms -> from_selector k (Ok (Some ms)))
  /\ exists R L, sound R None L (st_match st).

Lemma cache_add_lookup {V} k (v : V) c k' v' : c_map (cache_add k v c).2 !! k' = Some v' -> k' = k /\ v' = v \/ c_map c !! k' = Some v'.
Proof.
  unfold cache_add. destruct (cacheLength <? _)%nat; [destruct (c_keys c ++ [k])|]; cbn [snd c_map]; intros [[<- <-]|[_ E]]%lookup_insert_Some; auto.
  right. by apply lookup_delete_Some in E as [_ E].
Qed.

Lemma start_state_ok : state_ok sizzle_start.
Proof.
  split_and!; [apply no_cache_ok|by intros k ms|]. exists 0, 0%nat. by split_and!.
Qed.

(** What compiling answers, from the cache or anew. *)
Lemma compile_answers sel st : state_ok st -> exists r st', compile ul sel st = (r, st') /\ state_ok st' /\
  (from_selector sel r \/ exists e, groups_of sel = Throw e /\ r = Throw e).
Proof.
  intros (Ht & Hc & R & L & Hs). unfold compile. rewrite sm_get_bind. destruct (c_map (st_compiled st) !! sel) as [ms|] eqn:E.
  { exists (Ok (Some ms)), st. split_and!; [done|by split_and!; eauto|]. left. by apply Hc. }
  pose proof (tokenize_same _ sel Ht) as Hq. pose proof (tokenize_keeps_ok sel _ Ht) as Hk. fold (groups_of sel) in Hq.
  unfold mbind, sm_bind, on_tokens. destruct (tokenize sel (st_tokens st)) as [r c'] eqn:Et. cbn [fst snd] in *. subst r.
  destruct (groups_of sel) as [gs|e|] eqn:Eg.
  2: { exists (Throw e), (SState c' (st_compiled st) (st_match st)). split_and!; [done|by split_and!; eauto|]. right. by exists e. }
  - unfold on_match. cbn [st_match st_tokens st_compiled].
    assert (Forall group_ok (rev gs)) as Hg by (apply Forall_rev, (groups_of_ok sel); done).
    destruct (groups_ends ul (rev gs) (st_match st) Hg) as (x & n & Ex & _ & Ho). rewrite Ex.
    assert (from_selector sel x) as Hx by (exists gs, (st_match st); by rewrite Ex).
    destruct x as [[ms|]|e|]; [|eexists _, _; (split_and!; [done| |by left]); split_and!; eauto..].
    unfold on_compiled. cbn [st_match st_tokens st_compiled]. destruct (cache_add sel ms (st_compiled st)) as [y c2] eqn:Ea.
    pose proof (cache_add_answer sel ms (st_compiled st)) as Ey. rewrite Ea in Ey. cbn in Ey. subst y.
    eexists _, _. split_and!; [done| |by left]. split_and!; [done| |by exists R, L].
    intros k ms' Hk'. cbn [st_compiled] in Hk'. pose proof (cache_add_lookup sel ms (st_compiled st) k ms') as H. rewrite Ea in H.
    destruct (H Hk') as [[-> ->]|H']; [done|by apply Hc].
  - by destruct (groups_of_ends sel).
Qed.

(** A filter of some group is not modelled, or throws when it is made. *)
Definition some_filter (gs : list (list token)) (x : res (option efilter)) : Prop :=
  exists g t ft, g ∈ gs /\ t ∈ g /\ t_type t = TFilter ft /\ make_filter ul ft (t_matches t) = x.

Lemma from_selector_ends s r : from_selector s r -> exists gs, groups_of s = Ok gs /\
  match r with Ok (Some _) => True | Ok None => some_filter gs (Ok None) | Throw e => some_filter gs (Throw e) | NoFuel => False end.
Proof.
  intros (gs & s0 & Eg & Er). exists gs. split; [done|]. assert (Forall group_ok (rev gs)) as Hg by (apply Forall_rev, (groups_of_ok s); done).
  destruct (groups_ends ul (rev gs) s0 Hg) as (x & n & Ex & _ & Ho). rewrite Ex in Er. cbn in Er. subst x.
  assert (forall t, t ∈ List.concat (rev gs) -> exists g, g ∈ gs /\ t ∈ g) as Hin.
  { intros t Ht. rewrite list_elem_of_In, in_concat in Ht. destruct Ht as (g & Hi & Ht). exists g. split; [apply list_elem_of_In; by apply in_rev|by apply list_elem_of_In]. }
  destruct r as [[ms|]|e|]; [done| | |done]; destruct Ho as (t & ft & (g & Hi & Ht)%Hin & E1 & E2); by exists g, t, ft.
Qed.

Lemma select_answers d sel ctx elems st : state_ok st -> exists r st', select ul d sel ctx elems st = (r, st') /\ state_ok st' /\
  match r with
  | Ok (Some l) => exists ms R L s, from_selector sel (Ok (Some ms)) /\ sound R None L s /\ (superMatcher ul d ms elems ctx (xml_of d) s).1 = Ok l
  | Ok None => from_selector sel (Ok None)
  | Throw e => groups_of sel = Throw e \/ from_selector sel (Throw e)
  | NoFuel => False
  end.
Proof.
  intros Hst. destruct (compile_answers sel st Hst) as (r & st' & E & Hst' & Hr). unfold select. unfold mbind, sm_bind. rewrite E.
  destruct r as [[ms|]|e|].
  - destruct Hr as [Hr|(e & _ & [=])]. destruct Hst' as (Ht & Hc & R & L & Hs). unfold on_match. fold (xml_of d).
    destruct (super_ends ul d (xml_of d) ctx R L ms elems (st_match st') Hs) as (l & s' & El & Hs'). rewrite El.
    eexists _, _. split_and!; [done|by split_and!; eauto|]. cbn. exists ms, R, L, (st_match st'). by rewrite El.
  - destruct Hr as [Hr|(e & _ & [=])]. by eexists _, _.
  - eexists _, _. split_and!; [done..|]. destruct Hr as [Hr|(e' & He & [= ->])]; auto.
  - destruct Hr as [Hr|(e & _ & [=])]. by destruct (from_selector_ends _ _ Hr) as (gs & _ & ?).
Qed.

(** A context has to be an element, a document or a fragment. *)
Definition searchable (d : dom) (ctx : option nat) : bool :=
  let type := match ctx with Some c => nodeType d c | None => 9 end in (type =? 1) || (type =? 9) || (type =? 11).

Lemma Sizzle_cases d expr ctx elems st :
  (expr = [] \/ searchable d ctx = false) /\ Sizzle ul d expr ctx elems st = (Ok (Some []), st)
  \/ Sizzle ul d expr ctx elems st = select ul d (rtrim expr) ctx elems st.
Proof.
  unfold Sizzle. fold (searchable d ctx). destruct (bool_decide (expr = [])) eqn:E; [apply bool_decide_eq_true in E; left; auto|].
  destruct (searchable d ctx) eqn:Es; [by right|left; auto].
Qed.

Lemma reach_state_ok st : sizzle_reach st -> state_ok st.
Proof.
  induction 1 as [|st d expr ctx elems _ IH]; [apply start_state_ok|]. destruct (Sizzle_cases d expr ctx elems st) as [[_ ->]| ->]; [done|].
  by destruct (select_answers d (rtrim expr) ctx elems st IH) as (r & st' & -> & H & _).
Qed.

(** What a selector selects of elements. *)
Lemma select_selects `{!DomLaws d} sel ctx elems st l : state_ok st -> Forall (fun e => is_element d e = true) elems ->
  (select ul d sel ctx elems st).1 = Ok (Some l) -> exists gs, groups_of sel = Ok gs /\
    (Forall (Forall (token_clean ul d)) gs -> exists b, l = List.filter b elems /\
      forall e, e ∈ elems -> b e = true <-> exists g, g ∈ gs /\ group_selects ul d ctx g e).
Proof.
  intros Hst He El. destruct (select_answers d sel ctx elems st Hst) as (r & st' & E & _ & Hr). rewrite E in El. cbn in El. subst r.
  destruct Hr as (ms & R & L & s & (gs & s0 & Eg & Ems) & Hs & El). exists gs. split; [done|]. intros Hp.
  assert (Forall group_ok (rev gs)) as Hg by (apply Forall_rev, (groups_of_ok sel); done).
  assert (Forall (Forall (token_plain ul d)) (rev gs)) as Hp' by (apply Forall_rev, (clean_groups ul d); [by apply (groups_of_ok sel)|done]).
  destruct (groups_made ul d ctx (rev gs) s0 ms (from_groups ul (rev gs) s0).2 Hp' Hg (sm_run_eq _ _ _ Ems)) as (_ & G1 & G2 & _ & G4).
  rewrite (super_answers ul d (xml_of d) ctx R L ms elems s Hs G1 G2 He) in El. injection El as <-.
  eexists. split; [done|]. intros e Hi. rewrite Forall_forall in He. rewrite (G4 e (He e Hi)).
  split; intros (g & Hg' & H); exists g; (split; [|done]); rewrite list_elem_of_In in *; [by apply in_rev|by apply (in_rev gs)].
Qed.

(** C29: Matching given elements with a selector, from the document or another node, answers
    what the selector says, after any earlier calls on whatever the documents were then: the
    compiled selectors, the tokens and what elements remember of combinators and positions
    do not show.  The answer is the elements, in their order, that one of the groups
    selects: from the right, every filter holds of the element, a combinator leads to an
    element (the nearest one for [>] and [+]) of which the rest holds, and the first
    elements are below the context.  That is so unless a name or a word has white space in
    it, or there is a [:nth-last-child], which counts in the wrong direction.  Selectors are
    meant in which every pseudo class is one of those that are modelled ([:contains],
    [:empty], [:checked] and others that look at one element); with [:not], [:has],
    [:first], [:eq], [:enabled] and others there is no answer of the model ([Ok None]), and
    nothing is said but that such a pseudo class occurs.  Matching always ends.  It throws
    only where the selector is not readable or where making one of its filters throws: for
    an unknown pseudo class, and for one that needs an argument and has none, such as
    [:contains]. *)
Theorem matches_selects st d expr ctx elems : sizzle_reach st -> DomLaws d -> Forall (fun e => is_element d e = true) elems ->
  match (Sizzle ul d expr ctx elems st).1 with
  | Ok (Some l) => (expr = [] \/ searchable d ctx = false) /\ l = [] \/ exists gs, groups_of (rtrim expr) = Ok gs /\
      (Forall (Forall (token_clean ul d)) gs -> exists b, l = List.filter b elems /\
        forall e, e ∈ elems -> b e = true <-> exists g, g ∈ gs /\ group_selects ul d ctx g e)
  | Ok None => exists gs, groups_of (rtrim expr) = Ok gs /\ some_filter gs (Ok None)
  | Throw e => groups_of (rtrim expr) = Throw e \/ exists gs, groups_of (rtrim expr) = Ok gs /\ some_filter gs (Throw e)
  | NoFuel => False
  end.
Proof.
  intros Hst%reach_state_ok Hd He. destruct (Sizzle_cases d expr ctx elems st) as [[Hx ->]| ->]; [by left|].
  destruct (select_answers d (rtrim expr) ctx elems st Hst) as (r & st' & E & _ & Hr). pose proof (select_selects (rtrim expr) ctx elems st) as Hs.
  rewrite E in *. cbn [fst] in *. destruct r as [[l|]|e|]; [right; by apply Hs|exact (from_selector_ends _ _ Hr)| |done].
  destruct Hr as [Hr|Hr]; [by left|right; exact (from_selector_ends _ _ Hr)].
Qed.
End calls.

(** ** A small document *)

(** A body with a paragraph, a text, and two paragraphs, in the first of which is a span. *)
Definition demo_dom : dom := {|
  parentNode e := match e with 1 => Some 0 | 2 | 3 | 4 | 5 => Some 1 | 6 => Some 3 | _ => None end%nat;
  childNodes p := match p with 0 => [1] | 1 => [2; 5; 3; 4] | 3 => [6] | _ => [] end%nat;
  nodeType e := match e with 0%nat => 9 | 5%nat => 3 | _ => 1 end;
  nodeName e := match e with 0%nat => str "#document" | 1%nat => str "BODY" | 5%nat => str "#text" | 6%nat => str "SPAN" | _ => str "P" end;
  getAttribute e n := if decide (n = str "title") then match e with 4%nat => Some (str "two words") | _ => None end else None;
  className e := match e with 2%nat => Some (str "x y") | 3%nat => Some (str "y") | _ => Some [] end;
  elem_type e := []; elem_checked e := false; elem_selected e := false; textContent e := [];
  document := 0%nat; docElem := 1%nat; documentIsHTML := true;
  height e := match e with 0%nat => 0%nat | 1%nat => 1%nat | 6%nat => 3%nat | _ => 2%nat end
|}.

#[export] Instance demo_laws : DomLaws demo_dom.
Proof.
  split.
  - intros e p. split.
    + do 7 (destruct e as [|e]; [try discriminate; intros [= <-]; cbn; set_solver|]). discriminate.
    + do 4 (destruct p as [|p]; [cbn; rewrite ?elem_of_cons, elem_of_nil; naive_solver|]). by intros ?%elem_of_nil.
  - intros p. do 4 (destruct p as [|p]; [cbn; apply (bool_decide_unpack _); by vm_compute|]). constructor.
  - intros e p. do 7 (destruct e as [|e]; [try discriminate; intros [= <-]; cbn; lia|]). discriminate.
Qed.

Definition same_char (c : N) : jstr := [c].
Definition ask (s : string) (elems : list nat) : res (option (list nat)) := (matches same_char demo_dom (str s) elems sizzle_start).1.

(** The state after a call. *)
Definition after_a_call : sstate := (matches same_char demo_dom (str "p ~ p") [4]%nat sizzle_start).2.

(** A token that is given: its filter is made, and is clean. *)
Ltac clean_token :=
  lazymatch goal with
  | |- token_clean _ _ (Token _ (TFilter _) _) =>
      let f := fresh in let Hf := fresh in
      intros f Hf; vm_compute in Hf; injection Hf as <-; split; [|vm_compute; reflexivity];
      lazymatch goal with
      | |- clean (FClass _) => apply (bool_decide_unpack _); vm_compute; exact I
      | |- _ => exact I
      end
  | |- _ => exact I
  end.

Lemma matches_selects_witness : sizzle_reach same_char after_a_call /\
  (Sizzle same_char demo_dom (str "> .y ~ p, p:nth-child(2n) span") (Some 1%nat) [2; 3; 4; 6]%nat after_a_call).1 = Ok (Some [3; 4; 6]%nat) /\
  exists gs, groups_of (str "> .y ~ p, p:nth-child(2n) span") = Ok gs /\
    forall e, e ∈ [2; 3; 4; 6]%nat -> e ∈ [3; 4; 6]%nat <-> exists g, g ∈ gs /\ group_selects same_char demo_dom (Some 1%nat) g e.
Proof.
  assert (sizzle_reach same_char after_a_call) as Hr by (apply reach_Sizzle, reach_loaded).
  assert ((Sizzle same_char demo_dom (str "> .y ~ p, p:nth-child(2n) span") (Some 1%nat) [2; 3; 4; 6]%nat after_a_call).1 = Ok (Some [3; 4; 6]%nat)) as E by (by vm_compute).
  split_and!; [done|done|].
  pose proof (matches_selects same_char after_a_call demo_dom (str "> .y ~ p, p:nth-child(2n) span") (Some 1%nat) [2; 3; 4; 6]%nat Hr demo_laws) as H.
  rewrite E in H. destruct H as [[[H|H] _]|(gs & Eg & H)]; [by repeat constructor|discriminate H|discriminate H|].
  destruct H as (b & Eb & Hb).
  - vm_compute in Eg. injection Eg as <-. rewrite !Forall_cons, !Forall_nil.
    split_and!; clean_token.
  - exists gs. split; [exact Eg|]. intros e He. rewrite <- (Hb e He), Eb, list_elem_of_In, filter_In, <- list_elem_of_In. tauto.
Defined.

(** [:nth-last-child] answers [4; 3] for the last paragraph when that is asked first: the loop
    goes through the siblings before it, and leaves the count of each.  In the other order
    it answers what it says. *)
Example nth_last_child_order : ask "p:nth-last-child(1)" [4; 3; 2]%nat = Ok (Some [4; 3]%nat) /\ ask "p:nth-last-child(1)" [2; 3; 4]%nat = Ok (Some [4]%nat).
Proof. by split; vm_compute. Qed.

(** A member of every object is taken for a pseudo class; [constructor] holds of all elements.
    Other names are errors. *)
Example constructor_matches : ask ":constructor" [2; 6]%nat = Ok (Some [2; 6]%nat)
  /\ ask ":other" [2; 6]%nat = Throw (str "Syntax error, unrecognized expression: unsupported pseudo: other").
Proof. by split; vm_compute. Qed.

(** A word with white space in it is found in a title of two words. *)
Example two_words_found : ask "[title~='two words']" [2; 4]%nat = Ok (Some [4]%nat).
Proof. by vm_compute. Qed.
