(* ===== verification/EventsSizzle.v ===== *)
(** * Delegated events with the selector engine

    The engine of [SizzleMatch] in the place of the one that [Events] is stated for, and
    which delegated handlers an event finds then. *)

From S2P Require Import Prelude JsNum JsVal Callbacks Text ElemData Regex Sizzle SizzleFacts SizzleMatch SizzleMatchFacts SizzleMatchProps Events.

Section host.
Context (ul : N -> jstr) (d : dom) (st : sstate) (browser : EventHost).

(** [jQuery.find( sel, this, null, [ cur ] ).length], where [sel] is a selector and a blank. *)
Definition finds_itself (selector : jstr) (this cur : nat) : bool :=
  match (Sizzle ul d (selector ++ str " ") (Some this) [cur] st).1 with Ok (Some (_ :: _)) => true | _ => false end.

(** The document and the engine of a page; what is not of the document is the browser's. *)
Definition sizzle_host : EventHost := {|
  event_owners := {| ElemData.nodeType e := if @is_window browser e then NaN else Fin (SizzleMatch.nodeType d e) |};
  special_of := special_of;
  check_selector := check_selector;
  needs_context := needs_context;
  selects flag sel this cur := if flag then selects true sel this cur else finds_itself sel this cur;
  Events.contains p e := bool_decide (p ∈ walk d DParent e);
  disabled_elem := disabled_elem;
  is_window := is_window;
  has_listeners := has_listeners;
  has_method := has_method;
  odd_regexp := odd_regexp;
  Events.document := SizzleMatch.document d;
  window := window
|}.

(** A selector of which the meaning is known: its filters are made, without white space in
    names and words, and none counts backwards. *)
Definition token_known (t : token) : Prop :=
  match t_type t with
  | TFilter ft => exists f, make_filter ul ft (t_matches t) = Ok (Some f) /\ clean f /\ counts_back (xml_of d) f = false
  | TComb _ => True
  end.
Definition meaningful (selector : jstr) (gs : list (list token)) : Prop :=
  groups_of (rtrim (selector ++ str " ")) = Ok gs /\ Forall (Forall token_known) gs.

Lemma known_clean gs : Forall (Forall token_known) gs -> Forall (Forall (token_clean ul d)) gs.
Proof.
  intros H. eapply Forall_impl; [exact H|]. intros g Hg. eapply Forall_impl; [exact Hg|]. intros t. unfold token_known, token_clean.
  destruct (t_type t); [done|]. intros (f & E & Hf) f' E'. rewrite E in E'. by injection E' as <-.
Qed.

Lemma known_made gs r : Forall (Forall token_known) gs -> some_filter ul gs r -> exists f, r = Ok (Some f).
Proof.
  intros H (g & t & ft & Hg & Ht & Et & <-). rewrite Forall_forall in H. apply H in Hg. rewrite Forall_forall in Hg. apply Hg in Ht.
  unfold token_known in Ht. rewrite Et in Ht. destruct Ht as (f & E & _). by exists f.
Qed.
End host.

Section delegation.
Context (ul : N -> jstr) (d : dom) `{!DomLaws d} (browser : EventHost) (st : sstate).

Lemma finds_itself_right selector this cur gs : sizzle_reach ul st -> is_element d cur = true -> searchable d (Some this) = true ->
  meaningful ul d selector gs ->
  finds_itself ul d st selector this cur = true <-> exists g, g ∈ gs /\ group_selects ul d (Some this) g cur.
Proof.
  intros Hst%reach_state_ok Hc Ht (Eg & Hk). pose proof (known_clean _ _ _ Hk) as Hcl. pose proof (known_made ul d gs) as Hf. unfold finds_itself.
  assert (Forall (fun e => is_element d e = true) [cur]) as He by (by apply Forall_singleton).
  destruct (Sizzle_cases ul d (selector ++ str " ") (Some this) [cur] st) as [[[H|H] _]|E]; [by destruct selector|congruence|]. rewrite E.
  destruct (select_answers ul d (rtrim (selector ++ str " ")) (Some this) [cur] st Hst) as (r & st' & Er & _ & Hr).
  pose proof (select_selects ul (rtrim (selector ++ str " ")) (Some this) [cur] st) as Hs. rewrite Er in *. cbn [fst] in *.
  destruct r as [[l|]|e|]; [|exfalso..|done].
  - destruct (Hs l Hst He eq_refl) as (gs' & Eg' & Hb). rewrite Eg in Eg'. injection Eg' as <-. destruct (Hb Hcl) as (b & -> & Hb').
    specialize (Hb' cur ltac:(by left)). rewrite <- Hb'. cbn [List.filter]. by destruct (b cur).
  - apply from_selector_ends in Hr as (gs' & Eg' & Hr). rewrite Eg in Eg'. injection Eg' as <-. by apply Hf in Hr as [f Hr].
  - destruct Hr as [Hr|Hr]; [congruence|]. apply from_selector_ends in Hr as (gs' & Eg' & Hr). rewrite Eg in Eg'. injection Eg' as <-.
    by apply Hf in Hr as [f Hr].
Qed.

Lemma filter_guard {A} (b : bool) (f : A -> bool) l : (if b then List.filter f l else []) = List.filter (fun x => b && f x) l.
Proof. destruct b; [done|]. cbn [andb]. by induction l. Qed.

(** A handler is for an element: an element that can be clicked, which the selector selects
    from the one that handles. *)
Definition handler_for (type : jstr) (this cur : nat) (o : handleObj) : Prop :=
  is_element d cur = true /\ (type = str "click" -> @disabled_elem browser cur = false)
  /\ exists gs g, groups_of (rtrim (ho_selector o ++ str " ")) = Ok gs /\ g ∈ gs /\ group_selects ul d (Some this) g cur.

(** C19: Delegation with the selector engine: where the selectors of delegated handlers have a
    meaning, an event finds, for every node from its target up to the element that
    handles and without that, the delegated handlers whose selector selects the node from
    that element, in the order in which they were added; no others, none on text or on
    disabled elements for clicks; then the direct handlers.  The engine may have been used
    before for any selectors on any documents. *)
Theorem delegated_by_selectors fuel this id l s cur path : let host := sizzle_host ul d st browser in
  sizzle_reach ul st -> searchable d (Some this) = true -> (0 < delegateCount l)%nat ->
  (forall o, o ∈ take (delegateCount l) (hl_handlers l) -> ho_needsContext o = false /\ exists gs, meaningful ul d (ho_selector o) gs) ->
  j_target (ev_at s id) = Some cur -> Num.truthy (@ElemData.nodeType (@event_owners host) cur) = true ->
  ~ (j_type (ev_at s id) = str "click" /\ Num.le (Fin 1) (event_button s (ev_at s id)) = true) ->
  path_below fuel s cur this = Ok path -> (forall c, c ∈ path -> @is_window browser c = false) ->
  exists b : nat -> handleObj -> bool,
    @handler_queue host fuel this id l s =
      (Ok (List.filter (fun p => bool_decide (p.2 <> [])) (List.map (fun c => (c, List.filter (b c) (take (delegateCount l) (hl_handlers l)))) path)
           ++ if bool_decide (delegateCount l < length (hl_handlers l))%nat then [(this, drop (delegateCount l) (hl_handlers l))] else []), s)
    /\ forall c o, c ∈ path -> o ∈ take (delegateCount l) (hl_handlers l) -> b c o = true <-> handler_for (j_type (ev_at s id)) this c o.
Proof.
  intros host Hst Ht Hd Hm Hj Hn Hb Hp Hw. set (type := j_type (ev_at s id)) in *.
  exists (fun c o => Num.eqb (@ElemData.nodeType (@event_owners host) c) (Fin 1) && negb (bool_decide (type = str "click") && @disabled_elem host c)
    && @selects host (ho_needsContext o) (ho_selector o) this c).
  split.
  - unfold handler_queue. rewrite sm_get_bind. fold type. destruct (delegateCount l =? 0)%nat eqn:E0; [apply Nat.eqb_eq in E0; lia|].
    rewrite Hj, Hn. assert (bool_decide (type = str "click") && Num.le (Fin 1) (event_button s (ev_at s id)) = false) as -> by
      (apply andb_false_iff; destruct (decide (type = str "click")) as [E|E]; [right; apply not_true_iff_false; tauto|left; by apply bool_decide_eq_false]).
    cbn [andb negb]. rewrite Hp. unfold mbind, sm_bind, sm_lift, mret, sm_ret. do 4 f_equal. apply map_ext. intros c. f_equal. apply filter_guard.
  - intros c o Hc Ho. destruct (Hm o Ho) as (Hnc & gs & Hg). rewrite Hnc, !andb_true_iff, negb_true_iff. cbn [selects host sizzle_host].
    assert (Num.eqb (@ElemData.nodeType (@event_owners host) c) (Fin 1) = is_element d c) as ->.
    { change (Num.eqb (if @is_window browser c then NaN else Fin (SizzleMatch.nodeType d c)) (Fin 1) = is_element d c). by rewrite (Hw c Hc). }
    unfold handler_for. split.
    + intros [[He Hd'] Hf]. split_and!; [done| |].
      * intros E. rewrite bool_decide_eq_true_2 in Hd' by done. exact Hd'.
      * apply (finds_itself_right _ _ _ gs) in Hf as (g & Hi & Hs); [|done..]. exists gs, g. split_and!; [apply Hg|done..].
    + intros (He & Hd' & gs' & g & Eg & Hi & Hs). split_and!; [done| |].
      * destruct (decide (type = str "click")) as [E|E]; [|by rewrite bool_decide_eq_false_2].
        change (@disabled_elem host c) with (@disabled_elem browser c). by rewrite Hd', ?andb_false_r.
      * apply (finds_itself_right _ _ _ gs); [done..|]. destruct Hg as (Eg' & _). rewrite Eg in Eg'. injection Eg' as <-. by exists g.
Qed.
End delegation.

(** ** A page *)

(** The document of [demo_dom], a browser that adds nothing, and a click on the span. *)
Definition plain_browser : EventHost := {|
  event_owners := {| ElemData.nodeType _ := NaN |};
  special_of := builtin_special;
  check_selector _ := Ok tt;
  needs_context _ := false;
  selects _ _ _ _ := false;
  Events.contains _ _ := false;
  disabled_elem _ := false;
  is_window e := (e =? 9)%nat;
  has_listeners _ := true;
  has_method _ _ := false;
  odd_regexp _ := Throw (str "SyntaxError");
  Events.document := 0;
  window := 9
|}.

Definition span_click : estate :=
  EState ∅ ∅ ∅ 1 {[ 0%nat := JEvent (str "click") None (Some 6%nat) None None None None XUndef XUndef None None false false false false ]}
    ∅ 1 None {[ 6%nat := 3%nat; 3%nat := 1%nat; 1%nat := 0%nat ]} ∅ ∅ [].

Definition delegated (selector : string) (n : N) : handleObj := HandleObj (str "click") (str "click") XUndef (HUser n) 1 (str selector) false [].
Definition body_handlers : hlist := HList [delegated "p > span" 1; delegated ".y" 2; delegated "span ~ p" 3] 3.

(** A token that is given: its filter is made. *)
Ltac known_token :=
  lazymatch goal with
  | |- token_known _ _ (Token _ (TFilter _) _) =>
      eexists; split; [vm_compute; reflexivity|split; [|vm_compute; reflexivity]];
      lazymatch goal with
      | |- clean (FClass _) => apply (bool_decide_unpack _); vm_compute; exact I
      | |- _ => exact I
      end
  | |- _ => exact I
  end.
Ltac known_selector :=
  split; [reflexivity|]; eexists; split; [vm_compute; reflexivity|]; rewrite !Forall_cons, !Forall_nil; split_and!; known_token.

Lemma delegated_by_selectors_witness : exists b,
  @handler_queue (sizzle_host same_char demo_dom after_a_call plain_browser) 5 1 0 body_handlers span_click
    = (Ok [(6%nat, [delegated "p > span" 1]); (3%nat, [delegated ".y" 2])], span_click)
  /\ forall c o, c ∈ [6; 3]%nat -> o ∈ hl_handlers body_handlers -> b c o = true <-> handler_for same_char demo_dom plain_browser (str "click") 1 c o.
Proof.
  destruct (delegated_by_selectors same_char demo_dom plain_browser after_a_call 5 1 0 body_handlers span_click 6 [6; 3]%nat) as (b & E & Hb).
  - apply reach_Sizzle, reach_loaded.
  - reflexivity.
  - cbn. lia.
  - intros o Ho. change (o ∈ [delegated "p > span" 1; delegated ".y" 2; delegated "span ~ p" 3]) in Ho.
    rewrite !elem_of_cons in Ho. destruct Ho as [->|[->|[->|?%elem_of_nil]]]; [known_selector..|done].
  - reflexivity.
  - reflexivity.
  - intros [_ H]. vm_compute in H. discriminate H.
  - vm_compute. reflexivity.
  - intros c Hc. change (c ∈ [6; 3]%nat) in Hc. rewrite !elem_of_cons in Hc. by destruct Hc as [->|[->|?%elem_of_nil]].
  - exists b. split; [by vm_compute|]. intros c o Hc Ho. by apply Hb.
Defined.
