(* ===== verification/Traversal.v ===== *)
(** * Traversal

    The order of nodes in a document and [uniqueSort], and the methods of jQuery objects
    that go from elements to others: [parents], [next], [siblings] and the like,
    [filter], [not], [is], [has], [closest], [index], [add].  Which elements a selector
    selects is an interface; the document is that of [SizzleMatch]. *)

From S2P Require Import Prelude JsNum JsVal Callbacks Text Regex Sizzle SizzleMatch.

(** ** Document order *)

(** What a browser says of the places of nodes: whether it has [compareDocumentPosition]
    ([rnative.test( docElem.compareDocumentPosition )]) and what that answers, whether it
    tells two detached nodes apart ([support.sortDetached]), and the documents of nodes. *)
Class NodeOrder := {
  hasCompare : bool;
  sortDetached : bool;
  compareDocumentPosition : nat -> nat -> Z;
  ownerDocument : nat -> option nat
}.

Section order.
Context (d : dom) `{NodeOrder}.

(** [siblingCheck]; one of the nodes may be missing.  [sourceIndex] is only in old
    browsers. *)
Definition siblingCheck (a b : option nat) : Z :=
  match a, b with
  | Some a, Some b => if bool_decide (b ∈ walk d DNext a) then -1 else 1
  | Some _, None => 1
  | None, _ => -1
  end.

(** The nodes from the top to a node. *)
Definition line (e : nat) : list nat := rev (e :: walk d DParent e).

(** [while ( ap[ i ] === bp[ i ] )]: the number of steps, and the nodes where the lists part. *)
Fixpoint discrepancy (ap bp : list nat) (i : nat) : nat * option nat * option nat :=
  match ap, bp with
  | a :: ap', b :: bp' => if (a =? b)%nat then discrepancy ap' bp' (S i) else (i, Some a, Some b)
  | _, _ => (i, head ap, head bp)
  end.

(** [jQuery.contains]. *)
Definition contains (a b : nat) : bool := bool_decide (a ∈ walk d DParent b).

(** [sortOrder] where the browser has [compareDocumentPosition], as every node then has.
    The sort of the language is stable, so [support.sortStable] is true and there is no
    [sortInput]: nodes of which neither is in the document are left as they are. *)
Definition sortOrder_compare (a b : nat) : Z :=
  if (a =? b)%nat then 0
  else
    let owner x := default x (ownerDocument x) in
    let compare := if (owner a =? owner b)%nat then compareDocumentPosition a b else 1 in
    if Z.testbit compare 0 || negb sortDetached && (compareDocumentPosition b a =? compare) then
      let preferred x := (x =? document d)%nat || bool_decide (ownerDocument x = Some (document d)) && contains (document d) x in
      if preferred a then -1 else if preferred b then 1 else 0
    else if Z.testbit compare 2 then -1 else 1.

(** [sortOrder] where the browser has no [compareDocumentPosition]. *)
Definition sortOrder_lines (a b : nat) : Z :=
  if (a =? b)%nat then 0
  else
    match parentNode d a, parentNode d b with
    | Some aup, Some bup =>
        if (aup =? bup)%nat then siblingCheck (Some a) (Some b)
        else let '(i, x, y) := discrepancy (line a) (line b) 0 in
             if (i =? 0)%nat then
               if bool_decide (x = Some (document d)) then -1 else if bool_decide (y = Some (document d)) then 1 else 0
             else siblingCheck x y
    | aup, bup => if (a =? document d)%nat then -1 else if (b =? document d)%nat then 1
                  else if aup then -1 else if bup then 1 else 0
    end.

Definition sortOrder (a b : nat) : Z := if hasCompare then sortOrder_compare a b else sortOrder_lines a b.

(** [results.sort( sortOrder )], which is stable. *)
Fixpoint insert_node (x : nat) (l : list nat) : list nat :=
  match l with [] => [x] | y :: l' => if sortOrder x y <=? 0 then x :: l else y :: insert_node x l' end.
Fixpoint sort_nodes (l : list nat) : list nat := match l with [] => [] | x :: l' => insert_node x (sort_nodes l') end.

(** The loop that removes one of two equal neighbours. *)
Fixpoint drop_duplicates (l : list nat) : list nat :=
  match l with
  | [] => []
  | x :: l' => match l' with y :: _ => if (x =? y)%nat then drop_duplicates l' else x :: drop_duplicates l' | [] => [x] end
  end.

(** [Sizzle.uniqueSort].  [hasDuplicate] is set when the sort compares a node with itself, as
    it does with neighbours; without such the loop changes nothing. *)
Definition uniqueSort (l : list nat) : list nat := drop_duplicates (sort_nodes l).
End order.

(** ** Methods *)

(** The selector engine: what a selector says of elements (it throws on what it cannot read),
    whether it needs a context, and what [jQuery( selector )] finds; and the documents and
    contents that frames and templates have. *)
Class Selectors := {
  sel_test : jstr -> res (nat -> bool);
  needsContext : jstr -> bool;
  sel_found : jstr -> res (list nat);
  contentDocument : nat -> option nat;
  template_content : nat -> option nat
}.

(** What [filter] and the like may be given. *)
Inductive qualifier := QFn (f : nat -> nat -> bool) | QNode (n : nat) | QList (l : list nat) | QSel (s : jstr).

Inductive tname := Parent | Parents | ParentsUntil | Next | Prev | NextAll | NextUntil | PrevAll | PrevUntil | Siblings | Children | Contents.

Section methods.
Context (d : dom) `{NodeOrder} `{Selectors}.

(** [jQuery.filter]. *)
Definition jq_filter (expr : jstr) (elems : list nat) (not : bool) : res (list nat) :=
  let expr := if not then str ":not(" ++ expr ++ str ")" else expr in
  match elems with
  | [e] => if is_element d e then t ← sel_test expr; mret (if (t e : bool) then [e] else [])
           else t ← sel_test expr; mret (List.filter t [])
  | _ => t ← sel_test expr; mret (List.filter t (List.filter (is_element d) elems))
  end.

(** [jQuery.grep] with the index. *)
Fixpoint grep_index (f : nat -> nat -> bool) (i : nat) (l : list nat) : list nat :=
  match l with [] => [] | x :: l' => if f i x then x :: grep_index f (S i) l' else grep_index f (S i) l' end.

Definition winnow (elements : list nat) (q : qualifier) (not : bool) : res (list nat) :=
  match q with
  | QFn f => mret (grep_index (fun i e => negb (Bool.eqb (f i e) not)) 0 elements)
  | QNode n => mret (List.filter (fun e => negb (Bool.eqb (e =? n)%nat not)) elements)
  | QList l => mret (List.filter (fun e => negb (Bool.eqb (bool_decide (e ∈ l)) not)) elements)
  | QSel s => jq_filter s elements not
  end.

(** [selector || []]. *)
Definition or_empty (q : option qualifier) : qualifier := match q with Some (QSel []) | None => QList [] | Some q => q end.

Definition fn_filter (this : list nat) (q : option qualifier) : res (list nat) := winnow this (or_empty q) false.
Definition fn_not (this : list nat) (q : option qualifier) : res (list nat) := winnow this (or_empty q) true.

Definition fn_is (this : list nat) (q : option qualifier) : res bool :=
  r ← match q with
      | Some (QSel s) => if needsContext s then l ← sel_found s; winnow this (QList l) false else winnow this (or_empty q) false
      | _ => winnow this (or_empty q) false
      end;
  mret (bool_decide (r <> [])).

(** The function [dir]. *)
Fixpoint dir_loop (until : option qualifier) (l : list nat) : res (list nat) :=
  match l with
  | [] => mret []
  | x :: l' =>
      if nodeType d x =? 9 then mret []
      else if is_element d x then
        stop ← match until with Some q => fn_is [x] (Some q) | None => mret false end;
        if (stop : bool) then mret [] else r ← dir_loop until l'; mret (x :: r)
      else dir_loop until l'
  end.
Definition dir (e : nat) (r : SizzleMatch.dir) (until : option qualifier) : res (list nat) := dir_loop until (walk d r e).

(** The function [siblings], from a first node on. *)
Definition siblings (l : list nat) (elem : option nat) : list nat :=
  List.filter (fun n => is_element d n && negb (bool_decide (elem = Some n))) l.

(** The function [sibling]. *)
Definition sibling (e : nat) (r : SizzleMatch.dir) : list nat := match List.filter (is_element d) (walk d r e) with x :: _ => [x] | [] => [] end.

(** The table of functions; what they answer for an element. *)
Definition step_of (name : tname) (until : option qualifier) (e : nat) : res (list nat) :=
  match name with
  | Parent => mret match parentNode d e with Some p => if nodeType d p =? 11 then [] else [p] | None => [] end
  | Parents => dir e DParent None
  | ParentsUntil => dir e DParent until
  | Next => mret (sibling e DNext)
  | Prev => mret (sibling e DPrev)
  | NextAll => dir e DNext None
  | NextUntil => dir e DNext until
  | PrevAll => dir e DPrev None
  | PrevUntil => dir e DPrev until
  | Siblings => mret (siblings match parentNode d e with Some p => from_first d p | None => [] end (Some e))
  | Children => mret (siblings (from_first d e) None)
  | Contents => mret match contentDocument e with
                     | Some c => [c]
                     | None => childNodes d (default e (template_content e))
                     end
  end.

Definition guaranteedUnique (name : tname) : bool := match name with Children | Contents | Next | Prev => true | _ => false end.
(** [rparentsprev.test( name )], and the names that end with [Until]. *)
Definition rparentsprev (name : tname) : bool := match name with Parents | ParentsUntil | PrevAll | PrevUntil => true | _ => false end.
Definition is_until (name : tname) : bool := match name with ParentsUntil | NextUntil | PrevUntil => true | _ => false end.

Fixpoint map_steps (f : nat -> res (list nat)) (l : list nat) : res (list nat) :=
  match l with [] => mret [] | e :: l' => a ← f e; r ← map_steps f l'; mret (a ++ r) end.

(** [jQuery.fn[ name ]]. *)
Definition traverse (name : tname) (this : list nat) (until : option qualifier) (selector : option qualifier) : res (list nat) :=
  matched ← map_steps (step_of name until) this;
  matched ← match (if is_until name then selector else until) with
            | Some (QSel (c :: s)) => jq_filter (c :: s) matched false
            | _ => mret matched
            end;
  mret (if (1 <? length this)%nat then
          let matched := if guaranteedUnique name then matched else uniqueSort d matched in
          if rparentsprev name then rev matched else matched
        else matched).

(** [has], with the elements that [jQuery( target, this )] finds. *)
Definition fn_has (this targets : list nat) : res (list nat) := fn_filter this (Some (QFn (fun _ e => existsb (contains d e) targets))).

(** [closest], with what [jQuery( selectors )] finds where that is no text: the nodes from an element upwards, before the context. *)
Fixpoint before_context (context : option nat) (l : list nat) : list nat :=
  match l with [] => [] | x :: l' => if bool_decide (Some x = context) then [] else x :: before_context context l' end.

Fixpoint first_closest (test : nat -> res bool) (l : list nat) : res (list nat) :=
  match l with
  | [] => mret []
  | x :: l' => b ← (if nodeType d x <? 11 then test x else mret false); if (b : bool) then mret [x] else first_closest test l'
  end.

Definition closest_test (q : qualifier) (x : nat) : res bool :=
  match q with
  | QSel s => if is_element d x then t ← sel_test s; mret (t x) else mret false
  | QNode n => mret (x =? n)%nat
  | QList l => mret (bool_decide (x ∈ l))
  | QFn _ => mret false
  end.

Definition fn_closest (this : list nat) (q : qualifier) (context : option nat) : res (list nat) :=
  let positional := match q with QSel s => needsContext s | _ => false end in
  matched ← (if positional then mret []
             else map_steps (fun e => first_closest (closest_test q) (before_context context (e :: walk d DParent e))) this);
  mret (if (1 <? length matched)%nat then uniqueSort d matched else matched).

(** [indexOf.call( list, elem )], and [index]. *)
Fixpoint index_of (l : list nat) (x : nat) : Z :=
  match l with [] => -1 | y :: l' => if (y =? x)%nat then 0 else let i := index_of l' x in if i <? 0 then -1 else i + 1 end.

Definition fn_index (this : list nat) (q : option qualifier) : res Z :=
  match q with
  | None | Some (QSel []) =>
      match this with
      | e :: _ => if parentNode d e then r ← traverse PrevAll [e] None None; mret (Z.of_nat (length r)) else mret (-1)
      | [] => mret (-1)
      end
  | Some (QSel s) => l ← sel_found s; mret match this with e :: _ => index_of l e | [] => -1 end
  | Some (QNode n) | Some (QList (n :: _)) => mret (index_of this n)
  | Some (QList []) | Some (QFn _) => mret (-1)
  end.

(** [add] of elements that are found, and [addBack]. *)
Definition fn_add (this found : list nat) : list nat := uniqueSort d (this ++ found).
Definition fn_addBack (this prevObject : list nat) (selector : option qualifier) : res (list nat) :=
  l ← match selector with Some q => fn_filter prevObject (Some q) | None => mret prevObject end; mret (fn_add this l).
End methods.
