(* ===== verification/TraversalProps.v ===== *)
(** * Traversal: document order, and where the methods lead

    The comparison of nodes decides the order of the document, so [uniqueSort] sorts and
    drops duplicates; and the methods answer the elements that they are named after, in
    that order or the reverse. *)

From Stdlib Require Import Sorted.
From S2P Require Import Prelude JsNum JsVal Callbacks Text Regex Sizzle SizzleMatch SizzleMatchFacts SizzleMatchProps Traversal.

(** ** The order of a document *)

Section order.
Context (d : dom) `{order : NodeOrder}.

(** A node or one above it. *)
Definition up (e x : nat) : Prop := x = e \/ above d e x.

(** The order of a document: nodes come before those below them, and with all below them
    before the later siblings. *)
Definition doc_before (a b : nat) : Prop := above d b a \/ exists p q, up a p /\ up b q /\ earlier d q p.

Definition in_doc (e : nat) : Prop := up e (document d).

Context `{!DomLaws d}.

Lemma line_eq e : line d e = match parentNode d e with Some p => line d p ++ [e] | None => [e] end.
Proof. unfold line. rewrite (walk_step d). cbn [step]. destruct (parentNode d e) as [p|]; cbn [rev]; done. Qed.

Lemma line_above e x : above d e x <-> exists y r, line d e = line d x ++ y :: r.
Proof.
  split.
  - induction 1 as [e p H|e p q H _ (y & r & IH)]; rewrite line_eq, H; [by exists e, []|]. exists y, (r ++ [e]). by rewrite IH, <- app_assoc.
  - rewrite above_walk by done. intros (y & r & E). apply (f_equal (@rev nat)) in E. unfold line in E at 1. rewrite rev_involutive, rev_app_distr in E.
    cbn [rev] in E. unfold line in E. rewrite rev_involutive in E. destruct (rev r) as [|z r']; cbn [app] in E; injection E as -> E; rewrite E; [by left|].
    rewrite <- app_assoc. cbn [app]. apply elem_of_app. right. right. by left.
Qed.

Lemma line_last e : exists l, line d e = l ++ [e].
Proof. unfold line. cbn [rev]. by eexists. Qed.

Lemma line_up e x : up e x <-> exists r, line d e = line d x ++ r.
Proof.
  unfold up. rewrite line_above. split.
  - intros [->|(y & r & E)]; [exists []; by rewrite app_nil_r|by eexists].
  - intros [[|y r] E]; [|right; by eexists _, _]. left. rewrite app_nil_r in E. destruct (line_last e) as [l El], (line_last x) as [l' El'].
    rewrite El, El' in E. by apply app_inj_tail in E as [_ ->].
Qed.

(** The beginning of a line is the line of its last node. *)
Lemma line_prefix e c x r : line d e = c ++ x :: r -> line d x = c ++ [x].
Proof.
  revert r. induction e as [e IH] using (well_founded_induction (Wf_nat.well_founded_ltof _ (height d))). intros r E. rewrite line_eq in E.
  destruct r as [|y r _] using rev_ind.
  - destruct (parentNode d e) as [p|] eqn:Hp.
    + apply app_inj_tail in E as [E ->]. by rewrite line_eq, Hp, E.
    + destruct c as [|? [|? ?]]; try done. injection E as ->. by rewrite line_eq, Hp.
  - destruct (parentNode d e) as [p|] eqn:Hp.
    + change (c ++ x :: r ++ [y]) with (c ++ (x :: r) ++ [y]) in E. rewrite app_assoc in E. apply app_inj_tail in E as [E _].
      apply (IH p) with r; [by apply parent_higher|done].
    + apply (f_equal length) in E. cbn in E. rewrite length_app in E. cbn in E. rewrite length_app in E. cbn in E. lia.
Qed.

(** ** Siblings *)

Lemma earlier_same x y : earlier d y x -> exists p, parentNode d x = Some p /\ parentNode d y = Some p.
Proof.
  intros (a & b & c & E). destruct (parentNode d y) as [p|] eqn:Hp; unfold SizzleMatch.siblings in E; rewrite Hp in E; [|by destruct a].
  exists p. split; [|done]. apply child_of_parent. rewrite E. set_solver.
Qed.

Lemma earlier_next x y : earlier d y x <-> y ∈ walk d DNext x.
Proof.
  rewrite (walk_next d). split.
  - intros H. destruct (earlier_same x y H) as (p & Hx & Hy). destruct H as (a & b & c & E). unfold SizzleMatch.siblings in *. rewrite Hx. rewrite Hy in E. rewrite E.
    pose proof (children_once p) as Hn. apply (once_split _ _ _ x Hn) in E as [Hxa _]. rewrite after_app by done. set_solver.
  - intros Hy. unfold SizzleMatch.siblings in Hy. destruct (parentNode d x) as [p|] eqn:Hp; [|by apply elem_of_nil in Hy].
    destruct (place d x p Hp) as (a & b & E & Ha & _). rewrite E, after_app in Hy by done. apply list_elem_of_split in Hy as (b1 & b2 & ->).
    exists a, b1, b2. unfold SizzleMatch.siblings. assert (parentNode d y = Some p) as -> by (apply child_of_parent; rewrite E; set_solver). done.
Qed.

Lemma earlier_irrefl x : ~ earlier d x x.
Proof. rewrite earlier_next. apply (walk_not_self d). Qed.

Lemma earlier_trans x y z : earlier d y x -> earlier d z y -> earlier d z x.
Proof.
  rewrite !earlier_next. intros Hy Hz. apply list_elem_of_split in Hy as (a & b & E). rewrite E. apply (walk_suffix d) in E as ->. set_solver.
Qed.

Lemma earlier_total x y p : parentNode d x = Some p -> parentNode d y = Some p -> x = y \/ earlier d y x \/ earlier d x y.
Proof.
  intros Hx Hy. destruct (place d x p Hx) as (a & b & E & _). apply child_of_parent in Hy as Hi. rewrite E in Hi.
  apply elem_of_app in Hi as [Hi|[->|Hi]%elem_of_cons]; [right; right|by left|right; left]; apply list_elem_of_split in Hi as (l1 & l2 & ->).
  - exists l1, l2, b. unfold SizzleMatch.siblings. by rewrite Hx, E, <- app_assoc.
  - exists a, l1, l2. unfold SizzleMatch.siblings. by rewrite Hy, E.
Qed.

(** ** Lines of nodes in order *)

(** Two lines, where they part: one ends, or goes on with an earlier sibling. *)
Inductive lex : list nat -> list nat -> Prop :=
  | lex_ends y r : lex [] (y :: r)
  | lex_parts x y xs ys : earlier d y x -> lex (x :: xs) (y :: ys)
  | lex_same x xs ys : lex xs ys -> lex (x :: xs) (x :: ys).

Lemma lex_irrefl l : ~ lex l l.
Proof. induction l as [|x l IH]; inversion 1; subst; [by eapply earlier_irrefl|auto]. Qed.

Lemma lex_trans l1 l2 l3 : lex l1 l2 -> lex l2 l3 -> lex l1 l3.
Proof.
  intros H. revert l3. induction H as [y r|x y xs ys H|x xs ys H IH]; intros l3; inversion 1; subst; try by constructor.
  - apply lex_parts. by eapply earlier_trans.
  - apply lex_same. auto.
Qed.

Lemma lex_app l a b : lex (l ++ a) (l ++ b) <-> lex a b.
Proof.
  induction l as [|x l IH]; [done|]. cbn [app]. rewrite <- IH. split; [|apply lex_same]. inversion 1; subst; [|done]. by destruct (earlier_irrefl x).
Qed.

Lemma lex_split xs ys : lex xs ys <->
  (exists y r, ys = xs ++ y :: r) \/ exists c x y ra rb, xs = c ++ x :: ra /\ ys = c ++ y :: rb /\ earlier d y x.
Proof.
  split.
  - induction 1 as [y r|x y xs ys H|x xs ys _ [(y & r & ->)|(c & x' & y & ra & rb & -> & -> & H)]].
    + left. by exists y, r.
    + right. by exists [], x, y, xs, ys.
    + left. by exists y, r.
    + right. by exists (x :: c), x', y, ra, rb.
  - intros [(y & r & ->)|(c & x & y & ra & rb & -> & -> & H)].
    + rewrite <- (app_nil_r xs) at 1. apply lex_app. constructor.
    + apply lex_app. by constructor.
Qed.

(** The order of a document is that of the lines. *)
Lemma before_lex a b : doc_before a b <-> lex (line d a) (line d b).
Proof.
  unfold doc_before. rewrite lex_split, line_above. split; (intros [H|H]; [by left|right]).
  - destruct H as (p & q & Ha & Hb & H). destruct (earlier_same p q H) as (t & Hp & Hq). apply line_up in Ha as [ra Ea], Hb as [rb Eb].
    rewrite (line_eq p), Hp in Ea. rewrite (line_eq q), Hq in Eb. rewrite <- app_assoc in *. by exists (line d t), p, q, ra, rb.
  - destruct H as (c & x & y & ra & rb & Ea & Eb & H). exists x, y. rewrite !line_up. split_and!; [| |done].
    + exists ra. by rewrite (line_prefix _ _ _ _ Ea), <- app_assoc.
    + exists rb. by rewrite (line_prefix _ _ _ _ Eb), <- app_assoc.
Qed.

Lemma before_irrefl a : ~ doc_before a a.
Proof. rewrite before_lex. apply lex_irrefl. Qed.

Lemma before_trans a b c : doc_before a b -> doc_before b c -> doc_before a c.
Proof. rewrite !before_lex. apply lex_trans. Qed.

(** ** The comparison decides the order *)

(** In a line every node is the parent of the next. *)
Fixpoint descends (p : nat) (l : list nat) : Prop := match l with [] => True | x :: l' => parentNode d x = Some p /\ descends x l' end.

Lemma descends_snoc p l x y : descends p (l ++ [x]) -> parentNode d y = Some x -> descends p ((l ++ [x]) ++ [y]).
Proof. revert p. induction l as [|z l IH]; intros p; cbn [app descends]; [intros [? _] ?; by split_and!|]. intros [? ?] ?. split; [done|by apply IH]. Qed.

Lemma line_in_doc e : in_doc e -> parentNode d (document d) = None -> exists l, line d e = document d :: l /\ descends (document d) l.
Proof.
  intros [r E]%line_up Ht. rewrite (line_eq (document d)), Ht in E. exists r. split; [done|].
  revert E. revert e. induction r as [|x r IH] using rev_ind; intros e E; [done|].
  pose proof E as El. change ([document d] ++ r ++ [x]) with ((document d :: r) ++ [x]) in El. rewrite (line_eq e) in El.
  destruct (parentNode d e) as [p|] eqn:Hp; [|destruct r; cbn in El; done]. apply app_inj_tail in El as [El ->].
  specialize (IH p El). destruct r as [|z r _] using rev_ind; cbn [app] in *.
  - destruct (line_last p) as [l Elp]. rewrite El in Elp. destruct l as [|? [|? ?]]; try done. injection Elp as <-. done.
  - apply descends_snoc; [done|]. destruct (line_last p) as [l Elp]. rewrite El in Elp. change (document d :: r ++ [z]) with ((document d :: r) ++ [z]) in Elp.
    by apply app_inj_tail in Elp as [_ <-].
Qed.

Lemma lex_total p xs ys : descends p xs -> descends p ys -> xs = ys \/ lex xs ys \/ lex ys xs.
Proof.
  revert p ys. induction xs as [|x xs IH]; intros p [|y ys]; [auto|right; left; constructor|right; right; constructor|].
  intros [Hx Hxs] [Hy Hys]. destruct (earlier_total x y p Hx Hy) as [->|[H|H]]; [|right; left; by constructor|right; right; by constructor].
  destruct (IH y ys Hxs Hys) as [->|[H|H]]; [by left|right; left; by constructor|right; right; by constructor].
Qed.

Lemma siblingCheck_earlier x y : earlier d y x -> siblingCheck d (Some x) (Some y) = -1 /\ siblingCheck d (Some y) (Some x) = 1.
Proof.
  intros H. cbn [siblingCheck]. rewrite bool_decide_eq_true_2 by (by apply earlier_next). rewrite bool_decide_eq_false_2; [done|].
  intros H'%earlier_next. apply (earlier_irrefl x). by eapply earlier_trans.
Qed.

Lemma discrepancy_lex xs ys i : lex xs ys -> exists n x y, discrepancy xs ys i = ((i + n)%nat, x, y) /\ discrepancy ys xs i = ((i + n)%nat, y, x)
  /\ siblingCheck d x y = -1 /\ siblingCheck d y x = 1.
Proof.
  intros H. revert i. induction H as [y r|x y xs ys H|x xs ys H IH]; intros i.
  - exists 0%nat, None, (Some y). by rewrite Nat.add_0_r.
  - exists 0%nat, (Some x), (Some y). rewrite Nat.add_0_r. cbn [discrepancy]. rewrite (Nat.eqb_sym y x). destruct (x =? y)%nat eqn:E.
    + apply Nat.eqb_eq in E as ->. by destruct (earlier_irrefl y).
    + split_and!; [done..|by apply siblingCheck_earlier|by apply siblingCheck_earlier].
  - destruct (IH (S i)) as (n & a & b & E1 & E2 & H1 & H2). exists (S n), a, b. cbn [discrepancy]. rewrite Nat.eqb_refl. rewrite Nat.add_succ_r. done.
Qed.

(** What [compareDocumentPosition] promises of different nodes of the document: they are not
    disconnected (1), and it is told whether the second follows the first (4). *)
Definition tells_order : Prop := hasCompare = true ->
  (forall x, in_doc x -> default x (ownerDocument x) = document d) /\ (forall a b, in_doc a -> in_doc b -> doc_before a b ->
     Z.testbit (compareDocumentPosition a b) 0 = false /\ Z.testbit (compareDocumentPosition a b) 2 = true /\
     Z.testbit (compareDocumentPosition b a) 0 = false /\ Z.testbit (compareDocumentPosition b a) 2 = false).

Context (tells : tells_order) (top : parentNode d (document d) = None).

Lemma in_doc_top e : in_doc e -> parentNode d e = None -> e = document d.
Proof. intros [->|H] E; [done|]. inversion H; congruence. Qed.

Lemma compare_before a b : hasCompare = true -> in_doc a -> in_doc b -> doc_before a b ->
  sortOrder_compare d a b = -1 /\ sortOrder_compare d b a = 1.
Proof.
  intros Hh Ha Hb Hab. destruct (tells Hh) as [Ho Hp]. destruct (Hp a b Ha Hb Hab) as (E0 & E2 & F0 & F2).
  assert (a <> b) as Hne by (intros ->; by apply before_irrefl in Hab).
  assert (forall x y : Z, Z.testbit x 2 = true -> Z.testbit y 2 = false -> (x =? y) = false /\ (y =? x) = false) as Hd.
  { intros x y Hx Hy. split; apply Z.eqb_neq; congruence. }
  destruct (Hd _ _ E2 F2) as [Ee Ee']. unfold sortOrder_compare. rewrite (proj2 (Nat.eqb_neq a b)), (proj2 (Nat.eqb_neq b a)) by congruence.
  rewrite !Ho by done. rewrite Nat.eqb_refl. cbv zeta. by rewrite E0, E2, F0, F2, Ee, Ee', andb_false_r.
Qed.

Lemma lines_before a b : in_doc a -> in_doc b -> lex (line d a) (line d b) -> sortOrder_lines d a b = -1 /\ sortOrder_lines d b a = 1.
Proof.
  intros Ha Hb H. assert (a <> b) as Hne by (intros ->; by apply lex_irrefl in H). unfold sortOrder_lines.
  rewrite (proj2 (Nat.eqb_neq a b)), (proj2 (Nat.eqb_neq b a)) by congruence.
  destruct (line_in_doc a Ha top) as (la & Ela & _), (line_in_doc b Hb top) as (lb & Elb & _).
  destruct (parentNode d a) as [p|] eqn:Hpa; [|apply (in_doc_top a Ha) in Hpa as ->].
  2: { rewrite Nat.eqb_refl. rewrite (proj2 (Nat.eqb_neq b (document d))) by congruence. by destruct (parentNode d b). }
  destruct (parentNode d b) as [q|] eqn:Hpb.
  2: { apply (in_doc_top b Hb) in Hpb as ->. exfalso. rewrite (line_eq (document d)), top, Ela in H. inversion H as [|? ? ? ? H'|? ? ? H']; subst;
         [by apply earlier_irrefl in H'|inversion H']. }
  destruct (p =? q)%nat eqn:E; [apply Nat.eqb_eq in E as ->; rewrite Nat.eqb_refl|rewrite Nat.eqb_sym, E].
  - rewrite (line_eq a), (line_eq b), Hpa, Hpb in H. apply lex_app in H. apply siblingCheck_earlier. inversion H as [|? ? ? ? H'|? ? ? H']; subst; [done|inversion H'].
  - destruct (discrepancy_lex _ _ 0 H) as (n & x & y & E1 & E2 & H1 & H2). rewrite E1, E2. cbn [Nat.add].
    destruct n as [|n]; [|done]. exfalso. rewrite Ela, Elb in E1. cbn [discrepancy] in E1. rewrite Nat.eqb_refl in E1.
    rewrite Ela, Elb in H. inversion H as [|? ? ? ? H'|? ? ? H']; subst; [by apply earlier_irrefl in H'|].
    destruct (discrepancy_lex _ _ 1 H') as (n & x' & y' & E1' & _). rewrite E1' in E1. cbn in E1. congruence.
Qed.

Lemma lex_lines a b : in_doc a -> in_doc b -> lex (line d a) (line d b) -> sortOrder d a b = -1 /\ sortOrder d b a = 1.
Proof. intros Ha Hb H. unfold sortOrder. destruct hasCompare eqn:E; [apply compare_before, before_lex|apply lines_before]; done. Qed.

Lemma sortOrder_self a : sortOrder d a a = 0.
Proof. unfold sortOrder, sortOrder_compare, sortOrder_lines. rewrite Nat.eqb_refl. by destruct hasCompare. Qed.

Lemma sortOrder_le a b : in_doc a -> in_doc b -> (sortOrder d a b <=? 0) = true <-> a = b \/ doc_before a b.
Proof.
  intros Ha Hb. rewrite before_lex. destruct (line_in_doc a Ha top) as (la & Ela & Da), (line_in_doc b Hb top) as (lb & Elb & Db).
  destruct (lex_total _ _ _ Da Db) as [E|[H|H]].
  - assert (a = b) as -> by (destruct (line_last a) as [l1 E1], (line_last b) as [l2 E2]; rewrite Ela, E in E1; rewrite Elb, E1 in E2; by apply app_inj_tail in E2 as [_ ->]).
    rewrite sortOrder_self. split; auto.
  - apply (lex_same (document d)) in H. rewrite <- Ela, <- Elb in H. destruct (lex_lines a b Ha Hb H) as [-> _]. split; auto.
  - apply (lex_same (document d)) in H. rewrite <- Ela, <- Elb in H. destruct (lex_lines b a Hb Ha H) as [_ ->]. split; [done|].
    intros [->|H']; [by apply lex_irrefl in H|]. destruct (lex_irrefl (line d a)). by eapply lex_trans.
Qed.

Lemma before_total a b : in_doc a -> in_doc b -> a = b \/ doc_before a b \/ doc_before b a.
Proof.
  intros Ha Hb. destruct (sortOrder d a b <=? 0) eqn:E; [apply sortOrder_le in E; tauto|]. right. right. rewrite before_lex.
  destruct (line_in_doc a Ha top) as (la & Ela & Da), (line_in_doc b Hb top) as (lb & Elb & Db). rewrite Ela, Elb.
  destruct (lex_total _ _ _ Da Db) as [El|[H|H]]; [| |by apply lex_same].
  - exfalso. assert (a = b) as ->; [|by rewrite sortOrder_self in E].
    destruct (line_last a) as [l1 E1], (line_last b) as [l2 E2]. rewrite Ela, El in E1. rewrite Elb, E1 in E2. by apply app_inj_tail in E2 as [_ ->].
  - exfalso. assert (doc_before a b) as Hd by (rewrite before_lex, Ela, Elb; by apply lex_same). assert ((sortOrder d a b <=? 0) = true) by (apply sortOrder_le; auto). congruence.
Qed.

(** ** Sorting *)

Definition not_after (a b : nat) : Prop := a = b \/ doc_before a b.

Lemma insert_node_sorted x l : in_doc x -> Forall in_doc l -> StronglySorted not_after l ->
  insert_node d x l ≡ₚ x :: l /\ StronglySorted not_after (insert_node d x l).
Proof.
  intros Hx Hl Hs. induction Hs as [|y l Hs IH Hy]; cbn [insert_node]; [split; [done|by repeat constructor]|].
  apply Forall_cons in Hl as [Hy' Hl]. destruct (sortOrder d x y <=? 0) eqn:E.
  - split; [done|]. apply sortOrder_le in E; [|done..]. constructor; [by constructor|]. constructor; [done|].
    eapply Forall_impl; [exact Hy|]. intros z [<-|Hz]; [done|]. destruct E as [->|E]; [by right|]. right. by eapply before_trans.
  - destruct (IH Hl) as [Hp Hs']. split; [rewrite Hp; by constructor|]. constructor; [done|]. rewrite Hp. constructor; [|done].
    destruct (before_total x y Hx Hy') as [->|[H|H]]; [by left| |by right]. assert ((sortOrder d x y <=? 0) = true) by (apply sortOrder_le; auto). congruence.
Qed.

Lemma sort_nodes_sorted l : Forall in_doc l -> sort_nodes d l ≡ₚ l /\ StronglySorted not_after (sort_nodes d l).
Proof.
  induction 1 as [|x l Hx Hl [Hp Hs]]; cbn [sort_nodes]; [by split; constructor|].
  destruct (insert_node_sorted x (sort_nodes d l)) as [Hp' Hs']; [done|by rewrite Hp|done|]. split; [by rewrite Hp', Hp|done].
Qed.

Lemma drop_duplicates_sorted l : StronglySorted not_after l -> (forall x, x ∈ drop_duplicates l <-> x ∈ l) /\ StronglySorted doc_before (drop_duplicates l).
Proof.
  induction 1 as [|x l Hs [IH1 IH2] Hx]; [by split; [|constructor]|]. cbn [drop_duplicates]. destruct l as [|y l]; [split; [done|by repeat constructor]|].
  destruct (x =? y)%nat eqn:E.
  - apply Nat.eqb_eq in E as ->. split; [|done]. intros z. rewrite IH1. set_solver.
  - apply Nat.eqb_neq in E. split; [intros z; rewrite !(elem_of_cons _ z x), IH1; done|]. constructor; [done|].
    apply Forall_cons in Hx as [[->|Hxy] _]; [done|]. apply Forall_forall. intros z Hz%IH1. apply elem_of_cons in Hz as [->|Hz]; [done|].
    inversion Hs as [|? ? _ Hy]; subst. rewrite Forall_forall in Hy. destruct (Hy z Hz) as [<-|Hyz]; [done|]. by eapply before_trans.
Qed.

Lemma uniqueSort_sorted l : Forall in_doc l -> (forall x, x ∈ uniqueSort d l <-> x ∈ l) /\ StronglySorted doc_before (uniqueSort d l).
Proof.
  intros Hl. destruct (sort_nodes_sorted l Hl) as [Hp Hs]. destruct (drop_duplicates_sorted _ Hs) as [H1 H2]. split; [|done].
  intros x. unfold uniqueSort. by rewrite H1, Hp.
Qed.
End order.

(** ** Lists in order *)

Section lists.
Context {A : Type} (R : A -> A -> Prop).

Fixpoint take_until (stop : A -> bool) (l : list A) : list A :=
  match l with [] => [] | x :: l' => if stop x then [] else x :: take_until stop l' end.

Lemma take_until_in stop l x : x ∈ take_until stop l -> x ∈ l.
Proof. induction l as [|y l IH]; cbn [take_until]; [done|]. destruct (stop y); [by intros ?%elem_of_nil|]. rewrite !elem_of_cons. tauto. Qed.

Lemma sorted_until stop l : StronglySorted R l -> StronglySorted R (take_until stop l).
Proof.
  induction 1 as [|x l _ IH Hx]; cbn [take_until]; [constructor|]. destruct (stop x); constructor; [done|].
  rewrite Forall_forall in *. intros y Hy%take_until_in. auto.
Qed.

Lemma sorted_filter f l : StronglySorted R l -> StronglySorted R (List.filter f l).
Proof.
  induction 1 as [|x l _ IH Hx]; cbn [List.filter]; [constructor|]. destruct (f x); [|done]. constructor; [done|].
  rewrite Forall_forall in *. intros y Hy. apply Hx. rewrite list_elem_of_In, filter_In in Hy. by apply list_elem_of_In, Hy.
Qed.

Lemma sorted_snoc l x : StronglySorted R l -> Forall (fun y => R y x) l -> StronglySorted R (l ++ [x]).
Proof.
  induction 1 as [|y l _ IH Hy]; cbn [app]; [by repeat constructor|]. intros [Hx Hl]%Forall_cons. constructor; [by apply IH|].
  apply Forall_app. split; [done|by apply Forall_singleton].
Qed.

Lemma sorted_split l : (forall a x b y c, l = a ++ x :: b ++ y :: c -> R x y) -> StronglySorted R l.
Proof.
  induction l as [|x l IH]; intros H; constructor.
  - apply IH. intros a x' b y c ->. by apply (H (x :: a) x' b y c).
  - apply Forall_forall. intros y Hy. apply list_elem_of_split in Hy as (b & c & ->). by apply (H [] x b y c).
Qed.
End lists.

Lemma sorted_rev {A} (R : A -> A -> Prop) l : StronglySorted R l -> StronglySorted (flip R) (rev l).
Proof. induction 1 as [|x l _ IH Hx]; cbn [rev]; [constructor|]. apply sorted_snoc; [done|]. by apply Forall_rev. Qed.

(** ** Where a step leads *)

Section steps.
Context (d : dom) `{!DomLaws d} `{order : NodeOrder} (tells : tells_order d) `{Selectors} (top : parentNode d (document d) = None) (tops : forall x, nodeType d x = 9 -> parentNode d x = None).

Definition between_stops (stop : nat -> bool) (r : SizzleMatch.dir) (e x : nat) : Prop :=
  x ∈ walk d r e /\ is_element d x = true /\ stop x = false /\ forall y, y ∈ walk d r e -> x ∈ walk d r y -> is_element d y = true -> stop y = false.

Lemma walk_asym r x y : x ∈ walk d r y -> y ∈ walk d r x -> False.
Proof. intros H1%(walk_rank d) H2%(walk_rank d). lia. Qed.

Lemma until_spec stop r e x : x ∈ take_until stop (List.filter (is_element d) (walk d r e)) <-> between_stops stop r e x.
Proof.
  unfold between_stops. revert x. apply (walk_ind d r (fun _ l => forall x, x ∈ take_until stop (List.filter (is_element d) l) <-> x ∈ l /\ is_element d x = true
    /\ stop x = false /\ forall y, y ∈ l -> x ∈ walk d r y -> is_element d y = true -> stop y = false)); clear e.
  - intros e _ x. cbn. rewrite elem_of_nil. tauto.
  - intros e e' _ IH x. cbn [List.filter]. destruct (is_element d e') eqn:Ee.
    + cbn [take_until]. destruct (stop e') eqn:Es.
      * rewrite elem_of_nil. split; [done|]. intros ([->|Hx]%elem_of_cons & _ & Hs & Hy); [congruence|]. specialize (Hy e' ltac:(by left) Hx Ee). congruence.
      * rewrite elem_of_cons, IH. split.
        -- intros [->|(Hx & He & Hs & Hy)].
           ++ split_and!; [by left|done..|]. intros y [->|Hy]%elem_of_cons Hy' _; [done|by destruct (walk_asym r y e')].
           ++ split_and!; [by right|done..|]. intros y [->|Hy']%elem_of_cons; [done|by apply Hy].
        -- intros ([->|Hx]%elem_of_cons & He & Hs & Hy); [by left|right]. split_and!; [done..|]. intros y Hy'. apply Hy. by right.
    + rewrite IH. split.
      * intros (Hx & He & Hs & Hy). split_and!; [by right|done..|]. intros y [->|Hy']%elem_of_cons; [congruence|by apply Hy].
      * intros ([->|Hx]%elem_of_cons & He & Hs & Hy); [congruence|]. split_and!; [done..|]. intros y Hy'. apply Hy. by right.
Qed.

(** A document has nothing around it. *)
Lemma walk_top r e x l : walk d r e = x :: l -> nodeType d x = 9 -> l = [].
Proof.
  intros E Hx%tops. pose proof (walk_suffix d r e [] x l E) as ->. rewrite (walk_step d).
  assert (step d r x = None) as ->; [|done]. destruct r; cbn [step]; [done|..]; unfold SizzleMatch.siblings; by rewrite Hx.
Qed.

Lemma dir_loop_ok until stop r e : match until with Some q => forall x, fn_is d [x] (Some q) = Ok (stop x) | None => forall x, stop x = false end ->
  dir d e r until = Ok (take_until stop (List.filter (is_element d) (walk d r e))).
Proof.
  intros Hs. unfold dir. apply (walk_ind d r (fun e l => dir_loop d until l = Ok (take_until stop (List.filter (is_element d) l)))); clear e; [done|].
  intros e e' E IH. cbn [dir_loop List.filter].
  assert (match until with Some q => fn_is d [e'] (Some q) | None => mret false end = Ok (stop e')) as Hs' by (destruct until; [apply Hs|by rewrite Hs]).
  destruct (nodeType d e' =? 9) eqn:E9.
  - apply Z.eqb_eq in E9. assert (walk d r e' = []) as -> by (apply (walk_top r e e'); [by rewrite (walk_step d), E|done]).
    assert (is_element d e' = false) as -> by (unfold is_element; rewrite E9; done). done.
  - destruct (is_element d e'); [|done]. rewrite Hs'. cbn [mbind res_bind take_until]. destruct (stop e'); [done|]. by rewrite IH.
Qed.

(** Where the methods lead from an element. *)
Definition leads (name : tname) (stop : nat -> bool) (e x : nat) : Prop :=
  match name with
  | Parent => parentNode d e = Some x /\ nodeType d x <> 11
  | Parents => above d e x /\ is_element d x = true
  | ParentsUntil => between_stops stop DParent e x
  | Next => earlier d x e /\ is_element d x = true /\ forall y, earlier d y e -> is_element d y = true -> y = x \/ earlier d y x
  | Prev => earlier d e x /\ is_element d x = true /\ forall y, earlier d e y -> is_element d y = true -> y = x \/ earlier d x y
  | NextAll => earlier d x e /\ is_element d x = true
  | NextUntil => between_stops stop DNext e x
  | PrevAll => earlier d e x /\ is_element d x = true
  | PrevUntil => between_stops stop DPrev e x
  | Siblings => x <> e /\ is_element d x = true /\ exists p, parentNode d e = Some p /\ parentNode d x = Some p
  | Children => parentNode d x = Some e /\ is_element d x = true
  | Contents => False
  end.

(** The order of what they answer: that of the document, its reverse, or any without
    repetition. *)
Definition ordered (name : tname) (l : list nat) : Prop :=
  match name with
  | Parents | ParentsUntil | PrevAll | PrevUntil => StronglySorted (flip (doc_before d)) l
  | Parent | NextAll | NextUntil | Siblings => StronglySorted (doc_before d) l
  | Next | Prev | Children | Contents => NoDup l
  end.

(** Nodes that are met on the way are in the order of the document or its reverse. *)
Definition way (r : SizzleMatch.dir) : nat -> nat -> Prop := match r with DNext => doc_before d | _ => flip (doc_before d) end.

Lemma walk_way r e x : x ∈ walk d r e -> way r e x.
Proof.
  destruct r; cbn [way]; unfold flip.
  - intros Hx. left. by apply above_walk.
  - intros Hx. right. exists x, e. split_and!; [by left..|by apply earlier_walk].
  - intros Hx. right. exists e, x. split_and!; [by left..|by apply earlier_next].
Qed.

Lemma walk_sorted r e : StronglySorted (way r) (walk d r e).
Proof.
  apply (walk_ind d r (fun _ l => StronglySorted (way r) l)); clear e; [by constructor|]. intros e e' _ IH. constructor; [done|].
  apply Forall_forall. intros x. apply walk_way.
Qed.

Lemma children_sorted p : StronglySorted (doc_before d) (childNodes d p).
Proof.
  apply sorted_split. intros a x b y c E. right. exists x, y. split_and!; [by left..|]. exists a, b, c.
  unfold SizzleMatch.siblings. assert (parentNode d y = Some p) as -> by (apply child_of_parent; rewrite E; set_solver). done.
Qed.

Lemma sorted_NoDup l : StronglySorted (doc_before d) l -> NoDup l.
Proof.
  induction 1 as [|x l _ IH Hx]; constructor; [|done]. intros Hi. rewrite Forall_forall in Hx. apply Hx in Hi. by apply before_irrefl in Hi.
Qed.

(** What a walk up to a stop answers. *)
Lemma dir_step until stop r e : match until with Some q => forall x, fn_is d [x] (Some q) = Ok (stop x) | None => forall x, stop x = false end ->
  exists l, dir d e r until = Ok l /\ (forall x, x ∈ l <-> between_stops stop r e x) /\ StronglySorted (way r) l.
Proof.
  intros Hs. eexists. split_and!; [by apply dir_loop_ok|intros x; apply until_spec|]. apply sorted_until, sorted_filter, walk_sorted.
Qed.

Lemma no_stops r e x : between_stops (fun _ => false) r e x <-> x ∈ walk d r e /\ is_element d x = true.
Proof. unfold between_stops. naive_solver. Qed.

Lemma sibling_step r e : NoDup (sibling d e r) /\ forall x, x ∈ sibling d e r <->
  x ∈ walk d r e /\ is_element d x = true /\ forall y, y ∈ walk d r e -> is_element d y = true -> y = x \/ y ∈ walk d r x.
Proof.
  unfold sibling. destruct (List.filter (is_element d) (walk d r e)) as [|z t] eqn:E.
  - split; [constructor|]. intros x. rewrite elem_of_nil. split; [done|]. intros (Hx & He & _).
    assert (x ∈ List.filter (is_element d) (walk d r e)) as Hi by (rewrite list_elem_of_In, filter_In, <- list_elem_of_In; done). rewrite E in Hi. by apply elem_of_nil in Hi.
  - split; [apply NoDup_singleton|]. destruct (head_filter _ _ _ _ E) as (pre & l & El & Hz & Hp). pose proof (walk_suffix d _ _ _ _ _ El) as ->.
    assert (forall y, y ∈ walk d r e -> is_element d y = true -> y = z \/ y ∈ walk d r z) as Hn.
    { intros y Hy He. rewrite El in Hy. apply elem_of_app in Hy as [Hy|[->|Hy]%elem_of_cons]; [by rewrite Hp in He|auto..]. }
    intros x. rewrite list_elem_of_singleton. split.
    + intros ->. split_and!; [rewrite El; set_solver|done..].
    + intros (Hx & He & Hy). destruct (Hn x Hx He) as [->|Hx']; [done|]. destruct (Hy z) as [->|Hz']; [rewrite El; set_solver|done|done|].
      by destruct (walk_asym r x z).
Qed.

Lemma siblings_step l o : (forall x, x ∈ Traversal.siblings d l o <-> x ∈ l /\ is_element d x = true /\ o <> Some x)
  /\ (StronglySorted (doc_before d) l -> StronglySorted (doc_before d) (Traversal.siblings d l o)).
Proof.
  split; [|apply sorted_filter]. intros x. unfold Traversal.siblings. rewrite list_elem_of_In, filter_In, <- list_elem_of_In, andb_true_iff, negb_true_iff, bool_decide_eq_false. tauto.
Qed.

Lemma step_ok name until stop e : name <> Contents ->
  (is_until name = true -> match until with Some q => forall x, fn_is d [x] (Some q) = Ok (stop x) | None => forall x, stop x = false end) ->
  exists l, step_of d name until e = Ok l /\ (forall x, x ∈ l <-> leads name stop e x) /\ ordered name l.
Proof.
  intros Hc Hu. destruct name; cbn [step_of leads ordered is_until] in *; try done.
  - exists (match parentNode d e with Some p => if nodeType d p =? 11 then [] else [p] | None => [] end). split; [done|].
    destruct (parentNode d e) as [p|]; [|split; [intros x; rewrite elem_of_nil; naive_solver|constructor]].
    destruct (nodeType d p =? 11) eqn:E; [apply Z.eqb_eq in E|apply Z.eqb_neq in E].
    + split; [intros x; rewrite elem_of_nil; naive_solver|constructor].
    + split; [intros x; rewrite list_elem_of_singleton; naive_solver|by repeat constructor].
  - destruct (dir_step None (fun _ => false) DParent e) as (l & El & Hl & Ho); [done|]. exists l. split_and!; [done| |done].
    intros x. by rewrite Hl, no_stops, above_walk.
  - by apply dir_step, Hu.
  - eexists. split; [done|]. destruct (sibling_step DNext e) as [Hn Hx]. split; [|done]. intros x. rewrite Hx. by setoid_rewrite (earlier_next d).
  - eexists. split; [done|]. destruct (sibling_step DPrev e) as [Hn Hx]. split; [|done]. intros x. rewrite Hx. by setoid_rewrite (earlier_walk d).
  - destruct (dir_step None (fun _ => false) DNext e) as (l & El & Hl & Ho); [done|]. exists l. split_and!; [done| |done].
    intros x. by rewrite Hl, no_stops, earlier_next.
  - by apply dir_step, Hu.
  - destruct (dir_step None (fun _ => false) DPrev e) as (l & El & Hl & Ho); [done|]. exists l. split_and!; [done| |done].
    intros x. by rewrite Hl, no_stops, earlier_walk.
  - by apply dir_step, Hu.
  - eexists. split; [done|]. destruct (siblings_step match parentNode d e with Some p => from_first d p | None => [] end (Some e)) as [Hx Ho]. split.
    + intros x. rewrite Hx. destruct (parentNode d e) as [p|]; [|rewrite elem_of_nil; naive_solver]. rewrite from_first_children, <- child_of_parent by done. naive_solver.
    + apply Ho. destruct (parentNode d e); [rewrite from_first_children by done; apply children_sorted|constructor].
  - eexists. split; [done|]. destruct (siblings_step (from_first d e) None) as [Hx Ho]. split.
    + intros x. rewrite Hx, from_first_children, <- child_of_parent by done. naive_solver.
    + apply sorted_NoDup, Ho. rewrite from_first_children by done. apply children_sorted.
Qed.

(** ** Results *)

Lemma above_in_doc e x : in_doc d e -> up d e x -> in_doc d x.
Proof.
  intros He [r E]%line_up; [|done]. destruct (line_in_doc d e He top) as (l & El & _). rewrite El in E. apply line_up; [done|].
  rewrite (line_eq d (document d)), top. destruct (line_last d x) as [l' Ex]. destruct (line d x) as [|y lx]; [by destruct l'|].
  injection E as <- _. by exists lx.
Qed.

Lemma child_in_doc p x : in_doc d p -> parentNode d x = Some p -> in_doc d x.
Proof.
  intros Hp E. right. destruct Hp as [Hp|Hp]; [rewrite Hp; by apply above_parent|by eapply above_more].
Qed.

Lemma leads_in_doc name stop e x : in_doc d e -> leads name stop e x -> in_doc d x.
Proof.
  intros He. assert (forall r, x ∈ walk d r e -> in_doc d x) as Hw.
  { intros r Hx. destruct r; [apply (above_in_doc e); [done|]; right; by apply above_walk|..].
    - apply earlier_walk, earlier_same in Hx as (p & Hp & Hx); [|done..]. apply (child_in_doc p); [|done]. apply (above_in_doc e); [done|]. right. by apply above_parent.
    - apply earlier_next, earlier_same in Hx as (p & Hp & Hx); [|done..]. apply (child_in_doc p); [|done]. apply (above_in_doc e); [done|]. right. by apply above_parent. }
  destruct name; cbn [leads]; unfold between_stops.
  - intros [Hx _]. apply (above_in_doc e); [done|]. right. by apply above_parent.
  - intros [Hx _]. apply (above_in_doc e); [done|by right].
  - intros [Hx _]. by eapply Hw.
  - intros [Hx _]. apply (Hw DNext). by apply earlier_next.
  - intros [Hx _]. apply (Hw DPrev). by apply earlier_walk.
  - intros [Hx _]. apply (Hw DNext). by apply earlier_next.
  - intros [Hx _]. by eapply Hw.
  - intros [Hx _]. apply (Hw DPrev). by apply earlier_walk.
  - intros [Hx _]. by eapply Hw.
  - intros (_ & _ & p & Hp & Hx). apply (child_in_doc p); [|done]. apply (above_in_doc e); [done|]. right. by apply above_parent.
  - intros [Hx _]. by apply (child_in_doc e).
  - done.
Qed.

(** Different elements lead to different ones, where this is said to be so. *)
Lemma leads_once name stop e1 e2 x : guaranteedUnique name = true -> is_element d e1 = true -> is_element d e2 = true ->
  leads name stop e1 x -> leads name stop e2 x -> e1 = e2.
Proof.
  assert (forall y z, earlier d y z -> earlier d z y -> False) as Has by (intros y z H1 H2; apply (earlier_irrefl d y); by eapply earlier_trans).
  destruct name; cbn [guaranteedUnique leads]; try done; intros _ He1 He2 H1 H2.
  - destruct H1 as (H1 & _ & N1), H2 as (H2 & _ & N2). destruct (earlier_same d _ _ H1) as (p & P1 & P), (earlier_same d _ _ H2) as (q & P2 & Q).
    destruct (earlier_total d e1 e2 p) as [E|[E|E]]; [done|congruence|done| |]; exfalso.
    + destruct (N1 e2 E He2) as [->|Hb]; [by apply earlier_irrefl in H2|by apply (Has e2 x)].
    + destruct (N2 e1 E He1) as [->|Hb]; [by apply earlier_irrefl in H1|by apply (Has e1 x)].
  - destruct H1 as (H1 & _ & N1), H2 as (H2 & _ & N2). destruct (earlier_same d _ _ H1) as (p & P1 & P), (earlier_same d _ _ H2) as (q & P2 & Q).
    destruct (earlier_total d e1 e2 p) as [E|[E|E]]; [congruence|congruence|done| |]; exfalso.
    + destruct (N2 e1 E He1) as [->|Hb]; [by apply earlier_irrefl in H1|by apply (Has x e1)].
    + destruct (N1 e2 E He2) as [->|Hb]; [by apply earlier_irrefl in H2|by apply (Has x e2)].
  - destruct H1 as [H1 _], H2 as [H2 _]. congruence.
Qed.

Lemma map_steps_ok (f : nat -> res (list nat)) (P : nat -> list nat -> Prop) this : (forall e, exists l, f e = Ok l /\ P e l) ->
  exists ls, map_steps f this = Ok (List.concat ls) /\ Forall2 P this ls.
Proof.
  intros Hf. induction this as [|e this (ls & E & Hls)]; [by exists []; split|]. destruct (Hf e) as (l & El & Hl). exists (l :: ls).
  cbn [map_steps List.concat]. rewrite El, E. by split; [|constructor].
Qed.

Lemma jq_filter_ok s elems t : sel_test s = Ok t -> jq_filter d s elems false = Ok (List.filter (fun x => is_element d x && t x) elems).
Proof.
  intros Ht. assert (forall l, List.filter t (List.filter (is_element d) l) = List.filter (fun x => is_element d x && t x) l) as Hf.
  { intros l. induction l as [|x l IH]; [done|]. cbn [List.filter]. destruct (is_element d x); cbn [andb List.filter]; by rewrite IH. }
  unfold jq_filter. rewrite Ht. destruct elems as [|e [|e' elems]]; cbn [mbind res_bind]; [done| |by rewrite Hf].
  cbn [List.filter]. destruct (is_element d e); cbn [andb mbind res_bind]; [|done]. by destruct (t e).
Qed.

(** A selector that is given keeps the elements that it selects. *)
Definition picks (selector : option qualifier) (t : nat -> bool) : Prop :=
  match selector with
  | Some (QSel (c :: s)) => exists t0, sel_test (c :: s) = Ok t0 /\ forall x, t x = is_element d x && t0 x
  | _ => forall x, t x = true
  end.

Lemma NoDup_filter_list {A} (f : A -> bool) l : NoDup l -> NoDup (List.filter f l).
Proof. rewrite !NoDup_ListNoDup. apply List.NoDup_filter. Qed.

Lemma ordered_filter name f l : ordered name l -> ordered name (List.filter f l).
Proof. destruct name; cbn [ordered]; (apply sorted_filter || apply NoDup_filter_list). Qed.

Lemma picked selector t matched : picks selector t ->
  match selector with Some (QSel (c :: s)) => jq_filter d (c :: s) matched false | _ => mret matched end = Ok (List.filter t matched).
Proof.
  assert ((forall x, t x = true) -> mret matched = Ok (List.filter t matched)) as Ha by (intros Ht; by rewrite forallb_filter_id by (apply forallb_forall; auto)).
  destruct selector as [[f|n|l|[|c s]]|]; cbn [picks]; try exact Ha. intros (t0 & E & Ht). rewrite (jq_filter_ok _ _ _ E). f_equal.
  apply filter_ext. intros x. by rewrite Ht.
Qed.

(** The steps from several elements, where they cannot meet. *)
Lemma concat_once name stop this ls : guaranteedUnique name = true -> NoDup this -> Forall (fun e => is_element d e = true) this ->
  Forall2 (fun e l => (forall x, x ∈ l <-> leads name stop e x) /\ ordered name l) this ls -> NoDup (List.concat ls).
Proof.
  intros Hg Hn He Hls. induction Hls as [|e l this ls [Hx Ho] Hls IH]; cbn [List.concat]; [constructor|].
  apply NoDup_cons in Hn as [Hne Hn]. apply Forall_cons in He as [He1 He]. apply NoDup_app. split_and!.
  - by destruct name.
  - intros x Hl Hc. apply Hx in Hl. rewrite list_elem_of_In, in_concat in Hc. destruct Hc as (l' & Hl' & Hx').
    apply list_elem_of_In, list_elem_of_lookup in Hl' as [i Hi]. destruct (Forall2_lookup_r _ _ _ _ _ Hls Hi) as (e' & He' & Hx'' & _).
    apply list_elem_of_In, Hx'' in Hx'. apply list_elem_of_lookup_2 in He'. rewrite Forall_forall in He.
    apply Hne. by rewrite (leads_once name stop e e' x Hg He1 (He e' He') Hl Hx').
  - by apply IH.
Qed.

(** The last step of the methods orders what has been found. *)
Lemma arranged name l : Forall (in_doc d) l -> (guaranteedUnique name = true -> NoDup l) ->
  let r := (let matched := if guaranteedUnique name then l else uniqueSort d l in if rparentsprev name then rev matched else matched) in
  (forall x, x ∈ r <-> x ∈ l) /\ ordered name r.
Proof.
  intros Hl Hg. destruct (uniqueSort_sorted d tells top l Hl) as [Hu Hs].
  destruct name; cbn [guaranteedUnique rparentsprev ordered] in *; cbv zeta; (split; [|by auto using sorted_rev]); try done.
  all: intros x; rewrite list_elem_of_In, <- in_rev, <- list_elem_of_In; apply Hu.
Qed.

(** C31: The methods that go from elements to others ([contents] apart) answer what they are
    named after: the ancestors, the next or all later siblings, the children and so on of
    the elements of the object, up to a stop for the [Until] methods, and of these the ones
    that a selector selects.  Every one is there once, in the order of the document, or in
    the reverse order for [parents] and the methods for what is before; where the object has
    one element no sort is needed for that, and the methods that never sort repeat nothing.
    The object holds elements of the document, each of them once: of elements in several
    detached trees [uniqueSort] need not remove all duplicates.  The document has no parent;
    its [compareDocumentPosition], in a browser that has one, tells the order of the
    document ([tells_order]); and stops and selectors are tests of elements that do not
    throw. *)
Theorem traverse_leads name this until selector stop t : name <> Contents ->
  Forall (in_doc d) this -> NoDup this -> Forall (fun e => is_element d e = true) this ->
  (is_until name = true -> match until with Some q => forall x, fn_is d [x] (Some q) = Ok (stop x) | None => forall x, stop x = false end) ->
  picks (if is_until name then selector else until) t ->
  exists l, traverse d name this until selector = Ok l
    /\ (forall x, x ∈ l <-> t x = true /\ exists e, e ∈ this /\ leads name stop e x) /\ ordered name l.
Proof.
  intros Hc Hd Hn He Hu Hp.
  destruct (map_steps_ok (step_of d name until) (fun e l => (forall x, x ∈ l <-> leads name stop e x) /\ ordered name l) this) as (ls & Els & Hls).
  { intros e. by apply step_ok. }
  assert (forall x, x ∈ List.concat ls <-> exists e, e ∈ this /\ leads name stop e x) as Hin.
  { clear - Hls. intros x. induction Hls as [|e l this ls [Hx _] _ IH]; cbn [List.concat].
    - rewrite elem_of_nil. split; [done|]. by intros (e & ?%elem_of_nil & _).
    - rewrite elem_of_app, IH, Hx. set_solver. }
  set (kept := List.filter t (List.concat ls)).
  assert (forall x, x ∈ kept <-> t x = true /\ exists e, e ∈ this /\ leads name stop e x) as Hk
    by (intros x; unfold kept; rewrite list_elem_of_In, filter_In, <- list_elem_of_In, Hin; tauto).
  exists (if (1 <? length this)%nat then let matched := if guaranteedUnique name then kept else uniqueSort d kept in if rparentsprev name then rev matched else matched else kept).
  split; [unfold traverse; rewrite Els; cbn [mbind res_bind]; by rewrite (picked _ _ _ Hp)|]. destruct (1 <? length this)%nat eqn:E.
  - destruct (arranged name kept) as [Ha Ho].
    + apply Forall_forall. intros x (_ & e & Hi & Hx)%Hk. rewrite Forall_forall in Hd. by eapply leads_in_doc; [apply Hd|].
    + intros Hg. apply NoDup_filter_list. by eapply concat_once.
    + split; [|done]. intros x. by rewrite Ha.
  - split; [done|]. apply ordered_filter. apply Nat.ltb_ge in E. destruct Hls as [|e l this ls [_ Ho] [|]]; cbn [List.concat length] in *; [| |lia].
    + destruct name; constructor.
    + by rewrite app_nil_r.
Qed.
End steps.

(** ** A document *)

(** A browser that tells the order of the nodes of a document. *)
Definition telling (d : dom) : NodeOrder := {|
  hasCompare := true;
  sortDetached := true;
  compareDocumentPosition a b := if sortOrder_lines d a b <? 0 then 4 else 2;
  ownerDocument x := if (x =? document d)%nat then None else Some (document d)
|}.

Lemma telling_tells d `{!DomLaws d} : parentNode d (document d) = None -> tells_order d (order := telling d).
Proof.
  intros top _. split.
  - intros x _. cbn [ownerDocument telling]. destruct (Nat.eqb_spec x (document d)) as [->|]; done.
  - intros a b Ha Hb Hab%before_lex; [|done]. destruct (lines_before d top a b Ha Hb Hab) as [E1 E2]. cbn [compareDocumentPosition telling]. by rewrite E1, E2.
Qed.

#[local] Instance demo_order : NodeOrder := telling demo_dom.

(** The document of [demo_dom] with the selector engine, which finds nothing by itself. *)
#[local] Instance demo_selectors : Selectors := {|
  sel_test s := Ok (fun e => match (matches same_char demo_dom s [e] sizzle_start).1 with Ok (Some (_ :: _)) => true | _ => false end);
  needsContext _ := false;
  sel_found _ := Ok [];
  contentDocument _ := None;
  template_content _ := None
|}.

Definition demo_y (x : nat) : bool := is_element demo_dom x && match (matches same_char demo_dom (str ".y") [x] sizzle_start).1 with Ok (Some (_ :: _)) => true | _ => false end.

Lemma traverse_leads_witness :
  traverse demo_dom PrevAll [4; 3]%nat (Some (QSel (str ".y"))) None = Ok [3; 2]%nat /\
  (forall x, x ∈ [3; 2]%nat <-> demo_y x = true /\ exists e, e ∈ [4; 3]%nat /\ leads demo_dom PrevAll (fun _ => false) e x) /\
  ordered demo_dom PrevAll [3; 2]%nat.
Proof.
  destruct (traverse_leads demo_dom (telling_tells demo_dom eq_refl) eq_refl) with (name := PrevAll) (this := [4; 3]%nat) (until := Some (QSel (str ".y"))) (selector := @None qualifier)
    (stop := fun _ : nat => false) (t := demo_y) as (l & El & Hl & Ho).
  - intros x. do 7 (destruct x as [|x]; [by vm_compute|]). done.
  - done.
  - apply Forall_forall. intros e He. right. apply above_more with (p := 1%nat); [|by apply above_parent].
    rewrite !elem_of_cons in He. by destruct He as [->|[->|?%elem_of_nil]].
  - apply (bool_decide_unpack _). by vm_compute.
  - by repeat constructor.
  - done.
  - eexists. split; [done|]. intros x. done.
  - assert (l = [3; 2]%nat) as -> by (vm_compute in El; by injection El as <-). by split_and!.
Defined.

(** From a paragraph and the text after it, [next] goes to the same element twice: it is said
    to be unique for a set of different nodes, but is so only for elements. *)
Example next_twice : traverse demo_dom Next [2; 5]%nat None None = Ok [3; 3]%nat.
Proof. done. Qed.
